(* ===== verification/_CoqProject ===== *)
-Q . S2P
Prelude.v
JsDate.v
Cidr.v
Store.v
Networks.v
Http.v
Push.v
JsColl.v
Reservations.v
Refresh.v
RefreshProofs.v
DnsResolved.v
DnsProofs.v
AssetHooks.v
StaleAlerts.v
Conflicts.v
SubnetSync.v
Registration.v
DhcpSync.v
Ipam.v
Topology.v
Dependency.v
DependencyProofs.v
DependencyStore.v
FmgWorker.v
Login.v
SignIn.v
MonitorSettings.v
MonitorSettingsProofs.v
Monitor.v
MonitorProofs.v
SampleBuffer.v
Aliases.v
Projection.v
ProjectionProofs.v
Tokens.v
Agents.v
AgentsProofs.v
AgentChannel.v
Roles.v
RolesProofs.v
RoleSessions.v
RoleGuard.v
RoleAdmins.v
Quarantine.v
QuarantineProofs.v
QuarantineStates.v
