(* ===== verification/Prelude.v ===== *)
(** * Verification of the Shelob / Polaris IP address management service

    The program under [src/src/] keeps IP blocks, the subnets carved out of them
    and the reservations of addresses in a database, and writes reservations to
    FortiGate firewalls as DHCP entries.  This library models its core as Rocq
    functions and proves what those functions promise.

    ** Parts of the program and where they are modelled

    - [Prelude]: this file.  Errors ([exn], [result]), the handler monad
      [M S A = S → S * result A] in which every asynchronous handler is written
      (a thrown error keeps the writes made before it, only [transaction] rolls
      back), the frame and invariant predicates on handlers ([readonly],
      [atomic_fail], [keeps]) with the tactics that discharge them, JavaScript
      integers and strings, and generic list lemmas.
    - [Cidr]: [utils/cidr.ts].  The [netmask] package is the class [NetmaskLib]
      with the laws [NetmaskLaws]; [RefNetmask] implements it.  [denotes] and
      [covers] give CIDR text its meaning as a set of addresses.
    - [Store]: the rows of [prisma/schema.prisma] with their unique and cascading
      constraints.  One Prisma table is the class [PrismaTable] with the laws
      [TableLaws] (stated up to permutation: Prisma promises no row order);
      [ListStore] implements it.  [State] is the state of a handler: the tables,
      the integrations and assets it reads, the world outside the process and
      the audit log.
    - [Networks]: [services/ipService.ts], [blockService.ts] and
      [subnetService.ts], one definition per function.
    - [Http]: [fgRequest] of [services/fortigateService.ts] and [rpcInner],
      [fmgProxyRest] and [resolveDeviceMgmtIpViaFmg] of
      [services/fortimanagerService.ts].  [fetch], the clock and the process
      variable for TLS checks are the class [Net].
    - [Push]: [services/reservationPushService.ts].  [RefGate] is a FortiGate
      behind [fetch] on which the operations run.
    - [Reservations]: [services/reservationService.ts] and
      [releaseDnsResolvedAt] of [dnsResolvedReservationService.ts].
    - [Refresh], [RefreshProofs]: [services/subnetRefreshService.ts].  The proofs
      compare it with a reference that changes each row on its own
      ([matched_row], [gone]); [RefScope] is a FortiGate with reserved addresses
      and leases.
    - [DnsResolved], [DnsProofs]: [services/dnsResolvedReservationService.ts].  The
      [inet] operators of PostgreSQL are the class [PgInet].
    - [AssetHooks]: the hooks of [db.ts] on writes to assets, and POST
      /assets/bulk-monitor.
    - [StaleAlerts]: [services/reservationStaleService.ts].
    - [Conflicts]: [upsertConflict] of [api/routes/integrations.ts] and the
      reservation half of [api/routes/conflicts.ts].
    - [DhcpSync]: the phases of [syncDhcpSubnets] that write reservations, over
      [Conflicts].  What the asset index answers is an argument.
    - [SubnetSync]: phases 1 and 2 of [syncDhcpSubnets] in
      [api/routes/integrations.ts], which match discovered subnets with the table.
      Discovery is not a step of the network invariant of [Networks], which it
      breaks ([SubnetSync.sync_overlaps_deprecated]); it keeps [live_ok], the same
      invariant without the deprecated siblings.
    - [Registration]: what saving and deleting an integration does to the tables
      ([registerFortinetHost] and DELETE /integrations/:id of
      [api/routes/integrations.ts]), and [jobs/resolvePolarisPushedConflicts.ts].
    - [Ipam]: all of these over one database; [service_step] is a block or subnet
      handler, a reservation handler or job, a refresh, a reconcile, an alert, a
      registration, the deletion of an integration, a settled conflict, either
      half of a sync, or a write of another part of the service to assets and
      integrations.  Which columns a synced row must keep is the class [PushRule]:
      deleting integrations is a step under [orphaned_rule] only.
    - [JsColl]: JavaScript's [Map], [Set] and stable [sort].
    - [Topology]: [utils/fortinetSerialPattern.ts] and
      [services/interfaceTopologyService.ts], which infer links between devices
      from the peer names in their interface lists.
    - [Dependency], [DependencyProofs]: the pure half of
      [services/dependencyTreeService.ts], the layers of the tree of devices and
      the verdict which assets are unreachable because of their parents.
    - [DependencyStore]: the database half of it, the recompute and the
      reconciler, with the endpoints of [api/routes/assets.ts] that edit
      overrides and tests.
    - [FmgWorker]: [services/fmgWorker.ts], one step per turn of the event loop.
    - [Login]: [api/routes/auth.ts] with [utils/loginLockout.ts],
      [utils/mfaPending.ts], [utils/password.ts], [services/totpService.ts] and the
      password reset of [api/routes/users.ts].  Argon2, otpauth and the random
      source are the class [AuthLib].
    - [SignIn]: [services/azureAuthService.ts] and the [/auth/azure] login and
      callback, beside the handlers of [Login] in one process.  [node-saml] is the
      class [SamlLib].
    - [MonitorSettings], [MonitorSettingsProofs]: the four-tier settings hierarchy
      of [services/monitoringService.ts] with its caches,
      [utils/pollingCompatibility.ts], the endpoints of
      [api/routes/monitorSettings.ts], and the writes of
      [api/routes/integrations.ts] and [services/credentialService.ts] that
      concern it.  The UUID check of zod is the class [ZodLib].
    - [Monitor], [MonitorProofs]: [recordProbeResult] and [runMonitorPass] of
      [services/monitoringService.ts], over [MonitorSettings] and
      [DependencyStore].
    - [SampleBuffer]: [services/sampleWriteBuffer.ts] and [utils/dbRetry.ts], one
      operation per turn of the event loop; the answers of the database and
      deletions of assets are events.
    - [Aliases]: [utils/manufacturerNormalize.ts],
      [services/manufacturerAliasService.ts], the normalising extension of
      [db.ts] and the job [jobs/normalizeManufacturers.ts].
    - [Projection], [ProjectionProofs]: [utils/assetProjection.ts],
      [services/projectionDriftService.ts], POST /agents/system-info of
      [api/routes/agents.ts] and [reconcileMacAddresses] of
      [utils/macAddresses.ts].

    - [Tokens]: [services/apiTokenService.ts], POST /api-tokens of
      [api/routes/apiTokens.ts] and the bearer half of [api/middleware/auth.ts].
      [randomBytes] is the class [TokenBytes], Argon2's soundness [ArgonLaws].
    - [Agents], [AgentsProofs]: [services/agentTokenService.ts], the state machine
      of [services/agentInstallService.ts], POST /agents/enroll and /heartbeat of
      [api/routes/agents.ts] and the agent endpoints of [api/routes/assets.ts].
      A background run is split where it waits for the host, and the halves of all
      runs and requests interleave.  The texts of stored install errors are
      shortened.
    - [AgentChannel]: [services/agentChannelService.ts], one operation per callback
      of the event loop.
    - [Roles]: [api/middleware/permissions.ts], [services/roleService.ts],
      [api/routes/roles.ts] and the user endpoints of [api/routes/users.ts] that
      concern roles.  [RolesProofs] has what the edits write, [RoleSessions] the
      interleaving of edits, requests and sign-ins with the invariant of the
      tables, [RoleGuard] the decision of the guards, [RoleAdmins] the last
      administrator.

    - [JsDate]: the calendar arithmetic of ECMAScript dates ([setMonth] and what it
      is made of), in a process whose local time is UTC.
    - [Quarantine], [QuarantineProofs], [QuarantineStates]:
      [services/assetQuarantineService.ts] and [assetSightingService.ts], the
      status and deletion endpoints of [api/routes/assets.ts] and the writes of
      discovery, of the directory syncs and of [jobs/decommissionStaleAssets.ts]
      that meet a quarantined asset. [RefFleet] is a FortiGate with quarantine
      targets behind [fetch]; [QuarantineStates] runs sequences of operations
      ([exec]) and has the invariant [book_ok].

    Calls go from [Reservations] to [Push] to [Http], and from [Networks] and
    [Reservations] to [Cidr] and [Store]; from [Monitor] to [MonitorSettings] and
    [DependencyStore], and from [Projection] to [Aliases].  A client is proved
    against the class of what it calls ([NetmaskLaws], [IpamStoreLaws],
    [scope_device]) and the reference implementations discharge the classes, so no
    law is vacuous.

    ** What the theorems show

    - C1, C2: address arithmetic.  Dotted quads round-trip, and the first-fit
      search finds the lowest free aligned block.
    - C3 to C5: blocks and subnets.  The network invariant holds in every state
      the handlers reach, up to the first bulk allocation that succeeds with a
      template larger than its block ([Networks.bulkAllocate_escapes_block]); bulk
      allocation is exact on success and leaves the tables alone on failure
      ([Networks.createSubnet_correct] says the same of one creation); a sync of
      discovered subnets keeps the live ones disjoint.
    - C6, C7: the devices.  A push is verified before it is reported, and push
      and unpush restore the scope.
    - C8 to C13: reservations.  The invariant of the reservations over every
      interleaving of the steps of [Ipam]; create, release, next free address and
      expiry on every branch; the backoff window.
    - C14 to C17: the reconcilers.  A refresh equals a row-by-row reference, the
      DNS reconcile settles after one run, a sync of reservations holds what the
      devices report and spares what operators made, and an accepted conflict is
      settled.  ([StaleAlerts.flag_alerts_once]: the stale job alerts once.)
    - C18 to C22: the dependency tree.  The first pass layers exactly the assets
      with a chain of cables to a firewall, by distance; the verdict says that
      every parent is down, reading verdicts in layer order; a recompute replaces
      the computed half of its scope by the fresh layering; the reconciler
      converges in one run, and an operator override cannot close a cycle.
      ([DependencyProofs.keptEdges_dag]: the kept edges form a DAG.)
    - C23: the inferred links are exact.
    - C24: the proxy lane of the FortiManager worker goes step by step with a
      first-come-first-served server.
    - C25: every session of a run comes from a password, a second factor or a
      SAML response.  ([Login.five_failures_lock]: five failures lock the account;
      [SignIn.challenge_single_use]: of calls that do not overlap, at most one gets a
      session from a challenge.)
    - C26: the caching settings resolver implements the uncached one.
    - C27: the five-state machine of the monitor classifies the probe history.
      ([MonitorProofs.monitor_pass_schedule] and
      [MonitorProofs.down_parent_quiets_child] are about the passes.)
    - C28, C29: the sample buffer.  A flush ends, and no sample is lost.
    - C30 to C32: projection.  Projected fields have their types, the cached
      normaliser implements the alias table, and a push of the agent brings the
      columns to their projection, or for the manufacturer to what the client
      makes of it.
    - C33 to C35: tokens and agents.  A token is accepted exactly while the
      registry of issued tokens grants it, an agent's bearer exactly while the
      book of enrolments holds it, and no probe request hangs or is answered
      twice.
    - C36, C37: access control.  A guard decides by the stored role, but for three
      kinds of steps that overtake an edit, and the last administrator is kept.
      ([RoleSessions.access_tables_reachable]: the role table keeps its
      invariant.)
    - C38 to C40: quarantine.  A push, a check and a removal agree about the
      device; the columns of a quarantined asset keep their invariant through
      requests, discovery, directory syncs and the decommission job, and its
      status agrees with them but for three writes that go around the quarantine;
      and the calls of a token stay inside its integrations.

    Other theorems state defects as the code has them, among them
    [Networks.bulkAllocate_escapes_block], [Http.tls_switch_overlap],
    [Ipam.createReservation_blocked_by_history],
    [Ipam.lost_readback_orphans_entry],
    [RefreshProofs.returning_lease_blocks_refresh],
    [RefreshProofs.refresh_renames_pushed_row],
    [DnsProofs.second_decommission_keeps_row], [DnsProofs.same_name_takes_row],
    [AssetHooks.bulk_deleted_asset_keeps_row],
    [StaleAlerts.refresh_silences_next_alert],
    [SubnetSync.renamed_device_loses_subnets],
    [SubnetSync.overlapping_syncs_create_twins],
    [Conflicts.withdrawn_proposal_stays_silent],
    [Conflicts.rejection_silences_other_proposals],
    [DhcpSync.lost_push_becomes_lease], [DhcpSync.vip_seen_once_stays],
    [DhcpSync.second_release_refused], [DhcpSync.proposal_written_before_review],
    [DhcpSync.renewed_lease_expires], [DhcpSync.promoted_lease_expires],
    [SampleBuffer.deleted_asset_blocks_table],
    [SampleBuffer.shutdown_skips_running_flush], [Login.codes_unbounded],
    [Login.overlapping_codes_reuse_challenge], [SignIn.disabled_sso_signs_in],
    [MonitorSettingsProofs.overlapping_load_goes_stale],
    [MonitorSettingsProofs.deleted_credential_stays_cached],
    [MonitorProofs.refresh_misses_the_agent],
    [ProjectionProofs.alias_chain_never_settles],
    [AgentsProofs.overlapping_enrolments], [AgentsProofs.revoked_agent_enrols],
    [AgentsProofs.failed_upgrade_is_stuck],
    [AgentChannel.stale_close_kills_replacement], [RoleGuard.restart_trusts_stale],
    [RoleGuard.overtaken_sign_in_keeps_old_rights],
    [RoleAdmins.role_edit_strips_last_admin],
    [QuarantineProofs.refused_delete_reads_as_absent],
    [QuarantineStates.moved_laptop_leaves_entry],
    [QuarantineStates.token_release_by_requarantine],
    [QuarantineStates.decommissioned_quarantine_is_stranded],
    [QuarantineStates.directory_sync_drops_quarantine] and
    [QuarantineStates.created_in_quarantine].

    ** Fuel and bounds

    The first-fit loop runs with [fit_fuel] steps, one more than there are
    candidates in the block; the page loop with [page_fuel] pages, one more than
    the block has.  The theorems about both prove that a result is returned, so
    the out-of-fuel value never occurs on a block.  The addresses of a block are
    integers below 2^32; JavaScript's bit operations are written out at 32 bits.
    The searches over the dependency graph run with [bfs_fuel], [ok_fuel] and
    [cycle_fuel], bounds on the links or the rows they can visit, and the
    attachment of assets without a cable runs one round per asset and one more;
    each total correctness theorem shows that the bound is enough.

    ** What is not modelled

    Strings are sequences of bytes (the source's texts are UTF-16; the texts the
    services compare and slice are ASCII).  JSON fields are read at their
    declared type, numbers in stored settings are integers and coordinates are
    rationals.  An update the source does not await runs at once.  Handlers run
    one at a time, except where a file models interleavings explicitly.  Message
    texts of audit events are not kept.

    The remote half of an agent's installation is a parameter of the step that
    receives its result; Argon2 and the random source are classes.

    Left out, because it is exchange with devices and services whose data the
    source only copies: the probes and collectors of the monitor (SNMP, SSH,
    WinRM, ICMP, REST), the inventory half of discovery and its sync into assets,
    the conflicts of assets, directory clients, DNS, OUI and geocoding lookups.
    Left out as reading or set-up: request parsing and response shaping of the
    HTTP routes that are not named above, the list views, roll-ups and pruning of
    samples, capacity reports, OIDC and LDAP sign-in, SAML logout, MIB and profile
    management, metrics and logs, the queue set-up, the update service, the front
    end, the agent and the deployment scripts. *)

From stdpp Require Export base gmap strings list pretty numbers sorting.
From Stdlib Require Export ZArith Lia Ascii.

Open Scope Z_scope.

Create HintDb ipam.

#[global] Arguments String.append !_ _ / : simpl nomatch.

(** * Errors and the handler monad

    A handler runs against a state [S] and either returns or throws.  A thrown
    error does not roll the state back: only [transaction] does. *)

Inductive exn :=
  | AppError (httpStatus : Z) (message : string)
  | PrismaError (code : string)
  | TypeError (message : string)
  | JsError (message : string).

#[global] Instance exn_eq_dec : EqDecision exn.
Proof. solve_decision. Defined.

Inductive result (A : Type) :=
  | Ok (a : A)
  | Throw (e : exn).
Arguments Ok {A} a.
Arguments Throw {A} e.

#[global] Instance result_eq_dec `{EqDecision A} : EqDecision (result A).
Proof. solve_decision. Defined.

#[global] Instance result_ret : MRet result := λ A, Ok.
#[global] Instance result_bind : MBind result := λ A B f m,
  match m with Ok a => f a | Throw e => Throw e end.
#[global] Instance result_fmap : FMap result := λ A B f m,
  match m with Ok a => Ok (f a) | Throw e => Throw e end.

Definition is_ok {A} (r : result A) : bool :=
  match r with Ok _ => true | Throw _ => false end.

(** [try { return m } catch { return d }] on a pure computation. *)
Definition try_or {A} (m : result A) (d : A) : A :=
  match m with Ok a => a | Throw _ => d end.

(** A library call that throws a plain [Error]. *)
Definition of_opt {A} (o : option A) (e : exn) : result A :=
  match o with Some a => Ok a | None => Throw e end.

Definition M (S A : Type) : Type := S → S * result A.

Declare Scope handler_scope.
Delimit Scope handler_scope with handler.
Bind Scope handler_scope with M.
Open Scope handler_scope.

Section handler_ops.
Context {S : Type}.

Definition hret {A} (a : A) : M S A := λ s, (s, Ok a).
Definition hthrow {A} (e : exn) : M S A := λ s, (s, Throw e).
Definition hbind {A B} (m : M S A) (k : A → M S B) : M S B := λ s,
  match m s with
  | (s', Ok a) => k a s'
  | (s', Throw e) => (s', Throw e)
  end.
Definition hget : M S S := λ s, (s, Ok s).
Definition hput (s : S) : M S unit := λ _, (s, Ok tt).
Definition hgets {A} (f : S → A) : M S A := λ s, (s, Ok (f s)).
Definition hmodify (f : S → S) : M S unit := λ s, (f s, Ok tt).
(** [try { m } catch (e) { h e }]: the writes of [m] before the error stay. *)
Definition hcatch {A} (m : M S A) (h : exn → M S A) : M S A := λ s,
  match m s with
  | (s', Ok a) => (s', Ok a)
  | (s', Throw e) => h e s'
  end.
Definition hguard (b : bool) (e : exn) : M S unit :=
  if b then hthrow e else hret tt.
Definition hlift {A} (r : result A) : M S A := λ s, (s, r).
Fixpoint hforeach {A} (l : list A) (f : A → M S unit) : M S unit :=
  match l with
  | [] => hret tt
  | x :: l' => hbind (f x) (λ _, hforeach l' f)
  end.
End handler_ops.

Notation "'let!' x := m 'in' k" := (hbind m (λ x, k))
  (at level 10, x pattern, m at level 100, k at level 200) : handler_scope.
Notation "m1 ';!' m2" := (hbind m1 (λ _, m2))
  (at level 110, right associativity) : handler_scope.

(** [if (b) throw e;] as the source writes its guards. *)
Notation "'throw_if' b e" := (hguard b e)
  (at level 10, b at level 9, e at level 9) : handler_scope.

Lemma hbind_ok {S A B} (m : M S A) (k : A → M S B) s s' b :
  hbind m k s = (s', Ok b) →
  ∃ s1 a, m s = (s1, Ok a) ∧ k a s1 = (s', Ok b).
Proof. unfold hbind. destruct (m s) as [s1 [a|e]]; naive_solver. Qed.

Lemma hbind_throw {S A B} (m : M S A) (k : A → M S B) s s' e :
  hbind m k s = (s', Throw e) →
  m s = (s', Throw e) ∨ ∃ s1 a, m s = (s1, Ok a) ∧ k a s1 = (s', Throw e).
Proof. unfold hbind. destruct (m s) as [s1 [a|e']]; naive_solver. Qed.

Lemma hguard_ok {S} b e (s s' : S) u :
  hguard b e s = (s', Ok u) → b = false ∧ s' = s.
Proof. unfold hguard. destruct b; intros [=]; by subst. Qed.

Lemma hlift_ok {S A} (r : result A) (s s' : S) a :
  hlift r s = (s', Ok a) → r = Ok a ∧ s' = s.
Proof. intros [=]. by subst. Qed.

(** Invert a run that returned, statement by statement. *)
Ltac hinv :=
  repeat match goal with
  | H : hbind _ _ _ = (_, Ok _) |- _ =>
      let s := fresh "s" in let a := fresh "a" in let Hm := fresh "Hm" in
      apply hbind_ok in H as (s & a & Hm & H)
  | H : hguard _ _ _ = (_, Ok _) |- _ =>
      let Hg := fresh "Hg" in apply hguard_ok in H as [Hg H]; subst
  | H : hgets _ _ = (_, Ok _) |- _ => unfold hgets in H; injection H as ? ?; subst
  | H : hret _ _ = (_, Ok _) |- _ => unfold hret in H; injection H as ? ?; subst
  | H : hlift _ _ = (_, Ok _) |- _ =>
      let Hr := fresh "Hr" in apply hlift_ok in H as [Hr H]; subst
  | H : hthrow _ _ = (_, Ok _) |- _ => discriminate H
  end.

(** Run the monad's plumbing only. *)
Ltac hred :=
  cbn beta iota zeta delta [hbind hguard hret hthrow hgets hget hput hmodify hlift hcatch
    negb orb andb mbind result_bind of_opt fst snd].

(** Step over the next statement, whose run [H] is known. *)
Tactic Notation "hrun" uconstr(H) := unfold hbind at 1; rewrite H; hred.

(** ** Frames: what a statement leaves alone *)

Definition readonly {S A} (m : M S A) : Prop := ∀ s s' r, m s = (s', r) → s' = s.

(** A run that throws leaves the state as it found it. *)
Definition atomic_fail {S A} (m : M S A) : Prop := ∀ s s' e, m s = (s', Throw e) → s' = s.

Lemma readonly_hret {S A} (a : A) : readonly (S := S) (hret a).
Proof. by intros s s' r [= <- <-]. Qed.
Lemma readonly_hthrow {S A} e : readonly (S := S) (A := A) (hthrow e).
Proof. by intros s s' r [= <- <-]. Qed.
Lemma readonly_hgets {S A} (f : S → A) : readonly (hgets f).
Proof. by intros s s' r [= <- <-]. Qed.
Lemma readonly_hlift {S A} (r : result A) : readonly (S := S) (hlift r).
Proof. by intros s s' r' [= <- <-]. Qed.
Lemma readonly_hguard {S} b e : readonly (S := S) (hguard b e).
Proof. intros s s' r. unfold hguard. destruct b; by intros [= <- <-]. Qed.

Lemma readonly_hbind {S A B} (m : M S A) (k : A → M S B) :
  readonly m → (∀ a, readonly (k a)) → readonly (hbind m k).
Proof.
  intros Hm Hk s s' r. unfold hbind. destruct (m s) as [s1 [a|e]] eqn:Hms;
    apply Hm in Hms as ->; [apply Hk|by intros [= <- <-]].
Qed.

Lemma readonly_hforeach {S A} (l : list A) (f : A → M S unit) :
  (∀ a, readonly (f a)) → readonly (hforeach l f).
Proof.
  intros Hf. induction l as [|a l IH]; simpl; [apply readonly_hret|].
  by apply readonly_hbind.
Qed.

Lemma hforeach_ok {S A} (l : list A) (f : A → M S unit) s s' u :
  (∀ a, readonly (f a)) → hforeach l f s = (s', Ok u) →
  s' = s ∧ ∀ a, a ∈ l → f a s = (s, Ok tt).
Proof.
  intros Hf. induction l as [|a l IH]; simpl.
  - intros [= <- <-]. split; [done|]. intros a Ha. by inversion Ha.
  - intros (s1 & [] & Ha & Hl)%hbind_ok. pose proof (Hf _ _ _ _ Ha) as ->.
    destruct (IH Hl) as [-> Hall]. split; [done|].
    intros x [->|Hx]%elem_of_cons; [done|by apply Hall].
Qed.

Lemma readonly_atomic {S A} (m : M S A) : readonly m → atomic_fail m.
Proof. intros Hm s s' e. apply Hm. Qed.

Lemma atomic_hbind {S A B} (m : M S A) (k : A → M S B) :
  readonly m → (∀ a, atomic_fail (k a)) → atomic_fail (hbind m k).
Proof.
  intros Hm Hk s s' e. unfold hbind. destruct (m s) as [s1 [a|e']] eqn:Hms;
    apply Hm in Hms as ->; [apply Hk|by intros [= <- <-]].
Qed.

Create HintDb frame.
#[export] Hint Resolve readonly_hret readonly_hthrow readonly_hgets readonly_hlift
  readonly_hguard readonly_hbind readonly_hforeach readonly_atomic atomic_hbind : frame.

(** Discharge a frame goal through binds, guards and case splits. *)
Ltac solve_frame :=
  intros; repeat (match goal with
  | |- atomic_fail (hbind _ _) => apply atomic_hbind
  | |- readonly (hbind _ _) => apply readonly_hbind
  | |- readonly (hforeach _ _) => apply readonly_hforeach
  | |- ∀ _, _ => intros ?
  | |- context [match ?x with _ => _ end] => destruct x
  end); eauto with frame.

(** ** Invariants of statements *)

(** [m] keeps [P], whether it returns or throws. *)
Definition keeps {S A} (P : S → Prop) (m : M S A) : Prop :=
  ∀ s s' r, P s → m s = (s', r) → P s'.

Lemma keeps_readonly {S A} (P : S → Prop) (m : M S A) : readonly m → keeps P m.
Proof. by intros Hm s s' r Hs ->%Hm. Qed.

Lemma keeps_hbind {S A B} (P : S → Prop) (m : M S A) (k : A → M S B) :
  keeps P m → (∀ a, keeps P (k a)) → keeps P (hbind m k).
Proof.
  intros Hm Hk s s' r Hs. unfold hbind. destruct (m s) as [s1 [a|e]] eqn:Hms.
  - intros Hr. eapply Hk; [|done]. by eapply Hm.
  - intros [= <- <-]. by eapply Hm.
Qed.

Lemma keeps_hcatch {S A} (P : S → Prop) (m : M S A) (h : exn → M S A) :
  keeps P m → (∀ e, keeps P (h e)) → keeps P (hcatch m h).
Proof.
  intros Hm Hh s s' r Hs. unfold hcatch. destruct (m s) as [s1 [a|e]] eqn:Hms.
  - intros [= <- <-]. by eapply Hm.
  - intros Hr. eapply Hh; [|done]. by eapply Hm.
Qed.

(** The second statement may rely on what the first one returned. *)
Lemma keeps_hbind_post {S A B} (P : S → Prop) (Q : A → Prop) (m : M S A) (k : A → M S B) :
  keeps P m → (∀ s s' a, m s = (s', Ok a) → Q a) → (∀ a, Q a → keeps P (k a)) →
  keeps P (hbind m k).
Proof.
  intros Hm HQ Hk s s' r Hs. unfold hbind. destruct (m s) as [s1 [a|e]] eqn:Hms.
  - intros Hr. eapply Hk; [|by eapply Hm|done]. by eapply HQ.
  - intros [= <- <-]. by eapply Hm.
Qed.

(** ** Runs with a postcondition for each outcome *)

Section runs.
Context {S : Type}.

(** From [P], [m] returns a value and a state that satisfy [Q], or throws in a
    state that satisfies [E]. *)
Definition triple {A} (P : S → Prop) (m : M S A) (Q : A → S → Prop) (E : S → Prop) : Prop :=
  ∀ s, P s → match m s with (s', Ok a) => Q a s' | (s', Throw _) => E s' end.

Lemma triple_ret {A} (P : S → Prop) (a : A) (Q : A → S → Prop) E : (∀ s, P s → Q a s) → triple P (hret a) Q E.
Proof. intros HPQ s. apply HPQ. Qed.
Lemma triple_bind {A B} (P : S → Prop) (R : A → S → Prop) (m : M S A) (k : A → M S B) Q E :
  triple P m R E → (∀ a, triple (R a) (k a) Q E) → triple P (hbind m k) Q E.
Proof.
  intros Hm Hk s Hs. specialize (Hm s Hs). unfold hbind. destruct (m s) as [s' [a|e]]; [by apply Hk|done].
Qed.
Lemma triple_catch {A} (P E' : S → Prop) (m : M S A) (h : exn → M S A) Q E :
  triple P m Q E' → (∀ e, triple E' (h e) Q E) → triple P (hcatch m h) Q E.
Proof.
  intros Hm Hh s Hs. specialize (Hm s Hs). unfold hcatch. destruct (m s) as [s' [a|e]]; [done|by apply Hh].
Qed.
Lemma triple_weaken {A} (P P' : S → Prop) (m : M S A) (Q Q' : A → S → Prop) (E E' : S → Prop) :
  triple P m Q E → (∀ s, P' s → P s) → (∀ a s, Q a s → Q' a s) → (∀ s, E s → E' s) → triple P' m Q' E'.
Proof. intros Hm HP HQ HE s Hs%HP%Hm. destruct (m s) as [s' [a|e]]; auto. Qed.
Lemma triple_pre {A} (P P' : S → Prop) (m : M S A) (Q : A → S → Prop) E :
  (∀ s, P' s → P s) → triple P m Q E → triple P' m Q E.
Proof. intros HP Hm. by eapply triple_weaken. Qed.
Lemma triple_total {A} (P : S → Prop) (m : M S A) (Q : A → S → Prop) E : triple P m Q (λ _, False) → triple P m Q E.
Proof. intros Hm. by eapply triple_weaken. Qed.
End runs.

(** No error. *)
Notation never := (λ _, False).

Create HintDb inv.
#[export] Hint Resolve keeps_hbind keeps_hcatch : inv.
#[export] Hint Extern 2 (keeps _ _) => apply keeps_readonly; solve [eauto with frame] : inv.

(** Split a handler into its statements and discharge each from [inv]. *)
Ltac solve_keeps :=
  intros; repeat (match goal with
  | |- keeps _ (hbind _ _) => apply keeps_hbind
  | |- keeps _ (hcatch _ _) => apply keeps_hcatch
  | |- ∀ _, _ => intros ?
  | |- keeps _ (match ?x with _ => _ end) => destruct x
  end); eauto with inv.

(** * JavaScript numbers used as integers

    The source's numbers are doubles that hold integers below 2^53; the bitwise
    operators go through ToInt32 / ToUint32. *)

Definition to_uint32 (z : Z) : Z := z mod 2 ^ 32.
Definition to_int32 (z : Z) : Z :=
  let u := z mod 2 ^ 32 in if u <? 2 ^ 31 then u else u - 2 ^ 32.
(** [a << n] *)
Definition js_shl (a n : Z) : Z := to_int32 (Z.shiftl (to_int32 a) n).
(** [a >>> n] *)
Definition js_ushr (a n : Z) : Z := Z.shiftr (to_uint32 a) n.
(** [a & b] *)
Definition js_and (a b : Z) : Z := to_int32 (Z.land (to_int32 a) (to_int32 b)).

Lemma to_uint32_id z : 0 ≤ z < 2 ^ 32 → to_uint32 z = z.
Proof. apply Z.mod_small. Qed.

Lemma to_uint32_range z : 0 ≤ to_uint32 z < 2 ^ 32.
Proof. apply Z.mod_pos_bound. lia. Qed.

Lemma to_int32_mod z : to_int32 z mod 2 ^ 32 = z mod 2 ^ 32.
Proof.
  unfold to_int32. case_match.
  - by rewrite Zmod_mod.
  - rewrite Zminus_mod, Z_mod_same_full, Z.sub_0_r, !Zmod_mod. done.
Qed.

Lemma to_int32_small z : 0 ≤ z < 2 ^ 31 → to_int32 z = z.
Proof.
  intros H. unfold to_int32. rewrite Z.mod_small by lia.
  destruct (Z.ltb_spec z (2 ^ 31)); lia.
Qed.

Lemma js_shl_mod a n :
  0 ≤ n → js_shl a n mod 2 ^ 32 = (a * 2 ^ n) mod 2 ^ 32.
Proof.
  intros Hn. unfold js_shl.
  rewrite to_int32_mod, Z.shiftl_mul_pow2, Zmult_mod, to_int32_mod by done.
  by rewrite <-Zmult_mod.
Qed.

(** [x & 255] reads the low byte whatever the sign of the 32-bit operand. *)
Lemma js_and_255 a : js_and a 255 = a mod 256.
Proof.
  unfold js_and. rewrite (to_int32_small 255) by lia.
  change 255 with (Z.ones 8). rewrite Z.land_ones by lia.
  assert (to_int32 a mod 2 ^ 8 = a mod 2 ^ 8) as ->.
  { assert (2 ^ 8 | 2 ^ 32) as Hd by (exists (2 ^ 24); done).
    rewrite <-(Z.mod_mod_divide (to_int32 a) _ _ Hd), to_int32_mod.
    by apply Z.mod_mod_divide. }
  apply to_int32_small.
  pose proof (Z.mod_pos_bound a 256 ltac:(done)). lia.
Qed.

(** * JavaScript strings

    Strings are lists of bytes; the case and whitespace operations are those of
    the ASCII range, the range of the identifiers, addresses and user names the
    source applies them to. *)

Module Js.

Definition is_digit (c : ascii) : bool :=
  let n := Z.of_nat (Ascii.nat_of_ascii c) in (48 <=? n) && (n <=? 57).

Definition digit_val (c : ascii) : Z := Z.of_nat (Ascii.nat_of_ascii c) - 48.

Definition is_space (c : ascii) : bool :=
  let n := Z.of_nat (Ascii.nat_of_ascii c) in ((9 <=? n) && (n <=? 13)) || (n =? 32).

Definition lower (c : ascii) : ascii :=
  let n := Ascii.nat_of_ascii c in
  if (65 <=? Z.of_nat n) && (Z.of_nat n <=? 90) then Ascii.ascii_of_nat (n + 32)%nat else c.

Definition upper (c : ascii) : ascii :=
  let n := Ascii.nat_of_ascii c in
  if (97 <=? Z.of_nat n) && (Z.of_nat n <=? 122) then Ascii.ascii_of_nat (n - 32)%nat else c.

Fixpoint smap (f : ascii → ascii) (s : string) : string :=
  match s with
  | EmptyString => EmptyString
  | String c s' => String (f c) (smap f s')
  end.

Fixpoint sfilter (f : ascii → bool) (s : string) : string :=
  match s with
  | EmptyString => EmptyString
  | String c s' => if f c then String c (sfilter f s') else sfilter f s'
  end.

Fixpoint sforallb (f : ascii → bool) (s : string) : bool :=
  match s with
  | EmptyString => true
  | String c s' => f c && sforallb f s'
  end.

(** [s.toLowerCase()] and [s.toUpperCase()] *)
Definition toLowerCase : string → string := smap lower.
Definition toUpperCase : string → string := smap upper.

Fixpoint trimStart (s : string) : string :=
  match s with
  | String c s' => if is_space c then trimStart s' else s
  | EmptyString => EmptyString
  end.

Fixpoint trimEnd (s : string) : string :=
  match s with
  | EmptyString => EmptyString
  | String c s' =>
      match trimEnd s' with
      | EmptyString => if is_space c then EmptyString else String c EmptyString
      | r => String c r
      end
  end.

(** [s.trim()] *)
Definition trim (s : string) : string := trimEnd (trimStart s).

(** A string is falsy exactly when it is empty. *)
Definition truthy (s : string) : bool :=
  match s with EmptyString => false | _ => true end.

(** [undefined], [null] and the empty string are falsy. *)
Definition otruthy (s : option string) : bool :=
  match s with Some s => truthy s | None => false end.

(** [a || b] on a string that may be undefined. *)
Definition oor (s : option string) (d : string) : string :=
  match s with Some s => if truthy s then s else d | None => d end.

(** [s.startsWith(p)] *)
Fixpoint startsWith (p s : string) : bool :=
  match p, s with
  | EmptyString, _ => true
  | String a p', String b s' => Ascii.eqb a b && startsWith p' s'
  | _, _ => false
  end.

(** [s.includes(needle)] *)
Fixpoint includes (needle s : string) : bool :=
  startsWith needle s ||
  match s with
  | EmptyString => false
  | String _ s' => includes needle s'
  end.

(** [s.slice(n)] *)
Fixpoint drop (n : nat) (s : string) : string :=
  match n, s with
  | O, _ => s
  | S n', String _ s' => drop n' s'
  | S _, EmptyString => EmptyString
  end.

(** [s.slice(0, n)] *)
Fixpoint take (n : nat) (s : string) : string :=
  match n, s with
  | S n', String c s' => String c (take n' s')
  | _, _ => EmptyString
  end.

(** [s.split(sep)] for a one-character separator. *)
Fixpoint split (sep : ascii) (s : string) : list string :=
  match s with
  | EmptyString => [EmptyString]
  | String c s' =>
      if Ascii.eqb c sep then EmptyString :: split sep s'
      else match split sep s' with
           | w :: ws => String c w :: ws
           | [] => [String c EmptyString]
           end
  end.

(** [l.join(sep)] *)
Fixpoint join (sep : string) (l : list string) : string :=
  match l with
  | [] => EmptyString
  | [w] => w
  | w :: l' => w +:+ sep +:+ join sep l'
  end.

Fixpoint parse_digits (acc : Z) (s : string) : Z :=
  match s with
  | String c s' => if is_digit c then parse_digits (acc * 10 + digit_val c) s' else acc
  | EmptyString => acc
  end.

Definition parse_unsigned (s : string) : option Z :=
  match s with
  | String c _ => if is_digit c then Some (parse_digits 0 s) else None
  | EmptyString => None
  end.

(** [parseInt(s, 10)]: leading white space, a sign, then the longest run of
    digits; [None] is NaN. *)
Definition parseInt (s : string) : option Z :=
  match trimStart s with
  | String c s' =>
      if Ascii.eqb c "-" then Z.opp <$> parse_unsigned s'
      else if Ascii.eqb c "+" then parse_unsigned s'
      else parse_unsigned (String c s')
  | EmptyString => None
  end.

Fixpoint repeat (n : nat) (c : ascii) : string :=
  match n with O => EmptyString | S n' => String c (repeat n' c) end.

(** [s.padStart(width, c)] for a one-character pad. *)
Definition padStart (width : nat) (c : ascii) (s : string) : string :=
  repeat (width - String.length s) c +:+ s.

End Js.

(** ** Lemmas on the string operations *)

Lemma append_assoc (a b c : string) : (a +:+ b) +:+ c = a +:+ b +:+ c.
Proof. induction a as [|x a IH]; simpl; [done|]. by rewrite ?IH. Qed.

Lemma append_nil_r (a : string) : a +:+ "" = a.
Proof. induction a as [|x a IH]; simpl; [done|]. by rewrite ?IH. Qed.

Lemma append_length (a b : string) :
  String.length (a +:+ b) = (String.length a + String.length b)%nat.
Proof. induction a as [|x a IH]; simpl; [done|]. by rewrite ?IH. Qed.

Lemma sforallb_append f a b :
  Js.sforallb f (a +:+ b) = Js.sforallb f a && Js.sforallb f b.
Proof. induction a as [|c a IH]; simpl; [done|]. by rewrite IH, andb_assoc. Qed.

Lemma sforallb_impl (f g : ascii → bool) s :
  (∀ c, f c = true → g c = true) → Js.sforallb f s = true → Js.sforallb g s = true.
Proof.
  intros Hfg. induction s as [|c s IH]; simpl; [done|].
  rewrite !andb_true_iff. naive_solver.
Qed.

Lemma lower_idem c : Js.lower (Js.lower c) = Js.lower c.
Proof. by destruct c as [[] [] [] [] [] [] [] []]. Qed.
Lemma lower_space c : Js.is_space (Js.lower c) = Js.is_space c.
Proof. by destruct c as [[] [] [] [] [] [] [] []]. Qed.

Lemma toLowerCase_idem s : Js.toLowerCase (Js.toLowerCase s) = Js.toLowerCase s.
Proof. induction s as [|c s IH]; simpl; [done|]. unfold Js.toLowerCase in *. simpl. by rewrite lower_idem, IH. Qed.
Lemma toLowerCase_truthy s : Js.truthy (Js.toLowerCase s) = Js.truthy s.
Proof. by destruct s. Qed.

(** [trim] leaves no space at either end, and case does not matter to it. *)
Lemma trimStart_idem s : Js.trimStart (Js.trimStart s) = Js.trimStart s.
Proof. induction s as [|c s IH]; simpl; [done|]. destruct (Js.is_space c) eqn:Hc; [done|]. simpl. by rewrite Hc. Qed.
Lemma trimEnd_idem s : Js.trimEnd (Js.trimEnd s) = Js.trimEnd s.
Proof.
  induction s as [|c s IH]; simpl; [done|].
  destruct (Js.trimEnd s) as [|d r] eqn:Hr; [|cbn [Js.trimEnd] in IH |- *; by rewrite IH].
  destruct (Js.is_space c) eqn:Hc; simpl; by rewrite ?Hc.
Qed.
Lemma trimStart_trimEnd s : Js.trimStart (Js.trimEnd (Js.trimStart s)) = Js.trimEnd (Js.trimStart s).
Proof.
  induction s as [|c s IH]; simpl; [done|]. destruct (Js.is_space c) eqn:Hc; [done|].
  cbn [Js.trimEnd]. destruct (Js.trimEnd s); cbn; by rewrite ?Hc; cbn; rewrite ?Hc.
Qed.
Lemma trim_idem s : Js.trim (Js.trim s) = Js.trim s.
Proof. unfold Js.trim. by rewrite trimStart_trimEnd, trimEnd_idem. Qed.
Lemma trim_lower s : Js.trim (Js.toLowerCase s) = Js.toLowerCase (Js.trim s).
Proof.
  assert (∀ s, Js.trimStart (Js.toLowerCase s) = Js.toLowerCase (Js.trimStart s)) as Hs.
  { clear s. unfold Js.toLowerCase. induction s as [|c s IH]; cbn; [done|]. rewrite lower_space. by destruct (Js.is_space c). }
  assert (∀ s, Js.trimEnd (Js.toLowerCase s) = Js.toLowerCase (Js.trimEnd s)) as He.
  { clear s Hs. unfold Js.toLowerCase. induction s as [|c s IH]; cbn; [done|]. rewrite IH, lower_space.
    destruct (Js.trimEnd s); cbn; [by destruct (Js.is_space c)|done]. }
  unfold Js.trim. by rewrite Hs, He.
Qed.

Lemma startsWith_append p s : Js.startsWith p (p +:+ s) = true.
Proof. induction p as [|c p IH]; simpl; [done|]. by rewrite Ascii.eqb_refl. Qed.

Lemma drop_append p s : Js.drop (String.length p) (p +:+ s) = s.
Proof. by induction p. Qed.

Lemma split_no_sep sep w :
  Js.sforallb (λ c, negb (Ascii.eqb c sep)) w = true → Js.split sep w = [w].
Proof.
  induction w as [|c w IH]; simpl; [done|].
  rewrite andb_true_iff, negb_true_iff. intros [-> Hw]. by rewrite IH.
Qed.

Lemma split_append sep w s :
  Js.sforallb (λ c, negb (Ascii.eqb c sep)) w = true →
  Js.split sep (w +:+ String sep s) = w :: Js.split sep s.
Proof.
  induction w as [|c w IH]; simpl; [by rewrite Ascii.eqb_refl|].
  rewrite andb_true_iff, negb_true_iff. intros [-> Hw]. by rewrite IH.
Qed.

(** Splitting undoes joining when no field contains the separator. *)
Lemma split_join sep l :
  l ≠ [] →
  Forall (λ w, Js.sforallb (λ c, negb (Ascii.eqb c sep)) w = true) l →
  Js.split sep (Js.join (String sep "") l) = l.
Proof.
  intros Hne Hl. induction Hl as [|w [|w' l] Hw Hl IH]; [done|by apply split_no_sep|].
  change (Js.join (String sep "") (w :: w' :: l))
    with (w +:+ String sep (Js.join (String sep "") (w' :: l))).
  rewrite split_append by done. f_equal. by apply IH.
Qed.

(** ** Decimal printing and [parseInt] *)

Lemma pretty_N_char_digit x :
  (x < 10)%N →
  Js.is_digit (pretty_N_char x) = true ∧ Js.digit_val (pretty_N_char x) = Z.of_N x.
Proof.
  intros Hx.
  assert (x = 0 ∨ x = 1 ∨ x = 2 ∨ x = 3 ∨ x = 4 ∨ x = 5 ∨ x = 6 ∨ x = 7 ∨ x = 8 ∨ x = 9)%N
    as Hc by lia.
  naive_solver.
Qed.

Lemma parse_digits_go x s :
  Js.parse_digits 0 (pretty_N_go x s) = Js.parse_digits (Z.of_N x) s.
Proof.
  revert s. induction (N.lt_wf_0 x) as [x _ IH]; intros s.
  assert (x = 0 ∨ 0 < x)%N as [->|Hx] by lia; [done|].
  rewrite pretty_N_go_step by done.
  rewrite IH by (apply N.div_lt; lia). simpl.
  destruct (pretty_N_char_digit (x `mod` 10)) as [-> ->]; [by apply N.mod_lt|].
  f_equal. rewrite N2Z.inj_div, N2Z.inj_mod. pose proof (Z.div_mod (Z.of_N x) 10). lia.
Qed.

Lemma pretty_N_go_digits x s :
  Js.sforallb Js.is_digit s = true →
  Js.sforallb Js.is_digit (pretty_N_go x s) = true.
Proof.
  revert s. induction (N.lt_wf_0 x) as [x _ IH]; intros s Hs.
  assert (x = 0 ∨ 0 < x)%N as [->|Hx] by lia; [done|].
  rewrite pretty_N_go_step by done. apply IH; [apply N.div_lt; lia|].
  simpl. destruct (pretty_N_char_digit (x `mod` 10)) as [-> _]; [by apply N.mod_lt|done].
Qed.

Lemma pretty_N_go_head x s :
  (0 < x)%N → ∃ c s', pretty_N_go x s = String c s' ∧ Js.is_digit c = true.
Proof.
  revert s. induction (N.lt_wf_0 x) as [x _ IH]; intros s Hx.
  rewrite pretty_N_go_step by done.
  destruct (N.eq_0_gt_0_cases (x `div` 10)%N) as [Hd|Hd].
  - rewrite Hd, pretty_N_go_0.
    eexists _, _. split; [done|].
    by apply pretty_N_char_digit, N.mod_lt.
  - apply IH; [apply N.div_lt; lia|done].
Qed.

Lemma pretty_Z_nonneg z : 0 ≤ z → pretty z = pretty (Z.to_N z).
Proof. by destruct z. Qed.

Lemma pretty_digits z : 0 ≤ z → Js.sforallb Js.is_digit (pretty z) = true.
Proof.
  intros Hz. rewrite pretty_Z_nonneg by done. unfold pretty, pretty_N.
  case_decide; [done|]. by apply pretty_N_go_digits.
Qed.

Lemma pretty_head z :
  0 ≤ z → ∃ c s, pretty z = String c s ∧ Js.is_digit c = true.
Proof.
  intros Hz. rewrite pretty_Z_nonneg by done. unfold pretty, pretty_N.
  case_decide; [by eexists _, _|]. apply pretty_N_go_head. lia.
Qed.

Lemma parse_digits_pretty z : 0 ≤ z → Js.parse_digits 0 (pretty z) = z.
Proof.
  intros Hz. rewrite pretty_Z_nonneg by done. unfold pretty, pretty_N.
  case_decide as Hd.
  - change (Js.parse_digits 0 "0") with 0. lia.
  - rewrite parse_digits_go. simpl. lia.
Qed.

Lemma digit_not_space c :
  Js.is_digit c = true →
  Js.is_space c = false ∧ Ascii.eqb c "-" = false ∧ Ascii.eqb c "+" = false.
Proof.
  unfold Js.is_digit, Js.is_space.
  destruct (Ascii.eqb_spec c "-") as [->|]; [done|].
  destruct (Ascii.eqb_spec c "+") as [->|]; [done|]. lia.
Qed.

(** Strings that start with a digit are read as a run of digits. *)
Lemma parseInt_digit_head c s :
  Js.is_digit c = true → Js.parseInt (String c s) = Some (Js.parse_digits 0 (String c s)).
Proof.
  intros Hc. unfold Js.parseInt. cbn [Js.trimStart].
  destruct (digit_not_space c Hc) as (-> & -> & ->).
  unfold Js.parse_unsigned. by rewrite Hc.
Qed.

Lemma parseInt_pretty z : 0 ≤ z → Js.parseInt (pretty z) = Some z.
Proof.
  intros Hz. destruct (pretty_head z Hz) as (c & s & Heq & Hc).
  rewrite Heq, parseInt_digit_head, <-Heq by done. by rewrite parse_digits_pretty.
Qed.

Lemma parse_digits_nonneg s acc : 0 ≤ acc → 0 ≤ Js.parse_digits acc s.
Proof.
  revert acc. induction s as [|c s IH]; intros acc Ha; simpl; [done|].
  destruct (Js.is_digit c) eqn:Hc; [|done]. apply IH.
  unfold Js.is_digit, Js.digit_val in *. lia.
Qed.

Lemma digit_neq c d : Js.is_digit c = true → Js.is_digit d = false → negb (Ascii.eqb c d) = true.
Proof.
  intros Hc Hd. rewrite negb_true_iff. destruct (Ascii.eqb_spec c d); [congruence|done].
Qed.

(** A printed number contains no separator that is not a digit. *)
Lemma pretty_no_sep sep z :
  0 ≤ z → Js.is_digit sep = false →
  Js.sforallb (λ c, negb (Ascii.eqb c sep)) (pretty z) = true.
Proof.
  intros Hz Hsep. eapply sforallb_impl; [|by apply pretty_digits].
  intros c Hc. by apply digit_neq.
Qed.

(** * Lists *)

Lemma StronglySorted_fmap_in {A B} (R : A → A → Prop) (Q : B → B → Prop) (f : A → B) l :
  (∀ x y, x ∈ l → y ∈ l → R x y → Q (f x) (f y)) →
  StronglySorted R l → StronglySorted Q (f <$> l).
Proof.
  intros Hf Hs. induction Hs as [|x l Hs IH Hx]; [constructor|].
  rewrite fmap_cons. constructor.
  - apply IH. intros y z Hy Hz. apply Hf; by right.
  - apply Forall_fmap, Forall_forall. intros y Hy. rewrite Forall_forall in Hx.
    simpl. apply Hf; [left|by right|by apply Hx].
Qed.

(** ** Lists *)

#[global] Instance lfilter_Permutation {A} (p : A → bool) :
  Proper (Permutation ==> Permutation) (List.filter p).
Proof.
  intros l l' Hl. induction Hl as [|x l l' _ IH|x y l|l l' l'' _ IH _ IH']; simpl.
  - done.
  - destruct (p x); [by constructor|done].
  - destruct (p x), (p y); try done. by constructor.
  - by etrans.
Qed.

(** ** Boolean filters and permutations *)

Lemma elem_bfilter {A} (f : A → bool) l x : x ∈ List.filter f l ↔ x ∈ l ∧ f x = true.
Proof. by rewrite !list_elem_of_In, filter_In. Qed.

Lemma filter_filter {A} (p q : A → bool) l : List.filter p (List.filter q l) = List.filter (λ r, q r && p r) l.
Proof. induction l as [|z l IH]; [done|]. simpl. destruct (q z); simpl; [|done]. by rewrite IH. Qed.
Lemma filter_filter_sub {A} (p q : A → bool) l :
  (∀ x, p x = true → q x = true) → List.filter p (List.filter q l) = List.filter p l.
Proof.
  intros Hpq. induction l as [|x l IH]; [done|]. cbn. destruct (q x) eqn:Hq; cbn; rewrite IH; [done|].
  destruct (p x) eqn:Hp; [|done]. by rewrite Hpq in Hq.
Qed.
Lemma take_length n s : String.length (Js.take n s) = (n `min` String.length s)%nat.
Proof. revert s. induction n as [|n IH]; intros [|c s]; cbn; [done..|]. by rewrite IH. Qed.
Lemma NoDup_bfilter {A} (f : A → bool) l : NoDup l → NoDup (List.filter f l).
Proof. rewrite !NoDup_ListNoDup. apply List.NoDup_filter. Qed.

Lemma filter_nil {A} (f : A → bool) l : (∀ x, x ∈ l → f x = false) → List.filter f l = [].
Proof.
  induction l as [|x l IH]; intros Hl; [done|]. simpl. rewrite Hl by left. apply IH. intros y Hy. apply Hl. by right.
Qed.

Lemma bfilter_ext {A} (f g : A → bool) l : (∀ x, x ∈ l → f x = g x) → List.filter f l = List.filter g l.
Proof.
  induction l as [|x l IH]; intros Hl; [done|]. simpl. rewrite (Hl x) by left. rewrite IH; [done|].
  intros y Hy. apply Hl. by right.
Qed.
Lemma fmap_ext_elem {A B} (f g : A → B) (l : list A) : (∀ x, x ∈ l → f x = g x) → f <$> l = g <$> l.
Proof. intros Hl. apply list_fmap_ext. intros i x Hx. apply Hl, (list_elem_of_lookup_2 _ i _ Hx). Qed.

(** [find] returns the first match. *)
Lemma find_lookup {A} (p : A → bool) (l : list A) :
  match List.find p l with
  | Some x => ∃ k, l !! k = Some x ∧ p x = true ∧ ∀ j y, (j < k)%nat → l !! j = Some y → p y = false
  | None => ∀ j y, l !! j = Some y → p y = false
  end.
Proof.
  induction l as [|a l IH]; simpl; [done|]. destruct (p a) eqn:Ha.
  - exists 0%nat. split_and!; [done..|]. intros j y Hj. lia.
  - destruct (List.find p l) as [x|].
    + destruct IH as (k & Hk & Hx & Hlt). exists (S k). split_and!; [done..|].
      intros [|j] y Hj Hy; [by simplify_eq/=|]. eapply Hlt; [|done]. lia.
    + intros [|j] y Hy; [by simplify_eq/=|]. by eapply IH.
Qed.

(** The same over the images of an interval. *)
Lemma find_seqZ {A} (p : A → bool) (g : Z → A) a m :
  match List.find p (g <$> seqZ a m) with
  | Some x => ∃ i, a ≤ i < a + m ∧ x = g i ∧ p (g i) = true ∧ ∀ j, a ≤ j < i → p (g j) = false
  | None => ∀ i, a ≤ i < a + m → p (g i) = false
  end.
Proof.
  pose proof (find_lookup p (g <$> seqZ a m)) as Hf.
  assert (∀ i, a ≤ i < a + m → (g <$> seqZ a m) !! Z.to_nat (i - a) = Some (g i)) as Hl.
  { intros i Hi. rewrite list_lookup_fmap, (proj2 (lookup_seqZ a m (Z.to_nat (i - a)) i)); [done|]. lia. }
  destruct (List.find p (g <$> seqZ a m)) as [x|].
  - destruct Hf as (k & Hk & Hx & Hlt). rewrite list_lookup_fmap in Hk.
    apply fmap_Some in Hk as (i & Hi & ->). apply lookup_seqZ in Hi as [-> Hi].
    exists (a + Z.of_nat k). split_and!; [lia|lia|done|done|]. intros j Hj.
    eapply (Hlt (Z.to_nat (j - a))); [lia|]. apply Hl. lia.
  - intros i Hi. eapply Hf. by apply Hl.
Qed.
