(* ===== verification/JsDate.v ===== *)
(** * JavaScript dates

    The calendar arithmetic of [Date] as ECMAScript defines it (years, months and
    days from a time value in milliseconds, [MakeDay] and [setMonth]), in a process
    whose local time is UTC. *)

From S2P Require Import Prelude.

Definition DAY_MS : Z := 86400000.

Definition Day (t : Z) : Z := t / DAY_MS.
Definition TimeWithinDay (t : Z) : Z := t mod DAY_MS.

Definition DayFromYear (y : Z) : Z :=
  365 * (y - 1970) + (y - 1969) / 4 - (y - 1901) / 100 + (y - 1601) / 400.

Definition leap (y : Z) : bool := (y mod 4 =? 0) && (negb (y mod 100 =? 0) || (y mod 400 =? 0)).

(** The year a day falls in: an estimate, one year too large at most. *)
Definition YearFromDay (d : Z) : Z :=
  let y := 1970 + (400 * d + 400 * 366) / 146097 in
  if d <? DayFromYear y then (if d <? DayFromYear (y - 1) then y - 2 else y - 1) else y.

Definition month_lengths (y : Z) : list Z :=
  [31; if leap y then 29 else 28; 31; 30; 31; 30; 31; 31; 30; 31; 30; 31].

(** The month (0 to 11) and day of the month (from 1) of the [n]-th day of a year. *)
Fixpoint month_and_date (ms : list Z) (m n : Z) : Z * Z :=
  match ms with
  | [] => (m, n + 1)
  | [_] => (m, n + 1)
  | l :: ms' => if n <? l then (m, n + 1) else month_and_date ms' (m + 1) (n - l)
  end.

Definition days_before (y m : Z) : Z := foldr Z.add 0 (take (Z.to_nat m) (month_lengths y)).

Definition MonthFromTime (t : Z) : Z :=
  let d := Day t in let y := YearFromDay d in
  fst (month_and_date (month_lengths y) 0 (d - DayFromYear y)).
Definition DateFromTime (t : Z) : Z :=
  let d := Day t in let y := YearFromDay d in
  snd (month_and_date (month_lengths y) 0 (d - DayFromYear y)).

(** The month may lie outside 0 to 11, the date outside the month. *)
Definition MakeDay (year month date : Z) : Z :=
  let ym := year + month / 12 in
  DayFromYear ym + days_before ym (month mod 12) + date - 1.
Definition MakeDate (day time : Z) : Z := day * DAY_MS + time.

Definition getMonth : Z → Z := MonthFromTime.
(** [d.setMonth(m)] on the time value [t] *)
Definition setMonth (t month : Z) : Z :=
  MakeDate (MakeDay (YearFromDay (Day t)) month (DateFromTime t)) (TimeWithinDay t).

(** ** The calendar is sound *)

Lemma DayFromYear_succ y : DayFromYear (y + 1) = DayFromYear y + (if leap y then 366 else 365).
Proof.
  unfold DayFromYear, leap.
  assert ((y + 1 - 1969) / 4 = (y - 1969) / 4 + (if y mod 4 =? 0 then 1 else 0)) as ->.
  { case (Z.eqb_spec (y mod 4) 0); intros; Z.to_euclidean_division_equations; lia. }
  assert ((y + 1 - 1901) / 100 = (y - 1901) / 100 + (if y mod 100 =? 0 then 1 else 0)) as ->.
  { case (Z.eqb_spec (y mod 100) 0); intros; Z.to_euclidean_division_equations; lia. }
  assert ((y + 1 - 1601) / 400 = (y - 1601) / 400 + (if y mod 400 =? 0 then 1 else 0)) as ->.
  { case (Z.eqb_spec (y mod 400) 0); intros; Z.to_euclidean_division_equations; lia. }
  case (Z.eqb_spec (y mod 4) 0), (Z.eqb_spec (y mod 100) 0), (Z.eqb_spec (y mod 400) 0); simpl; try lia;
    exfalso; Z.to_euclidean_division_equations; lia.
Qed.

(** The year of a day is the one whose days it is among. *)
Lemma YearFromDay_spec d : let y := YearFromDay d in DayFromYear y <= d < DayFromYear (y + 1).
Proof.
  unfold YearFromDay. set (y := 1970 + _).
  assert (d < DayFromYear (y + 1) /\ DayFromYear (y - 2) <= d) as [Hu Hl].
  { unfold y, DayFromYear. split; Z.to_euclidean_division_equations; lia. }
  destruct (Z.ltb_spec d (DayFromYear y)); [|lia].
  destruct (Z.ltb_spec d (DayFromYear (y - 1))); split.
  - lia.
  - by replace (y - 2 + 1) with (y - 1) by lia.
  - lia.
  - by replace (y - 1 + 1) with y by lia.
Qed.

Lemma month_lengths_len y : length (month_lengths y) = 12%nat.
Proof. done. Qed.
Lemma year_length y : foldr Z.add 0 (month_lengths y) = if leap y then 366 else 365.
Proof. unfold month_lengths. by destruct (leap y). Qed.

Lemma month_and_date_spec ms m n :
  ms ≠ [] → 0 <= n →
  let md := month_and_date ms m n in
  m <= md.1 < m + Z.of_nat (length ms) ∧ 1 <= md.2 ∧
  foldr Z.add 0 (take (Z.to_nat (md.1 - m)) ms) + md.2 - 1 = n.
Proof.
  revert m n. induction ms as [|l ms IH]; intros m n Hne Hn; [done|].
  destruct ms as [|l' ms].
  { cbn [month_and_date fst snd length]. rewrite Z.sub_diag. simpl. lia. }
  change (month_and_date (l :: l' :: ms) m n) with
    (if n <? l then (m, n + 1) else month_and_date (l' :: ms) (m + 1) (n - l)).
  destruct (Z.ltb_spec n l).
  { cbn [fst snd]. rewrite Z.sub_diag. simpl. lia. }
  destruct (IH (m + 1) (n - l)) as ((H1 & H2) & H3 & H4); [done|lia|].
  cbv zeta. set (md := month_and_date _ _ _) in *.
  replace (Z.to_nat (md.1 - m)) with (S (Z.to_nat (md.1 - (m + 1)))) by lia.
  rewrite firstn_cons. cbn [foldr length] in *. lia.
Qed.

(** The first day of a month, months counted from the year 0. *)
Definition month_start (k : Z) : Z := DayFromYear (k / 12) + days_before (k / 12) (k mod 12).

Lemma MakeDay_start y m dt : MakeDay y m dt = month_start (12 * y + m) + dt - 1.
Proof.
  unfold MakeDay, month_start. cbv zeta.
  replace ((12 * y + m) / 12) with (y + m / 12) by (rewrite (Z.mul_comm 12), Z.div_add_l by lia; lia).
  replace ((12 * y + m) mod 12) with (m mod 12); [done|].
  rewrite Z.add_comm, (Z.mul_comm 12), Z.mod_add by lia. done.
Qed.

(** A month has 28 to 31 days. *)
Lemma month_start_succ k : 28 <= month_start (k + 1) - month_start k <= 31.
Proof.
  unfold month_start. pose proof (Z.mod_pos_bound k 12 ltac:(lia)) as Hb.
  destruct (Z.eq_dec (k mod 12) 11) as [He|He].
  - assert ((k + 1) / 12 = k / 12 + 1) as -> by (Z.to_euclidean_division_equations; lia).
    assert ((k + 1) mod 12 = 0) as -> by (Z.to_euclidean_division_equations; lia).
    rewrite He, DayFromYear_succ. unfold days_before. simpl. destruct (leap _); lia.
  - assert ((k + 1) / 12 = k / 12) as -> by (Z.to_euclidean_division_equations; lia).
    assert ((k + 1) mod 12 = k mod 12 + 1) as -> by (Z.to_euclidean_division_equations; lia).
    remember (k mod 12) as r. clear Heqr.
    enough (28 <= days_before (k / 12) (r + 1) - days_before (k / 12) r <= 31) by lia.
    unfold days_before, month_lengths.
    assert (r ∈ [0;1;2;3;4;5;6;7;8;9;10]) as Hr.
    { rewrite !elem_of_cons. lia. }
    repeat (apply elem_of_cons in Hr as [->|Hr]; [destruct (leap _); vm_compute; split; discriminate|]).
    by apply elem_of_nil in Hr.
Qed.

Lemma month_start_back k n : month_start k - 31 * Z.of_nat n <= month_start (k - Z.of_nat n) <= month_start k - 28 * Z.of_nat n.
Proof.
  induction n as [|n IH]; [replace (k - Z.of_nat 0) with k by lia; lia|].
  pose proof (month_start_succ (k - Z.of_nat (S n))) as Hs.
  replace (k - Z.of_nat (S n) + 1) with (k - Z.of_nat n) in Hs by lia. lia.
Qed.

Lemma time_split t : MakeDate (Day t) (TimeWithinDay t) = t.
Proof. unfold MakeDate, Day, TimeWithinDay, DAY_MS. pose proof (Z.div_mod t 86400000). lia. Qed.

(** The year, month and date of a day make the day again. *)
Lemma MakeDay_fields t : MakeDay (YearFromDay (Day t)) (MonthFromTime t) (DateFromTime t) = Day t.
Proof.
  unfold MonthFromTime, DateFromTime. set (d := Day t). set (y := YearFromDay d).
  pose proof (YearFromDay_spec d) as [Hl _]. fold y in Hl.
  pose proof (month_and_date_spec (month_lengths y) 0 (d - DayFromYear y) ltac:(done) ltac:(lia)) as ((H1 & H2) & H3 & H4).
  set (md := month_and_date _ _ _) in *. rewrite month_lengths_len in H2. unfold MakeDay.
  rewrite Z.div_small, Z.mod_small by lia. rewrite Z.add_0_r, Z.sub_0_r in *. unfold days_before. lia.
Qed.

(** Setting the month a date already has changes nothing; going back [n] months
    goes back between 28 and 31 days for each. *)
Lemma setMonth_back t n :
  setMonth t (getMonth t) = t ∧
  t - 31 * Z.of_nat n * DAY_MS <= setMonth t (getMonth t - Z.of_nat n) <= t - 28 * Z.of_nat n * DAY_MS.
Proof.
  unfold setMonth, getMonth. rewrite MakeDay_fields, time_split. split; [done|].
  pose proof (MakeDay_fields t) as Hd. rewrite MakeDay_start in Hd |- *.
  pose proof (month_start_back (12 * YearFromDay (Day t) + MonthFromTime t) n) as Hb.
  rewrite Z.add_sub_assoc. pose proof (time_split t) as Ht. unfold MakeDate in *.
  set (T := TimeWithinDay t) in *. unfold DAY_MS in *. nia.
Qed.
