(* ===== verification/Cidr.v ===== *)
(** * Address arithmetic: [src/src/utils/cidr.ts]

    The conversions between dotted quads and 32-bit integers, the interface of
    the [netmask] package the file builds on, and every exported function of
    the module: normalisation, containment and overlap, the first-fit search
    for a free sub-block, page enumeration, and the template packer. *)

From S2P Require Import Prelude.

(** ** Conversion utilities *)

Module Conv.

(** [ip.split(".").reduce((acc, octet) => (acc << 8) + parseInt(octet, 10), 0) >>> 0];
    a NaN accumulator is 0 for the bitwise operator that reads it next. *)
Definition ipToInt_step (acc : Z) (octet : string) : Z :=
  match Js.parseInt octet with
  | Some n => js_shl acc 8 + n
  | None => 0
  end.

Definition ipToInt (ip : string) : Z :=
  to_uint32 (fold_left ipToInt_step (Js.split "." ip) 0).

Definition intToIp (int : Z) : string :=
  Js.join "." (pretty <$> [js_and (js_ushr int 24) 255;
                           js_and (js_ushr int 16) 255;
                           js_and (js_ushr int 8) 255;
                           js_and int 255]).

End Conv.
Export Conv.

(** ** The [netmask] package

    The constructor and [contains] may throw ([None]); [broadcast] is optional
    in the package's type declarations. *)

Record NetBlock := mkNetBlock {
  base : string;
  bitmask : Z;
  broadcast : option string;
  size : Z;
}.

Class NetmaskLib := {
  new_Netmask : string → option NetBlock;
  contains : NetBlock → option string → option bool;
}.

Definition blk_size (p : Z) : Z := 2 ^ (32 - p).
Definition net_of (n p : Z) : Z := n / blk_size p * blk_size p.
Definition last_of (n p : Z) : Z := net_of n p + blk_size p - 1.

(** The text of a CIDR: [`${intToIp(n)}/${p}`]. *)
Definition cidr_text (n p : Z) : string := intToIp n +:+ "/" +:+ pretty p.

Definition is_addr (n : Z) : Prop := 0 ≤ n < 2 ^ 32.
Definition is_prefix (p : Z) : Prop := 0 ≤ p ≤ 32.

(** [b] describes the block of prefix [p] around [n].  For /31 and /32 the
    package may leave [broadcast] undefined. *)
Record is_block (b : NetBlock) (n p : Z) : Prop := {
  ib_addr : is_addr n;
  ib_prefix : is_prefix p;
  ib_base : base b = intToIp (net_of n p);
  ib_bitmask : bitmask b = p;
  ib_size : size b = blk_size p;
  ib_broadcast : p ≤ 30 → broadcast b = Some (intToIp (last_of n p));
  ib_broadcast_any :
    broadcast b = Some (intToIp (last_of n p)) ∨ broadcast b = None;
}.

(** What the package documents: the attributes of a parsed block, that the
    [a.b.c.d/n] notation is accepted and denotes the block around that address,
    that [contains] tests the range from [base] to the last address, and that it
    never answers true when it is not given an address. *)
Class NetmaskLaws `{NetmaskLib} : Prop := {
  nm_shape s b : new_Netmask s = Some b → ∃ n p, is_block b n p;
  nm_cidr n p : is_addr n → is_prefix p →
    ∃ b, new_Netmask (cidr_text n p) = Some b ∧ is_block b n p;
  nm_contains b n p x : is_block b n p → is_addr x →
    contains b (Some (intToIp x)) =
      Some (bool_decide (net_of n p ≤ x ≤ last_of n p));
  nm_contains_undefined b : contains b None ≠ Some true;
}.

(** ** The module's functions *)

Inductive IpVersion := v4 | v6.
#[global] Instance IpVersion_eq_dec : EqDecision IpVersion.
Proof. solve_decision. Defined.

Inductive IpKind := Network | Broadcast | Host.
#[global] Instance IpKind_eq_dec : EqDecision IpKind.
Proof. solve_decision. Defined.

Record EnumeratedIp := mkEnumeratedIp { address : string; ip_type : IpKind }.

Record PackedEntry (T : Type) := mkPackedEntry {
  pe_entry : T;
  offset : Z;
  pe_prefixLength : Z;
}.
Arguments mkPackedEntry {T}.
Arguments pe_entry {T}.
Arguments offset {T}.
Arguments pe_prefixLength {T}.

Record PackResult (T : Type) := mkPackResult {
  packed : list (PackedEntry T);
  totalSpan : Z;
  containingPrefix : Z;
}.
Arguments mkPackResult {T}.
Arguments packed {T}.
Arguments totalSpan {T}.
Arguments containingPrefix {T}.

Record AnchoredPackResult (T : Type) := mkAnchoredPackResult {
  assignments : list (T * string);
  anchorCidr : string;
  effectiveAnchorPrefix : Z;
}.
Arguments mkAnchoredPackResult {T}.
Arguments assignments {T}.
Arguments anchorCidr {T}.
Arguments effectiveAnchorPrefix {T}.

Definition is_hex (c : ascii) : bool :=
  let n := Z.of_nat (Ascii.nat_of_ascii c) in
  Js.is_digit c || ((97 <=? n) && (n <=? 102)) || ((65 <=? n) && (n <=? 70)).

(** [/^(\d{1,3}\.){3}\d{1,3}$/] *)
Definition ipv4Regex (ip : string) : bool :=
  let ws := Js.split "." ip in
  (length ws =? 4)%nat &&
  forallb (λ w, Js.sforallb Js.is_digit w &&
                (1 <=? String.length w)%nat && (String.length w <=? 3)%nat) ws.

(** [/^([0-9a-fA-F]{0,4}:){2,7}[0-9a-fA-F]{0,4}$/] *)
Definition ipv6Regex (ip : string) : bool :=
  let ws := Js.split ":" ip in
  (3 <=? length ws)%nat && (length ws <=? 8)%nat &&
  forallb (λ w, Js.sforallb is_hex w && (String.length w <=? 4)%nat) ws.

Definition isValidIpAddress (ip : string) : bool :=
  if ipv4Regex ip
  then forallb (λ octet, match Js.parseInt octet with
                         | Some n => n <=? 255
                         | None => false
                         end) (Js.split "." ip)
  else ipv6Regex ip.

Definition detectIpVersion (cidr : string) : IpVersion :=
  if Js.includes ":" cidr then v6 else v4.

(** [parent.broadcast!] read by [ipToInt]: [undefined.split] throws. *)
Definition broadcast_int (b : NetBlock) : result Z :=
  match broadcast b with
  | Some ip => Ok (ipToInt ip)
  | None => Throw (TypeError "Cannot read properties of undefined (reading 'split')")
  end.

(** Align [cursor] up to the next multiple of [size]. *)
Definition align_up (cursor size : Z) : Z :=
  if negb (cursor mod size =? 0) then ((cursor + size - 1) / size) * size else cursor.

Section packer.
Context {T : Type} (prefixLength : T → Z).

Fixpoint pack_loop (cursor : Z) (entries : list T) : list (PackedEntry T) * Z :=
  match entries with
  | [] => ([], cursor)
  | e :: entries' =>
      let size := 2 ^ (32 - prefixLength e) in
      let cursor := align_up cursor size in
      let '(ps, c) := pack_loop (cursor + size) entries' in
      (mkPackedEntry e cursor (prefixLength e) :: ps, c)
  end.

Definition packTemplateEntries (entries : list T) : PackResult T :=
  match entries with
  | [] => mkPackResult [] 0 32
  | _ =>
      let '(ps, totalSpan) := pack_loop 0 entries in
      (** [2 ** Math.ceil(Math.log2(totalSpan))] *)
      mkPackResult ps totalSpan (32 - Z.log2_up totalSpan)
  end.
End packer.

Section cidr.
Context `{NetmaskLib}.

Definition Netmask (s : string) : result NetBlock :=
  of_opt (new_Netmask s) (JsError ("Invalid net address: " +:+ s)).

Definition nm_contains_m (b : NetBlock) (ip : option string) : result bool :=
  of_opt (contains b ip) (JsError "Invalid net address").

Definition normalizeCidr (cidr : string) : result string :=
  b ← Netmask cidr; Ok (base b +:+ "/" +:+ pretty (bitmask b)).

Definition isValidCidr (cidr : string) : bool :=
  if negb (Js.includes "/" cidr) then false
  else match detectIpVersion cidr with
  | v4 => is_ok (Netmask cidr)
  | v6 =>
      match Js.split "/" cidr with
      | addr :: prefix :: _ =>
          if negb (Js.truthy addr) || negb (Js.truthy prefix) then false
          else match Js.parseInt prefix with
               | None => false
               | Some n => negb ((n <? 0) || (128 <? n))
               end
      | _ => false
      end
  end.

Definition cidrContains (outer inner : string) : bool :=
  try_or (ob ← Netmask outer;
          ib ← Netmask inner;
          c ← nm_contains_m ob (Some (base ib));
          if (c : bool) then nm_contains_m ob (broadcast ib) else Ok false)
         false.

Definition cidrOverlaps (a b : string) : bool :=
  try_or (blockA ← Netmask a;
          blockB ← Netmask b;
          c ← nm_contains_m blockA (Some (base blockB));
          if (c : bool) then Ok true else nm_contains_m blockB (Some (base blockA)))
         false.

Definition ipInCidr (ip cidr : string) : bool :=
  try_or (b ← Netmask cidr; nm_contains_m b (Some ip)) false.

Definition usableHostCount (cidr : string) : result Z :=
  b ← Netmask cidr;
  Ok (if bitmask b =? 32 then 1
      else if bitmask b =? 31 then 2
      else size b - 2).

(** The [while] loop shared by the first-fit searches: the first candidate,
    stepping by [step] from [candidate], whose block fits below [endInt] and
    overlaps no allocated CIDR.  The outer option is the fuel. *)
Fixpoint first_fit (fuel : nat) (allocated : list string) (prefix step endInt candidate : Z)
  : option (option Z) :=
  match fuel with
  | O => None
  | S fuel =>
      if candidate + step - 1 <=? endInt then
        if existsb (λ existing, cidrOverlaps (cidr_text candidate prefix) existing) allocated
        then first_fit fuel allocated prefix step endInt (candidate + step)
        else Some (Some candidate)
      else Some None
  end.

Definition fit_fuel (step baseInt endInt : Z) : nat :=
  Z.to_nat ((endInt - baseInt) / step + 2).

Definition out_of_fuel : exn := JsError "first-fit search ran out of fuel".

Definition findNextAvailableSubnet (parentCidr : string) (allocatedCidrs : list string)
    (requestedPrefix : Z) : result (option string) :=
  parent ← Netmask parentCidr;
  let blockSize := 2 ^ (32 - requestedPrefix) in
  let baseInt := ipToInt (base parent) in
  endInt ← broadcast_int parent;
  found ← of_opt (first_fit (fit_fuel blockSize baseInt endInt) allocatedCidrs
                    requestedPrefix blockSize endInt baseInt) out_of_fuel;
  match found with
  | Some candidate => Some <$> normalizeCidr (cidr_text candidate requestedPrefix)
  | None => Ok None
  end.

Definition enumerate_one (bitmask baseInt total i : Z) : EnumeratedIp :=
  mkEnumeratedIp (intToIp (baseInt + i))
    (if 31 <=? bitmask then Host
     else if i =? 0 then Network
     else if i =? total - 1 then Broadcast
     else Host).

Definition enumerateSubnetIps (cidr : string) (page pageSize : Z)
  : result (list EnumeratedIp * Z) :=
  block ← Netmask cidr;
  let baseInt := ipToInt (base block) in
  broadcastInt ← broadcast_int block;
  let total := broadcastInt - baseInt + 1 in
  let startIdx := (page - 1) * pageSize in
  let endIdx := Z.min (startIdx + pageSize) total in
  Ok (enumerate_one (bitmask block) baseInt total <$> seqZ startIdx (endIdx - startIdx), total).

Definition packIntoAnchor {T} (prefixLength : T → Z) (parentCidr : string)
    (allocatedCidrs : list string) (entries : list T) (requestedAnchorPrefix : Z)
  : result (option (AnchoredPackResult T)) :=
  match entries with
  | [] => Ok (Some (mkAnchoredPackResult [] parentCidr requestedAnchorPrefix))
  | _ =>
      parent ← Netmask parentCidr;
      let pk := packTemplateEntries prefixLength entries in
      let eff := Z.min requestedAnchorPrefix (containingPrefix pk) in
      let eff := if eff <? bitmask parent then bitmask parent else eff in
      let anchorSize := 2 ^ (32 - eff) in
      let baseInt := ipToInt (base parent) in
      endInt ← broadcast_int parent;
      found ← of_opt (first_fit (fit_fuel anchorSize baseInt endInt) allocatedCidrs
                        eff anchorSize endInt baseInt) out_of_fuel;
      match found with
      | Some candidate =>
          Ok (Some (mkAnchoredPackResult
                      ((λ p, (pe_entry p, cidr_text (candidate + offset p) (pe_prefixLength p)))
                         <$> packed pk)
                      (cidr_text candidate eff) eff))
      | None => Ok None
      end
  end.
End cidr.

(** ** Dotted quads *)

Lemma intToIp_octets n :
  is_addr n →
  intToIp n = Js.join "." (pretty <$> [n / 2 ^ 24 mod 256; n / 2 ^ 16 mod 256;
                                       n / 2 ^ 8 mod 256; n mod 256]).
Proof.
  intros Hn. unfold intToIp, js_ushr.
  by rewrite to_uint32_id, !js_and_255, !Z.shiftr_div_pow2 by done.
Qed.

Lemma octet_range n : 0 ≤ n mod 256.
Proof. apply Z.mod_pos_bound. done. Qed.

Lemma split_intToIp n :
  is_addr n →
  Js.split "." (intToIp n) = pretty <$> [n / 2 ^ 24 mod 256; n / 2 ^ 16 mod 256;
                                         n / 2 ^ 8 mod 256; n mod 256].
Proof.
  intros Hn. rewrite intToIp_octets by done. apply split_join; [done|].
  repeat (constructor; [by apply pretty_no_sep; [apply octet_range|]|]). constructor.
Qed.

Lemma ipToInt_step_mod acc acc' v :
  0 ≤ v → acc mod 2 ^ 32 = acc' mod 2 ^ 32 →
  ipToInt_step acc (pretty v) mod 2 ^ 32 = (acc' * 256 + v) mod 2 ^ 32.
Proof.
  intros Hv Hacc. unfold ipToInt_step. rewrite parseInt_pretty by done.
  rewrite Zplus_mod, js_shl_mod by done. change (2 ^ 8) with 256.
  by rewrite <-Zmult_mod_idemp_l, Hacc, Zmult_mod_idemp_l, <-Zplus_mod.
Qed.

Lemma base256_sum n :
  is_addr n →
  ((((0 * 256 + n / 2 ^ 24 mod 256) * 256 + n / 2 ^ 16 mod 256) * 256
      + n / 2 ^ 8 mod 256) * 256 + n mod 256) = n.
Proof.
  unfold is_addr. intros Hn.
  assert (n / 2 ^ 16 = n / 2 ^ 8 / 2 ^ 8) as -> by (by rewrite Z.div_div).
  assert (n / 2 ^ 24 = n / 2 ^ 8 / 2 ^ 8 / 2 ^ 8) as -> by (by rewrite !Z.div_div).
  change (2 ^ 8) with 256. change (2 ^ 32) with 4294967296 in Hn.
  pose proof (Z.div_mod n 256 ltac:(done)). set (a := n / 256) in *.
  pose proof (Z.div_mod a 256 ltac:(done)). set (b := a / 256) in *.
  pose proof (Z.div_mod b 256 ltac:(done)). set (c := b / 256) in *.
  pose proof (Z.mod_pos_bound n 256 ltac:(done)).
  pose proof (Z.mod_pos_bound a 256 ltac:(done)).
  pose proof (Z.mod_pos_bound b 256 ltac:(done)).
  rewrite (Z.mod_small c) by lia. lia.
Qed.

Lemma ipToInt_intToIp n : is_addr n → ipToInt (intToIp n) = n.
Proof.
  intros Hn. unfold ipToInt. rewrite split_intToIp by done.
  cbn [fmap list_fmap fold_left].
  transitivity (to_uint32 n); [|by apply to_uint32_id].
  rewrite <-(base256_sum n Hn) at 5. unfold to_uint32.
  repeat (apply ipToInt_step_mod; [apply octet_range|]). done.
Qed.

Lemma intToIp_inj n m : is_addr n → is_addr m → intToIp n = intToIp m → n = m.
Proof.
  intros Hn Hm Heq. by rewrite <-(ipToInt_intToIp n Hn), Heq, ipToInt_intToIp.
Qed.

(** ** Blocks of addresses *)

Lemma blk_size_pos p : p ≤ 32 → 0 < blk_size p.
Proof. intros. unfold blk_size. apply Z.pow_pos_nonneg; lia. Qed.

Lemma blk_size_divide p q : p ≤ q → q ≤ 32 → (blk_size q | blk_size p).
Proof.
  intros Hpq Hq. exists (2 ^ (q - p)). unfold blk_size.
  rewrite <-Z.pow_add_r by lia. f_equal. lia.
Qed.

Lemma blk_size_le p q : p ≤ q → q ≤ 32 → blk_size q ≤ blk_size p.
Proof. intros. unfold blk_size. apply Z.pow_le_mono_r; lia. Qed.

Lemma net_of_bounds n p : p ≤ 32 → net_of n p ≤ n ≤ last_of n p.
Proof.
  intros Hp. unfold last_of, net_of. pose proof (blk_size_pos p Hp).
  pose proof (Z.div_mod n (blk_size p)). pose proof (Z.mod_pos_bound n (blk_size p)). lia.
Qed.

Lemma net_of_divide n p : (blk_size p | net_of n p).
Proof. by exists (n / blk_size p). Qed.

Lemma net_of_aligned n p : p ≤ 32 → (blk_size p | n) → net_of n p = n.
Proof.
  intros Hp [k ->]. unfold net_of. pose proof (blk_size_pos p Hp).
  by rewrite Z.div_mul by lia.
Qed.

Lemma last_of_lt n p : is_addr n → is_prefix p → last_of n p < 2 ^ 32.
Proof.
  intros [Hn0 Hn] [Hp0 Hp]. unfold last_of, net_of.
  pose proof (blk_size_pos p Hp) as Hs.
  destruct (blk_size_divide 0 p Hp0 Hp) as [k Hk].
  change (blk_size 0) with (2 ^ 32) in Hk. rewrite Hk in Hn |- *.
  assert (n / blk_size p < k) by (apply Z.div_lt_upper_bound; lia). nia.
Qed.

Lemma net_of_addr n p : is_addr n → is_prefix p → is_addr (net_of n p).
Proof.
  intros Hn Hp. pose proof (last_of_lt n p Hn Hp).
  pose proof (blk_size_pos p (proj2 Hp)).
  pose proof (net_of_bounds n p (proj2 Hp)). destruct Hn. split; [|lia].
  unfold net_of. assert (0 ≤ n / blk_size p) by (apply Z.div_pos; lia). nia.
Qed.

Lemma last_of_addr n p : is_addr n → is_prefix p → is_addr (last_of n p).
Proof.
  intros Hn Hp. pose proof (last_of_lt n p Hn Hp).
  pose proof (net_of_bounds n p (proj2 Hp)). destruct Hn. split; lia.
Qed.

Lemma last_of_net n p : last_of n p = net_of n p + blk_size p - 1.
Proof. done. Qed.

Lemma net_of_idem n p : p ≤ 32 → net_of (net_of n p) p = net_of n p.
Proof. intros. apply net_of_aligned; [done|]. apply net_of_divide. Qed.

#[export] Hint Resolve net_of_addr last_of_addr : ipam.

Lemma is_block_det b n p n' p' :
  is_block b n p → is_block b n' p' → p = p' ∧ net_of n p = net_of n' p'.
Proof.
  intros Hb Hb'.
  assert (p = p') as <- by (rewrite <-(ib_bitmask _ _ _ Hb); apply Hb').
  split; [done|]. destruct Hb, Hb'.
  apply intToIp_inj; [by apply net_of_addr..|congruence].
Qed.

Lemma is_block_base_int b n p : is_block b n p → ipToInt (base b) = net_of n p.
Proof.
  intros []. rewrite ib_base0. by apply ipToInt_intToIp, net_of_addr.
Qed.

Lemma is_block_broadcast_int b n p e :
  is_block b n p → broadcast_int b = Ok e → e = last_of n p.
Proof.
  intros Hb. unfold broadcast_int.
  destruct (ib_broadcast_any _ _ _ Hb) as [->| ->]; [|done].
  intros [= <-]. apply ipToInt_intToIp, last_of_addr; apply Hb.
Qed.

Lemma is_block_broadcast_ok b n p :
  is_block b n p → p ≤ 30 → broadcast_int b = Ok (last_of n p).
Proof.
  intros Hb Hp. unfold broadcast_int. rewrite (ib_broadcast _ _ _ Hb Hp).
  f_equal. apply ipToInt_intToIp, last_of_addr; apply Hb.
Qed.

(** ** The addresses a CIDR text denotes *)

Section denotation.
Context `{NetmaskLaws}.

(** Address [x] belongs to the block that the text [s] denotes. *)
Definition covers (s : string) (x : Z) : Prop :=
  ∃ b n p, new_Netmask s = Some b ∧ is_block b n p ∧ net_of n p ≤ x ≤ last_of n p.

(** [s] denotes the block of prefix [p] around [n]. *)
Definition denotes (s : string) (n p : Z) : Prop :=
  ∃ b, new_Netmask s = Some b ∧ is_block b n p.

Lemma denotes_covers s n p x : denotes s n p → covers s x ↔ net_of n p ≤ x ≤ last_of n p.
Proof.
  intros (b & Hs & Hb). split.
  - intros (b' & n' & p' & Hs' & Hb' & Hx). simplify_eq.
    destruct (is_block_det _ _ _ _ _ Hb Hb') as [<- Hn].
    unfold last_of in *. by rewrite Hn.
  - intros Hx. by exists b, n, p.
Qed.

Lemma denotes_text n p : is_addr n → is_prefix p → denotes (cidr_text n p) n p.
Proof. intros Hn Hp. destruct (nm_cidr n p Hn Hp) as (b & ? & ?). by exists b. Qed.

Lemma parsed_denotes s b : new_Netmask s = Some b → ∃ n p, denotes s n p ∧ is_block b n p.
Proof.
  intros Hs. destruct (nm_shape s b Hs) as (n & p & Hb).
  exists n, p. split; [by exists b|done].
Qed.

Lemma covers_addr s x : covers s x → is_addr x.
Proof.
  intros (b & n & p & _ & [Hn Hp _ _ _ _ _] & Hx).
  pose proof (net_of_addr n p Hn Hp) as []. pose proof (last_of_addr n p Hn Hp) as [].
  split; lia.
Qed.

Lemma Netmask_ok s b : Netmask s = Ok b ↔ new_Netmask s = Some b.
Proof. unfold Netmask, of_opt. destruct (new_Netmask s); naive_solver. Qed.

Lemma contains_base b n p b' n' p' :
  is_block b n p → is_block b' n' p' →
  nm_contains_m b (Some (base b')) =
    Ok (bool_decide (net_of n p ≤ net_of n' p' ≤ last_of n p)).
Proof.
  intros Hb Hb'. unfold nm_contains_m. destruct Hb' as [Hn' Hp' Hbase _ _ _ _].
  rewrite Hbase, (nm_contains _ _ _ _ Hb); [done|]. by apply net_of_addr.
Qed.

(** [cidrOverlaps] decides whether two texts denote blocks with an address in
    common; a text that is not a CIDR overlaps nothing. *)
Lemma cidrOverlaps_spec a b :
  cidrOverlaps a b = true ↔ ∃ x, covers a x ∧ covers b x.
Proof.
  unfold cidrOverlaps. split.
  - unfold Netmask. destruct (new_Netmask a) as [ba|] eqn:Ha; [|done].
    destruct (new_Netmask b) as [bb|] eqn:Hb; [|done]. simpl.
    destruct (parsed_denotes a ba Ha) as (n & p & Hda & Hia).
    destruct (parsed_denotes b bb Hb) as (m & q & Hdb & Hib).
    rewrite (contains_base _ _ _ _ _ _ Hia Hib). simpl.
    pose proof (net_of_bounds n p (proj2 (ib_prefix _ _ _ Hia))).
    pose proof (net_of_bounds m q (proj2 (ib_prefix _ _ _ Hib))).
    case_bool_decide as Hc; intros Ht.
    + exists (net_of m q). rewrite (denotes_covers _ _ _ _ Hda), (denotes_covers _ _ _ _ Hdb). lia.
    + rewrite (contains_base _ _ _ _ _ _ Hib Hia) in Ht. simpl in Ht.
      apply bool_decide_eq_true_1 in Ht. exists (net_of n p).
      rewrite (denotes_covers _ _ _ _ Hda), (denotes_covers _ _ _ _ Hdb). lia.
  - intros (x & (ba & n & p & Ha & Hia & Hxa) & (bb & m & q & Hb & Hib & Hxb)).
    unfold Netmask. rewrite Ha, Hb. simpl.
    rewrite (contains_base _ _ _ _ _ _ Hia Hib). simpl.
    case_bool_decide as Hc; [done|].
    rewrite (contains_base _ _ _ _ _ _ Hib Hia). simpl.
    apply bool_decide_eq_true_2. lia.
Qed.

Lemma cidrOverlaps_sym a b : cidrOverlaps a b = cidrOverlaps b a.
Proof.
  apply eq_true_iff_eq. rewrite !cidrOverlaps_spec.
  split; intros (x & ? & ?); eauto.
Qed.

(** [cidrContains] is inclusion of the denoted blocks, when the inner block
    has a broadcast address. *)
Lemma cidrContains_spec outer inner n p m q :
  denotes outer n p → denotes inner m q → q ≤ 30 →
  cidrContains outer inner = true ↔ (∀ x, covers inner x → covers outer x).
Proof.
  intros Ho Hi Hq.
  assert ((∀ x, covers inner x → covers outer x) ↔
          net_of n p ≤ net_of m q ∧ last_of m q ≤ last_of n p) as ->.
  { setoid_rewrite (denotes_covers _ _ _ _ Ho). setoid_rewrite (denotes_covers _ _ _ _ Hi).
    destruct Hi as (b & _ & [_ Hq' _ _ _ _ _]).
    pose proof (net_of_bounds m q (proj2 Hq')). split; [|lia].
    intros Hx. pose proof (Hx (net_of m q)). pose proof (Hx (last_of m q)). lia. }
  destruct Ho as (bo & Hso & Hbo), Hi as (bi & Hsi & Hbi).
  unfold cidrContains, Netmask. rewrite Hso, Hsi. simpl.
  rewrite (contains_base _ _ _ _ _ _ Hbo Hbi). simpl.
  pose proof (net_of_bounds m q (proj2 (ib_prefix _ _ _ Hbi))).
  case_bool_decide as Hc; simpl; [|split; [done|lia]].
  unfold nm_contains_m. rewrite (ib_broadcast _ _ _ Hbi Hq), (nm_contains _ _ _ _ Hbo).
  - simpl. rewrite bool_decide_eq_true. lia.
  - apply last_of_addr; apply Hbi.
Qed.

(** A positive answer always means inclusion. *)
Lemma cidrContains_true outer inner :
  cidrContains outer inner = true → ∀ x, covers inner x → covers outer x.
Proof.
  unfold cidrContains, Netmask.
  destruct (new_Netmask outer) as [bo|] eqn:Ho; [|done].
  destruct (new_Netmask inner) as [bi|] eqn:Hi; [|done]. simpl.
  destruct (parsed_denotes _ _ Ho) as (n & p & Hdo & Hbo).
  destruct (parsed_denotes _ _ Hi) as (m & q & Hdi & Hbi).
  rewrite (contains_base _ _ _ _ _ _ Hbo Hbi). simpl.
  case_bool_decide as Hc; [|done]. simpl. unfold nm_contains_m.
  destruct (ib_broadcast_any _ _ _ Hbi) as [->| ->].
  - rewrite (nm_contains _ _ _ _ Hbo) by (apply last_of_addr; apply Hbi). simpl.
    intros Ht%bool_decide_eq_true_1 x.
    rewrite (denotes_covers _ _ _ _ Hdi), (denotes_covers _ _ _ _ Hdo). lia.
  - pose proof (nm_contains_undefined bo) as Hu.
    destruct (contains bo None) as [[]|]; simpl; congruence.
Qed.

(** A block without a broadcast address is contained in nothing. *)
Lemma cidrContains_no_broadcast outer inner b :
  new_Netmask inner = Some b → broadcast b = None → cidrContains outer inner = false.
Proof.
  intros Hi Hb. apply not_true_is_false. unfold cidrContains, Netmask. rewrite Hi.
  destruct (new_Netmask outer) as [bo|]; [|done]. simpl. unfold nm_contains_m. rewrite Hb.
  pose proof (nm_contains_undefined bo) as Hu.
  destruct (contains bo (Some (base b))) as [[]|], (contains bo None) as [[]|]; done.
Qed.

Lemma ipInCidr_spec x s : is_addr x → ipInCidr (intToIp x) s = true ↔ covers s x.
Proof.
  intros Hx. unfold ipInCidr, Netmask.
  destruct (new_Netmask s) as [b|] eqn:Hs; simpl.
  - destruct (parsed_denotes _ _ Hs) as (n & p & Hd & Hb).
    unfold nm_contains_m. rewrite (nm_contains _ _ _ _ Hb Hx). simpl.
    by rewrite bool_decide_eq_true, (denotes_covers _ _ _ _ Hd).
  - split; [done|]. intros (? & ? & ? & ? & _). congruence.
Qed.

Lemma normalizeCidr_denotes s n p :
  denotes s n p → normalizeCidr s = Ok (cidr_text (net_of n p) p).
Proof.
  intros (b & Hs & Hb). unfold normalizeCidr, Netmask. rewrite Hs. simpl.
  destruct Hb as [_ _ -> -> _ _ _]. done.
Qed.

Lemma normalizeCidr_ok s t :
  normalizeCidr s = Ok t → ∃ n p, denotes s n p ∧ t = cidr_text (net_of n p) p.
Proof.
  intros Ht. assert (∃ b, new_Netmask s = Some b) as [b Hb].
  { revert Ht. unfold normalizeCidr, Netmask. destruct (new_Netmask s); [by eexists|done]. }
  destruct (parsed_denotes _ _ Hb) as (n & p & Hd & _).
  rewrite (normalizeCidr_denotes _ _ _ Hd) in Ht. exists n, p. naive_solver.
Qed.

Lemma denotes_net s n p : denotes s n p → denotes (cidr_text (net_of n p) p) (net_of n p) p.
Proof.
  intros (b & _ & Hb). apply denotes_text; [apply net_of_addr; apply Hb|apply Hb].
Qed.

Lemma covers_normalized s n p x :
  denotes s n p → covers (cidr_text (net_of n p) p) x ↔ covers s x.
Proof.
  intros Hd. rewrite (denotes_covers _ _ _ _ Hd), (denotes_covers _ _ _ _ (denotes_net _ _ _ Hd)).
  destruct Hd as (b & _ & [_ [_ Hp] _ _ _ _ _]).
  unfold last_of. by rewrite net_of_idem.
Qed.
End denotation.

(** ** First-fit search *)

Section first_fit.
Context `{NetmaskLaws}.

(** Some allocated CIDR overlaps the block of prefix [p] at [c]. *)
Definition taken (allocated : list string) (p c : Z) : bool :=
  existsb (λ existing, cidrOverlaps (cidr_text c p) existing) allocated.

Lemma taken_spec allocated p c :
  is_addr c → is_prefix p → (blk_size p | c) →
  taken allocated p c = true ↔
  ∃ s x, s ∈ allocated ∧ covers s x ∧ c ≤ x < c + blk_size p.
Proof.
  intros Hc Hp Ha. unfold taken. rewrite existsb_exists.
  setoid_rewrite cidrOverlaps_spec.
  setoid_rewrite (denotes_covers _ _ _ _ (denotes_text c p Hc Hp)).
  unfold last_of. rewrite (net_of_aligned c p) by (done || apply Hp).
  setoid_rewrite <-list_elem_of_In.
  split; [intros (s & ? & x & ? & ?)|intros (s & x & ? & ? & ?)];
    [exists s, x|exists s; split; [done|]; exists x]; intuition lia.
Qed.

(** With at least [fit_fuel] steps the search answers: the least free
    candidate of the progression, or none when every candidate is taken. *)
Lemma first_fit_spec fuel allocated p step endInt c :
  0 < step → c ≤ endInt + 1 → (Z.to_nat ((endInt - c) / step + 2) ≤ fuel)%nat →
  ∃ r, first_fit fuel allocated p step endInt c = Some r ∧
    match r with
    | Some d => ∃ k, 0 ≤ k ∧ d = c + k * step ∧ d + step - 1 ≤ endInt ∧
        taken allocated p d = false ∧
        ∀ j, 0 ≤ j < k → taken allocated p (c + j * step) = true
    | None => ∀ j, 0 ≤ j → c + j * step + step - 1 ≤ endInt →
        taken allocated p (c + j * step) = true
    end.
Proof.
  intros Hstep. revert c. induction fuel as [|fuel IH]; intros c Hc Hfuel.
  { assert (-1 ≤ (endInt - c) / step) by (apply Z.div_le_lower_bound; lia). lia. }
  simpl. destruct (Z.leb_spec (c + step - 1) endInt) as [Hle|Hgt].
  2:{ eexists. split; [done|]. intros j Hj Hj'. nia. }
  destruct (existsb _ allocated) eqn:Ht; fold (taken allocated p c) in Ht.
  2:{ eexists. split; [done|]. exists 0. rewrite Z.mul_0_l, Z.add_0_r.
      repeat split; [lia..|done|lia]. }
  destruct (IH (c + step)) as (r & -> & Hr); [lia| |].
  { replace (endInt - (c + step)) with (endInt - c + (-1) * step) by ring.
    rewrite Z.div_add by lia. lia. }
  exists r. split; [done|]. destruct r as [d|].
  - destruct Hr as (k & Hk & -> & Hd & Hfree & Hall). exists (k + 1).
    repeat split; [lia|ring|lia|done|]. intros j Hj.
    destruct (decide (j = 0)) as [->|]; [by rewrite Z.mul_0_l, Z.add_0_r|].
    replace (c + j * step) with (c + step + (j - 1) * step) by ring. apply Hall. lia.
  - intros j Hj Hj'.
    destruct (decide (j = 0)) as [->|]; [by rewrite Z.mul_0_l, Z.add_0_r|].
    replace (c + j * step) with (c + step + (j - 1) * step) by ring. apply Hr; [lia|].
    replace (c + step + (j - 1) * step) with (c + j * step) by ring. lia.
Qed.

Lemma first_fit_fuel allocated p step baseInt endInt :
  0 < step → baseInt ≤ endInt + 1 →
  ∃ r, first_fit (fit_fuel step baseInt endInt) allocated p step endInt baseInt = Some r.
Proof.
  intros Hs Hb. destruct (first_fit_spec (fit_fuel step baseInt endInt) allocated p step
    endInt baseInt Hs Hb ltac:(done)) as (r & Hr & _). by exists r.
Qed.

(** A block that fits inside another has the longer prefix. *)
Lemma fit_prefix n P p c :
  is_prefix P → is_prefix p →
  net_of n P ≤ c → c + blk_size p - 1 ≤ last_of n P → P ≤ p.
Proof.
  intros [] [] Hc1 Hc2. destruct (Z.le_gt_cases P p) as [|Hlt]; [done|exfalso].
  pose proof (blk_size_le (p + 1) P ltac:(lia) ltac:(lia)).
  assert (blk_size p = 2 * blk_size (p + 1)) as Heq.
  { unfold blk_size. rewrite <-(Z.pow_1_r 2) at 2. rewrite <-Z.pow_add_r by lia.
    f_equal. lia. }
  pose proof (blk_size_pos (p + 1) ltac:(lia)). unfold last_of in *. lia.
Qed.

Lemma net_of_divide_longer n P p : P ≤ p → p ≤ 32 → (blk_size p | net_of n P).
Proof.
  intros. eapply Z.divide_trans; [|apply net_of_divide]. by apply blk_size_divide.
Qed.

(** An aligned address above [b] is a term of the progression from [b]. *)
Lemma aligned_progression s b d :
  0 < s → (s | b) → (s | d) → b ≤ d → ∃ j, 0 ≤ j ∧ d = b + j * s.
Proof. intros Hs [m ->] [k ->] Hle. exists (k - m). nia. Qed.

(** What a first-fit search over the block of prefix [P] around [n] with
    candidates of prefix [p] means for the addresses. *)
Lemma first_fit_block allocated n P p r :
  is_addr n → is_prefix P → is_prefix p →
  first_fit (fit_fuel (blk_size p) (net_of n P) (last_of n P)) allocated p
    (blk_size p) (last_of n P) (net_of n P) = Some r →
  match r with
  | Some c => P ≤ p ∧ (blk_size p | c) ∧ is_addr c ∧
      net_of n P ≤ c ∧ c + blk_size p - 1 ≤ last_of n P ∧
      (∀ s x, s ∈ allocated → covers s x → ¬ (c ≤ x < c + blk_size p)) ∧
      (∀ d, (blk_size p | d) → net_of n P ≤ d < c →
        ∃ s x, s ∈ allocated ∧ covers s x ∧ d ≤ x < d + blk_size p)
  | None => ∀ d, (blk_size p | d) → net_of n P ≤ d → d + blk_size p - 1 ≤ last_of n P →
      ∃ s x, s ∈ allocated ∧ covers s x ∧ d ≤ x < d + blk_size p
  end.
Proof.
  intros Hn HP Hp Hr.
  pose proof (blk_size_pos p (proj2 Hp)) as Hs.
  pose proof (net_of_addr n P Hn HP) as Hna. pose proof (last_of_addr n P Hn HP) as Hla.
  pose proof (net_of_bounds n P (proj2 HP)) as Hb.
  destruct (first_fit_spec (fit_fuel (blk_size p) (net_of n P) (last_of n P)) allocated p
    (blk_size p) (last_of n P) (net_of n P) Hs ltac:(lia) ltac:(done)) as (r' & Hr' & Hspec).
  rewrite Hr in Hr'. injection Hr' as <-.
  destruct r as [c|].
  - destruct Hspec as (k & Hk & -> & Hend & Hfree & Hall).
    assert (P ≤ p) as HPp by (eapply fit_prefix; [..|exact Hend]; [done..|nia]).
    pose proof (net_of_divide_longer n P p HPp (proj2 Hp)) as Hdiv.
    assert (blk_size p | net_of n P + k * blk_size p) as Hal.
    { apply Z.divide_add_r; [done|apply Z.divide_factor_r]. }
    assert (is_addr (net_of n P + k * blk_size p)) as Haddr.
    { destruct Hna, Hla. split; nia. }
    split_and!; try done; [nia| |].
    + intros s x Hin Hcov Hx. apply not_true_iff_false in Hfree. apply Hfree.
      apply taken_spec; eauto.
    + intros d Hd Hdlt.
      destruct (aligned_progression _ _ d Hs Hdiv Hd) as (j & Hj & ->); [lia|].
      apply taken_spec; [destruct Hna, Haddr; split; nia|done|done|].
      apply Hall. nia.
  - intros d Hd Hd1 Hd2.
    pose proof (fit_prefix n P p d HP Hp Hd1 Hd2) as HPp.
    pose proof (net_of_divide_longer n P p HPp (proj2 Hp)) as Hdiv.
    destruct (aligned_progression _ _ d Hs Hdiv Hd Hd1) as (j & Hj & ->).
    apply taken_spec; [destruct Hna, Hla; split; nia|done|done|].
    by apply Hspec.
Qed.

Lemma findNextAvailableSubnet_unfold parent allocated p n P b e :
  new_Netmask parent = Some b → is_block b n P → broadcast_int b = Ok e → is_prefix p →
  ∃ r, first_fit (fit_fuel (blk_size p) (net_of n P) (last_of n P)) allocated p
         (blk_size p) (last_of n P) (net_of n P) = Some r ∧
    findNextAvailableSubnet parent allocated p =
      match r with
      | Some c => Some <$> normalizeCidr (cidr_text c p)
      | None => Ok None
      end.
Proof.
  intros Hs Hb He Hp. unfold findNextAvailableSubnet, Netmask. rewrite Hs. simpl.
  pose proof (is_block_broadcast_int _ _ _ _ Hb He) as ->. rewrite He. simpl.
  rewrite (is_block_base_int _ _ _ Hb). fold (blk_size p).
  pose proof (net_of_bounds n P (proj2 (ib_prefix _ _ _ Hb))).
  destruct (first_fit_fuel allocated p (blk_size p) (net_of n P) (last_of n P))
    as [r Hr]; [apply blk_size_pos, Hp|lia|].
  exists r. split; [done|]. rewrite Hr. by destruct r.
Qed.

Lemma findNextAvailableSubnet_spec parent allocated n P p :
  denotes parent n P → P ≤ 30 → is_prefix p →
  ∃ r, findNextAvailableSubnet parent allocated p = Ok r ∧
  match r with
  | Some s => ∃ c, s = cidr_text c p ∧ denotes s c p ∧ (blk_size p | c) ∧
      (∀ x, covers s x → covers parent x) ∧
      (∀ a x, a ∈ allocated → covers a x → ¬ covers s x) ∧
      (∀ d, (blk_size p | d) → net_of n P ≤ d < c →
        ∃ a x, a ∈ allocated ∧ covers a x ∧ d ≤ x < d + blk_size p)
  | None => ∀ d, (blk_size p | d) → net_of n P ≤ d → d + blk_size p - 1 ≤ last_of n P →
      ∃ a x, a ∈ allocated ∧ covers a x ∧ d ≤ x < d + blk_size p
  end.
Proof.
  intros Hd HP Hp. pose proof Hd as (b & Hs & Hb).
  destruct (findNextAvailableSubnet_unfold parent allocated p n P b _ Hs Hb
    (is_block_broadcast_ok _ _ _ Hb HP) Hp) as (r & Hr & ->).
  pose proof (first_fit_block allocated n P p r (ib_addr _ _ _ Hb) (ib_prefix _ _ _ Hb) Hp Hr)
    as Hspec.
  destruct r as [c|]; [|by exists None].
  destruct Hspec as (HPp & Hal & Haddr & Hlo & Hhi & Hfree & Hleast).
  pose proof (denotes_text c p Haddr Hp) as Hdc.
  pose proof (net_of_aligned c p (proj2 Hp) Hal) as Hnet.
  rewrite (normalizeCidr_denotes _ _ _ Hdc), Hnet. eexists. split; [done|].
  exists c. split_and!; try done.
  - intros x. rewrite (denotes_covers _ _ _ _ Hdc), (denotes_covers _ _ _ _ Hd).
    unfold last_of in *. rewrite Hnet. lia.
  - intros a x Ha Hx. rewrite (denotes_covers _ _ _ _ Hdc). unfold last_of. rewrite Hnet.
    intros Hc. eapply Hfree; eauto. lia.
Qed.

(** Whatever the parent, a subnet that is found has the requested prefix. *)
Lemma findNextAvailableSubnet_prefix parent allocated p t :
  is_prefix p → findNextAvailableSubnet parent allocated p = Ok (Some t) →
  ∃ c, denotes t c p.
Proof.
  intros Hp Hrun. destruct (new_Netmask parent) as [b|] eqn:Hs.
  2:{ unfold findNextAvailableSubnet, Netmask in Hrun. by rewrite Hs in Hrun. }
  destruct (nm_shape _ _ Hs) as (n & P & Hb).
  destruct (broadcast_int b) as [e|e] eqn:He.
  2:{ unfold findNextAvailableSubnet, Netmask in Hrun. rewrite Hs in Hrun. simpl in Hrun.
      by rewrite He in Hrun. }
  destruct (findNextAvailableSubnet_unfold parent allocated p n P b e Hs Hb He Hp)
    as ([c|] & Hr & Heq); rewrite Heq in Hrun; [|done].
  apply first_fit_block in Hr as (_ & Hal & Haddr & _); [|apply Hb|apply Hb|done].
  rewrite (normalizeCidr_denotes _ _ _ (denotes_text c p Haddr Hp)) in Hrun.
  simplify_eq/=. exists (net_of c p). eapply denotes_net. by apply denotes_text.
Qed.
End first_fit.

(** ** Enumeration *)

Section enumerate.
Context `{NetmaskLaws}.

Lemma enumerateSubnetIps_denotes cidr n p page size :
  denotes cidr n p → p ≤ 30 →
  enumerateSubnetIps cidr page size =
    Ok (enumerate_one p (net_of n p) (blk_size p) <$>
          seqZ ((page - 1) * size)
            (Z.min ((page - 1) * size + size) (blk_size p) - (page - 1) * size),
        blk_size p).
Proof.
  intros (b & Hs & Hb) Hp. unfold enumerateSubnetIps, Netmask. rewrite Hs. simpl.
  rewrite (is_block_broadcast_ok _ _ _ Hb Hp). simpl.
  rewrite (is_block_base_int _ _ _ Hb), (ib_bitmask _ _ _ Hb).
  replace (last_of n p - net_of n p + 1) with (blk_size p) by (unfold last_of; lia). done.
Qed.
End enumerate.

(** ** The template packer *)

Section packer_lemmas.
Context {T : Type} (prefixLength : T → Z).

Definition pe_size (p : PackedEntry T) : Z := blk_size (pe_prefixLength p).
Definition pe_before (p q : PackedEntry T) : Prop := offset p + pe_size p ≤ offset q.

Lemma align_up_spec c s :
  0 < s → 0 ≤ c → c ≤ align_up c s ∧ (s | align_up c s) ∧ align_up c s < c + s.
Proof.
  intros Hs Hc. unfold align_up. destruct (Z.eqb_spec (c mod s) 0) as [H0|H0]; simpl.
  - split_and!; [lia|by apply Z.mod_divide; [lia|]|lia].
  - pose proof (Z.div_mod (c + s - 1) s ltac:(lia)).
    pose proof (Z.mod_pos_bound (c + s - 1) s Hs).
    split_and!; [nia|apply Z.divide_factor_r|nia].
Qed.

Lemma pack_loop_spec entries c ps c' :
  0 ≤ c → Forall (λ e, is_prefix (prefixLength e)) entries →
  pack_loop prefixLength c entries = (ps, c') →
  pe_entry <$> ps = entries ∧ c ≤ c' ∧
  Forall (λ p, pe_prefixLength p = prefixLength (pe_entry p) ∧ (pe_size p | offset p) ∧
               c ≤ offset p ∧ offset p + pe_size p ≤ c') ps ∧
  StronglySorted pe_before ps.
Proof.
  intros Hc He. revert c ps c' Hc. induction He as [|e entries Hp He IH]; intros c ps c' Hc.
  { intros [= <- <-]. repeat constructor; lia. }
  simpl. fold (blk_size (prefixLength e)).
  pose proof (blk_size_pos (prefixLength e) (proj2 Hp)) as Hs.
  destruct (align_up_spec c _ Hs Hc) as (Ha1 & Ha2 & Ha3).
  set (a := align_up c _) in *.
  destruct (pack_loop _ _ entries) as [ps' c1] eqn:Hl. intros [= <- <-].
  destruct (IH _ _ _ (ltac:(lia) : 0 ≤ a + blk_size (prefixLength e)) Hl)
    as (Hm & Hle & Hall & Hsort).
  split_and!.
  - by rewrite fmap_cons, Hm.
  - lia.
  - constructor.
    + unfold pe_size. simpl. split_and!; [done|done|lia|lia].
    + eapply Forall_impl; [exact Hall|]. simpl. intuition lia.
  - constructor; [done|]. eapply Forall_impl; [exact Hall|].
    unfold pe_before, pe_size. simpl. intuition lia.
Qed.

(** The packed group: order kept, every entry aligned to its own size, no two
    overlap, and all end at or before [totalSpan]; the containing prefix is
    the longest whose block holds the group. *)
Lemma packTemplateEntries_spec entries :
  entries ≠ [] → Forall (λ e, is_prefix (prefixLength e)) entries →
  let r := packTemplateEntries prefixLength entries in
  pe_entry <$> packed r = entries ∧
  Forall (λ p, pe_prefixLength p = prefixLength (pe_entry p) ∧ (pe_size p | offset p) ∧
               0 ≤ offset p ∧ offset p + pe_size p ≤ totalSpan r) (packed r) ∧
  StronglySorted pe_before (packed r) ∧
  1 ≤ totalSpan r ≤ blk_size (containingPrefix r) ∧ containingPrefix r ≤ 32 ∧
  (∀ q, q ≤ 32 → totalSpan r ≤ blk_size q → q ≤ containingPrefix r).
Proof.
  intros Hne He. destruct entries as [|e entries]; [done|]. simpl.
  destruct (pack_loop prefixLength 0 (e :: entries)) as [ps c'] eqn:Hl.
  destruct (pack_loop_spec _ _ _ _ ltac:(done) He Hl) as (Hm & Hle & Hall & Hsort).
  simpl in Hl. rewrite Hl. simpl.
  assert (1 ≤ c') as H1.
  { destruct ps as [|q ps]; [done|]. apply Forall_cons in Hall as [(Heq & _ & Ho & Hq) _].
    pose proof (blk_size_pos (pe_prefixLength q)) as Hqs. unfold pe_size in Hq.
    apply Forall_cons in He as [Hp _]. simpl in Hm. simplify_eq.
    rewrite Heq in *. specialize (Hqs (proj2 Hp)). lia. }
  split_and!; try done.
  - unfold blk_size. replace (32 - (32 - Z.log2_up c')) with (Z.log2_up c') by lia.
    destruct (decide (c' = 1)) as [->|]; [done|]. apply Z.log2_up_spec. lia.
  - pose proof (Z.log2_up_nonneg c'). lia.
  - intros q Hq Hcq. unfold blk_size in Hcq.
    apply Z.log2_up_le_pow2 in Hcq; lia.
Qed.
End packer_lemmas.

Section anchor_lemmas.
Context `{NetmaskLaws}.

(** The effective anchor prefix: the larger of the requested and the
    containing block, cut off at the parent. *)
Definition effective_anchor (P requested containing : Z) : Z :=
  let eff := Z.min requested containing in if eff <? P then P else eff.

Lemma packIntoAnchor_unfold {T} (pl : T → Z) parent allocated entries A n P b e :
  entries ≠ [] → new_Netmask parent = Some b → is_block b n P → broadcast_int b = Ok e →
  is_prefix A → Forall (λ e, is_prefix (pl e)) entries →
  let pk := packTemplateEntries pl entries in
  let eff := effective_anchor P A (containingPrefix pk) in
  is_prefix eff ∧ P ≤ eff ∧
  ∃ r, first_fit (fit_fuel (blk_size eff) (net_of n P) (last_of n P)) allocated eff
         (blk_size eff) (last_of n P) (net_of n P) = Some r ∧
    packIntoAnchor pl parent allocated entries A = Ok
      ((λ c, mkAnchoredPackResult
         ((λ p, (pe_entry p, cidr_text (c + offset p) (pe_prefixLength p))) <$> packed pk)
         (cidr_text c eff) eff) <$> r).
Proof.
  intros Hne Hs Hb He HA Hpl pk eff.
  destruct (packTemplateEntries_spec pl entries Hne Hpl) as (_ & _ & _ & _ & Hcp & _).
  fold pk in Hcp. pose proof (ib_prefix _ _ _ Hb) as HP.
  assert (P ≤ eff ∧ is_prefix eff) as [HPe Heff].
  { unfold eff, effective_anchor, is_prefix in *.
    destruct (Z.ltb_spec (Z.min A (containingPrefix pk)) P); lia. }
  split_and!; [done..|].
  pose proof (net_of_bounds n P (proj2 HP)).
  destruct (first_fit_fuel allocated eff (blk_size eff) (net_of n P) (last_of n P))
    as [r Hr]; [apply blk_size_pos, Heff|lia|].
  exists r. split; [done|].
  pose proof (is_block_broadcast_int _ _ _ _ Hb He) as ->.
  destruct entries as [|e0 es]; [done|]. unfold packIntoAnchor, Netmask. rewrite Hs.
  cbn [mbind result_bind of_opt]. rewrite He. cbn [mbind result_bind].
  rewrite (is_block_base_int _ _ _ Hb), (ib_bitmask _ _ _ Hb).
  fold pk. fold (effective_anchor P A (containingPrefix pk)). fold eff. fold (blk_size eff).
  rewrite Hr. by destruct r.
Qed.

Lemma anchor_fits P A cp span :
  P ≤ 32 → span ≤ blk_size cp → cp ≤ 32 →
  (∀ q, q ≤ 32 → span ≤ blk_size q → q ≤ cp) → span ≤ blk_size P →
  span ≤ blk_size (effective_anchor P A cp).
Proof.
  intros HP Hcp Hcp32 Hbest Hspan. unfold effective_anchor.
  destruct (Z.ltb_spec (Z.min A cp) P); [done|].
  pose proof (Hbest P HP Hspan).
  pose proof (blk_size_le (Z.min A cp) cp ltac:(lia) Hcp32). lia.
Qed.

(** An entry of the packed group, placed at anchor [c]. *)
Lemma placed_entry c eff span off p :
  is_addr c → is_prefix eff → is_prefix p → (blk_size eff | c) →
  span ≤ blk_size eff → (blk_size p | off) → 0 ≤ off → off + blk_size p ≤ span →
  denotes (cidr_text (c + off) p) (c + off) p ∧ (blk_size p | c + off) ∧
  net_of (c + off) p = c + off ∧ last_of c eff < 2 ^ 32.
Proof.
  intros Hc Heff Hp Hal Hspan Hoff Ho1 Ho2.
  pose proof (last_of_lt c eff Hc Heff) as Hlast.
  pose proof (net_of_aligned c eff (proj2 Heff) Hal) as Hnet.
  pose proof (blk_size_pos p (proj2 Hp)).
  assert (eff ≤ p) as Hle.
  { apply (fit_prefix c eff p (c + off)); [done..| |]; unfold last_of; rewrite Hnet; lia. }
  assert (blk_size p | c + off) as Hdiv.
  { apply Z.divide_add_r; [|done]. eapply Z.divide_trans; [|exact Hal].
    apply blk_size_divide; [done|apply Hp]. }
  split_and!; [apply denotes_text; [|done]|done|by apply net_of_aligned; [apply Hp|]|done].
  unfold last_of in Hlast. rewrite Hnet in Hlast. destruct Hc. split; lia.
Qed.

(** Every entry of a packed group that fits the anchor, placed at [c]. *)
Lemma placed_group {T} (pl : T → Z) entries c eff :
  entries ≠ [] → Forall (λ e, is_prefix (pl e)) entries →
  is_addr c → is_prefix eff → (blk_size eff | c) →
  totalSpan (packTemplateEntries pl entries) ≤ blk_size eff →
  ∀ p, p ∈ packed (packTemplateEntries pl entries) →
    let s := cidr_text (c + offset p) (pe_prefixLength p) in
    pe_prefixLength p = pl (pe_entry p) ∧
    0 ≤ offset p ∧ offset p + pe_size p ≤ blk_size eff ∧
    (blk_size (pe_prefixLength p) | c + offset p) ∧
    denotes s (c + offset p) (pe_prefixLength p) ∧
    ∀ x, covers s x ↔ c + offset p ≤ x < c + offset p + pe_size p.
Proof.
  intros Hne Hpl Hc Heff Hal Hin p Hp s.
  destruct (packTemplateEntries_spec pl entries Hne Hpl) as (Hent & Hall & _).
  rewrite Forall_forall in Hall. rewrite Forall_forall in Hpl.
  destruct (Hall p Hp) as (Hpp & Hoff & Ho1 & Ho2).
  assert (is_prefix (pe_prefixLength p)) as Hpre.
  { rewrite Hpp. apply Hpl. rewrite <-Hent. by apply list_elem_of_fmap_2. }
  destruct (placed_entry c eff (totalSpan (packTemplateEntries pl entries)) (offset p)
    (pe_prefixLength p)) as (Hde & Hdiv & Hnp & _); [done..|].
  split_and!; try done; [lia|]. intros x. unfold s.
  rewrite (denotes_covers _ _ _ _ Hde). unfold last_of, pe_size. rewrite Hnp. lia.
Qed.

(** The layout of a group placed at the anchor the search found. *)
Lemma anchor_layout {T} (pl : T → Z) parent allocated entries A n P c :
  denotes parent n P → is_prefix A → entries ≠ [] →
  Forall (λ e, is_prefix (pl e)) entries →
  let pk := packTemplateEntries pl entries in
  let eff := effective_anchor P A (containingPrefix pk) in
  is_prefix eff → totalSpan pk ≤ blk_size P →
  first_fit (fit_fuel (blk_size eff) (net_of n P) (last_of n P)) allocated eff
    (blk_size eff) (last_of n P) (net_of n P) = Some (Some c) →
  let r := (λ p, (pe_entry p, cidr_text (c + offset p) (pe_prefixLength p))) <$> packed pk in
  r.*1 = entries ∧
  (∀ e s, (e, s) ∈ r →
    ∃ a, s = cidr_text a (pl e) ∧ denotes s a (pl e) ∧ (blk_size (pl e) | a) ∧
      (∀ x, covers s x → covers (cidr_text c eff) x ∧ covers parent x) ∧
      (∀ t x, t ∈ allocated → covers t x → ¬ covers s x)) ∧
  StronglySorted (λ s t, ∀ x y, covers s x → covers t y → x < y) r.*2.
Proof.
  intros Hd HA Hne Hpl pk eff Heff Hspan Hfit r.
  destruct (packTemplateEntries_spec pl entries Hne Hpl)
    as (Hent & Hall & Hsort & [_ Hcp] & Hcp32 & Hbest). fold pk in Hent, Hall, Hsort, Hcp, Hcp32, Hbest.
  pose proof Hd as (b & _ & [Hn HP _ _ _ _ _]).
  pose proof (anchor_fits P A _ _ (proj2 HP) Hcp Hcp32 Hbest Hspan) as Hin. fold eff in Hin.
  apply first_fit_block in Hfit as (_ & Hal & Hc & Hlo & Hhi & Hfree & _); [|done..].
  pose proof (net_of_aligned c eff (proj2 Heff) Hal) as Hnet.
  pose proof (denotes_text c eff Hc Heff) as Hda.
  pose proof (placed_group pl entries c eff Hne Hpl Hc Heff Hal Hin) as Hplace. fold pk in Hplace.
  split_and!.
  - unfold r. rewrite <-list_fmap_compose. exact Hent.
  - intros e s Hes. apply list_elem_of_fmap in Hes as (p & [= -> ->] & Hp).
    destruct (Hplace p Hp) as (Hpp & Ho1 & Ho2 & Hdiv & Hde & Hcov).
    exists (c + offset p). rewrite <-Hpp. split_and!; try done.
    + intros x. rewrite Hcov, (denotes_covers _ _ _ _ Hda), (denotes_covers _ _ _ _ Hd).
      unfold last_of in *. rewrite Hnet. lia.
    + intros t x Ht Hx. rewrite Hcov. intros Hx'. eapply Hfree; eauto. lia.
  - unfold r. rewrite <-list_fmap_compose.
    apply (StronglySorted_fmap_in pe_before); [|done].
    intros p q Hp Hq Hpq x y. simpl.
    destruct (Hplace p Hp) as (_ & _ & _ & _ & _ & ->).
    destruct (Hplace q Hq) as (_ & _ & _ & _ & _ & ->).
    unfold pe_before in Hpq. lia.
Qed.

Lemma packIntoAnchor_layout {T} (pl : T → Z) parent allocated entries A n P r :
  denotes parent n P → is_prefix A → entries ≠ [] →
  Forall (λ e, is_prefix (pl e)) entries →
  totalSpan (packTemplateEntries pl entries) ≤ blk_size P →
  packIntoAnchor pl parent allocated entries A = Ok (Some r) →
  (assignments r).*1 = entries ∧
  (∀ e s, (e, s) ∈ assignments r →
    ∃ a, s = cidr_text a (pl e) ∧ denotes s a (pl e) ∧ (blk_size (pl e) | a) ∧
      (∀ x, covers s x → covers (anchorCidr r) x ∧ covers parent x) ∧
      (∀ t x, t ∈ allocated → covers t x → ¬ covers s x)) ∧
  StronglySorted (λ s t, ∀ x y, covers s x → covers t y → x < y) (assignments r).*2.
Proof.
  intros Hd HA Hne Hpl Hspan Hok. pose proof Hd as (b & Hs & Hb).
  assert (∃ e, broadcast_int b = Ok e) as [e He].
  { revert Hok. unfold packIntoAnchor, Netmask. rewrite Hs.
    destruct entries; [done|]. simpl. destruct (broadcast_int b); [by eexists|done]. }
  destruct (packIntoAnchor_unfold pl parent allocated entries A n P b e Hne Hs Hb
    He HA Hpl) as (Heff & HPe & r0 & Hr0 & Heq).
  rewrite Heq in Hok. destruct r0 as [c|]; [|done]. simpl in Hok. injection Hok as <-.
  apply (anchor_layout pl parent allocated entries A n P c); eauto.
Qed.

(** An address past the end of the space wraps around. *)
Lemma cidr_text_mod n p : cidr_text n p = cidr_text (n mod 2 ^ 32) p.
Proof.
  unfold cidr_text, intToIp, js_ushr, to_uint32. rewrite !js_and_255, !Z.mod_mod by done.
  rewrite (Z.mod_mod_divide n (2 ^ 32) 256) by (exists (2 ^ 24); done). done.
Qed.
Lemma denotes_wrapped n p : is_prefix p → denotes (cidr_text n p) (n mod 2 ^ 32) p.
Proof. intros Hp. rewrite cidr_text_mod. apply denotes_text; [|done]. apply Z.mod_pos_bound. lia. Qed.

(** Whatever its size, a packed template keeps the entries in order and gives
    each one a CIDR of its prefix. *)
Lemma packIntoAnchor_entries {T} (pl : T → Z) parent allocated entries A n P r :
  denotes parent n P → is_prefix A → entries ≠ [] → Forall (λ e, is_prefix (pl e)) entries →
  packIntoAnchor pl parent allocated entries A = Ok (Some r) →
  (assignments r).*1 = entries ∧ ∀ e s, (e, s) ∈ assignments r → ∃ a, denotes s a (pl e).
Proof.
  intros Hd HA Hne Hpl Hok. pose proof Hd as (b & Hs & Hb).
  assert (∃ e, broadcast_int b = Ok e) as [e He].
  { revert Hok. unfold packIntoAnchor, Netmask. rewrite Hs.
    destruct entries; [done|]. simpl. destruct (broadcast_int b); [by eexists|done]. }
  destruct (packIntoAnchor_unfold pl parent allocated entries A n P b e Hne Hs Hb
    He HA Hpl) as (_ & _ & r0 & _ & Heq).
  rewrite Heq in Hok. destruct r0 as [c|]; [|done]. simpl in Hok. injection Hok as <-.
  destruct (packTemplateEntries_spec pl entries Hne Hpl) as (Hent & Hall & _). simpl. split.
  - rewrite <-list_fmap_compose. exact Hent.
  - intros e' s (p & [= -> ->] & Hp)%list_elem_of_fmap. rewrite Forall_forall in Hall. rewrite Forall_forall in Hpl.
    destruct (Hall p Hp) as (Hpp & _). rewrite Hpp. eexists. apply denotes_wrapped, Hpl.
    rewrite <-Hent. by apply list_elem_of_fmap_2.
Qed.
End anchor_lemmas.

(** ** A reference implementation of the package interface

    It accepts exactly [a.b.c.d/n] and, as the package does, leaves [broadcast]
    undefined from /31 on.  It shows that the laws can be met, and it lets
    the definitions above be evaluated. *)

Module RefNetmask.

Definition block_at (n p : Z) : NetBlock :=
  mkNetBlock (intToIp (net_of n p)) p
    (if p <=? 30 then Some (intToIp (last_of n p)) else None) (blk_size p).

Definition parse (s : string) : option NetBlock :=
  match Js.split "/" s with
  | [a; m] =>
      if ipv4Regex a && isValidIpAddress a && Js.sforallb Js.is_digit m
      then match Js.parseInt m with
           | Some p => if p <=? 32 then Some (block_at (ipToInt a) p) else None
           | None => None
           end
      else None
  | _ => None
  end.

Definition contains_ (b : NetBlock) (ip : option string) : option bool :=
  match ip with
  | Some ip =>
      if ipv4Regex ip
      then Some (bool_decide (ipToInt (base b) ≤ ipToInt ip ≤ ipToInt (base b) + size b - 1))
      else None
  | None => None
  end.

#[export] Instance lib : NetmaskLib := {| new_Netmask := parse; contains := contains_ |}.

Lemma no_broadcast s b : parse s = Some b → 31 ≤ bitmask b → broadcast b = None.
Proof.
  unfold parse. repeat case_match; intros ?; simplify_eq. simpl.
  intros Hp. destruct (Z.leb_spec z 30); [lia|done].
Qed.

End RefNetmask.

Lemma octet_text_ok v :
  0 ≤ v < 256 →
  Js.sforallb Js.is_digit (pretty v) && (1 <=? String.length (pretty v))%nat &&
  (String.length (pretty v) <=? 3)%nat = true.
Proof.
  intros Hv.
  assert (forallb (λ v, Js.sforallb Js.is_digit (pretty v) &&
      (1 <=? String.length (pretty v))%nat && (String.length (pretty v) <=? 3)%nat)
      (seqZ 0 256) = true) as Hall by (vm_compute; done).
  rewrite forallb_forall in Hall. apply Hall, list_elem_of_In, elem_of_seqZ. lia.
Qed.

Lemma octet_bounds n : 0 ≤ n mod 256 < 256.
Proof. by apply Z.mod_pos_bound. Qed.

Lemma ipv4Regex_intToIp n : is_addr n → ipv4Regex (intToIp n) = true.
Proof.
  intros Hn. unfold ipv4Regex. rewrite split_intToIp by done. simpl.
  by rewrite !octet_text_ok by apply octet_bounds.
Qed.

(** Every 32-bit address prints to a text the validator accepts. *)
Lemma isValidIpAddress_intToIp n : is_addr n → isValidIpAddress (intToIp n) = true.
Proof.
  intros Hn. unfold isValidIpAddress. rewrite ipv4Regex_intToIp, split_intToIp by done. simpl.
  rewrite !parseInt_pretty by apply octet_range.
  pose proof (octet_bounds n). pose proof (octet_bounds (n / 2 ^ 8)).
  pose proof (octet_bounds (n / 2 ^ 16)). pose proof (octet_bounds (n / 2 ^ 24)). lia.
Qed.

(** No separator other than the dot and the digits occurs in a dotted quad. *)
Lemma intToIp_no_sep n sep :
  is_addr n → Js.is_digit sep = false → Ascii.eqb "." sep = false →
  Js.sforallb (λ c, negb (Ascii.eqb c sep)) (intToIp n) = true.
Proof.
  intros Hn Hd Hdot. rewrite intToIp_octets by done. cbn [fmap list_fmap Js.join].
  rewrite !sforallb_append. cbn [Js.sforallb]. rewrite Hdot.
  by rewrite !pretty_no_sep by (done || apply octet_range).
Qed.

Lemma split_cidr_text n p :
  is_addr n → is_prefix p → Js.split "/" (cidr_text n p) = [intToIp n; pretty p].
Proof.
  intros Hn [Hp _]. unfold cidr_text.
  change ("/" +:+ pretty p) with (String "/" (pretty p)).
  rewrite split_append by (by apply intToIp_no_sep). f_equal.
  by apply split_no_sep, pretty_no_sep.
Qed.

Lemma includes_cons_false c s :
  Js.sforallb (λ d, negb (Ascii.eqb d c)) s = true → Js.includes (String c "") s = false.
Proof.
  induction s as [|d s IH]; [done|]. cbn [Js.sforallb]. rewrite andb_true_iff, negb_true_iff.
  intros [Hd Hs]. cbn [Js.includes Js.startsWith]. rewrite Ascii.eqb_sym, Hd, (IH Hs). done.
Qed.

Lemma includes_append_sep c a b : Js.includes (String c "") (a +:+ String c b) = true.
Proof.
  induction a as [|d a IH].
  - cbn. by rewrite Ascii.eqb_refl.
  - simpl String.append. cbn [Js.includes]. rewrite IH. apply orb_true_r.
Qed.

(** A printed CIDR is an IPv4 CIDR text. *)
Lemma detectIpVersion_text n p :
  is_addr n → is_prefix p → detectIpVersion (cidr_text n p) = v4.
Proof.
  intros Hn [Hp _]. unfold detectIpVersion. rewrite includes_cons_false; [done|].
  unfold cidr_text. rewrite !sforallb_append. cbn [Js.sforallb].
  by rewrite intToIp_no_sep, pretty_no_sep.
Qed.

Lemma isValidCidr_text `{NetmaskLaws} n p :
  is_addr n → is_prefix p → isValidCidr (cidr_text n p) = true.
Proof.
  intros Hn Hp. unfold isValidCidr.
  assert (Js.includes "/" (cidr_text n p) = true) as ->
    by apply (includes_append_sep "/" (intToIp n) (pretty p)).
  rewrite detectIpVersion_text by done. simpl.
  destruct (denotes_text n p Hn Hp) as (b & Hb & _). unfold Netmask. by rewrite Hb.
Qed.

Lemma block_at_is_block n p : is_addr n → is_prefix p → is_block (RefNetmask.block_at n p) n p.
Proof.
  intros Hn Hp. constructor; simpl; try done.
  - intros H30. by rewrite (proj2 (Z.leb_le _ _) H30).
  - destruct (p <=? 30); auto.
Qed.

#[export] Instance RefNetmask_laws : @NetmaskLaws RefNetmask.lib.
Proof.
  constructor.
  - intros s b. simpl. unfold RefNetmask.parse.
    destruct (Js.split "/" s) as [|a [|m [|]]]; try done.
    destruct (ipv4Regex a && isValidIpAddress a && Js.sforallb Js.is_digit m) eqn:Hm; [|done].
    destruct (Js.parseInt m) as [p|] eqn:Hp; [|done].
    destruct (Z.leb_spec p 32); [|done]. intros [= <-].
    exists (ipToInt a), p. apply block_at_is_block; [apply to_uint32_range|].
    split; [|done]. apply andb_prop in Hm as [_ Hm].
    destruct m as [|c m]; [done|]. simpl in Hm. apply andb_prop in Hm as [Hc Hm].
    rewrite parseInt_digit_head in Hp by done. injection Hp as <-.
    by apply (parse_digits_nonneg (String c m)).
  - intros n p Hn Hp. exists (RefNetmask.block_at n p).
    split; [|by apply block_at_is_block]. simpl. unfold RefNetmask.parse.
    rewrite split_cidr_text, ipv4Regex_intToIp, isValidIpAddress_intToIp by done.
    destruct Hp as [Hp0 Hp]. rewrite pretty_digits, parseInt_pretty by done. simpl.
    by rewrite (proj2 (Z.leb_le _ _) Hp), ipToInt_intToIp.
  - intros b n p x Hb Hx. cbn [contains RefNetmask.lib]. unfold RefNetmask.contains_.
    rewrite ipv4Regex_intToIp by done. f_equal. apply bool_decide_ext.
    by rewrite (is_block_base_int _ _ _ Hb), (ib_size _ _ _ Hb), ipToInt_intToIp by done.
  - done.
Qed.

#[global] Arguments cidr_text : simpl never.
#[global] Arguments net_of : simpl never.
#[global] Arguments last_of : simpl never.
#[global] Arguments blk_size : simpl never.
#[global] Arguments intToIp : simpl never.
#[global] Arguments ipToInt : simpl never.

(** ** Properties *)

Section claims.
Context `{NetmaskLaws}.

(** C1: reading back a printed address gives the same 32-bit integer, and
    printing is injective, although the reader goes through signed 32-bit
    shifts: [ipToInt (intToIp n) = n] for every [n] below 2^32. *)
Theorem ipToInt_intToIp_roundtrip n :
  is_addr n →
  ipToInt (intToIp n) = n ∧ isValidIpAddress (intToIp n) = true ∧
  (∀ m, is_addr m → intToIp m = intToIp n → m = n).
Proof.
  intros Hn. split_and!; [by apply ipToInt_intToIp|by apply isValidIpAddress_intToIp|].
  intros m Hm Heq. by apply intToIp_inj.
Qed.

(** [cidrOverlaps] answers true exactly when the two texts denote blocks
    that share an address; it is symmetric and never throws. *)
Theorem cidrOverlaps_iff_share a b :
  (cidrOverlaps a b = true ↔ ∃ x, covers a x ∧ covers b x) ∧
  cidrOverlaps a b = cidrOverlaps b a.
Proof. split; [apply cidrOverlaps_spec|apply cidrOverlaps_sym]. Qed.

(** C2: [findNextAvailableSubnet] on a parent of prefix [P] up to /30
    terminates without an error. A found block has the requested prefix, is
    aligned, lies inside the parent, is disjoint from every allocated CIDR,
    and is the lowest such block; [null] means every aligned block of the
    requested size inside the parent is taken. *)
Theorem findNextAvailableSubnet_first_fit parent allocated n P p :
  denotes parent n P → P ≤ 30 → is_prefix p →
  ∃ r, findNextAvailableSubnet parent allocated p = Ok r ∧
  match r with
  | Some s => ∃ c, s = cidr_text c p ∧ denotes s c p ∧ (blk_size p | c) ∧
      (∀ x, covers s x → covers parent x) ∧
      (∀ a x, a ∈ allocated → covers a x → ¬ covers s x) ∧
      (∀ d, (blk_size p | d) → net_of n P ≤ d < c →
        ∃ a x, a ∈ allocated ∧ covers a x ∧ d ≤ x < d + blk_size p)
  | None => ∀ d, (blk_size p | d) → net_of n P ≤ d → d + blk_size p - 1 ≤ last_of n P →
      ∃ a x, a ∈ allocated ∧ covers a x ∧ d ≤ x < d + blk_size p
  end.
Proof. apply findNextAvailableSubnet_spec. Qed.

(** When the packed template is no larger than the parent block,
    [packIntoAnchor] places every entry, in the caller's order, on an aligned
    block of the entry's own prefix inside the anchor and inside the parent;
    the blocks are pairwise disjoint and disjoint from every allocated CIDR. *)
Theorem packIntoAnchor_sound {T} (pl : T → Z) parent allocated entries A n P r :
  denotes parent n P → is_prefix A → entries ≠ [] →
  Forall (λ e, is_prefix (pl e)) entries →
  totalSpan (packTemplateEntries pl entries) ≤ blk_size P →
  packIntoAnchor pl parent allocated entries A = Ok (Some r) →
  (assignments r).*1 = entries ∧
  (∀ e s, (e, s) ∈ assignments r →
    ∃ a, s = cidr_text a (pl e) ∧ denotes s a (pl e) ∧ (blk_size (pl e) | a) ∧
      (∀ x, covers s x → covers (anchorCidr r) x ∧ covers parent x) ∧
      (∀ t x, t ∈ allocated → covers t x → ¬ covers s x)) ∧
  StronglySorted (λ s t, ∀ x y, covers s x → covers t y → x < y) (assignments r).*2.
Proof. intros. by eapply packIntoAnchor_layout. Qed.
End claims.

(** ** Instances of the properties on concrete networks *)

Section witnesses.
#[local] Existing Instance RefNetmask.lib.

(** The block 10.0.0.0/24 and the address 10.0.0.0. *)
Definition net10 : Z := 167772160.

Lemma is_addr_dec n : bool_decide (0 ≤ n < 2 ^ 32) = true → is_addr n.
Proof. intros. by apply bool_decide_eq_true_1 in H. Defined.

Lemma denotes_net10 : denotes "10.0.0.0/24" net10 24.
Proof.
  change "10.0.0.0/24"%string with (cidr_text net10 24).
  apply denotes_text; [by apply is_addr_dec|unfold is_prefix; lia].
Qed.

Lemma ipToInt_intToIp_roundtrip_witness :
  intToIp 3232235777 = "192.168.1.1"%string ∧ ipToInt "192.168.1.1" = 3232235777.
Proof.
  split; [vm_compute; reflexivity|].
  exact (proj1 (ipToInt_intToIp_roundtrip 3232235777 (is_addr_dec 3232235777 eq_refl))).
Defined.

Lemma cidrOverlaps_iff_share_witness :
  cidrOverlaps "10.0.0.0/24" "10.0.0.128/25" = true ∧
  ∃ x, covers "10.0.0.0/24" x ∧ covers "10.0.0.128/25" x.
Proof.
  assert (cidrOverlaps "10.0.0.0/24" "10.0.0.128/25" = true) as Ht by (vm_compute; reflexivity).
  split; [exact Ht|].
  exact (proj1 (proj1 (cidrOverlaps_iff_share "10.0.0.0/24" "10.0.0.128/25")) Ht).
Defined.

Lemma findNextAvailableSubnet_first_fit_witness :
  findNextAvailableSubnet "10.0.0.0/24" ["10.0.0.0/26"; "10.0.0.64/26"] 26
    = Ok (Some "10.0.0.128/26") ∧
  ∃ r, findNextAvailableSubnet "10.0.0.0/24" ["10.0.0.0/26"; "10.0.0.64/26"] 26 = Ok r.
Proof.
  split; [vm_compute; reflexivity|].
  destruct (findNextAvailableSubnet_first_fit "10.0.0.0/24" ["10.0.0.0/26"; "10.0.0.64/26"]
    net10 24 26 denotes_net10 ltac:(lia) ltac:(unfold is_prefix; lia)) as (r & Hr & _).
  exists r. exact Hr.
Defined.

Lemma packIntoAnchor_sound_witness :
  ∃ r, packIntoAnchor id "10.0.0.0/24" ["10.0.0.0/27"] [26; 27; 27] 25 = Ok (Some r) ∧
    assignments r = [(26, "10.0.0.128/26"); (27, "10.0.0.192/27"); (27, "10.0.0.224/27")] ∧
    (assignments r).*1 = [26; 27; 27].
Proof.
  eexists. split; [vm_compute; reflexivity|]. split; [reflexivity|].
  refine (proj1 (packIntoAnchor_sound id "10.0.0.0/24" ["10.0.0.0/27"] [26; 27; 27] 25
    net10 24 _ denotes_net10 _ _ _ _ _));
    [unfold is_prefix; lia|done|repeat constructor; simpl; lia|vm_compute; discriminate|].
  vm_compute. reflexivity.
Defined.
End witnesses.
