(* ===== verification/Store.v ===== *)
(** * The database and the world the services run against

    Rows of [src/prisma/schema.prisma] (the tables the IPAM services touch),
    the interface of one Prisma table with the laws the services rely on, the
    state of a request handler and the primitive steps of the handler monad
    over it.  A reference implementation of the table interface closes the
    file. *)

From S2P Require Import Prelude Cidr.
From stdpp Require Import stringmap.
Open Scope Z_scope.

(** ** Rows *)

Inductive SubnetStatus := Available | Reserved | Deprecated.
Inductive ReservationStatus := Active | Expired | Released.
Inductive ReservationSourceType :=
  | Manual | DhcpReservation | DhcpLease | InterfaceIp | Vip | FortiSwitch
  | Fortinap | StFortimanager | StFortigate | DnsResolved.
(** [pushStatus] holds one of four strings or null. *)
Inductive PushStatus := Synced | Drift | Pending | FailedPermanent.

#[global] Instance SubnetStatus_eq_dec : EqDecision SubnetStatus.
Proof. solve_decision. Defined.
#[global] Instance ReservationStatus_eq_dec : EqDecision ReservationStatus.
Proof. solve_decision. Defined.
#[global] Instance ReservationSourceType_eq_dec : EqDecision ReservationSourceType.
Proof. solve_decision. Defined.
#[global] Instance PushStatus_eq_dec : EqDecision PushStatus.
Proof. solve_decision. Defined.

Record IpBlock := mkIpBlock {
  b_id : string;
  b_name : string;
  b_cidr : string;
  b_ipVersion : IpVersion;
  b_description : option string;
  b_tags : list string;
}.

Record Subnet := mkSubnet {
  s_id : string;
  s_blockId : string;
  s_cidr : string;
  s_name : string;
  s_purpose : option string;
  s_status : SubnetStatus;
  s_vlan : option Z;
  s_tags : list string;
  s_discoveredBy : option string;
  s_fortigateDevice : option string;
  s_createdBy : option string;
  s_lastDiscoveredAt : option Z;
}.

(** The push columns of a reservation row. *)
Record PushState := mkPushState {
  pushedToId : option string;
  pushedScopeId : option Z;
  pushedEntryId : option Z;
  pushStatus : option PushStatus;
  pushedAt : option Z;
  pushError : option string;
  pushQueuedAt : option Z;
  pushAttempts : Z;
  pushLastAttemptAt : option Z;
}.

Definition no_push : PushState :=
  mkPushState None None None None None None None 0 None.

(** The columns of the stale-reservation alerts. *)
Record StaleState := mkStaleState {
  lastSeenLeased : option Z;
  staleNotifiedAt : option Z;
  staleSnoozedUntil : option Z;
  staleIgnored : bool;
}.

Definition no_stale : StaleState := mkStaleState None None None false.

(** The JSON column [vipInfo]. *)
Record VipInfo := mkVipInfo { vi_name : string; vi_device : string; vi_extip : string; vi_role : string }.

Record Reservation := mkReservation {
  r_id : string;
  r_subnetId : string;
  r_ipAddress : option string;
  r_hostname : option string;
  r_owner : option string;
  r_projectRef : option string;
  r_expiresAt : option Z;
  r_notes : option string;
  r_status : ReservationStatus;
  r_sourceType : ReservationSourceType;
  r_createdBy : option string;
  r_macAddress : option string;
  r_push : PushState;
  r_stale : StaleState;
  r_createdAt : Z;
  r_vipInfo : option VipInfo;
}.

(** The keys of an integration's JSON [config] that the services read. *)
Record IntegrationConfig := mkIntegrationConfig {
  pushReservations : option bool;
  cfg_host : option string;
  cfg_port : option Z;
  cfg_apiUser : option string;
  cfg_apiToken : option string;
  cfg_adom : option string;
  cfg_vdom : option string;
  cfg_verifySsl : option bool;
  cfg_mgmtInterface : option string;
  cfg_useProxy : option bool;
  cfg_fortigateApiUser : option string;
  cfg_fortigateApiToken : option string;
  cfg_fortigateVerifySsl : option bool;
}.

Record Integration := mkIntegration {
  i_id : string;
  i_type : string;
  i_enabled : bool;
  i_config : IntegrationConfig;
}.

Record Asset := mkAsset {
  a_id : string;
  a_hostname : option string;
  a_assetType : string;
  a_discoveredByIntegrationId : option string;
  a_monitored : bool;
  a_monitorStatus : option string;
  a_ipAddress : option string;
  a_dnsName : option string;
  a_macAddress : option string;
  a_status : string;
}.

#[global] Instance PushState_eq_dec : EqDecision PushState.
Proof. solve_decision. Defined.
#[global] Instance StaleState_eq_dec : EqDecision StaleState.
Proof. solve_decision. Defined.
#[global] Instance VipInfo_eq_dec : EqDecision VipInfo.
Proof. solve_decision. Defined.
#[global] Instance Reservation_eq_dec : EqDecision Reservation.
Proof. solve_decision. Defined.
#[global] Instance Subnet_eq_dec : EqDecision Subnet.
Proof. solve_decision. Defined.
#[global] Instance IpBlock_eq_dec : EqDecision IpBlock.
Proof. solve_decision. Defined.

Definition set_s_status (st : SubnetStatus) (s : Subnet) : Subnet :=
  mkSubnet (s_id s) (s_blockId s) (s_cidr s) (s_name s) (s_purpose s) st (s_vlan s)
    (s_tags s) (s_discoveredBy s) (s_fortigateDevice s) (s_createdBy s) (s_lastDiscoveredAt s).

Definition set_r_status (st : ReservationStatus) (r : Reservation) : Reservation :=
  mkReservation (r_id r) (r_subnetId r) (r_ipAddress r) (r_hostname r) (r_owner r)
    (r_projectRef r) (r_expiresAt r) (r_notes r) st (r_sourceType r) (r_createdBy r)
    (r_macAddress r) (r_push r) (r_stale r) (r_createdAt r) (r_vipInfo r).

Definition set_r_sourceType (st : ReservationSourceType) (r : Reservation) : Reservation :=
  mkReservation (r_id r) (r_subnetId r) (r_ipAddress r) (r_hostname r) (r_owner r)
    (r_projectRef r) (r_expiresAt r) (r_notes r) (r_status r) st (r_createdBy r)
    (r_macAddress r) (r_push r) (r_stale r) (r_createdAt r) (r_vipInfo r).

Definition set_r_push (p : PushState) (r : Reservation) : Reservation :=
  mkReservation (r_id r) (r_subnetId r) (r_ipAddress r) (r_hostname r) (r_owner r)
    (r_projectRef r) (r_expiresAt r) (r_notes r) (r_status r) (r_sourceType r)
    (r_createdBy r) (r_macAddress r) p (r_stale r) (r_createdAt r) (r_vipInfo r).

Definition set_r_stale (p : StaleState) (r : Reservation) : Reservation :=
  mkReservation (r_id r) (r_subnetId r) (r_ipAddress r) (r_hostname r) (r_owner r)
    (r_projectRef r) (r_expiresAt r) (r_notes r) (r_status r) (r_sourceType r)
    (r_createdBy r) (r_macAddress r) (r_push r) p (r_createdAt r) (r_vipInfo r).

(** ** Uniqueness constraints of the schema *)

(** [cidr String @unique] of [IpBlock]. *)
Definition block_conflict (a b : IpBlock) : bool := bool_decide (b_cidr a = b_cidr b).

(** [Subnet] has no unique column besides its id. *)
Definition subnet_conflict (a b : Subnet) : bool := false.

(** [@@unique([subnetId, ipAddress, status])] of [Reservation]; two null
    addresses are distinct. *)
Definition reservation_conflict (a b : Reservation) : bool :=
  bool_decide (r_subnetId a = r_subnetId b) &&
  match r_ipAddress a, r_ipAddress b with
  | Some x, Some y => bool_decide (x = y)
  | _, _ => false
  end &&
  bool_decide (r_status a = r_status b).

(** ** One Prisma table *)

Class Row (R : Type) := {
  rid : R → string;
  conflict : R → R → bool;
}.

#[global] Instance IpBlock_row : Row IpBlock := {| rid := b_id; conflict := block_conflict |}.
#[global] Instance Subnet_row : Row Subnet := {| rid := s_id; conflict := subnet_conflict |}.
#[global] Instance Reservation_row : Row Reservation :=
  {| rid := r_id; conflict := reservation_conflict |}.

(** The primary key and the unique constraints hold of a set of rows. *)
Definition rows_ok `{Row R} (l : list R) : Prop :=
  NoDup (rid <$> l) ∧ ForallOrdPairs (λ a b, conflict a b = false) l.

Definition P2002 : exn := PrismaError "P2002".
Definition P2025 : exn := PrismaError "P2025".

(** The rows a statement writes: [f] applied where [p] holds. *)
Definition map_where {R} (p : R → bool) (f : R → R) (l : list R) : list R :=
  (λ r, if p r then f r else r) <$> l.

Definition has_id `{Row R} (id : string) (r : R) : bool := bool_decide (rid r = id).

Class PrismaTable (R T : Type) := {
  rows : T → list R;
  t_create : T → (string → R) → result (T * R);
  t_updateMany : T → (R → bool) → (R → R) → result (T * nat);
  t_update : T → string → (R → R) → result (T * R);
  t_delete : T → string → result (T * R);
  t_deleteMany : T → (R → bool) → T * nat;
}.

(** The documented behaviour of the client on one table.  A statement either
    fails without effect, or leaves the rows it describes (in some order) with
    the constraints satisfied; it fails with P2002 exactly when its result
    would violate a constraint and with P2025 when the row it names is
    missing. *)
Class TableLaws (R T : Type) `{Row R, PrismaTable R T} : Prop := {
  tl_create t (f : string → R) :
    (∀ id, rid (f id) = id) → rows_ok (rows t) →
    match t_create t f with
    | Ok (t', r) => (∃ id, id ∉ rid <$> rows t ∧ r = f id) ∧
        rows t' ≡ₚ r :: rows t ∧ rows_ok (rows t')
    | Throw e => e = P2002 ∧ ∃ r id, r ∈ rows t ∧ conflict (f id) r = true
    end;
  tl_updateMany t p (f : R → R) :
    (∀ r, rid (f r) = rid r) → rows_ok (rows t) →
    match t_updateMany t p f with
    | Ok (t', n) => rows t' ≡ₚ map_where p f (rows t) ∧ rows_ok (rows t') ∧
        n = length (List.filter p (rows t))
    | Throw e => e = P2002 ∧ ¬ rows_ok (map_where p f (rows t))
    end;
  tl_update t id (f : R → R) :
    (∀ r, rid (f r) = rid r) → rows_ok (rows t) →
    match t_update t id f with
    | Ok (t', r') => (∃ r, r ∈ rows t ∧ rid r = id ∧ r' = f r) ∧
        rows t' ≡ₚ map_where (has_id id) f (rows t) ∧ rows_ok (rows t')
    | Throw e =>
        (e = P2025 ∧ id ∉ rid <$> rows t) ∨
        (e = P2002 ∧ ¬ rows_ok (map_where (has_id id) f (rows t)))
    end;
  tl_delete t id :
    rows_ok (rows t) →
    match t_delete t id with
    | Ok (t', r) => r ∈ rows t ∧ rid r = id ∧
        rows t' ≡ₚ List.filter (λ r, negb (has_id id r)) (rows t)
    | Throw e => e = P2025 ∧ id ∉ rid <$> rows t
    end;
  tl_deleteMany t p :
    rows (fst (t_deleteMany t p)) ≡ₚ List.filter (λ r, negb (p r)) (rows t);
}.

(** ** Constraints and statements *)

Section rows_lemmas.
Context `{Row R}.
Implicit Types (l : list R) (r : R).

Lemma rows_ok_cons r l :
  rows_ok (r :: l) ↔ rid r ∉ rid <$> l ∧ (∀ x, x ∈ l → conflict r x = false) ∧ rows_ok l.
Proof.
  unfold rows_ok. rewrite fmap_cons, NoDup_cons. split.
  - intros [[? ?] Hp]. inversion_clear Hp as [|? ? Hr ?].
    rewrite Forall_forall in Hr. done.
  - intros (? & ? & ? & ?). split; [done|]. constructor; [by apply Forall_forall|done].
Qed.

Lemma rows_ok_filter p l : rows_ok l → rows_ok (List.filter p l).
Proof.
  induction l as [|r l IH]; [done|]. rewrite rows_ok_cons. intros (Hid & Hc & Hl).
  simpl. destruct (p r); [|by apply IH]. rewrite rows_ok_cons. split_and!.
  - rewrite list_elem_of_fmap in Hid |- *. intros (x & Heq & Hx). apply Hid. exists x.
    split; [done|]. apply list_elem_of_In, filter_In, proj1 in Hx. by apply list_elem_of_In.
  - intros x Hx. apply list_elem_of_In, filter_In, proj1 in Hx.
    apply Hc. by apply list_elem_of_In.
  - by apply IH.
Qed.

Lemma rows_ok_id l r1 r2 : rows_ok l → r1 ∈ l → r2 ∈ l → rid r1 = rid r2 → r1 = r2.
Proof.
  induction l as [|r l IH]; intros Hok Hr1 Hr2 Heq; [by inversion Hr1|].
  apply rows_ok_cons in Hok as (Hid & _ & Hok). rewrite list_elem_of_fmap in Hid.
  apply elem_of_cons in Hr1 as [->|Hr1]; apply elem_of_cons in Hr2 as [->|Hr2]; eauto.
  - exfalso. eauto.
  - exfalso. eauto.
Qed.

(** Two different rows never conflict, when the constraint is symmetric. *)
Lemma rows_ok_conflict l r1 r2 :
  (∀ a b, conflict a b = conflict b a) →
  rows_ok l → r1 ∈ l → r2 ∈ l → conflict r1 r2 = true → r1 = r2.
Proof.
  intros Hsym. induction l as [|r l IH]; intros Hok Hr1 Hr2 Heq; [by inversion Hr1|].
  apply rows_ok_cons in Hok as (_ & Hc & Hok).
  apply elem_of_cons in Hr1 as [->|Hr1]; apply elem_of_cons in Hr2 as [->|Hr2]; eauto.
  - by rewrite Hc in Heq.
  - by rewrite Hsym, Hc in Heq.
Qed.

Lemma elem_of_map_where p f l r' :
  r' ∈ map_where p f l ↔ ∃ r, r ∈ l ∧ r' = if p r then f r else r.
Proof. unfold map_where. rewrite list_elem_of_fmap. naive_solver. Qed.

Lemma elem_of_filter_negb p l r : r ∈ List.filter (λ r, negb (p r)) l ↔ r ∈ l ∧ p r = false.
Proof. by rewrite list_elem_of_In, filter_In, <-list_elem_of_In, negb_true_iff. Qed.

Lemma find_none_iff p l : List.find p l = None ↔ ∀ r, r ∈ l → p r = false.
Proof.
  split.
  - intros Hf r Hr. eapply find_none; [done|]. by apply list_elem_of_In.
  - intros Hp. destruct (List.find p l) as [r|] eqn:Hf; [|done].
    apply find_some in Hf as [Hin Ht]. rewrite Hp in Ht; [done|]. by apply list_elem_of_In.
Qed.

Lemma find_some_iff p l r : List.find p l = Some r → r ∈ l ∧ p r = true.
Proof. intros [Hin Hp]%find_some. split; [|done]. by apply list_elem_of_In. Qed.

Lemma elem_of_lfilter p l r : r ∈ List.filter p l ↔ r ∈ l ∧ p r = true.
Proof. by rewrite list_elem_of_In, filter_In, <-list_elem_of_In. Qed.

Lemma count_pos p l :
  0 < Z.of_nat (length (List.filter p l)) ↔ ∃ r, r ∈ l ∧ p r = true.
Proof.
  setoid_rewrite <-elem_of_lfilter. destruct (List.filter p l) as [|x l']; simpl.
  - split; [lia|]. intros [r Hr]. by inversion Hr.
  - split; [|lia]. intros _. exists x. by left.
Qed.

Lemma find_has_id l id r :
  rows_ok l → r ∈ l → rid r = id → List.find (has_id id) l = Some r.
Proof.
  intros Hok Hr Hid. destruct (List.find (has_id id) l) as [r'|] eqn:Hf.
  - apply find_some_iff in Hf as [Hr' Hid']. unfold has_id in Hid'.
    apply bool_decide_eq_true_1 in Hid'. f_equal. apply (rows_ok_id l); congruence.
  - rewrite find_none_iff in Hf. specialize (Hf r Hr). unfold has_id in Hf.
    by rewrite bool_decide_eq_false in Hf.
Qed.
End rows_lemmas.

Lemma reservation_conflict_sym a b : reservation_conflict a b = reservation_conflict b a.
Proof.
  unfold reservation_conflict. f_equal; [f_equal|].
  - apply bool_decide_ext. naive_solver.
  - destruct (r_ipAddress a), (r_ipAddress b); try done. apply bool_decide_ext. naive_solver.
  - apply bool_decide_ext. naive_solver.
Qed.

Lemma reservation_conflict_true a b :
  reservation_conflict a b = true ↔
  r_subnetId a = r_subnetId b ∧ r_status a = r_status b ∧
  ∃ ip, r_ipAddress a = Some ip ∧ r_ipAddress b = Some ip.
Proof.
  unfold reservation_conflict. rewrite !andb_true_iff, !bool_decide_eq_true.
  destruct (r_ipAddress a), (r_ipAddress b); rewrite ?bool_decide_eq_true; naive_solver.
Qed.

(** ** The state of a request handler *)

Class IpamStore := {
  TB : Type;
  TS : Type;
  TR : Type;
  store_blocks :: PrismaTable IpBlock TB;
  store_subnets :: PrismaTable Subnet TS;
  store_reservations :: PrismaTable Reservation TR;
}.

Class IpamStoreLaws `{IpamStore} : Prop := {
  laws_blocks :: TableLaws IpBlock TB;
  laws_subnets :: TableLaws Subnet TS;
  laws_reservations :: TableLaws Reservation TR;
}.

Record AuditEvent := mkAuditEvent {
  ev_action : string;
  ev_level : string;
  ev_resourceId : option string;
}.

(** The tables the services write, the two they only read, the world outside
    the process (devices and clock) and the audit log. *)
Record State `{IpamStore} (W : Type) := mkState {
  ipBlocks : TB;
  subnets : TS;
  reservations : TR;
  integrations : list Integration;
  assets : list Asset;
  world : W;
  audit : list AuditEvent;
}.
Arguments mkState {_ W}.
Arguments ipBlocks {_ W}.
Arguments subnets {_ W}.
Arguments reservations {_ W}.
Arguments integrations {_ W}.
Arguments assets {_ W}.
Arguments world {_ W}.
Arguments audit {_ W}.

Section state.
Context `{IpamStore} {W : Type}.
Notation St := (State W).
Implicit Types (s : St).

Definition set_ipBlocks (t : TB) s : St :=
  mkState t (subnets s) (reservations s) (integrations s) (assets s) (world s) (audit s).
Definition set_subnets (t : TS) s : St :=
  mkState (ipBlocks s) t (reservations s) (integrations s) (assets s) (world s) (audit s).
Definition set_reservations (t : TR) s : St :=
  mkState (ipBlocks s) (subnets s) t (integrations s) (assets s) (world s) (audit s).
Definition set_world (w : W) s : St :=
  mkState (ipBlocks s) (subnets s) (reservations s) (integrations s) (assets s) w (audit s).
Definition set_audit (l : list AuditEvent) s : St :=
  mkState (ipBlocks s) (subnets s) (reservations s) (integrations s) (assets s) (world s) l.

Definition block_rows s : list IpBlock := rows (ipBlocks s).
Definition subnet_rows s : list Subnet := rows (subnets s).
Definition reservation_rows s : list Reservation := rows (reservations s).

(** [void logEvent({...})]: the message text and details are not kept. *)
Definition logEvent (action level : string) (resourceId : option string) : M St unit :=
  hmodify (λ s, set_audit (audit s ++ [mkAuditEvent action level resourceId]) s).

(** Run a table statement and keep the new table. *)
Definition on_table {T A} (get : St → T) (set : T → St → St)
    (stmt : T → result (T * A)) : M St A := λ s,
  match stmt (get s) with
  | Ok (t, a) => (set t s, Ok a)
  | Throw e => (s, Throw e)
  end.

Definition findBlock (p : IpBlock → bool) : M St (option IpBlock) :=
  hgets (λ s, List.find p (block_rows s)).
Definition findSubnet (p : Subnet → bool) : M St (option Subnet) :=
  hgets (λ s, List.find p (subnet_rows s)).
Definition findReservation (p : Reservation → bool) : M St (option Reservation) :=
  hgets (λ s, List.find p (reservation_rows s)).
Definition findSubnets (p : Subnet → bool) : M St (list Subnet) :=
  hgets (λ s, List.filter p (subnet_rows s)).
Definition findReservations (p : Reservation → bool) : M St (list Reservation) :=
  hgets (λ s, List.filter p (reservation_rows s)).
Definition countReservations (p : Reservation → bool) : M St Z :=
  hgets (λ s, Z.of_nat (length (List.filter p (reservation_rows s)))).
(** The integration a nullable foreign key points at. *)
Definition findIntegration (id : option string) : M St (option Integration) :=
  hgets (λ s, match id with
              | Some i => List.find (λ x, bool_decide (i_id x = i)) (integrations s)
              | None => None
              end).
Definition findAsset (p : Asset → bool) : M St (option Asset) :=
  hgets (λ s, List.find p (assets s)).

Definition block_create (f : string → IpBlock) : M St IpBlock :=
  on_table ipBlocks set_ipBlocks (λ t, t_create t f).
Definition block_update (id : string) (f : IpBlock → IpBlock) : M St IpBlock :=
  on_table ipBlocks set_ipBlocks (λ t, t_update t id f).
Definition subnet_create (f : string → Subnet) : M St Subnet :=
  on_table subnets set_subnets (λ t, t_create t f).
Definition subnet_update (id : string) (f : Subnet → Subnet) : M St Subnet :=
  on_table subnets set_subnets (λ t, t_update t id f).
Definition reservation_create (f : string → Reservation) : M St Reservation :=
  on_table reservations set_reservations (λ t, t_create t f).
Definition reservation_update (id : string) (f : Reservation → Reservation) : M St Reservation :=
  on_table reservations set_reservations (λ t, t_update t id f).
Definition reservation_updateMany (p : Reservation → bool) (f : Reservation → Reservation)
  : M St nat :=
  on_table reservations set_reservations (λ t, t_updateMany t p f).
Definition reservation_delete (id : string) : M St Reservation :=
  on_table reservations set_reservations (λ t, t_delete t id).
Definition reservation_deleteMany (p : Reservation → bool) : M St nat :=
  on_table reservations set_reservations (λ t, Ok (t_deleteMany t p)).

(** [onDelete: Cascade] from [Subnet] to [Reservation]. *)
Definition subnet_delete (id : string) : M St Subnet :=
  let! x := on_table subnets set_subnets (λ t, t_delete t id) in
  let! _ := reservation_deleteMany (λ r, bool_decide (r_subnetId r = id)) in
  hret x.

(** [onDelete: Cascade] from [IpBlock] to [Subnet], and on to [Reservation]. *)
Definition block_delete (id : string) : M St IpBlock :=
  let! b := on_table ipBlocks set_ipBlocks (λ t, t_delete t id) in
  let! gone := findSubnets (λ x, bool_decide (s_blockId x = id)) in
  let! _ := on_table subnets set_subnets
              (λ t, Ok (t_deleteMany t (λ x, bool_decide (s_blockId x = id)))) in
  let! _ := reservation_deleteMany
              (λ r, bool_decide (r_subnetId r ∈ s_id <$> gone)) in
  hret b.

(** [prisma.$transaction(async (tx) => ...)]: an error restores the tables. *)
Definition transaction {A} (m : M St A) : M St A := λ s,
  match m s with
  | (s', Ok a) => (s', Ok a)
  | (s', Throw e) =>
      (set_ipBlocks (ipBlocks s) (set_subnets (subnets s) (set_reservations (reservations s) s')),
       Throw e)
  end.

(** The constraints of the schema hold of the database. *)
Definition db_ok s : Prop :=
  rows_ok (block_rows s) ∧ rows_ok (subnet_rows s) ∧ rows_ok (reservation_rows s).

(** Two states agree on the tables. *)
Definition same_tables s s' : Prop :=
  ipBlocks s' = ipBlocks s ∧ subnets s' = subnets s ∧ reservations s' = reservations s.
End state.

#[global] Instance same_tables_equivalence `{IpamStore} {W} : Equivalence (same_tables (W := W)).
Proof.
  unfold same_tables. split; red; [done|naive_solver|].
  intros x y z (? & ? & ?) (? & ? & ?). split_and!; congruence.
Qed.

(** A statement that fails leaves every table as it was. *)
Lemma atomic_on_table `{IpamStore} {W T A} get set (stmt : T → result (T * A)) :
  atomic_fail (on_table (W := W) get set stmt).
Proof.
  intros s s' e. unfold on_table. destruct (stmt (get s)) as [[t a]|e']; by intros [= <- <-].
Qed.
#[export] Hint Resolve atomic_on_table : frame.

Section state_lemmas.
Context `{IpamStoreLaws} {W : Type}.
Notation St := (State W).
Implicit Types (s : St).

Lemma reservation_update_spec id f s :
  (∀ r, r_id (f r) = r_id r) → db_ok s →
  match reservation_update id f s with
  | (s', Ok r') => ∃ t, s' = set_reservations t s ∧ db_ok s' ∧
      (∃ r, r ∈ reservation_rows s ∧ r_id r = id ∧ r' = f r) ∧
      reservation_rows s' ≡ₚ map_where (has_id id) f (reservation_rows s)
  | (s', Throw e) => s' = s ∧
      ((e = P2025 ∧ id ∉ r_id <$> reservation_rows s) ∨
       (e = P2002 ∧ ¬ rows_ok (map_where (has_id id) f (reservation_rows s))))
  end.
Proof.
  intros Hf (Hb & Hs & Hr). unfold reservation_update, on_table.
  pose proof (tl_update (reservations s) id f Hf Hr) as Hl.
  destruct (t_update (reservations s) id f) as [[t r']|e]; [|done].
  destruct Hl as (? & ? & ?). exists t. split_and!; try done.
Qed.

Lemma reservation_create_spec f s :
  (∀ id, r_id (f id) = id) → db_ok s →
  match reservation_create f s with
  | (s', Ok r) => ∃ t, s' = set_reservations t s ∧ db_ok s' ∧
      (∃ id, id ∉ r_id <$> reservation_rows s ∧ r = f id) ∧
      reservation_rows s' ≡ₚ r :: reservation_rows s
  | (s', Throw e) => s' = s ∧ e = P2002 ∧
      ∃ r id, r ∈ reservation_rows s ∧ reservation_conflict (f id) r = true
  end.
Proof.
  intros Hf (Hb & Hs & Hr). unfold reservation_create, on_table.
  pose proof (tl_create (reservations s) f Hf Hr) as Hl.
  destruct (t_create (reservations s) f) as [[t r']|e]; [|done].
  destruct Hl as (? & ? & ?). exists t. split_and!; try done.
Qed.

Lemma reservation_updateMany_spec p f s :
  (∀ r, r_id (f r) = r_id r) → db_ok s →
  match reservation_updateMany p f s with
  | (s', Ok n) => ∃ t, s' = set_reservations t s ∧ db_ok s' ∧
      reservation_rows s' ≡ₚ map_where p f (reservation_rows s) ∧
      n = length (List.filter p (reservation_rows s))
  | (s', Throw e) => s' = s ∧ e = P2002 ∧
      ¬ rows_ok (map_where p f (reservation_rows s))
  end.
Proof.
  intros Hf (Hb & Hs & Hr). unfold reservation_updateMany, on_table.
  pose proof (tl_updateMany (reservations s) p f Hf Hr) as Hl.
  destruct (t_updateMany (reservations s) p f) as [[t n]|e]; [|done].
  destruct Hl as (? & ? & ?). exists t. split_and!; try done.
Qed.

Lemma rows_ok_perm `{Row R} (l l' : list R) :
  (∀ a b, conflict a b = conflict b a) → l ≡ₚ l' → rows_ok l → rows_ok l'.
Proof.
  intros Hsym. induction 1 as [|x l l' Hp IH|x y l|]; auto.
  - rewrite !rows_ok_cons. intros (? & Hc & ?). split_and!; auto.
    + by rewrite <-Hp.
    + intros z Hz. apply Hc. by rewrite Hp.
  - rewrite !rows_ok_cons, !fmap_cons, !not_elem_of_cons. intros ([Hne ?] & Hc & ? & Hc' & ?).
    split_and!; auto.
    + intros z [->|Hz]%elem_of_cons; [rewrite Hsym; apply Hc; left|by apply Hc'].
    + intros z Hz. apply Hc. by right.
Qed.

Lemma reservation_deleteMany_spec p s :
  db_ok s →
  ∃ t n, reservation_deleteMany p s = (set_reservations t s, Ok n) ∧
    db_ok (set_reservations t s) ∧
    rows t ≡ₚ List.filter (λ r, negb (p r)) (reservation_rows s).
Proof.
  intros (Hb & Hs & Hr). unfold reservation_deleteMany, on_table.
  pose proof (tl_deleteMany (reservations s) p) as Hl.
  destruct (t_deleteMany (reservations s) p) as [t n]. simpl in Hl.
  exists t, n. unfold db_ok. split_and!; try done.
  eapply rows_ok_perm; [apply reservation_conflict_sym|by symmetry|].
  by apply rows_ok_filter.
Qed.

Lemma reservation_delete_spec id s :
  db_ok s →
  match reservation_delete id s with
  | (s', Ok r) => ∃ t, s' = set_reservations t s ∧ db_ok s' ∧
      r ∈ reservation_rows s ∧ r_id r = id ∧
      reservation_rows s' ≡ₚ List.filter (λ r, negb (has_id id r)) (reservation_rows s)
  | (s', Throw e) => s' = s ∧ e = P2025 ∧ id ∉ r_id <$> reservation_rows s
  end.
Proof.
  intros (Hb & Hs & Hr). unfold reservation_delete, on_table.
  pose proof (tl_delete (reservations s) id Hr) as Hl.
  destruct (t_delete (reservations s) id) as [[t r']|e]; [|done].
  destruct Hl as (? & ? & Hp). exists t. unfold db_ok. split_and!; try done.
  eapply rows_ok_perm; [apply reservation_conflict_sym|by symmetry|].
  by apply rows_ok_filter.
Qed.

Lemma subnet_update_spec id f s :
  (∀ r, s_id (f r) = s_id r) → db_ok s →
  match subnet_update id f s with
  | (s', Ok r') => ∃ t, s' = set_subnets t s ∧ db_ok s' ∧
      (∃ r, r ∈ subnet_rows s ∧ s_id r = id ∧ r' = f r) ∧
      subnet_rows s' ≡ₚ map_where (has_id id) f (subnet_rows s)
  | (s', Throw e) => s' = s ∧ e = P2025 ∧ id ∉ s_id <$> subnet_rows s
  end.
Proof.
  intros Hf (Hb & Hs & Hr). unfold subnet_update, on_table.
  pose proof (tl_update (subnets s) id f Hf Hs) as Hl.
  destruct (t_update (subnets s) id f) as [[t r']|e].
  - destruct Hl as (? & ? & ?). exists t. split_and!; try done.
  - split; [done|]. destruct Hl as [?|[_ []]]; [done|].
    destruct Hs as [Hs _]. split.
    + unfold map_where. rewrite <-list_fmap_compose.
      erewrite list_fmap_ext; [exact Hs|]. intros i x _. simpl.
      destruct (has_id id x); [apply Hf|done].
    + clear. induction (map_where _ _ _) as [|x l IH]; constructor; [|done].
      by apply Forall_forall.
Qed.

Lemma subnet_create_spec f s :
  (∀ id, s_id (f id) = id) → db_ok s →
  ∃ t id, subnet_create f s = (set_subnets t s, Ok (f id)) ∧ db_ok (set_subnets t s) ∧
    id ∉ s_id <$> subnet_rows s ∧ rows t ≡ₚ f id :: subnet_rows s.
Proof.
  intros Hf (Hb & Hs & Hr). unfold subnet_create, on_table.
  pose proof (tl_create (subnets s) f Hf Hs) as Hl.
  destruct (t_create (subnets s) f) as [[t r']|e]; [|by destruct Hl as (_ & ? & ? & _ & ?)].
  destruct Hl as ((id & ? & ->) & ? & ?). exists t, id. split_and!; done.
Qed.

Lemma block_update_spec id f s :
  (∀ r, b_id (f r) = b_id r) → db_ok s →
  match block_update id f s with
  | (s', Ok r') => ∃ t, s' = set_ipBlocks t s ∧ db_ok s' ∧
      (∃ r, r ∈ block_rows s ∧ b_id r = id ∧ r' = f r) ∧
      block_rows s' ≡ₚ map_where (has_id id) f (block_rows s)
  | (s', Throw e) => s' = s
  end.
Proof.
  intros Hf (Hb & Hs & Hr). unfold block_update, on_table.
  pose proof (tl_update (ipBlocks s) id f Hf Hb) as Hl.
  destruct (t_update (ipBlocks s) id f) as [[t r']|e]; [|done].
  destruct Hl as (? & ? & ?). exists t. split_and!; try done.
Qed.

(** Deleting a subnet removes its reservations and nothing else. *)
Lemma subnet_delete_spec id s :
  db_ok s →
  match subnet_delete id s with
  | (s', Ok x) => db_ok s' ∧ x ∈ subnet_rows s ∧ s_id x = id ∧ ipBlocks s' = ipBlocks s ∧
      audit s' = audit s ∧
      (∀ y, y ∈ subnet_rows s' ↔ y ∈ subnet_rows s ∧ s_id y ≠ id) ∧
      (∀ r, r ∈ reservation_rows s' ↔ r ∈ reservation_rows s ∧ r_subnetId r ≠ id)
  | (s', Throw e) => s' = s ∧ e = P2025 ∧ id ∉ s_id <$> subnet_rows s
  end.
Proof.
  intros (Hb & Hs & Hr). unfold subnet_delete, hbind, on_table at 1.
  pose proof (tl_delete (subnets s) id Hs) as Hl.
  destruct (t_delete (subnets s) id) as [[t x]|e]; [|done].
  destruct Hl as (Hin & Hid & Hp).
  assert (db_ok (set_subnets t s)) as Hok.
  { unfold db_ok. split_and!; [done| |done].
    eapply rows_ok_perm; [done|by symmetry|by apply rows_ok_filter]. }
  destruct (reservation_deleteMany_spec (λ r, bool_decide (r_subnetId r = id)) _ Hok)
    as (t' & n & -> & Hok' & Hp'). simpl. split_and!; try done.
  - intros y. unfold subnet_rows. simpl. rewrite Hp, elem_of_filter_negb.
    unfold has_id. by rewrite bool_decide_eq_false.
  - intros r. unfold reservation_rows. simpl. rewrite Hp', elem_of_filter_negb.
    by rewrite bool_decide_eq_false.
Qed.

(** Deleting a block removes its subnets and their reservations. *)
Lemma block_delete_spec id s :
  db_ok s →
  match block_delete id s with
  | (s', Ok b) => db_ok s' ∧ b ∈ block_rows s ∧ b_id b = id ∧
      (∀ y, y ∈ block_rows s' ↔ y ∈ block_rows s ∧ b_id y ≠ id) ∧
      (∀ y, y ∈ subnet_rows s' ↔ y ∈ subnet_rows s ∧ s_blockId y ≠ id) ∧
      (∀ r, r ∈ reservation_rows s' ↔ r ∈ reservation_rows s ∧
         ∀ y, y ∈ subnet_rows s → s_blockId y = id → r_subnetId r ≠ s_id y)
  | (s', Throw e) => s' = s
  end.
Proof.
  intros (Hb & Hs & Hr). unfold block_delete, hbind, on_table at 1.
  pose proof (tl_delete (ipBlocks s) id Hb) as Hl.
  destruct (t_delete (ipBlocks s) id) as [[t x]|e]; [|done].
  destruct Hl as (Hin & Hid & Hp). simpl. unfold on_table at 1.
  pose proof (tl_deleteMany (subnets s) (λ x, bool_decide (s_blockId x = id))) as Hq.
  simpl. destruct (t_deleteMany (subnets s) _) as [t' n]. simpl in Hq.
  set (s1 := set_subnets t' (set_ipBlocks t s)).
  assert (db_ok s1) as Hok.
  { unfold db_ok. split_and!; [| |done].
    - eapply rows_ok_perm; [|by symmetry|by apply rows_ok_filter].
      intros. apply bool_decide_ext. naive_solver.
    - eapply rows_ok_perm; [done|by symmetry|by apply rows_ok_filter]. }
  match goal with |- context [reservation_deleteMany ?p s1] =>
    destruct (reservation_deleteMany_spec p _ Hok) as (t'' & m & -> & Hok' & Hp') end.
  simpl. split_and!; try done.
  - intros y. unfold block_rows. simpl. rewrite Hp, elem_of_filter_negb.
    unfold has_id. by rewrite bool_decide_eq_false.
  - intros y. unfold subnet_rows. simpl. rewrite Hq, elem_of_filter_negb.
    by rewrite bool_decide_eq_false.
  - intros r. unfold reservation_rows. simpl.
    rewrite Hp', elem_of_filter_negb, bool_decide_eq_false, list_elem_of_fmap.
    setoid_rewrite list_elem_of_In at 2. setoid_rewrite filter_In.
    setoid_rewrite <-list_elem_of_In. setoid_rewrite bool_decide_eq_true. naive_solver.
Qed.

Lemma block_create_spec f s :
  (∀ id, b_id (f id) = id) → db_ok s →
  match block_create f s with
  | (s', Ok b) => ∃ t, s' = set_ipBlocks t s ∧ db_ok s' ∧
      (∃ id, id ∉ b_id <$> block_rows s ∧ b = f id) ∧
      block_rows s' ≡ₚ b :: block_rows s
  | (s', Throw e) => s' = s ∧ e = P2002 ∧
      ∃ b id, b ∈ block_rows s ∧ block_conflict (f id) b = true
  end.
Proof.
  intros Hf (Hb & Hs & Hr). unfold block_create, on_table.
  pose proof (tl_create (ipBlocks s) f Hf Hb) as Hl.
  destruct (t_create (ipBlocks s) f) as [[t r']|e]; [|done].
  destruct Hl as (? & ? & ?). exists t. split_and!; try done.
Qed.
End state_lemmas.

(** ** A reference implementation of the table interface *)

#[global] Instance ForallOrdPairs_dec {A} (P : A → A → Prop) `{∀ x y, Decision (P x y)} l :
  Decision (ForallOrdPairs P l).
Proof.
  induction l as [|x l IH]; [left; constructor|].
  destruct (decide (Forall (P x) l)) as [Hx|Hx]; [|right; by inversion_clear 1].
  destruct IH as [Hl|Hl]; [left; by constructor|right; by inversion_clear 1].
Defined.

#[global] Instance rows_ok_dec `{Row R} (l : list R) : Decision (rows_ok l).
Proof. unfold rows_ok. apply _. Defined.

Module ListTable.
Section table.
Context `{Row R}.
Implicit Types (t : list R).

Definition fresh_id t : string :=
  fresh_string_of_set "id" (list_to_set (rid <$> t)).

Definition commit {A} t (a : A) : result (list R * A) :=
  if decide (rows_ok t) then Ok (t, a) else Throw P2002.

Definition create t (f : string → R) : result (list R * R) :=
  let r := f (fresh_id t) in commit (t ++ [r]) r.
Definition updateMany t (p : R → bool) (f : R → R) : result (list R * nat) :=
  commit (map_where p f t) (length (List.filter p t)).
Definition update t (id : string) (f : R → R) : result (list R * R) :=
  match List.find (has_id id) t with
  | Some r => commit (map_where (has_id id) f t) (f r)
  | None => Throw P2025
  end.
Definition delete t (id : string) : result (list R * R) :=
  match List.find (has_id id) t with
  | Some r => Ok (List.filter (λ r, negb (has_id id r)) t, r)
  | None => Throw P2025
  end.
Definition deleteMany t (p : R → bool) : list R * nat :=
  (List.filter (λ r, negb (p r)) t, length (List.filter p t)).

#[export] Instance table : PrismaTable R (list R) :=
  {| rows := id; t_create := create; t_updateMany := updateMany; t_update := update;
     t_delete := delete; t_deleteMany := deleteMany |}.
End table.
End ListTable.

Section list_table_laws.
Context `{Row R} (conflict_sym : ∀ a b : R, conflict a b = conflict b a).
#[local] Existing Instance ListTable.table.

Lemma fresh_id_fresh (t : list R) : ListTable.fresh_id t ∉ rid <$> t.
Proof.
  unfold ListTable.fresh_id. intros Hin.
  eapply (fresh_string_of_set_fresh (list_to_set (rid <$> t)) "id").
  by apply elem_of_list_to_set.
Qed.

Lemma has_id_none (t : list R) id : List.find (has_id id) t = None → id ∉ rid <$> t.
Proof.
  rewrite find_none_iff. intros Hf (r & -> & Hr)%list_elem_of_fmap.
  specialize (Hf r Hr). unfold has_id in Hf. by rewrite bool_decide_eq_false in Hf.
Qed.

Lemma create_conflict (t : list R) r :
  rows_ok t → rid r ∉ rid <$> t → ¬ rows_ok (t ++ [r]) →
  ∃ x, x ∈ t ∧ conflict r x = true.
Proof.
  intros Ht Hid Hno.
  destruct (List.find (conflict r) t) as [x|] eqn:Hf.
  { apply find_some_iff in Hf. naive_solver. }
  rewrite find_none_iff in Hf. destruct Hno.
  apply (rows_ok_perm (r :: t)); [done|by rewrite Permutation_app_comm|].
  by apply rows_ok_cons.
Qed.

Lemma list_table_laws : TableLaws R (list R).
Proof using conflict_sym.
  constructor; simpl; unfold id.
  - intros t f Hf Ht. unfold ListTable.create, ListTable.commit.
    assert (rid (f (ListTable.fresh_id t)) ∉ rid <$> t) as Hfr.
    { rewrite Hf. apply fresh_id_fresh. }
    case_decide as Hd.
    + split_and!; [|by rewrite Permutation_app_comm|done].
      exists (ListTable.fresh_id t). by rewrite Hf in Hfr.
    + split; [done|]. destruct (create_conflict t _ Ht Hfr Hd) as (x & ? & ?). eauto.
  - intros t p f Hf Ht. unfold ListTable.updateMany, ListTable.commit. by case_decide.
  - intros t id f Hf Ht. unfold ListTable.update, ListTable.commit.
    destruct (List.find (has_id id) t) as [r|] eqn:Hr.
    + apply find_some_iff in Hr as [Hin Hid]. apply bool_decide_eq_true_1 in Hid.
      case_decide; eauto 10.
    + left. split; [done|]. by apply has_id_none.
  - intros t id Ht. unfold ListTable.delete.
    destruct (List.find (has_id id) t) as [r|] eqn:Hr.
    + apply find_some_iff in Hr as [Hin Hid]. by apply bool_decide_eq_true_1 in Hid.
    + split; [done|]. by apply has_id_none.
  - done.
Qed.
End list_table_laws.

Lemma block_conflict_sym a b : block_conflict a b = block_conflict b a.
Proof. apply bool_decide_ext. naive_solver. Qed.

Module ListStore.
#[export] Instance store : IpamStore := {|
  TB := list IpBlock; TS := list Subnet; TR := list Reservation;
  store_blocks := ListTable.table; store_subnets := ListTable.table;
  store_reservations := ListTable.table;
|}.
End ListStore.

#[export] Instance ListStore_laws : @IpamStoreLaws ListStore.store.
Proof.
  constructor; apply list_table_laws;
    [apply block_conflict_sym|done|apply reservation_conflict_sym].
Qed.
