(* ===== verification/Networks.v ===== *)
(** * Blocks and subnets

    [src/src/services/ipService.ts], [blockService.ts] and [subnetService.ts]:
    validation helpers, the block and subnet handlers with every guard and
    early return, the bulk allocator and its preview. *)

From S2P Require Import Prelude Cidr Store.

(** ** Inputs *)

(** A number from a request body: an integer, or anything for which
    [Number.isInteger] is false. *)
Inductive JsNum := JInt (z : Z) | JNonInt.
Definition isInteger (n : JsNum) : bool := match n with JInt _ => true | JNonInt => false end.
Definition num_val (n : JsNum) : Z := match n with JInt z => z | JNonInt => 0 end.

(** [!Number.isInteger(n) || n < 8 || n > 32] *)
Definition bad_prefix (n : JsNum) : bool :=
  negb (isInteger n) || (num_val n <? 8) || (32 <? num_val n).

Record CreateBlockInput := mkCreateBlockInput {
  cb_name : string;
  cb_cidr : string;
  cb_description : option string;
  cb_tags : option (list string);
}.

Record UpdateBlockInput := mkUpdateBlockInput {
  ub_name : option string;
  ub_description : option string;
  ub_tags : option (list string);
}.

Record SubnetMeta := mkSubnetMeta {
  sm_name : string;
  sm_purpose : option string;
  sm_vlan : option Z;
  sm_tags : option (list string);
  sm_createdBy : option string;
}.

Record CreateSubnetInput := mkCreateSubnetInput {
  cs_blockId : string;
  cs_cidr : string;
  cs_meta : SubnetMeta;
}.

Record UpdateSubnetInput := mkUpdateSubnetInput {
  us_name : option string;
  us_purpose : option string;
  us_status : option SubnetStatus;
  us_vlan : option Z;
  us_tags : option (list string);
  us_convertToManual : option bool;
}.

Record BulkAllocateEntry := mkBulkAllocateEntry {
  be_skip : option bool;
  be_name : option string;
  be_prefixLength : JsNum;
  be_vlan : option Z;
}.

Record BulkAllocateInput := mkBulkAllocateInput {
  ba_blockId : string;
  ba_prefix : string;
  ba_entries : list BulkAllocateEntry;
  ba_tags : option (list string);
  ba_anchorPrefix : option JsNum;
  ba_createdBy : option string;
}.

Record BulkAllocateResult := mkBulkAllocateResult {
  br_created : list (string * string * string);
  br_anchorCidr : string;
  br_effectiveAnchorPrefix : Z;
}.

Record PreviewRow := mkPreviewRow {
  pr_name : option string;
  pr_skip : bool;
  pr_prefixLength : JsNum;
  pr_cidr : option string;
}.

Record PreviewResult := mkPreviewResult {
  fits : bool;
  pv_anchorCidr : option string;
  pv_effectiveAnchorPrefix : option Z;
  pv_assignments : list PreviewRow;
  totalAddresses : Z;
  slashTwentyFourCount : Z;
  blockCidr : string;
  pv_error : option string;
}.

Record Capacity := mkCapacity {
  cap_total : Z;
  cap_reserved : Z;
  cap_available : Z;
  cap_utilizationPercent : Z;
}.

(** [!!e.skip] *)
Definition is_skip (e : BulkAllocateEntry) : bool := default false (be_skip e).
Definition entry_prefix (e : BulkAllocateEntry) : Z := num_val (be_prefixLength e).

Definition quoted (s : string) : string :=
  String (Ascii.ascii_of_nat 34) (s +:+ String (Ascii.ascii_of_nat 34) "").

Section networks.
Context `{NetmaskLib, IpamStore} {W : Type}.
Notation St := (State W).

(** ** ipService.ts *)

Definition assertValidIp (ip : string) : M St unit :=
  throw_if (negb (isValidIpAddress ip)) (AppError 400 ("Invalid IP address: " +:+ ip)).

Definition assertValidCidr (cidr : string) : M St string :=
  throw_if (negb (isValidCidr cidr)) (AppError 400 ("Invalid CIDR notation: " +:+ cidr)) ;!
  hlift (normalizeCidr cidr).

Definition assertIpInSubnet (ip subnetCidr : string) : M St unit :=
  throw_if (negb (ipInCidr ip subnetCidr))
    (AppError 400 ("IP " +:+ ip +:+ " is not within subnet " +:+ subnetCidr)).

Definition isIpAvailable (ip subnetId : string) : M St bool :=
  assertValidIp ip ;!
  let! existing := findReservation (λ r,
    bool_decide (r_subnetId r = subnetId) && bool_decide (r_ipAddress r = Some ip) &&
    bool_decide (r_status r = Active)) in
  hret (negb (bool_decide (is_Some existing))).

(** [Math.round((reserved / total) * 100)], halves up. *)
Definition round_percent (reserved total : Z) : Z := (200 * reserved + total) / (2 * total).

Definition subnetCapacity (subnetCidr subnetId : string) : M St Capacity :=
  throw_if (negb (bool_decide (detectIpVersion subnetCidr = v4)))
    (AppError 400 "Capacity calculation is currently only supported for IPv4 subnets") ;!
  let! total := hlift (usableHostCount subnetCidr) in
  let! reserved := countReservations (λ r,
    bool_decide (r_subnetId r = subnetId) && bool_decide (r_status r = Active) &&
    bool_decide (is_Some (r_ipAddress r))) in
  hret (mkCapacity total reserved (total - reserved)
          (if 0 <? total then round_percent reserved total else 0)).

(** ** blockService.ts *)

Definition block_not_found (id : string) : exn :=
  AppError 404 ("IP Block " +:+ id +:+ " not found").

Definition findBlockById (id : string) : M St (option IpBlock) := findBlock (has_id id).

(** [const block = await ...findUnique({ where: { id } }); if (!block) throw 404] *)
Definition require_block (id : string) : M St IpBlock :=
  let! block := findBlockById id in
  match block with
  | Some b => hret b
  | None => hthrow (block_not_found id)
  end.

Definition getBlock (id : string) : M St (IpBlock * list Subnet) :=
  let! b := require_block id in
  let! subs := findSubnets (λ x, bool_decide (s_blockId x = id)) in
  hret (b, subs).

Definition createBlock (input : CreateBlockInput) : M St IpBlock :=
  throw_if (negb (isValidCidr (cb_cidr input)))
    (AppError 400 ("Invalid CIDR notation: " +:+ cb_cidr input)) ;!
  let! normalizedCidr := hlift (normalizeCidr (cb_cidr input)) in
  let ipVersion := detectIpVersion normalizedCidr in
  let! existing := findBlock (λ b, bool_decide (b_cidr b = normalizedCidr)) in
  throw_if (bool_decide (is_Some existing))
    (AppError 409 ("IP Block with CIDR " +:+ normalizedCidr +:+ " already exists")) ;!
  block_create (λ id, mkIpBlock id (cb_name input) normalizedCidr ipVersion
                        (cb_description input) (default [] (cb_tags input))).

Definition updateBlock (id : string) (input : UpdateBlockInput) : M St IpBlock :=
  let! _ := require_block id in
  block_update id (λ b, mkIpBlock (b_id b) (default (b_name b) (ub_name input)) (b_cidr b)
    (b_ipVersion b)
    (match ub_description input with Some d => Some d | None => b_description b end)
    (default (b_tags b) (ub_tags input))).

Definition deleteBlock (id : string) : M St IpBlock :=
  let! block := require_block id in
  let! subs := findSubnets (λ x, bool_decide (s_blockId x = id)) in
  let! activeReservations := countReservations (λ r,
    bool_decide (r_subnetId r ∈ s_id <$> subs) && bool_decide (r_status r = Active)) in
  throw_if (0 <? activeReservations)
    (AppError 409 ("Cannot delete block " +:+ b_cidr block +:+ " — it has " +:+
       pretty activeReservations +:+ " active reservation(s) across its subnets")) ;!
  block_delete id.

(** ** subnetService.ts *)

Definition subnet_not_found (id : string) : exn :=
  AppError 404 ("Subnet " +:+ id +:+ " not found").

Definition require_subnet (id : string) : M St Subnet :=
  let! subnet := findSubnet (has_id id) in
  match subnet with
  | Some x => hret x
  | None => hthrow (subnet_not_found id)
  end.

Definition version_text (v : IpVersion) : string := match v with v4 => "v4" | v6 => "v6" end.

Definition new_subnet (blockId cidr name : string) (purpose : option string) (vlan : option Z)
    (tags : list string) (createdBy : option string) (id : string) : Subnet :=
  mkSubnet id blockId cidr name purpose Available vlan tags None None createdBy None.

Definition createSubnet (input : CreateSubnetInput) : M St Subnet :=
  throw_if (negb (isValidCidr (cs_cidr input)))
    (AppError 400 ("Invalid CIDR notation: " +:+ cs_cidr input)) ;!
  let! normalizedCidr := hlift (normalizeCidr (cs_cidr input)) in
  let! block := require_block (cs_blockId input) in
  throw_if (negb (cidrContains (b_cidr block) normalizedCidr))
    (AppError 400 ("Subnet " +:+ normalizedCidr +:+ " is not within block " +:+ b_cidr block)) ;!
  throw_if (negb (bool_decide (detectIpVersion normalizedCidr = b_ipVersion block)))
    (AppError 400 ("Subnet IP version does not match block IP version (" +:+
       version_text (b_ipVersion block) +:+ ")")) ;!
  let! siblings := findSubnets (λ x, bool_decide (s_blockId x = cs_blockId input)) in
  match List.find (λ x, cidrOverlaps (s_cidr x) normalizedCidr) siblings with
  | Some overlap =>
      hthrow (AppError 409 ("Subnet " +:+ normalizedCidr +:+ " overlaps with existing subnet "
        +:+ s_cidr overlap))
  | None =>
      let m := cs_meta input in
      subnet_create (new_subnet (cs_blockId input) normalizedCidr (sm_name m) (sm_purpose m)
        (sm_vlan m) (default [] (sm_tags m)) (sm_createdBy m))
  end.

Definition allocateNextSubnet (blockId : string) (prefixLength : Z) (metadata : SubnetMeta)
  : M St Subnet :=
  let! block := require_block blockId in
  throw_if (negb (bool_decide (b_ipVersion block = v4)))
    (AppError 400 "Auto-allocation is currently only supported for IPv4 blocks") ;!
  throw_if ((prefixLength <? 8) || (32 <? prefixLength))
    (AppError 400 "Prefix length must be between 8 and 32") ;!
  let! existing := findSubnets (λ x, bool_decide (s_blockId x = blockId)) in
  let! nextCidr := hlift (findNextAvailableSubnet (b_cidr block) (s_cidr <$> existing)
                            prefixLength) in
  match nextCidr with
  | None =>
      hthrow (AppError 409 ("No available /" +:+ pretty prefixLength +:+
        " subnet found in block " +:+ b_cidr block))
  | Some c => createSubnet (mkCreateSubnetInput blockId c metadata)
  end.

(** The validation pass over the entries: the first offending one throws. *)
Definition check_entry (e : BulkAllocateEntry) : M St unit :=
  throw_if (bad_prefix (be_prefixLength e))
    (AppError 400 ("Entry " +:+
       quoted (if is_skip e then "skip" else default "unnamed" (be_name e)) +:+
       " has an invalid prefix length")) ;!
  throw_if (negb (is_skip e) &&
            (negb (Js.otruthy (be_name e)) || negb (Js.truthy (Js.trim (default "" (be_name e))))))
    (AppError 400 "Every non-skip entry must have a name").

(** One assignment of the packed template against the existing subnets. *)
Definition check_assignment (existing : list Subnet) (a : BulkAllocateEntry * string)
  : M St unit :=
  if is_skip (fst a) then hret tt
  else match List.find (λ x, cidrOverlaps (s_cidr x) (snd a)) existing with
       | Some overlap =>
           hthrow (AppError 409 ("Computed subnet " +:+ snd a +:+ " overlaps existing " +:+
             s_cidr overlap))
       | None => hret tt
       end.

Fixpoint create_assignments (blockId prefix : string) (tags : list string)
    (createdBy : option string) (l : list (BulkAllocateEntry * string))
  : M St (list (string * string * string)) :=
  match l with
  | [] => hret []
  | (e, cidr) :: l' =>
      if is_skip e then create_assignments blockId prefix tags createdBy l'
      else
        let subnetName := prefix +:+ "_" +:+ default "undefined" (be_name e) in
        let! normalized := hlift (normalizeCidr cidr) in
        let! row := subnet_create (new_subnet blockId normalized subnetName None
                                     (be_vlan e) tags createdBy) in
        let! rest := create_assignments blockId prefix tags createdBy l' in
        hret ((s_id row, s_name row, s_cidr row) :: rest)
  end.

Definition anchor_or_default (a : option JsNum) : JsNum := default (JInt 24) a.

Definition bulkAllocate (input : BulkAllocateInput) : M St BulkAllocateResult :=
  throw_if (negb (Js.truthy (ba_prefix input)) || negb (Js.truthy (Js.trim (ba_prefix input))))
    (AppError 400 "A site/prefix name is required") ;!
  throw_if (bool_decide (ba_entries input = []))
    (AppError 400 "At least one entry is required") ;!
  let requestedAnchor := anchor_or_default (ba_anchorPrefix input) in
  throw_if (bad_prefix requestedAnchor)
    (AppError 400 "Anchor prefix must be between /8 and /32") ;!
  hforeach (ba_entries input) check_entry ;!
  throw_if (negb (existsb (λ e, negb (is_skip e)) (ba_entries input)))
    (AppError 400 "At least one non-skip entry is required") ;!
  let! block := require_block (ba_blockId input) in
  throw_if (negb (bool_decide (b_ipVersion block = v4)))
    (AppError 400 "Auto-allocation is currently only supported for IPv4 blocks") ;!
  let prefix := Js.trim (ba_prefix input) in
  let tags := default [] (ba_tags input) in
  transaction (
    let! existing := findSubnets (λ x, bool_decide (s_blockId x = ba_blockId input)) in
    let! packed := hlift (packIntoAnchor entry_prefix (b_cidr block) (s_cidr <$> existing)
                            (ba_entries input) (num_val requestedAnchor)) in
    match packed with
    | None =>
        hthrow (AppError 409 ("No free /" +:+ pretty (num_val requestedAnchor) +:+
          "-aligned region in block " +:+ b_cidr block +:+
          " large enough to hold the template"))
    | Some pk =>
        hforeach (assignments pk) (check_assignment existing) ;!
        let! created := create_assignments (ba_blockId input) prefix tags (ba_createdBy input)
                          (assignments pk) in
        hret (mkBulkAllocateResult created (anchorCidr pk) (effectiveAnchorPrefix pk))
    end).

(** The sum of the entry sizes, or nothing when an entry is invalid. *)
Fixpoint footprint (acc : Z) (entries : list BulkAllocateEntry) : option Z :=
  match entries with
  | [] => Some acc
  | e :: es =>
      if bad_prefix (be_prefixLength e) then None
      else footprint (acc + 2 ^ (32 - entry_prefix e)) es
  end.

Definition preview_row (e : BulkAllocateEntry) (cidr : option string) : PreviewRow :=
  mkPreviewRow (if is_skip e then None else be_name e) (is_skip e) (be_prefixLength e) cidr.

Definition previewBulkAllocate (blockId : string) (entries : list BulkAllocateEntry)
    (anchorPrefix : option JsNum) : M St PreviewResult :=
  let requestedAnchor := anchor_or_default anchorPrefix in
  throw_if (bad_prefix requestedAnchor)
    (AppError 400 "Anchor prefix must be between /8 and /32") ;!
  let! block := require_block blockId in
  let no_fit rows total n err :=
    mkPreviewResult false None None rows total n (b_cidr block) err in
  match footprint 0 entries with
  | None => hret (no_fit [] 0 0 (Some "An entry has an invalid prefix length"))
  | Some totalAddresses =>
      let slashTwentyFourCount := (totalAddresses + 255) / 256 in
      if negb (bool_decide (b_ipVersion block = v4)) then
        hret (no_fit [] totalAddresses slashTwentyFourCount
                (Some "Auto-allocation is currently only supported for IPv4 blocks"))
      else if bool_decide (entries = []) then
        hret (no_fit [] totalAddresses slashTwentyFourCount None)
      else
        let! existing := findSubnets (λ x, bool_decide (s_blockId x = blockId)) in
        let! packed := hlift (packIntoAnchor entry_prefix (b_cidr block) (s_cidr <$> existing)
                                entries (num_val requestedAnchor)) in
        match packed with
        | None =>
            hret (no_fit ((λ e, preview_row e None) <$> entries)
                    totalAddresses slashTwentyFourCount None)
        | Some pk =>
            hret (mkPreviewResult true (Some (anchorCidr pk)) (Some (effectiveAnchorPrefix pk))
                    ((λ a, preview_row (fst a) (Some (snd a))) <$> assignments pk)
                    totalAddresses slashTwentyFourCount (b_cidr block) None)
        end
  end.

Definition updateSubnet (id : string) (input : UpdateSubnetInput) : M St Subnet :=
  let! _ := require_subnet id in
  let convert := default false (us_convertToManual input) in
  subnet_update id (λ x,
    mkSubnet (s_id x) (s_blockId x) (s_cidr x) (default (s_name x) (us_name input))
      (match us_purpose input with Some p => Some p | None => s_purpose x end)
      (default (s_status x) (us_status input))
      (match us_vlan input with Some v => Some v | None => s_vlan x end)
      (default (s_tags x) (us_tags input))
      (if convert then None else s_discoveredBy x)
      (if convert then None else s_fortigateDevice x)
      (s_createdBy x) (s_lastDiscoveredAt x)).

Definition deleteSubnet (id : string) : M St (Subnet * list Reservation) :=
  let! subnet := require_subnet id in
  let! deletedReservations := findReservations (λ r, bool_decide (r_subnetId r = id)) in
  let! activeCount := countReservations (λ r,
    bool_decide (r_subnetId r = id) && bool_decide (r_status r = Active)) in
  throw_if (0 <? activeCount)
    (AppError 409 ("Cannot delete subnet " +:+ s_cidr subnet +:+ " — it has " +:+
       pretty activeCount +:+ " active reservation(s)")) ;!
  let! _ := subnet_delete id in
  hret (subnet, deletedReservations).
End networks.

(** ** The network invariant *)

Section invariant.
Context `{NetmaskLaws, IpamStoreLaws} {W : Type}.
Notation St := (State W).
Implicit Types (s : St).

(** The constraints of the schema; every stored CIDR denotes an IPv4 block;
    every subnet lies inside its parent block; sibling subnets share no
    address. *)
Record net_ok s : Prop := {
  no_db : db_ok s;
  no_block b : b ∈ block_rows s → b_ipVersion b = v4 ∧ ∃ n p, denotes (b_cidr b) n p;
  no_within x : x ∈ subnet_rows s →
    ∃ b, b ∈ block_rows s ∧ b_id b = s_blockId x ∧
         ∀ a, covers (s_cidr x) a → covers (b_cidr b) a;
  no_disjoint x y a : x ∈ subnet_rows s → y ∈ subnet_rows s →
    s_blockId x = s_blockId y → s_id x ≠ s_id y →
    covers (s_cidr x) a → ¬ covers (s_cidr y) a;
}.

(** Rows that agree on what the invariant reads. *)
Definition same_block (b b' : IpBlock) : Prop :=
  b_id b' = b_id b ∧ b_cidr b' = b_cidr b ∧ b_ipVersion b' = b_ipVersion b.
Definition same_net (x x' : Subnet) : Prop :=
  s_id x' = s_id x ∧ s_blockId x' = s_blockId x ∧ s_cidr x' = s_cidr x.

(** Removing subnets, removing blocks that no remaining subnet uses and
    rewriting other columns keeps the invariant. *)
Lemma net_ok_mono s s' :
  net_ok s → db_ok s' →
  (∀ b', b' ∈ block_rows s' → ∃ b, b ∈ block_rows s ∧ same_block b b') →
  (∀ x', x' ∈ subnet_rows s' → ∃ x, x ∈ subnet_rows s ∧ same_net x x') →
  (∀ b x', b ∈ block_rows s → x' ∈ subnet_rows s' → b_id b = s_blockId x' →
     ∃ b', b' ∈ block_rows s' ∧ same_block b b') →
  net_ok s'.
Proof.
  intros Hok Hdb Hb Hx Hbx. constructor; [done|..].
  - intros b' (b & Hin & _ & -> & ->)%Hb. by apply Hok.
  - intros x' Hx'. destruct (Hx _ Hx') as (x & Hin & _ & Hbl & Hc).
    destruct (no_within _ Hok x Hin) as (b & Hbin & Hid & Hcov).
    destruct (Hbx b x') as (b' & ? & Hid' & Hc' & _); [done..|congruence|].
    exists b'. rewrite Hid', Hc', Hbl, Hc. done.
  - intros x' y' a Hx' Hy'. destruct (Hx _ Hx') as (x & ? & -> & -> & ->).
    destruct (Hx _ Hy') as (y & ? & -> & -> & ->). by apply Hok.
Qed.

(** Adding a subnet that fits its block and misses its siblings. *)
Lemma net_ok_add s t x b :
  net_ok s → db_ok (set_subnets t s) → rows t ≡ₚ x :: subnet_rows s →
  s_id x ∉ s_id <$> subnet_rows s →
  b ∈ block_rows s → b_id b = s_blockId x →
  (∀ a, covers (s_cidr x) a → covers (b_cidr b) a) →
  (∀ y a, y ∈ subnet_rows s → s_blockId y = s_blockId x →
     covers (s_cidr y) a → ¬ covers (s_cidr x) a) →
  net_ok (set_subnets t s).
Proof.
  intros Hok Hdb Ht Hfresh Hb Hid Hin Hdis.
  assert (∀ y, y ∈ subnet_rows (set_subnets t s) ↔ y = x ∨ y ∈ subnet_rows s) as Hrows.
  { intros y. unfold subnet_rows at 1. simpl. by rewrite Ht, elem_of_cons. }
  constructor; [done|apply Hok|..].
  - intros y [->|Hy]%Hrows; [by exists b|]. by apply Hok.
  - intros y z a [->|Hy]%Hrows [->|Hz]%Hrows Hbl Hne Hc Hc'; [done|..].
    + by apply (Hdis z a).
    + by apply (Hdis y a).
    + exact (no_disjoint _ Hok y z a Hy Hz Hbl Hne Hc Hc').
Qed.

Lemma require_block_ok id s s' b :
  require_block id s = (s', Ok b) → s' = s ∧ b ∈ block_rows s ∧ b_id b = id.
Proof.
  unfold require_block, findBlockById, findBlock. intros Hr. hinv.
  destruct (List.find _ _) as [b'|] eqn:Hf; hinv.
  apply find_some_iff in Hf as [? Hid]. by apply bool_decide_eq_true_1 in Hid.
Qed.

Lemma readonly_require_block id : readonly (require_block (W := W) id).
Proof. unfold require_block, findBlockById, findBlock. solve_frame. Qed.
Lemma readonly_require_subnet id : readonly (require_subnet (W := W) id).
Proof. unfold require_subnet, findSubnet. solve_frame. Qed.
Lemma readonly_findSubnets p : readonly (findSubnets (W := W) p).
Proof. apply readonly_hgets. Qed.

(** What a successful [createSubnet] did. *)
Lemma createSubnet_ok input s s' x :
  db_ok s → createSubnet input s = (s', Ok x) →
  ∃ b n p t, b ∈ block_rows s ∧ b_id b = cs_blockId input ∧
    denotes (cs_cidr input) n p ∧ s_cidr x = cidr_text (net_of n p) p ∧
    s_blockId x = cs_blockId input ∧ s_status x = Available ∧
    cidrContains (b_cidr b) (s_cidr x) = true ∧
    (∀ y, y ∈ subnet_rows s → s_blockId y = cs_blockId input →
       cidrOverlaps (s_cidr y) (s_cidr x) = false) ∧
    s' = set_subnets t s ∧ db_ok s' ∧ rows t ≡ₚ x :: subnet_rows s ∧
    s_id x ∉ s_id <$> subnet_rows s.
Proof.
  intros Hdb Hrun. unfold createSubnet, findSubnets in Hrun. hinv.
  apply require_block_ok in Hm1 as (-> & Hb & Hid).
  destruct (normalizeCidr_ok _ _ Hr) as (n & p & Hd & ->).
  destruct (List.find _ _) as [?|] eqn:Hf in Hrun; [discriminate|].
  rewrite find_none_iff in Hf. rewrite negb_false_iff in *.
  match type of Hrun with subnet_create ?f _ = _ =>
    destruct (subnet_create_spec f s) as (t & id & Heq & Hok & Hfr & Hp); [done..|] end.
  rewrite Heq in Hrun. simplify_eq.
  exists a1, n, p, t. split_and!; try done.
  intros y Hy Hbl. apply Hf. apply list_elem_of_In, filter_In. split; [by apply list_elem_of_In|].
  by apply bool_decide_eq_true_2.
Qed.

Lemma createSubnet_net_ok input s s' x :
  net_ok s → createSubnet input s = (s', Ok x) → net_ok s'.
Proof.
  intros Hok Hrun. destruct (createSubnet_ok _ _ _ _ (no_db _ Hok) Hrun)
    as (b & n & p & t & Hb & Hid & Hd & Hc & Hbl & _ & Hcon & Hov & -> & Hdb & Hp & Hfr).
  apply (net_ok_add s t x b); try done; [congruence|by apply cidrContains_true|].
  intros y a Hy Hyb Hya Hxa. specialize (Hov y Hy ltac:(congruence)).
  apply not_true_iff_false in Hov. apply Hov, cidrOverlaps_spec. eauto.
Qed.

Lemma createSubnet_atomic input : atomic_fail (createSubnet (W := W) input).
Proof.
  unfold createSubnet, subnet_create. solve_frame;
    auto using readonly_require_block, readonly_findSubnets with frame.
Qed.

Lemma allocateNextSubnet_atomic id p m : atomic_fail (allocateNextSubnet (W := W) id p m).
Proof.
  unfold allocateNextSubnet. solve_frame;
    auto using readonly_require_block, readonly_findSubnets, createSubnet_atomic with frame.
Qed.

Lemma allocateNextSubnet_net_ok id p m s s' x :
  net_ok s → allocateNextSubnet id p m s = (s', Ok x) → net_ok s'.
Proof.
  intros Hok Hrun. unfold allocateNextSubnet, findSubnets in Hrun. hinv.
  apply require_block_ok in Hm as (-> & Hb & Hid).
  destruct a3; [|discriminate]. by eapply createSubnet_net_ok.
Qed.

Lemma createBlock_net_ok input s s' b :
  net_ok s → createBlock input s = (s', Ok b) → net_ok s'.
Proof.
  intros Hok Hrun. unfold createBlock, findBlock in Hrun. hinv.
  destruct (normalizeCidr_ok _ _ Hr) as (n & p & Hd & ->).
  match type of Hrun with block_create ?f _ = _ =>
    pose proof (block_create_spec f s (λ _, eq_refl) (no_db _ Hok)) as Hsp end.
  rewrite Hrun in Hsp. destruct Hsp as (t & -> & Hdb & (id & _ & ->) & Hp).
  pose proof (denotes_net _ _ _ Hd) as Hdn.
  constructor; [done|..].
  - intros b Hb. rewrite Hp in Hb. apply elem_of_cons in Hb as [->|Hb]; [|by apply Hok].
    simpl. split; [|eauto]. destruct Hdn as (? & _ & [? ? _ _ _ _ _]).
    by apply detectIpVersion_text.
  - intros x Hx. destruct (no_within _ Hok x Hx) as (b & ? & ? & ?).
    exists b. split; [|done]. rewrite Hp. by right.
  - apply Hok.
Qed.

Lemma updateBlock_net_ok id input s s' r :
  net_ok s → updateBlock id input s = (s', r) → net_ok s'.
Proof.
  intros Hok. unfold updateBlock, hbind.
  destruct (require_block id s) as [s1 [b0|e]] eqn:Hq;
    apply readonly_require_block in Hq as ->; [|by intros [= <- <-]].
  match goal with |- block_update _ ?f _ = _ → _ =>
    pose proof (block_update_spec id f s ltac:(done) (no_db _ Hok)) as Hsp end.
  intros Hrun. rewrite Hrun in Hsp. destruct r as [r|e]; [|by subst].
  destruct Hsp as (t & -> & Hdb & _ & Hp).
  apply (net_ok_mono s); try done.
  - intros b' Hb'. rewrite Hp in Hb'. apply elem_of_map_where in Hb' as (b & ? & ->).
    exists b. split; [done|]. by destruct (has_id id b).
  - intros x ?. by exists x.
  - intros b x Hb _ _. setoid_rewrite Hp. setoid_rewrite elem_of_map_where.
    eexists. split; [by exists b|]. by destruct (has_id id b).
Qed.

Lemma updateSubnet_net_ok id input s s' r :
  net_ok s → updateSubnet id input s = (s', r) → net_ok s'.
Proof.
  intros Hok. unfold updateSubnet, hbind.
  destruct (require_subnet id s) as [s1 [b0|e]] eqn:Hq;
    apply readonly_require_subnet in Hq as ->; [|by intros [= <- <-]].
  match goal with |- subnet_update _ ?f _ = _ → _ =>
    pose proof (subnet_update_spec id f s ltac:(done) (no_db _ Hok)) as Hsp end.
  intros Hrun. rewrite Hrun in Hsp. destruct r as [r|e]; [|by destruct Hsp as [-> _]].
  destruct Hsp as (t & -> & Hdb & _ & Hp).
  apply (net_ok_mono s); try done.
  - intros b ?. by exists b.
  - intros x' Hx'. rewrite Hp in Hx'. apply elem_of_map_where in Hx' as (x & ? & ->).
    exists x. split; [done|]. by destruct (has_id id x).
  - intros b ? ? ? ?. by exists b.
Qed.

(** [deleteSubnet] on every branch. *)
Lemma deleteSubnet_spec id s :
  db_ok s →
  match deleteSubnet id s with
  | (s', Ok (x, gone)) => db_ok s' ∧ x ∈ subnet_rows s ∧ s_id x = id ∧
      ipBlocks s' = ipBlocks s ∧
      (∀ r, r ∈ gone ↔ r ∈ reservation_rows s ∧ r_subnetId r = id) ∧
      (∀ r, r ∈ gone → r_status r ≠ Active) ∧
      (∀ y, y ∈ subnet_rows s' ↔ y ∈ subnet_rows s ∧ s_id y ≠ id) ∧
      (∀ r, r ∈ reservation_rows s' ↔ r ∈ reservation_rows s ∧ r_subnetId r ≠ id)
  | (s', Throw e) => s' = s ∧
      (id ∉ s_id <$> subnet_rows s ∨
       ∃ r, r ∈ reservation_rows s ∧ r_subnetId r = id ∧ r_status r = Active)
  end.
Proof.
  intros Hdb. unfold deleteSubnet, require_subnet, findSubnet, findReservations,
    countReservations, hguard, hbind, hgets. simpl.
  destruct (List.find (has_id id) (subnet_rows s)) as [x|] eqn:Hf; simpl.
  2:{ split; [done|]. left. exact (has_id_none _ _ Hf). }
  apply find_some_iff in Hf as [Hin Hid]. apply bool_decide_eq_true_1 in Hid. simpl in Hid.
  match goal with |- context [Z.of_nat (length (List.filter ?p ?l))] =>
    pose proof (count_pos p l) as Hcnt;
    destruct (Z.ltb_spec 0 (Z.of_nat (length (List.filter p l)))) as [Hlt|Hge] end;
    setoid_rewrite andb_true_iff in Hcnt; setoid_rewrite bool_decide_eq_true in Hcnt; simpl.
  { split; [done|]. right. apply Hcnt in Hlt. naive_solver. }
  pose proof (subnet_delete_spec id s Hdb) as Hsp.
  destruct (subnet_delete id s) as [s1 [y|e]]; [|naive_solver].
  destruct Hsp as (? & ? & ? & ? & ? & ? & ?). simpl. split_and!; try done.
  - intros r. by rewrite elem_of_lfilter, bool_decide_eq_true.
  - intros r Hr Ha. rewrite elem_of_lfilter, bool_decide_eq_true in Hr.
    apply (Z.lt_irrefl 0). eapply Z.lt_le_trans; [|exact Hge]. apply Hcnt. naive_solver.
Qed.
End invariant.

(** ** Bulk allocation *)

Section bulk.
Context `{NetmaskLaws, IpamStoreLaws} {W : Type}.
Notation St := (State W).
Implicit Types (s : St).

Lemma deleteBlock_net_ok id s s' r :
  net_ok s → deleteBlock id s = (s', r) → net_ok s'.
Proof.
  intros Hok. unfold deleteBlock, findSubnets, countReservations, hguard, hbind, hgets.
  destruct (require_block id s) as [s1 [b|e]] eqn:Hq;
    apply readonly_require_block in Hq as ->; [|by intros [= <- <-]].
  destruct (0 <? _); [by intros [= <- <-]|]. simpl.
  intros Hrun. pose proof (block_delete_spec id s (no_db _ Hok)) as Hsp.
  rewrite Hrun in Hsp. destruct r as [r|e]; [|by subst].
  destruct Hsp as (Hdb & _ & _ & Hb & Hs & _). apply (net_ok_mono s); try done.
  - intros b' [Hb' _]%Hb. by exists b'.
  - intros x [Hx _]%Hs. by exists x.
  - intros b' x Hb' [_ Hx]%Hs Hid. exists b'. split; [|done]. apply Hb. by rewrite Hid.
Qed.

(** The name a created subnet gets. *)
Definition subnet_name (prefix : string) (e : BulkAllocateEntry) : string :=
  prefix +:+ "_" +:+ default "undefined" (be_name e).

Definition wanted (l : list (BulkAllocateEntry * string)) :=
  List.filter (λ a, negb (is_skip (fst a))) l.

(** The placement a packed template hands to the create loop. *)
Definition placed_in s (b : IpBlock) (l : list (BulkAllocateEntry * string)) : Prop :=
  (∀ e c, (e, c) ∈ l → ∃ a p, c = cidr_text a p ∧ denotes c a p ∧ (blk_size p | a) ∧
     (∀ x, covers c x → covers (b_cidr b) x) ∧
     (∀ y x, y ∈ subnet_rows s → s_blockId y = b_id b → covers (s_cidr y) x → ¬ covers c x)) ∧
  StronglySorted (λ c d, ∀ x y, covers c x → covers d y → x < y) l.*2.

Lemma placed_in_tail s t b e c l x :
  placed_in s b ((e, c) :: l) → rows t ≡ₚ x :: subnet_rows s → s_cidr x = c →
  placed_in (set_subnets t s) b l.
Proof.
  intros [Hall Hsort] Ht Hx. simpl in Hsort. apply StronglySorted_inv in Hsort as [Hsort Hc].
  split; [|done]. intros e' c' Hin.
  destruct (Hall e' c') as (a & p & ? & ? & ? & ? & Hfree); [by right|].
  exists a, p. split_and!; try done. intros y z. unfold subnet_rows at 1. simpl.
  rewrite Ht. intros [->|Hy]%elem_of_cons Hyb Hz Hz'; [|by eapply Hfree].
  rewrite Forall_forall in Hc. rewrite Hx in Hz.
  assert (z < z); [|lia]. eapply (Hc c'); [|done..].
  apply list_elem_of_fmap. by exists (e', c').
Qed.

Lemma placed_in_skip s b a l : placed_in s b (a :: l) → placed_in s b l.
Proof.
  intros [Hall Hsort]. simpl in Hsort. apply StronglySorted_inv in Hsort as [Hsort _].
  split; [|done]. intros e c Hin. apply (Hall e c). by right.
Qed.

(** The create loop succeeds, keeps the invariant, and adds one row per
    non-skip entry, in order. *)
Lemma create_assignments_spec b prefix tags by_ l s :
  net_ok s → b ∈ block_rows s → placed_in s b l →
  ∃ s' out, create_assignments (b_id b) prefix tags by_ l s = (s', Ok out) ∧ net_ok s' ∧
    (λ o, (o.1.2, o.2)) <$> out = (λ a, (subnet_name prefix (fst a), snd a)) <$> wanted l ∧
    ipBlocks s' = ipBlocks s ∧ reservations s' = reservations s ∧ audit s' = audit s ∧
    subnet_rows s' ≡ₚ subnet_rows s ++
      ((λ '(o, e), mkSubnet o.1.1 (b_id b) o.2 o.1.2 None Available (be_vlan e) tags None None by_ None)
         <$> zip out (fst <$> wanted l)).
Proof.
  revert s. induction l as [|[e c] l IH]; intros s Hok Hb Hpl; simpl.
  { exists s, []. rewrite app_nil_r. done. }
  destruct (is_skip e) eqn:Hsk; simpl.
  { destruct (IH s Hok Hb) as (s' & out & ? & ?); [by eapply placed_in_skip|]. by exists s', out. }
  destruct (proj1 Hpl e c) as (a & p & -> & Hd & Hal & Hin & Hfree); [left|].
  pose proof Hd as (nb & _ & [Ha Hp _ _ _ _ _]).
  unfold hbind at 1. rewrite (normalizeCidr_denotes _ _ _ Hd), (net_of_aligned a p) by (done || apply Hp).
  simpl. unfold hbind at 1.
  match goal with |- context [subnet_create ?f s] =>
    destruct (subnet_create_spec f s) as (t & id & -> & Hdb & Hfr & Ht);
      [done|apply Hok|set (x := f id) in *] end.
  assert (net_ok (set_subnets t s)) as Hok1.
  { apply (net_ok_add s t x b); try done. }
  destruct (IH (set_subnets t s)) as (s' & out & Hrun & Hok' & Hnames & Hb' & Hr' & Hau & Hrows);
    [done|done|by eapply (placed_in_tail s t b e _ l x)|].
  unfold hbind. rewrite Hrun. exists s', ((id, subnet_name prefix e, cidr_text a p) :: out).
  split_and!; try done.
  - rewrite fmap_cons, Hnames. done.
  - rewrite Hrows. unfold subnet_rows at 1. simpl. rewrite Ht.
    rewrite <-Permutation_middle. done.
Qed.

(** The rows that the created subnets [out] of the entries [l] stand for. *)
Definition bulk_rows (blockId : string) (tags : list string) (by_ : option string)
    (out : list (string * string * string)) (l : list (BulkAllocateEntry * string)) : list Subnet :=
  (λ '(o, e), mkSubnet o.1.1 blockId o.2 o.1.2 None Available (be_vlan e) tags None None by_ None)
    <$> zip out (fst <$> wanted l).

(** The create loop over CIDRs of any size and place: it succeeds and adds one
    row per non-skip entry, in order, each the normal form of its CIDR. *)
Lemma create_assignments_rows blockId prefix tags by_ l s :
  db_ok s → (∀ e c, (e, c) ∈ l → ∃ a p, denotes c a p) →
  ∃ s' out, create_assignments blockId prefix tags by_ l s = (s', Ok out) ∧ db_ok s' ∧
    Forall2 (λ o a, o.1.2 = subnet_name prefix a.1 ∧ normalizeCidr a.2 = Ok o.2) out (wanted l) ∧
    ipBlocks s' = ipBlocks s ∧ reservations s' = reservations s ∧
    subnet_rows s' ≡ₚ subnet_rows s ++ bulk_rows blockId tags by_ out l.
Proof.
  unfold bulk_rows. revert s. induction l as [|[e c] l IH]; intros s Hdb Hl; simpl.
  { exists s, []. rewrite app_nil_r. by split_and!. }
  destruct (is_skip e) eqn:Hsk; simpl.
  { destruct (IH s Hdb) as (s' & out & ? & ?); [intros e' c' ?; apply (Hl e'); by right|]. by exists s', out. }
  destruct (Hl e c) as (a & p & Hd); [left|].
  unfold hbind at 1. rewrite (normalizeCidr_denotes _ _ _ Hd). simpl. unfold hbind at 1.
  match goal with |- context [subnet_create ?f s] =>
    destruct (subnet_create_spec f s) as (t & id & -> & Hdb1 & Hfr & Ht); [done|done|set (x := f id) in *] end.
  destruct (IH (set_subnets t s)) as (s' & out & Hrun & Hdb' & Hall & Hb' & Hr' & Hrows);
    [done|intros e' c' ?; apply (Hl e'); by right|].
  unfold hbind. rewrite Hrun. exists s', ((id, subnet_name prefix e, cidr_text (net_of a p) p) :: out).
  split_and!; try done.
  - constructor; [|done]. split; [done|]. simpl. by apply normalizeCidr_denotes.
  - rewrite Hrows. unfold subnet_rows at 1. simpl. rewrite Ht. by rewrite <-Permutation_middle.
Qed.

(** The packed template is no larger than the block it is placed in. *)
Definition template_fits s (input : BulkAllocateInput) : Prop :=
  ∀ b n P, b ∈ block_rows s → b_id b = ba_blockId input → denotes (b_cidr b) n P →
    totalSpan (packTemplateEntries entry_prefix (ba_entries input)) ≤ blk_size P.
(** The packed template is larger than the block it is asked for. *)
Definition oversized s (input : BulkAllocateInput) : Prop :=
  ∃ b n P, b ∈ block_rows s ∧ b_id b = ba_blockId input ∧ denotes (b_cidr b) n P ∧
    blk_size P < totalSpan (packTemplateEntries entry_prefix (ba_entries input)).

Lemma denotes_det c n P n' P' : denotes c n P → denotes c n' P' → P = P'.
Proof. intros (k & Hk & Hb) (k' & Hk' & Hb'). rewrite Hk in Hk'. injection Hk' as <-. apply (is_block_det _ _ _ _ _ Hb Hb'). Qed.

Lemma block_unique s b b' : net_ok s → b ∈ block_rows s → b' ∈ block_rows s → b_id b' = b_id b → b' = b.
Proof.
  intros Hok Hb Hb' Hid. assert (rows_ok (block_rows s)) as Hr by apply Hok.
  pose proof (find_has_id (block_rows s) (b_id b) b Hr Hb eq_refl) as E.
  pose proof (find_has_id (block_rows s) (b_id b) b' Hr Hb' Hid) as E'. congruence.
Qed.

Lemma fits_or_oversized s input : net_ok s → template_fits s input ∨ oversized s input.
Proof.
  intros Hok. destruct (List.find (has_id (ba_blockId input)) (block_rows s)) as [b|] eqn:Hf.
  - apply find_some_iff in Hf as [Hb Hid]. apply bool_decide_eq_true_1 in Hid. simpl in Hid.
    destruct (no_block _ Hok b Hb) as (_ & n & P & Hd).
    destruct (Z_le_gt_dec (totalSpan (packTemplateEntries entry_prefix (ba_entries input))) (blk_size P)) as [Hle|Hgt].
    + left. intros b' n' P' Hb' Hid' Hd'.
      assert (b' = b) as ->; [|by rewrite (denotes_det _ _ _ _ _ Hd' Hd)].
      apply (block_unique s); try done. congruence.
    + right. exists b, n, P. split_and!; [done..|lia].
  - left. intros b' n' P' Hb' Hid'. exfalso. apply (has_id_none _ _ Hf). rewrite <-Hid'. by apply list_elem_of_fmap_2.
Qed.

Lemma bad_prefix_false n : bad_prefix n = false → is_prefix (num_val n).
Proof. unfold bad_prefix, is_prefix. lia. Qed.

Lemma readonly_check_entry e : readonly (check_entry (W := W) e).
Proof. unfold check_entry. solve_frame. Qed.
Lemma readonly_check_assignment l a : readonly (check_assignment (W := W) l a).
Proof. unfold check_assignment. solve_frame. Qed.

Lemma check_entries_ok (l : list BulkAllocateEntry) s s' u :
  hforeach l check_entry s = (s', Ok u) →
  s' = s ∧ Forall (λ e, is_prefix (entry_prefix e)) l.
Proof.
  intros Hr. apply hforeach_ok in Hr as [-> Hall]; [|apply readonly_check_entry].
  split; [done|]. apply Forall_forall. intros e He. specialize (Hall e He).
  unfold check_entry in Hall. hinv. by apply bad_prefix_false.
Qed.

(** A successful run of the packer over the current siblings of block [b]. *)
Lemma packed_placed_in s b input A pk n P :
  net_ok s → b ∈ block_rows s → denotes (b_cidr b) n P → is_prefix A →
  ba_entries input ≠ [] → Forall (λ e, is_prefix (entry_prefix e)) (ba_entries input) →
  totalSpan (packTemplateEntries entry_prefix (ba_entries input)) ≤ blk_size P →
  packIntoAnchor entry_prefix (b_cidr b)
    (s_cidr <$> List.filter (λ x, bool_decide (s_blockId x = b_id b)) (subnet_rows s))
    (ba_entries input) A = Ok (Some pk) →
  (assignments pk).*1 = ba_entries input ∧ placed_in s b (assignments pk).
Proof.
  intros Hok Hb Hd HA Hne Hpre Hspan Hpk.
  destruct (packIntoAnchor_layout _ _ _ _ _ _ _ _ Hd HA Hne Hpre Hspan Hpk) as (Hfst & Hall & Hsort).
  split; [done|]. split; [|done]. intros e c Hin.
  destruct (Hall e c Hin) as (a & Hc & Hda & Hal & Hcov & Hfree).
  exists a, (entry_prefix e). split_and!; try done.
  - intros x Hx. by apply Hcov.
  - intros y x Hy Hyb. apply Hfree. apply list_elem_of_fmap. exists y. split; [done|].
    apply elem_of_lfilter. split; [done|]. by apply bool_decide_eq_true_2.
Qed.

Lemma bulkAllocate_ok input s s' res :
  net_ok s → template_fits s input → bulkAllocate input s = (s', Ok res) →
  net_ok s' ∧ ∃ b l, b ∈ block_rows s ∧ b_id b = ba_blockId input ∧
    l.*1 = ba_entries input ∧ placed_in s b l ∧
    (λ o, (o.1.2, o.2)) <$> br_created res =
      (λ a, (subnet_name (Js.trim (ba_prefix input)) (fst a), snd a)) <$> wanted l ∧
    ipBlocks s' = ipBlocks s ∧ reservations s' = reservations s ∧
    length (subnet_rows s') = (length (subnet_rows s) + length (wanted l))%nat.
Proof.
  intros Hok Hfit Hrun. unfold bulkAllocate, findSubnets in Hrun. hinv.
  apply check_entries_ok in Hm2 as [-> Hpre].
  apply require_block_ok in Hm4 as (-> & Hb & Hid).
  rewrite bool_decide_eq_false in Hg2. apply bad_prefix_false in Hg1.
  unfold transaction in Hrun. case_match eqn:Htx. destruct r as [r|]; [|discriminate].
  injection Hrun as -> ->. hinv. destruct a7 as [pk|]; [|discriminate]. hinv.
  apply hforeach_ok in Hm as [-> _]; [|apply readonly_check_assignment].
  destruct (no_block _ Hok _ Hb) as (_ & n & P & Hd).
  rewrite <-Hid in Hr, Hm0.
  destruct (packed_placed_in _ a4 input _ pk n P Hok Hb Hd Hg1 Hg2 Hpre) as [Hent Hpl];
    [by eapply Hfit|done|].
  match type of Hm0 with create_assignments _ ?pr ?tg ?by_ _ _ = _ =>
    destruct (create_assignments_spec a4 pr tg by_ (assignments pk) _ Hok Hb Hpl)
      as (s1 & out & Hrun & Hok' & Hnames & Hbl & Hre & _ & Hrows) end.
  rewrite Hrun in Hm0. injection Hm0 as -> ->.
  split; [done|]. exists a4, (assignments pk). split_and!; try done.
  rewrite (Permutation_length Hrows), length_app, length_fmap, length_zip, length_fmap.
  apply (f_equal length) in Hnames. rewrite !length_fmap in Hnames. lia.
Qed.

(** A successful run, whatever the size of the template. *)
Lemma bulkAllocate_made input s s' res :
  net_ok s → bulkAllocate input s = (s', Ok res) →
  ∃ b l, b ∈ block_rows s ∧ b_id b = ba_blockId input ∧ l.*1 = ba_entries input ∧
    Forall2 (λ o a, o.1.2 = subnet_name (Js.trim (ba_prefix input)) a.1 ∧ normalizeCidr a.2 = Ok o.2)
      (br_created res) (wanted l) ∧
    ipBlocks s' = ipBlocks s ∧ reservations s' = reservations s ∧
    subnet_rows s' ≡ₚ subnet_rows s ++
      bulk_rows (ba_blockId input) (default [] (ba_tags input)) (ba_createdBy input) (br_created res) l ∧
    ∀ o y a, o ∈ br_created res → y ∈ subnet_rows s → s_blockId y = ba_blockId input →
      covers (s_cidr y) a → ¬ covers o.2 a.
Proof.
  intros Hok Hrun. unfold bulkAllocate, findSubnets in Hrun. hinv.
  apply check_entries_ok in Hm2 as [-> Hpre].
  apply require_block_ok in Hm4 as (-> & Hb & Hid).
  rewrite bool_decide_eq_false in Hg2. apply bad_prefix_false in Hg1.
  unfold transaction in Hrun. case_match eqn:Htx. destruct r as [r|]; [|discriminate].
  injection Hrun as -> ->. hinv. destruct a7 as [pk|]; [|discriminate]. hinv.
  apply hforeach_ok in Hm as [-> Hfree]; [|apply readonly_check_assignment].
  destruct (no_block _ Hok _ Hb) as (_ & n & P & Hd).
  destruct (packIntoAnchor_entries _ _ _ _ _ n P _ Hd Hg1 Hg2 Hpre Hr) as [Hent Hden].
  match type of Hm0 with create_assignments _ ?pr ?tg ?by_ _ _ = _ =>
    destruct (create_assignments_rows (ba_blockId input) pr tg by_ (assignments pk) _ (no_db _ Hok))
      as (s1 & out & Hrun & _ & Hall & Hbl & Hre & Hrows) end; [by intros e c [? ?]%Hden; eauto|].
  rewrite Hrun in Hm0. injection Hm0 as -> ->.
  exists a4, (assignments pk). split_and!; try done.
  intros o y z Ho Hy Hyb Hya Hoa.
  apply list_elem_of_lookup in Ho as [i Hi]. destruct (Forall2_lookup_l _ _ _ _ _ Hall Hi) as ([e c] & Hc & _ & Hn).
  apply list_elem_of_lookup_2, elem_of_lfilter in Hc as [Hc Hs]. simpl in Hn, Hs. rewrite negb_true_iff in Hs.
  destruct (Hden e c Hc) as [n' Hdc]. rewrite (normalizeCidr_denotes _ _ _ Hdc) in Hn. injection Hn as Ho.
  rewrite <-Ho, (covers_normalized _ _ _ z Hdc) in Hoa.
  specialize (Hfree (e, c) Hc). unfold check_assignment in Hfree. cbn [fst snd] in Hfree. rewrite Hs in Hfree.
  destruct (List.find _ _) as [?|] eqn:Hf; [discriminate|]. rewrite find_none_iff in Hf.
  assert (cidrOverlaps (s_cidr y) c = false) as Hov.
  { apply Hf, elem_of_lfilter. split; [done|by apply bool_decide_eq_true_2]. }
  apply not_true_iff_false in Hov. apply Hov, cidrOverlaps_spec. eauto.
Qed.

Lemma bulkAllocate_throw input s s' e :
  bulkAllocate input s = (s', Throw e) → same_tables s s'.
Proof.
  unfold bulkAllocate. intros Hrun.
  repeat match type of Hrun with
  | hbind ?m _ _ = _ =>
      let s1 := fresh "s" in let a := fresh "a" in let Hm := fresh "Hm" in
      assert (readonly m) as Hro by (solve_frame; auto using readonly_check_entry,
        readonly_require_block with frame);
      apply hbind_throw in Hrun as [Hm|(s1 & a & Hm & Hrun)];
      apply Hro in Hm as ->; clear Hro; [done|]
  end.
  unfold transaction in Hrun. case_match. case_match; [discriminate|].
  injection Hrun as <- <-. done.
Qed.
End bulk.

(** ** Properties *)

Section net_claims.
Context `{NetmaskLaws, IpamStoreLaws} {W : Type}.
Notation St := (State W).
Implicit Types (s : St).

(** One run of a network handler, whatever its outcome. *)
Inductive net_step : St → St → Prop :=
  | st_createBlock i s s' r : createBlock i s = (s', r) → net_step s s'
  | st_updateBlock id i s s' r : updateBlock id i s = (s', r) → net_step s s'
  | st_deleteBlock id s s' r : deleteBlock id s = (s', r) → net_step s s'
  | st_createSubnet i s s' r : createSubnet i s = (s', r) → net_step s s'
  | st_allocateNext id p m s s' r : allocateNextSubnet id p m s = (s', r) → net_step s s'
  | st_bulkAllocate i s s' r : bulkAllocate i s = (s', r) → net_step s s'
  | st_updateSubnet id i s s' r : updateSubnet id i s = (s', r) → net_step s s'
  | st_deleteSubnet id s s' r : deleteSubnet id s = (s', r) → net_step s s'.

Lemma net_ok_same_tables s s' : same_tables s s' → net_ok s → net_ok s'.
Proof.
  intros (Hb & Hs & Hr) Hok. apply (net_ok_mono s); try done;
    unfold block_rows, subnet_rows, db_ok, reservation_rows in *; rewrite ?Hb, ?Hs.
  - unfold block_rows, subnet_rows, reservation_rows. rewrite Hb, Hs, Hr. apply Hok.
  - intros b ?. by exists b.
  - intros x ?. by exists x.
  - intros b x ? ? ?. by exists b.
Qed.

Lemma createBlock_atomic i : atomic_fail (createBlock (W := W) i).
Proof. unfold createBlock, block_create, findBlock. solve_frame. Qed.

(** Every handler keeps the invariant, but for a successful bulk allocation of a
    template that is larger than its block. *)
Lemma net_step_ok s s' :
  net_step s s' → net_ok s → net_ok s' ∨ ∃ i res, bulkAllocate i s = (s', Ok res) ∧ oversized s i.
Proof.
  intros Hst Hok. destruct Hst as [i s s' r Hrun|id i s s' r Hrun|id s s' r Hrun|i s s' r Hrun|
    id p m s s' r Hrun|i s s' r Hrun|id i s s' r Hrun|id s s' r Hrun].
  6: { destruct r as [res|]; [|left; apply bulkAllocate_throw in Hrun; by eapply net_ok_same_tables].
       destruct (fits_or_oversized s i Hok) as [Hfit|?]; [left; by eapply bulkAllocate_ok|right; eauto]. }
  all: left.
  - destruct r; [by eapply createBlock_net_ok|by apply createBlock_atomic in Hrun as ->].
  - by eapply updateBlock_net_ok.
  - by eapply deleteBlock_net_ok.
  - destruct r; [by eapply createSubnet_net_ok|by apply createSubnet_atomic in Hrun as ->].
  - destruct r; [by eapply allocateNextSubnet_net_ok|by apply allocateNextSubnet_atomic in Hrun as ->].
  - by eapply updateSubnet_net_ok.
  - pose proof (deleteSubnet_spec id s (no_db _ Hok)) as Hsp. rewrite Hrun in Hsp.
    destruct r as [[x gone]|e]; [|by destruct Hsp as [-> _]].
    destruct Hsp as (Hdb & _ & _ & Hb & _ & _ & Hs & _).
    apply (net_ok_mono s); try done; unfold block_rows; rewrite ?Hb.
    + intros b ?. by exists b.
    + intros y [Hy _]%Hs. by exists y.
    + intros b y ? ? ?. by exists b.
Qed.

Lemma require_block_found id s b :
  db_ok s → b ∈ block_rows s → b_id b = id → require_block id s = (s, Ok b).
Proof.
  intros Hdb Hb Hid. unfold require_block, findBlockById, findBlock, hbind, hgets.
  rewrite (find_has_id (block_rows s) id b); [done|apply Hdb|done|done].
Qed.

(** A request that [createSubnet] refuses although it is a well-formed CIDR of
    at most /30 inside the block hits a sibling. *)
Lemma createSubnet_rejects input s s' e b n p :
  net_ok s → createSubnet input s = (s', Throw e) →
  b ∈ block_rows s → b_id b = cs_blockId input →
  is_addr n → is_prefix p → p ≤ 30 → cs_cidr input = cidr_text n p →
  (∀ a, covers (cs_cidr input) a → covers (b_cidr b) a) →
  ∃ y a, y ∈ subnet_rows s ∧ s_blockId y = cs_blockId input ∧
         covers (s_cidr y) a ∧ covers (cs_cidr input) a.
Proof.
  intros Hok Hrun Hb Hid Hn Hp Hp30 Hc Hin.
  pose proof (denotes_text n p Hn Hp) as Hd. rewrite <-Hc in Hd.
  destruct (no_block _ Hok b Hb) as (Hver & m & P & Hdb).
  pose proof (denotes_net _ _ _ Hd) as Hdn.
  revert Hrun. unfold createSubnet, hguard, hbind, findSubnets, hgets, hlift.
  assert (isValidCidr (cs_cidr input) = true) as -> by (rewrite Hc; by apply isValidCidr_text).
  hred. rewrite (normalizeCidr_denotes _ _ _ Hd). hred.
  rewrite (require_block_found _ _ _ (no_db _ Hok) Hb Hid).
  assert (cidrContains (b_cidr b) (cidr_text (net_of n p) p) = true) as ->.
  { apply (cidrContains_spec _ _ _ _ _ _ Hdb Hdn Hp30).
    intros a. rewrite (covers_normalized _ _ _ a Hd). apply Hin. }
  rewrite detectIpVersion_text, Hver by (done || by apply net_of_addr). hred.
  rewrite (bool_decide_eq_true_2 (v4 = v4)) by done. hred.
  destruct (List.find _ _) as [y|] eqn:Hf; [|].
  - apply find_some_iff in Hf as [Hy Hov]. apply elem_of_lfilter in Hy as [Hy Hyb].
    apply bool_decide_eq_true_1 in Hyb. apply cidrOverlaps_spec in Hov as (a & Ha & Ha').
    rewrite (covers_normalized _ _ _ a Hd) in Ha'. intros _. by exists y, a.
  - match goal with |- subnet_create ?f s = _ → _ =>
      destruct (subnet_create_spec f s) as (t & id & -> & _); [done|apply Hok|done] end.
Qed.

(** The run of [allocateNextSubnet] once its guards passed. *)
Lemma allocateNextSubnet_unfold id p m s b :
  net_ok s → b ∈ block_rows s → b_id b = id → 8 ≤ p ≤ 32 →
  allocateNextSubnet id p m s =
    match findNextAvailableSubnet (b_cidr b)
            (s_cidr <$> List.filter (λ x, bool_decide (s_blockId x = id)) (subnet_rows s)) p with
    | Ok (Some c) => createSubnet (mkCreateSubnetInput id c m) s
    | Ok None => (s, Throw (AppError 409 ("No available /" +:+ pretty p +:+
                    " subnet found in block " +:+ b_cidr b)))
    | Throw e => (s, Throw e)
    end.
Proof.
  intros Hok Hb Hid Hp. unfold allocateNextSubnet, findSubnets. unfold hbind at 1.
  rewrite (require_block_found _ _ _ (no_db _ Hok) Hb Hid).
  destruct (no_block _ Hok b Hb) as [-> _].
  destruct (Z.ltb_spec p 8), (Z.ltb_spec 32 p); try lia. hred.
  rewrite (bool_decide_eq_true_2 (v4 = v4)) by done. hred.
  by destruct (findNextAvailableSubnet _ _ _) as [[|]|].
Qed.

(** C3: in every state reachable through the block and subnet handlers from
    one that satisfies the invariant, the schema's constraints hold, every
    subnet lies inside its parent block, and no two subnets of a block share
    an address, also after a handler that failed midway; the one exception is a
    run in which a bulk allocation succeeded with a template larger than its
    block, and up to the first such call the invariant holds. *)
Theorem network_invariant_reachable s s' :
  rtc net_step s s' → net_ok s →
  net_ok s' ∨ ∃ i s1 s2 res, rtc net_step s s1 ∧ net_ok s1 ∧
    oversized s1 i ∧ bulkAllocate i s1 = (s2, Ok res) ∧ rtc net_step s2 s'.
Proof.
  intros Hsteps Hok. revert s' Hsteps. apply rtc_ind_r; [by left|].
  intros s1 s' Hs1 Hst [Hok1|(i & s2 & s3 & res & ? & ? & ? & ? & ?)].
  - destruct (net_step_ok s1 s' Hst Hok1) as [?|(i & res & ? & ?)]; [by left|right]. by exists i, s1, s', res.
  - right. exists i, s2, s3, res. split_and!; [done..|by eapply rtc_r].
Qed.

(** [createSubnet] either throws and leaves the state unchanged, or adds
    exactly one row, available, in normal form, inside the parent block and
    disjoint from every sibling; and it does succeed whenever the request is
    a CIDR of at most /30 inside the block that misses every sibling. *)
Theorem createSubnet_correct input s :
  net_ok s →
  match createSubnet input s with
  | (s', Ok x) =>
      (∃ n p, denotes (cs_cidr input) n p ∧ s_cidr x = cidr_text (net_of n p) p) ∧
      s_blockId x = cs_blockId input ∧ s_status x = Available ∧
      subnet_rows s' ≡ₚ x :: subnet_rows s ∧
      ipBlocks s' = ipBlocks s ∧ reservations s' = reservations s ∧
      (∃ b, b ∈ block_rows s ∧ b_id b = cs_blockId input ∧
         ∀ a, covers (s_cidr x) a → covers (b_cidr b) a) ∧
      (∀ y a, y ∈ subnet_rows s → s_blockId y = cs_blockId input →
         covers (s_cidr y) a → ¬ covers (s_cidr x) a)
  | (s', Throw e) => s' = s ∧
      ∀ b n p, b ∈ block_rows s → b_id b = cs_blockId input →
        is_addr n → is_prefix p → p ≤ 30 → cs_cidr input = cidr_text n p →
        (∀ a, covers (cs_cidr input) a → covers (b_cidr b) a) →
        ∃ y a, y ∈ subnet_rows s ∧ s_blockId y = cs_blockId input ∧
               covers (s_cidr y) a ∧ covers (cs_cidr input) a
  end.
Proof.
  intros Hok. destruct (createSubnet input s) as [s' [x|e]] eqn:Hrun.
  - destruct (createSubnet_ok _ _ _ _ (no_db _ Hok) Hrun)
      as (b & n & p & t & Hb & Hid & Hd & Hc & Hbl & Hst & Hcon & Hov & -> & Hdb & Hp & Hfr).
    split_and!; try done; [by eauto| |].
    + exists b. split_and!; try done. by apply cidrContains_true.
    + intros y a Hy Hyb Hya Hxa. specialize (Hov y Hy Hyb).
      apply not_true_iff_false in Hov. apply Hov, cidrOverlaps_spec. eauto.
  - split; [by apply createSubnet_atomic in Hrun|].
    intros b n p Hb Hid Hn Hp Hp30 Hc Hin.
    by eapply createSubnet_rejects.
Qed.

(** On an IPv4 block of at most /30 and a prefix from /8 to /30,
    [allocateNextSubnet] creates the lowest free aligned block, or throws 409
    without effect exactly when every aligned block of that size inside the
    parent touches an existing subnet. *)
Theorem allocateNextSubnet_first_fit id p m s b n P :
  net_ok s → b ∈ block_rows s → b_id b = id → denotes (b_cidr b) n P → P ≤ 30 →
  8 ≤ p ≤ 30 →
  match allocateNextSubnet id p m s with
  | (s', Ok x) => ∃ c, s_cidr x = cidr_text c p ∧ (blk_size p | c) ∧ s_blockId x = id ∧
      subnet_rows s' ≡ₚ x :: subnet_rows s ∧
      (∀ a, covers (s_cidr x) a → covers (b_cidr b) a) ∧
      (∀ y a, y ∈ subnet_rows s → s_blockId y = id → covers (s_cidr y) a → ¬ covers (s_cidr x) a) ∧
      (∀ d, (blk_size p | d) → net_of n P ≤ d < c →
         ∃ y a, y ∈ subnet_rows s ∧ s_blockId y = id ∧ covers (s_cidr y) a ∧
                d ≤ a < d + blk_size p)
  | (s', Throw e) => s' = s ∧ (∃ msg, e = AppError 409 msg) ∧
      ∀ d, (blk_size p | d) → net_of n P ≤ d → d + blk_size p - 1 ≤ last_of n P →
        ∃ y a, y ∈ subnet_rows s ∧ s_blockId y = id ∧ covers (s_cidr y) a ∧
               d ≤ a < d + blk_size p
  end.
Proof.
  intros Hok Hb Hid Hd HP Hp.
  assert (is_prefix p) as Hpre by (unfold is_prefix; lia).
  rewrite (allocateNextSubnet_unfold id p m s b Hok Hb Hid) by lia.
  set (sib := List.filter (λ x, bool_decide (s_blockId x = id)) (subnet_rows s)).
  assert (∀ c, c ∈ s_cidr <$> sib ↔ ∃ y, y ∈ subnet_rows s ∧ s_blockId y = id ∧ c = s_cidr y)
    as Hsib.
  { intros c. rewrite list_elem_of_fmap. split.
    - intros (y & -> & [Hy ?%bool_decide_eq_true_1]%elem_of_lfilter). eauto.
    - intros (y & Hy & Hyb & ->). exists y. split; [done|]. apply elem_of_lfilter.
      split; [done|by apply bool_decide_eq_true_2]. }
  destruct (findNextAvailableSubnet_spec (b_cidr b) (s_cidr <$> sib) n P p Hd HP Hpre)
    as (r & -> & Hr).
  destruct r as [t|]; hred.
  2:{ split_and!; [done|by eexists|]. intros d Hd1 Hd2 Hd3.
      destruct (Hr d Hd1 Hd2 Hd3) as (? & a & (y & ? & ? & ->)%Hsib & ? & ?). eauto 10. }
  destruct Hr as (c & -> & Hdc & Hal & Hin & Hfree & Hleast).
  pose proof Hdc as (cb & _ & [Hc _ _ _ _ _ _]).
  destruct (createSubnet (mkCreateSubnetInput id (cidr_text c p) m) s) as [s' [x|e]] eqn:Hrun.
  - destruct (createSubnet_ok _ _ _ _ (no_db _ Hok) Hrun)
      as (b' & n' & p' & tt & Hb' & Hid' & Hd' & Hcid & Hbl & _ & _ & _ & -> & _ & Hrows & _).
    assert (s_cidr x = cidr_text c p) as Hcx.
    { rewrite Hcid. destruct Hd' as (k & Hk & Hk'), Hdc as (k2 & Hk2 & Hk2'). simpl in Hk.
      simplify_eq. destruct (is_block_det _ _ _ _ _ Hk' Hk2') as [-> ->].
      by rewrite (net_of_aligned c p) by (done || apply Hpre). }
    exists c. rewrite Hcx. split_and!; try done.
    + intros y a Hy Hyb. apply Hfree. apply Hsib. eauto.
    + intros d Hd1 Hd2. destruct (Hleast d Hd1 Hd2) as (? & a & (y & ? & ? & ->)%Hsib & ? & ?).
      eauto 10.
  - exfalso. destruct (createSubnet_rejects _ _ _ _ b c p Hok Hrun) as (y & a & Hy & Hyb & Ha & Ha');
      try done; [lia|]. apply (Hfree (s_cidr y) a); [apply Hsib; eauto|done..].
Qed.

(** With a [netmask] package that leaves [broadcast] undefined from /31
    on, no /31 or /32 can ever be allocated, although the handler's own guard
    admits prefixes up to 32: every run throws and leaves the state alone. *)
Theorem allocateNextSubnet_rejects_31_32 id p m s :
  (∀ t k, new_Netmask t = Some k → 31 ≤ bitmask k → broadcast k = None) →
  p = 31 ∨ p = 32 → ∃ e, allocateNextSubnet id p m s = (s, Throw e).
Proof.
  intros Hnb Hp. destruct (allocateNextSubnet id p m s) as [s' [x|e]] eqn:Hrun.
  2:{ apply allocateNextSubnet_atomic in Hrun as ->. by exists e. }
  exfalso. unfold allocateNextSubnet, findSubnets in Hrun. hinv.
  destruct a3 as [t|]; [|discriminate].
  apply findNextAvailableSubnet_prefix in Hr as (c & k & Ht & Hk); [|unfold is_prefix; lia].
  unfold createSubnet in Hrun. hinv. simpl in Hr.
  rewrite (normalizeCidr_denotes t c p) in Hr by (by exists k). simplify_eq.
  destruct (denotes_net t c p) as (k' & Hk' & Hkb'); [by exists k|].
  rewrite (cidrContains_no_broadcast _ _ _ Hk') in Hg2; [done|]. eapply Hnb; [done|].
  rewrite (ib_bitmask _ _ _ Hkb'). lia.
Qed.

(** [deleteSubnet] refuses with the state unchanged when the subnet is
    missing or has an active reservation; otherwise it removes that subnet and
    exactly its reservations, none of them active, and returns them. *)
Theorem deleteSubnet_correct id s :
  db_ok s →
  match deleteSubnet id s with
  | (s', Ok (x, gone)) => db_ok s' ∧ x ∈ subnet_rows s ∧ s_id x = id ∧
      ipBlocks s' = ipBlocks s ∧
      (∀ r, r ∈ gone ↔ r ∈ reservation_rows s ∧ r_subnetId r = id) ∧
      (∀ r, r ∈ gone → r_status r ≠ Active) ∧
      (∀ y, y ∈ subnet_rows s' ↔ y ∈ subnet_rows s ∧ s_id y ≠ id) ∧
      (∀ r, r ∈ reservation_rows s' ↔ r ∈ reservation_rows s ∧ r_subnetId r ≠ id)
  | (s', Throw e) => s' = s ∧
      (id ∉ s_id <$> subnet_rows s ∨
       ∃ r, r ∈ reservation_rows s ∧ r_subnetId r = id ∧ r_status r = Active)
  end.
Proof. apply deleteSubnet_spec. Qed.

(** C4: [bulkAllocate] is all or nothing.  When it throws, the tables are as
    before.  When it returns, it has added exactly one subnet per non-skip entry to
    the block, named after the site, in the template's order, none sharing an
    address with a subnet the block had before.  If the template is no larger than
    the block they are also aligned, inside the block and disjoint from each
    other, so the invariant of the networks holds again. *)
Theorem bulkAllocate_all_or_nothing input s s' r :
  net_ok s → bulkAllocate input s = (s', r) →
  match r with
  | Throw _ => same_tables s s'
  | Ok res => ∃ b l, b ∈ block_rows s ∧ b_id b = ba_blockId input ∧ l.*1 = ba_entries input ∧
      Forall2 (λ o a, o.1.2 = subnet_name (Js.trim (ba_prefix input)) a.1 ∧ normalizeCidr a.2 = Ok o.2)
        (br_created res) (wanted l) ∧
      ipBlocks s' = ipBlocks s ∧ reservations s' = reservations s ∧
      subnet_rows s' ≡ₚ subnet_rows s ++
        bulk_rows (ba_blockId input) (default [] (ba_tags input)) (ba_createdBy input) (br_created res) l ∧
      (∀ o y a, o ∈ br_created res → y ∈ subnet_rows s → s_blockId y = ba_blockId input →
         covers (s_cidr y) a → ¬ covers o.2 a) ∧
      (template_fits s input → net_ok s' ∧ ∃ l', l'.*1 = ba_entries input ∧ placed_in s b l' ∧
         (λ o, (o.1.2, o.2)) <$> br_created res =
           (λ a, (subnet_name (Js.trim (ba_prefix input)) (fst a), snd a)) <$> wanted l')
  end.
Proof.
  intros Hok Hrun. destruct r as [res|]; [|by eapply bulkAllocate_throw].
  destruct (bulkAllocate_made _ _ _ _ Hok Hrun) as (b & l & Hb & Hid & Hl & Hall & Hbl & Hre & Hrows & Hfree).
  exists b, l. split_and!; try done. intros Hfit.
  destruct (bulkAllocate_ok _ _ _ _ Hok Hfit Hrun) as (Hok' & b' & l' & Hb' & Hid' & Hl' & Hpl & Hn & _).
  split; [done|]. exists l'. split_and!; [done| |done]. assert (b' = b) as <-; [|done].
  apply (block_unique s); try done. congruence.
Qed.

Lemma footprint_valid acc l :
  Forall (λ e, bad_prefix (be_prefixLength e) = false) l → is_Some (footprint acc l).
Proof. intros Hl. revert acc. induction Hl as [|e l He _ IH]; intros acc; simpl; [done|by rewrite He]. Qed.

Lemma check_entries_valid (l : list BulkAllocateEntry) s s' u :
  hforeach l check_entry s = (s', Ok u) →
  Forall (λ e, bad_prefix (be_prefixLength e) = false) l.
Proof.
  intros Hrun. apply hforeach_ok in Hrun as [-> Hall]; [|apply readonly_check_entry].
  apply Forall_forall. intros e He. specialize (Hall e He). unfold check_entry in Hall. by hinv.
Qed.

(** The preview tells the truth: when [bulkAllocate] succeeds, the
    preview of the same request, run just before, changes nothing, reports
    that the template fits, and lists exactly the CIDRs that are created for
    the non-skip entries and the anchor they are placed in. *)
Theorem previewBulkAllocate_agrees input s s' res :
  net_ok s → template_fits s input → bulkAllocate input s = (s', Ok res) →
  ∃ pv, previewBulkAllocate (ba_blockId input) (ba_entries input) (ba_anchorPrefix input) s
          = (s, Ok pv) ∧
    fits pv = true ∧ pv_anchorCidr pv = Some (br_anchorCidr res) ∧
    pr_cidr <$> List.filter (λ r, negb (pr_skip r)) (pv_assignments pv) =
      (λ o, Some o.2) <$> br_created res.
Proof.
  intros Hok Hfit Hrun. unfold bulkAllocate, findSubnets in Hrun. hinv.
  pose proof (check_entries_valid _ _ _ _ Hm2) as Hval.
  apply check_entries_ok in Hm2 as [-> Hpre].
  apply require_block_ok in Hm4 as (-> & Hb & Hid).
  pose proof Hg1 as Hanchor. apply bad_prefix_false in Hg1.
  unfold transaction in Hrun. case_match eqn:Htx. destruct r as [r|]; [|discriminate].
  injection Hrun as -> ->. hinv. destruct a7 as [pk|]; [|discriminate]. hinv.
  apply hforeach_ok in Hm as [-> _]; [|apply readonly_check_assignment].
  destruct (no_block _ Hok _ Hb) as (Hv4 & n & P & Hd).
  pose proof Hg2 as Hne. rewrite bool_decide_eq_false in Hne.
  pose proof Hr as Hpk. rewrite <-Hid in Hr, Hm0.
  destruct (packed_placed_in _ a4 input _ pk n P Hok Hb Hd Hg1 Hne Hpre) as [Hent Hpl];
    [by eapply Hfit|done|].
  match type of Hm0 with create_assignments _ ?pr ?tg ?by_ _ _ = _ =>
    destruct (create_assignments_spec a4 pr tg by_ (assignments pk) _ Hok Hb Hpl)
      as (s1 & out & Hrun & _ & Hnames & _) end.
  rewrite Hrun in Hm0. injection Hm0 as -> ->.
  destruct (footprint_valid 0 (ba_entries input) Hval) as [tot Htot].
  unfold previewBulkAllocate, findSubnets. rewrite Hanchor. hred. unfold hbind at 1.
  rewrite (require_block_found _ _ _ (no_db _ Hok) Hb Hid), Htot, Hv4, Hg2.
  rewrite (bool_decide_eq_true_2 (v4 = v4)) by done. hred. rewrite Hpk. hred.
  eexists. split_and!; [done..|]. simpl.
  apply (f_equal (fmap (λ o, Some (snd o)))) in Hnames. rewrite <-!list_fmap_compose in Hnames.
  etrans; [|symmetry; exact Hnames]. unfold wanted. clear.
  induction (assignments pk) as [|[e c] l IH]; [done|]. simpl.
  destruct (is_skip e); simpl; [done|]. by f_equal.
Qed.
End net_claims.

(** ** Concrete runs *)

Section net_witnesses.
#[local] Existing Instances RefNetmask.lib ListStore.store.

Definition block10 : IpBlock := mkIpBlock "b1" "blk" "10.0.0.0/24" v4 None [].
Definition net_ex : State unit := mkState [block10] [] [] [] [] tt [].
Definition meta_ex : SubnetMeta := mkSubnetMeta "lan" None None None None.
Definition entry_ex (name : string) (p : Z) : BulkAllocateEntry :=
  mkBulkAllocateEntry None (Some name) (JInt p) None.
Definition bulk_ex (l : list BulkAllocateEntry) : BulkAllocateInput :=
  mkBulkAllocateInput "b1" "site" l None (Some (JInt 24)) None.

Definition tmpl_ex : list BulkAllocateEntry := [entry_ex "lan" 26; entry_ex "dmz" 27].

Lemma net_ex_ok : net_ok net_ex.
Proof.
  split.
  - split_and!; repeat constructor; set_solver.
  - intros b Hb%list_elem_of_singleton. subst. split; [done|]. exists net10, 24. apply denotes_net10.
  - set_solver.
  - set_solver.
Qed.

Lemma net_ex_fits l :
  totalSpan (packTemplateEntries entry_prefix l) ≤ 256 → template_fits net_ex (bulk_ex l).
Proof.
  intros Hl b n P Hb%list_elem_of_singleton _ Hd. subst.
  destruct Hd as (k & Hk & Hkb), denotes_net10 as (k' & Hk' & Hkb').
  change (b_cidr block10) with "10.0.0.0/24"%string in Hk. rewrite Hk in Hk'. injection Hk' as <-.
  destruct (is_block_det _ _ _ _ _ Hkb Hkb') as [-> _]. exact Hl.
Qed.

Lemma network_invariant_reachable_witness :
  ∃ s', rtc net_step net_ex s' ∧ length (subnet_rows s') = 1%nat ∧
    (net_ok s' ∨ ∃ i s1 s2 res, rtc net_step net_ex s1 ∧ net_ok s1 ∧ oversized s1 i ∧
       bulkAllocate i s1 = (s2, Ok res) ∧ rtc net_step s2 s').
Proof.
  exists (createSubnet (mkCreateSubnetInput "b1" "10.0.0.0/26" meta_ex) net_ex).1.
  assert (rtc net_step net_ex
    (createSubnet (mkCreateSubnetInput "b1" "10.0.0.0/26" meta_ex) net_ex).1) as Hr.
  { eapply rtc_once, st_createSubnet. apply surjective_pairing. }
  split; [exact Hr|]. split; [vm_compute; reflexivity|].
  exact (network_invariant_reachable _ _ Hr net_ex_ok).
Defined.

Lemma createSubnet_correct_witness :
  ∃ x, (createSubnet (mkCreateSubnetInput "b1" "10.0.0.77/26" meta_ex) net_ex).2 = Ok x ∧
    s_cidr x = "10.0.0.64/26"%string ∧ s_status x = Available.
Proof.
  pose proof (createSubnet_correct (mkCreateSubnetInput "b1" "10.0.0.77/26" meta_ex) net_ex net_ex_ok)
    as Hc.
  assert (∃ x, (createSubnet (mkCreateSubnetInput "b1" "10.0.0.77/26" meta_ex) net_ex).2 = Ok x ∧
    s_cidr x = "10.0.0.64/26"%string) as (x & Hx & Hcid) by (eexists; split; vm_compute; reflexivity).
  exists x. split; [exact Hx|]. split; [exact Hcid|].
  destruct (createSubnet _ net_ex) as [s' r]. simpl in Hx. subst r. apply Hc.
Defined.

Lemma allocateNextSubnet_first_fit_witness :
  ∃ x c, (allocateNextSubnet "b1" 26 meta_ex net_ex).2 = Ok x ∧
    s_cidr x = "10.0.0.0/26"%string ∧ s_cidr x = cidr_text c 26 ∧ (blk_size 26 | c).
Proof.
  pose proof (allocateNextSubnet_first_fit "b1" 26 meta_ex net_ex block10 net10 24 net_ex_ok
    (list_elem_of_here _ _) eq_refl denotes_net10 ltac:(lia) ltac:(lia)) as Hc.
  assert (∃ x, (allocateNextSubnet "b1" 26 meta_ex net_ex).2 = Ok x ∧
    s_cidr x = "10.0.0.0/26"%string) as (x & Hx & Hcid) by (eexists; split; vm_compute; reflexivity).
  destruct (allocateNextSubnet "b1" 26 meta_ex net_ex) as [s' r]. simpl in Hx. subst r.
  destruct Hc as (c & Hc1 & Hc2 & _). exists x, c. split_and!; [reflexivity|exact Hcid|exact Hc1|exact Hc2].
Defined.

Lemma allocateNextSubnet_rejects_31_32_witness :
  ∃ e, allocateNextSubnet "b1" 31 meta_ex net_ex = (net_ex, Throw e).
Proof.
  apply allocateNextSubnet_rejects_31_32; [|by left].
  intros t k Hk Hle. exact (RefNetmask.no_broadcast t k Hk Hle).
Defined.

Lemma deleteSubnet_correct_witness :
  let s := (createSubnet (mkCreateSubnetInput "b1" "10.0.0.0/26" meta_ex) net_ex).1 in
  ∃ x, (deleteSubnet (ListTable.fresh_id (R := Subnet) []) s).2 = Ok (x, []) ∧
    s_cidr x = "10.0.0.0/26"%string ∧
    x ∉ subnet_rows (deleteSubnet (ListTable.fresh_id (R := Subnet) []) s).1.
Proof.
  intros s. set (i := ListTable.fresh_id (R := Subnet) []).
  assert (db_ok s) as Hdb.
  { apply no_db. unfold s. destruct (createSubnet _ net_ex) as [s1 [x|e]] eqn:Hrun.
    - exact (createSubnet_net_ok _ _ _ _ net_ex_ok Hrun).
    - apply createSubnet_atomic in Hrun as ->. exact net_ex_ok. }
  pose proof (deleteSubnet_correct i s Hdb) as Hc.
  assert (∃ x, (deleteSubnet i s).2 = Ok (x, []) ∧ s_cidr x = "10.0.0.0/26"%string)
    as (x & Hx & Hcid) by (eexists; split; vm_compute; reflexivity).
  exists x. split; [exact Hx|]. split; [exact Hcid|].
  destruct (deleteSubnet i s) as [s' r]. simpl in Hx. subst r. simpl.
  destruct Hc as (_ & _ & Hid & _ & _ & _ & Hrows & _). intros Hin.
  by apply Hrows in Hin as [_ ?].
Defined.

Lemma bulkAllocate_all_or_nothing_witness :
  ∃ res, (bulkAllocate (bulk_ex tmpl_ex) net_ex).2 = Ok res ∧
    (λ o, (o.1.2, o.2)) <$> br_created res =
      [("site_lan", "10.0.0.0/26"); ("site_dmz", "10.0.0.64/27")]%string ∧
    net_ok (bulkAllocate (bulk_ex tmpl_ex) net_ex).1.
Proof.
  pose proof (bulkAllocate_all_or_nothing (bulk_ex tmpl_ex) net_ex
    _ _ net_ex_ok (surjective_pairing _)) as Hc.
  assert (∃ res, (bulkAllocate (bulk_ex tmpl_ex) net_ex).2 = Ok res ∧
    (λ o, (o.1.2, o.2)) <$> br_created res =
      [("site_lan", "10.0.0.0/26"); ("site_dmz", "10.0.0.64/27")]%string)
    as (res & Hres & Hcr) by (eexists; split; vm_compute; reflexivity).
  exists res. split; [exact Hres|]. split; [exact Hcr|].
  rewrite Hres in Hc. destruct Hc as (b & l & _ & _ & _ & _ & _ & _ & _ & _ & Hfit).
  exact (proj1 (Hfit (net_ex_fits tmpl_ex ltac:(vm_compute; discriminate)))).
Defined.

Lemma previewBulkAllocate_agrees_witness :
  ∃ pv, previewBulkAllocate "b1" tmpl_ex (Some (JInt 24)) net_ex
          = (net_ex, Ok pv) ∧ fits pv = true ∧ pv_anchorCidr pv = Some "10.0.0.0/24"%string.
Proof.
  assert (∃ res, (bulkAllocate (bulk_ex tmpl_ex) net_ex).2 = Ok res ∧
    br_anchorCidr res = "10.0.0.0/24"%string)
    as (res & Hres & Hcr) by (eexists; split; vm_compute; reflexivity).
  destruct (bulkAllocate (bulk_ex tmpl_ex) net_ex)
    as [s' r] eqn:Hrun. simpl in Hres. subst r.
  destruct (previewBulkAllocate_agrees (bulk_ex tmpl_ex) net_ex
    s' _ net_ex_ok (net_ex_fits tmpl_ex ltac:(vm_compute; discriminate)) Hrun) as (pv & Hp & Hf & Ha & _).
  exists pv. split; [exact Hp|]. split; [exact Hf|]. rewrite Ha. by f_equal.
Defined.

(** A template larger than its block is not refused: two /24 entries
    in a /24 block produce the block itself and its neighbour, a subnet that
    shares no address with the parent block (the comment of [packIntoAnchor]
    says the clamped anchor guarantees that all entries fit). *)
Theorem bulkAllocate_escapes_block :
  let out := bulkAllocate (bulk_ex [entry_ex "a" 24; entry_ex "b" 24]) net_ex in
  is_ok out.2 = true ∧
  ∃ x, x ∈ subnet_rows out.1 ∧ s_blockId x = b_id block10 ∧ s_cidr x = "10.0.1.0/24"%string ∧
    ∀ a, covers (s_cidr x) a → ¬ covers (b_cidr block10) a.
Proof.
  intros out. split; [vm_compute; reflexivity|].
  assert (∃ x y, subnet_rows out.1 = [y; x] ∧ s_blockId x = b_id block10 ∧
    s_cidr x = "10.0.1.0/24"%string) as (x & y & Hrows & Hid & Hc)
    by (eexists _, _; split_and!; vm_compute; reflexivity).
  exists x. rewrite Hrows, Hc. split_and!; [right; left|done|done|]. intros a.
  change "10.0.1.0/24"%string with (cidr_text (net10 + 256) 24).
  rewrite (denotes_covers _ (net10 + 256) 24)
    by (apply denotes_text; [by apply is_addr_dec|unfold is_prefix; lia]).
  rewrite (denotes_covers _ _ _ _ denotes_net10).
  change (net_of (net10 + 256) 24) with (net10 + 256). change (last_of net10 24) with (net10 + 255).
  lia.
Qed.
End net_witnesses.
