(* ===== verification/Http.v ===== *)
(** * The device transports

    [fgRequest] of [src/src/services/fortigateService.ts], and [rpcInner],
    [fmgProxyRest] and [resolveDeviceMgmtIpViaFmg] of
    [src/src/services/fortimanagerService.ts]: the two ways the services reach
    a FortiGate, down to [fetch], with the status codes they turn into errors
    and the process-wide TLS switch they flip around a request. *)

From S2P Require Import Prelude Cidr Store.

(** ** JSON values *)

Inductive Json :=
  | JNull
  | JBool (b : bool)
  | JNum (z : Z)
  | JStr (s : string)
  | JArr (l : list Json)
  | JObj (fields : list (string * Json)).

Fixpoint assoc (k : string) (l : list (string * Json)) : option Json :=
  match l with
  | [] => None
  | (k', v) :: l' => if String.eqb k k' then Some v else assoc k l'
  end.

(** [v?.key] and [v?.[0]]; [undefined] is [None]. *)
Definition jget (k : string) (v : option Json) : option Json :=
  match v with Some (JObj l) => assoc k l | _ => None end.
Definition jhead (v : option Json) : option Json :=
  match v with Some (JArr (x :: _)) => Some x | _ => None end.

(** [a ?? b] *)
Definition jor (a b : option Json) : option Json :=
  match a with None | Some JNull => b | _ => a end.

(** [!!v] *)
Definition jtruthy (v : option Json) : bool :=
  match v with
  | None | Some JNull => false
  | Some (JBool b) => b
  | Some (JNum z) => negb (z =? 0)
  | Some (JStr s) => Js.truthy s
  | Some (JArr _ | JObj _) => true
  end.

(** Template-literal conversion of a value. *)
Fixpoint jshow (v : Json) : string :=
  match v with
  | JNull => "null"
  | JBool b => if b then "true" else "false"
  | JNum z => pretty z
  | JStr s => s
  | JArr l => Js.join "," (List.map (λ x, match x with JNull => EmptyString | _ => jshow x end) l)
  | JObj _ => "[object Object]"
  end.

(** A field at its declared type; a value of another type reads as absent. *)
Definition jstring (v : option Json) : option string :=
  match v with Some (JStr s) => Some s | _ => None end.
Definition jnumber (v : option Json) : option Z :=
  match v with Some (JNum z) => Some z | _ => None end.
(** [Array.isArray(v) ? v : []] *)
Definition jarray (v : option Json) : list Json :=
  match v with Some (JArr l) => l | _ => [] end.

(** ** Requests *)

Inductive Method := GET | POST | PUT | DELETE.

Definition method_lower (m : Method) : string :=
  match m with GET => "get" | POST => "post" | PUT => "put" | DELETE => "delete" end.

(** [method === "POST" || method === "PUT"] *)
Definition has_body (m : Method) : bool :=
  match m with POST | PUT => true | _ => false end.

Record HttpRequest := mkHttpRequest {
  hr_url : string;
  hr_method : Method;
  hr_bearer : string;
  hr_user : option string;
  hr_body : option Json;
}.

(** [res.status] and what [await res.json()] gives, if it parses. *)
Record HttpResponse := mkHttpResponse {
  res_status : Z;
  res_json : option Json;
}.

Record FortiGateConfig := mkFortiGateConfig {
  fg_host : string;
  fg_port : option Z;
  fg_apiUser : option string;
  fg_apiToken : string;
  fg_vdom : string;
  fg_verifySsl : option bool;
}.

(** The world outside the process: the network, the clock, and the one process
    variable the transports write ([NODE_TLS_REJECT_UNAUTHORIZED]). *)
Class Net (W : Type) := {
  fetch : HttpRequest → M W HttpResponse;
  now : W → Z;
  tls_env : W → option string;
  set_tls_env : option string → W → W;
}.

(** ** URL encoding *)

Definition hex_digit (n : nat) : ascii :=
  Ascii.ascii_of_nat (if (n <? 10)%nat then 48 + n else 55 + n).

Definition percent (c : ascii) : string :=
  let n := Ascii.nat_of_ascii c in
  String "%" (String (hex_digit (n / 16)) (String (hex_digit (n mod 16)) "")).

Definition is_alnum (c : ascii) : bool :=
  let n := Ascii.nat_of_ascii c in
  Js.is_digit c || ((65 <=? n) && (n <=? 90))%nat || ((97 <=? n) && (n <=? 122))%nat.

Definition one_of (set : string) (c : ascii) : bool := negb (Js.sforallb (λ d, negb (Ascii.eqb c d)) set).

Fixpoint encode_with (f : ascii → string) (s : string) : string :=
  match s with
  | "" => ""
  | String c s' => f c +:+ encode_with f s'
  end.

Definition encodeURIComponent : string → string :=
  encode_with (λ c, if is_alnum c || one_of "-_.!~*'()" c then String c "" else percent c).

(** [new URLSearchParams({ k: v }).toString()] *)
Definition form_encode : string → string :=
  encode_with (λ c, if is_alnum c || one_of "*-._" c then String c ""
                    else if Ascii.eqb c " " then "+" else percent c).
Definition query_string (q : list (string * string)) : string :=
  Js.join "&" ((λ kv, form_encode kv.1 +:+ "=" +:+ form_encode kv.2) <$> q).

(** [config.port || 443] *)
Definition port_or_443 (p : option Z) : Z :=
  match p with Some z => if z =? 0 then 443 else z | None => 443 end.

Definition auth_failed : exn := AppError 502 "Authentication failed — check your API token".

Definition res_ok (s : Z) : bool := (200 <=? s) && (s <=? 299).

Section transport.
Context `{Net W}.

(** The [try { ... } finally { ... }] around a request: with certificate
    checks disabled, the switch is set before and put back after. *)
Definition tls_enter (verifySsl : option bool) (w : W) : W :=
  if bool_decide (verifySsl = Some false) then set_tls_env (Some "0") w else w.
Definition tls_exit (verifySsl : option bool) (prevTls : option string) (w : W) : W :=
  if bool_decide (verifySsl = Some false) then set_tls_env prevTls w else w.

Definition with_tls {A} (verifySsl : option bool) (m : M W A) : M W A := λ w,
  let prevTls := tls_env w in
  let '(w', r) := m (tls_enter verifySsl w) in
  (tls_exit verifySsl prevTls w', r).

(** [(await res.json()) as any] *)
Definition read_json (res : HttpResponse) : M W Json :=
  match res_json res with
  | Some j => hret j
  | None => hthrow (JsError "Unexpected token in JSON")
  end.

(** [access_user] is only sent when set. *)
Definition user_header (u : option string) : option string := if Js.otruthy u then u else None.

Definition fg_url (config : FortiGateConfig) (path : string) (query : list (string * string)) : string :=
  "https://" +:+ fg_host config +:+ ":" +:+ pretty (port_or_443 (fg_port config)) +:+ path +:+
  (if Js.truthy (query_string query)
   then (if Js.includes "?" path then "&" else "?") +:+ query_string query else "").

(** What [fgRequest] makes of an answer. *)
Definition fg_answer (path : string) (res : HttpResponse) : M W Json :=
  throw_if (bool_decide (res_status res = 401) || bool_decide (res_status res = 403)) auth_failed ;!
  throw_if (bool_decide (res_status res = 404)) (AppError 404 ("Endpoint not found: " +:+ path)) ;!
  throw_if (negb (res_ok (res_status res)))
    (AppError 502 ("FortiGate returned HTTP " +:+ pretty (res_status res))) ;!
  let! body := read_json res in
  throw_if (jtruthy (Some body) && bool_decide (jstring (jget "status" (Some body)) = Some "error"%string))
    (AppError 502 ("FortiGate error (" +:+
       jshow (default (JStr "unknown") (jor (jget "error" (Some body)) None)) +:+ "): " +:+
       jshow (default (JStr path) (jor (jget "message" (Some body)) None)))) ;!
  hret (default body (jor (jget "results" (Some body)) None)).

Definition fg_http (config : FortiGateConfig) (method : Method) (path : string)
    (query : list (string * string)) (body : option Json) : HttpRequest :=
  mkHttpRequest (fg_url config path query) method (fg_apiToken config)
    (user_header (fg_apiUser config)) (if has_body method then body else None).

Definition fgRequest (config : FortiGateConfig) (method : Method) (path : string)
    (query : list (string * string)) (body : option Json) : M W Json :=
  with_tls (fg_verifySsl config) (
    let! res := fetch (fg_http config method path query body) in
    fg_answer path res).

(** One JSON-RPC round trip.  [rpc] hands it to the per-integration worker,
    which decides when it runs, not what it does. *)
Definition rpcInner (url : string) (payload : Json) (apiUser : option string) (apiToken : string)
    (verifySsl : option bool) : M W Json :=
  with_tls verifySsl (
    let! res := fetch (mkHttpRequest url POST apiToken (user_header apiUser) (Some payload)) in
    throw_if (bool_decide (res_status res = 401) || bool_decide (res_status res = 403)) auth_failed ;!
    throw_if (negb (res_ok (res_status res)))
      (AppError 502 ("FortiManager returned HTTP " +:+ pretty (res_status res))) ;!
    read_json res).

Definition fmg_url (config : IntegrationConfig) : string :=
  "https://" +:+ default "undefined" (cfg_host config) +:+ ":" +:+
  pretty (port_or_443 (cfg_port config)) +:+ "/jsonrpc".

Definition rpc (config : IntegrationConfig) (payload : Json) : M W Json :=
  rpcInner (fmg_url config) payload (cfg_apiUser config)
    (default "undefined" (cfg_apiToken config)) (cfg_verifySsl config).

Definition proxy_payload (adom deviceName : string) (method : Method) (resource : string)
    (body : option Json) : Json :=
  JObj [("id", JNum 1); ("method", JStr "exec");
        ("params", JArr [JObj [("url", JStr "/sys/proxy/json");
           ("data", JObj ([("target", JArr [JStr ("/adom/" +:+ adom +:+ "/device/" +:+ deviceName)]);
                           ("action", JStr (method_lower method)); ("resource", JStr resource)] ++
                          match body with
                          | Some b => if has_body method then [("payload", b)] else []
                          | None => []
                          end))]])].

(** [httpStatus < 200 || httpStatus >= 300]; a value that is not a number
    compares false both ways. *)
Definition http_out_of_range (v : option Json) : bool :=
  match v with Some (JNum z) => (z <? 200) || (300 <=? z) | _ => false end.

(** First truthy of the candidates, as text. *)
Fixpoint first_truthy (l : list (option Json)) (d : string) : string :=
  match l with
  | [] => d
  | v :: l' => if jtruthy v then default d (jshow <$> v) else first_truthy l' d
  end.

Definition proxy_result (res : Json) : result Json :=
  let r0 := jhead (jget "result" (Some res)) in
  let fmgCode := jget "code" (jget "status" r0) in
  if negb (bool_decide (jnumber fmgCode = Some 0)) then
    if bool_decide (jnumber fmgCode = Some (-11))
    then Throw (AppError 502 "FortiManager: invalid or expired API token")
    else Throw (AppError 502 ("FortiManager proxy error: " +:+
           first_truthy [jget "message" (jget "status" r0)] "FortiManager rejected the request"))
  else
    let proxyData := jget "data" r0 in
    let entry := match proxyData with Some (JArr l) => hd_error l | d => d end in
    match entry with
    | None => Throw (AppError 502 "FortiManager proxy returned no response payload")
    | Some e =>
        if negb (jtruthy (Some e))
        then Throw (AppError 502 "FortiManager proxy returned no response payload")
        else
          let response := jget "response" (Some e) in
          let httpStatus := jor (jget "code" (jget "status" (Some e)))
            (jor (jget "http_status" (Some e)) (jor (jget "http_status" response) (Some (JNum 200)))) in
          if http_out_of_range httpStatus then
            Throw (AppError 502 ("FortiGate (via FMG proxy) error: " +:+
              first_truthy [jget "message" (jget "status" (Some e)); jget "error" response;
                            jget "message" response]
                ("FortiGate returned HTTP " +:+ default "undefined" (jshow <$> httpStatus))))
          else
            let inner := default e (jor response None) in
            Ok (default inner (jor (jget "results" (Some inner)) None))
    end.

Definition fmgProxyRest (config : IntegrationConfig) (deviceName : string) (method : Method)
    (resource : string) (body : option Json) : M W Json :=
  let! res := rpc config (proxy_payload (Js.oor (cfg_adom config) "root") deviceName method resource body) in
  hlift (proxy_result res).

(** ** Management address of a managed FortiGate *)

Definition _extractV4 (raw : option Json) : option string :=
  let ip := match raw with Some (JArr l) => jstring (hd_error l) | _ => jstring raw end in
  match ip with
  | Some a => if negb (Js.truthy a) || String.eqb a "0.0.0.0" || negb (ipv4Regex a) then None else Some a
  | None => None
  end.

Definition interface_query (deviceName : string) (filter : option string) : Json :=
  JObj [("id", JNum 2); ("method", JStr "get");
        ("params", JArr [JObj ([("url", JStr ("/pm/config/device/" +:+ deviceName +:+
                                           "/global/system/interface"))] ++
           match filter with
           | Some name => [("filter", JArr [JArr [JStr "name"; JStr "=="; JStr name]])]
           | None => []
           end ++ [("fields", JArr [JStr "name"; JStr "ip"])])])].

(** [list.find((i) => i.name === mgmtIfaceName)] and its address. *)
Definition interface_ip (mgmtIfaceName : string) (res : Json) : option string :=
  match List.find (λ i, bool_decide (jstring (jget "name" (Some i)) = Some mgmtIfaceName))
          (jarray (jget "data" (jhead (jget "result" (Some res))))) with
  | Some i => _extractV4 (jget "ip" (Some i))
  | None => None
  end.

Definition resolveDeviceMgmtIp (config : IntegrationConfig) (deviceName mgmtIfaceName : string)
  : M W (option string) :=
  let! fast := hcatch (let! res := rpc config (interface_query deviceName (Some mgmtIfaceName)) in
                       hret (interface_ip mgmtIfaceName res))
                 (λ _, hret None) in
  match fast with
  | Some ip => hret (Some ip)
  | None =>
      let! res := rpc config (interface_query deviceName None) in
      hret (interface_ip mgmtIfaceName res)
  end.

Definition resolveDeviceMgmtIpViaFmg (config : IntegrationConfig) (deviceName : string)
  : M W (option string) :=
  match cfg_mgmtInterface config with
  | Some i => if Js.truthy (Js.trim i) then resolveDeviceMgmtIp config deviceName (Js.trim i)
              else hret None
  | None => hret None
  end.
End transport.

(** ** Requests that overlap

    Both transports are asynchronous: another request can start between the
    moment one saves the switch and the moment it puts it back.  A request with
    certificate checks disabled is seen as its two halves. *)

Inductive TlsEvent := Enter (k : nat) | Exit (k : nat).

Class TlsLaws `{Net W} : Prop := {
  tls_env_set v w : tls_env (set_tls_env v w) = v;
}.

Section overlap.
Context `{TlsLaws W}.

(** The world, and the [prevTls] of every request in flight. *)
Definition OverlapState : Type := W * gmap nat (option string).

Definition overlap_step (e : TlsEvent) (st : OverlapState) : OverlapState :=
  match e with
  | Enter k => (tls_enter (Some false) st.1, <[k := tls_env st.1]> st.2)
  | Exit k =>
      match st.2 !! k with
      | Some prevTls => (tls_exit (Some false) prevTls st.1, delete k st.2)
      | None => st
      end
  end.

Definition overlap_run (l : list TlsEvent) (st : OverlapState) : OverlapState :=
  foldl (λ st e, overlap_step e st) st l.

(** Requests that start and finish like brackets. *)
Inductive bracketed : list TlsEvent → Prop :=
  | br_nil : bracketed []
  | br_wrap k l l' : bracketed l → bracketed l' → Enter k ∉ l →
      bracketed (Enter k :: l ++ Exit k :: l').

Lemma tls_enter_env w : tls_env (tls_enter (Some false) w) = Some "0"%string.
Proof. apply tls_env_set. Qed.
Lemma tls_exit_env p w : tls_env (tls_exit (Some false) p w) = p.
Proof. apply tls_env_set. Qed.

Lemma overlap_run_app l l' st : overlap_run (l ++ l') st = overlap_run l' (overlap_run l st).
Proof. apply foldl_app. Qed.

Lemma bracketed_keeps l st :
  bracketed l →
  tls_env (overlap_run l st).1 = tls_env st.1 ∧
  ∀ k, Enter k ∉ l → (overlap_run l st).2 !! k = st.2 !! k.
Proof.
  intros Hl. revert st. induction Hl as [|k l l' _ IH _ IH' Hk]; intros st; [done|].
  change (overlap_run (Enter k :: l ++ Exit k :: l') st)
    with (overlap_run (l ++ Exit k :: l') (overlap_step (Enter k) st)).
  rewrite overlap_run_app.
  destruct (IH (overlap_step (Enter k) st)) as [_ Hsaved].
  set (st1 := overlap_run l (overlap_step (Enter k) st)) in *.
  change (overlap_run (Exit k :: l') st1) with (overlap_run l' (overlap_step (Exit k) st1)).
  destruct (IH' (overlap_step (Exit k) st1)) as [Henv' Hsaved'].
  assert (st1.2 !! k = Some (tls_env st.1)) as Hst1.
  { rewrite (Hsaved k Hk). simpl. by rewrite lookup_insert_eq. }
  assert (overlap_step (Exit k) st1 = (tls_exit (Some false) (tls_env st.1) st1.1, delete k st1.2))
    as Hstep by (simpl; by rewrite Hst1).
  rewrite Hstep in Henv', Hsaved'. rewrite Hstep. split.
  - rewrite Henv'. apply tls_exit_env.
  - intros j Hj. rewrite not_elem_of_cons, not_elem_of_app, not_elem_of_cons in Hj.
    destruct Hj as (Hjk & Hjl & _ & Hjl').
    rewrite Hsaved' by done. simpl. rewrite lookup_delete_ne by congruence.
    rewrite Hsaved by done. simpl. by rewrite lookup_insert_ne by congruence.
Qed.

(** Saving and restoring the process-wide TLS switch is right exactly
    for requests that nest.  Over any bracketed history the switch ends as it
    began, but two requests that merely overlap leave certificate checks
    disabled for the whole process once both have finished. *)
Theorem tls_switch_overlap w :
  (∀ l, bracketed l → tls_env (overlap_run l (w, ∅)).1 = tls_env w) ∧
  (∀ a b, a ≠ b →
    overlap_run [Enter a; Enter b; Exit a; Exit b] (w, ∅) =
      (set_tls_env (Some "0"%string) (overlap_run [Enter a; Enter b; Exit a] (w, ∅)).1, ∅) ∧
    tls_env (overlap_run [Enter a; Enter b; Exit a; Exit b] (w, ∅)).1 = Some "0"%string).
Proof.
  split; [intros l Hl; by apply (bracketed_keeps l (w, ∅))|]. intros a b Hab.
  cbn [overlap_run foldl overlap_step fst snd].
  rewrite lookup_insert_ne, lookup_insert_eq by done. cbn [fst snd].
  rewrite delete_insert_ne, delete_insert_eq by done. rewrite lookup_insert_eq. cbn [fst snd].
  rewrite delete_empty, delete_insert_eq, tls_enter_env. unfold tls_exit. simpl.
  rewrite tls_env_set. done.
Qed.
End overlap.

Section http_witnesses.
(** A process with nothing but the switch. *)
Definition switch_only : Net (option string) :=
  {| fetch := λ _, hthrow (JsError "fetch failed"); now := λ _, 0;
     tls_env := id; set_tls_env := λ v _, v |}.
#[local] Existing Instance switch_only.

Lemma tls_switch_overlap_witness :
  tls_env (overlap_run [Enter 0; Enter 1; Exit 0; Exit 1] (None, ∅)).1 = Some "0"%string ∧
  tls_env (overlap_run [Enter 0; Enter 1; Exit 1; Exit 0] (None, ∅)).1 = None.
Proof.
  assert (TlsLaws (W := option string)) as Hl by (constructor; reflexivity).
  destruct (tls_switch_overlap (None : option string)) as [Hok Hbad]. split.
  - apply (Hbad 0%nat 1%nat). discriminate.
  - refine (Hok _ (br_wrap 0 [Enter 1; Exit 1] [] (br_wrap 1 [] [] br_nil br_nil _) br_nil _));
      set_solver.
Defined.
End http_witnesses.
