(* ===== verification/Push.v ===== *)
(** * Writing DHCP reservations to a FortiGate

    [src/src/services/reservationPushService.ts]: the transport chosen from an
    integration row, MAC normalisation and the device-side description, the
    DHCP scope lookup, and the four device operations (push, update, unpush,
    lease release) with the pre-checks, the read-back verification and the
    error classification that drives the retry queue. *)

From S2P Require Import Prelude Cidr Store Http.

(** ** Data *)

Record FortiOsDhcpServer := mkDhcpServer {
  ds_id : Z;
  ds_interface : option string;
  ds_default_gateway : option string;
  ds_netmask : option string;
  (** [start-ip] of every entry of [ip-range] *)
  ds_ip_range : option (list (option string));
}.

Record FortiOsReservedAddress := mkReservedAddress {
  ra_id : Z;
  ra_ip : option string;
  ra_mac : option string;
  ra_description : option string;
  ra_type : option string;
}.

Inductive Transport :=
  | DirectFortigate (fgConfig : FortiGateConfig) (vdom : string)
  | FmgProxy (fmgConfig : IntegrationConfig) (deviceName vdom integrationId : string).

Definition jfield_num (k : string) (j : Json) : Z := default 0 (jnumber (jget k (Some j))).
Definition jfield_str (k : string) (j : Json) : option string := jstring (jget k (Some j)).

(** The declared interfaces over the JSON of an answer. *)
Definition as_dhcp_server (j : Json) : FortiOsDhcpServer :=
  mkDhcpServer (jfield_num "id" j) (jfield_str "interface" j) (jfield_str "default-gateway" j)
    (jfield_str "netmask" j)
    (match jget "ip-range" (Some j) with
     | Some (JArr l) => Some (jfield_str "start-ip" <$> l)
     | _ => None
     end).
Definition as_reserved_address (j : Json) : FortiOsReservedAddress :=
  mkReservedAddress (jfield_num "id" j) (jfield_str "ip" j) (jfield_str "mac" j)
    (jfield_str "description" j) (jfield_str "type" j).

Record PushReservationParams := mkPushParams {
  pp_subnetCidr : string;
  pp_ip : string;
  pp_mac : string;
  pp_hostname : option string;
  pp_notes : option string;
  pp_createdBy : option string;
  pp_integration : Integration;
  pp_deviceName : string;
}.

Record PushReservationResult := mkPushResult {
  pr_scopeId : Z;
  pr_entryId : Z;
  pr_serverInterface : option string;
  pr_description : string;
}.

Record UpdatePushedReservationParams := mkUpdatePushParams {
  up_subnetCidr : string;
  up_ip : string;
  up_newMac : string;
  up_hostname : option string;
  up_notes : option string;
  up_createdBy : option string;
  up_scopeId : option Z;
  up_entryId : option Z;
  up_integration : Integration;
  up_deviceName : string;
}.

Record UnpushReservationResult := mkUnpushResult {
  removed : bool;
  alreadyAbsent : bool;
}.

(** ** MAC addresses *)

Definition is_lower_hex (c : ascii) : bool :=
  Js.is_digit c || (let n := Ascii.nat_of_ascii c in (97 <=? n) && (n <=? 102))%nat.

(** [mac.toLowerCase().replace(/[^0-9a-f]/g, "")] *)
Definition hex_of (mac : string) : string := Js.sfilter is_lower_hex (Js.toLowerCase mac).

(** [hex.match(/.{2}/g).join(":")] *)
Fixpoint colon_pairs (s : string) : string :=
  match s with
  | String a (String b EmptyString) => String a (String b EmptyString)
  | String a (String b s') => String a (String b (String ":" (colon_pairs s')))
  | _ => ""
  end.

Definition normalizeMac (mac : string) : string :=
  if (String.length (hex_of mac) =? 12)%nat then colon_pairs (hex_of mac) else Js.toLowerCase mac.

(** [/^([0-9a-f]{2}:){n}[0-9a-f]{2}$/] *)
Fixpoint mac_groups (n : nat) (s : string) : bool :=
  match s with
  | String a (String b rest) =>
      is_lower_hex a && is_lower_hex b &&
      match n, rest with
      | O, EmptyString => true
      | S n', String c rest' => Ascii.eqb c ":" && mac_groups n' rest'
      | _, _ => false
      end
  | _ => false
  end.
Definition isMac48 : string → bool := mac_groups 5.

(** ** The description written on the device *)

Definition buildDescription (hostname createdBy : option string) (fallback : string)
    (notes : option string) : string :=
  let trimmedNotes := Js.trim (default "" notes) in
  let trimmedHost := Js.trim (default "" hostname) in
  let fallbackBody :=
    if Js.truthy trimmedHost then trimmedHost
    else if Js.truthy fallback then fallback else "(unnamed)" in
  let body :=
    if Js.truthy trimmedNotes
    then if Js.truthy trimmedHost then trimmedNotes +:+ " [" +:+ trimmedHost +:+ "]" else trimmedNotes
    else fallbackBody in
  let prefix :=
    if Js.otruthy createdBy && Js.truthy (Js.trim (default "" createdBy))
    then "Polaris/" +:+ Js.trim (default "" createdBy) +:+ ": "
    else "Polaris: " in
  let candidate := prefix +:+ body in
  if (64 <? String.length candidate)%nat then Js.take 64 candidate else candidate.

Definition dq : string := String (Ascii.ascii_of_nat 34) "".

(** [parts.join(", ")] of the id, MAC and description of an entry. *)
Definition describeEntry (r : FortiOsReservedAddress) : string :=
  Js.join ", " (["entry id " +:+ pretty (ra_id r)] ++
    (if Js.otruthy (ra_mac r) then ["MAC " +:+ default "" (ra_mac r)] else []) ++
    (if Js.otruthy (ra_description r)
     then ["description " +:+ dq +:+ default "" (ra_description r) +:+ dq] else [])).

(** ** Error classification *)

Inductive PushErrorKind := Permanent | Transient.

Definition PERMANENT_502_MESSAGE_FRAGMENTS : list string :=
  ["verify mismatch"; "not visible on read-back"; "Authentication failed"].

Definition classifyPushError (err : exn) : PushErrorKind :=
  match err with
  | AppError status message =>
      if bool_decide (status = 400) || bool_decide (status = 404) || bool_decide (status = 409)
      then Permanent
      else if bool_decide (status = 502) then
        if existsb (λ frag, Js.includes frag message) PERMANENT_502_MESSAGE_FRAGMENTS
        then Permanent else Transient
      else Transient
  | _ => Transient
  end.

(** [err?.message || String(err)] *)
Definition exn_message (e : exn) : string :=
  match e with
  | AppError _ m | TypeError m | JsError m => m
  | PrismaError c => c
  end.

Section push.
Context `{NetmaskLib} `{Net W}.

(** ** Transport *)

Definition buildTransport (fmgConfig : IntegrationConfig) (deviceName integrationId : string)
  : M W Transport :=
  let vdom := "root"%string in
  if bool_decide (cfg_useProxy fmgConfig = Some false) then
    throw_if (negb (Js.otruthy (cfg_fortigateApiToken fmgConfig)))
      (AppError 400 "Direct mode requires a FortiGate API token on the integration") ;!
    throw_if (negb (Js.truthy (Js.trim (default "" (cfg_mgmtInterface fmgConfig)))))
      (AppError 400 ("Direct mode requires " +:+ dq +:+ "Management Interface" +:+ dq +:+
         " to be set on the integration")) ;!
    let! mgmtIp := resolveDeviceMgmtIpViaFmg fmgConfig deviceName in
    match mgmtIp with
    | Some ip =>
        throw_if (negb (Js.truthy ip))
          (AppError 502 ("Could not resolve management IP for " +:+ dq +:+ deviceName +:+ dq +:+
             " via FortiManager")) ;!
        hret (DirectFortigate
          (mkFortiGateConfig ip (Some 443) (Some (Js.oor (cfg_fortigateApiUser fmgConfig) ""))
             (default "" (cfg_fortigateApiToken fmgConfig)) vdom
             (Some (bool_decide (cfg_fortigateVerifySsl fmgConfig = Some true)))) vdom)
    | None =>
        hthrow (AppError 502 ("Could not resolve management IP for " +:+ dq +:+ deviceName +:+ dq +:+
          " via FortiManager"))
    end
  else hret (FmgProxy fmgConfig deviceName vdom integrationId).

Definition buildTransportForIntegration (integration : Integration) (deviceName : string)
  : M W Transport :=
  let cfg := i_config integration in
  if String.eqb (i_type integration) "fortimanager" then
    buildTransport cfg deviceName (i_id integration)
  else if String.eqb (i_type integration) "fortigate" then
    throw_if (negb (Js.otruthy (cfg_host cfg)) || negb (Js.otruthy (cfg_apiToken cfg)))
      (AppError 400 ("Standalone FortiGate integration " +:+ i_id integration +:+
         " is missing host or apiToken")) ;!
    hret (DirectFortigate
      (mkFortiGateConfig (default "" (cfg_host cfg)) (cfg_port cfg) (cfg_apiUser cfg)
         (default "" (cfg_apiToken cfg)) (Js.oor (cfg_vdom cfg) "root") (cfg_verifySsl cfg))
      (Js.oor (cfg_vdom cfg) "root"))
  else
    hthrow (AppError 400 ("DHCP write is not supported for integration type " +:+ dq +:+
      i_type integration +:+ dq)).

Definition callFortiOs (t : Transport) (method : Method) (path : string) (body : option Json)
  : M W Json :=
  match t with
  | DirectFortigate fgConfig vdom =>
      fgRequest fgConfig method path [("vdom"%string, vdom)] body
  | FmgProxy fmgConfig deviceName vdom _ =>
      let sep := if Js.includes "?" path then "&"%string else "?"%string in
      fmgProxyRest fmgConfig deviceName method
        (path +:+ sep +:+ "vdom=" +:+ encodeURIComponent vdom) body
  end.

(** ** Reading the device *)

Definition servers_path : string := "/api/v2/cmdb/system.dhcp/server".
Definition reserved_path (scopeId : Z) : string :=
  servers_path +:+ "/" +:+ pretty scopeId +:+ "/reserved-address".
Definition entry_path (scopeId entryId : Z) : string :=
  reserved_path scopeId +:+ "/" +:+ pretty entryId.

(** Does DHCP server [s] serve [block]: its gateway and mask reconstruct the
    network, or its first range starts inside it. *)
Definition scope_matches (block : NetBlock) (s : FortiOsDhcpServer) : bool :=
  (match ds_default_gateway s, ds_netmask s with
   | Some gateway, Some netmask =>
       Js.truthy gateway && Js.truthy netmask &&
       match new_Netmask (gateway +:+ "/" +:+ netmask) with
       | Some blk => String.eqb (base blk) (base block) && (bitmask blk =? bitmask block)
       | None => false
       end
   | _, _ => false
   end) ||
  match ds_ip_range s with
  | Some (Some startIp :: _) =>
      Js.truthy startIp && try_or (nm_contains_m block (Some startIp)) false
  | _ => false
  end.

Definition findScopeIdForCidr (t : Transport) (cidr : string) : M W (Z * option string) :=
  let! servers := callFortiOs t GET servers_path None in
  let list := as_dhcp_server <$> jarray (Some servers) in
  match new_Netmask cidr with
  | None => hthrow (AppError 400 ("Invalid subnet CIDR: " +:+ cidr))
  | Some block =>
      match List.find (scope_matches block) list with
      | Some s => hret (ds_id s, ds_interface s)
      | None => hthrow (AppError 409 ("FortiGate has no DHCP scope matching subnet " +:+ cidr))
      end
  end.

Definition listReservedAddresses (t : Transport) (scopeId : Z)
  : M W (list FortiOsReservedAddress) :=
  let! data := callFortiOs t GET (reserved_path scopeId) None in
  hret (as_reserved_address <$> jarray (Some data)).

(** ** Push *)

Definition has_mac (mac : string) (r : FortiOsReservedAddress) : bool :=
  match ra_mac r with Some m => Js.truthy m && String.eqb (normalizeMac m) mac | None => false end.
Definition has_ip (ip : string) (r : FortiOsReservedAddress) : bool :=
  match ra_ip r with Some i => Js.truthy i && String.eqb i ip | None => false end.

(** The pre-check over the entries already on the scope. *)
Definition check_collision (ip mac : string) (r : FortiOsReservedAddress) : M W unit :=
  throw_if (has_ip ip r)
    (AppError 409 ("FortiGate already has a reservation for " +:+ ip +:+ " on this scope (" +:+
       describeEntry r +:+ "). If this entry is not in Polaris, run discovery for the FortiManager/FortiGate integration to ingest it, or remove it from the FortiGate to free the IP.")) ;!
  throw_if (has_mac mac r)
    (AppError 409 ("FortiGate already has a reservation for MAC " +:+ mac +:+ " on this scope (" +:+
       describeEntry r +:+ "). If this entry is not in Polaris, run discovery for the FortiManager/FortiGate integration to ingest it, or remove it from the FortiGate to free the MAC.")).

(** The id echoed by a write: [mkey ?? id], a number or a string of digits. *)
Definition echoed_id (writeRes : Json) : option Z :=
  match jor (jget "mkey" (Some writeRes)) (jget "id" (Some writeRes)) with
  | Some (JNum z) => Some z
  | Some (JStr s) => if Js.truthy s && Js.sforallb Js.is_digit s then Js.parseInt s else None
  | _ => None
  end.

Definition locate_written (after : list FortiOsReservedAddress) (entryId : option Z) (ip mac : string)
  : option FortiOsReservedAddress :=
  let byId := match entryId with
              | Some i => List.find (λ r, ra_id r =? i) after
              | None => None
              end in
  match byId with
  | Some r => Some r
  | None => List.find (λ r, bool_decide (ra_ip r = Some ip) && has_mac mac r) after
  end.

Definition invalid_mac (mac what : string) : exn :=
  AppError 400 ("Invalid MAC address: " +:+ mac +:+ " — " +:+ what +:+ " requires a 48-bit MAC").

Definition pushReservation (params : PushReservationParams) : M W PushReservationResult :=
  throw_if (negb (Js.truthy (pp_deviceName params)))
    (AppError 400 "Subnet has no fortigateDevice — push requires a discovered FortiGate device name") ;!
  let ip := pp_ip params in
  let mac := normalizeMac (pp_mac params) in
  throw_if (negb (isMac48 mac)) (invalid_mac (pp_mac params) "push") ;!
  let! t := buildTransportForIntegration (pp_integration params) (pp_deviceName params) in
  let! scope := findScopeIdForCidr t (pp_subnetCidr params) in
  let scopeId := fst scope in
  let description := buildDescription (pp_hostname params) (pp_createdBy params) ip (pp_notes params) in
  let! existing := listReservedAddresses t scopeId in
  hforeach existing (check_collision ip mac) ;!
  let! writeRes := callFortiOs t POST (reserved_path scopeId)
    (Some (JObj [("ip", JStr ip); ("mac", JStr mac); ("description", JStr description);
                 ("type", JStr "mac")])) in
  let echoed := echoed_id writeRes in
  let! after := listReservedAddresses t scopeId in
  match locate_written after echoed ip mac with
  | None =>
      hthrow (AppError 502 ("FortiGate accepted the create but the entry was not visible on read-back for "
        +:+ ip +:+ " (" +:+ mac +:+ ")"))
  | Some verified =>
      throw_if (negb (bool_decide (ra_ip verified = Some ip)) ||
                negb (String.eqb (normalizeMac (default "" (ra_mac verified))) mac))
        (AppError 502 ("FortiGate verify mismatch — read back " +:+ default "?" (ra_ip verified) +:+
           " / " +:+ default "?" (ra_mac verified) +:+ ", wrote " +:+ ip +:+ " / " +:+ mac)) ;!
      hret (mkPushResult scopeId (default (ra_id verified) echoed) (snd scope) description)
  end.

(** ** Update *)

Definition check_other_mac (entryId : Z) (mac : string) (r : FortiOsReservedAddress) : M W unit :=
  throw_if (negb (ra_id r =? entryId) && has_mac mac r)
    (AppError 409 ("FortiGate already has another reservation for MAC " +:+ mac +:+
       " on this scope (" +:+ describeEntry r +:+ "). Remove the colliding entry or pick a different MAC.")).

Definition locate_entry (existing : list FortiOsReservedAddress) (entryId : option Z) (ip : string)
  : option FortiOsReservedAddress :=
  let pinned := match entryId with
                | Some i => List.find (λ r, ra_id r =? i) existing
                | None => None
                end in
  match pinned with
  | Some r => Some r
  | None => List.find (λ r, bool_decide (ra_ip r = Some ip)) existing
  end.

Definition updatePushedReservation (params : UpdatePushedReservationParams)
  : M W PushReservationResult :=
  throw_if (negb (Js.truthy (up_deviceName params)))
    (AppError 400 "Subnet has no fortigateDevice — update requires a discovered FortiGate device name") ;!
  let mac := normalizeMac (up_newMac params) in
  throw_if (negb (isMac48 mac)) (invalid_mac (up_newMac params) "update") ;!
  let! t := buildTransportForIntegration (up_integration params) (up_deviceName params) in
  let! scope := match up_scopeId params with
                | Some sc => hret (sc, None)
                | None => findScopeIdForCidr t (up_subnetCidr params)
                end in
  let scopeId := fst scope in
  let! existing := listReservedAddresses t scopeId in
  match locate_entry existing (up_entryId params) (up_ip params) with
  | None =>
      hthrow (AppError 404 ("FortiGate has no reservation matching " +:+ up_ip params +:+
        " on scope " +:+ pretty scopeId +:+ " — was it deleted on the device?"))
  | Some entry =>
      let entryId := ra_id entry in
      hforeach existing (check_other_mac entryId mac) ;!
      let description := buildDescription (up_hostname params) (up_createdBy params)
                           (up_ip params) (up_notes params) in
      callFortiOs t PUT (entry_path scopeId entryId)
        (Some (JObj [("mac", JStr mac); ("description", JStr description); ("type", JStr "mac")])) ;!
      let! after := listReservedAddresses t scopeId in
      match List.find (λ r, ra_id r =? entryId) after with
      | None =>
          hthrow (AppError 502 ("FortiGate accepted the update but entry id " +:+ pretty entryId +:+
            " is no longer visible on read-back"))
      | Some verified =>
          throw_if (negb (String.eqb (normalizeMac (default "" (ra_mac verified))) mac))
            (AppError 502 ("FortiGate verify mismatch — read back MAC " +:+
               default "?" (ra_mac verified) +:+ ", wrote " +:+ mac)) ;!
          hret (mkPushResult scopeId entryId (snd scope) description)
      end
  end.

(** ** Unpush and lease release *)

Definition unpushReservation (integration : Integration) (deviceName : string) (scopeId entryId : Z)
  : M W UnpushReservationResult :=
  let! t := buildTransportForIntegration integration deviceName in
  let! stillThere :=
    hcatch (let! list := listReservedAddresses t scopeId in
            hret (existsb (λ r, ra_id r =? entryId) list))
      (λ _, hret false) in
  if negb stillThere then hret (mkUnpushResult false true)
  else callFortiOs t DELETE (entry_path scopeId entryId) None ;!
       hret (mkUnpushResult true false).

Definition releaseDhcpLease (integration : Integration) (deviceName ip : string) : M W bool :=
  throw_if (negb (Js.truthy deviceName))
    (AppError 400 "Lease release requires a discovered FortiGate device name") ;!
  throw_if (negb (isValidIpAddress ip)) (AppError 400 ("Invalid IP for lease release: " +:+ ip)) ;!
  let! t := buildTransportForIntegration integration deviceName in
  callFortiOs t POST "/api/v2/monitor/system/dhcp/release-lease" (Some (JObj [("ip", JStr ip)])) ;!
  hret true.
End push.

(** ** MAC normal form *)

Lemma lower_hex c : is_lower_hex c = true → Js.lower c = c.
Proof. by destruct c as [[] [] [] [] [] [] [] []]. Qed.

Lemma hex_of_lower s : hex_of (Js.toLowerCase s) = hex_of s.
Proof. unfold hex_of. by rewrite toLowerCase_idem. Qed.

Lemma sfilter_all f s : Js.sforallb f (Js.sfilter f s) = true.
Proof.
  induction s as [|c s IH]; simpl; [done|]. destruct (f c) eqn:Hc; simpl; [|done]. by rewrite Hc.
Qed.

Lemma colon_not_hex : is_lower_hex ":" = false.
Proof. done. Qed.

(** A text of the 48-bit shape has twelve hexadecimal digits. *)
Lemma mac_groups_hex n s :
  mac_groups n s = true →
  String.length (Js.sfilter is_lower_hex s) = (2 * (n + 1))%nat ∧ Js.toLowerCase s = s.
Proof.
  revert s. induction n as [|n IH]; intros [|a [|b rest]]; try discriminate; cbn [mac_groups];
    rewrite !andb_true_iff; intros [[Ha Hb] Hr]; cbn [Js.sfilter Js.toLowerCase Js.smap];
    rewrite Ha, Hb; unfold Js.toLowerCase; cbn [Js.smap]; rewrite (lower_hex a), (lower_hex b) by done;
    destruct rest as [|c rest]; try discriminate.
  { done. }
  apply andb_true_iff in Hr as [->%Ascii.eqb_eq Hr]. apply IH in Hr as [Hlen Hlow].
  unfold Js.toLowerCase in Hlow. cbn [Js.sfilter Js.smap String.length].
  change (is_lower_hex ":") with false. change (Js.lower ":") with (":"%char). cbn [String.length].
  rewrite Hlow, Hlen. split; [lia|done].
Qed.

(** Twelve hexadecimal digits, spelt out. *)
Lemma hex12 h :
  Js.sforallb is_lower_hex h = true → String.length h = 12%nat →
  isMac48 (colon_pairs h) = true ∧ hex_of (colon_pairs h) = h.
Proof.
  intros Hall Hlen. do 12 (destruct h as [|? h]; [discriminate|]).
  destruct h; [|discriminate]. cbn [Js.sforallb] in Hall. rewrite !andb_true_iff in Hall.
  destruct_and! Hall. unfold isMac48, hex_of, Js.toLowerCase.
  cbn [colon_pairs mac_groups Js.smap].
  change (Js.lower ":") with (":"%char).
  repeat match goal with Hx : is_lower_hex ?x = true |- _ =>
    rewrite ?(lower_hex x Hx); revert Hx end.
  intros. cbn [Js.sfilter]. rewrite colon_not_hex.
  repeat match goal with Hx : is_lower_hex ?x = true |- _ => rewrite Hx; clear Hx end. done.
Qed.

Lemma normalizeMac_cases m :
  (String.length (hex_of m) = 12%nat ∧ normalizeMac m = colon_pairs (hex_of m) ∧
   isMac48 (normalizeMac m) = true ∧ hex_of (normalizeMac m) = hex_of m) ∨
  (String.length (hex_of m) ≠ 12%nat ∧ normalizeMac m = Js.toLowerCase m ∧
   isMac48 (normalizeMac m) = false).
Proof.
  unfold normalizeMac. destruct (Nat.eqb_spec (String.length (hex_of m)) 12) as [Hl|Hl].
  - left. destruct (hex12 (hex_of m)) as [H1 H2]; [apply sfilter_all|done|]. done.
  - right. split_and!; [done..|]. apply not_true_iff_false. intros Hm.
    apply mac_groups_hex in Hm as [Hm _]. by apply Hl.
Qed.

Lemma normalizeMac_idem m : normalizeMac (normalizeMac m) = normalizeMac m.
Proof.
  destruct (normalizeMac_cases m) as [(Hl & Heq & _ & Hh)|(Hl & Heq & _)].
  - unfold normalizeMac at 1. rewrite Hh, Hl, Heq. done.
  - rewrite Heq. unfold normalizeMac. rewrite hex_of_lower, toLowerCase_idem.
    by destruct (Nat.eqb_spec (String.length (hex_of m)) 12).
Qed.

(** [normalizeMac] is a canonical form: it is idempotent, it has the
    colon-separated 48-bit shape exactly for inputs with twelve hexadecimal
    digits (whatever the separators and case), and two such inputs have the
    same normal form exactly when they have the same digits. *)
Theorem normalizeMac_canonical m m' :
  normalizeMac (normalizeMac m) = normalizeMac m ∧
  (isMac48 (normalizeMac m) = true ↔ String.length (hex_of m) = 12%nat) ∧
  (String.length (hex_of m) = 12%nat → String.length (hex_of m') = 12%nat →
   normalizeMac m = normalizeMac m' ↔ hex_of m = hex_of m').
Proof.
  split; [apply normalizeMac_idem|]. split.
  - destruct (normalizeMac_cases m) as [(Hl & _ & -> & _)|(Hl & _ & ->)]; naive_solver.
  - intros Hl Hl'.
    destruct (normalizeMac_cases m) as [(_ & Heq & _ & Hh)|(? & _)]; [|done].
    destruct (normalizeMac_cases m') as [(_ & Heq' & _ & Hh')|(? & _)]; [|done].
    split; [congruence|]. rewrite Heq, Heq'. by intros ->.
Qed.

Lemma normalizeMac_canonical_witness :
  normalizeMac "AA-BB-CC-DD-EE-0F" = "aa:bb:cc:dd:ee:0f"%string ∧
  normalizeMac "aabb.ccdd.ee0f" = normalizeMac "AA-BB-CC-DD-EE-0F".
Proof.
  split; [reflexivity|].
  refine (proj2 (proj2 (proj2 (normalizeMac_canonical "aabb.ccdd.ee0f" "AA-BB-CC-DD-EE-0F")) _ _) _);
    vm_compute; reflexivity.
Defined.

(** ** What a successful push establishes *)

Section push_lemmas.
Context `{NetmaskLib} `{Net W}.

Lemma readonly_check_collision ip mac r : readonly (check_collision (W := W) ip mac r).
Proof. unfold check_collision. solve_frame. Qed.
Lemma readonly_check_other_mac i mac r : readonly (check_other_mac (W := W) i mac r).
Proof. unfold check_other_mac. solve_frame. Qed.

Lemma check_collision_ok ip mac r (w w' : W) u :
  check_collision ip mac r w = (w', Ok u) → has_ip ip r = false ∧ has_mac mac r = false.
Proof. unfold check_collision. intros Hc. by hinv. Qed.

Lemma check_collision_run ip mac l (w : W) :
  (∀ r, r ∈ l → has_ip ip r = false ∧ has_mac mac r = false) →
  hforeach l (check_collision ip mac) w = (w, Ok tt).
Proof.
  induction l as [|r l IH]; intros Hl; [done|]. simpl. unfold check_collision at 1.
  destruct (Hl r) as [-> ->]; [left|]. hred. apply IH. intros r' Hr'. apply Hl. by right.
Qed.

(** The entry a push verifies is on the list; the echoed id is reported
    instead of its own only when no listed entry has the echoed id. *)
Lemma locate_written_some after echoed ip mac v :
  locate_written after echoed ip mac = Some v →
  v ∈ after ∧ (default (ra_id v) echoed ≠ ra_id v →
               ∀ e, e ∈ after → ra_id e ≠ default (ra_id v) echoed).
Proof.
  unfold locate_written. destruct echoed as [i|]; simpl.
  - destruct (List.find (λ r, ra_id r =? i) after) as [v'|] eqn:Hf; intros Hv; simplify_eq.
    + apply find_some_iff in Hf as [Hin Hf%Z.eqb_eq]. done.
    + apply find_some_iff in Hv as [Hin _]. split; [done|]. intros _ e He.
      rewrite find_none_iff in Hf. specialize (Hf e He). lia.
  - intros [Hin _]%find_some_iff. done.
Qed.

(** The write of a push, seen from the device. *)
Definition push_body (ip mac description : string) : option Json :=
  Some (JObj [("ip", JStr ip); ("mac", JStr mac); ("description", JStr description);
              ("type", JStr "mac")]).

Lemma pushReservation_ok params (w w' : W) r :
  pushReservation params w = (w', Ok r) →
  let mac := normalizeMac (pp_mac params) in
  isMac48 mac = true ∧
  ∃ t w1 w2 w3 j existing after v,
    listReservedAddresses t (pr_scopeId r) w1 = (w2, Ok existing) ∧
    (∀ e, e ∈ existing → has_ip (pp_ip params) e = false ∧ has_mac mac e = false) ∧
    callFortiOs t POST (reserved_path (pr_scopeId r))
      (push_body (pp_ip params) mac (pr_description r)) w2 = (w3, Ok j) ∧
    listReservedAddresses t (pr_scopeId r) w3 = (w', Ok after) ∧
    v ∈ after ∧ ra_ip v = Some (pp_ip params) ∧ normalizeMac (default "" (ra_mac v)) = mac ∧
    pr_entryId r = default (ra_id v) (echoed_id j) ∧
    (pr_entryId r ≠ ra_id v → ∀ e, e ∈ after → ra_id e ≠ pr_entryId r).
Proof.
  intros Hrun mac. unfold pushReservation in Hrun. fold mac in Hrun. hinv.
  apply negb_false_iff in Hg. split; [done|].
  apply hforeach_ok in Hm4 as [-> Hcol]; [|apply readonly_check_collision].
  destruct (locate_written _ _ _ _) as [v|] eqn:Hv; [|discriminate]. hinv.
  rewrite orb_false_iff, !negb_false_iff, bool_decide_eq_true, String.eqb_eq in Hg1.
  destruct Hg1 as [Hip Hmac]. simpl.
  apply locate_written_some in Hv as [Hin Hother].
  exists a1, s2, s3, s5, a5, a3, a6, v. split_and!; try done.
  intros e He. eapply check_collision_ok. by apply Hcol.
Qed.

(** ** A reachable FortiGate

    What FortiOS documents of the reserved-address table of one DHCP scope,
    as the transport [t] sees it: a read returns the table, a create appends
    an entry under a fresh id (echoed or not), a delete removes it. *)
Record scope_device (t : Transport) (sc : Z) (entries : W → list FortiOsReservedAddress) : Prop := {
  sd_list w : ∃ w', listReservedAddresses t sc w = (w', Ok (entries w)) ∧ entries w' = entries w;
  sd_post ip mac d w : ∃ w' j i,
    callFortiOs t POST (reserved_path sc) (push_body ip mac d) w = (w', Ok j) ∧
    entries w' = entries w ++ [mkReservedAddress i (Some ip) (Some mac) (Some d) (Some "mac"%string)] ∧
    i ∉ ra_id <$> entries w ∧ (echoed_id j = Some i ∨ echoed_id j = None);
  sd_delete i w : i ∈ ra_id <$> entries w → ∃ w' j,
    callFortiOs t DELETE (entry_path sc i) None w = (w', Ok j) ∧
    entries w' = List.filter (λ r, negb (ra_id r =? i)) (entries w);
}.

(** The integration row and subnet lead to that transport and scope. *)
Record leads_to (i : Integration) (device cidr : string) (t : Transport) (sc : Z)
    (entries : W → list FortiOsReservedAddress) : Prop := {
  lt_transport w : ∃ w', buildTransportForIntegration i device w = (w', Ok t) ∧ entries w' = entries w;
  lt_scope w : ∃ w' iface, findScopeIdForCidr t cidr w = (w', Ok (sc, iface)) ∧ entries w' = entries w;
}.

Lemma filter_other_ids (l : list FortiOsReservedAddress) i :
  i ∉ ra_id <$> l → List.filter (λ r, negb (ra_id r =? i)) l = l.
Proof.
  induction l as [|r l IH]; [done|]. rewrite fmap_cons, not_elem_of_cons. intros [Hne Hl]. simpl.
  rewrite IH by done. destruct (Z.eqb_spec (ra_id r) i); [congruence|done].
Qed.

Lemma locate_fresh (l : list FortiOsReservedAddress) e ip mac j :
  isMac48 mac = true → normalizeMac mac = mac →
  ra_ip e = Some ip → ra_mac e = Some mac → ra_id e ∉ ra_id <$> l →
  (∀ r, r ∈ l → has_ip ip r = false ∧ has_mac mac r = false) →
  (echoed_id j = Some (ra_id e) ∨ echoed_id j = None) →
  locate_written (l ++ [e]) (echoed_id j) ip mac = Some e.
Proof.
  intros Hm48 Hn Hip Hmac Hid Hfree Hecho. unfold locate_written.
  assert (has_mac mac e = true) as Hhas.
  { unfold has_mac. rewrite Hmac, Hn, String.eqb_refl, andb_true_r. by destruct mac. }
  assert (List.find (λ r, bool_decide (ra_ip r = Some ip) && has_mac mac r) (l ++ [e]) = Some e) as Hf.
  { clear Hid Hecho. induction l as [|r l IH]; simpl.
    - rewrite Hip, Hhas. by rewrite bool_decide_eq_true_2.
    - destruct (Hfree r) as [_ Hr]; [left|]. rewrite Hr, andb_false_r. apply IH.
      intros r' Hr'. apply Hfree. by right. }
  destruct Hecho as [-> | ->]; [|done].
  assert (List.find (λ r, ra_id r =? ra_id e) (l ++ [e]) = Some e) as ->; [|done].
  clear -Hid. induction l as [|r l IH]; simpl; [by rewrite Z.eqb_refl|].
  rewrite fmap_cons, not_elem_of_cons in Hid. destruct Hid as [Hne Hid].
  destruct (Z.eqb_spec (ra_id r) (ra_id e)); [congruence|]. by apply IH.
Qed.

(** Pushing a free address with a well-formed MAC succeeds. *)
Lemma pushReservation_succeeds params t sc entries (w : W) :
  scope_device t sc entries →
  leads_to (pp_integration params) (pp_deviceName params) (pp_subnetCidr params) t sc entries →
  pp_deviceName params ≠ ""%string → isMac48 (normalizeMac (pp_mac params)) = true →
  (∀ r, r ∈ entries w → has_ip (pp_ip params) r = false ∧
                        has_mac (normalizeMac (pp_mac params)) r = false) →
  ∃ w' res e, pushReservation params w = (w', Ok res) ∧
    entries w' = entries w ++ [e] ∧ ra_id e ∉ ra_id <$> entries w ∧
    ra_ip e = Some (pp_ip params) ∧ ra_mac e = Some (normalizeMac (pp_mac params)) ∧
    pr_scopeId res = sc ∧ pr_entryId res = ra_id e.
Proof.
  intros Hdev Hlead Hname Hmac Hfree. unfold pushReservation.
  assert (Js.truthy (pp_deviceName params) = true) as -> by (by destruct (pp_deviceName params)).
  rewrite Hmac. hred.
  destruct (lt_transport _ _ _ _ _ _ Hlead w) as (w1 & E1 & H1). hrun E1.
  destruct (lt_scope _ _ _ _ _ _ Hlead w1) as (w2 & iface & E2 & H2). hrun E2.
  destruct (sd_list _ _ _ Hdev w2) as (w3 & E3 & H3). hrun E3.
  hrun (check_collision_run (pp_ip params) (normalizeMac (pp_mac params)) (entries w2) w3
    ltac:(by rewrite H2, H1)).
  match goal with |- context [callFortiOs t POST _ ?b] =>
    match b with Some (JObj [_; _; (_, JStr ?d); _]) =>
      destruct (sd_post _ _ _ Hdev (pp_ip params) (normalizeMac (pp_mac params)) d w3)
        as (w4 & j & i & Hp & H4 & Hi & Hecho) end end.
  unfold push_body in Hp. hrun Hp.
  destruct (sd_list _ _ _ Hdev w4) as (w5 & E5 & H5). hrun E5.
  set (e := mkReservedAddress i _ _ _ _) in *.
  rewrite H4, (locate_fresh (entries w3) e); try done.
  2:{ apply normalizeMac_idem. }
  2:{ by rewrite H3, H2, H1. }
  simpl. rewrite normalizeMac_idem, String.eqb_refl, bool_decide_eq_true_2 by done. hred.
  eexists w5, _, e. split; [done|]. rewrite H5, H4, H3, H2, H1. split_and!; try done.
  - by rewrite H3, H2, H1 in Hi.
  - simpl. by destruct Hecho as [-> | ->].
Qed.

Lemma unpushReservation_removes integ device cidr t sc entries i (w : W) :
  scope_device t sc entries → leads_to integ device cidr t sc entries →
  i ∈ ra_id <$> entries w →
  ∃ w', unpushReservation integ device sc i w = (w', Ok (mkUnpushResult true false)) ∧
    entries w' = List.filter (λ r, negb (ra_id r =? i)) (entries w).
Proof.
  intros Hdev Hlead Hi. unfold unpushReservation.
  destruct (lt_transport _ _ _ _ _ _ Hlead w) as (w1 & E1 & H1). hrun E1.
  destruct (sd_list _ _ _ Hdev w1) as (w2 & Hl & H2).
  unfold hbind at 1, hcatch, hbind at 1. rewrite Hl. hred.
  assert (existsb (λ r, ra_id r =? i) (entries w1) = true) as ->.
  { apply existsb_exists. rewrite H1. apply list_elem_of_fmap in Hi as (r & -> & Hr).
    exists r. rewrite Z.eqb_refl. by rewrite <-list_elem_of_In. }
  hred. destruct (sd_delete _ _ _ Hdev i w2) as (w3 & j & E3 & H3).
  { by rewrite H2, H1. }
  hrun E3. exists w3. split; [done|]. by rewrite H3, H2, H1.
Qed.
End push_lemmas.

(** ** A reference FortiGate

    One DHCP scope (id 1) of a standalone FortiGate behind [fetch], enough to
    run the operations and to discharge [scope_device]. *)

Module RefGate.

Record Gate := mkGate {
  g_entries : list FortiOsReservedAddress;
  g_now : Z;
  g_tls : option string;
}.

Definition ojson (k : string) (o : option string) : list (string * Json) :=
  match o with Some s => [(k, JStr s)] | None => [] end.
Definition entry_json (r : FortiOsReservedAddress) : Json :=
  JObj ([("id"%string, JNum (ra_id r))] ++ ojson "ip" (ra_ip r) ++ ojson "mac" (ra_mac r) ++
        ojson "description" (ra_description r) ++ ojson "type" (ra_type r)).
Definition server_json : Json :=
  JObj [("id", JNum 1); ("interface", JStr "lan");
        ("ip-range", JArr [JObj [("start-ip", JStr "10.0.0.10")]])]%string.

Definition base_url : string := "https://fg1:443/api/v2/cmdb/system.dhcp/server".
Definition list_url : string := base_url +:+ "/1/reserved-address?vdom=root".
Definition entry_url (r : FortiOsReservedAddress) : string :=
  base_url +:+ "/1/reserved-address/" +:+ pretty (ra_id r) +:+ "?vdom=root".

Definition fresh_entry_id (l : list FortiOsReservedAddress) : Z :=
  foldr Z.max 0 (ra_id <$> l) + 1.

Definition set_entries (l : list FortiOsReservedAddress) (g : Gate) : Gate :=
  mkGate l (g_now g) (g_tls g).

Definition ok_json (j : Json) : result HttpResponse := Ok (mkHttpResponse 200 (Some j)).

Definition serve (req : HttpRequest) : M Gate HttpResponse := λ g,
  let url := hr_url req in
  match hr_method req with
  | GET =>
      if String.eqb url (base_url +:+ "?vdom=root")
      then (g, ok_json (JObj [("results"%string, JArr [server_json])]))
      else if String.eqb url list_url
      then (g, ok_json (JObj [("results"%string, JArr (entry_json <$> g_entries g))]))
      else (g, Ok (mkHttpResponse 404 None))
  | POST =>
      if String.eqb url list_url then
        let i := fresh_entry_id (g_entries g) in
        let b := default JNull (hr_body req) in
        (set_entries (g_entries g ++
           [mkReservedAddress i (jfield_str "ip" b) (jfield_str "mac" b)
              (jfield_str "description" b) (jfield_str "type" b)]) g,
         ok_json (JObj [("mkey"%string, JNum i)]))
      else (g, Ok (mkHttpResponse 404 None))
  | DELETE =>
      if existsb (λ r, String.eqb url (entry_url r)) (g_entries g)
      then (set_entries (List.filter (λ r, negb (String.eqb url (entry_url r))) (g_entries g)) g,
            ok_json (JObj []))
      else (g, Ok (mkHttpResponse 404 None))
  | PUT => (g, Ok (mkHttpResponse 404 None))
  end.

#[export] Instance net : Net Gate :=
  {| fetch := serve; now := g_now; tls_env := g_tls;
     set_tls_env := λ v g, mkGate (g_entries g) (g_now g) v |}.

(** A standalone FortiGate integration that points at it. *)
Definition config : IntegrationConfig :=
  mkIntegrationConfig (Some true) (Some "fg1"%string) None None (Some "token"%string) None None None
    None None None None None.
Definition integration : Integration := mkIntegration "i1" "fortigate" true config.
Definition fgConfig : FortiGateConfig :=
  mkFortiGateConfig "fg1" None None "token" "root" None.
Definition transport : Transport := DirectFortigate fgConfig "root".

Lemma entry_json_ok r : as_reserved_address (entry_json r) = r.
Proof. by destruct r as [i [] [] [] []]. Qed.

Lemma fresh_entry_id_fresh l : fresh_entry_id l ∉ ra_id <$> l.
Proof.
  assert (∀ x, x ∈ ra_id <$> l → x ≤ foldr Z.max 0 (ra_id <$> l)) as Hmax.
  { induction (ra_id <$> l) as [|y k IH]; simpl; intros x; [by intros ?%elem_of_nil|].
    intros [->|Hx]%elem_of_cons; [lia|]. specialize (IH x Hx). lia. }
  intros Hin%Hmax. unfold fresh_entry_id in Hin. lia.
Qed.

Lemma string_app_inj_l (a b c : string) : a +:+ b = a +:+ c → b = c.
Proof. induction a as [|x a IH]; simpl; [done|]. intros [= ?]. auto. Qed.

Lemma digits_then_eq a b s s' c :
  Js.sforallb (λ d, negb (Ascii.eqb d c)) a = true → Js.sforallb (λ d, negb (Ascii.eqb d c)) b = true →
  a +:+ String c s = b +:+ String c s' → a = b.
Proof.
  revert b. induction a as [|x a IH]; intros [|y b]; simpl; [done|..].
  - intros _ [Hy _]%andb_true_iff [= <- _]. by rewrite Ascii.eqb_refl in Hy.
  - intros [Hx _]%andb_true_iff _ [= -> _]. by rewrite Ascii.eqb_refl in Hx.
  - intros [_ Ha]%andb_true_iff [_ Hb]%andb_true_iff [= -> Heq]. f_equal. by eapply IH.
Qed.

Lemma pretty_Z_no_question (z : Z) : Js.sforallb (λ d, negb (Ascii.eqb d "?")) (pretty z) = true.
Proof.
  destruct (decide (0 ≤ z)) as [Hz|Hz]; [by apply pretty_no_sep|].
  assert (pretty z = String "-" (pretty (- z))) as ->.
  { destruct z as [|p|p]; [lia|lia|]. done. }
  simpl. apply pretty_no_sep; [lia|done].
Qed.

Lemma entry_url_inj r r' : entry_url r = entry_url r' → ra_id r = ra_id r'.
Proof.
  intros Heq%string_app_inj_l%string_app_inj_l. apply (inj pretty).
  eapply digits_then_eq; [apply pretty_Z_no_question..|exact Heq].
Qed.

End RefGate.

Section gate_laws.
Import RefGate.
#[local] Existing Instance RefNetmask.lib.

Lemma gate_url path : fg_url fgConfig path [("vdom"%string, "root"%string)] =
  "https://fg1:443" +:+ path +:+ (if Js.includes "?" path then "&" else "?") +:+ "vdom=root".
Proof. done. Qed.

Lemma includes_no_char c s :
  Js.sforallb (λ d, negb (Ascii.eqb d c)) s = true → Js.includes (String c "") s = false.
Proof.
  induction s as [|x s IH]; [done|]. simpl. intros [Hx Hs]%andb_true_iff.
  apply negb_true_iff in Hx. rewrite Ascii.eqb_sym in Hx. rewrite Hx. simpl. by apply IH.
Qed.

Lemma entry_path_plain (i : Z) :
  Js.includes "?" (entry_path 1 i) = false.
Proof.
  apply includes_no_char. unfold entry_path. rewrite sforallb_append. apply andb_true_iff.
  split; [vm_compute; reflexivity|]. simpl. apply pretty_Z_no_question.
Qed.

Lemma serve_entries (g : Gate) :
  listReservedAddresses transport 1 g = (g, Ok (g_entries g)).
Proof.
  unfold listReservedAddresses, hbind at 1, callFortiOs, transport, fgRequest, with_tls.
  change (hr_url _) with list_url. simpl. unfold hret. do 2 f_equal. change (tls_enter None g) with g. induction (g_entries g) as [|r l IH]; [done|].
  rewrite !fmap_cons, entry_json_ok. by f_equal.
Qed.

Lemma gate_device : scope_device transport 1 g_entries.
Proof.
  split.
  - intros g. exists g. split; [apply serve_entries|done].
  - intros ip mac d g.
    eexists _, _, (fresh_entry_id (g_entries g)).
    split; [reflexivity|]. split; [reflexivity|]. split; [apply fresh_entry_id_fresh|]. by left.
  - intros i g Hi. apply list_elem_of_fmap in Hi as (r & -> & Hr).
    unfold callFortiOs, transport, fgRequest, fg_http, with_tls, hbind at 1.
    rewrite gate_url, entry_path_plain. change (tls_enter _ g) with g.
    change (fetch ?q) with (serve q). unfold serve. cbn [hr_method hr_url].
    assert ("https://fg1:443" +:+ entry_path 1 (ra_id r) +:+ "?" +:+ "vdom=root" = entry_url r) as ->.
    { unfold entry_path, entry_url, reserved_path. by rewrite !append_assoc. }
    assert (existsb (λ r0, (entry_url r =? entry_url r0)%string) (g_entries g) = true) as Hex.
    { apply existsb_exists. exists r. by rewrite String.eqb_refl, <-list_elem_of_In. }
    rewrite Hex. eexists _, _. split; [reflexivity|].
    trans (List.filter (λ r0, negb (entry_url r =? entry_url r0)%string) (g_entries g)); [reflexivity|].
    apply List.filter_ext. intros r'. f_equal.
    destruct (Z.eqb_spec (ra_id r') (ra_id r)) as [He|He], (String.eqb_spec (entry_url r) (entry_url r'))
      as [Hu|Hu]; try done.
    + destruct Hu. unfold entry_url. by rewrite He.
    + destruct He. symmetry. by apply entry_url_inj.
Qed.

Lemma gate_leads_to : leads_to (W := Gate) integration "fg1" "10.0.0.0/24" transport 1 g_entries.
Proof.
  split; intros g.
  - exists g. split; reflexivity.
  - exists g, (Some "lan"%string). split; [|done]. vm_compute. reflexivity.
Qed.
End gate_laws.

(** ** Which transport errors are retried *)

Section classification.
Context `{Net W}.

(** A number in decimal holds none of the fragments, wherever it starts. *)
Lemma includes_digits c frag d :
  Js.is_digit c = false → Js.sforallb Js.is_digit d = true →
  Js.includes (String c frag) d = false.
Proof.
  intros Hc. induction d as [|x d IH]; [done|]. simpl. intros [Hx Hd]%andb_true_iff.
  destruct (Ascii.eqb_spec c x) as [->|]; [congruence|]. by apply IH.
Qed.

Lemma http_error_transient n :
  0 ≤ n → classifyPushError (AppError 502 ("FortiGate returned HTTP " +:+ pretty n)) = Transient.
Proof.
  intros Hn. pose proof (pretty_digits n Hn) as Hd. unfold classifyPushError.
  cbn [bool_decide decide orb PERMANENT_502_MESSAGE_FRAGMENTS existsb].
  assert (∀ c frag, Js.is_digit c = false →
    Js.includes (String c frag) (pretty n) = false) as Hno by (intros; by apply includes_digits).
  simpl. rewrite !Hno by done. done.
Qed.

(** How an HTTP answer of a FortiGate reaches the retry queue: 401, 403
    and 404 end as permanent errors, every other status outside 2xx and every
    failure of [fetch] itself as transient ones, and the request never throws
    on a 2xx answer whose envelope does not report an error. *)
Theorem fgRequest_error_classes config method path query body w w1 :
  let m := fgRequest config method path query body w in
  let run := fetch (fg_http config method path query body) (tls_enter (fg_verifySsl config) w) in
  (∀ msg, run = (w1, Throw (JsError msg)) →
     ∃ e, m.2 = Throw e ∧ classifyPushError e = Transient) ∧
  (∀ st j, run = (w1, Ok (mkHttpResponse st j)) → 0 ≤ st →
     (st ∈ [401; 403; 404] → ∃ e, m.2 = Throw e ∧ classifyPushError e = Permanent) ∧
     (st ∉ [401; 403; 404] → res_ok st = false →
        ∃ e, m.2 = Throw e ∧ classifyPushError e = Transient)) ∧
  (∀ st v, run = (w1, Ok (mkHttpResponse st (Some v))) → res_ok st = true →
     jstring (jget "status" (Some v)) ≠ Some "error"%string →
     m.2 = Ok (default v (jor (jget "results" (Some v)) None))).
Proof.
  intros m run.
  assert (m.2 = match run with (w', Ok res) => (fg_answer path res w').2 | (_, Throw e) => Throw e end)
    as ->.
  { unfold m, fgRequest, with_tls, hbind. fold run. destruct run as [w' [res|e]]; [|done].
    by destruct (fg_answer path res w'). }
  clearbody run. unfold fg_answer. split; [|split].
  - intros msg ->. by eexists.
  - intros st j -> Hst. cbn [res_status]. split.
    + intros Hin. rewrite !elem_of_cons, elem_of_nil in Hin.
      destruct Hin as [->|[->|[->|[]]]]; eexists; (split; [reflexivity|]); done.
    + intros Hin Hok. rewrite !not_elem_of_cons in Hin. destruct Hin as (H1 & H2 & H3 & _).
      rewrite !bool_decide_eq_false_2, Hok by done. hred.
      eexists. split; [reflexivity|]. by apply http_error_transient.
  - intros st v -> Hok Hs. cbn [res_status]. unfold res_ok in *.
    rewrite !bool_decide_eq_false_2 by lia. rewrite Hok. hred. unfold read_json. cbn [res_json]. hred.
    rewrite (bool_decide_eq_false_2 _ Hs). by destruct (jtruthy (Some v)).
Qed.
End classification.

Section push_claims.
Context `{NetmaskLib} `{Net W}.

(** C6: [pushReservation] reports success only for a write it verified: the
    MAC has the 48-bit form, just before the write the scope held neither the
    address nor the MAC, and the read-back after it shows an entry with this
    address and MAC.  The reported entry id is that entry's, unless the device
    echoed an id that no listed entry has. *)
Theorem pushReservation_verified params (w w' : W) r :
  pushReservation params w = (w', Ok r) →
  let mac := normalizeMac (pp_mac params) in
  isMac48 mac = true ∧
  ∃ t w1 w2 w3 j existing after v,
    listReservedAddresses t (pr_scopeId r) w1 = (w2, Ok existing) ∧
    (∀ e, e ∈ existing → has_ip (pp_ip params) e = false ∧ has_mac mac e = false) ∧
    callFortiOs t POST (reserved_path (pr_scopeId r))
      (push_body (pp_ip params) mac (pr_description r)) w2 = (w3, Ok j) ∧
    listReservedAddresses t (pr_scopeId r) w3 = (w', Ok after) ∧
    v ∈ after ∧ ra_ip v = Some (pp_ip params) ∧ normalizeMac (default "" (ra_mac v)) = mac ∧
    pr_entryId r = default (ra_id v) (echoed_id j) ∧
    (pr_entryId r ≠ ra_id v → ∀ e, e ∈ after → ra_id e ≠ pr_entryId r).
Proof. apply pushReservation_ok. Qed.

(** C7: against a reachable FortiGate, pushing a free address with a
    well-formed MAC succeeds and adds exactly one entry; unpushing the
    reported entry removes it and leaves the scope as it was. *)
Theorem push_unpush_roundtrip params t sc entries (w : W) :
  scope_device t sc entries →
  leads_to (pp_integration params) (pp_deviceName params) (pp_subnetCidr params) t sc entries →
  pp_deviceName params ≠ ""%string → isMac48 (normalizeMac (pp_mac params)) = true →
  (∀ r, r ∈ entries w → has_ip (pp_ip params) r = false ∧
                        has_mac (normalizeMac (pp_mac params)) r = false) →
  ∃ w1 res e w2,
    pushReservation params w = (w1, Ok res) ∧ entries w1 = entries w ++ [e] ∧
    ra_ip e = Some (pp_ip params) ∧ ra_mac e = Some (normalizeMac (pp_mac params)) ∧
    unpushReservation (pp_integration params) (pp_deviceName params)
      (pr_scopeId res) (pr_entryId res) w1 = (w2, Ok (mkUnpushResult true false)) ∧
    entries w2 = entries w.
Proof.
  intros Hdev Hlead Hname Hmac Hfree.
  destruct (pushReservation_succeeds params t sc entries w Hdev Hlead Hname Hmac Hfree)
    as (w1 & res & e & Hrun & H1 & Hid & Hip & Hm & Hsc & Hent).
  destruct (unpushReservation_removes (pp_integration params) (pp_deviceName params)
    (pp_subnetCidr params) t sc entries (ra_id e) w1 Hdev Hlead) as (w2 & Hun & H2).
  { rewrite H1, fmap_app. set_solver. }
  exists w1, res, e, w2. rewrite Hsc, Hent. split_and!; try done.
  rewrite H2, H1, List.filter_app, filter_other_ids by done. simpl.
  by rewrite Z.eqb_refl, app_nil_r.
Qed.

(** When the scope cannot be read, [unpushReservation] does not go on to
    the delete: it reports the entry as already absent, and the world is as
    the failed read left it, so the entry stays on the device (the comment on
    that branch says it falls through to the DELETE attempt). *)
Theorem unpushReservation_read_failure integ device sc i t (w w1 w2 : W) e :
  buildTransportForIntegration integ device w = (w1, Ok t) →
  listReservedAddresses t sc w1 = (w2, Throw e) →
  unpushReservation integ device sc i w = (w2, Ok (mkUnpushResult false true)).
Proof.
  intros E1 E2. unfold unpushReservation. hrun E1.
  unfold hbind at 1, hcatch, hbind at 1. rewrite E2. done.
Qed.
End push_claims.

Section push_witnesses.
Import RefGate.
#[local] Existing Instance RefNetmask.lib.

Definition gate_ex : Gate := mkGate [] 1000 None.
Definition push_ex : PushReservationParams :=
  mkPushParams "10.0.0.0/24" "10.0.0.20" "AA-BB-CC-DD-EE-0F" (Some "printer"%string) None
    (Some "alice"%string) integration "fg1".
(** A network on which nothing answers. *)
Definition dead_net : Net Gate :=
  {| fetch := λ _, hthrow (JsError "fetch failed"); now := g_now; tls_env := g_tls;
     set_tls_env := λ v g, mkGate (g_entries g) (g_now g) v |}.

Lemma fgRequest_error_classes_witness :
  ∃ e, (fgRequest fgConfig GET "/nowhere" [] None gate_ex).2 = Throw e ∧
    classifyPushError e = Permanent.
Proof.
  destruct (fgRequest_error_classes fgConfig GET "/nowhere" [] None gate_ex gate_ex) as (_ & Hst & _).
  apply (Hst 404 None); [reflexivity|lia|set_solver].
Defined.

Lemma push_ex_runs :
  ∃ w res, pushReservation push_ex gate_ex = (w, Ok res) ∧ pr_entryId res = 1 ∧
    pr_description res = "Polaris/alice: printer"%string ∧
    ra_mac <$> g_entries w = [Some "aa:bb:cc:dd:ee:0f"%string].
Proof. eexists _, _. split; [vm_compute; reflexivity|]. done. Qed.

Lemma pushReservation_verified_witness :
  ∃ w res, pushReservation push_ex gate_ex = (w, Ok res) ∧
    isMac48 (normalizeMac (pp_mac push_ex)) = true.
Proof.
  destruct push_ex_runs as (w & res & Hrun & _). exists w, res. split; [exact Hrun|].
  exact (proj1 (pushReservation_verified push_ex gate_ex w res Hrun)).
Defined.

Lemma push_unpush_roundtrip_witness :
  ∃ w1 res w2, pushReservation push_ex gate_ex = (w1, Ok res) ∧
    unpushReservation integration "fg1" (pr_scopeId res) (pr_entryId res) w1
      = (w2, Ok (mkUnpushResult true false)) ∧
    g_entries w2 = [].
Proof.
  destruct (push_unpush_roundtrip push_ex transport 1 g_entries gate_ex gate_device gate_leads_to)
    as (w1 & res & e & w2 & H1 & _ & _ & _ & H2 & H3);
    [discriminate|vm_compute; reflexivity|intros r Hr; inversion Hr|].
  exists w1, res, w2. split; [exact H1|]. split; [exact H2|exact H3].
Defined.

Lemma unpushReservation_read_failure_witness :
  unpushReservation (H0 := dead_net) integration "fg1" 1 7 gate_ex
    = (gate_ex, Ok (mkUnpushResult false true)).
Proof.
  exact (unpushReservation_read_failure (H0 := dead_net) integration "fg1" 1 7 transport
    gate_ex gate_ex gate_ex (JsError "fetch failed") eq_refl eq_refl).
Defined.
End push_witnesses.
