(* ===== verification/JsColl.v ===== *)
(** * JavaScript collections

    [Map], [Set] and [Array.prototype.sort] as the services use them: a [Map]
    keeps its entries in insertion order and [set] on a present key keeps the
    entry's place, a [Set] keeps insertion order, and [sort] is stable. *)

From S2P Require Import Prelude.

Definition JsMap (K V : Type) : Type := list (K * V).

Section js_map.
Context {K V : Type} `{EqDecision K}.
Implicit Types (m : JsMap K V) (k : K) (v : V).

(** [m.get(k)]; [undefined] is [None]. *)
Fixpoint mget k m : option V :=
  match m with
  | [] => None
  | (k', v) :: m' => if decide (k = k') then Some v else mget k m'
  end.

(** [m.has(k)] *)
Definition mhas k m : bool := match mget k m with Some _ => true | None => false end.

(** [m.set(k, v)] *)
Fixpoint mset k v m : JsMap K V :=
  match m with
  | [] => [(k, v)]
  | (k', v') :: m' => if decide (k = k') then (k', v) :: m' else (k', v') :: mset k v m'
  end.

(** [m.delete(k)] *)
Definition mdelete k m : JsMap K V := List.filter (λ kv, negb (bool_decide (kv.1 = k))) m.

(** [[...m.keys()]] and [[...m.values()]] *)
Definition mkeys m : list K := m.*1.
Definition mvalues m : list V := m.*2.

Lemma mget_mset k k' v m : mget k' (mset k v m) = if decide (k' = k) then Some v else mget k' m.
Proof.
  induction m as [|[k0 v0] m IH]; simpl; [done|].
  destruct (decide (k = k0)) as [->|]; simpl.
  - by destruct (decide (k' = k0)).
  - rewrite IH. repeat case_decide; congruence.
Qed.
Lemma mget_filter_key (f : K → bool) k m :
  mget k (List.filter (λ kv, f kv.1) m) = if f k then mget k m else None.
Proof.
  induction m as [|[k' v] m IH]; cbn; [by destruct (f k)|].
  destruct (f k') eqn:Hf; cbn; case_decide as Hd; subst; rewrite ?Hf; try done.
  by rewrite IH, Hf.
Qed.
Lemma mget_mset_eq k v m : mget k (mset k v m) = Some v.
Proof. rewrite mget_mset. by case_decide. Qed.
Lemma mget_mset_ne k k' v m : k' ≠ k → mget k' (mset k v m) = mget k' m.
Proof. intros. rewrite mget_mset. by case_decide. Qed.

Lemma mget_mdelete k k' m : mget k' (mdelete k m) = if decide (k' = k) then None else mget k' m.
Proof.
  induction m as [|[k0 v0] m IH]; simpl; [by case_decide|].
  destruct (decide (k0 = k)) as [->|Hne].
  - rewrite bool_decide_eq_true_2 by done. simpl. rewrite IH. by repeat case_decide.
  - rewrite bool_decide_eq_false_2 by done. simpl. rewrite IH. repeat case_decide; congruence.
Qed.

Lemma mhas_true k m : mhas k m = true ↔ is_Some (mget k m).
Proof. unfold mhas. destruct (mget k m); naive_solver. Qed.
Lemma mhas_false k m : mhas k m = false ↔ mget k m = None.
Proof. unfold mhas. by destruct (mget k m). Qed.

Lemma elem_mset k v m x : x ∈ mset k v m → x = (k, v) ∨ x ∈ m.
Proof.
  induction m as [|[k' v'] m IH]; cbn; [intros ->%list_elem_of_singleton; by left|].
  case_decide; subst; intros [->|Hx]%elem_of_cons; rewrite ?elem_of_cons; naive_solver.
Qed.
Lemma mget_elem k v m : mget k m = Some v → (k, v) ∈ m.
Proof.
  induction m as [|[k' v'] m IH]; simpl; [done|].
  case_decide; intros; simplify_eq; [left|right; auto].
Qed.
Lemma elem_mget k v m : NoDup (mkeys m) → (k, v) ∈ m → mget k m = Some v.
Proof.
  induction m as [|[k' v'] m IH]; simpl; [by intros _ ?%elem_of_nil|].
  intros [Hk Hnd]%NoDup_cons [[= <- <-]|Hin]%elem_of_cons; [by case_decide|].
  case_decide as Hd; [|auto]. subst. exfalso. apply Hk, list_elem_of_fmap. by exists (k', v).
Qed.
Lemma elem_mkeys k m : k ∈ mkeys m ↔ is_Some (mget k m).
Proof.
  induction m as [|[k' v'] m IH]; simpl.
  - split; [by intros ?%elem_of_nil|by intros [? ?]].
  - rewrite elem_of_cons, IH. case_decide; naive_solver.
Qed.

Lemma mkeys_mset k v m : mkeys (mset k v m) = if mhas k m then mkeys m else mkeys m ++ [k].
Proof.
  unfold mhas. induction m as [|[k' v'] m IH]; simpl; [done|].
  case_decide; [done|]. change (mkeys ((k', v') :: mset k v m)) with (k' :: mkeys (mset k v m)).
  rewrite IH. by destruct (mget k m).
Qed.
Lemma mset_NoDup k v m : NoDup (mkeys m) → NoDup (mkeys (mset k v m)).
Proof.
  intros Hnd. rewrite mkeys_mset. destruct (mhas k m) eqn:Hh; [done|].
  apply mhas_false in Hh. apply NoDup_app. split_and!; [done| |apply NoDup_singleton].
  intros x Hx ->%list_elem_of_singleton. apply elem_mkeys in Hx as [? ?]. congruence.
Qed.
End js_map.

(** [m.set(k, (m.get(k) ?? []).concat([x]))]: one more element in a bucket. *)
Definition mpush {K A} `{EqDecision K} (k : K) (x : A) (m : JsMap K (list A)) : JsMap K (list A) :=
  mset k (default [] (mget k m) ++ [x]) m.

(** A loop that buckets values: the bucket of [p], in order. *)
Section bucket_loop.
Context {K A B : Type} `{EqDecision K} (sel : A → bool) (key : A → K) (val : A → B).
Definition bucket_loop (l : list A) (m : JsMap K (list B)) : JsMap K (list B) :=
  fold_left (λ m x, if sel x then mpush (key x) (val x) m else m) l m.

Lemma bucket_loop_get l m p :
  mget p (bucket_loop l m) =
  match val <$> List.filter (λ x, sel x && bool_decide (key x = p)) l with
  | [] => mget p m
  | ms => Some (default [] (mget p m) ++ ms)
  end.
Proof.
  unfold bucket_loop. revert m. induction l as [|x l IH]; intros m; [done|].
  cbn [fold_left List.filter]. rewrite IH. destruct (sel x); [|done]. cbn [andb]. unfold mpush.
  case_bool_decide as Hp; rewrite ?fmap_cons.
  - subst p. rewrite mget_mset_eq. destruct (val <$> _); [done|]. simpl. by rewrite <-app_assoc.
  - by rewrite mget_mset_ne by congruence.
Qed.

Lemma bucket_loop_NoDup l m : NoDup (mkeys m) → NoDup (mkeys (bucket_loop l m)).
Proof.
  unfold bucket_loop. revert m. induction l as [|x l IH]; intros m Hm; [done|]. cbn [fold_left]. apply IH.
  destruct (sel x); [|done]. by apply mset_NoDup.
Qed.
End bucket_loop.

(** [for (const [k, v] of m) result.set(k, v)] *)
Definition set_all {K V} `{EqDecision K} (m result : JsMap K V) : JsMap K V :=
  fold_left (λ acc kv, mset kv.1 kv.2 acc) m result.

Lemma mget_set_all {K V} `{EqDecision K} (m result : JsMap K V) k :
  NoDup (mkeys m) → mget k (set_all m result) = match mget k m with Some v => Some v | None => mget k result end.
Proof.
  unfold set_all. revert result. induction m as [|[k' v'] m IH]; intros result; [done|].
  change (mkeys ((k', v') :: m)) with (k' :: mkeys m). intros [Hk Hnd]%NoDup_cons. cbn [fold_left mget fst snd].
  rewrite IH, mget_mset by done. case_decide as Hd; [|done]. subst.
  destruct (mget k' m) eqn:Hg; [|done]. exfalso. apply Hk, elem_mkeys. by eexists.
Qed.

(** [s.add(x)] *)
Definition sadd {A} `{EqDecision A} (x : A) (s : list A) : list A :=
  if decide (x ∈ s) then s else s ++ [x].

Lemma elem_sadd {A} `{EqDecision A} (x y : A) s : y ∈ sadd x s ↔ y = x ∨ y ∈ s.
Proof. unfold sadd. case_decide; rewrite ?elem_of_app, ?list_elem_of_singleton; naive_solver. Qed.

(** ** Stable sort *)

Lemma StronglySorted_lookup {A} (R : A → A → Prop) l i j x y :
  StronglySorted R l → l !! i = Some x → l !! j = Some y → (i < j)%nat → R x y.
Proof.
  intros Hs. revert i j. induction Hs as [|a l Hs IH Ha]; intros i j Hi Hj Hij; [done|].
  destruct i as [|i], j as [|j]; try lia; simplify_eq/=.
  - rewrite Forall_forall in Ha. apply Ha. by eapply list_elem_of_lookup_2.
  - eapply IH; [done..|lia].
Qed.

Lemma StronglySorted_sub_rel {A} (R R' : A → A → Prop) l :
  (∀ x y, x ∈ l → y ∈ l → R x y → R' x y) → StronglySorted R l → StronglySorted R' l.
Proof.
  intros Hsub Hs. induction Hs as [|a l Hs IH Ha]; constructor.
  - apply IH. intros x y Hx Hy. apply Hsub; by right.
  - rewrite Forall_forall in *. intros y Hy. apply Hsub; [left|by right|by apply Ha].
Qed.

Section sort.
Context {A : Type} (leb : A → A → bool).

Fixpoint insert_by (x : A) (l : list A) : list A :=
  match l with
  | [] => [x]
  | y :: l' => if leb x y then x :: l else y :: insert_by x l'
  end.

(** [[...l].sort((a, b) => …)] where [leb a b] says the comparison is at most 0. *)
Definition sort_by (l : list A) : list A := foldr insert_by [] l.

Lemma insert_by_perm x l : insert_by x l ≡ₚ x :: l.
Proof.
  induction l as [|y l IH]; simpl; [done|]. destruct (leb x y); [done|].
  rewrite IH. apply Permutation_swap.
Qed.
Lemma sort_by_map (g : A → A) l :
  (∀ x y, leb (g x) (g y) = leb x y) → sort_by (g <$> l) = g <$> sort_by l.
Proof.
  intros Hg. unfold sort_by. induction l as [|x l IH]; [done|]. rewrite fmap_cons. cbn [foldr]. rewrite IH.
  generalize (foldr insert_by [] l). clear -Hg. intros l. induction l as [|y l IH]; [done|].
  rewrite fmap_cons. cbn [insert_by]. rewrite Hg. destruct (leb x y); [done|]. by rewrite fmap_cons, IH.
Qed.
Lemma sort_by_perm l : sort_by l ≡ₚ l.
Proof. induction l as [|x l IH]; simpl; [done|]. by rewrite insert_by_perm, IH. Qed.

Context (total : ∀ x y, leb x y = false → leb y x = true).
Context (trans : ∀ x y z, leb x y = true → leb y z = true → leb x z = true).

Lemma insert_by_sorted x l :
  StronglySorted (λ a b, leb a b = true) l → StronglySorted (λ a b, leb a b = true) (insert_by x l).
Proof.
  induction 1 as [|y l Hl IH Hy]; simpl; [by repeat constructor|].
  destruct (leb x y) eqn:Hxy.
  - constructor; [by constructor|]. constructor; [done|].
    eapply Forall_impl; [exact Hy|]. intros z Hz. by eapply trans.
  - constructor; [done|]. rewrite insert_by_perm. constructor; auto.
Qed.
Lemma sort_by_sorted l : StronglySorted (λ a b, leb a b = true) (sort_by l).
Proof. induction l; simpl; [constructor|by apply insert_by_sorted]. Qed.
End sort.
