(* ===== verification/Reservations.v ===== *)
(** * Reservations

    [src/src/services/reservationService.ts], with [releaseDnsResolvedAt] of
    [dnsResolvedReservationService.ts]: the life of a reservation row from
    create to release or expiry, its push to the FortiGate, and the queue that
    retries pushes. *)

From S2P Require Import Prelude Cidr Store Networks Http Push.

(** ** Inputs and results *)

Record CreateReservationInput := mkCreateReservationInput {
  ci_subnetId : string;
  ci_ipAddress : option string;
  ci_hostname : option string;
  ci_owner : option string;
  ci_projectRef : option string;
  ci_expiresAt : option Z;
  ci_notes : option string;
  ci_createdBy : option string;
  ci_macAddress : option string;
}.

Record UpdateReservationInput := mkUpdateReservationInput {
  ui_hostname : option string;
  ui_owner : option string;
  ui_projectRef : option string;
  ui_expiresAt : option Z;
  ui_notes : option string;
  ui_macAddress : option string;
}.

Inductive RetryOutcome :=
  | OSynced | OTransient | OPermanent | OCancelled | OSuperseded
  | OSkippedMonitoredDown | OSkippedBackoff.
#[global] Instance RetryOutcome_eq_dec : EqDecision RetryOutcome.
Proof. solve_decision. Defined.

Record RetryCounts := mkRetryCounts {
  rc_attempted : nat;
  rc_succeeded : nat;
  rc_transient : nat;
  rc_permanent : nat;
  rc_cancelled : nat;
  rc_superseded : nat;
  rc_skippedMonitoredDown : nat;
  rc_skippedBackoff : nat;
}.

(** A row with its [subnet] and [subnet.integration], as one query read them. *)
Record QueuedReservationRow := mkQueuedRow {
  q_row : Reservation;
  q_subnet : Subnet;
  q_integration : option Integration;
}.

Definition show_status (st : ReservationStatus) : string :=
  match st with Active => "active" | Expired => "expired" | Released => "released" end.
Definition show_source (st : ReservationSourceType) : string :=
  match st with
  | Manual => "manual" | DhcpReservation => "dhcp_reservation" | DhcpLease => "dhcp_lease"
  | InterfaceIp => "interface_ip" | Vip => "vip" | FortiSwitch => "fortiswitch"
  | Fortinap => "fortinap" | StFortimanager => "fortimanager" | StFortigate => "fortigate"
  | DnsResolved => "dns_resolved"
  end.

(** [x || null] *)
Definition or_null (o : option string) : option string := if Js.otruthy o then o else None.

Definition pushable_type (t : string) : bool := String.eqb t "fortimanager" || String.eqb t "fortigate".
Definition push_enabled (i : Integration) : bool :=
  bool_decide (pushReservations (i_config i) = Some true).

(** ** Push columns *)

Definition stamp_synced (target : option string) (sc en at_ : Z) (p : PushState) : PushState :=
  mkPushState target (Some sc) (Some en) (Some Synced) (Some at_) None None 0 None.
Definition stamp_queued (target : option string) (queued : Z) (attempts : Z) (last : option Z)
    (err : string) (p : PushState) : PushState :=
  mkPushState target (pushedScopeId p) (pushedEntryId p) (Some Pending) (pushedAt p) (Some err)
    (Some queued) attempts last.
Definition stamp_cancelled (p : PushState) : PushState :=
  mkPushState None (pushedScopeId p) (pushedEntryId p) None (pushedAt p) None None 0 None.
Definition stamp_attempt (at_ : Z) (p : PushState) : PushState :=
  mkPushState (pushedToId p) (pushedScopeId p) (pushedEntryId p) (pushStatus p) (pushedAt p)
    (pushError p) (pushQueuedAt p) (pushAttempts p + 1) (Some at_).
Definition stamp_error (err : string) (p : PushState) : PushState :=
  mkPushState (pushedToId p) (pushedScopeId p) (pushedEntryId p) (pushStatus p) (pushedAt p)
    (Some err) (pushQueuedAt p) (pushAttempts p) (pushLastAttemptAt p).
Definition stamp_failed (err : string) (p : PushState) : PushState :=
  mkPushState (pushedToId p) (pushedScopeId p) (pushedEntryId p) (Some FailedPermanent) (pushedAt p)
    (Some err) (pushQueuedAt p) (pushAttempts p) (pushLastAttemptAt p).
Definition stamp_collided (err : string) (at_ : Z) (p : PushState) : PushState :=
  mkPushState (pushedToId p) (pushedScopeId p) (pushedEntryId p) (Some FailedPermanent) (pushedAt p)
    (Some err) (pushQueuedAt p) (pushAttempts p) (Some at_).
Definition stamp_requeued (queued : Z) (err : option string) (p : PushState) : PushState :=
  mkPushState (pushedToId p) (pushedScopeId p) (pushedEntryId p) (Some Pending) (pushedAt p)
    err (Some queued) (pushAttempts p) (pushLastAttemptAt p).
(** [updateReservation] after a device write; the queue columns stay. *)
Definition stamp_mac_updated (target : string) (sc en at_ : Z) (p : PushState) : PushState :=
  mkPushState (Some target) (Some sc) (Some en) (Some Synced) (Some at_) None
    (pushQueuedAt p) (pushAttempts p) (pushLastAttemptAt p).

Definition on_push (f : PushState → PushState) (r : Reservation) : Reservation :=
  set_r_push (f (r_push r)) r.

(** ** Backoff *)

Definition BACKOFF_BASE_SECONDS : Z := 60.
Definition BACKOFF_CAP_SECONDS : Z := 1800.

Definition backoffSecondsFor (attempts : Z) : Z :=
  if attempts <=? 0 then BACKOFF_BASE_SECONDS / 2
  else Z.min (BACKOFF_BASE_SECONDS * 2 ^ (attempts - 1)) BACKOFF_CAP_SECONDS.

(** [orderBy: { pushQueuedAt: "asc" }]; rows without a time come last. *)
Definition queued_before (a b : Reservation) : bool :=
  match pushQueuedAt (r_push a), pushQueuedAt (r_push b) with
  | Some x, Some y => x <=? y
  | Some _, None => true
  | None, Some _ => false
  | None, None => true
  end.
Fixpoint insert_queued (r : Reservation) (l : list Reservation) : list Reservation :=
  match l with
  | [] => [r]
  | x :: l' => if queued_before r x then r :: l else x :: insert_queued r l'
  end.
Definition sort_queued (l : list Reservation) : list Reservation := foldr insert_queued [] l.

Section reservations.
Context `{NetmaskLib, IpamStore} `{Net W}.
Notation St := (State W).

(** A device operation from inside a handler. *)
Definition on_world {A} (m : M W A) : M St A := λ s,
  let '(w', r) := m (world s) in (set_world w' s, r).
(** [new Date()] *)
Definition newDate : M St Z := hgets (λ s, now (world s)).

Definition require_reservation (id : string) : M St Reservation :=
  let! r := findReservation (has_id id) in
  match r with
  | Some r => hret r
  | None => hthrow (AppError 404 ("Reservation " +:+ id +:+ " not found"))
  end.

(** The row a required foreign key points at. *)
Definition subnet_of (r : Reservation) : M St Subnet :=
  let! x := findSubnet (has_id (r_subnetId r)) in
  match x with
  | Some x => hret x
  | None => hthrow (TypeError "Cannot read properties of null (reading 'integration')")
  end.

Definition getReservation (id : string) : M St Reservation := require_reservation id.

(** ** Create *)

Record PushTarget := mkPushTarget {
  pt_eligible : bool;
  pt_integration : option Integration;
  pt_deviceName : string;
}.

Definition resolvePushEligibility (subnet : Subnet) (integration : option Integration)
    (ipAddress : option string) : PushTarget :=
  let no := mkPushTarget false None "" in
  if negb (Js.otruthy ipAddress) then no
  else match integration with
       | None => no
       | Some i =>
           if negb (pushable_type (i_type i)) then no
           else if negb (push_enabled i) then no
           else mkPushTarget true (Some i) (Js.oor (s_fortigateDevice subnet) "")
       end.

Definition releaseDnsResolvedAt (subnetId ipAddress : string) : M St unit :=
  hcatch (
    let! count := reservation_updateMany
      (λ r, bool_decide (r_subnetId r = subnetId) && bool_decide (r_ipAddress r = Some ipAddress) &&
            bool_decide (r_status r = Active) && bool_decide (r_sourceType r = DnsResolved))
      (set_r_status Released) in
    if (0 <? count)%nat then logEvent "reservation.dns_resolved.released" "info" None else hret tt)
  (λ _, hret tt).

(** Guards of steps 1 to 3. *)
Definition check_create (input : CreateReservationInput) : M St (Subnet * PushTarget) :=
  let! found := findSubnet (has_id (ci_subnetId input)) in
  match found with
  | None => hthrow (AppError 404 ("Subnet " +:+ ci_subnetId input +:+ " not found"))
  | Some subnet =>
      let! integration := findIntegration (s_discoveredBy subnet) in
      throw_if (bool_decide (s_status subnet = Deprecated))
        (AppError 409 ("Subnet " +:+ s_cidr subnet +:+ " is deprecated and cannot accept new reservations")) ;!
      (if Js.otruthy (ci_ipAddress input) then
         let ip := default "" (ci_ipAddress input) in
         throw_if (negb (isValidIpAddress ip)) (AppError 400 ("Invalid IP address: " +:+ ip)) ;!
         throw_if (negb (ipInCidr ip (s_cidr subnet)))
           (AppError 400 ("IP " +:+ ip +:+ " is not within subnet " +:+ s_cidr subnet)) ;!
         let! existing := findReservation (λ r,
           bool_decide (r_subnetId r = ci_subnetId input) && bool_decide (r_ipAddress r = Some ip) &&
           bool_decide (r_status r = Active) && negb (bool_decide (r_sourceType r = DnsResolved))) in
         match existing with
         | Some e => hthrow (AppError 409 ("IP " +:+ ip +:+ " is already actively reserved (reservation: "
                       +:+ r_id e +:+ ")"))
         | None => hret tt
         end
       else
         let! existing := findReservation (λ r,
           bool_decide (r_subnetId r = ci_subnetId input) && bool_decide (r_ipAddress r = None) &&
           bool_decide (r_status r = Active)) in
         match existing with
         | Some e => hthrow (AppError 409 ("Subnet " +:+ s_cidr subnet +:+
                       " is already fully reserved (reservation: " +:+ r_id e +:+ ")"))
         | None => hret tt
         end) ;!
      let push := resolvePushEligibility subnet integration (ci_ipAddress input) in
      throw_if (pt_eligible push &&
                (negb (Js.otruthy (ci_macAddress input)) ||
                 negb (Js.truthy (Js.trim (default "" (ci_macAddress input))))))
        (AppError 400 "MAC address is required — this subnet's integration is configured to push reservations to the FortiGate, and DHCP reservations are MAC→IP") ;!
      throw_if (pt_eligible push && negb (Js.truthy (pt_deviceName push)))
        (AppError 409 ("Subnet " +:+ s_cidr subnet +:+ " has no fortigateDevice — the integration discovered the subnet without a device name, so push cannot resolve a target FortiGate")) ;!
      hret (subnet, push)
  end.

Definition new_reservation (input : CreateReservationInput) (mac : option string) (t : Z) (id : string)
  : Reservation :=
  mkReservation id (ci_subnetId input) (ci_ipAddress input) (ci_hostname input)
    (or_null (ci_owner input)) (or_null (ci_projectRef input)) (ci_expiresAt input)
    (ci_notes input) Active Manual (ci_createdBy input) mac no_push no_stale t None.

(** Step 4: the row, and the subnet's status for a full-subnet reservation. *)
Definition insert_reservation (input : CreateReservationInput) (mac : option string)
  : M St Reservation :=
  transaction (
    let! t := newDate in
    let! res := reservation_create (new_reservation input mac t) in
    (if negb (Js.otruthy (ci_ipAddress input))
     then let! _ := subnet_update (ci_subnetId input) (set_s_status Reserved) in hret tt
     else hret tt) ;!
    hret res).

Definition firewall_asset (deviceName integrationId : string) : M St (option Asset) :=
  findAsset (λ a, bool_decide (a_hostname a = Some deviceName) && String.eqb (a_assetType a) "firewall" &&
                  bool_decide (a_discoveredByIntegrationId a = Some integrationId)).

Definition is_monitored (a : option Asset) : bool :=
  match a with Some a => a_monitored a | None => false end.
Definition monitor_status_is (st : string) (a : option Asset) : bool :=
  match a with Some a => bool_decide (a_monitorStatus a = Some st) | None => false end.

(** Step 6: the push of a freshly created row. *)
Definition push_created (input : CreateReservationInput) (subnet : Subnet) (integration : Integration)
    (deviceName ip mac : string) (reservation : Reservation) : M St Reservation :=
  let id := r_id reservation in
  let! firewall := firewall_asset deviceName (i_id integration) in
  if is_monitored firewall && monitor_status_is "down" firewall then
    let! t := newDate in
    let! stamped := reservation_update id (on_push (stamp_queued (s_discoveredBy subnet) t 0 None
      ("FortiGate " +:+ dq +:+ deviceName +:+ dq +:+
       " is currently down — queued without attempting transport"))) in
    logEvent "reservation.push.queued" "info" (Some id) ;!
    hret stamped
  else
    hcatch (
      let! pushed := on_world (pushReservation
        (mkPushParams (s_cidr subnet) ip mac (ci_hostname input) (ci_notes input)
           (ci_createdBy input) integration deviceName)) in
      let! t := newDate in
      let! stamped := reservation_update id (λ r, set_r_sourceType DhcpReservation
        (on_push (stamp_synced (s_discoveredBy subnet) (pr_scopeId pushed) (pr_entryId pushed) t) r)) in
      logEvent "reservation.push.succeeded" "info" (Some id) ;!
      hret stamped)
    (λ err,
      match classifyPushError err with
      | Transient =>
          let! t := newDate in
          let! stamped := reservation_update id
            (on_push (stamp_queued (s_discoveredBy subnet) t 1 (Some t) (exn_message err))) in
          logEvent "reservation.push.queued" "info" (Some id) ;!
          hret stamped
      | Permanent =>
          hcatch (let! _ := reservation_delete id in hret tt) (λ _, hret tt) ;!
          logEvent "reservation.push.failed" "warning" None ;!
          hthrow err
      end).

Definition createReservation (input : CreateReservationInput) : M St Reservation :=
  let! checked := check_create input in
  let '(subnet, push) := checked in
  (if Js.otruthy (ci_ipAddress input)
   then releaseDnsResolvedAt (ci_subnetId input) (default "" (ci_ipAddress input)) else hret tt) ;!
  let macClean := if Js.otruthy (ci_macAddress input)
                  then normalizeMac <$> ci_macAddress input else None in
  let! reservation := insert_reservation input macClean in
  match pt_integration push, macClean with
  | Some integration, Some mac =>
      if negb (pt_eligible push) || negb (Js.otruthy (ci_ipAddress input)) || negb (Js.truthy mac)
      then hret reservation
      else push_created input subnet integration (pt_deviceName push)
             (default "" (ci_ipAddress input)) mac reservation
  | _, _ => hret reservation
  end.

(** ** Update *)

(** [undefined], cleared, or a normalised MAC; an ill-formed one throws. *)
Definition normalized_new_mac (mac : option string) : result (option (option string)) :=
  match mac with
  | None => Ok None
  | Some m =>
      let trimmed := Js.trim m in
      if String.eqb trimmed "" then Ok (Some None)
      else let n := normalizeMac trimmed in
           if isMac48 n then Ok (Some (Some n))
           else Throw (AppError 400 ("Invalid MAC address: " +:+ m))
  end.

Definition or_keep {A} (new old : option A) : option A := match new with Some _ => new | None => old end.

Definition apply_update (input : UpdateReservationInput) (owner : option string)
    (mac : option (option string)) (push : PushState → PushState) (r : Reservation) : Reservation :=
  mkReservation (r_id r) (r_subnetId r) (r_ipAddress r) (or_keep (ui_hostname input) (r_hostname r))
    (or_keep owner (r_owner r)) (or_keep (ui_projectRef input) (r_projectRef r))
    (or_keep (ui_expiresAt input) (r_expiresAt r)) (or_keep (ui_notes input) (r_notes r))
    (r_status r) (r_sourceType r) (r_createdBy r) (default (r_macAddress r) mac) (push (r_push r))
    (r_stale r) (r_createdAt r) (r_vipInfo r).

Definition push_mac_update (input : UpdateReservationInput) (r : Reservation) (subnet : Subnet)
    (integration : Integration) (mac : string) : M St (PushState → PushState) :=
  hcatch (
    let! result := on_world (updatePushedReservation
      (mkUpdatePushParams (s_cidr subnet) (default "" (r_ipAddress r)) mac
         (or_keep (ui_hostname input) (r_hostname r)) (or_keep (ui_notes input) (r_notes r))
         (r_createdBy r) (pushedScopeId (r_push r)) (pushedEntryId (r_push r)) integration
         (default "" (s_fortigateDevice subnet)))) in
    let! t := newDate in
    logEvent "reservation.push.updated" "info" (Some (r_id r)) ;!
    hret (stamp_mac_updated (i_id integration) (pr_scopeId result) (pr_entryId result) t))
  (λ err, logEvent "reservation.push.update_failed" "warning" (Some (r_id r)) ;! hthrow err).

Definition updateReservation (id : string) (input : UpdateReservationInput) (actor : option string)
  : M St Reservation :=
  let! r := require_reservation id in
  let! subnet := subnet_of r in
  let! integration := findIntegration (s_discoveredBy subnet) in
  throw_if (negb (bool_decide (r_status r = Active)))
    (AppError 409 ("Cannot update a " +:+ show_status (r_status r) +:+ " reservation")) ;!
  let actor := Js.trim (Js.oor actor "") in
  let resolvedOwner := match ui_owner input with
                       | Some o => Some o
                       | None => if Js.truthy actor then Some actor else None
                       end in
  let! newMac := hlift (normalized_new_mac (ui_macAddress input)) in
  let currentMac := if Js.otruthy (r_macAddress r) then normalizeMac <$> r_macAddress r else None in
  let macChanged := match newMac with Some m => negb (bool_decide (m = currentMac)) | None => false end in
  let pushEligible :=
    match integration with
    | Some i => pushable_type (i_type i) && push_enabled i
    | None => false
    end && Js.otruthy (s_fortigateDevice subnet) && Js.otruthy (r_ipAddress r) in
  let isQueued := bool_decide (pushStatus (r_push r) = Some Pending) in
  let! push :=
    (if macChanged && pushEligible && isQueued then
       throw_if (negb (Js.otruthy (default None newMac)))
         (AppError 400 "Cannot clear MAC on a queued push-eligible reservation — the FortiGate write will require it. Release the reservation instead.") ;!
       hret (λ p : PushState, p)
     else if macChanged && pushEligible then
       throw_if (negb (Js.otruthy (default None newMac)))
         (AppError 400 "Cannot clear MAC on a reservation whose subnet pushes DHCP reservations to a FortiGate — DHCP reservations are MAC→IP and require a MAC. Release the reservation instead.") ;!
       match integration, default None newMac with
       | Some i, Some mac => push_mac_update input r subnet i mac
       | _, _ => hret (λ p : PushState, p)
       end
     else hret (λ p : PushState, p)) in
  reservation_update id (apply_update input resolvedOwner (if macChanged then newMac else None) push).

(** ** Release *)

Definition release_unpush (r : Reservation) (subnet : Subnet) (pushedTo : option Integration)
  : M St unit :=
  match pushedTo, pushedScopeId (r_push r), pushedEntryId (r_push r) with
  | Some integration, Some sc, Some en =>
      let deviceName := Js.oor (s_fortigateDevice subnet) "" in
      if Js.truthy deviceName then
        hcatch (let! _ := on_world (unpushReservation integration deviceName sc en) in
                logEvent "reservation.unpush.succeeded" "info" (Some (r_id r)))
          (λ _, logEvent "reservation.unpush.failed" "warning" (Some (r_id r)))
      else hret tt
  | _, _, _ => hret tt
  end.

Definition release_lease (r : Reservation) (subnet : Subnet) (integration : option Integration)
  : M St unit :=
  match integration with
  | Some i =>
      if bool_decide (r_sourceType r = DhcpLease) && Js.otruthy (r_ipAddress r) &&
         Js.otruthy (s_fortigateDevice subnet) && push_enabled i
      then
        hcatch (let! _ := on_world (releaseDhcpLease i (default "" (s_fortigateDevice subnet))
                                      (default "" (r_ipAddress r))) in
                logEvent "reservation.lease_release.succeeded" "info" (Some (r_id r)))
          (λ _, logEvent "reservation.lease_release.failed" "warning" (Some (r_id r)))
      else hret tt
  | None => hret tt
  end.

Definition release_row (r : Reservation) : M St Reservation :=
  transaction (
    let! _ := reservation_deleteMany (λ x,
      negb (has_id (r_id r) x) && bool_decide (r_subnetId x = r_subnetId r) &&
      bool_decide (r_ipAddress x = r_ipAddress r) && bool_decide (r_status x = Released)) in
    let! released := reservation_update (r_id r)
      (λ x, set_r_push no_push (set_r_status Released x)) in
    (if negb (Js.otruthy (r_ipAddress r))
     then let! _ := subnet_update (r_subnetId r) (set_s_status Available) in hret tt
     else hret tt) ;!
    hret released).

Definition releaseReservation (id : string) : M St Reservation :=
  let! r := require_reservation id in
  let! subnet := subnet_of r in
  let! integration := findIntegration (s_discoveredBy subnet) in
  let! pushedTo := findIntegration (pushedToId (r_push r)) in
  throw_if (negb (bool_decide (r_status r = Active)))
    (AppError 409 ("Reservation is already " +:+ show_status (r_status r))) ;!
  let isQueued := bool_decide (pushStatus (r_push r) = Some Pending) in
  (if isQueued then logEvent "reservation.push.queued.released" "info" (Some id) else hret tt) ;!
  (if isQueued then hret tt else release_unpush r subnet pushedTo) ;!
  (if isQueued then hret tt else release_lease r subnet integration) ;!
  release_row r.

(** ** Next available address *)

(** The first host of a page that is not reserved. *)
Definition free_host (reserved : list string) (addresses : list EnumeratedIp) : option string :=
  address <$> List.find (λ a, bool_decide (ip_type a = Host) &&
                                 negb (bool_decide (address a ∈ reserved))) addresses.

(** The [while (!found)] loop over pages of 256 addresses. *)
Fixpoint scan_pages (fuel : nat) (cidr : string) (reserved : list string) (page : Z)
  : option (result (option string)) :=
  match fuel with
  | O => None
  | S fuel =>
      match enumerateSubnetIps cidr page 256 with
      | Throw e => Some (Throw e)
      | Ok (addresses, total) =>
          match free_host reserved addresses with
          | Some ip => Some (Ok (Some ip))
          | None =>
              if total <=? page * 256 then Some (Ok None)
              else scan_pages fuel cidr reserved (page + 1)
          end
      end
  end.

(** One more page than the block has addresses for. *)
Definition page_fuel (cidr : string) : nat :=
  match enumerateSubnetIps cidr 1 256 with
  | Ok (_, total) => Z.to_nat (total / 256 + 2)
  | Throw _ => 1
  end.

Definition nextAvailableReservation (input : CreateReservationInput) : M St Reservation :=
  let! found := findSubnet (has_id (ci_subnetId input)) in
  match found with
  | None => hthrow (AppError 404 ("Subnet " +:+ ci_subnetId input +:+ " not found"))
  | Some subnet =>
      throw_if (bool_decide (s_status subnet = Deprecated))
        (AppError 409 ("Subnet " +:+ s_cidr subnet +:+ " is deprecated and cannot accept new reservations")) ;!
      throw_if (negb (bool_decide (detectIpVersion (s_cidr subnet) = v4)))
        (AppError 400 "Auto-allocate is only supported for IPv4 subnets") ;!
      let! active := findReservations (λ r,
        bool_decide (r_subnetId r = ci_subnetId input) && bool_decide (r_status r = Active)) in
      let reservedIps := omap (λ r, or_null (r_ipAddress r)) active in
      let! found := hlift (default (Throw out_of_fuel)
                             (scan_pages (page_fuel (s_cidr subnet)) (s_cidr subnet) reservedIps 1)) in
      match found with
      | None => hthrow (AppError 409 ("No available IP addresses in subnet " +:+ s_cidr subnet))
      | Some ip =>
          createReservation (mkCreateReservationInput (ci_subnetId input) (Some ip) (ci_hostname input)
            (ci_owner input) (ci_projectRef input) (ci_expiresAt input) (ci_notes input)
            (ci_createdBy input) (ci_macAddress input))
      end
  end.

(** ** Expiry *)

Definition is_stale (t : Z) (r : Reservation) : bool :=
  bool_decide (r_status r = Active) &&
  match r_expiresAt r with Some e => e <? t | None => false end.

Definition expireStaleReservations : M St nat :=
  let! t := newDate in
  reservation_updateMany (is_stale t) (set_r_status Expired).

(** ** The push queue *)

Definition in_push_queue (r : Reservation) : bool :=
  bool_decide (r_status r = Active) &&
  (bool_decide (pushStatus (r_push r) = Some Pending) ||
   bool_decide (pushStatus (r_push r) = Some FailedPermanent)).

Definition listPushQueue : M St (list Reservation) :=
  let! rows := findReservations in_push_queue in hret (sort_queued rows).
Definition countPushQueue : M St Z := countReservations in_push_queue.

(** The guards that take a row out of the queue, in order. *)
Definition cancel_reason (q : QueuedReservationRow) : option string :=
  let r := q_row q in
  let subnet := q_subnet q in
  if bool_decide (s_status subnet = Deprecated) then Some "subnet_deprecated"%string
  else if negb (Js.otruthy (s_fortigateDevice subnet)) then Some "subnet_no_fortigateDevice"%string
  else if negb (Js.otruthy (r_ipAddress r)) then Some "reservation_no_ip"%string
  else if negb (Js.otruthy (r_macAddress r)) then Some "reservation_no_mac"%string
  else match q_integration q with
       | None => Some "integration_deleted"%string
       | Some i =>
           if negb (i_enabled i) then Some "integration_disabled"%string
           else if negb (pushable_type (i_type i))
           then Some ("integration_type_" +:+ i_type i +:+ "_not_pushable")
           else if negb (push_enabled i) then Some "pushReservations_disabled"%string
           else None
       end.

(** [cancelReason]: the update is not awaited and its failure ignored. *)
Definition cancel_queued (id : string) : M St RetryOutcome :=
  hcatch (let! _ := reservation_update id (on_push stamp_cancelled) in hret tt) (λ _, hret tt) ;!
  logEvent "reservation.push.queued.cancelled" "info" (Some id) ;!
  hret OCancelled.

(** Readiness gates of the batch path. *)
Definition not_ready (r : Reservation) (firewall : option Asset) (t : Z) : option RetryOutcome :=
  if is_monitored firewall && negb (monitor_status_is "up" firewall)
  then Some OSkippedMonitoredDown
  else if negb (is_monitored firewall) then
    match pushLastAttemptAt (r_push r) with
    | Some last =>
        if t - last <? backoffSecondsFor (pushAttempts (r_push r)) * 1000
        then Some OSkippedBackoff else None
    | None => None
    end
  else None.

(** Step 4: count the attempt, push, record the outcome. *)
Definition push_queued (q : QueuedReservationRow) (integration : Integration) : M St RetryOutcome :=
  let r := q_row q in
  let id := r_id r in
  let! t := newDate in
  let! _ := reservation_update id (on_push (stamp_attempt t)) in
  hcatch (
    let! pushed := on_world (pushReservation
      (mkPushParams (s_cidr (q_subnet q)) (default "" (r_ipAddress r)) (default "" (r_macAddress r))
         (r_hostname r) (r_notes r) (r_createdBy r) integration
         (default "" (s_fortigateDevice (q_subnet q))))) in
    let! t := newDate in
    let! _ := reservation_update id (λ x, set_r_sourceType DhcpReservation
      (on_push (stamp_synced (Some (i_id integration)) (pr_scopeId pushed) (pr_entryId pushed) t) x)) in
    logEvent "reservation.push.queued.succeeded" "info" (Some id) ;!
    hret OSynced)
  (λ err,
    match classifyPushError err with
    | Transient =>
        let! _ := reservation_update id (on_push (stamp_error (exn_message err))) in
        logEvent "reservation.push.queued.retry_failed" "info" (Some id) ;!
        hret OTransient
    | Permanent =>
        let! _ := reservation_update id (on_push (stamp_failed (exn_message err))) in
        logEvent "reservation.push.queued.failed_permanent" "warning" (Some id) ;!
        hret OPermanent
    end).

Definition attemptQueuedPush (q : QueuedReservationRow) (bypassReadinessGates : bool)
  : M St RetryOutcome :=
  let r := q_row q in
  let id := r_id r in
  match cancel_reason q, q_integration q with
  | Some _, _ | _, None => cancel_queued id
  | None, Some integration =>
      let! collider := findReservation (λ x,
        negb (has_id id x) && bool_decide (r_subnetId x = r_subnetId r) &&
        bool_decide (r_ipAddress x = r_ipAddress r) && bool_decide (r_status x = Active)) in
      match collider with
      | Some c =>
          let! t := newDate in
          let! _ := reservation_update id (on_push (stamp_collided
            ("IP collided during queue — discovered " +:+ show_source (r_sourceType c) +:+
             (if Js.otruthy (r_macAddress c) then " by " +:+ default "" (r_macAddress c) else "")) t)) in
          logEvent "reservation.push.queued.collided" "warning" (Some id) ;!
          hret OSuperseded
      | None =>
          let! skip :=
            (if bypassReadinessGates then hret None
             else let! firewall := firewall_asset (default "" (s_fortigateDevice (q_subnet q)))
                                     (i_id integration) in
                  let! t := newDate in
                  hret (not_ready r firewall t)) in
          match skip with
          | Some o => hret o
          | None => push_queued q integration
          end
      end
  end.

(** [QUEUED_RESERVATION_INCLUDE] *)
Definition load_queued (r : Reservation) : M St QueuedReservationRow :=
  let! subnet := subnet_of r in
  let! integration := findIntegration (s_discoveredBy subnet) in
  hret (mkQueuedRow r subnet integration).

Definition count_outcome (o : RetryOutcome) (c : RetryCounts) : RetryCounts :=
  let '(mkRetryCounts a su tr pe ca sp sd sb) := c in
  match o with
  | OSynced => mkRetryCounts a (S su) tr pe ca sp sd sb
  | OTransient => mkRetryCounts a su (S tr) pe ca sp sd sb
  | OPermanent => mkRetryCounts a su tr (S pe) ca sp sd sb
  | OCancelled => mkRetryCounts a su tr pe (S ca) sp sd sb
  | OSuperseded => mkRetryCounts a su tr pe ca (S sp) sd sb
  | OSkippedMonitoredDown => mkRetryCounts a su tr pe ca sp (S sd) sb
  | OSkippedBackoff => mkRetryCounts a su tr pe ca sp sd (S sb)
  end.
Definition count_attempt (c : RetryCounts) : RetryCounts :=
  let '(mkRetryCounts a su tr pe ca sp sd sb) := c in mkRetryCounts (S a) su tr pe ca sp sd sb.

Fixpoint hmapM {A B} (f : A → M St B) (l : list A) : M St (list B) :=
  match l with
  | [] => hret []
  | a :: l' => let! b := f a in let! bs := hmapM f l' in hret (b :: bs)
  end.

Fixpoint retry_rows (rows : list QueuedReservationRow) (counts : RetryCounts) : M St RetryCounts :=
  match rows with
  | [] => hret counts
  | q :: rows' =>
      let! outcome := attemptQueuedPush q false in
      retry_rows rows' (count_outcome outcome (count_attempt counts))
  end.

Definition is_pending (r : Reservation) : bool :=
  bool_decide (pushStatus (r_push r) = Some Pending) && bool_decide (r_status r = Active).

Definition retryPendingReservations : M St RetryCounts :=
  let! pending := findReservations is_pending in
  let! rows := hmapM load_queued (sort_queued pending) in
  retry_rows rows (mkRetryCounts 0 0 0 0 0 0 0 0).

Definition show_push (p : option PushStatus) : string :=
  match p with
  | Some Synced => "synced" | Some Drift => "drift" | Some Pending => "pending"
  | Some FailedPermanent => "failed_permanent" | None => "null"
  end.

Definition retryReservationNow (id : string) : M St (RetryOutcome * Reservation) :=
  let! r := require_reservation id in
  let! row := load_queued r in
  throw_if (negb (bool_decide (r_status r = Active)))
    (AppError 409 ("Cannot retry a " +:+ show_status (r_status r) +:+ " reservation")) ;!
  throw_if (negb (bool_decide (pushStatus (r_push r) = Some Pending)) &&
            negb (bool_decide (pushStatus (r_push r) = Some FailedPermanent)))
    (AppError 409 ("Reservation " +:+ id +:+ " is not queued (pushStatus=" +:+
       show_push (pushStatus (r_push r)) +:+ ")")) ;!
  (if bool_decide (pushStatus (r_push r) = Some FailedPermanent) then
     let! t := newDate in
     let! _ := reservation_update id
       (on_push (stamp_requeued (default t (pushQueuedAt (r_push r))) (pushError (r_push r)))) in
     logEvent "reservation.push.queued.retry_manual" "info" (Some id)
   else logEvent "reservation.push.queued.retry_manual" "info" (Some id)) ;!
  let! outcome := attemptQueuedPush row true in
  let! reservation := getReservation id in
  hret (outcome, reservation).

Definition triggerRetryAfterStatusChange (assetId : string) : M St unit :=
  let! asset := findAsset (λ a, String.eqb (a_id a) assetId) in
  match asset with
  | None => hret tt
  | Some a =>
      if negb (String.eqb (a_assetType a) "firewall") || negb (Js.otruthy (a_hostname a)) ||
         negb (Js.otruthy (a_discoveredByIntegrationId a)) then hret tt
      else
        let! owned := findSubnets (λ x,
          bool_decide (s_fortigateDevice x = a_hostname a) &&
          bool_decide (s_discoveredBy x = a_discoveredByIntegrationId a)) in
        let! count := countReservations (λ r,
          is_pending r && bool_decide (r_subnetId r ∈ s_id <$> owned)) in
        if count =? 0 then hret tt
        else hcatch (let! _ := retryPendingReservations in hret tt) (λ _, hret tt)
  end.
End reservations.

(** ** The row invariant *)

(** A synced row names its device entry, and its integration: until an
    integration is deleted, which sets the reference of its rows to null.  The
    invariant comes in both strengths; the handlers keep each of them. *)
Class PushRule := integration_named : bool.
Definition named_rule : PushRule := true.
Definition orphaned_rule : PushRule := false.

(** A synced row names its device entry; a pending row is in the queue. *)
Definition push_state_ok `{PushRule} (p : PushState) : Prop :=
  match pushStatus p with
  | Some Synced => (integration_named = true → is_Some (pushedToId p)) ∧ is_Some (pushedScopeId p) ∧
                   is_Some (pushedEntryId p) ∧ is_Some (pushedAt p)
  | Some Pending => is_Some (pushQueuedAt p)
  | _ => True
  end.
Definition push_ok `{PushRule} (r : Reservation) : Prop := push_state_ok (r_push r).

(** Rewrites a row without touching the columns of the unique index. *)
Definition same_key (f : Reservation → Reservation) : Prop :=
  ∀ r, r_id (f r) = r_id r ∧ r_subnetId (f r) = r_subnetId r ∧
       r_ipAddress (f r) = r_ipAddress r ∧ r_status (f r) = r_status r.
Definition keeps_push `{PushRule} (f : Reservation → Reservation) : Prop := ∀ r, push_ok r → push_ok (f r).

Lemma same_key_on_push f : same_key (on_push f).
Proof. done. Qed.
Lemma same_key_synced f : same_key (λ r, set_r_sourceType DhcpReservation (on_push f r)).
Proof. done. Qed.
Lemma same_key_apply_update i o m p : same_key (apply_update i o m p).
Proof. done. Qed.
#[export] Hint Resolve same_key_on_push same_key_synced same_key_apply_update : ipam.

(** A rewriting of the push columns that keeps them coherent. *)
Definition good_stamp `{PushRule} (f : PushState → PushState) : Prop := ∀ p, push_state_ok p → push_state_ok (f p).

Lemma keeps_push_on_push `{PushRule} f : good_stamp f → keeps_push (on_push f).
Proof. intros Hf r Hr. by apply Hf. Qed.
Lemma keeps_push_synced `{PushRule} f :
  good_stamp f → keeps_push (λ r, set_r_sourceType DhcpReservation (on_push f r)).
Proof. intros Hf r Hr. by apply Hf. Qed.
Lemma keeps_push_released `{PushRule} : keeps_push (λ r, set_r_push no_push (set_r_status Released r)).
Proof. done. Qed.
Lemma keeps_push_apply_update `{PushRule} i o m f : good_stamp f → keeps_push (apply_update i o m f).
Proof. intros Hf r Hr. by apply Hf. Qed.

Lemma good_synced `{PushRule} i sc en t : good_stamp (stamp_synced (Some i) sc en t).
Proof. intros p _. split_and!; by eexists. Qed.
Lemma good_queued `{PushRule} i q a l e : good_stamp (stamp_queued i q a l e).
Proof. intros p _. by eexists. Qed.
Lemma good_cancelled `{PushRule} : good_stamp stamp_cancelled.
Proof. by intros p _. Qed.
Lemma good_attempt `{PushRule} t : good_stamp (stamp_attempt t).
Proof. by intros p ?. Qed.
Lemma good_error `{PushRule} e : good_stamp (stamp_error e).
Proof. by intros p ?. Qed.
Lemma good_failed `{PushRule} e : good_stamp (stamp_failed e).
Proof. by intros p ?. Qed.
Lemma good_collided `{PushRule} e t : good_stamp (stamp_collided e t).
Proof. by intros p ?. Qed.
Lemma good_requeued `{PushRule} q e : good_stamp (stamp_requeued q e).
Proof. intros p _. by eexists. Qed.
Lemma good_mac_updated `{PushRule} i sc en t : good_stamp (stamp_mac_updated i sc en t).
Proof. intros p _. split_and!; by eexists. Qed.
Lemma good_id `{PushRule} : good_stamp (λ p, p).
Proof. by intros p ?. Qed.
#[export] Hint Resolve keeps_push_on_push keeps_push_synced keeps_push_released
  keeps_push_apply_update good_synced good_queued good_cancelled good_attempt good_error good_failed
  good_collided good_requeued good_mac_updated good_id : ipam.

Lemma conflict_same_key f a b :
  same_key f → reservation_conflict (f a) b = reservation_conflict a b.
Proof. intros Hf. unfold reservation_conflict. by destruct (Hf a) as (_ & -> & -> & ->). Qed.

Lemma rows_ok_same_key p f (l : list Reservation) :
  same_key f → rows_ok l → rows_ok (map_where p f l).
Proof.
  intros Hf. induction l as [|r l IH]; [done|]. rewrite rows_ok_cons. intros (Hid & Hc & Hl).
  change (map_where p f (r :: l)) with ((if p r then f r else r) :: map_where p f l).
  rewrite rows_ok_cons. simpl.
  assert (r_id <$> map_where p f l = r_id <$> l) as Hids.
  { unfold map_where. rewrite <-list_fmap_compose. apply list_fmap_ext. intros i x _. simpl.
    destruct (p x); [apply Hf|done]. }
  split_and!; [|..|by apply IH].
  - rewrite Hids. destruct (p r); [|done]. by destruct (Hf r) as (-> & _).
  - intros x (y & Hy & ->)%elem_of_map_where.
    destruct (p r), (p y); rewrite ?(conflict_same_key f) by done;
      rewrite 1?reservation_conflict_sym, ?(conflict_same_key f) by done;
      rewrite 1?reservation_conflict_sym; by apply Hc.
Qed.

Section reservation_invariant.
Context `{NetmaskLib, IpamStoreLaws, PushRule} `{Net W}.
Notation St := (State W).
Implicit Types (s : St).

(** The schema's constraints and foreign key, and the push columns. *)
Record res_ok s : Prop := {
  ro_db : db_ok s;
  ro_push r : r ∈ reservation_rows s → push_ok r;
  ro_fk r : r ∈ reservation_rows s → ∃ x, x ∈ subnet_rows s ∧ s_id x = r_subnetId r;
}.

Lemma res_ok_same_tables s s' : same_tables s s' → res_ok s → res_ok s'.
Proof.
  intros (Hb & Hs & Hr) [(?&?&?) Hp Hf]. split.
  - unfold db_ok, block_rows, subnet_rows, reservation_rows in *. by rewrite Hb, Hs, Hr.
  - unfold reservation_rows in *. by rewrite Hr.
  - unfold reservation_rows, subnet_rows in *. by rewrite Hr, Hs.
Qed.

(** A new reservation table whose rows come from old ones. *)
Lemma res_ok_rows s t :
  res_ok s → db_ok (set_reservations t s) →
  (∀ r', r' ∈ rows t → push_ok r' ∧ ∃ r, r ∈ reservation_rows s ∧ r_subnetId r' = r_subnetId r) →
  res_ok (set_reservations t s).
Proof.
  intros Hok Hdb Hrows. split; [done|..].
  - intros r Hr. by apply Hrows in Hr as [? _].
  - intros r Hr. apply Hrows in Hr as (_ & r0 & Hr0 & ->). by apply (ro_fk _ Hok).
Qed.

Lemma update_same_key id f s :
  same_key f → res_ok s →
  match reservation_update id f s with
  | (s', Ok r') => ∃ t, s' = set_reservations t s ∧ db_ok s' ∧
      (∃ r, r ∈ reservation_rows s ∧ r_id r = id ∧ r' = f r) ∧
      reservation_rows s' ≡ₚ map_where (has_id id) f (reservation_rows s)
  | (s', Throw e) => s' = s ∧ e = P2025 ∧ id ∉ r_id <$> reservation_rows s
  end.
Proof.
  intros Hf Hok. pose proof (reservation_update_spec id f s (λ r, proj1 (Hf r)) (ro_db _ Hok)) as Hu.
  destruct (reservation_update id f s) as [s' [r|e]]; [done|].
  destruct Hu as (-> & [?|[_ []]]); [done|]. apply rows_ok_same_key; [done|]. apply Hok.
Qed.

Lemma keeps_update_fk id f :
  (∀ r, r_id (f r) = r_id r ∧ r_subnetId (f r) = r_subnetId r) → keeps_push f →
  keeps res_ok (reservation_update (W := W) id f).
Proof.
  intros Hf Hp s s' r Hok Hrun.
  pose proof (reservation_update_spec id f s (λ r, proj1 (Hf r)) (ro_db _ Hok)) as Hu.
  rewrite Hrun in Hu. destruct r as [r|e]; [|by destruct Hu as [-> _]].
  destruct Hu as (t & -> & Hdb & _ & Hrows). apply res_ok_rows; [done|done|].
  intros r'. unfold reservation_rows in Hrows at 1. simpl in Hrows. rewrite Hrows.
  intros (x & Hx & ->)%elem_of_map_where. pose proof (ro_push _ Hok x Hx).
  destruct (has_id id x); (split; [by try apply Hp|]); exists x; split; try done.
  apply Hf.
Qed.

Lemma keeps_update id f :
  same_key f → keeps_push f → keeps res_ok (reservation_update (W := W) id f).
Proof. intros Hf. apply keeps_update_fk. intros r. by destruct (Hf r) as (? & ? & _). Qed.

Lemma keeps_updateMany_status p st :
  keeps res_ok (reservation_updateMany (W := W) p (set_r_status st)).
Proof.
  intros s s' r Hok Hrun.
  pose proof (reservation_updateMany_spec p (set_r_status st) s (λ _, eq_refl) (ro_db _ Hok)) as Hu.
  rewrite Hrun in Hu. destruct r as [r|e]; [|by destruct Hu as [-> _]].
  destruct Hu as (t & -> & Hdb & Hrows & _). apply res_ok_rows; [done|done|].
  intros r'. unfold reservation_rows in Hrows at 1. simpl in Hrows. rewrite Hrows.
  intros (x & Hx & ->)%elem_of_map_where. pose proof (ro_push _ Hok x Hx).
  destruct (p x); (split; [done|]); by exists x.
Qed.

Lemma keeps_delete id : keeps res_ok (reservation_delete (W := W) id).
Proof.
  intros s s' r Hok Hrun. pose proof (reservation_delete_spec id s (ro_db _ Hok)) as Hu.
  rewrite Hrun in Hu. destruct r as [r|e]; [|by destruct Hu as [-> _]].
  destruct Hu as (t & -> & Hdb & _ & _ & Hrows). apply res_ok_rows; [done|done|].
  intros r'. unfold reservation_rows in Hrows at 1. simpl in Hrows. rewrite Hrows.
  intros [Hx _]%elem_of_filter_negb. split; [by apply (ro_push _ Hok)|]. by exists r'.
Qed.

Lemma keeps_deleteMany p : keeps res_ok (reservation_deleteMany (W := W) p).
Proof.
  intros s s' r Hok Hrun. destruct (reservation_deleteMany_spec p s (ro_db _ Hok)) as (t & n & Hu & Hdb & Hrows).
  rewrite Hrun in Hu. injection Hu as -> ->. apply res_ok_rows; [done|done|].
  intros r'. rewrite Hrows. intros [Hx _]%elem_of_filter_negb.
  split; [by apply (ro_push _ Hok)|]. by exists r'.
Qed.

Lemma keeps_same_tables {A} (m : M St A) :
  (∀ s s' r, m s = (s', r) → same_tables s s') → keeps res_ok m.
Proof. intros Hm s s' r Hok Hrun. eapply res_ok_same_tables; [|done]. by eapply Hm. Qed.

Lemma keeps_on_world {A} (m : M W A) : keeps res_ok (on_world m).
Proof.
  apply keeps_same_tables. intros s s' r. unfold on_world. destruct (m (world s)). by intros [= <- <-].
Qed.
Lemma keeps_logEvent a l i : keeps res_ok (logEvent (W := W) a l i).
Proof. apply keeps_same_tables. intros s s' r. by intros [= <- <-]. Qed.

Lemma keeps_transaction {A} (m : M St A) : keeps res_ok m → keeps res_ok (transaction m).
Proof.
  intros Hm s s' r Hok. unfold transaction. destruct (m s) as [s1 [a|e]] eqn:Hrun.
  - intros [= <- <-]. by eapply Hm.
  - intros [= <- <-]. by eapply res_ok_same_tables; [|exact Hok].
Qed.

Lemma keeps_subnet_status id st : keeps res_ok (subnet_update (W := W) id (set_s_status st)).
Proof.
  intros s s' r Hok Hrun.
  pose proof (subnet_update_spec id (set_s_status st) s (λ _, eq_refl) (ro_db _ Hok)) as Hu.
  rewrite Hrun in Hu. destruct r as [r|e]; [|by destruct Hu as [-> _]].
  destruct Hu as (t & -> & Hdb & _ & Hrows). split; [done|apply Hok|].
  intros r' Hr'. destruct (ro_fk _ Hok r' Hr') as (x & Hx & Hid).
  exists (if has_id id x then set_s_status st x else x). split.
  - rewrite Hrows, elem_of_map_where. eauto.
  - by destruct (has_id id x).
Qed.
End reservation_invariant.
#[export] Hint Extern 1 (keeps res_ok (reservation_update _ _)) =>
  apply keeps_update; solve [eauto with ipam] : inv.
#[export] Hint Resolve keeps_updateMany_status keeps_delete keeps_deleteMany
  keeps_on_world keeps_logEvent keeps_transaction keeps_subnet_status : inv.

(** ** Every handler keeps the invariant *)

Section reservation_handlers.
Context `{NetmaskLib, IpamStoreLaws, PushRule} `{Net W}.
Notation St := (State W).
Implicit Types (s : St).

Lemma readonly_require_reservation id : readonly (require_reservation (W := W) id).
Proof. unfold require_reservation, findReservation. solve_frame. Qed.
Lemma readonly_subnet_of r : readonly (subnet_of (W := W) r).
Proof. unfold subnet_of, findSubnet. solve_frame. Qed.
Lemma readonly_findIntegration i : readonly (findIntegration (W := W) i).
Proof. unfold findIntegration. solve_frame. Qed.
Lemma readonly_newDate : readonly (newDate (W := W)).
Proof. unfold newDate. solve_frame. Qed.
Lemma readonly_findReservation p : readonly (findReservation (W := W) p).
Proof. unfold findReservation. solve_frame. Qed.
Lemma readonly_findReservations p : readonly (findReservations (W := W) p).
Proof. unfold findReservations. solve_frame. Qed.
Lemma readonly_findSubnet p : readonly (findSubnet (W := W) p).
Proof. unfold findSubnet. solve_frame. Qed.
Lemma readonly_countReservations p : readonly (countReservations (W := W) p).
Proof. unfold countReservations. solve_frame. Qed.
Lemma readonly_findAsset p : readonly (findAsset (W := W) p).
Proof. unfold findAsset. solve_frame. Qed.
Lemma readonly_firewall_asset d i : readonly (firewall_asset (W := W) d i).
Proof. apply readonly_findAsset. Qed.
Hint Resolve readonly_require_reservation readonly_subnet_of readonly_findIntegration
  readonly_newDate readonly_findReservation readonly_findReservations readonly_findSubnet
  readonly_findSubnets readonly_countReservations readonly_findAsset readonly_firewall_asset : frame.

Lemma readonly_check_create input : readonly (check_create (W := W) input).
Proof. unfold check_create. solve_frame. Qed.
Lemma readonly_load_queued r : readonly (load_queued (W := W) r).
Proof. unfold load_queued. solve_frame. Qed.
Hint Resolve readonly_check_create readonly_load_queued : frame.

Lemma keeps_releaseDns sub ip : keeps res_ok (releaseDnsResolvedAt (W := W) sub ip).
Proof. unfold releaseDnsResolvedAt. solve_keeps. Qed.

Lemma keeps_push_created input subnet i dev ip mac r :
  is_Some (s_discoveredBy subnet) →
  keeps res_ok (push_created (W := W) input subnet i dev ip mac r).
Proof. intros [d Hd]. unfold push_created. rewrite Hd. solve_keeps. Qed.

Lemma keeps_push_mac_update input r subnet i mac :
  keeps res_ok (push_mac_update (W := W) input r subnet i mac).
Proof. unfold push_mac_update. solve_keeps. Qed.

Lemma keeps_release_unpush r x p : keeps res_ok (release_unpush (W := W) r x p).
Proof. unfold release_unpush. solve_keeps. Qed.
Lemma keeps_release_lease r x i : keeps res_ok (release_lease (W := W) r x i).
Proof. unfold release_lease. solve_keeps. Qed.
Lemma keeps_cancel_queued id : keeps res_ok (cancel_queued (W := W) id).
Proof. unfold cancel_queued. solve_keeps. Qed.
Lemma keeps_push_queued q i : keeps res_ok (push_queued (W := W) q i).
Proof. unfold push_queued. solve_keeps. Qed.
Hint Resolve keeps_releaseDns keeps_push_mac_update keeps_release_unpush keeps_release_lease
  keeps_cancel_queued keeps_push_queued : inv.
Lemma keeps_attemptQueuedPush q b : keeps res_ok (attemptQueuedPush (W := W) q b).
Proof. unfold attemptQueuedPush. solve_keeps. Qed.
Hint Resolve keeps_attemptQueuedPush : inv.

Lemma keeps_retry_rows rows c : keeps res_ok (retry_rows (W := W) rows c).
Proof. revert c. induction rows as [|q rows IH]; intros c; simpl; solve_keeps. Qed.
Lemma readonly_hmapM {A B} (f : A → M St B) l : (∀ a, readonly (f a)) → readonly (hmapM f l).
Proof. intros Hf. induction l as [|a l IH]; simpl; solve_frame. Qed.
Hint Resolve keeps_retry_rows readonly_hmapM : inv frame.
Lemma keeps_retryPending : keeps res_ok (retryPendingReservations (W := W)).
Proof. unfold retryPendingReservations. solve_keeps. Qed.
Lemma keeps_retryNow id : keeps res_ok (retryReservationNow (W := W) id).
Proof. unfold retryReservationNow, getReservation. solve_keeps. Qed.
Hint Resolve keeps_retryPending : inv.
Lemma keeps_trigger id : keeps res_ok (triggerRetryAfterStatusChange (W := W) id).
Proof. unfold triggerRetryAfterStatusChange. solve_keeps. Qed.
Lemma keeps_expire : keeps res_ok (expireStaleReservations (W := W)).
Proof. unfold expireStaleReservations. solve_keeps. Qed.

Lemma keeps_release_row r : keeps res_ok (release_row (W := W) r).
Proof.
  unfold release_row. apply keeps_transaction. solve_keeps.
  by apply keeps_update_fk.
Qed.
Hint Resolve keeps_release_row : inv.
Lemma keeps_releaseReservation id : keeps res_ok (releaseReservation (W := W) id).
Proof. unfold releaseReservation. solve_keeps. Qed.

Lemma push_mac_update_good input r x i mac s s' f :
  push_mac_update (W := W) input r x i mac s = (s', Ok f) → good_stamp f.
Proof.
  unfold push_mac_update, hcatch. intros Hrun.
  match type of Hrun with context [match ?m s with _ => _ end] => destruct (m s) as [s1 [g|e]] eqn:Hm end.
  - injection Hrun as -> ->. hinv. auto with ipam.
  - hinv.
Qed.

Lemma keeps_updateReservation id input actor : keeps res_ok (updateReservation (W := W) id input actor).
Proof.
  unfold updateReservation. do 5 (apply keeps_hbind; [eauto with inv|intros ?]).
  apply (keeps_hbind_post _ good_stamp); [solve_keeps|..|intros f Hf; eauto with inv ipam].
  intros s s' f. repeat case_match; intros Hrun; hinv; auto with ipam.
  all: by eapply push_mac_update_good.
Qed.

(** ** Creating a row *)

Lemma check_create_ok input s s' x push :
  check_create (W := W) input s = (s', Ok (x, push)) →
  s' = s ∧ x ∈ subnet_rows s ∧ s_id x = ci_subnetId input ∧ s_status x ≠ Deprecated ∧
  (∀ ip, ci_ipAddress input = Some ip → ip ≠ ""%string →
     isValidIpAddress ip = true ∧ ipInCidr ip (s_cidr x) = true ∧
     ∀ y, y ∈ reservation_rows s → r_subnetId y = ci_subnetId input → r_ipAddress y = Some ip →
          r_status y = Active → r_sourceType y = DnsResolved) ∧
  (Js.otruthy (ci_ipAddress input) = false →
     ∀ y, y ∈ reservation_rows s → r_subnetId y = ci_subnetId input → r_ipAddress y = None →
          r_status y ≠ Active) ∧
  (∀ i, pt_integration push = Some i →
     is_Some (s_discoveredBy x) ∧ pt_eligible push = true ∧ pt_deviceName push ≠ ""%string).
Proof.
  intros Hrun. pose proof (readonly_check_create _ _ _ _ Hrun) as ->.
  unfold check_create, findSubnet, findReservation, findIntegration in Hrun. hinv.
  destruct (List.find _ (subnet_rows _)) as [x'|] eqn:Hf; [|by hinv].
  apply find_some_iff in Hf as [Hx Hid%bool_decide_eq_true_1]. hinv.
  match goal with Hd : bool_decide (s_status _ = Deprecated) = false |- _ =>
    rewrite bool_decide_eq_false in Hd end.
  split_and!; try done.
  - intros ip Hip Hne.
    assert (Js.otruthy (ci_ipAddress input) = true) as Ht by (rewrite Hip; by destruct ip).
    rewrite Ht, Hip in *. simpl in *. hinv.
    repeat match goal with Hn : negb _ = false |- _ => apply negb_false_iff in Hn end.
    split_and!; try done. intros y Hy Hsub Hyip Hact.
    destruct (List.find _ (reservation_rows _)) eqn:Hfr; [by hinv|].
    rewrite find_none_iff in Hfr. specialize (Hfr y Hy).
    rewrite !andb_false_iff, !bool_decide_eq_false, negb_false_iff, bool_decide_eq_true in Hfr.
    naive_solver.
  - intros Ht y Hy Hsub Hyip Hact. rewrite Ht in *. hinv.
    destruct (List.find _ (reservation_rows _)) eqn:Hfr; [by hinv|].
    rewrite find_none_iff in Hfr. specialize (Hfr y Hy).
    rewrite !andb_false_iff, !bool_decide_eq_false in Hfr. naive_solver.
  - intros i Hi. unfold resolvePushEligibility in *.
    destruct (Js.otruthy (ci_ipAddress input)); simpl in *; [|done].
    destruct (s_discoveredBy x) as [d|]; simpl in *; [|done].
    repeat case_match; simpl in *; simplify_eq. split_and!; [done|done|].
    intros Hz. by rewrite Hz in *.
Qed.

(** A row of the table at hand, seen as its head. *)
Lemma head_id_fresh s r L :
  db_ok s → reservation_rows s ≡ₚ r :: L → r_id r ∉ r_id <$> L.
Proof.
  intros (_ & _ & Hr) Hp. apply (rows_ok_perm _ (r :: L)) in Hr; [|apply reservation_conflict_sym|done].
  by apply rows_ok_cons in Hr as (? & _).
Qed.

Lemma map_where_head r L f :
  r_id r ∉ r_id <$> L → map_where (has_id (r_id r)) f (r :: L) = f r :: L.
Proof.
  intros Hid. unfold map_where. rewrite fmap_cons. unfold has_id at 1. simpl.
  rewrite bool_decide_eq_true_2 by done. f_equal.
  induction L as [|x L IH]; [done|]. rewrite fmap_cons, not_elem_of_cons in Hid. destruct Hid as [Hx Hid].
  rewrite fmap_cons, IH by done. unfold has_id. simpl. by rewrite bool_decide_eq_false_2.
Qed.

Lemma update_head s r L f :
  res_ok s → reservation_rows s ≡ₚ r :: L → same_key f → keeps_push f →
  ∃ t, reservation_update (r_id r) f s = (set_reservations t s, Ok (f r)) ∧
    res_ok (set_reservations t s) ∧ rows t ≡ₚ f r :: L.
Proof.
  intros Hok Hp Hf Hk. pose proof (head_id_fresh _ _ _ (ro_db _ Hok) Hp) as Hfr.
  pose proof (update_same_key (r_id r) f s Hf Hok) as Hu.
  destruct (reservation_update (r_id r) f s) as [s' [r'|e]] eqn:Hrun.
  - pose proof (keeps_update _ _ Hf Hk _ _ _ Hok Hrun) as Hok'.
    destruct Hu as (t & -> & _ & (r0 & Hr0 & Hid & ->) & Hrows). exists t.
    assert (r0 = r) as ->.
    { apply (rows_ok_id (reservation_rows s)); try done; [apply Hok|]. rewrite Hp. by left. }
    split_and!; try done. unfold reservation_rows in Hrows at 1. simpl in Hrows. rewrite Hrows.
    rewrite <-(map_where_head r L f) by done. unfold map_where. by rewrite Hp.
  - destruct Hu as (_ & _ & []). rewrite Hp. by left.
Qed.

Lemma delete_head s r L :
  res_ok s → reservation_rows s ≡ₚ r :: L →
  ∃ t r', reservation_delete (r_id r) s = (set_reservations t s, Ok r') ∧
    res_ok (set_reservations t s) ∧ rows t ≡ₚ L.
Proof.
  intros Hok Hp. pose proof (head_id_fresh _ _ _ (ro_db _ Hok) Hp) as Hfr.
  pose proof (reservation_delete_spec (r_id r) s (ro_db _ Hok)) as Hd.
  destruct (reservation_delete (r_id r) s) as [s' [r'|e]] eqn:Hrun.
  - pose proof (keeps_delete _ _ _ _ Hok Hrun) as Hok'.
    destruct Hd as (t & -> & _ & _ & _ & Hrows). exists t, r'. split_and!; try done.
    unfold reservation_rows in Hrows at 1. simpl in Hrows. rewrite Hrows.
    trans (List.filter (λ x, negb (has_id (r_id r) x)) (r :: L)); [by rewrite Hp|].
    simpl. unfold has_id at 1. simpl. rewrite bool_decide_eq_true_2 by done. simpl.
    clear -Hfr. induction L as [|x L IH]; [done|].
    rewrite fmap_cons, not_elem_of_cons in Hfr. destruct Hfr as [Hx Hid]. simpl.
    unfold has_id at 1. simpl. rewrite bool_decide_eq_false_2 by congruence. simpl. by rewrite IH.
  - destruct Hd as (_ & _ & []). rewrite Hp. by left.
Qed.

(** The row that [createReservation] returns, relative to the one it inserted. *)
Definition pushed_from (r r' : Reservation) : Prop :=
  ∃ p, (r' = set_r_sourceType DhcpReservation (set_r_push p r) ∧ pushStatus p = Some Synced) ∨
       (r' = set_r_push p r ∧ pushStatus p = Some Pending).

(** Two states that differ only in the reservations, the log and the world. *)
Definition same_net_tables s s' : Prop := ipBlocks s' = ipBlocks s ∧ subnets s' = subnets s.

(** The blocks are the same and every subnet keeps its id, block and CIDR. *)
Definition net_frame s s' : Prop :=
  ipBlocks s' = ipBlocks s ∧
  ∀ x', x' ∈ subnet_rows s' → ∃ x, x ∈ subnet_rows s ∧ same_net x x'.

Lemma net_frame_same s s' : same_net_tables s s' → net_frame s s'.
Proof.
  intros [Hb Hs]. split; [done|]. unfold subnet_rows. rewrite Hs. intros x ?. by exists x.
Qed.
Lemma net_frame_trans s1 s2 s3 : net_frame s1 s2 → net_frame s2 s3 → net_frame s1 s3.
Proof.
  intros [Hb1 Hs1] [Hb2 Hs2]. split; [congruence|]. intros x Hx.
  destruct (Hs2 x Hx) as (y & Hy & ? & ? & ?). destruct (Hs1 y Hy) as (z & Hz & ? & ? & ?).
  exists z. split; [done|]. split_and!; congruence.
Qed.
Lemma net_frame_status s s' id st :
  ipBlocks s' = ipBlocks s →
  subnet_rows s' ≡ₚ map_where (has_id id) (set_s_status st) (subnet_rows s) → net_frame s s'.
Proof.
  intros Hb Hs. split; [done|]. intros x'. rewrite Hs, elem_of_map_where. intros (x & Hx & ->).
  exists x. split; [done|]. by destruct (has_id id x).
Qed.

Lemma on_world_run {A} (m : M W A) s w' r :
  m (world s) = (w', r) → on_world m s = (set_world w' s, r).
Proof. intros Hm. unfold on_world. by rewrite Hm. Qed.

Lemma push_created_spec input x i dev ip mac r L s :
  res_ok s → reservation_rows s ≡ₚ r :: L → is_Some (s_discoveredBy x) →
  match push_created input x i dev ip mac r s with
  | (s', Ok r') => reservation_rows s' ≡ₚ r' :: L ∧ pushed_from r r' ∧ same_net_tables s s'
  | (s', Throw e) => reservation_rows s' ≡ₚ L ∧ classifyPushError e = Permanent ∧ same_net_tables s s'
  end.
Proof.
  intros Hok Hp [d Hd]. unfold push_created, firewall_asset, findAsset, newDate. rewrite Hd.
  unfold hbind at 1, hgets at 1.
  destruct (is_monitored _ && monitor_status_is _ _).
  { hred. match goal with |- context [reservation_update _ (on_push ?f)] =>
      destruct (update_head s r L (on_push f)) as (t & E & _ & Ht); auto with ipam end.
    hrun E. split_and!; try done. eexists. right. done. }
  match goal with |- context [pushReservation ?pp] =>
    destruct (pushReservation pp (world s)) as [w' rp] eqn:Ep end.
  apply on_world_run in Ep. set (s1 := set_world w' s) in *.
  assert (res_ok s1) as Hok1 by (by apply (res_ok_same_tables s)).
  unfold hcatch. destruct rp as [pushed|err].
  - hrun Ep. match goal with |- context [reservation_update _ (λ x, set_r_sourceType ?st (@?f x))] =>
      destruct (update_head s1 r L (λ x, set_r_sourceType st (f x))) as (t & E & _ & Ht);
        [done|done|auto with ipam..] end.
    hrun E. split_and!; try done. eexists. left. done.
  - hrun Ep. destruct (classifyPushError err) eqn:Hcl.
    + destruct (delete_head s1 r L) as (t & r' & E & _ & Ht); [done|done|].
      unfold hbind at 1 2. rewrite E. done.
    + hred. match goal with |- context [reservation_update _ (on_push ?f)] =>
        destruct (update_head s1 r L (on_push f)) as (t & E & _ & Ht); [done|done|auto with ipam..] end.
      hrun E. split_and!; try done. eexists. right. done.
Qed.

(** The observational rows an operator's claim takes over. *)
Definition dns_at (sub ip : string) (r : Reservation) : bool :=
  bool_decide (r_subnetId r = sub) && bool_decide (r_ipAddress r = Some ip) &&
  bool_decide (r_status r = Active) && bool_decide (r_sourceType r = DnsResolved).

Lemma releaseDns_spec sub ip s :
  res_ok s →
  ∃ s', releaseDnsResolvedAt sub ip s = (s', Ok tt) ∧ res_ok s' ∧ same_net_tables s s' ∧
    world s' = world s ∧ integrations s' = integrations s ∧ assets s' = assets s ∧
    (reservation_rows s' = reservation_rows s ∧ ¬ rows_ok (map_where (dns_at sub ip) (set_r_status Released) (reservation_rows s)) ∨
     reservation_rows s' ≡ₚ map_where (dns_at sub ip) (set_r_status Released) (reservation_rows s)).
Proof.
  intros Hok. destruct (releaseDnsResolvedAt sub ip s) as [s' r] eqn:Hrun.
  pose proof (keeps_releaseDns _ _ _ _ _ Hok Hrun) as Hok'.
  unfold releaseDnsResolvedAt, hcatch, hbind in Hrun. fold (dns_at sub ip) in Hrun.
  pose proof (reservation_updateMany_spec (dns_at sub ip) (set_r_status Released) s (λ _, eq_refl)
    (ro_db _ Hok)) as Hu.
  destruct (reservation_updateMany (dns_at sub ip) (set_r_status Released) s) as [s1 [n|e]].
  - destruct Hu as (t & -> & _ & Hrows & _).
    destruct (0 <? n)%nat; injection Hrun as <- <-; eexists; split_and!; try done; by right.
  - destruct Hu as (-> & _ & Hno). injection Hrun as <- <-. exists s. split_and!; try done. by left.
Qed.

Lemma insert_reservation_spec input mac x s :
  res_ok s → x ∈ subnet_rows s → s_id x = ci_subnetId input →
  match insert_reservation input mac s with
  | (s', Ok r) => res_ok s' ∧ (∃ id, id ∉ r_id <$> reservation_rows s ∧ r = new_reservation input mac (now (world s)) id) ∧
      reservation_rows s' ≡ₚ r :: reservation_rows s ∧ ipBlocks s' = ipBlocks s ∧
      (if Js.otruthy (ci_ipAddress input) then subnets s' = subnets s
       else subnet_rows s' ≡ₚ map_where (has_id (ci_subnetId input)) (set_s_status Reserved) (subnet_rows s))
  | (s', Throw e) => same_tables s s' ∧ e = P2002 ∧
      ∃ y, y ∈ reservation_rows s ∧ r_subnetId y = ci_subnetId input ∧ r_status y = Active ∧
        is_Some (ci_ipAddress input) ∧ r_ipAddress y = ci_ipAddress input
  end.
Proof.
  intros Hok Hx Hid. unfold insert_reservation, transaction.
  assert (newDate s = (s, Ok (now (world s)))) as Et by done. hrun Et.
  pose proof (reservation_create_spec (new_reservation input mac (now (world s))) s (λ _, eq_refl) (ro_db _ Hok)) as Hc.
  destruct (reservation_create (new_reservation input mac (now (world s))) s) as [s1 [r|e]] eqn:E.
  - destruct Hc as (t & -> & Hdb & (id & Hfr & ->) & Hrows). hrun E.
    assert (res_ok (set_reservations t s)) as Hok1.
    { split; [done|..]; intros r; rewrite Hrows; intros [->|Hr]%elem_of_cons.
      - done.
      - by apply (ro_push _ Hok).
      - by exists x.
      - by apply (ro_fk _ Hok). }
    destruct (Js.otruthy (ci_ipAddress input)); hred; [by eauto 10|].
    pose proof (subnet_update_spec (ci_subnetId input) (set_s_status Reserved) (set_reservations t s)
      (λ _, eq_refl) Hdb) as Hu.
    destruct (subnet_update _ _ _) as [s2 [r2|e2]] eqn:E2.
    + pose proof (keeps_subnet_status _ _ _ _ _ Hok1 E2) as Hok2.
      destruct Hu as (t2 & -> & _ & _ & Hrows2). unfold hbind. rewrite E2. hred. split_and!; try done. eauto.
    + destruct Hu as (_ & _ & []). rewrite <-Hid. by apply list_elem_of_fmap_2.
  - destruct Hc as (-> & -> & y & id & Hy & Hconf). hrun E.
    apply reservation_conflict_true in Hconf as (H1' & H2' & ip & H3' & H4'). simpl in *.
    split_and!; try done. exists y. rewrite H3', H4'. split_and!; try done.
Qed.

(** The rows once the observational row at the address, if any, has yielded. *)
Definition yielded input s (L : list Reservation) : Prop :=
  L ≡ₚ reservation_rows s ∨
  L ≡ₚ map_where (dns_at (ci_subnetId input) (default "" (ci_ipAddress input)))
         (set_r_status Released) (reservation_rows s).

(** The dns step of [createReservation]. *)
Lemma yield_step input s :
  res_ok s →
  ∃ s1, (if Js.otruthy (ci_ipAddress input)
         then releaseDnsResolvedAt (ci_subnetId input) (default "" (ci_ipAddress input))
         else hret tt) s = (s1, Ok tt) ∧
    res_ok s1 ∧ same_net_tables s s1 ∧ yielded input s (reservation_rows s1).
Proof.
  intros Hok. destruct (Js.otruthy (ci_ipAddress input)).
  - destruct (releaseDns_spec (ci_subnetId input) (default "" (ci_ipAddress input)) s Hok)
      as (s1 & -> & Hok1 & Hnet & _ & _ & _ & Hrows).
    exists s1. split_and!; try done. destruct Hrows as [[-> _]|Hrows]; [by left|by right].
  - exists s. split_and!; try done. by left.
Qed.

Definition create_post input s s' (r : Reservation) : Prop :=
  ∃ L x, yielded input s L ∧ reservation_rows s' ≡ₚ r :: L ∧
    r_subnetId r = ci_subnetId input ∧ r_ipAddress r = ci_ipAddress input ∧ r_status r = Active ∧
    x ∈ subnet_rows s ∧ s_id x = ci_subnetId input ∧ s_status x ≠ Deprecated ∧
    (∀ ip, ci_ipAddress input = Some ip → ip ≠ ""%string →
       isValidIpAddress ip = true ∧ ipInCidr ip (s_cidr x) = true) ∧
    (∀ y, y ∈ L → r_subnetId y = ci_subnetId input → r_ipAddress y = ci_ipAddress input →
       is_Some (ci_ipAddress input) → r_status y ≠ Active) ∧
    (r_push r = no_push ∨ pushStatus (r_push r) = Some Synced ∨ pushStatus (r_push r) = Some Pending).

Lemma head_not_active s r L y :
  db_ok s → reservation_rows s ≡ₚ r :: L → y ∈ L → r_subnetId y = r_subnetId r →
  r_ipAddress y = r_ipAddress r → is_Some (r_ipAddress r) → r_status y ≠ r_status r.
Proof.
  intros (_ & _ & Hr) Hp Hy Hs Hip [ip Hsome] Hst.
  apply (rows_ok_perm _ (r :: L)) in Hr; [|apply reservation_conflict_sym|done].
  apply rows_ok_cons in Hr as (_ & Hc & _). specialize (Hc y Hy). simpl in Hc.
  assert (reservation_conflict r y = true); [|congruence].
  apply reservation_conflict_true. split_and!; [congruence..|]. exists ip. split; congruence.
Qed.

Lemma createReservation_spec input s :
  res_ok s →
  match createReservation input s with
  | (s', Ok r) => res_ok s' ∧ net_frame s s' ∧ create_post input s s' r
  | (s', Throw e) => res_ok s' ∧ same_net_tables s s' ∧
      ∃ L, yielded input s L ∧ reservation_rows s' ≡ₚ L
  end.
Proof.
  intros Hok. unfold createReservation. unfold hbind at 1.
  destruct (check_create input s) as [s0 [[x push]|e]] eqn:Hcheck.
  2:{ apply readonly_check_create in Hcheck as ->. split_and!; try done.
      exists (reservation_rows s). split; [by left|done]. }
  apply check_create_ok in Hcheck as (-> & Hx & Hid & Hdep & Hip & _ & Hint).
  destruct (yield_step input s Hok) as (s1 & E1 & Hok1 & [Hnb Hns] & Hy). hrun E1.
  set (mac := if Js.otruthy (ci_macAddress input) then _ else None).
  assert (x ∈ subnet_rows s1) as Hx1 by (unfold subnet_rows in *; by rewrite Hns).
  pose proof (insert_reservation_spec input mac x s1 Hok1 Hx1 Hid) as Hins.
  destruct (insert_reservation input mac s1) as [s2 [r|e]] eqn:E2.
  2:{ hrun E2. destruct Hins as (Hsame & _). split_and!; [by eapply res_ok_same_tables|..].
      - destruct Hsame as (? & ? & _). split; congruence.
      - exists (reservation_rows s1). split; [done|]. destruct Hsame as (_ & _ & Hr).
        unfold reservation_rows. by rewrite Hr. }
  hrun E2. destruct Hins as (Hok2 & (id & Hfr & ->) & Hrows & Hb2 & Hs2).
  set (r := new_reservation input mac (now (world s1)) id) in *.
  assert (∀ s' r', res_ok s' → reservation_rows s' ≡ₚ r' :: reservation_rows s1 →
    r_subnetId r' = ci_subnetId input → r_ipAddress r' = ci_ipAddress input → r_status r' = Active →
    (r_push r' = no_push ∨ pushStatus (r_push r') = Some Synced ∨ pushStatus (r_push r') = Some Pending) →
    net_frame s s' → res_ok s' ∧ net_frame s s' ∧ create_post input s s' r') as Hdone.
  { intros s' r' Hok' Hr' Hsub' Hip' Hst' Hpush' Hnet'. split; [done|]. split; [done|].
    exists (reservation_rows s1), x. split_and!; try done.
    - intros ip ? ?. by destruct (Hip ip) as (? & ? & _).
    - intros y HyL Hys Hyip Hsome. rewrite <-Hst'.
      eapply head_not_active; [apply Hok'|done|done|congruence..]. }
  assert (net_frame s s2) as Hnet2.
  { eapply net_frame_trans; [by apply (net_frame_same s s1)|].
    destruct (Js.otruthy (ci_ipAddress input)); [by apply net_frame_same|].
    by eapply net_frame_status. }
  assert (res_ok s2 ∧ net_frame s s2 ∧ create_post input s s2 r) as Hplain by (apply Hdone; auto).
  destruct (pt_integration push) as [i|]; [|done]. destruct mac as [m|]; [|done].
  destruct (negb (pt_eligible push) || _ || _) eqn:Hguard; [done|].
  rewrite !orb_false_iff, !negb_false_iff in Hguard. destruct Hguard as [[_ Htr] _].
  rewrite Htr in Hs2. destruct (Hint i eq_refl) as (Hdisc & _).
  pose proof (push_created_spec input x i (pt_deviceName push) (default "" (ci_ipAddress input)) m r
    (reservation_rows s1) s2 Hok2 Hrows Hdisc) as Hpush.
  destruct (push_created _ _ _ _ _ _ r s2) as [s3 [r'|e]] eqn:E3;
    pose proof (keeps_push_created _ _ _ _ _ _ _ Hdisc _ _ _ Hok2 E3) as Hok3.
  - destruct Hpush as (Hrows3 & (p & Hp) & Hn3).
    assert (net_frame s s3) by (eapply net_frame_trans; [done|by apply net_frame_same]).
    destruct Hp as [[-> Hp]|[-> Hp]]; apply Hdone; auto.
  - destruct Hpush as (Hrows3 & _ & [Hb3 Hs3]). split_and!; [done|split; congruence|].
    exists (reservation_rows s1). done.
Qed.

Lemma keeps_createReservation input : keeps res_ok (createReservation (W := W) input).
Proof.
  intros s s' r Hok Hrun. pose proof (createReservation_spec input s Hok) as Hc. rewrite Hrun in Hc.
  destruct r; apply Hc.
Qed.
Hint Resolve keeps_createReservation : inv.
Lemma keeps_nextAvailable input : keeps res_ok (nextAvailableReservation (W := W) input).
Proof. unfold nextAvailableReservation. solve_keeps. Qed.

(** ** Releasing a row *)

(** A best-effort device step: it returns, whatever the device does, and does
    not touch the tables. *)
Definition best_effort (m : M St unit) : Prop :=
  ∀ s, ∃ s', m s = (s', Ok tt) ∧ same_tables s s'.

Lemma best_effort_device {A} (m : M W A) a l i a' l' i' :
  best_effort (hcatch (let! _ := on_world m in logEvent a l i) (λ _, logEvent a' l' i')).
Proof.
  intros s. unfold hcatch, hbind, on_world. destruct (m (world s)) as [w [x|e]]; by eexists.
Qed.
Lemma best_effort_ret : best_effort (hret tt).
Proof. intros s. by exists s. Qed.

Lemma best_effort_unpush r x p : best_effort (release_unpush r x p).
Proof.
  unfold release_unpush. repeat case_match; try apply best_effort_ret. apply best_effort_device.
Qed.
Lemma best_effort_lease r x i : best_effort (release_lease r x i).
Proof.
  unfold release_lease. repeat case_match; try apply best_effort_ret. apply best_effort_device.
Qed.

(** An older released row at the same address. *)
Definition stale_release (r x : Reservation) : bool :=
  negb (has_id (r_id r) x) && bool_decide (r_subnetId x = r_subnetId r) &&
  bool_decide (r_ipAddress x = r_ipAddress r) && bool_decide (r_status x = Released).

Definition released (r : Reservation) : Reservation := set_r_push no_push (set_r_status Released r).

Lemma release_row_spec r L s :
  res_ok s → reservation_rows s ≡ₚ r :: L →
  ∃ s', release_row r s = (s', Ok (released r)) ∧ ipBlocks s' = ipBlocks s ∧
    reservation_rows s' ≡ₚ released r :: List.filter (λ x, negb (stale_release r x)) L.
Proof.
  intros Hok Hp. unfold release_row, transaction. fold (stale_release r).
  destruct (reservation_deleteMany_spec (stale_release r) s (ro_db _ Hok)) as (t & n & E & Hdb & Ht).
  pose proof (keeps_deleteMany _ _ _ _ Hok E) as Hok1. hrun E.
  set (L' := List.filter (λ x, negb (stale_release r x)) L).
  assert (reservation_rows (set_reservations t s) ≡ₚ r :: L') as Hp1.
  { unfold reservation_rows. simpl. rewrite Ht, Hp. simpl.
    assert (stale_release r r = false) as ->; [|done].
    unfold stale_release, has_id. simpl. by rewrite (bool_decide_eq_true_2 (r_id r = r_id r)). }
  pose proof (head_id_fresh _ _ _ Hdb Hp1) as Hfr.
  assert (rows_ok (map_where (has_id (r_id r)) released (reservation_rows (set_reservations t s)))) as Hrok.
  { apply (rows_ok_perm (released r :: L')); [apply reservation_conflict_sym|..].
    - rewrite <-(map_where_head r L' released) by done. unfold map_where. by rewrite Hp1.
    - destruct Hdb as (_ & _ & Hdb). apply (rows_ok_perm _ (r :: L')) in Hdb;
        [|apply reservation_conflict_sym|done].
      apply rows_ok_cons in Hdb as (_ & _ & HL). apply rows_ok_cons. split_and!; [done| |done].
      intros y [Hy Hst]%elem_of_filter_negb. apply not_true_iff_false.
      intros (Hsub & Hrel & ip & Hip & Hip')%reservation_conflict_true. simpl in *.
      apply not_true_iff_false in Hst. apply Hst. unfold stale_release, has_id. simpl.
      rewrite !andb_true_iff, negb_true_iff, !bool_decide_eq_true, bool_decide_eq_false.
      split_and!; [|congruence..]. intros Heq. apply Hfr. rewrite <-Heq.
      apply list_elem_of_fmap_2. apply elem_of_filter_negb. split; [done|by apply not_true_iff_false]. }
  pose proof (reservation_update_spec (r_id r) released _ (λ _, eq_refl) Hdb) as Hu.
  destruct (reservation_update (r_id r) released (set_reservations t s)) as [s2 [r2|e]] eqn:E2.
  2:{ destruct Hu as (_ & [[_ []]|[_ []]]); [rewrite Hp1; by left|done]. }
  assert (res_ok s2) as Hok2 by (by eapply (keeps_update_fk (r_id r) released)).
  unfold released in E2. hrun E2. fold (released r) in *.
  destruct Hu as (t2 & -> & Hdb2 & (r0 & Hr0 & Hid & ->) & Hrows2).
  assert (r0 = r) as ->.
  { apply (rows_ok_id (reservation_rows (set_reservations t s))); try done; [apply Hdb|].
    rewrite Hp1. by left. }
  assert (reservation_rows (set_reservations t2 (set_reservations t s)) ≡ₚ released r :: L') as Hfin.
  { rewrite Hrows2, <-(map_where_head r L' released) by done. unfold map_where. by rewrite Hp1. }
  destruct (Js.otruthy (r_ipAddress r)); hred; [by eexists|].
  pose proof (subnet_update_spec (r_subnetId r) (set_s_status Available) _ (λ _, eq_refl) Hdb2) as Hs.
  destruct (subnet_update (r_subnetId r) _ _) as [s3 [x|e]] eqn:E3.
  - destruct Hs as (t3 & -> & _). unfold hbind. rewrite E3. by eexists.
  - destruct Hs as (_ & _ & []). destruct (ro_fk _ Hok r) as (x & Hx & <-); [rewrite Hp; by left|].
    by apply list_elem_of_fmap_2.
Qed.

Lemma releaseReservation_spec r L s :
  res_ok s → reservation_rows s ≡ₚ r :: L → r_status r = Active →
  ∃ s', releaseReservation (r_id r) s = (s', Ok (released r)) ∧ res_ok s' ∧
    reservation_rows s' ≡ₚ released r :: List.filter (λ x, negb (stale_release r x)) L.
Proof.
  intros Hok Hp Hact.
  assert (r ∈ reservation_rows s) as Hr by (rewrite Hp; by left).
  destruct (ro_fk _ Hok r Hr) as (x & Hx & Hxid).
  assert (require_reservation (r_id r) s = (s, Ok r)) as E1.
  { unfold require_reservation, findReservation, hbind, hgets.
    by rewrite (find_has_id _ (r_id r) r) by (done || apply Hok). }
  assert (subnet_of r s = (s, Ok x)) as E2.
  { unfold subnet_of, findSubnet, hbind, hgets.
    by rewrite (find_has_id _ (r_subnetId r) x) by (done || apply Hok). }
  destruct (releaseReservation (r_id r) s) as [s' res] eqn:Hrun.
  pose proof (keeps_releaseReservation _ _ _ _ Hok Hrun) as Hok'. revert Hrun.
  unfold releaseReservation, findIntegration. hrun E1. hrun E2. rewrite Hact.
  rewrite (bool_decide_eq_true_2 (Active = Active)) by done. hred.
  set (pt := match pushedToId (r_push r) with Some _ => _ | None => None end).
  set (it := match s_discoveredBy x with Some _ => _ | None => None end).
  destruct (bool_decide (pushStatus (r_push r) = Some Pending)); hred.
  - unfold logEvent. hred. match goal with |- release_row r ?s1 = _ → _ =>
      destruct (release_row_spec r L s1) as (s2 & -> & _ & Hrows); [by apply (res_ok_same_tables s)|done|] end.
    intros [= <- <-]. by eexists.
  - destruct (best_effort_unpush r x pt s) as (s1 & Eu & Hsame). hrun Eu.
    destruct (best_effort_lease r x it s1) as (s2 & El & Hsame'). hrun El.
    assert (same_tables s s2) as Hst by (by etrans).
    destruct (release_row_spec r L s2) as (s3 & -> & _ & Hrows); [by eapply res_ok_same_tables|..].
    { destruct Hst as (_ & _ & Hr2). unfold reservation_rows. by rewrite Hr2. }
    intros [= <- <-]. by eexists.
Qed.

(** ** The retry queue *)

Definition retry_post (r : Reservation) (b : bool) (o : RetryOutcome) (r' : Reservation) : Prop :=
  match o with
  | OSynced => r_sourceType r' = DhcpReservation ∧ pushStatus (r_push r') = Some Synced ∧
      is_Some (pushedScopeId (r_push r')) ∧ is_Some (pushedEntryId (r_push r')) ∧
      pushQueuedAt (r_push r') = None ∧ pushAttempts (r_push r') = 0
  | OTransient => r_sourceType r' = r_sourceType r ∧ pushStatus (r_push r') = pushStatus (r_push r) ∧
      pushAttempts (r_push r') = pushAttempts (r_push r) + 1 ∧ is_Some (pushError (r_push r'))
  | OPermanent => r_sourceType r' = r_sourceType r ∧ pushStatus (r_push r') = Some FailedPermanent ∧
      pushAttempts (r_push r') = pushAttempts (r_push r) + 1 ∧ is_Some (pushError (r_push r'))
  | OCancelled => r_sourceType r' = r_sourceType r ∧ pushStatus (r_push r') = None ∧
      pushedToId (r_push r') = None ∧ pushQueuedAt (r_push r') = None
  | OSkippedMonitoredDown | OSkippedBackoff => r' = r ∧ b = false
  | OSuperseded => False
  end.

(** Same reservation as far as its key and address book columns go. *)
Definition same_claim (r r' : Reservation) : Prop :=
  r_id r' = r_id r ∧ r_subnetId r' = r_subnetId r ∧ r_ipAddress r' = r_ipAddress r ∧
  r_status r' = r_status r ∧ r_macAddress r' = r_macAddress r.

Lemma no_collider s r L :
  res_ok s → reservation_rows s ≡ₚ r :: L → r_status r = Active → is_Some (r_ipAddress r) →
  List.find (λ x, negb (has_id (r_id r) x) && bool_decide (r_subnetId x = r_subnetId r) &&
    bool_decide (r_ipAddress x = r_ipAddress r) && bool_decide (r_status x = Active))
    (reservation_rows s) = None.
Proof.
  intros Hok Hp Hact Hip. apply find_none_iff. intros y Hy. apply not_true_iff_false.
  rewrite !andb_true_iff, negb_true_iff, !bool_decide_eq_true. intros [[[Hid Hsub] Hyip] Hst].
  rewrite Hp in Hy. apply elem_of_cons in Hy as [->|Hy].
  - unfold has_id in Hid. by rewrite bool_decide_eq_false in Hid.
  - eapply (head_not_active s r L y); try done; [apply Hok|congruence].
Qed.

Lemma cancel_queued_spec r L s :
  res_ok s → reservation_rows s ≡ₚ r :: L →
  ∃ s', cancel_queued (r_id r) s = (s', Ok OCancelled) ∧ res_ok s' ∧ same_net_tables s s' ∧
    reservation_rows s' ≡ₚ on_push stamp_cancelled r :: L.
Proof.
  intros Hok Hp. unfold cancel_queued.
  destruct (update_head s r L (on_push stamp_cancelled)) as (t & E & Hok' & Ht); auto with ipam.
  unfold hbind at 1, hcatch, hbind at 1. rewrite E. hred. eexists. split; [done|].
  split_and!; try done. by eapply res_ok_same_tables; [|exact Hok'].
Qed.

Lemma push_queued_spec q i r L s :
  res_ok s → reservation_rows s ≡ₚ r :: L → q_row q = r →
  ∃ s' o r', push_queued q i s = (s', Ok o) ∧ res_ok s' ∧ same_net_tables s s' ∧
    reservation_rows s' ≡ₚ r' :: L ∧ same_claim r r' ∧ retry_post r true o r'.
Proof.
  intros Hok Hp <-. set (r := q_row q) in *. unfold push_queued, newDate. fold r.
  unfold hbind at 1, hgets at 1.
  destruct (update_head s r L (on_push (stamp_attempt (now (world s))))) as (t & E & Hok1 & Ht);
    auto with ipam.
  hrun E. set (s1 := set_reservations t s) in *. set (r1 := on_push _ r) in *.
  change (r_id r) with (r_id r1).
  match goal with |- context [pushReservation ?pp] =>
    destruct (pushReservation pp (world s1)) as [w' rp] eqn:Ep end.
  apply on_world_run in Ep. set (s2 := set_world w' s1) in *.
  assert (res_ok s2) as Hok2 by (by apply (res_ok_same_tables s1)).
  unfold hcatch. destruct rp as [pushed|err].
  - hrun Ep. match goal with |- context [reservation_update _ (λ x, set_r_sourceType ?st (@?f x))] =>
      destruct (update_head s2 r1 L (λ x, set_r_sourceType st (f x))) as (t2 & E2 & Hok3 & Ht2);
        [done|done|auto with ipam..] end.
    hrun E2. eexists _, _, _. split; [done|]. split_and!; try done; try (by eexists).
    by eapply res_ok_same_tables; [|exact Hok3].
  - hrun Ep. destruct (classifyPushError err) eqn:Hcl.
    + match goal with |- context [reservation_update _ (on_push ?f)] =>
        destruct (update_head s2 r1 L (on_push f)) as (t2 & E2 & Hok3 & Ht2);
          [done|done|auto with ipam..] end.
      hrun E2. eexists _, _, _. split; [done|]. split_and!; try done; try (by eexists).
      by eapply res_ok_same_tables; [|exact Hok3].
    + match goal with |- context [reservation_update _ (on_push ?f)] =>
        destruct (update_head s2 r1 L (on_push f)) as (t2 & E2 & Hok3 & Ht2);
          [done|done|auto with ipam..] end.
      hrun E2. eexists _, _, _. split; [done|]. split_and!; try done; try (by eexists).
      by eapply res_ok_same_tables; [|exact Hok3].
Qed.

Lemma cancel_reason_none q :
  cancel_reason q = None → is_Some (r_ipAddress (q_row q)) ∧ is_Some (q_integration q).
Proof.
  unfold cancel_reason. destruct (r_ipAddress (q_row q)), (q_integration q); simpl;
    repeat case_match; try done; intros _; split; by eexists.
Qed.

Lemma attemptQueuedPush_spec q b r L s :
  res_ok s → reservation_rows s ≡ₚ r :: L → q_row q = r → r_status r = Active →
  ∃ s' o r', attemptQueuedPush q b s = (s', Ok o) ∧ res_ok s' ∧ same_net_tables s s' ∧
    reservation_rows s' ≡ₚ r' :: L ∧ same_claim r r' ∧ retry_post r b o r'.
Proof.
  intros Hok Hp Hq Hact. unfold attemptQueuedPush. rewrite Hq.
  destruct (cancel_queued_spec r L s Hok Hp) as (sc & Ec & Hokc & Hnc & Hrc).
  assert (∃ s' o r', cancel_queued (r_id r) s = (s', Ok o) ∧ res_ok s' ∧ same_net_tables s s' ∧
    reservation_rows s' ≡ₚ r' :: L ∧ same_claim r r' ∧ retry_post r b o r') as Hcancel.
  { exists sc, OCancelled, (on_push stamp_cancelled r). split_and!; done. }
  destruct (cancel_reason q) as [why|] eqn:Hcr; [done|].
  apply cancel_reason_none in Hcr as [Hip [i Hi]]. rewrite Hq in Hip. rewrite Hi.
  unfold findReservation, hbind at 1, hgets at 1. rewrite (no_collider s r L) by done.
  destruct (push_queued_spec q i r L s Hok Hp Hq) as (sp & o & r' & Ep & Hokp & Hnp & Hrp & Hcl & Hpost).
  assert (∃ s' o r', push_queued q i s = (s', Ok o) ∧ res_ok s' ∧ same_net_tables s s' ∧
    reservation_rows s' ≡ₚ r' :: L ∧ same_claim r r' ∧ retry_post r b o r') as Hpush.
  { exists sp, o, r'. split_and!; try done. destruct o; try done. all: by destruct Hpost. }
  destruct b; [done|]. unfold firewall_asset, findAsset, newDate. hred.
  destruct (not_ready r _ _) as [o'|] eqn:Hnr; [|done].
  exists s, o', r. split_and!; try done. unfold not_ready in Hnr. by repeat case_match; simplify_eq.
Qed.

Definition outcomes (c : RetryCounts) : nat :=
  rc_succeeded c + rc_transient c + rc_permanent c + rc_cancelled c + rc_superseded c +
  rc_skippedMonitoredDown c + rc_skippedBackoff c.

Lemma count_outcome_sum o c :
  outcomes (count_outcome o (count_attempt c)) = S (outcomes c) ∧
  rc_attempted (count_outcome o (count_attempt c)) = S (rc_attempted c) ∧
  (o ≠ OSuperseded → rc_superseded (count_outcome o (count_attempt c)) = rc_superseded c).
Proof. destruct c, o; unfold outcomes; simpl; split_and!; (done || lia). Qed.

Lemma retry_rows_spec qs c s :
  res_ok s → NoDup (r_id ∘ q_row <$> qs) →
  (∀ q, q ∈ qs → q_row q ∈ reservation_rows s ∧ r_status (q_row q) = Active) →
  ∃ s' c', retry_rows qs c s = (s', Ok c') ∧ res_ok s' ∧ same_net_tables s s' ∧
    rc_attempted c' = (rc_attempted c + length qs)%nat ∧
    outcomes c' = (outcomes c + length qs)%nat ∧ rc_superseded c' = rc_superseded c ∧
    (∀ y, r_id y ∉ r_id ∘ q_row <$> qs → y ∈ reservation_rows s → y ∈ reservation_rows s').
Proof.
  revert c s. induction qs as [|q qs IH]; intros c s Hok Hnd Hin; simpl.
  { exists s, c. split_and!; try done; lia. }
  rewrite fmap_cons, NoDup_cons in Hnd. destruct Hnd as [Hq Hnd].
  destruct (Hin q) as [Hr Hact]; [left|].
  apply elem_of_Permutation in Hr as [L HL].
  destruct (attemptQueuedPush_spec q false (q_row q) L s Hok HL eq_refl Hact)
    as (s1 & o & r' & E & Hok1 & Hnet1 & Hrows1 & Hclaim & Hpost).
  hrun E. destruct (count_outcome_sum o c) as (Hout & Hatt & Hsup).
  assert (∀ y, r_id y ≠ r_id (q_row q) → y ∈ reservation_rows s → y ∈ reservation_rows s1) as Hkeep.
  { intros y Hy. rewrite HL, Hrows1, !elem_of_cons. intros [->|?]; [done|by right]. }
  destruct (IH (count_outcome o (count_attempt c)) s1) as (s2 & c2 & E2 & Hok2 & Hnet2 & Ha & Ho & Hs & Hrest);
    [done|done| |].
  { intros q' Hq'. destruct (Hin q') as [Hr' ?]; [by right|]. split; [|done]. apply Hkeep; [|done].
    intros Heq. apply Hq. apply list_elem_of_fmap. exists q'. split; [|done].
    unfold compose. by rewrite Heq. }
  exists s2, c2. rewrite E2. split_and!; try done.
  - destruct Hnet1, Hnet2. split; congruence.
  - rewrite Ha, Hatt. lia.
  - rewrite Ho, Hout. lia.
  - rewrite Hs. apply Hsup. by intros ->.
  - intros y [Hy1 Hy2]%not_elem_of_cons Hys. by apply Hrest, Hkeep.
Qed.

Lemma insert_queued_perm r l : insert_queued r l ≡ₚ r :: l.
Proof.
  induction l as [|x l IH]; simpl; [done|]. case_match; [done|]. rewrite IH. apply Permutation_swap.
Qed.
Lemma sort_queued_perm l : sort_queued l ≡ₚ l.
Proof. induction l as [|x l IH]; simpl; [done|]. by rewrite insert_queued_perm, IH. Qed.

Lemma load_all l s :
  res_ok s → (∀ r, r ∈ l → r ∈ reservation_rows s) →
  ∃ qs, hmapM load_queued l s = (s, Ok qs) ∧ q_row <$> qs = l.
Proof.
  intros Hok. induction l as [|r l IH]; intros Hl; simpl; [by exists []|].
  destruct (ro_fk _ Hok r) as (x & Hx & Hid); [apply Hl; by left|].
  assert (∃ i, load_queued r s = (s, Ok (mkQueuedRow r x i))) as [i E].
  { unfold load_queued, subnet_of, findSubnet, findIntegration, hbind, hgets.
    rewrite (find_has_id _ (r_subnetId r) x) by (done || apply Hok). by eexists. }
  destruct IH as (qs & E2 & Hqs); [intros r' ?; apply Hl; by right|].
  hrun E. hrun E2. exists (mkQueuedRow r x i :: qs). split; [done|]. by rewrite fmap_cons, Hqs.
Qed.

Lemma rows_ok_NoDup_filter (p : Reservation → bool) s :
  db_ok s → NoDup (r_id <$> List.filter p (reservation_rows s)).
Proof. intros (_ & _ & Hr). by apply (rows_ok_filter p) in Hr as [? _]. Qed.

Lemma retryPending_spec s :
  res_ok s →
  ∃ s' c, retryPendingReservations s = (s', Ok c) ∧ res_ok s' ∧ same_net_tables s s' ∧
    rc_attempted c = length (List.filter is_pending (reservation_rows s)) ∧
    outcomes c = rc_attempted c ∧ rc_superseded c = 0%nat ∧
    (∀ y, y ∈ reservation_rows s → is_pending y = false → y ∈ reservation_rows s').
Proof.
  intros Hok. unfold retryPendingReservations, findReservations. unfold hbind at 1, hgets at 1.
  set (pend := List.filter is_pending (reservation_rows s)).
  destruct (load_all (sort_queued pend) s Hok) as (qs & E & Hqs).
  { intros r. rewrite sort_queued_perm. by intros [? _]%elem_of_lfilter. }
  hrun E.
  assert (r_id ∘ q_row <$> qs ≡ₚ r_id <$> pend) as Hids.
  { by rewrite list_fmap_compose, Hqs, sort_queued_perm. }
  destruct (retry_rows_spec qs (mkRetryCounts 0 0 0 0 0 0 0 0) s Hok)
    as (s' & c & E2 & Hok' & Hnet & Ha & Ho & Hs & Hrest).
  - rewrite Hids. by apply rows_ok_NoDup_filter, Hok.
  - intros q Hq. assert (q_row q ∈ pend) as Hp.
    { rewrite <-sort_queued_perm, <-Hqs. by apply list_elem_of_fmap_2. }
    apply elem_of_lfilter in Hp as [? Hp]. apply andb_true_iff in Hp as [_ Hp].
    by apply bool_decide_eq_true_1 in Hp.
  - assert (length qs = length pend) as Hlen.
    { rewrite <-(length_fmap q_row), Hqs. apply Permutation_length, sort_queued_perm. }
    exists s', c. rewrite E2. split_and!; try done.
    + by rewrite Ha, Hlen.
    + rewrite Ho, Ha. done.
    + intros y Hy Hnp. apply Hrest; [|done]. rewrite Hids. intros (z & Heq & Hz)%list_elem_of_fmap.
      apply elem_of_lfilter in Hz as [Hz Hpz].
      assert (y = z) as ->; [|congruence]. by apply (rows_ok_id (reservation_rows s)); [apply Hok|..].
Qed.
End reservation_handlers.

(** ** The search for a free address *)

Section next_available.
Context `{NetmaskLaws, IpamStoreLaws, PushRule} `{Net W}.
Notation St := (State W).
Implicit Types (s : St).

Lemma free_host_spec reserved p base a m :
  p ≤ 30 → 0 ≤ a →
  match free_host reserved (enumerate_one p base (blk_size p) <$> seqZ a m) with
  | Some ip => ∃ i, a ≤ i < a + m ∧ 0 < i ∧ i ≠ blk_size p - 1 ∧ ip = intToIp (base + i) ∧
      ip ∉ reserved ∧ ∀ j, a ≤ j < i → 0 < j → j ≠ blk_size p - 1 → intToIp (base + j) ∈ reserved
  | None => ∀ i, a ≤ i < a + m → 0 < i → i ≠ blk_size p - 1 → intToIp (base + i) ∈ reserved
  end.
Proof.
  intros Hp Ha. unfold free_host.
  assert (∀ i, 0 ≤ i →
    bool_decide (ip_type (enumerate_one p base (blk_size p) i) = Host) &&
    negb (bool_decide (address (enumerate_one p base (blk_size p) i) ∈ reserved)) = true ↔
    0 < i ∧ i ≠ blk_size p - 1 ∧ intToIp (base + i) ∉ reserved) as Hiff.
  { intros i Hi. rewrite andb_true_iff, negb_true_iff, bool_decide_eq_true, bool_decide_eq_false.
    unfold enumerate_one. simpl. destruct (Z.leb_spec 31 p); [lia|].
    destruct (Z.eqb_spec i 0) as [->|]; [split; [by intros [? _]|lia]|].
    destruct (Z.eqb_spec i (blk_size p - 1)) as [->|]; [split; [by intros [? _]|tauto]|].
    split; [intros [_ ?]; split_and!; [lia|done|done]|tauto]. }
  assert (∀ i, 0 ≤ i → 0 < i → i ≠ blk_size p - 1 →
    bool_decide (ip_type (enumerate_one p base (blk_size p) i) = Host) &&
    negb (bool_decide (address (enumerate_one p base (blk_size p) i) ∈ reserved)) = false →
    intToIp (base + i) ∈ reserved) as Hneg.
  { intros i Hi H1' H2' Hf. apply not_true_iff_false in Hf. rewrite Hiff in Hf by done.
    destruct (decide (intToIp (base + i) ∈ reserved)); [done|]. tauto. }
  pose proof (find_seqZ (λ a, bool_decide (ip_type a = Host) && negb (bool_decide (address a ∈ reserved)))
    (enumerate_one p base (blk_size p)) a m) as Hf.
  destruct (List.find _ _) as [x|]; simpl.
  - destruct Hf as (i & Hi & -> & Hx & Hlt). apply Hiff in Hx as (? & ? & ?); [|lia].
    exists i. split_and!; try (done || lia). intros j Hj Hj0 Hjb.
    apply Hneg; [lia..|done|]. by apply Hlt.
  - intros i Hi Hi0 Hib. apply Hneg; [lia..|done|]. by apply Hf.
Qed.

(** Hosts below [k] are all reserved. *)
Definition hosts_taken (reserved : list string) (base size k : Z) : Prop :=
  ∀ i, 0 < i < k → i ≠ size - 1 → intToIp (base + i) ∈ reserved.

Lemma scan_pages_spec fuel cidr n p reserved page :
  denotes cidr n p → p ≤ 30 → 1 ≤ page → (page - 1) * 256 < blk_size p →
  (Z.to_nat ((blk_size p - (page - 1) * 256) / 256 + 1) ≤ fuel)%nat →
  hosts_taken reserved (net_of n p) (blk_size p) ((page - 1) * 256) →
  ∃ r, scan_pages fuel cidr reserved page = Some (Ok r) ∧
    match r with
    | Some ip => ∃ i, 0 < i < blk_size p - 1 ∧ ip = intToIp (net_of n p + i) ∧ ip ∉ reserved ∧
        hosts_taken reserved (net_of n p) (blk_size p) i
    | None => hosts_taken reserved (net_of n p) (blk_size p) (blk_size p)
    end.
Proof.
  intros Hd Hp. revert page. induction fuel as [|fuel IH]; intros page Hpage Hlt Hfuel Htaken.
  { assert (0 ≤ (blk_size p - (page - 1) * 256) / 256) by (apply Z.div_pos; lia). lia. }
  simpl. rewrite (enumerateSubnetIps_denotes _ _ _ _ _ Hd Hp).
  set (a := (page - 1) * 256) in *. set (m := Z.min (a + 256) (blk_size p) - a).
  pose proof (free_host_spec reserved p (net_of n p) a m Hp ltac:(unfold a; lia)) as Hfree.
  destruct (free_host reserved _) as [ip|].
  - destruct Hfree as (i & Hi & Hi0 & Hib & -> & Hnot & Hbelow). eexists. split; [done|].
    exists i. split_and!; try (done || lia). intros j Hj Hjb.
    destruct (decide (j < a)); [apply Htaken; [lia|done]|]. apply Hbelow; [lia..|done].
  - destruct (Z.leb_spec (blk_size p) (page * 256)) as [Hend|Hmore].
    + eexists. split; [done|]. intros i Hi Hib.
      destruct (decide (i < a)); [apply Htaken; [lia|done]|]. apply Hfree; [|lia|done].
      unfold m, a in *. lia.
    + apply IH; [lia..| |].
      * replace (blk_size p - (page + 1 - 1) * 256) with (blk_size p - a + (-1) * 256) by (unfold a; lia).
        rewrite Z.div_add by lia. lia.
      * intros i Hi Hib. destruct (decide (i < a)); [apply Htaken; [lia|done]|].
        apply Hfree; [|lia|done]. unfold m, a in *. lia.
Qed.

Lemma page_fuel_enough cidr n p reserved :
  denotes cidr n p → p ≤ 30 →
  ∃ r, scan_pages (page_fuel cidr) cidr reserved 1 = Some (Ok r) ∧
    match r with
    | Some ip => ∃ i, 0 < i < blk_size p - 1 ∧ ip = intToIp (net_of n p + i) ∧ ip ∉ reserved ∧
        hosts_taken reserved (net_of n p) (blk_size p) i
    | None => hosts_taken reserved (net_of n p) (blk_size p) (blk_size p)
    end.
Proof.
  intros Hd Hp. pose proof Hd as (b & _ & [_ [Hp0 Hp32] _ _ _ _ _]).
  pose proof (blk_size_pos p Hp32). unfold page_fuel.
  rewrite (enumerateSubnetIps_denotes _ _ _ _ _ Hd Hp).
  assert (0 ≤ blk_size p / 256) by (apply Z.div_pos; lia).
  apply scan_pages_spec; try done; [|intros i Hi; lia].
  replace (blk_size p - (1 - 1) * 256) with (blk_size p) by lia. lia.
Qed.
End next_available.
