(* ===== verification/Refresh.v ===== *)
(** * Refreshing one subnet from its FortiGate

    [src/src/services/subnetRefreshService.ts]: read the DHCP reservations and
    the live leases of one scope and reconcile the reservations of the subnet
    with them. *)

From S2P Require Import Prelude Cidr Store Networks Http Push Reservations JsColl.

(** ** Descriptions read back *)

(** [.] of a regular expression: everything but the ends of lines. *)
Definition not_eol (c : ascii) : bool :=
  negb (Ascii.eqb c (Ascii.ascii_of_nat 10)) && negb (Ascii.eqb c (Ascii.ascii_of_nat 13)).

(** [s] without its last character, when that is a closing bracket. *)
Fixpoint before_bracket (s : string) : option string :=
  match s with
  | EmptyString => None
  | String c EmptyString => if Ascii.eqb c "]" then Some EmptyString else None
  | String c s' => String c <$> before_bracket s'
  end.

(** [.*\[(.+)\]$]: the text behind the last opening bracket that leaves some. *)
Fixpoint last_bracketed (s : string) : option string :=
  match s with
  | EmptyString => None
  | String c s' =>
      match last_bracketed s' with
      | Some h => Some h
      | None =>
          if Ascii.eqb c "[" then
            match before_bracket s' with
            | Some h => if Js.truthy h then Some h else None
            | None => None
            end
          else None
      end
  end.

(** [s] behind its first colon, and whether anything stands before it. *)
Fixpoint after_colon (s : string) : option (bool * string) :=
  match s with
  | EmptyString => None
  | String c s' => if Ascii.eqb c ":" then Some (false, s') else (λ p, (true, p.2)) <$> after_colon s'
  end.

(** [^Polaris(?:\/[^:]+)?:], and what follows it. *)
Definition polaris_body (s : string) : option string :=
  if Js.startsWith "Polaris" s then
    match Js.drop 7 s with
    | String c s' =>
        if Ascii.eqb c ":" then Some s'
        else if Ascii.eqb c "/" then
          match after_colon s' with Some (true, body) => Some body | _ => None end
        else None
    | EmptyString => None
    end
  else None.

Definition extractHostnameFromDescription (desc : string) : option string :=
  match polaris_body (Js.trim desc) with
  | None => None
  | Some b =>
      let line := Js.trimStart b in
      if negb (Js.sforallb not_eol line) then None
      else match last_bracketed line with
           | Some h => Some (Js.trim h)
           | None => if Js.truthy line then Some (Js.trim line) else None
           end
  end.

(** ** The device's view *)

Record FortiOsDhcpLease := mkLease {
  dl_ip : string;
  dl_mac : option string;
  dl_hostname : option string;
  dl_interface : option string;
  dl_reserved : bool;
}.

(** [v && typeof v === "object"] *)
Definition is_object (v : Json) : bool :=
  match v with JArr _ | JObj _ => true | _ => false end.
(** [v ? String(v) : undefined] *)
Definition shown (v : option Json) : option string := if jtruthy v then jshow <$> v else None.
(** [String(v ?? "")] *)
Definition shown_or_empty (v : option Json) : string := default "" (jshow <$> jor v (Some (JStr ""))).
Definition is_true (v : option Json) : bool := match v with Some (JBool b) => b | _ => false end.

Definition grouped_lease (iface : string) (lease : Json) : FortiOsDhcpLease :=
  let l k := jget k (Some lease) in
  mkLease (shown_or_empty (l "ip")) (shown (l "mac")) (shown (l "hostname"))
    (if Js.truthy iface then Some iface else shown (l "interface")) (is_true (l "reserved")).

Definition flat_lease (entry : Json) : FortiOsDhcpLease :=
  let e k := jget k (Some entry) in
  mkLease (shown_or_empty (e "ip")) (shown (e "mac")) (shown (e "hostname")) (shown (e "interface"))
    (is_true (e "reserved")).

Definition collect_entry (entry : Json) : list FortiOsDhcpLease :=
  if negb (is_object entry) then []
  else match jget "leases" (Some entry) with
       | Some (JArr leases) =>
           let iface := shown_or_empty (jor (jget "server_interface" (Some entry)) (jget "interface" (Some entry))) in
           grouped_lease iface <$> List.filter is_object leases
       | _ => if jtruthy (jget "ip" (Some entry)) then [flat_lease entry] else []
       end.
Definition collect_leases (res : Json) : list FortiOsDhcpLease :=
  concat (collect_entry <$> jarray (Some res)) ++ concat (collect_entry <$> jarray (jget "results" (Some res))).

Definition leases_path : string :=
  "/api/v2/monitor/system/dhcp?format=ip|mac|hostname|interface|reserved|expire_time|access_point|ssid".

Inductive FreshSource := FromReservation | FromLease.
#[global] Instance FreshSource_eq_dec : EqDecision FreshSource.
Proof. solve_decision. Defined.

Record Fresh := mkFresh {
  fr_ip : string;
  fr_mac : option string;
  fr_hostname : option string;
  fr_sourceType : FreshSource;
  fr_entryId : option Z;
}.

Definition fresh_source (f : Fresh) : ReservationSourceType :=
  match fr_sourceType f with FromReservation => DhcpReservation | FromLease => DhcpLease end.

Definition truthy_mac (mac : option string) : option string :=
  if Js.otruthy mac then normalizeMac <$> mac else None.

Definition fresh_of_entry (r : FortiOsReservedAddress) (ip : string) : Fresh :=
  mkFresh ip (truthy_mac (ra_mac r))
    (if Js.otruthy (ra_description r) then extractHostnameFromDescription (default "" (ra_description r)) else None)
    FromReservation (Some (ra_id r)).
Definition fresh_of_lease (l : FortiOsDhcpLease) : Fresh :=
  mkFresh (dl_ip l) (truthy_mac (dl_mac l)) (or_null (dl_hostname l))
    (if dl_reserved l then FromReservation else FromLease) None.

(** The view of the scope keyed by address; reservations win over leases. *)
Definition add_entry (m : JsMap string Fresh) (r : FortiOsReservedAddress) : JsMap string Fresh :=
  match ra_ip r with
  | Some ip => if Js.truthy ip then mset ip (fresh_of_entry r ip) m else m
  | None => m
  end.
Definition add_lease (m : JsMap string Fresh) (l : FortiOsDhcpLease) : JsMap string Fresh :=
  if mhas (dl_ip l) m then m else mset (dl_ip l) (fresh_of_lease l) m.
Definition fresh_view (cmdb : list FortiOsReservedAddress) (leases : list FortiOsDhcpLease) : JsMap string Fresh :=
  fold_left add_lease leases (fold_left add_entry cmdb []).

(** ** The changes to one row *)

(** What a refresh writes to the row [matched] that already holds the address;
    [None] when there is nothing to write. *)
Record RefreshDiff := mkDiff {
  df_sourceType : option ReservationSourceType;
  df_owner : option string;
  df_macAddress : option string;
  df_hostname : option string;
  df_lastSeenLeased : option Z;
}.

Definition placeholder_owner (o : option string) : bool :=
  bool_decide (o = Some "dhcp-lease"%string) || bool_decide (o = Some "dhcp-reservation"%string).

Definition refresh_diff (t : Z) (f : Fresh) (matched : Reservation) : RefreshDiff :=
  let flips := negb (bool_decide (r_sourceType matched = fresh_source f)) in
  mkDiff
    (if flips then Some (fresh_source f) else None)
    (if flips && placeholder_owner (r_owner matched)
     then Some (match fr_sourceType f with FromReservation => "dhcp-reservation" | FromLease => "dhcp-lease" end)%string
     else None)
    (if Js.otruthy (fr_mac f) && negb (bool_decide (r_macAddress matched = fr_mac f)) then fr_mac f else None)
    (if Js.otruthy (fr_hostname f) && negb (bool_decide (r_hostname matched = fr_hostname f)) then fr_hostname f else None)
    (if bool_decide (fr_sourceType f = FromReservation) || bool_decide (r_sourceType matched = DhcpLease)
     then Some t else None).

Definition no_diff : RefreshDiff := mkDiff None None None None None.
#[global] Instance RefreshDiff_eq_dec : EqDecision RefreshDiff.
Proof. solve_decision. Defined.

Definition set_lastSeenLeased (t : option Z) (r : Reservation) : Reservation :=
  let x := r_stale r in
  set_r_stale (mkStaleState t (staleNotifiedAt x) (staleSnoozedUntil x) (staleIgnored x)) r.

Definition apply_diff (d : RefreshDiff) (r : Reservation) : Reservation :=
  set_lastSeenLeased (or_keep (df_lastSeenLeased d) (lastSeenLeased (r_stale r)))
    (mkReservation (r_id r) (r_subnetId r) (r_ipAddress r) (or_keep (df_hostname d) (r_hostname r))
       (or_keep (df_owner d) (r_owner r)) (r_projectRef r) (r_expiresAt r) (r_notes r) (r_status r)
       (default (r_sourceType r) (df_sourceType d)) (r_createdBy r)
       (or_keep (df_macAddress d) (r_macAddress r)) (r_push r) (r_stale r) (r_createdAt r) (r_vipInfo r)).

(** Promote a queued row whose entry is already on the device. *)
Definition adopt (t : Z) (discoveredBy : option string) (scopeId entryId : Z) (f : Fresh) (pending : Reservation)
    (r : Reservation) : Reservation :=
  set_lastSeenLeased (Some t)
    (mkReservation (r_id r) (r_subnetId r) (r_ipAddress r)
       (if Js.otruthy (fr_hostname f) && negb (bool_decide (r_hostname pending = fr_hostname f))
        then fr_hostname f else r_hostname r)
       (r_owner r) (r_projectRef r) (r_expiresAt r) (r_notes r) (r_status r) DhcpReservation (r_createdBy r)
       (r_macAddress r) (stamp_synced discoveredBy scopeId entryId t (r_push r)) (r_stale r) (r_createdAt r) (r_vipInfo r)).

Definition collision_message (f : Fresh) : string :=
  "IP collided during queue — discovered " +:+ show_source (fresh_source f) +:+
  (if Js.otruthy (fr_mac f) then " by " +:+ default "" (fr_mac f) else "").

Definition adoptable (f : Fresh) (pending : Reservation) : bool :=
  bool_decide (fr_sourceType f = FromReservation) && Js.otruthy (truthy_mac (r_macAddress pending)) &&
  Js.otruthy (fr_mac f) && bool_decide (truthy_mac (r_macAddress pending) = fr_mac f).

Definition discovered_row (subnetId : string) (f : Fresh) (ip : string) (actor : option string) (t : Z) (id : string)
  : Reservation :=
  mkReservation id subnetId (Some ip) (fr_hostname f) None None None None Active (fresh_source f)
    (Some (Js.oor actor "refresh")) (fr_mac f) no_push (mkStaleState (Some t) None None false) t None.

(** ** The three groups of rows on the subnet *)

Definition holds_address (r : Reservation) : bool :=
  bool_decide (r_status r = Active) && Js.otruthy (r_ipAddress r).
Definition dhcp_sourced (r : Reservation) : bool :=
  bool_decide (r_sourceType r = DhcpReservation) || bool_decide (r_sourceType r = DhcpLease).
Definition queued (r : Reservation) : bool := bool_decide (pushStatus (r_push r) = Some Pending).

Definition existing_rows (l : list Reservation) : list Reservation :=
  List.filter (λ r, holds_address r && dhcp_sourced r) l.
(** The last row of the loop that fills the map keyed by address. *)
Definition by_ip (p : Reservation → bool) (l : list Reservation) : JsMap string Reservation :=
  fold_left (λ m r, if holds_address r && p r then mset (default "" (r_ipAddress r)) r m else m) l [].
Definition pendingByIp : list Reservation → JsMap string Reservation := by_ip queued.
Definition manualByIp : list Reservation → JsMap string Reservation :=
  by_ip (λ r, negb (dhcp_sourced r) && negb (queued r)).

Record RefreshCounts := mkCounts { n_created : nat; n_updated : nat; n_released : nat; n_skipped : nat }.
Record RefreshSubnetResult := mkRefreshResult { lastDiscoveredAt : Z; rr_counts : RefreshCounts }.

Definition count_created (c : RefreshCounts) : RefreshCounts :=
  mkCounts (S (n_created c)) (n_updated c) (n_released c) (n_skipped c).
Definition count_updated (c : RefreshCounts) : RefreshCounts :=
  mkCounts (n_created c) (S (n_updated c)) (n_released c) (n_skipped c).
Definition count_released (c : RefreshCounts) : RefreshCounts :=
  mkCounts (n_created c) (n_updated c) (S (n_released c)) (n_skipped c).
Definition count_skipped (c : RefreshCounts) : RefreshCounts :=
  mkCounts (n_created c) (n_updated c) (n_released c) (S (n_skipped c)).

Definition set_lastDiscoveredAt (t : Z) (x : Subnet) : Subnet :=
  mkSubnet (s_id x) (s_blockId x) (s_cidr x) (s_name x) (s_purpose x) (s_status x) (s_vlan x)
    (s_tags x) (s_discoveredBy x) (s_fortigateDevice x) (s_createdBy x) (Some t).

(** [Promise.all([a, b])]: both run; the first to fail is reported. *)
Definition both {S A B} (a : M S A) (b : M S B) : M S (A * B) := λ s,
  let '(s1, ra) := a s in
  let '(s2, rb) := b s1 in
  (s2, match ra, rb with
       | Ok x, Ok y => Ok (x, y)
       | Throw e, _ | _, Throw e => Throw e
       end).

Fixpoint filter_result {A} (p : A → result bool) (l : list A) : result (list A) :=
  match l with
  | [] => Ok []
  | a :: l' =>
      match p a, filter_result p l' with
      | Throw e, _ => Throw e
      | Ok _, Throw e => Throw e
      | Ok b, Ok l'' => Ok (if b then a :: l'' else l'')
      end
  end.

Section refresh.
Context `{NetmaskLib, IpamStore} `{Net W}.
Notation St := (State W).

(** The filter at the end of [fetchLiveLeasesForScope]. *)
Definition lease_in_scope (serverInterface : option string) (block : option NetBlock) (l : FortiOsDhcpLease)
  : result bool :=
  if negb (Js.truthy (dl_ip l)) || String.eqb (dl_ip l) "0.0.0.0" then Ok false
  else
    let inside := match block with Some b => nm_contains_m b (Some (dl_ip l)) | None => Ok true end in
    if Js.otruthy serverInterface && Js.otruthy (dl_interface l) &&
       negb (bool_decide (dl_interface l = serverInterface))
    then match inside with Ok false => Ok false | Ok true => Ok true | Throw e => Throw e end
    else inside.

Definition fetchLiveLeasesForScope (t : Transport) (serverInterface : option string) (subnetCidr : string)
  : M W (list FortiOsDhcpLease) :=
  let! res := callFortiOs t GET leases_path None in
  hlift (filter_result (lease_in_scope serverInterface (new_Netmask subnetCidr)) (collect_leases res)).

(** Resolve the scope and read it. *)
Definition read_scope (integration : Integration) (device cidr : string)
  : M W (Z * JsMap string Fresh) :=
  let! t := buildTransportForIntegration integration device in
  let! scope := findScopeIdForCidr t cidr in
  let! read := both (listReservedAddresses t (fst scope)) (fetchLiveLeasesForScope t (snd scope) cidr) in
  hret (fst scope, fresh_view (fst read) (snd read)).

(** One turn of the loop over the fresh entries. *)
Definition upsert_fresh (subnet : Subnet) (rows0 : list Reservation) (actor : option string) (scopeId : Z)
    (entry : string * Fresh) (c : RefreshCounts) : M St RefreshCounts :=
  let '(ip, f) := entry in
  match mget ip (pendingByIp rows0) with
  | Some pending =>
      match fr_entryId f with
      | Some entryId =>
          if adoptable f pending then
            let! t := newDate in
            let! _ := reservation_update (r_id pending) (adopt t (s_discoveredBy subnet) scopeId entryId f pending) in
            logEvent "reservation.push.queued.adopted" "info" (Some (r_id pending)) ;!
            hret (count_updated c)
          else
            let! t := newDate in
            let! _ := reservation_update (r_id pending) (on_push (stamp_collided (collision_message f) t)) in
            logEvent "reservation.push.queued.collided" "warning" (Some (r_id pending)) ;!
            hret (count_skipped c)
      | None =>
          let! t := newDate in
          let! _ := reservation_update (r_id pending) (on_push (stamp_collided (collision_message f) t)) in
          logEvent "reservation.push.queued.collided" "warning" (Some (r_id pending)) ;!
          hret (count_skipped c)
      end
  | None =>
      if mhas ip (manualByIp rows0) then hret (count_skipped c)
      else
        match List.find (λ r, bool_decide (r_ipAddress r = Some ip)) (existing_rows rows0) with
        | Some matched =>
            let! t := newDate in
            let diff := refresh_diff t f matched in
            if bool_decide (diff = no_diff) then hret c
            else let! _ := reservation_update (r_id matched) (apply_diff diff) in hret (count_updated c)
        | None =>
            let! t := newDate in
            let! _ := reservation_create (discovered_row (s_id subnet) f ip actor t) in
            hret (count_created c)
        end
  end.

Fixpoint upsert_all (subnet : Subnet) (rows0 : list Reservation) (actor : option string) (scopeId : Z)
    (fresh : list (string * Fresh)) (c : RefreshCounts) : M St RefreshCounts :=
  match fresh with
  | [] => hret c
  | entry :: fresh' =>
      let! c' := upsert_fresh subnet rows0 actor scopeId entry c in
      upsert_all subnet rows0 actor scopeId fresh' c'
  end.

(** Release the rows that are no longer on the device. *)
Fixpoint release_gone (fresh : JsMap string Fresh) (existing : list Reservation) (c : RefreshCounts)
  : M St RefreshCounts :=
  match existing with
  | [] => hret c
  | r :: existing' =>
      if mhas (default "" (r_ipAddress r)) fresh then release_gone fresh existing' c
      else let! _ := reservation_update (r_id r) (set_r_status Released) in
           release_gone fresh existing' (count_released c)
  end.

Definition reconcile_subnet (subnet : Subnet) (rows0 : list Reservation) (actor : option string) (scopeId : Z)
    (fresh : JsMap string Fresh) : M St RefreshCounts :=
  let! c := upsert_all subnet rows0 actor scopeId fresh (mkCounts 0 0 0 0) in
  release_gone fresh (existing_rows rows0) c.

Definition refreshSubnet (subnetId : string) (actor : option string) : M St RefreshSubnetResult :=
  let! found := findSubnet (has_id subnetId) in
  match found with
  | None => hthrow (AppError 404 "Subnet not found")
  | Some subnet =>
      let! rows0 := findReservations (λ r, bool_decide (r_subnetId r = subnetId)) in
      let! integration := findIntegration (s_discoveredBy subnet) in
      match (if Js.otruthy (s_discoveredBy subnet) then integration else None) with
      | None => hthrow (AppError 400 "Refresh is only supported for subnets discovered by an integration")
      | Some i =>
          throw_if (negb (pushable_type (i_type i)))
            (AppError 400 ("Refresh is not supported for integration type " +:+ dq +:+ i_type i +:+ dq)) ;!
          throw_if (negb (Js.otruthy (s_fortigateDevice subnet)))
            (AppError 400 "Subnet has no associated FortiGate device — cannot refresh") ;!
          let! view := on_world (read_scope i (default "" (s_fortigateDevice subnet)) (s_cidr subnet)) in
          let! c := reconcile_subnet subnet rows0 actor (fst view) (snd view) in
          let! t := newDate in
          let! _ := subnet_update (s_id subnet) (set_lastDiscoveredAt t) in
          logEvent "subnet.refresh" "info" (Some (s_id subnet)) ;!
          hret (mkRefreshResult t c)
      end
  end.
End refresh.
