(* ===== verification/RefreshProofs.v ===== *)
(** * What a refresh does to the reservations

    The refresh of [Refresh] as one pure change of the table: what happens to
    every row, which rows are new, and when the release of a vanished row is
    refused.  The descriptions written by a push and read back by a refresh. *)

From S2P Require Import Prelude Cidr Store Networks Http Push Reservations JsColl Refresh.

(** ** The reference: one pure change per row *)

(** What a fresh entry [f] at the address of [r] makes of it. *)
Definition matched_row (t : Z) (discoveredBy : option string) (scopeId : Z) (f : Fresh) (r : Reservation)
  : Reservation :=
  if queued r then
    match fr_entryId f with
    | Some entryId =>
        if adoptable f r then adopt t discoveredBy scopeId entryId f r r
        else on_push (stamp_collided (collision_message f) t) r
    | None => on_push (stamp_collided (collision_message f) t) r
    end
  else if dhcp_sourced r then apply_diff (refresh_diff t f r) r
  else r.

Definition on_subnet (sub : string) (r : Reservation) : bool := bool_decide (r_subnetId r = sub) && holds_address r.

Definition upserted (sub : string) (step : Fresh → Reservation → Reservation) (fresh : JsMap string Fresh)
    (r : Reservation) : Reservation :=
  if on_subnet sub r then
    match mget (default "" (r_ipAddress r)) fresh with Some f => step f r | None => r end
  else r.

(** The rows a refresh releases. *)
Definition gone (sub : string) (fresh : JsMap string Fresh) (r : Reservation) : bool :=
  on_subnet sub r && dhcp_sourced r && negb (mhas (default "" (r_ipAddress r)) fresh).

Definition reconciled (sub : string) (step : Fresh → Reservation → Reservation) (fresh : JsMap string Fresh)
    (r : Reservation) : Reservation :=
  if gone sub fresh r then set_r_status Released r else upserted sub step fresh r.

(** Some active row of the subnet holds [ip]. *)
Definition claimed (sub : string) (l : list Reservation) (ip : string) : bool :=
  existsb (λ r, on_subnet sub r && bool_decide (r_ipAddress r = Some ip)) l.

(** An older released row stands at the address of [r]. *)
Definition blocked (l : list Reservation) (r : Reservation) : Prop :=
  ∃ y, y ∈ l ∧ r_subnetId y = r_subnetId r ∧ r_ipAddress y = r_ipAddress r ∧ r_status y = Released.

Lemma matched_row_same_key t d sc f r :
  let r' := matched_row t d sc f r in
  r_id r' = r_id r ∧ r_subnetId r' = r_subnetId r ∧ r_ipAddress r' = r_ipAddress r ∧ r_status r' = r_status r.
Proof. unfold matched_row, adopt, apply_diff, set_lastSeenLeased, set_r_stale. repeat case_match; done. Qed.

Lemma set_r_push_id r : set_r_push (r_push r) r = r.
Proof. by destruct r. Qed.

(** Nothing to write is no change. *)
Lemma apply_no_diff r : apply_diff no_diff r = r.
Proof. by destruct r as [????????????? [????] ?]. Qed.

(** ** The view *)

Lemma add_entries_keys cmdb m :
  NoDup (mkeys m) → (∀ ip, ip ∈ mkeys m → Js.truthy ip = true) →
  NoDup (mkeys (fold_left add_entry cmdb m)) ∧
  (∀ ip, ip ∈ mkeys (fold_left add_entry cmdb m) → Js.truthy ip = true).
Proof.
  revert m. induction cmdb as [|r cmdb IH]; intros m Hnd Ht; [done|]. simpl. unfold add_entry at 2 4.
  destruct (ra_ip r) as [ip|]; [|by apply IH]. destruct (Js.truthy ip) eqn:Hip; [|by apply IH].
  apply IH; [by apply mset_NoDup|]. intros x. rewrite mkeys_mset.
  destruct (mhas ip m); [by apply Ht|]. rewrite elem_of_app, list_elem_of_singleton. naive_solver.
Qed.
Lemma add_leases_keys leases m :
  NoDup (mkeys m) → (∀ ip, ip ∈ mkeys m → Js.truthy ip = true) →
  (∀ l, l ∈ leases → Js.truthy (dl_ip l) = true) →
  NoDup (mkeys (fold_left add_lease leases m)) ∧
  (∀ ip, ip ∈ mkeys (fold_left add_lease leases m) → Js.truthy ip = true).
Proof.
  revert m. induction leases as [|l leases IH]; intros m Hnd Ht Hl; [done|]. simpl.
  assert (Js.truthy (dl_ip l) = true) as Hip by (apply Hl; left).
  assert (∀ l, l ∈ leases → Js.truthy (dl_ip l) = true) as Hl' by (intros ? ?; apply Hl; by right).
  unfold add_lease at 2 4. destruct (mhas (dl_ip l) m) eqn:Hh; [by apply IH|].
  apply IH; [by apply mset_NoDup| |done]. intros x. rewrite mkeys_mset, Hh, elem_of_app, list_elem_of_singleton.
  naive_solver.
Qed.

Lemma filter_result_ok {A} (p : A → result bool) l l' :
  filter_result p l = Ok l' → ∀ a, a ∈ l' → a ∈ l ∧ p a = Ok true.
Proof.
  revert l'. induction l as [|x l IH]; intros l'; simpl; [intros [= <-] a Ha; by inversion Ha|].
  destruct (p x) as [b|] eqn:Hp; [|done]. destruct (filter_result p l) as [l''|]; [|done].
  intros [= <-] a. destruct b; [rewrite elem_of_cons; intros [->|Ha]|intros Ha].
  - split; [left|done].
  - destruct (IH _ eq_refl a Ha). split; [by right|done].
  - destruct (IH _ eq_refl a Ha). split; [by right|done].
Qed.

(** ** The maps of the rows at hand *)

Lemma mget_by_ip p l ip r :
  mget ip (by_ip p l) = Some r → r ∈ l ∧ holds_address r = true ∧ p r = true ∧ r_ipAddress r = Some ip.
Proof.
  unfold by_ip. assert (mget ip ([] : JsMap string Reservation) = Some r → False) as H0 by done.
  revert H0. generalize ([] : JsMap string Reservation).
  induction l as [|x l IH]; intros m H0 Hg; [by apply H0 in Hg|]. simpl in Hg.
  destruct (holds_address x && p x) eqn:Hx.
  - destruct (decide (mget ip (mset (default "" (r_ipAddress x)) x m) = Some r)) as [Hm|Hm].
    + rewrite mget_mset in Hm. case_decide as Hip; [|by apply H0 in Hm]. simplify_eq.
      apply andb_true_iff in Hx as [Hh Hp].
      assert (r_ipAddress r = Some (default "" (r_ipAddress r))) as He.
      { unfold holds_address in Hh. apply andb_true_iff in Hh as [_ Hh]. by destruct (r_ipAddress r). }
      split_and!; [left|done|done|done].
    + destruct (IH _ Hm Hg) as (? & ? & ? & ?). split_and!; [by right|done..].
  - destruct (IH _ H0 Hg) as (? & ? & ? & ?). split_and!; [by right|done..].
Qed.

Lemma mget_by_ip_none p l ip r :
  mget ip (by_ip p l) = None → r ∈ l → holds_address r = true → p r = true → r_ipAddress r ≠ Some ip.
Proof.
  unfold by_ip. enough (∀ m, mget ip (fold_left (λ m r, if holds_address r && p r then mset (default "" (r_ipAddress r)) r m else m) l m) = None →
     mget ip m = None ∧ (r ∈ l → holds_address r = true → p r = true → r_ipAddress r ≠ Some ip)) as He.
  { intros Hg. by apply He in Hg as [_ ?]. }
  induction l as [|x l IH]; intros m; simpl; [intros Hm; split; [done|intros Hr; by inversion Hr]|].
  intros [Hm Hl]%IH. destruct (holds_address x && p x) eqn:Hx.
  - rewrite mget_mset in Hm. case_decide as Hip; [done|]. split; [done|].
    intros [->|Hr]%elem_of_cons Hh Hp; [|by apply Hl]. intros Hi. apply Hip. by rewrite Hi.
  - split; [done|]. intros [->|Hr]%elem_of_cons Hh Hp; [|by apply Hl]. by rewrite Hh, Hp in Hx.
Qed.

Lemma mget_snoc {V} k (ip : string) (v : V) m :
  NoDup (mkeys (m ++ [(ip, v)])) → mget k (m ++ [(ip, v)]) = if decide (k = ip) then Some v else mget k m.
Proof.
  unfold mkeys. rewrite fmap_app. intros (_ & Hip & _)%NoDup_app. induction m as [|[k' v'] m IH]; simpl; [done|].
  destruct (decide (k = k')) as [Hk|Hk].
  - rewrite decide_False; [done|]. intros Heq. apply (Hip k); [rewrite Hk; by left|rewrite Heq; by left].
  - apply IH. intros x Hx. apply Hip. by right.
Qed.

(** A new row on an existing subnet. *)
Lemma create_on_subnet `{IpamStoreLaws, PushRule} `{Net W} f x (s : State W) :
  res_ok s → x ∈ subnet_rows s → (∀ id, r_id (f id) = id ∧ r_subnetId (f id) = s_id x ∧ push_ok (f id)) →
  match reservation_create f s with
  | (s', Ok r) => ∃ t id, s' = set_reservations t s ∧ r = f id ∧ id ∉ r_id <$> reservation_rows s ∧ res_ok s' ∧
      rows t ≡ₚ f id :: reservation_rows s
  | (s', Throw e) => s' = s ∧ ∃ r id, r ∈ reservation_rows s ∧ reservation_conflict (f id) r = true
  end.
Proof.
  intros Hok Hx Hf. pose proof (reservation_create_spec f s (λ id, proj1 (Hf id)) (ro_db _ Hok)) as Hc.
  destruct (reservation_create f s) as [s' [r|e]]; [|by destruct Hc as (-> & _ & ?)].
  destruct Hc as (t & -> & Hdb & (id & Hid & ->) & Hrows). exists t, id. split_and!; try done.
  destruct (Hf id) as (Hfi & Hfs & Hfp). split; [done|..]; intros r; rewrite Hrows; intros [->|Hin]%elem_of_cons.
  - done.
  - by apply (ro_push _ Hok).
  - by exists x.
  - by apply (ro_fk _ Hok).
Qed.

(** ** The run *)

Section run.
Context `{NetmaskLib, IpamStoreLaws, PushRule} `{Net W}.
Notation St := (State W).
Context (s0 : St) (subnet : Subnet) (actor : option string) (scopeId : Z).
Context (Hok : res_ok s0) (Hsub : subnet ∈ subnet_rows s0) (Hdisc : is_Some (s_discoveredBy subnet)).
Implicit Types (s : St).

Let sub : string := s_id subnet.
Let all : list Reservation := reservation_rows s0.
Let rows0 : list Reservation := List.filter (λ r, bool_decide (r_subnetId r = sub)) all.
Let t : Z := now (world s0).
Let step : Fresh → Reservation → Reservation := matched_row t (s_discoveredBy subnet) scopeId.

Lemma on_subnet_rows r : r ∈ rows0 ∧ holds_address r = true ↔ r ∈ all ∧ on_subnet sub r = true.
Proof. unfold rows0, on_subnet. rewrite elem_bfilter, andb_true_iff, bool_decide_eq_true. naive_solver. Qed.

(** At most one active row of the subnet holds an address. *)
Lemma holder_unique r1 r2 :
  r1 ∈ all → r2 ∈ all → on_subnet sub r1 = true → on_subnet sub r2 = true →
  r_ipAddress r1 = r_ipAddress r2 → r1 = r2.
Proof using All.
  intros H1' H2' Ho1 Ho2 Hip. unfold on_subnet, holds_address in Ho1, Ho2.
  rewrite !andb_true_iff, !bool_decide_eq_true in Ho1, Ho2. destruct Ho1 as (Hs1 & Ha1 & Ht1), Ho2 as (Hs2 & Ha2 & _).
  apply (rows_ok_conflict all); [apply reservation_conflict_sym|apply Hok|done|done|].
  apply reservation_conflict_true. split_and!; [congruence|congruence|].
  destruct (r_ipAddress r1) as [ip|] eqn:Hi; [|done]. by exists ip.
Qed.

Inductive holder (ip : string) : Prop :=
  | held_by r : r ∈ all → on_subnet sub r = true → r_ipAddress r = Some ip → holder ip
  | held_by_none : claimed sub all ip = false → holder ip.

Lemma find_holder ip : holder ip.
Proof.
  destruct (claimed sub all ip) eqn:Hc; [|by right].
  unfold claimed in Hc. apply existsb_exists in Hc as (r & Hr%list_elem_of_In & Hr').
  apply andb_true_iff in Hr' as [Ho Hi%bool_decide_eq_true]. by eapply held_by.
Qed.

Lemma claimed_false ip r : claimed sub all ip = false → r ∈ all → on_subnet sub r = true → r_ipAddress r ≠ Some ip.
Proof.
  intros Hc Hr Ho Hi. enough (claimed sub all ip = true) by congruence. unfold claimed.
  apply existsb_exists. exists r. split; [by apply list_elem_of_In|]. by rewrite Ho, bool_decide_eq_true_2.
Qed.
Lemma claimed_true ip r : r ∈ all → on_subnet sub r = true → r_ipAddress r = Some ip → claimed sub all ip = true.
Proof.
  intros Hr Ho Hi. destruct (claimed sub all ip) eqn:Hc; [done|]. by destruct (claimed_false ip r Hc Hr Ho).
Qed.

(** What the three look-ups of the loop answer at an address. *)
Lemma lookups_held ip r :
  r ∈ all → on_subnet sub r = true → r_ipAddress r = Some ip →
  mget ip (pendingByIp rows0) = (if queued r then Some r else None) ∧
  (queued r = false → mhas ip (manualByIp rows0) = negb (dhcp_sourced r)) ∧
  (dhcp_sourced r = true → List.find (λ r, bool_decide (r_ipAddress r = Some ip)) (existing_rows rows0) = Some r).
Proof using All.
  intros Hr Ho Hi. destruct (proj2 (on_subnet_rows r) (conj Hr Ho)) as [Hr0 Hh].
  assert (∀ p x, mget ip (by_ip p rows0) = Some x → x = r ∧ p r = true) as Hby.
  { intros p x (Hx & Hhx & Hp & Hix)%mget_by_ip. destruct (proj1 (on_subnet_rows x) (conj Hx Hhx)) as [Hxa Hxo].
    assert (x = r) as -> by (apply holder_unique; congruence). done. }
  split_and!.
  - destruct (mget ip (pendingByIp rows0)) as [x|] eqn:Hm.
    + apply Hby in Hm as [-> ->]. done.
    + destruct (queued r) eqn:Hq; [|done]. by destruct (mget_by_ip_none _ _ _ r Hm Hr0 Hh Hq).
  - intros Hq. unfold mhas. destruct (mget ip (manualByIp rows0)) as [x|] eqn:Hm.
    + apply Hby in Hm as [-> Hp]. rewrite Hq, andb_true_r in Hp. done.
    + destruct (dhcp_sourced r) eqn:Hd; [done|].
      destruct (mget_by_ip_none _ _ _ r Hm Hr0 Hh); [by rewrite Hd, Hq|done].
  - intros Hd. destruct (List.find _ _) as [x|] eqn:Hf.
    + apply find_some in Hf as [Hx%list_elem_of_In Hix%bool_decide_eq_true].
      apply elem_bfilter in Hx as [Hx [Hhx _]%andb_true_iff].
      destruct (proj1 (on_subnet_rows x) (conj Hx Hhx)) as [Hxa Hxo].
      assert (x = r) as -> by (apply holder_unique; congruence). done.
    + eapply find_none in Hf; [|apply list_elem_of_In, elem_bfilter; split; [exact Hr0|by rewrite Hh, Hd]].
      by rewrite bool_decide_eq_true_2 in Hf.
Qed.

Lemma lookups_free ip :
  claimed sub all ip = false →
  mget ip (pendingByIp rows0) = None ∧ mhas ip (manualByIp rows0) = false ∧
  List.find (λ r, bool_decide (r_ipAddress r = Some ip)) (existing_rows rows0) = None.
Proof.
  intros Hc. assert (∀ p, mget ip (by_ip p rows0) = None) as Hby.
  { intros p. destruct (mget ip (by_ip p rows0)) as [x|] eqn:Hm; [|done].
    apply mget_by_ip in Hm as (Hx & Hhx & _ & Hix). destruct (proj1 (on_subnet_rows x) (conj Hx Hhx)) as [Hxa Hxo].
    by destruct (claimed_false ip x Hc Hxa Hxo). }
  split_and!; [apply Hby|unfold mhas, manualByIp; by rewrite Hby|].
  destruct (List.find _ _) as [x|] eqn:Hf; [|done].
  apply find_some in Hf as [Hx%list_elem_of_In Hix%bool_decide_eq_true].
  apply elem_bfilter in Hx as [Hx [Hhx _]%andb_true_iff].
  destruct (proj1 (on_subnet_rows x) (conj Hx Hhx)) as [Hxa Hxo]. by destruct (claimed_false ip x Hc Hxa Hxo).
Qed.

(** The states of the run: the tables next to the reservations and the world
    are those of the start. *)
Record at_rows (L : list Reservation) s : Prop := {
  ar_ok : res_ok s;
  ar_net : same_net_tables s0 s;
  ar_world : world s = world s0;
  ar_rows : reservation_rows s ≡ₚ L;
}.

Lemma at_rows_perm L L' s : L ≡ₚ L' → at_rows L s → at_rows L' s.
Proof. intros HL [? ? ? Hr]. split; [done..|by rewrite Hr]. Qed.

Lemma at_rows_log L s a l i : at_rows L s → ∃ s', logEvent a l i s = (s', Ok tt) ∧ at_rows L s'.
Proof.
  intros [Ho Hn Hw Hr]. eexists. split; [done|]. split; try done. by eapply res_ok_same_tables; [|exact Ho].
Qed.

Lemma at_rows_update p f L s :
  at_rows (p :: L) s → same_key f → keeps_push f →
  ∃ s', reservation_update (r_id p) f s = (s', Ok (f p)) ∧ at_rows (f p :: L) s'.
Proof.
  intros [Ho Hn Hw Hr] Hf Hk. destruct (update_head s p L f Ho Hr Hf Hk) as (t' & E & Ho' & Ht).
  exists (set_reservations t' s). split; [done|]. by split.
Qed.

Definition made (P : list (string * Fresh)) (news : list Reservation) : Prop :=
  Forall2 (λ e r, ∃ id, r = discovered_row sub e.2 e.1 actor t id)
    (List.filter (λ e, negb (claimed sub all e.1)) P) news.

Lemma made_snoc P e news r :
  made P news → (claimed sub all e.1 = true ∧ r = None ∨
                 claimed sub all e.1 = false ∧ ∃ id, r = Some (discovered_row sub e.2 e.1 actor t id)) →
  made (P ++ [e]) (news ++ option_list r).
Proof.
  unfold made. rewrite List.filter_app. simpl. intros Hm [[-> ->]|[-> (id & ->)]]; simpl.
  - by rewrite !app_nil_r.
  - apply Forall2_app; [done|]. constructor; [by exists id|constructor].
Qed.

Lemma made_rows P news r :
  made P news → r ∈ news → r_subnetId r = sub ∧ r_status r = Active ∧
  ∃ ip, r_ipAddress r = Some ip ∧ ip ∈ mkeys P ∧ claimed sub all ip = false.
Proof.
  intros Hm Hr. apply list_elem_of_lookup in Hr as [k Hk].
  destruct (Forall2_lookup_r _ _ _ _ _ Hm Hk) as (e & He & id & ->). simpl. split_and!; [done..|].
  apply list_elem_of_lookup_2, elem_bfilter in He as [He Hc%negb_true_iff].
  exists e.1. split_and!; [done| |done]. by apply list_elem_of_fmap_2.
Qed.

(** Looking at the table through one of its rows. *)
Lemma upserted_split P e p :
  NoDup (mkeys (P ++ [e])) → p ∈ all → on_subnet sub p = true → r_ipAddress p = Some e.1 →
  ∃ R, (upserted sub step P <$> all ≡ₚ p :: R) ∧ (upserted sub step (P ++ [e]) <$> all ≡ₚ step e.2 p :: R).
Proof using All.
  intros Hnd Hp Ho Hi. destruct e as [ip f]. simpl in *.
  apply elem_of_Permutation in Hp as [R HR]. exists (upserted sub step P <$> R).
  pose proof (head_id_fresh _ _ _ (ro_db _ Hok) HR) as Hfr.
  assert (mget ip P = None) as Hnone.
  { unfold mkeys in Hnd. rewrite fmap_app in Hnd. apply NoDup_app in Hnd as (_ & Hd & _).
    destruct (mget ip P) eqn:Hg; [|done]. exfalso. apply (Hd ip); [|by left]. apply elem_mkeys. by eexists. }
  split.
  - rewrite HR, fmap_cons. unfold upserted at 1. by rewrite Ho, Hi; simpl; rewrite Hnone.
  - rewrite HR, fmap_cons. unfold upserted at 1. rewrite Ho, Hi. simpl.
    rewrite mget_snoc, decide_True by done.
    rewrite (fmap_ext_elem (upserted sub step (P ++ [(ip, f)])) (upserted sub step P) R); [done|]. intros r Hr.
    unfold upserted. destruct (on_subnet sub r) eqn:Hor; [|done]. rewrite mget_snoc by done.
    case_decide as Hd; [|done]. exfalso. apply Hfr, list_elem_of_fmap. exists r. split; [|done]. f_equal.
    apply holder_unique; [rewrite HR; by left|rewrite HR; by right|done|done|].
    unfold on_subnet, holds_address in Hor. rewrite !andb_true_iff in Hor. destruct Hor as (_ & _ & Ht).
    destruct (r_ipAddress r); [|done]. simpl in Hd. congruence.
Qed.

Lemma upserted_free P e :
  NoDup (mkeys (P ++ [e])) → claimed sub all e.1 = false →
  upserted sub step (P ++ [e]) <$> all = upserted sub step P <$> all.
Proof.
  intros Hnd Hc. destruct e as [ip f]. apply fmap_ext_elem. intros r Hr. unfold upserted.
  destruct (on_subnet sub r) eqn:Hor; [|done]. rewrite mget_snoc by done. case_decide as Hd; [|done].
  exfalso. apply (claimed_false ip r Hc Hr Hor). unfold on_subnet, holds_address in Hor.
  rewrite !andb_true_iff in Hor. destruct Hor as (_ & _ & Ht). destruct (r_ipAddress r); [|done]. simpl in Hd. congruence.
Qed.

Lemma keeps_push_diff d : keeps_push (apply_diff d).
Proof. by intros r Hr. Qed.
Lemma same_key_diff d : same_key (apply_diff d).
Proof. done. Qed.
Lemma keeps_push_adopt e f p : keeps_push (adopt t (s_discoveredBy subnet) scopeId e f p).
Proof using All. intros r _. split_and!; [intros _; exact Hdisc|by eexists..]. Qed.
Lemma same_key_adopt e f p : same_key (adopt t (s_discoveredBy subnet) scopeId e f p).
Proof. done. Qed.
Hint Resolve keeps_push_diff same_key_diff keeps_push_adopt same_key_adopt : ipam.

(** One write and one event. *)
Lemma write_and_log {A} p f a l (k : A) L s :
  at_rows (p :: L) s → same_key f → keeps_push f →
  ∃ s', (let! t := newDate in
         let! _ := reservation_update (r_id p) f in logEvent a l (Some (r_id p)) ;! hret k) s = (s', Ok k) ∧
    at_rows (f p :: L) s'.
Proof.
  intros Hr Hf Hk. destruct (at_rows_update p f L s Hr Hf Hk) as (s1 & E1 & H1').
  destruct (at_rows_log (f p :: L) s1 a l (Some (r_id p)) H1') as (s2 & E2 & H2'). exists s2. split; [|done].
  unfold hbind at 1, newDate, hgets. unfold hbind at 1. rewrite E1. unfold hbind at 1. by rewrite E2.
Qed.

Lemma at_rows_create L f ip s :
  at_rows L s → Js.truthy ip = true →
  (∀ r, r ∈ L → r_subnetId r = sub → r_status r = Active → r_ipAddress r ≠ Some ip) →
  ∃ s' id, reservation_create (discovered_row sub f ip actor t) s = (s', Ok (discovered_row sub f ip actor t id)) ∧
    at_rows (discovered_row sub f ip actor t id :: L) s'.
Proof using All.
  intros [Ho [Hb Hs] Hw Hr] Hip Hfree.
  assert (subnet ∈ subnet_rows s) as Hx by (unfold subnet_rows; by rewrite Hs).
  pose proof (create_on_subnet (discovered_row sub f ip actor t) subnet s Ho Hx) as Hc.
  destruct (reservation_create _ s) as [s' [r|e]].
  - destruct Hc as (t' & id & -> & -> & _ & Hok' & Hrows); [done|]. exists (set_reservations t' s), id. split; [done|].
    split; [done..|]. unfold reservation_rows at 1. simpl. by rewrite Hrows, Hr.
  - exfalso. destruct Hc as (_ & r & id & Hin & Hcf); [done|].
    apply reservation_conflict_true in Hcf as (H1' & H2' & x & H3' & H4').
    simpl in *. simplify_eq. apply (Hfree r); [by rewrite <-Hr|done..].
Qed.

Lemma upsert_fresh_run P e c news s :
  NoDup (mkeys (P ++ [e])) → Js.truthy e.1 = true → made P news →
  at_rows ((upserted sub step P <$> all) ++ news) s →
  ∃ s' c' news', upsert_fresh subnet rows0 actor scopeId e c s = (s', Ok c') ∧ made (P ++ [e]) news' ∧
    at_rows ((upserted sub step (P ++ [e]) <$> all) ++ news') s' ∧
    (n_created c' + length news = n_created c + length news')%nat ∧ n_released c' = n_released c.
Proof using All.
  intros Hnd Ht Hm Hr. destruct (find_holder e.1) as [r Hin Ho Hi|Hfree].
  - destruct (upserted_split P e r Hnd Hin Ho Hi) as (R & HR1 & HR2).
    assert (at_rows (r :: R ++ news) s) as Hr1 by (eapply at_rows_perm; [|exact Hr]; by rewrite HR1).
    assert (made (P ++ [e]) news) as Hm'.
    { rewrite <-(app_nil_r news). apply (made_snoc P e news None Hm). left. split; [|done]. by eapply claimed_true. }
    destruct (lookups_held e.1 r Hin Ho Hi) as (Hpend & Hman & Hex). destruct e as [ip f]. simpl in *.
    enough (∃ s' c', upsert_fresh subnet rows0 actor scopeId (ip, f) c s = (s', Ok c') ∧
              at_rows (step f r :: R ++ news) s' ∧ n_created c' = n_created c ∧ n_released c' = n_released c) as He.
    { destruct He as (s' & c' & He & Ha & Hc1 & Hc2). exists s', c', news. split_and!; try done; [|lia].
      eapply at_rows_perm; [|exact Ha]. by rewrite HR2. }
    unfold upsert_fresh. rewrite Hpend. unfold step, matched_row. destruct (queued r) eqn:Hq.
    + destruct (fr_entryId f) as [en|] eqn:Hen; [destruct (adoptable f r) eqn:Had|].
      * edestruct (write_and_log r (adopt t (s_discoveredBy subnet) scopeId en f r) "reservation.push.queued.adopted" "info"
          (count_updated c)) as (s' & E & Ha); [exact Hr1|auto with ipam..|].
        replace t with (now (world s)) in E by (by rewrite (ar_world _ _ Hr)).
        exists s', (count_updated c). split; [exact E|done].
      * edestruct (write_and_log r (on_push (stamp_collided (collision_message f) t)) "reservation.push.queued.collided" "warning"
          (count_skipped c)) as (s' & E & Ha); [exact Hr1|auto with ipam..|].
        replace t with (now (world s)) in E by (by rewrite (ar_world _ _ Hr)).
        exists s', (count_skipped c). split; [exact E|done].
      * edestruct (write_and_log r (on_push (stamp_collided (collision_message f) t)) "reservation.push.queued.collided" "warning"
          (count_skipped c)) as (s' & E & Ha); [exact Hr1|auto with ipam..|].
        replace t with (now (world s)) in E by (by rewrite (ar_world _ _ Hr)).
        exists s', (count_skipped c). split; [exact E|done].
    + rewrite (Hman eq_refl). destruct (dhcp_sourced r) eqn:Hd; simpl; [|by exists s, (count_skipped c)].
      rewrite (Hex eq_refl). unfold hbind at 1, newDate, hgets. rewrite (ar_world _ _ Hr). fold t.
      case_bool_decide as Hno; [exists s, c; by rewrite Hno, apply_no_diff|].
      destruct (at_rows_update r (apply_diff (refresh_diff t f r)) (R ++ news) s Hr1) as (s1 & E1 & Ha); [auto with ipam..|].
      exists s1, (count_updated c). split; [|done]. unfold hbind. by rewrite E1.
  - destruct (lookups_free e.1 Hfree) as (Hpend & Hman & Hex).
    destruct (at_rows_create ((upserted sub step P <$> all) ++ news) e.2 e.1 s Hr Ht) as (s1 & id & E1 & Ha).
    { intros r [Hin|Hin]%elem_of_app Hs Hact Hi.
      - apply list_elem_of_fmap in Hin as (r0 & -> & Hr0). apply (claimed_false e.1 r0 Hfree Hr0).
        + unfold upserted in *. destruct (on_subnet sub r0) eqn:Ho; [done|].
          unfold on_subnet, holds_address in Ho. rewrite Hi in Ho. simpl in Ho.
          by rewrite !bool_decide_eq_true_2, Ht in Ho.
        + rewrite <-Hi. unfold upserted, step. destruct (on_subnet sub r0); [|done].
          destruct (mget _ P); [|done]. symmetry. apply matched_row_same_key.
      - destruct (made_rows P news r Hm Hin) as (_ & _ & x & Hx & HxP & _). simplify_eq.
        unfold mkeys in Hnd. rewrite fmap_app in Hnd. apply NoDup_app in Hnd as (_ & Hd & _).
        apply (Hd e.1 HxP). by left. }
    exists s1, (count_created c), (news ++ [discovered_row sub e.2 e.1 actor t id]). split_and!.
    + unfold upsert_fresh. destruct e as [ip f]. simpl in *. rewrite Hpend, Hman, Hex.
      unfold hbind at 1, newDate, hgets. rewrite (ar_world _ _ Hr). fold t. fold sub. unfold hbind. by rewrite E1.
    + apply (made_snoc P e news (Some _) Hm). right. split; [done|]. by exists id.
    + rewrite (upserted_free P e Hnd Hfree). eapply at_rows_perm; [|exact Ha]. rewrite app_assoc. apply Permutation_cons_append.
    + rewrite length_app. simpl. lia.
    + done.
Qed.

Lemma upsert_all_run fresh P c news s :
  NoDup (mkeys (P ++ fresh)) → (∀ ip, ip ∈ mkeys fresh → Js.truthy ip = true) → made P news →
  at_rows ((upserted sub step P <$> all) ++ news) s →
  ∃ s' c' news', upsert_all subnet rows0 actor scopeId fresh c s = (s', Ok c') ∧ made (P ++ fresh) news' ∧
    at_rows ((upserted sub step (P ++ fresh) <$> all) ++ news') s' ∧
    (n_created c' + length news = n_created c + length news')%nat ∧ n_released c' = n_released c.
Proof using All.
  revert P c news s. induction fresh as [|e fresh IH]; intros P c news s Hnd Ht Hm Hr.
  - exists s, c, news. by rewrite !app_nil_r.
  - assert (NoDup (mkeys (P ++ [e]))) as Hnd1.
    { unfold mkeys in *. rewrite !fmap_app in *. apply NoDup_app in Hnd as (Hn1 & Hn2 & Hn3).
      apply NoDup_app. split_and!; [done| |apply NoDup_singleton].
      intros x Hx Hx'. apply (Hn2 x Hx). rewrite fmap_cons. apply list_elem_of_singleton in Hx' as ->. by left. }
    destruct (upsert_fresh_run P e c news s Hnd1) as (s1 & c1 & news1 & E1 & Hm1 & Hr1 & Hc1 & Hc1');
      [apply Ht; by left|done|done|].
    destruct (IH (P ++ [e]) c1 news1 s1) as (s2 & c2 & news2 & E2 & Hm2 & Hr2 & Hc2 & Hc2'); try done.
    { by rewrite <-app_assoc. } { intros ip Hip. apply Ht. by right. }
    rewrite <-app_assoc in Hm2, Hr2. exists s2, c2, news2. split_and!; try done; [|lia|congruence].
    simpl. unfold hbind. by rewrite E1.
Qed.

(** ** The release of vanished rows *)

(** The table after the vanished rows in [Q] were released. *)
Definition released_so_far (fresh : JsMap string Fresh) (Q : list Reservation) (r : Reservation) : Reservation :=
  if gone sub fresh r && bool_decide (r ∈ Q) then set_r_status Released r else upserted sub step fresh r.

Lemma released_so_far_other fresh Q r :
  on_subnet sub r = false → released_so_far fresh Q r = r.
Proof. intros Ho. unfold released_so_far, gone, upserted. by rewrite Ho. Qed.

Lemma upserted_key fresh r :
  let r' := upserted sub step fresh r in
  r_id r' = r_id r ∧ r_subnetId r' = r_subnetId r ∧ r_ipAddress r' = r_ipAddress r ∧ r_status r' = r_status r.
Proof.
  unfold upserted. destruct (on_subnet sub r); [|done]. destruct (mget _ fresh); [|done]. apply matched_row_same_key.
Qed.

Lemma conflict_blocked fresh Q r R news :
  all ≡ₚ r :: R → gone sub fresh r = true → made fresh news →
  (∃ y, y ∈ (released_so_far fresh Q <$> R) ++ news ∧ reservation_conflict (set_r_status Released r) y = true) ↔
  blocked all r.
Proof using All.
  intros HR Hg Hm. assert (on_subnet sub r = true) as Ho.
  { unfold gone in Hg. by apply andb_true_iff in Hg as [[? _]%andb_true_iff _]. }
  assert (∃ ip, r_ipAddress r = Some ip) as [ip Hip].
  { unfold on_subnet, holds_address in Ho. destruct (r_ipAddress r) eqn:Hi; [by eexists|]. by rewrite !andb_false_r in Ho. }
  pose proof (head_id_fresh _ _ _ (ro_db _ Hok) HR) as Hfr. split.
  - intros (y & Hy & Hc). apply reservation_conflict_true in Hc as (Hs & Hst & x & Hx1 & Hx2). simpl in *.
    apply elem_of_app in Hy as [Hy|Hy].
    + apply list_elem_of_fmap in Hy as (z & -> & Hz). exists z. split; [rewrite HR; by right|].
      unfold released_so_far in *. destruct (gone sub fresh z && bool_decide (z ∈ Q)) eqn:Hgz.
      * exfalso. apply andb_true_iff in Hgz as [Hgz _]. simpl in *. apply Hfr, list_elem_of_fmap. exists z.
        split; [|done]. f_equal. apply holder_unique; [rewrite HR; by left|rewrite HR; by right|done| |congruence].
        unfold gone in Hgz. by apply andb_true_iff in Hgz as [[? _]%andb_true_iff _].
      * destruct (upserted_key fresh z) as (_ & H2' & H3' & H4'). rewrite H2', H3', H4' in *.
        split_and!; [done|congruence|done].
    + destruct (made_rows _ _ _ Hm Hy) as (_ & Hact & _). congruence.
  - intros (y & Hy & Hs & Hi & Hst). exists y. split.
    + apply elem_of_app. left. apply list_elem_of_fmap. exists y. split.
      * symmetry. apply released_so_far_other. unfold on_subnet, holds_address.
        rewrite (bool_decide_eq_false_2 (r_status y = Active)) by congruence. by rewrite andb_false_r.
      * rewrite HR in Hy. apply elem_of_cons in Hy as [->|Hy]; [|done]. exfalso.
        unfold on_subnet, holds_address in Ho. rewrite (bool_decide_eq_false_2 (r_status r = Active)) in Ho by congruence.
        by rewrite andb_false_r in Ho.
    + apply reservation_conflict_true. simpl. split_and!; [done|done|]. exists ip. split; congruence.
Qed.

(** One release: refused exactly when the row is blocked. *)
Lemma release_one fresh Q r R news s :
  all ≡ₚ r :: R → gone sub fresh r = true → r ∉ Q → made fresh news →
  at_rows ((released_so_far fresh Q <$> all) ++ news) s →
  match reservation_update (r_id r) (set_r_status Released) s with
  | (s', Ok _) => ¬ blocked all r ∧ at_rows ((released_so_far fresh (Q ++ [r]) <$> all) ++ news) s'
  | (s', Throw e) => e = P2002 ∧ blocked all r ∧ s' = s
  end.
Proof using All.
  intros HR Hg HQ Hm Hr. pose proof (head_id_fresh _ _ _ (ro_db _ Hok) HR) as Hfr.
  pose proof (conflict_blocked fresh Q r R news HR Hg Hm) as Hcb. set (L := (released_so_far fresh Q <$> R) ++ news) in *.
  assert (released_so_far fresh Q r = r) as Hself.
  { unfold released_so_far, upserted. rewrite (bool_decide_eq_false_2 (r ∈ Q)) by done. rewrite andb_false_r.
    unfold gone in Hg. apply andb_true_iff in Hg as [_ Hh%negb_true_iff]. apply mhas_false in Hh. rewrite Hh.
    by destruct (on_subnet sub r). }
  assert (reservation_rows s ≡ₚ r :: L) as HrL.
  { rewrite (ar_rows _ _ Hr), HR, fmap_cons, Hself. done. }
  pose proof (reservation_update_spec (r_id r) (set_r_status Released) s (λ _, eq_refl) (ro_db _ (ar_ok _ _ Hr))) as Hu.
  pose proof (head_id_fresh _ _ _ (ro_db _ (ar_ok _ _ Hr)) HrL) as HfL.
  assert (map_where (has_id (r_id r)) (set_r_status Released) (reservation_rows s) ≡ₚ set_r_status Released r :: L) as Hmap.
  { rewrite <-(map_where_head r L) by done. unfold map_where. by rewrite HrL. }
  destruct (reservation_update _ _ s) as [s' [r'|e]] eqn:E.
  - destruct Hu as (t' & -> & Hdb & _ & Hrows). rewrite Hmap in Hrows. split.
    + rewrite <-Hcb. intros (y & Hy & Hcf). destruct Hdb as (_ & _ & Hdb).
      apply (rows_ok_perm _ (set_r_status Released r :: L)) in Hdb; [|apply reservation_conflict_sym|done].
      apply rows_ok_cons in Hdb as (_ & Hno & _). specialize (Hno y Hy). simpl in Hno. congruence.
    + destruct Hr as [Ho Hn Hw _]. split; [|done|done|].
      * eapply keeps_update_fk; [| |exact Ho|exact E]; [done|by intros ? ?].
      * rewrite Hrows, HR, fmap_cons. unfold released_so_far at 1. rewrite Hg, bool_decide_eq_true_2 by set_solver.
        simpl. unfold L. rewrite (fmap_ext_elem (released_so_far fresh (Q ++ [r])) (released_so_far fresh Q) R); [done|].
        intros z Hz. unfold released_so_far. replace (bool_decide (z ∈ Q ++ [r])) with (bool_decide (z ∈ Q)); [done|].
        apply bool_decide_ext. rewrite elem_of_app, list_elem_of_singleton. split; [by left|].
        intros [?| ->]; [done|]. exfalso. apply Hfr. by apply list_elem_of_fmap_2.
  - destruct Hu as (-> & [[_ Hno]|[-> Hno]]).
    + exfalso. apply Hno. rewrite HrL, fmap_cons. by left.
    + split_and!; [done| |done]. apply Hcb.
      destruct (List.find (reservation_conflict (set_r_status Released r)) L) as [y|] eqn:Hf.
      { apply find_some in Hf as [Hy%list_elem_of_In Hcf]. by exists y. }
      exfalso. apply Hno. eapply (rows_ok_perm (set_r_status Released r :: L)); [apply reservation_conflict_sym|by symmetry|].
      destruct (ar_ok _ _ Hr) as [(_ & _ & Hdb) _ _].
      apply (rows_ok_perm _ (r :: L)) in Hdb; [|apply reservation_conflict_sym|done].
      apply rows_ok_cons in Hdb as (Hid & _ & HL). apply rows_ok_cons. split_and!; [done| |done].
      intros y Hy. eapply find_none in Hf; [exact Hf|]. by apply list_elem_of_In.
Qed.

Lemma release_gone_run fresh ex Q c news s :
  NoDup (Q ++ ex) → (∀ r, r ∈ ex → r ∈ all ∧ on_subnet sub r = true ∧ dhcp_sourced r = true) → made fresh news →
  at_rows ((released_so_far fresh Q <$> all) ++ news) s →
  match release_gone fresh ex c s with
  | (s', Ok c') => (∀ r, r ∈ ex → gone sub fresh r = true → ¬ blocked all r) ∧
      at_rows ((released_so_far fresh (Q ++ ex) <$> all) ++ news) s' ∧ n_created c' = n_created c ∧
      n_released c' = (n_released c + length (List.filter (gone sub fresh) ex))%nat
  | (s', Throw e) => e = P2002 ∧ (∃ r, r ∈ ex ∧ gone sub fresh r = true ∧ blocked all r) ∧
      res_ok s' ∧ same_net_tables s0 s'
  end.
Proof using All.
  revert Q c s. induction ex as [|r ex IH]; intros Q c s Hnd Hex Hm Hr.
  { rewrite app_nil_r. simpl. split_and!; [|done..|lia]. intros r Hin. by inversion Hin. }
  destruct (Hex r) as (Hin & Ho & Hd); [by left|].
  assert (NoDup ((Q ++ [r]) ++ ex)) as Hnd' by by rewrite <-app_assoc.
  assert (r ∉ Q) as HQ.
  { intros HrQ. apply NoDup_app in Hnd as (_ & Hn & _). apply (Hn r HrQ). by left. }
  assert (∀ x, x ∈ ex → x ∈ all ∧ on_subnet sub x = true ∧ dhcp_sourced x = true) as Hex' by (intros x Hx; apply Hex; by right).
  simpl. destruct (mhas (default "" (r_ipAddress r)) fresh) eqn:Hh.
  - assert (gone sub fresh r = false) as Hg by (unfold gone; by rewrite Hh, andb_false_r).
    specialize (IH (Q ++ [r]) c s Hnd' Hex' Hm). rewrite Hg. rewrite <-app_assoc in IH.
    assert (at_rows ((released_so_far fresh (Q ++ [r]) <$> all) ++ news) s) as Hr'.
    { rewrite (fmap_ext_elem (released_so_far fresh (Q ++ [r])) (released_so_far fresh Q) all); [done|].
      intros z Hz. unfold released_so_far. destruct (gone sub fresh z) eqn:Hgz; [|done].
      assert (bool_decide (z ∈ Q ++ [r]) = bool_decide (z ∈ Q)) as ->; [|done].
      apply bool_decide_ext. rewrite elem_of_app, list_elem_of_singleton. split; [|by left].
      intros [?| ->]; [done|congruence]. }
    specialize (IH Hr'). destruct (release_gone fresh ex c s) as [s' [c'|e]].
    + destruct IH as (H1' & H2' & H3' & H4'). split_and!; try done. intros x [-> |Hx]%elem_of_cons; [congruence|auto].
    + destruct IH as (H1' & (x & Hx & ?) & ? & ?). split_and!; [done|exists x; split; [by right|done]|done..].
  - assert (gone sub fresh r = true) as Hg by (unfold gone; by rewrite Hh, Ho, Hd). rewrite Hg.
    pose proof Hin as (R & HR)%elem_of_Permutation.
    pose proof (release_one fresh Q r R news s HR Hg HQ Hm Hr) as H1'. unfold hbind at 1.
    destruct (reservation_update (r_id r) (set_r_status Released) s) as [s1 [x|e]].
    + destruct H1' as [Hnb Hr1]. specialize (IH (Q ++ [r]) (count_released c) s1 Hnd' Hex' Hm Hr1).
      rewrite <-app_assoc in IH. destruct (release_gone fresh ex (count_released c) s1) as [s' [c'|e]].
      * destruct IH as (H2' & H3' & H4' & H5'). split_and!; try done.
        -- intros y [->|Hy]%elem_of_cons Hgy; auto.
        -- simpl in *. lia.
      * destruct IH as (H2' & (y & Hy & ?) & ? & ?). split_and!; [done|exists y; split; [by right|done]|done..].
    + destruct H1' as (-> & Hb & ->). split_and!; [done| |apply Hr|apply Hr]. exists r. split; [by left|done].
Qed.

Lemma existing_elem r : r ∈ existing_rows rows0 ↔ r ∈ all ∧ on_subnet sub r = true ∧ dhcp_sourced r = true.
Proof.
  unfold existing_rows. rewrite elem_bfilter, andb_true_iff. pose proof (on_subnet_rows r). naive_solver.
Qed.

Lemma reconcile_subnet_run fresh :
  NoDup (mkeys fresh) → (∀ ip, ip ∈ mkeys fresh → Js.truthy ip = true) →
  match reconcile_subnet subnet rows0 actor scopeId fresh s0 with
  | (s', Ok c) => ∃ news, (∀ r, r ∈ all → gone sub fresh r = true → ¬ blocked all r) ∧ made fresh news ∧
      at_rows ((reconciled sub step fresh <$> all) ++ news) s' ∧
      n_created c = length news ∧ n_released c = length (List.filter (gone sub fresh) all)
  | (s', Throw e) => e = P2002 ∧ (∃ r, r ∈ all ∧ gone sub fresh r = true ∧ blocked all r) ∧
      res_ok s' ∧ same_net_tables s0 s'
  end.
Proof using All.
  intros Hnd Ht. unfold reconcile_subnet.
  destruct (upsert_all_run fresh [] (mkCounts 0 0 0 0) [] s0) as (s1 & c1 & news & E1 & Hm & Hr1 & Hc1 & Hc1'); try done.
  { constructor. }
  { split; try done. rewrite app_nil_r. unfold upserted. fold all.
    rewrite (fmap_ext_elem _ (λ r, r)), list_fmap_id; [done|]. intros r _. by destruct (on_subnet sub r). }
  unfold hbind. rewrite E1. simpl in *.
  assert (NoDup (existing_rows rows0)) as Hnde.
  { do 2 apply NoDup_bfilter. apply (NoDup_fmap_1 r_id). apply (ro_db _ Hok). }
  assert (∀ r, gone sub fresh r = true → on_subnet sub r = true ∧ dhcp_sourced r = true) as Hgone.
  { intros r Hg. unfold gone in Hg. by apply andb_true_iff in Hg as [[? ?]%andb_true_iff _]. }
  pose proof (release_gone_run fresh (existing_rows rows0) [] c1 news s1 Hnde (λ r Hr, proj1 (existing_elem r) Hr) Hm) as Hrel.
  assert (at_rows ((released_so_far fresh [] <$> all) ++ news) s1) as Hr1'.
  { rewrite (fmap_ext_elem (released_so_far fresh []) (upserted sub step fresh)); [done|].
    intros r _. unfold released_so_far. by rewrite bool_decide_eq_false_2, andb_false_r by set_solver. }
  specialize (Hrel Hr1'). destruct (release_gone fresh (existing_rows rows0) c1 s1) as [s' [c|e]].
  - destruct Hrel as (Hnb & Hr & Hc & Hc'). exists news. split_and!.
    + intros r Hr0 Hg. apply Hnb; [|done]. apply existing_elem. split; [done|by apply Hgone].
    + done.
    + rewrite (fmap_ext_elem (reconciled sub step fresh) (released_so_far fresh ([] ++ existing_rows rows0))); [done|].
      intros r Hr0. unfold reconciled, released_so_far. destruct (gone sub fresh r) eqn:Hg; [|done].
      rewrite bool_decide_eq_true_2; [done|]. apply existing_elem. split; [done|by apply Hgone].
    + lia.
    + rewrite Hc', Hc1'. simpl. unfold existing_rows, rows0. rewrite !filter_filter_sub; [done|..].
      * intros r Hg. apply Hgone in Hg as [Ho _]. unfold on_subnet in Ho. by apply andb_true_iff in Ho as [? _].
      * intros r Hg. apply Hgone in Hg as [Ho Hd]. unfold on_subnet in Ho. apply andb_true_iff in Ho as [_ Ho].
        by rewrite Ho, Hd.
  - destruct Hrel as (He & (r & Hr & Hg & Hb) & Hrest). split_and!; [done| |apply Hrest..].
    exists r. apply existing_elem in Hr as (Hr & _). done.
Qed.
End run.

(** ** Properties *)

Section refresh_claims.
Context `{NetmaskLib, IpamStoreLaws, PushRule} `{Net W}.
Notation St := (State W).
Implicit Types (s : St).

(** The guards of [refreshSubnet] let the subnet through, and the reads of its
    scope answered: the scope and the view of it. *)
Record refreshable s (id : string) (x : Subnet) (w : W) (sc : Z) (fresh : JsMap string Fresh) : Prop := {
  rf_subnet : List.find (has_id id) (subnet_rows s) = Some x;
  rf_integration : ∃ d i, s_discoveredBy x = Some d ∧ d ≠ ""%string ∧
    List.find (λ y, bool_decide (i_id y = d)) (integrations s) = Some i ∧ pushable_type (i_type i) = true ∧
    read_scope i (default "" (s_fortigateDevice x)) (s_cidr x) (world s) = (w, Ok (sc, fresh));
  rf_device : Js.otruthy (s_fortigateDevice x) = true;
}.

Lemma read_scope_keys i dev cidr (w w' : W) sc fresh :
  read_scope i dev cidr w = (w', Ok (sc, fresh)) →
  NoDup (mkeys fresh) ∧ ∀ ip, ip ∈ mkeys fresh → Js.truthy ip = true.
Proof.
  intros Hr. unfold read_scope in Hr.
  apply hbind_ok in Hr as (w1 & t & _ & Hr). apply hbind_ok in Hr as (w2 & scope & _ & Hr).
  apply hbind_ok in Hr as (w3 & [cmdb leases] & Hb & Hr). hinv.
  unfold both in Hb. destruct (listReservedAddresses t scope.1 w2) as [wa ra] eqn:E1.
  destruct (fetchLiveLeasesForScope t scope.2 cidr wa) as [wb rb] eqn:E2.
  destruct ra as [x|]; [|done]. destruct rb as [y|]; [|done]. simplify_eq.
  unfold fetchLiveLeasesForScope in E2. hinv.
  match goal with Hf : filter_result _ _ = Ok leases |- _ => pose proof (filter_result_ok _ _ _ Hf) as Hl end.
  unfold fresh_view. apply add_leases_keys.
  - apply add_entries_keys; [constructor|]. intros ip Hip. by inversion Hip.
  - apply add_entries_keys; [constructor|]. intros ip Hip. by inversion Hip.
  - intros l [_ Hin]%Hl. unfold lease_in_scope in Hin. by destruct (Js.truthy (dl_ip l)).
Qed.

Lemma keeps_subnet_same id f :
  (∀ x, s_id (f x) = s_id x) → keeps res_ok (subnet_update (W := W) id f).
Proof.
  intros Hf s s' r Hok Hrun. pose proof (subnet_update_spec id f s Hf (ro_db _ Hok)) as Hu.
  rewrite Hrun in Hu. destruct r as [r|e]; [|by destruct Hu as [-> _]].
  destruct Hu as (t & -> & Hdb & _ & Hrows). split; [done|apply Hok|].
  intros r' Hr'. destruct (ro_fk _ Hok r' Hr') as (x & Hx & Hid).
  exists (if has_id id x then f x else x). split; [rewrite Hrows, elem_of_map_where; eauto|].
  by destruct (has_id id x); rewrite ?Hf.
Qed.

(** C14: once the scope of a subnet was read, a refresh changes the table as the
    reference does, row by row: every active row at an address the device lists
    is matched, every other DHCP row of the subnet is released, one row is added
    for every listed address nobody holds, and nothing else is touched.  It
    fails exactly when a row to release has an older released row at its
    address, which the unique index refuses. *)
Theorem refreshSubnet_reconciles s id actor x w sc fresh :
  res_ok s → refreshable s id x w sc fresh →
  match refreshSubnet id actor s with
  | (s', Ok res) =>
      res_ok s' ∧
      (∀ r, r ∈ reservation_rows s → gone id fresh r = true → ¬ blocked (reservation_rows s) r) ∧
      ∃ news,
        reservation_rows s' ≡ₚ
          (reconciled id (matched_row (now w) (s_discoveredBy x) sc) fresh <$> reservation_rows s) ++ news ∧
        Forall2 (λ e r, ∃ k, r = discovered_row id e.2 e.1 actor (now w) k)
          (List.filter (λ e, negb (claimed id (reservation_rows s) e.1)) fresh) news ∧
        n_created (rr_counts res) = length news ∧
        n_released (rr_counts res) = length (List.filter (gone id fresh) (reservation_rows s)) ∧
        ipBlocks s' = ipBlocks s ∧
        subnet_rows s' ≡ₚ map_where (has_id id) (set_lastDiscoveredAt (now w)) (subnet_rows s)
  | (s', Throw e) =>
      e = P2002 ∧ ∃ r, r ∈ reservation_rows s ∧ gone id fresh r = true ∧ blocked (reservation_rows s) r
  end.
Proof.
  intros Hok [Hx (d & i & Hd & Hne & Hi & Hp & Hread) Hdev].
  apply find_some_iff in Hx as Hxx. destruct Hxx as [Hin Hid%bool_decide_eq_true]. simpl in Hid.
  destruct (read_scope_keys _ _ _ _ _ _ _ Hread) as [Hnd Ht].
  assert (res_ok (set_world w s)) as Hok1 by by eapply res_ok_same_tables; [|exact Hok].
  pose proof (reconcile_subnet_run (set_world w s) x actor sc Hok1 Hin (mk_is_Some _ _ Hd) fresh Hnd Ht) as Hrec.
  assert (refreshSubnet id actor s =
    (let! c := reconcile_subnet x (List.filter (λ r, bool_decide (r_subnetId r = id)) (reservation_rows s)) actor sc fresh in
     let! t := newDate in
     let! _ := subnet_update (s_id x) (set_lastDiscoveredAt t) in
     logEvent "subnet.refresh" "info" (Some (s_id x)) ;!
     hret (mkRefreshResult t c)) (set_world w s)) as ->.
  { unfold refreshSubnet, findSubnet, findReservations, findIntegration.
    unfold hbind at 1, hgets at 1. rewrite Hx. unfold hbind at 1, hgets at 1. unfold hbind at 1, hgets at 1.
    rewrite Hd. assert (Js.otruthy (Some d) = true) as -> by by destruct d. rewrite Hi, Hp, Hdev. hred.
    unfold hbind at 1. by rewrite (on_world_run _ _ _ _ Hread). }
  rewrite <-Hid in *. change (reservation_rows (set_world w s)) with (reservation_rows s) in *.
  change (world (set_world w s)) with w in *. unfold hbind at 1.
  destruct (reconcile_subnet x _ actor sc fresh (set_world w s)) as [s1 [c|e]]; [|by destruct Hrec as (? & ? & _)].
  destruct Hrec as (news & Hnb & Hm & [Hok2 [Hb Hs] Hw Hrows] & Hc1 & Hc2).
  unfold hbind at 1, newDate, hgets. rewrite Hw. unfold hbind at 1.
  pose proof (subnet_update_spec (s_id x) (set_lastDiscoveredAt (now w)) s1 (λ _, eq_refl) (ro_db _ Hok2)) as Hu.
  destruct (subnet_update _ _ s1) as [s2 [x'|e]] eqn:E.
  - pose proof (keeps_subnet_same (s_id x) (set_lastDiscoveredAt (now w)) (λ _, eq_refl) _ _ _ Hok2 E) as Hok3.
    destruct Hu as (t & -> & _ & _ & Hsub). hred. split_and!.
    + by eapply res_ok_same_tables; [|exact Hok3].
    + done.
    + exists news. split_and!; try done. unfold subnet_rows at 2 in Hsub. rewrite Hs in Hsub. exact Hsub.
  - destruct Hu as (_ & _ & Hno). exfalso. apply Hno. unfold subnet_rows. rewrite Hs.
    by apply (list_elem_of_fmap_2 s_id).
Qed.
End refresh_claims.

(** ** Descriptions *)

Lemma trimEnd_append a b : Js.trimEnd b ≠ ""%string → Js.trimEnd (a +:+ b) = a +:+ Js.trimEnd b.
Proof.
  intros Hb. induction a as [|c a IH]; [done|]. simpl. rewrite IH. by destruct a, (Js.trimEnd b).
Qed.
Lemma trimStart_append a b :
  a ≠ ""%string → Js.trimStart a = a → Js.trimStart (a +:+ b) = a +:+ b.
Proof.
  destruct a as [|c a]; [done|]. intros _ Ha. simpl in *. destruct (Js.is_space c); [|done].
  exfalso. assert (String.length (Js.trimStart a) ≤ String.length a)%nat as Hl.
  { clear. induction a as [|c a IH]; simpl; [lia|]. destruct (Js.is_space c); simpl; lia. }
  rewrite Ha in Hl. simpl in Hl. lia.
Qed.
Lemma trim_fix s : Js.trimStart (Js.trim s) = Js.trim s ∧ Js.trimEnd (Js.trim s) = Js.trim s.
Proof. unfold Js.trim. by rewrite trimStart_trimEnd, trimEnd_idem. Qed.

Definition no_char (d : ascii) (s : string) : bool := Js.sforallb (λ c, negb (Ascii.eqb c d)) s.


Lemma after_colon_append u r :
  no_char ":" u = true → after_colon (u +:+ ":" +:+ r) = Some (Js.truthy u, r).
Proof.
  unfold no_char. induction u as [|c u IH]; intros Hu; [done|]. simpl in *.
  apply andb_true_iff in Hu as [Hc%negb_true_iff Hu]. rewrite Hc, (IH Hu). done.
Qed.

Lemma last_bracketed_none s : no_char "[" s = true → last_bracketed s = None.
Proof.
  unfold no_char. induction s as [|c s IH]; intros Hs; [done|]. simpl in *.
  apply andb_true_iff in Hs as [Hc%negb_true_iff Hs]. by rewrite (IH Hs), Hc.
Qed.
Lemma last_bracketed_append a s h : last_bracketed s = Some h → last_bracketed (a +:+ s) = Some h.
Proof. intros Hs. induction a as [|c a IH]; [done|]. simpl. by rewrite IH. Qed.
Lemma before_bracket_append h : before_bracket (h +:+ "]") = Some h.
Proof. induction h as [|c h IH]; [done|]. simpl. rewrite IH. by destruct h. Qed.
Lemma no_char_append d a b : no_char d (a +:+ b) = no_char d a && no_char d b.
Proof. apply sforallb_append. Qed.

(** Reading back a description that was not cut off. *)
Lemma extract_description pre u line :
  pre = "Polaris: "%string ∨ (pre = ("Polaris/" +:+ u +:+ ": ") ∧ no_char ":" u = true ∧ u ≠ ""%string) →
  line ≠ ""%string → Js.trimStart line = line → Js.trimEnd line = line → Js.sforallb not_eol line = true →
  extractHostnameFromDescription (pre +:+ line) =
    match last_bracketed line with Some h => Some (Js.trim h) | None => Some line end.
Proof.
  intros Hpre Hne Hts Hte Heol.
  assert (Js.trim (pre +:+ line) = pre +:+ line) as Htrim.
  { unfold Js.trim. assert (Js.trimStart (pre +:+ line) = pre +:+ line) as ->; [by destruct Hpre as [->|(-> & _)]|].
    rewrite trimEnd_append by by rewrite Hte. by rewrite Hte. }
  assert (polaris_body (pre +:+ line) = Some (" " +:+ line)) as Hbody.
  { destruct Hpre as [->|(-> & Hu & Hune)]; [done|]. unfold polaris_body.
    change (("Polaris/" +:+ u +:+ ": ") +:+ line) with ("Polaris" +:+ ("/" +:+ (u +:+ ": ") +:+ line)).
    rewrite startsWith_append. change 7%nat with (String.length "Polaris"). rewrite drop_append.
    change ("/" +:+ (u +:+ ": ") +:+ line) with (String "/" ((u +:+ ": ") +:+ line)). cbn [Ascii.eqb].
    rewrite append_assoc. change (": " +:+ line) with (":" +:+ (" " +:+ line)).
    simpl Ascii.eqb. cbv iota. rewrite after_colon_append by done. by destruct u. }
  unfold extractHostnameFromDescription. rewrite Htrim, Hbody.
  assert (Js.trimStart (" " +:+ line) = line) as -> by done. rewrite Heol. simpl.
  destruct (last_bracketed line); [done|]. destruct line as [|c line]; [done|]. simpl.
  unfold Js.trim. by rewrite Hts, Hte.
Qed.

(** A refresh reads back the host name a push wrote, when the description fits
    in 64 characters, stays on one line, and the name holds no bracket. *)
Theorem description_roundtrip hostname createdBy fallback notes :
  let host := Js.trim (default "" hostname) in
  let remark := Js.trim (default "" notes) in
  let d := buildDescription hostname createdBy fallback notes in
  Js.truthy host = true → no_char "[" host = true → Js.sforallb not_eol host = true →
  Js.sforallb not_eol remark = true → no_char ":" (Js.trim (default "" createdBy)) = true →
  (String.length d < 64)%nat →
  extractHostnameFromDescription d = Some host.
Proof.
  cbv zeta. unfold buildDescription. set (host := Js.trim (default "" hostname)).
  set (remark := Js.trim (default "" notes)). set (u := Js.trim (default "" createdBy)).
  intros Hh Hb Heh Her Hu. rewrite Hh.
  set (pre := if Js.otruthy createdBy && Js.truthy u then _ else _). set (body := if Js.truthy remark then _ else _).
  destruct (Nat.ltb_spec 64 (String.length (pre +:+ body))) as [Hl|Hl].
  { rewrite take_length. lia. }
  intros _. destruct (trim_fix (default "" hostname)) as [Hhs Hhe]. fold host in Hhs, Hhe.
  destruct (trim_fix (default "" notes)) as [Hrs Hre]. fold remark in Hrs, Hre.
  assert (host ≠ ""%string) as Hne by by destruct host.
  assert (pre = "Polaris: "%string ∨ (pre = ("Polaris/" +:+ u +:+ ": ") ∧ no_char ":" u = true ∧ u ≠ ""%string)) as Hpre.
  { unfold pre. destruct (Js.otruthy createdBy); [|by left]. destruct (Js.truthy u) eqn:Htu; [|by left].
    right. split_and!; [done|done|by destruct u]. }
  assert (Js.trim host = host) as Htrim by (unfold Js.trim; by rewrite Hhs, Hhe).
  unfold body. destruct (Js.truthy remark) eqn:Hr.
  - assert (remark ≠ ""%string) as Hrne by by destruct remark.
    assert (Js.trimEnd (" [" +:+ host +:+ "]") = " [" +:+ host +:+ "]") as Htail.
    { rewrite <-append_assoc. by apply trimEnd_append. }
    rewrite (extract_description pre u); [|done|by destruct remark|by apply trimStart_append| |].
    + rewrite (last_bracketed_append remark (" [" +:+ host +:+ "]") host); [by rewrite Htrim|].
      apply (last_bracketed_append " "). change ("[" +:+ host +:+ "]") with (String "[" (host +:+ "]")).
      simpl. rewrite last_bracketed_none by (by rewrite no_char_append, Hb).
      rewrite before_bracket_append. by rewrite Hh.
    + rewrite trimEnd_append; by rewrite Htail.
    + rewrite !sforallb_append, Her, Heh. done.
  - rewrite (extract_description pre u), last_bracketed_none by done. done.
Qed.

Lemma description_roundtrip_witness :
  extractHostnameFromDescription
    (buildDescription (Some "printer"%string) (Some "alice"%string) "10.0.0.20" (Some "2nd floor [east]"%string))
  = Some "printer"%string.
Proof. apply (description_roundtrip (Some "printer"%string)); vm_compute; [reflexivity..|lia]. Defined.

(** ** Concrete runs *)

(** The reference gate with live leases on its scope. *)
Module RefScope.
Import RefGate.

Record Scope := mkScope { sc_gate : Gate; sc_leases : list (string * string) }.

Definition lease_json (l : string * string) : Json := JObj [("ip", JStr l.1); ("mac", JStr l.2)]%string.
Definition group_json (l : list (string * string)) : Json :=
  JObj [("server_interface", JStr "lan"); ("leases", JArr (lease_json <$> l))]%string.

Definition serve_scope (req : HttpRequest) : M Scope HttpResponse := λ w,
  if Js.includes "/monitor/system/dhcp" (hr_url req)
  then (w, ok_json (JObj [("results"%string, JArr [group_json (sc_leases w)])]))
  else let '(g, r) := serve req (sc_gate w) in (mkScope g (sc_leases w), r).

#[export] Instance scope_net : Net Scope :=
  {| fetch := serve_scope; now := λ w, g_now (sc_gate w); tls_env := λ w, g_tls (sc_gate w);
     set_tls_env := λ v w, mkScope (mkGate (g_entries (sc_gate w)) (g_now (sc_gate w)) v) (sc_leases w) |}.
End RefScope.

Section refresh_runs.
Import RefGate RefScope.
#[local] Existing Instances RefNetmask.lib ListStore.store named_rule.

Definition lan : Subnet :=
  mkSubnet "s1" "b1" "10.0.0.0/24" "lan" None Available None [] (Some "i1"%string) (Some "fg1"%string) None None.
Definition lan_state (rows : list Reservation) (w : Scope) : State Scope :=
  mkState [block10] [lan] rows [integration] [] w [].
Definition lan_row (id ip : string) (st : ReservationStatus) (src : ReservationSourceType) (mac notes : option string)
    (p : PushState) : Reservation :=
  mkReservation id "s1" (Some ip) (Some "printer"%string) None None None notes st src (Some "alice"%string) mac p no_stale 0 None.
Definition entry_of (i : Z) (ip mac : string) (description : option string) : FortiOsReservedAddress :=
  mkReservedAddress i (Some ip) (Some mac) description (Some "mac"%string).
Definition scope_of (entries : list FortiOsReservedAddress) (leases : list (string * string)) : Scope :=
  mkScope (mkGate entries 1000 None) leases.
Definition view_of (s : State Scope) : list (option string * ReservationStatus * ReservationSourceType * option PushStatus) :=
  (λ r, (r_ipAddress r, r_status r, r_sourceType r, pushStatus (r_push r))) <$> reservation_rows s.

(** The device answers differently from one refresh to the next. *)
Definition with_leases (leases : list (string * string)) (s : State Scope) : State Scope :=
  set_world (mkScope (sc_gate (world s)) leases) s.
Definition refreshed_state (s : State Scope) : State Scope := (refreshSubnet "s1" None s).1.

Definition queued_row : Reservation :=
  lan_row "r2" "10.0.0.30" Active Manual (Some "AA-BB-CC-DD-EE-0F"%string) None
    (mkPushState (Some "i1"%string) None None (Some Pending) None None (Some 5) 1 None).
Definition mixed_state : State Scope :=
  lan_state [lan_row "r1" "10.0.0.20" Active DhcpLease None None no_push; queued_row]
    (scope_of [entry_of 7 "10.0.0.30" "aabbccddee0f" None] [("10.0.0.40", "112233445566")%string]).

Lemma lan_state_ok l w :
  rows_ok l → (∀ r, r ∈ l → push_ok r ∧ r_subnetId r = "s1"%string) → res_ok (lan_state l w).
Proof.
  intros Hl Hrows. split.
  - split_and!; [repeat constructor; set_solver..|done].
  - intros r Hr. by apply Hrows.
  - intros r Hr. exists lan. split; [by left|]. symmetry. by apply Hrows.
Qed.

Lemma lan_refreshable l w w' sc fresh :
  read_scope integration "fg1" "10.0.0.0/24" w = (w', Ok (sc, fresh)) →
  refreshable (lan_state l w) "s1" lan w' sc fresh.
Proof. intros Hr. split; [done| |done]. exists "i1"%string, integration. by split_and!. Qed.

(** One refresh releases a lease that ended, adopts a queued push whose entry is
    on the device and records a new lease. *)
Lemma refreshSubnet_reconciles_witness :
  view_of (refreshed_state mixed_state) =
    [(Some "10.0.0.20", Released, DhcpLease, None); (Some "10.0.0.30", Active, DhcpReservation, Some Synced);
     (Some "10.0.0.40", Active, DhcpLease, None)]%string ∧
  is_ok (refreshSubnet "s1" None mixed_state).2 = true ∧ res_ok (refreshed_state mixed_state).
Proof.
  split; [vm_compute; reflexivity|]. assert (is_ok (refreshSubnet "s1" None mixed_state).2 = true) as Hrun
    by (vm_compute; reflexivity). split; [exact Hrun|].
  assert (res_ok mixed_state) as Hok.
  { apply lan_state_ok; [apply (bool_decide_unpack (rows_ok _)); vm_compute; exact I|].
    intros r Hr. rewrite !elem_of_cons, elem_of_nil in Hr. destruct Hr as [->|[->|[]]]; (split; [|reflexivity]); [exact I|by eexists]. }
  eassert (read_scope integration "fg1" "10.0.0.0/24" (world mixed_state) = (_, Ok (_, _))) as Hread
    by (vm_compute; reflexivity).
  pose proof (refreshSubnet_reconciles mixed_state "s1" None lan _ _ _ Hok (lan_refreshable _ _ _ _ _ Hread)) as Hp.
  unfold refreshed_state. destruct (refreshSubnet "s1" None mixed_state) as [s' [res|e]]; [exact (proj1 Hp)|discriminate Hrun].
Defined.

(** An address that is leased a second time cannot be refreshed once that lease
    ends: the row of the first lease is in the way of the release, and neither
    this nor any later refresh of the subnet completes. *)
Theorem returning_lease_blocks_refresh :
  let lease := [("10.0.0.20", "112233445566")%string] in
  let s1 := refreshed_state (lan_state [] (scope_of [] lease)) in
  let s2 := refreshed_state (with_leases [] s1) in
  let s3 := refreshed_state (with_leases lease s2) in
  let s4 := refreshed_state (with_leases [] s3) in
  view_of s2 = [(Some "10.0.0.20", Released, DhcpLease, None)]%string ∧
  view_of s3 = [(Some "10.0.0.20", Released, DhcpLease, None); (Some "10.0.0.20", Active, DhcpLease, None)]%string ∧
  (refreshSubnet "s1" None (with_leases [] s3)).2 = Throw P2002 ∧ view_of s4 = view_of s3 ∧
  (refreshSubnet "s1" None s4).2 = Throw P2002.
Proof. split_and!; vm_compute; reflexivity. Qed.

(** A refresh stamps [lastSeenLeased] on an entry of the device that no client
    holds, so the alert for stale reservations never sees it. *)
Theorem refresh_marks_unleased_entry_seen :
  let row := lan_row "r1" "10.0.0.20" Active DhcpReservation (Some "aa:bb:cc:dd:ee:0f"%string) None no_push in
  let s := lan_state [row] (scope_of [entry_of 7 "10.0.0.20" "aabbccddee0f" None] []) in
  (λ r, lastSeenLeased (r_stale r)) <$> reservation_rows (refreshed_state s) = [Some 1000].
Proof. vm_compute. reflexivity. Qed.

(** A push with long notes cuts the description inside the notes; the next
    refresh takes the cut text for the host name and overwrites the one the
    operator typed. *)
Theorem refresh_renames_pushed_row :
  let input := mkCreateReservationInput "s1" (Some "10.0.0.20"%string) (Some "printer"%string) None None None
    (Some "moved from building seven to building nine, second floor, east wing"%string) (Some "alice"%string)
    (Some "AA-BB-CC-DD-EE-0F"%string) in
  let s1 := (createReservation input (lan_state [] (scope_of [] []))).1 in
  view_of s1 = [(Some "10.0.0.20", Active, DhcpReservation, Some Synced)]%string ∧
  r_hostname <$> reservation_rows s1 = [Some "printer"%string] ∧
  r_hostname <$> reservation_rows (refreshed_state s1) =
    [Some "moved from building seven to building nine, secon"%string].
Proof. split_and!; vm_compute; reflexivity. Qed.
End refresh_runs.
