(* ===== verification/DnsResolved.v ===== *)
(** * DNS-resolved reservations

    [src/src/services/dnsResolvedReservationService.ts]: the reservations the
    service keeps for the addresses of assets that no DHCP record covers.
    ([releaseDnsResolvedAt] is in [Reservations], where it is called.)

    The containing subnet comes from a query in PostgreSQL's own [inet] and
    [cidr] types; their operators are the class [PgInet]. *)

From S2P Require Import Prelude Cidr Store Networks Http Push Reservations JsColl Refresh RefreshProofs.

(** [c::cidr >>= ip::inet] and [masklen(c::cidr)]; [None] is a cast that fails. *)
Class PgInet := {
  pg_contains : string → string → option bool;
  pg_masklen : string → Z;
}.

Definition SYSTEM_ACTOR : string := "system:dns-resolved".
Definition ELIGIBLE_STATUSES : list string := ["active"; "maintenance"; "storage"; "quarantined"]%string.

Definition assetEligible (a : Asset) : bool :=
  match a_ipAddress a with
  | None => false
  | Some ip =>
      Js.truthy ip && isValidIpAddress ip && bool_decide (detectIpVersion ip = v4) &&
      bool_decide (a_status a ∈ ELIGIBLE_STATUSES)
  end.

(** [(s && s.trim()) || …] *)
Definition trimmed (o : option string) : option string := or_null (Js.trim <$> or_null o).
Definition resolvedHostname (a : Asset) : option string :=
  match trimmed (a_hostname a) with Some h => Some h | None => trimmed (a_dnsName a) end.

(** The rows the system wrote for this asset, recognised by MAC or name. *)
Definition system_row (r : Reservation) : bool :=
  bool_decide (r_createdBy r = Some SYSTEM_ACTOR) && bool_decide (r_sourceType r = DnsResolved) &&
  bool_decide (r_status r = Active).
Definition owned_by (a : Asset) (r : Reservation) : bool :=
  system_row r &&
  ((Js.otruthy (a_macAddress a) && bool_decide (r_macAddress r = a_macAddress a)) ||
   (Js.otruthy (resolvedHostname a) && bool_decide (r_hostname r = resolvedHostname a))).

Definition active_at (sub ip : string) (r : Reservation) : bool :=
  bool_decide (r_subnetId r = sub) && bool_decide (r_ipAddress r = Some ip) && bool_decide (r_status r = Active).
Definition authoritative_at (sub ip : string) (r : Reservation) : bool :=
  active_at sub ip r && negb (bool_decide (r_sourceType r = DnsResolved)).
Definition system_at (sub ip : string) (r : Reservation) : bool :=
  active_at sub ip r && system_row r.

(** The part of the state other components of the service write: assets and
    integrations. *)
Definition with_assets `{IpamStore} {W} (l : list Asset) (s : State W) : State W :=
  mkState (ipBlocks s) (subnets s) (reservations s) (integrations s) l (world s) (audit s).

Record ReconcileResult := mkReconcile { rs_created : nat; rs_updated : nat; rs_released : nat; rs_skipped : bool }.

Definition set_identity (hostname mac : option string) (r : Reservation) : Reservation :=
  mkReservation (r_id r) (r_subnetId r) (r_ipAddress r) hostname (r_owner r) (r_projectRef r) (r_expiresAt r)
    (r_notes r) (r_status r) (r_sourceType r) (r_createdBy r) mac (r_push r) (r_stale r) (r_createdAt r) (r_vipInfo r).

Definition resolved_row (sub ip : string) (hostname mac : option string) (t : Z) (id : string) : Reservation :=
  mkReservation id sub (Some ip) hostname None None None
    (Some "Auto-discovered from asset inventory; no DHCP record exists yet."%string) Active DnsResolved
    (Some SYSTEM_ACTOR) mac no_push no_stale t None.

(** The rows of a query ordered by [masklen] descending, the first of them. *)
Fixpoint tightest `{PgInet} (best : Subnet) (l : list Subnet) : Subnet :=
  match l with
  | [] => best
  | x :: l' => tightest (if pg_masklen (s_cidr best) <? pg_masklen (s_cidr x) then x else best) l'
  end.

Section dns.
Context `{PgInet, IpamStore} `{Net W}.
Notation St := (State W).

Definition containing (ip : string) (x : Subnet) : bool :=
  negb (bool_decide (s_status x = Deprecated)) && default false (pg_contains (s_cidr x) ip).

(** A query that fails on a cast reads as no row. *)
Definition containing_subnet (ip : string) (s : St) : option Subnet :=
  if forallb (λ x, bool_decide (s_status x = Deprecated) || bool_decide (is_Some (pg_contains (s_cidr x) ip))) (subnet_rows s)
  then match List.filter (containing ip) (subnet_rows s) with
       | [] => None
       | x :: l => Some (tightest x l)
       end
  else None.
Definition findContainingSubnet (ip : string) : M St (option Subnet) := hgets (containing_subnet ip).

Definition findOwnedSystemRows (a : Asset) : M St (list Reservation) := findReservations (owned_by a).

(** With the [.catch(() => 0)] of its callers. *)
Definition releaseRows (ids : list string) (assetId : string) : M St nat :=
  if bool_decide (ids = []) then hret 0%nat
  else hcatch
    (let! count := reservation_updateMany
       (λ r, bool_decide (r_id r ∈ ids) && bool_decide (r_status r = Active)) (set_r_status Released) in
     (if (0 <? count)%nat then logEvent "reservation.dns_resolved.released" "info" (Some assetId) else hret tt) ;!
     hret count)
    (λ _, hret 0%nat).

Definition release_and_skip (owned : list Reservation) (assetId : string) : M St ReconcileResult :=
  let! n := releaseRows (r_id <$> owned) assetId in
  hret (mkReconcile 0 0 n true).

(** Step 4; a failed write is logged and forgotten. *)
Definition upsert_resolved (sub ip : string) (hostname mac : option string) : M St (nat * nat) :=
  let! existingAtTarget := findReservation (system_at sub ip) in
  hcatch
    (match existingAtTarget with
     | Some e =>
         if negb (bool_decide (r_hostname e = hostname)) || negb (bool_decide (r_macAddress e = mac)) then
           let! _ := reservation_update (r_id e) (set_identity hostname mac) in
           logEvent "reservation.dns_resolved.updated" "info" (Some (r_id e)) ;!
           hret (0%nat, 1%nat)
         else hret (0%nat, 0%nat)
     | None =>
         let! t := newDate in
         let! created := reservation_create (resolved_row sub ip hostname mac t) in
         logEvent "reservation.dns_resolved.created" "info" (Some (r_id created)) ;!
         hret (1%nat, 0%nat)
     end)
    (λ _, hret (0%nat, 0%nat)).

Definition reconcileDnsResolvedForAsset (assetId : string) : M St ReconcileResult :=
  let! found := findAsset (λ a, String.eqb (a_id a) assetId) in
  match found with
  | None => hret (mkReconcile 0 0 0 true)
  | Some asset =>
      let! owned := findOwnedSystemRows asset in
      if negb (assetEligible asset) then release_and_skip owned assetId
      else
        let ip := default "" (a_ipAddress asset) in
        let! subnet := findContainingSubnet ip in
        match subnet with
        | None => release_and_skip owned assetId
        | Some x =>
            let! authoritative := findReservation (authoritative_at (s_id x) ip) in
            match authoritative with
            | Some _ => release_and_skip owned assetId
            | None =>
                let! up := upsert_resolved (s_id x) ip (resolvedHostname asset) (a_macAddress asset) in
                let stale := List.filter
                  (λ r, negb (bool_decide (r_subnetId r = s_id x) && bool_decide (r_ipAddress r = Some ip))) owned in
                let! n := releaseRows (r_id <$> stale) assetId in
                hret (mkReconcile (fst up) (snd up) n false)
            end
        end
  end.

(** The assets of one batch are reconciled one after the other. *)
Fixpoint reconcile_assets (ids : list string) (created updated released scanned : nat)
  : M St (nat * nat * nat * nat) :=
  match ids with
  | [] => hret (created, updated, released, scanned)
  | id :: ids' =>
      let! r := reconcileDnsResolvedForAsset id in
      reconcile_assets ids' (created + rs_created r) (updated + rs_updated r) (released + rs_released r) (S scanned)
  end.

Definition reconcileDnsResolvedForAllAssets : M St (nat * nat * nat * nat) :=
  let! s := hget in
  reconcile_assets (a_id <$> List.filter (λ a, bool_decide (is_Some (a_ipAddress a))) (assets s)) 0 0 0 0.

Definition releaseDnsResolvedForAsset (assetId : string) : M St unit :=
  let! found := findAsset (λ a, String.eqb (a_id a) assetId) in
  match found with
  | None => hret tt
  | Some asset =>
      let! owned := findOwnedSystemRows asset in
      let! _ := releaseRows (r_id <$> owned) assetId in
      hret tt
  end.
End dns.
