(* ===== verification/DnsProofs.v ===== *)
(** * What the reconciler of DNS-resolved reservations does

    The reconcile of one asset as a pure change of the table, its fixpoints, and
    the rows it cannot release. *)

From S2P Require Import Prelude Cidr Store Networks Http Push Reservations JsColl Refresh RefreshProofs DnsResolved.

(** ** Releasing a set of rows at once *)

(** Two rows stand at the same address of the same subnet. *)
Definition same_place (a b : Reservation) : bool :=
  bool_decide (r_subnetId a = r_subnetId b) && Js.otruthy (r_ipAddress a) && bool_decide (r_ipAddress a = r_ipAddress b).

(** No row of [p] has an older released row at its address. *)
Definition clear (p : Reservation → bool) (l : list Reservation) : bool :=
  forallb (λ r, negb (p r && existsb (λ y, bool_decide (r_subnetId y = r_subnetId r) &&
    bool_decide (r_ipAddress y = r_ipAddress r) && bool_decide (is_Some (r_ipAddress r)) &&
    bool_decide (r_status y = Released)) l)) l.

Lemma clear_true p l :
  clear p l = true ↔ ∀ r y ip, r ∈ l → p r = true → y ∈ l → r_subnetId y = r_subnetId r →
    r_ipAddress r = Some ip → r_ipAddress y = Some ip → r_status y ≠ Released.
Proof.
  unfold clear. rewrite forallb_forall. split.
  - intros Hc r y ip Hr Hp Hy Hs Hi Hj Hst. specialize (Hc r (proj1 (list_elem_of_In _ _) Hr)).
    rewrite Hp in Hc. apply negb_true_iff in Hc. simpl in Hc. enough (existsb (λ y, bool_decide (r_subnetId y = r_subnetId r) &&
      bool_decide (r_ipAddress y = r_ipAddress r) && bool_decide (is_Some (r_ipAddress r)) && bool_decide (r_status y = Released)) l = true) by congruence.
    apply existsb_exists. exists y. split; [by apply list_elem_of_In|]. rewrite !bool_decide_eq_true_2; [done|done|by eexists|congruence|done].
  - intros Hc r Hr%list_elem_of_In. destruct (p r) eqn:Hp; [|done]. apply negb_true_iff.
    destruct (existsb _ l) eqn:He; [|done]. apply existsb_exists in He as (y & Hy%list_elem_of_In & Hy').
    rewrite !andb_true_iff, !bool_decide_eq_true in Hy'. destruct Hy' as (((Hs & Hi) & [ip Hip]) & Hst).
    exfalso. apply (Hc r y ip Hr Hp Hy Hs Hip); congruence.
Qed.

Lemma rows_ok_release p (l : list Reservation) :
  rows_ok l → (∀ r, r ∈ l → p r = true → r_status r = Active) →
  rows_ok (map_where p (set_r_status Released) l) ↔ clear p l = true.
Proof.
  intros Hl Hp. rewrite clear_true. split.
  - intros Hm r y ip Hr Hpr Hy Hs Hi Hj Hst. assert (p y = false) as Hpy.
    { destruct (p y) eqn:Hpy; [|done]. rewrite (Hp y Hy Hpy) in Hst. done. }
    assert (set_r_status Released r = y) as Heq.
    { apply (rows_ok_conflict (map_where p (set_r_status Released) l)); [apply reservation_conflict_sym|done|..].
      - apply elem_of_map_where. exists r. by rewrite Hpr.
      - apply elem_of_map_where. exists y. by rewrite Hpy.
      - apply reservation_conflict_true. simpl. split_and!; [done|done|by exists ip]. }
    assert (r = y) as ->; [|rewrite (Hp y Hy Hpr) in Hst; done].
    apply (rows_ok_id l); [done|done|done|]. by rewrite <-Heq.
  - intros Hc. assert (∀ a b, a ∈ l → b ∈ l → reservation_conflict a b = false →
      reservation_conflict (if p a then set_r_status Released a else a) (if p b then set_r_status Released b else b) = false) as Hpair.
    { intros a b Ha Hb Hab.
      destruct (reservation_conflict (if p a then _ else _) _) eqn:Hcf; [|done]. exfalso.
      apply reservation_conflict_true in Hcf as (Hs & Hst & ip & Hi & Hj).
      destruct (p a) eqn:Hpa, (p b) eqn:Hpb; simpl in *.
      - assert (reservation_conflict a b = true); [|congruence]. apply reservation_conflict_true.
        rewrite (Hp a Ha Hpa), (Hp b Hb Hpb). split_and!; [done|done|by exists ip].
      - by eapply (Hc a b ip).
      - by eapply (Hc b a ip).
      - assert (reservation_conflict a b = true); [|congruence]. apply reservation_conflict_true. by split_and!; [..|exists ip]. }
    clear Hc Hp. induction l as [|r l IH]; [done|]. apply rows_ok_cons in Hl as (Hid & Hcf & Hl).
    change (map_where p (set_r_status Released) (r :: l)) with
      ((if p r then set_r_status Released r else r) :: map_where p (set_r_status Released) l).
    apply rows_ok_cons. split_and!.
    + assert (r_id <$> map_where p (set_r_status Released) l = r_id <$> l) as Hids.
      { unfold map_where. rewrite <-list_fmap_compose. apply fmap_ext_elem. intros x _. simpl. by destruct (p x). }
      simpl. rewrite Hids. by destruct (p r).
    + intros x (y & Hy & ->)%elem_of_map_where. apply Hpair; [by left|by right|by apply Hcf].
    + apply IH; [done|]. intros a b Ha Hb. apply Hpair; by right.
Qed.

Section dns_proofs.
Context `{PgInet, IpamStoreLaws, PushRule} `{Net W}.
Notation St := (State W).
Implicit Types (s : St).

(** The parts of the state no step of the reconciler touches. *)
Record untouched s s' : Prop := {
  un_ok : res_ok s';
  un_net : same_net_tables s s';
  un_world : world s' = world s;
  un_integrations : integrations s' = integrations s;
  un_assets : assets s' = assets s;
}.
Lemma untouched_refl s : res_ok s → untouched s s.
Proof. by split. Qed.
Lemma untouched_trans s1 s2 s3 : untouched s1 s2 → untouched s2 s3 → untouched s1 s3.
Proof. intros [? [] ? ? ?] [? [] ? ? ?]. split; [done|split|..]; congruence. Qed.
Lemma untouched_log s a l i : res_ok s → ∃ s', logEvent (W := W) a l i s = (s', Ok tt) ∧ untouched s s' ∧ reservation_rows s' = reservation_rows s.
Proof. intros Hok. eexists. split; [done|]. split; [|done]. split; try done. by eapply res_ok_same_tables; [|exact Hok]. Qed.
Lemma untouched_rows s t : res_ok (set_reservations t s) → untouched s (set_reservations t s).
Proof. by split. Qed.

Definition chosen (ids : list string) (r : Reservation) : bool :=
  bool_decide (r_id r ∈ ids) && bool_decide (r_status r = Active).

Lemma releaseRows_run ids aid s :
  res_ok s →
  ∃ s' n, releaseRows ids aid s = (s', Ok n) ∧ untouched s s' ∧
    reservation_rows s' ≡ₚ
      (if clear (chosen ids) (reservation_rows s)
       then map_where (chosen ids) (set_r_status Released) (reservation_rows s) else reservation_rows s).
Proof.
  intros Hok. unfold releaseRows. case_bool_decide as Hids.
  { exists s, 0%nat. split_and!; [done|by apply untouched_refl|]. subst.
    assert (map_where (chosen []) (set_r_status Released) (reservation_rows s) = reservation_rows s) as ->; [|by destruct (clear _ _)].
    unfold map_where. rewrite (fmap_ext_elem _ (λ r, r)), list_fmap_id; [done|]. intros r _. unfold chosen.
    by rewrite (bool_decide_eq_false_2 (r_id r ∈ [])) by set_solver. }
  fold (chosen ids). pose proof (reservation_updateMany_spec (chosen ids) (set_r_status Released) s (λ _, eq_refl) (ro_db _ Hok)) as Hu.
  pose proof (rows_ok_release (chosen ids) (reservation_rows s) (proj2 (proj2 (ro_db _ Hok)))) as Hrel.
  assert (∀ r, r ∈ reservation_rows s → chosen ids r = true → r_status r = Active) as Hact.
  { intros r _ Hc. unfold chosen in Hc. by apply andb_true_iff in Hc as [_ ?%bool_decide_eq_true]. }
  specialize (Hrel Hact). unfold hcatch, hbind.
  destruct (reservation_updateMany (chosen ids) (set_r_status Released) s) as [s1 [n|e]] eqn:E.
  - pose proof (keeps_updateMany_status _ _ _ _ _ Hok E) as Hok1. destruct Hu as (t & -> & Hdb & Hrows & ->).
    assert (clear (chosen ids) (reservation_rows s) = true) as ->.
    { apply Hrel. eapply rows_ok_perm; [apply reservation_conflict_sym|exact Hrows|apply Hdb]. }
    destruct (0 <? _)%nat.
    + destruct (untouched_log (set_reservations t s) "reservation.dns_resolved.released" "info" (Some aid) Hok1) as (s2 & E2 & Hun & Hr2).
      rewrite E2. eexists _, _. split_and!; [done| |by rewrite Hr2].
      eapply untouched_trans; [by apply untouched_rows|exact Hun].
    + eexists _, _. split_and!; [done|by apply untouched_rows|done].
  - destruct Hu as (-> & -> & Hno). exists s, 0%nat. split_and!; [done|by apply untouched_refl|].
    destruct (clear (chosen ids) (reservation_rows s)) eqn:Hc; [|done]. by destruct Hno; apply Hrel.
Qed.

(** ** The reference *)

(** Where the asset's row belongs: its subnet and address, unless the asset has
    no claim or an authoritative row stands there. *)
Definition target_of (a : Asset) s : option (string * string) :=
  if assetEligible a then
    let ip := default "" (a_ipAddress a) in
    match containing_subnet ip s with
    | Some x => if existsb (authoritative_at (s_id x) ip) (reservation_rows s) then None else Some (s_id x, ip)
    | None => None
    end
  else None.

Definition at_target (tg : option (string * string)) (r : Reservation) : bool :=
  match tg with
  | Some (sub, ip) => bool_decide (r_subnetId r = sub) && bool_decide (r_ipAddress r = Some ip)
  | None => false
  end.
Definition stale_row (a : Asset) (tg : option (string * string)) (r : Reservation) : bool :=
  owned_by a r && negb (at_target tg r).

(** What becomes of a row: the asset's rows elsewhere are released, all or none;
    the system's row at the target takes the name and MAC of the asset. *)
Definition settled_row (a : Asset) (tg : option (string * string)) (l : list Reservation) (r : Reservation) : Reservation :=
  if stale_row a tg r then if clear (stale_row a tg) l then set_r_status Released r else r
  else if at_target tg r && system_row r then set_identity (resolvedHostname a) (a_macAddress a) r
  else r.

(** The row that is added, if any. *)
Definition settled_new (a : Asset) (tg : option (string * string)) (t : Z) (l news : list Reservation) : Prop :=
  match tg with
  | Some (sub, ip) =>
      if existsb (active_at sub ip) l then news = []
      else ∃ id, id ∉ r_id <$> l ∧ news = [resolved_row sub ip (resolvedHostname a) (a_macAddress a) t id]
  | None => news = []
  end.

Lemma chosen_of p l r :
  rows_ok l → (∀ r, p r = true → r_status r = Active) → r ∈ l → chosen (r_id <$> List.filter p l) r = p r.
Proof.
  intros Hl Hp Hr. unfold chosen. destruct (p r) eqn:Hpr.
  - rewrite !bool_decide_eq_true_2; [done|by apply Hp|]. apply list_elem_of_fmap. exists r. split; [done|].
    by apply elem_bfilter.
  - rewrite (bool_decide_eq_false_2 (r_id r ∈ _)); [done|]. intros (x & Hx & [Hxl Hpx]%elem_bfilter)%list_elem_of_fmap.
    assert (r = x) as -> by by apply (rows_ok_id l). congruence.
Qed.

Lemma clear_ext p q l : (∀ r, r ∈ l → p r = q r) → clear p l = clear q l.
Proof.
  intros Hpq. apply eq_true_iff_eq. rewrite !clear_true. split; intros Hc r y ip Hr Hp; apply (Hc r y ip Hr); rewrite ?Hpq in *; done.
Qed.

Lemma map_where_ext p q (f : Reservation → Reservation) l :
  (∀ r, r ∈ l → p r = q r) → map_where p f l = map_where q f l.
Proof. intros Hpq. apply fmap_ext_elem. intros r Hr. by rewrite Hpq. Qed.

Lemma owned_active a r : owned_by a r = true → r_status r = Active ∧ r_sourceType r = DnsResolved ∧ system_row r = true.
Proof.
  unfold owned_by, system_row. rewrite !andb_true_iff, !bool_decide_eq_true. naive_solver.
Qed.

Lemma upsert_resolved_run sub ip h m x s :
  res_ok s → x ∈ subnet_rows s → s_id x = sub → existsb (authoritative_at sub ip) (reservation_rows s) = false →
  ∃ s' k news, upsert_resolved sub ip h m s = (s', Ok k) ∧ untouched s s' ∧
    reservation_rows s' ≡ₚ
      ((λ r, if system_at sub ip r then set_identity h m r else r) <$> reservation_rows s) ++ news ∧
    (if existsb (active_at sub ip) (reservation_rows s) then news = []
     else ∃ id, id ∉ r_id <$> reservation_rows s ∧ news = [resolved_row sub ip h m (now (world s)) id]).
Proof.
  intros Hok Hx Hid Hauth. unfold upsert_resolved, findReservation. unfold hbind at 1, hgets at 1.
  destruct (List.find (system_at sub ip) (reservation_rows s)) as [e|] eqn:Hf.
  - apply find_some in Hf as [He%list_elem_of_In Hse]. pose proof He as (R & HR)%elem_of_Permutation.
    assert (existsb (active_at sub ip) (reservation_rows s) = true) as ->.
    { apply existsb_exists. exists e. split; [by apply list_elem_of_In|]. unfold system_at in Hse. by apply andb_true_iff in Hse as [? _]. }
    assert ((λ r, if system_at sub ip r then set_identity h m r else r) <$> reservation_rows s ≡ₚ set_identity h m e :: R) as Hmap.
    { rewrite HR, fmap_cons, Hse. rewrite (fmap_ext_elem _ (λ r, r)), list_fmap_id; [done|]. intros r Hr.
      destruct (system_at sub ip r) eqn:Hsr; [|done]. exfalso.
      apply (head_id_fresh _ _ _ (ro_db _ Hok) HR), list_elem_of_fmap. exists r. split; [|done]. f_equal.
      apply (rows_ok_conflict (reservation_rows s)); [apply reservation_conflict_sym|apply Hok|done|rewrite HR; by right|].
      unfold system_at, active_at in *. rewrite !andb_true_iff, !bool_decide_eq_true in *.
      apply reservation_conflict_true. split_and!; [naive_solver congruence..|]. exists ip. naive_solver. }
    unfold hcatch. destruct (negb (bool_decide (r_hostname e = h)) || negb (bool_decide (r_macAddress e = m))) eqn:Hd.
    + destruct (update_head s e R (set_identity h m) Hok HR) as (t & E & Hok' & Ht); [done|by intros ? ?|].
      unfold hbind at 1. rewrite E. unfold hbind at 1.
      destruct (untouched_log (set_reservations t s) "reservation.dns_resolved.updated" "info" (Some (r_id e)) Hok') as (s2 & E2 & Hun & Hr2).
      rewrite E2. eexists _, _, []. split_and!; [done| | |done].
      * eapply untouched_trans; [by apply untouched_rows|exact Hun].
      * rewrite app_nil_r, Hr2, Hmap. exact Ht.
    + eexists _, _, []. split_and!; [done|by apply untouched_refl| |done]. rewrite app_nil_r, Hmap, HR.
      apply orb_false_iff in Hd as [Hd1%negb_false_iff%bool_decide_eq_true Hd2%negb_false_iff%bool_decide_eq_true].
      subst h m. by destruct e.
  - assert ((λ r, if system_at sub ip r then set_identity h m r else r) <$> reservation_rows s = reservation_rows s) as Hmap.
    { rewrite (fmap_ext_elem _ (λ r, r)), list_fmap_id; [done|]. intros r Hr. eapply find_none in Hf; [|by apply list_elem_of_In].
      by rewrite Hf. }
    rewrite Hmap. unfold hcatch. unfold hbind at 1, newDate, hgets. unfold hbind at 1.
    pose proof (create_on_subnet (resolved_row sub ip h m (now (world s))) x s Hok Hx) as Hc.
    destruct (reservation_create _ s) as [s1 [r|e]].
    + destruct Hc as (t & id & -> & -> & Hfr & Hok' & Hrows); [done|]. unfold hbind at 1.
      destruct (untouched_log (set_reservations t s) "reservation.dns_resolved.created" "info"
        (Some (r_id (resolved_row sub ip h m (now (world s)) id))) Hok') as (s2 & E2 & Hun & Hr2).
      rewrite E2. eexists _, _, [_]. split_and!; [done| | |].
      * eapply untouched_trans; [by apply untouched_rows|exact Hun].
      * rewrite Hr2. unfold reservation_rows at 1. simpl. rewrite Hrows. apply Permutation_cons_append.
      * destruct (existsb (active_at sub ip) (reservation_rows s)) eqn:Hex; [|by exists id]. exfalso.
        apply existsb_exists in Hex as (y & Hy%list_elem_of_In & Hact).
        destruct Hok' as [(_ & _ & Hdb) _ _]. unfold reservation_rows in Hdb. simpl in Hdb.
        eapply rows_ok_perm in Hdb; [|apply reservation_conflict_sym|exact Hrows].
        apply rows_ok_cons in Hdb as (_ & Hno & _). specialize (Hno y Hy).
        unfold active_at in Hact. rewrite !andb_true_iff, !bool_decide_eq_true in Hact. destruct Hact as ((Hs1 & Hi1) & Ha1).
        enough (reservation_conflict (resolved_row sub ip h m (now (world s)) id) y = true) by (simpl in *; congruence).
        apply reservation_conflict_true. simpl. split_and!; [done|done|]. by exists ip.
    + destruct Hc as (-> & y & id & Hy & Hcf); [done|]. eexists _, _, []. split_and!; [done|by apply untouched_refl|by rewrite app_nil_r|].
      assert (existsb (active_at sub ip) (reservation_rows s) = true) as ->; [|done].
      apply existsb_exists. exists y. split; [by apply list_elem_of_In|].
      apply reservation_conflict_true in Hcf as (Hs1 & Ha1 & z & Hz1 & Hz2). simpl in *. simplify_eq.
      unfold active_at. by rewrite !bool_decide_eq_true_2.
Qed.

(** The release of the asset's rows that do not stand at the target, started
    from a table in which the rest may already have changed by [g]. *)
Lemma release_stale a tg g news s0 s1 aid :
  res_ok s0 → res_ok s1 →
  reservation_rows s1 ≡ₚ (g <$> reservation_rows s0) ++ news →
  (∀ r, r ∈ reservation_rows s0 → r_id (g r) = r_id r ∧ r_subnetId (g r) = r_subnetId r ∧
     r_ipAddress (g r) = r_ipAddress r ∧ r_status (g r) = r_status r) →
  (∀ r, r ∈ reservation_rows s0 → stale_row a tg r = true → g r = r) →
  (∀ r, r ∈ news → r_id r ∉ r_id <$> reservation_rows s0 ∧ r_status r ≠ Released) →
  ∃ s' n, releaseRows (r_id <$> List.filter (stale_row a tg) (reservation_rows s0)) aid s1 = (s', Ok n) ∧
    untouched s1 s' ∧
    reservation_rows s' ≡ₚ
      ((λ r, if stale_row a tg r && clear (stale_row a tg) (reservation_rows s0) then set_r_status Released r else g r)
         <$> reservation_rows s0) ++ news.
Proof.
  intros Hok0 Hok1 Hrows Hg Hgs Hnew. set (l := reservation_rows s0) in *. set (ids := r_id <$> List.filter (stale_row a tg) l).
  destruct (releaseRows_run ids aid s1 Hok1) as (s' & n & E & Hun & Hr). exists s', n. split_and!; [done..|].
  assert (∀ r, r ∈ l → chosen ids (g r) = stale_row a tg r) as Hch.
  { intros r Hin. destruct (Hg r Hin) as (Hi & _ & _ & Hst). unfold chosen. rewrite Hi, Hst.
    apply (chosen_of (stale_row a tg) l r); [apply Hok0| |done].
    intros x Hx. unfold stale_row in Hx. apply andb_true_iff in Hx as [Hx _]. by apply owned_active in Hx as (? & _). }
  assert (∀ r, r ∈ news → chosen ids r = false) as Hchn.
  { intros r Hin. unfold chosen. rewrite bool_decide_eq_false_2; [done|]. intros Hid. apply (proj1 (Hnew r Hin)).
    unfold ids in Hid. apply list_elem_of_fmap in Hid as (x & -> & [Hx _]%elem_bfilter). by apply list_elem_of_fmap_2. }
  assert (clear (chosen ids) (reservation_rows s1) = clear (stale_row a tg) l) as Hclear.
  { apply eq_true_iff_eq. rewrite !clear_true. setoid_rewrite Hrows. split.
    - intros Hc r y ip Hin Hst Hy Hs Hi Hj. destruct (Hg r Hin) as (Hi1 & Hs1 & Ha1 & _), (Hg y Hy) as (_ & Hs2 & Ha2 & Hst2).
      rewrite <-Hst2. apply (Hc (g r) (g y) ip); [apply elem_of_app; left; by apply list_elem_of_fmap_2|by rewrite Hch|
        apply elem_of_app; left; by apply list_elem_of_fmap_2|congruence..].
    - intros Hc r y ip [Hin|Hin]%elem_of_app Hst [Hy|Hy]%elem_of_app Hs Hi Hj.
      + apply list_elem_of_fmap in Hin as (r0 & -> & Hr0), Hy as (y0 & -> & Hy0).
        destruct (Hg r0 Hr0) as (Hi1 & Hs1 & Ha1 & _), (Hg y0 Hy0) as (_ & Hs2 & Ha2 & Hst2).
        rewrite Hch in Hst by done. rewrite Hst2. eapply (Hc r0 y0 ip); congruence.
      + by apply Hnew.
      + by rewrite Hchn in Hst.
      + by rewrite Hchn in Hst. }
  rewrite Hr, Hclear. destruct (clear (stale_row a tg) l).
  - unfold map_where. rewrite Hrows, fmap_app. apply Permutation_app.
    + rewrite <-list_fmap_compose. rewrite (fmap_ext_elem _ (λ r, if stale_row a tg r && true then set_r_status Released r else g r)); [done|].
      intros r Hin. simpl. rewrite Hch, andb_true_r by done. destruct (stale_row a tg r) eqn:Hst; [by rewrite Hgs|done].
    + rewrite (fmap_ext_elem _ (λ r, r)), list_fmap_id; [done|]. intros r Hin. by rewrite Hchn.
  - rewrite Hrows. rewrite (fmap_ext_elem g (λ r, if stale_row a tg r && false then set_r_status Released r else g r)); [done|].
    intros r _. by rewrite andb_false_r.
Qed.

Lemma skip_run a aid s :
  res_ok s →
  ∃ s' out, release_and_skip (List.filter (owned_by a) (reservation_rows s)) aid s = (s', Ok out) ∧ untouched s s' ∧
    reservation_rows s' ≡ₚ settled_row a None (reservation_rows s) <$> reservation_rows s.
Proof.
  intros Hok. assert (List.filter (owned_by a) (reservation_rows s) = List.filter (stale_row a None) (reservation_rows s)) as Hf.
  { apply bfilter_ext. intros r _. unfold stale_row. by rewrite andb_true_r. }
  destruct (release_stale a None (λ r, r) [] s s aid Hok Hok) as (s' & n & E & Hun & Hr); try done.
  { by rewrite app_nil_r, list_fmap_id. } { by intros ? ?%elem_of_nil. }
  eexists s', _. split_and!; [|done|].
  - unfold release_and_skip. rewrite Hf. unfold hbind. by rewrite E.
  - rewrite Hr, app_nil_r. rewrite (fmap_ext_elem _ (settled_row a None (reservation_rows s))); [done|].
    intros r _. unfold settled_row. simpl. by destruct (stale_row a None r), (clear _ _).
Qed.

Lemma containing_subnet_elem ip s x : containing_subnet ip s = Some x → x ∈ subnet_rows s.
Proof.
  unfold containing_subnet. destruct (forallb _ _); [|done]. destruct (List.filter _ _) as [|y l] eqn:Hf; [done|].
  intros [= <-]. assert (∀ z, z ∈ y :: l → z ∈ subnet_rows s) as Hin.
  { intros z Hz. rewrite <-Hf in Hz. by apply elem_bfilter in Hz as [? _]. }
  clear Hf. revert y Hin. induction l as [|z l IH]; intros y Hin; simpl; [apply Hin; by left|].
  apply IH. intros u [->|Hu]%elem_of_cons; [|apply Hin; by right; right].
  destruct (_ <? _); apply Hin; [by right; left|by left].
Qed.

(** The reconcile of one asset, in full. *)
Lemma reconcile_asset_run aid a s :
  res_ok s → List.find (λ a, String.eqb (a_id a) aid) (assets s) = Some a →
  ∃ s' out news, reconcileDnsResolvedForAsset aid s = (s', Ok out) ∧ untouched s s' ∧
    settled_new a (target_of a s) (now (world s)) (reservation_rows s) news ∧
    reservation_rows s' ≡ₚ
      (settled_row a (target_of a s) (reservation_rows s) <$> reservation_rows s) ++ news.
Proof.
  intros Hok Ha. destruct (skip_run a aid s Hok) as (sk & outk & Ek & Hunk & Hrk).
  assert (∃ s' out news, release_and_skip (List.filter (owned_by a) (reservation_rows s)) aid s = (s', Ok out) ∧
    untouched s s' ∧ settled_new a None (now (world s)) (reservation_rows s) news ∧
    reservation_rows s' ≡ₚ (settled_row a None (reservation_rows s) <$> reservation_rows s) ++ news) as Hskip.
  { exists sk, outk, []. split_and!; [done..|by rewrite app_nil_r]. }
  clear sk outk Ek Hunk Hrk. unfold reconcileDnsResolvedForAsset, target_of, findAsset, findOwnedSystemRows, findReservations, findContainingSubnet.
  unfold hbind at 1, hgets at 1. rewrite Ha. unfold hbind at 1, hgets at 1.
  destruct (assetEligible a); cbn [negb]; cbv iota beta; [|exact Hskip].
  unfold hbind at 1, hgets at 1. set (ip := default "" (a_ipAddress a)).
  destruct (containing_subnet ip s) as [x|] eqn:Hx; [|exact Hskip]. apply containing_subnet_elem in Hx.
  unfold hbind at 1, findReservation, hgets at 1.
  destruct (List.find (authoritative_at (s_id x) ip) (reservation_rows s)) as [y|] eqn:Hf.
  { assert (existsb (authoritative_at (s_id x) ip) (reservation_rows s) = true) as ->; [|exact Hskip].
    apply find_some in Hf as [? ?]. apply existsb_exists. by exists y. }
  assert (existsb (authoritative_at (s_id x) ip) (reservation_rows s) = false) as Hauth.
  { destruct (existsb _ _) eqn:He; [|done]. apply existsb_exists in He as (y & Hy & Hay).
    eapply find_none in Hf; [|exact Hy]. congruence. }
  rewrite Hauth. clear Hskip Hf. set (tg := Some (s_id x, ip)).
  destruct (upsert_resolved_run (s_id x) ip (resolvedHostname a) (a_macAddress a) x s Hok Hx eq_refl Hauth)
    as (s1 & k & news & E1 & Hun1 & Hr1 & Hnews). unfold hbind at 1. rewrite E1.
  assert (List.filter (λ r, negb (bool_decide (r_subnetId r = s_id x) && bool_decide (r_ipAddress r = Some ip)))
            (List.filter (owned_by a) (reservation_rows s)) = List.filter (stale_row a tg) (reservation_rows s)) as ->.
  { clear. induction (reservation_rows s) as [|r l IH]; [done|]. simpl. unfold stale_row at 1. simpl.
    destruct (owned_by a r); simpl; [|done]. by rewrite IH. }
  edestruct (release_stale a tg) as (s2 & n & E2 & Hun2 & Hr2); [exact Hok|apply Hun1|exact Hr1| | | |].
  - intros r _. cbn beta. by destruct (system_at (s_id x) ip r).
  - intros r _ Hst. cbn beta. destruct (system_at (s_id x) ip r) eqn:Hsys; [|done]. exfalso.
    unfold system_at, active_at in Hsys. unfold stale_row in Hst. simpl in Hst.
    apply andb_true_iff in Hst as [_ Hst]. apply andb_true_iff in Hsys as [[Hsys _]%andb_true_iff _]. by rewrite Hsys in Hst.
  - intros r Hr. destruct (existsb (active_at (s_id x) ip) (reservation_rows s)); [by rewrite Hnews in Hr; inversion Hr|].
    destruct Hnews as (id & Hid & ->). apply list_elem_of_singleton in Hr as ->. done.
  - unfold hbind at 1. rewrite E2. eexists _, _, news. split_and!; [done| | |].
    + by eapply untouched_trans.
    + unfold settled_new. simpl. exact Hnews.
    + rewrite Hr2. rewrite (fmap_ext_elem _ (settled_row a tg (reservation_rows s))); [done|].
      intros r _. unfold settled_row. destruct (stale_row a tg r) eqn:Hst; simpl.
      * destruct (clear _ _); [done|]. unfold stale_row in Hst. simpl in Hst. apply andb_true_iff in Hst as [_ Hst%negb_true_iff].
        unfold system_at, active_at. by rewrite Hst.
      * unfold system_at, active_at. simpl.
        destruct (bool_decide (r_subnetId r = s_id x) && bool_decide (r_ipAddress r = Some ip)); simpl; [|done].
        destruct (system_row r) eqn:Hsr; [|by rewrite andb_false_r]. rewrite andb_true_r.
        unfold system_row in Hsr. apply andb_true_iff in Hsr as [_ Hsr]. by rewrite Hsr.
Qed.

Lemma stale_facts a tg r :
  stale_row a tg r = true → r_status r = Active ∧ r_sourceType r = DnsResolved ∧ at_target tg r = false.
Proof. unfold stale_row. intros [Ho Ht%negb_true_iff]%andb_true_iff. apply owned_active in Ho as (? & ? & _). done. Qed.

Lemma settled_authoritative a tg l sub ip r :
  authoritative_at sub ip (settled_row a tg l r) = authoritative_at sub ip r.
Proof.
  unfold settled_row. destruct (stale_row a tg r) eqn:Hst.
  - apply stale_facts in Hst as (_ & Hd & _). destruct (clear _ _); [|done].
    unfold authoritative_at. simpl. by rewrite Hd, !andb_false_r.
  - by destruct (_ && _).
Qed.

(** The settled table is a fixed point. *)
Lemma settled_fixpoint a tg t l l' news :
  settled_new a tg t l news → l' ≡ₚ (settled_row a tg l <$> l) ++ news →
  (∀ r, r ∈ l' → settled_row a tg l' r = r) ∧ (∀ t' news', settled_new a tg t' l' news' → news' = []).
Proof.
  intros Hnew Hl'. split.
  - intros r' Hr'. rewrite Hl' in Hr'. apply elem_of_app in Hr' as [Hr'|Hr'].
    + apply list_elem_of_fmap in Hr' as (r & -> & Hr). unfold settled_row at 2 3. destruct (stale_row a tg r) eqn:Hst.
      * destruct (clear (stale_row a tg) l) eqn:Hc.
        -- unfold settled_row. assert (system_row (set_r_status Released r) = false) as Hs by (unfold system_row; simpl; by rewrite !andb_false_r).
           unfold stale_row, owned_by. by rewrite Hs, andb_false_r.
        -- unfold settled_row. rewrite Hst. destruct (clear (stale_row a tg) l') eqn:Hc'; [|done]. exfalso.
           pose proof Hc as Hcl. rewrite <-not_true_iff_false, clear_true in Hc. apply Hc. rewrite clear_true in Hc'.
           intros r0 y ip Hr0 Hs0 Hy Hsub Hi Hj Hrel.
           assert (∀ z, z ∈ l → settled_row a tg l z = z → z ∈ l') as Hin.
           { intros z Hz Hzs. rewrite Hl', elem_of_app. left. rewrite <-Hzs. by apply list_elem_of_fmap_2. }
           apply (Hc' r0 y ip); try done; apply Hin; try done; unfold settled_row.
           ++ by rewrite Hs0, Hcl.
           ++ assert (system_row y = false) as Hsy.
              { unfold system_row. rewrite (bool_decide_eq_false_2 (r_status y = Active)) by congruence. by rewrite andb_false_r. }
              unfold stale_row, owned_by. by rewrite Hsy, andb_false_r.
      * destruct (at_target tg r && system_row r) eqn:Hat; unfold settled_row.
        -- assert (at_target tg (set_identity (resolvedHostname a) (a_macAddress a) r) = at_target tg r) as Ha by done.
           assert (system_row (set_identity (resolvedHostname a) (a_macAddress a) r) = system_row r) as Hs by done.
           unfold stale_row. rewrite Ha, Hs, Hat. apply andb_true_iff in Hat as [-> _]. by rewrite andb_false_r.
        -- by rewrite Hst, Hat.
    + unfold settled_new in Hnew. destruct tg as [[sub ip]|]; [|by rewrite Hnew in Hr'; inversion Hr'].
      destruct (existsb _ l); [by rewrite Hnew in Hr'; inversion Hr'|]. destruct Hnew as (id & _ & ->).
      apply list_elem_of_singleton in Hr' as ->. unfold settled_row, stale_row. simpl. rewrite !bool_decide_eq_true_2 by done.
      simpl. by rewrite andb_false_r.
  - intros t' news' Hn. unfold settled_new in *. destruct tg as [[sub ip]|]; [|done].
    enough (existsb (active_at sub ip) l' = true) as He by by rewrite He in Hn.
    apply existsb_exists. setoid_rewrite <-list_elem_of_In. setoid_rewrite Hl'.
    destruct (existsb (active_at sub ip) l) eqn:Hex.
    + apply existsb_exists in Hex as (y & Hy%list_elem_of_In & Hay). exists (settled_row a (Some (sub, ip)) l y). split.
      { apply elem_of_app. left. by apply list_elem_of_fmap_2. }
      unfold settled_row. destruct (stale_row _ _ y) eqn:Hst; [|by destruct (_ && _)]. exfalso.
      apply stale_facts in Hst as (_ & _ & Hat). unfold active_at in Hay. simpl in Hat. by rewrite Hat in Hay.
    + destruct Hnew as (id & _ & ->). eexists. split; [apply elem_of_app; right; by apply list_elem_of_singleton|].
      unfold active_at. simpl. by rewrite !bool_decide_eq_true_2.
Qed.

(** A second reconcile of the same asset changes nothing. *)
Lemma reconcile_asset_idempotent aid a s s1 out :
  res_ok s → List.find (λ a, String.eqb (a_id a) aid) (assets s) = Some a →
  reconcileDnsResolvedForAsset aid s = (s1, Ok out) →
  ∀ w, ∃ s2 out2, reconcileDnsResolvedForAsset aid (set_world w s1) = (s2, Ok out2) ∧
    reservation_rows s2 ≡ₚ reservation_rows s1.
Proof.
  intros Hok Ha Hrun w. destruct (reconcile_asset_run aid a s Hok Ha) as (s1' & out' & news & E1 & Hun & Hnew & Hr1).
  rewrite Hrun in E1. injection E1 as <- <-.
  assert (List.find (λ a, String.eqb (a_id a) aid) (assets (set_world w s1)) = Some a) as Ha1
    by (simpl; by rewrite (un_assets _ _ Hun)).
  assert (res_ok (set_world w s1)) as Hok1 by (eapply res_ok_same_tables; [|exact (un_ok _ _ Hun)]; done).
  destruct (reconcile_asset_run aid a (set_world w s1) Hok1 Ha1) as (s2 & out2 & news2 & E2 & _ & Hnew2 & Hr2).
  exists s2, out2. split; [done|]. change (reservation_rows (set_world w s1)) with (reservation_rows s1) in *.
  assert (target_of a (set_world w s1) = target_of a s) as Htg.
  { unfold target_of, containing_subnet, subnet_rows. simpl. change (reservation_rows (set_world w s1)) with (reservation_rows s1).
    rewrite (proj2 (un_net _ _ Hun)). destruct (assetEligible a); [|done].
    match goal with |- match ?m with _ => _ end = _ => destruct m as [x|]; [|done] end.
    assert (existsb (authoritative_at (s_id x) (default "" (a_ipAddress a))) (reservation_rows s1) =
      existsb (authoritative_at (s_id x) (default "" (a_ipAddress a))) (reservation_rows s)) as ->; [|done].
    apply eq_true_iff_eq. rewrite !existsb_exists. setoid_rewrite <-list_elem_of_In. setoid_rewrite Hr1. split.
    - intros (y & [Hy|Hy]%elem_of_app & Hay).
      + apply list_elem_of_fmap in Hy as (z & -> & Hz). rewrite settled_authoritative in Hay. by exists z.
      + exfalso. unfold settled_new in Hnew. destruct (target_of a s) as [[sub ip]|]; [|by rewrite Hnew in Hy; inversion Hy].
        destruct (existsb _ _); [by rewrite Hnew in Hy; inversion Hy|]. destruct Hnew as (id & _ & ->).
        apply list_elem_of_singleton in Hy as ->. unfold authoritative_at in Hay. simpl in Hay. by rewrite andb_false_r in Hay.
    - intros (y & Hy & Hay). eexists. split; [apply elem_of_app; left; by apply list_elem_of_fmap_2|].
      by rewrite settled_authoritative. }
  rewrite Htg in *. destruct (settled_fixpoint _ _ _ _ _ _ Hnew Hr1) as [Hfix Hnone].
  rewrite Hr2, (Hnone _ _ Hnew2), app_nil_r. rewrite (fmap_ext_elem _ (λ r, r)), list_fmap_id; done.
Qed.

(** C15: reconciling one asset always returns and changes the table as the
    reference does: the system's row at the asset's address is created or takes
    the asset's name and MAC unless an authoritative row stands there, the rows
    the asset left behind are released, all of them or, when an older released
    row stands at one of their addresses, none, and no other row is touched.
    Reconciling again, at whatever later time, changes nothing. *)
Theorem reconcile_asset_settles aid a s :
  res_ok s → List.find (λ a, String.eqb (a_id a) aid) (assets s) = Some a →
  ∃ s1 out news, reconcileDnsResolvedForAsset aid s = (s1, Ok out) ∧ untouched s s1 ∧
    settled_new a (target_of a s) (now (world s)) (reservation_rows s) news ∧
    reservation_rows s1 ≡ₚ
      (settled_row a (target_of a s) (reservation_rows s) <$> reservation_rows s) ++ news ∧
    ∀ w, ∃ s2 out2, reconcileDnsResolvedForAsset aid (set_world w s1) = (s2, Ok out2) ∧
      reservation_rows s2 ≡ₚ reservation_rows s1.
Proof.
  intros Hok Ha. destruct (reconcile_asset_run aid a s Hok Ha) as (s1 & out & news & Hrun & Hun & Hnew & Hr).
  exists s1, out, news. split_and!; [done..|]. intros w. by eapply reconcile_asset_idempotent.
Qed.
End dns_proofs.

(** ** Concrete runs *)

(** PostgreSQL's containment over the reference parser of CIDR texts. *)
Module RefInet.
#[local] Existing Instance RefNetmask.lib.
#[export] Instance inet : PgInet :=
  {| pg_contains := λ c ip, b ← new_Netmask c; contains b (Some ip);
     pg_masklen := λ c, default 0 (bitmask <$> new_Netmask c) |}.
End RefInet.

Section dns_runs.
Import RefGate RefScope RefInet.
#[local] Existing Instances RefNetmask.lib ListStore.store named_rule.

Definition laptop (id ip mac status : string) : Asset :=
  mkAsset id (Some "laptop"%string) "workstation" None false None (Some ip) None (Some mac) status.
Definition dns_state (assets : list Asset) (rows : list Reservation) : State Scope :=
  mkState [block10] [lan] rows [integration] assets (scope_of [] []) [].
Definition reconciled_state (id : string) (s : State Scope) : State Scope := (reconcileDnsResolvedForAsset id s).1.
Definition set_status (status : string) (s : State Scope) : State Scope :=
  with_assets ((λ a, mkAsset (a_id a) (a_hostname a) (a_assetType a) (a_discoveredByIntegrationId a) (a_monitored a)
    (a_monitorStatus a) (a_ipAddress a) (a_dnsName a) (a_macAddress a) status) <$> assets s) s.
Definition places (s : State Scope) : list (option string * ReservationStatus) :=
  (λ r, (r_ipAddress r, r_status r)) <$> reservation_rows s.

Lemma dns_state_ok l : res_ok (dns_state l []).
Proof.
  split; [|by intros r Hr; inversion Hr..]. split_and!; [repeat constructor; set_solver..].
Qed.

Definition laptop20 : Asset := laptop "a1" "10.0.0.20" "AA:BB:CC:DD:EE:01" "active".

Lemma reconcile_asset_settles_witness :
  places (reconciled_state "a1" (dns_state [laptop20] [])) = [(Some "10.0.0.20"%string, Active)] ∧
  ∃ s1 out, reconcileDnsResolvedForAsset "a1" (dns_state [laptop20] []) = (s1, Ok out) ∧
    ∀ w, ∃ s2 out2, reconcileDnsResolvedForAsset "a1" (set_world w s1) = (s2, Ok out2) ∧
      reservation_rows s2 ≡ₚ reservation_rows s1.
Proof.
  split; [vm_compute; reflexivity|].
  destruct (reconcile_asset_settles "a1" laptop20 (dns_state [laptop20] []) (dns_state_ok _) eq_refl)
    as (s1 & out & news & Hrun & _ & _ & _ & Hagain). exists s1, out. split; [exact Hrun|exact Hagain].
Defined.

(** The second time an asset is decommissioned its row stays active: the row of
    the first time is in the way and the error is swallowed. *)
Theorem second_decommission_keeps_row :
  let s1 := reconciled_state "a1" (dns_state [laptop20] []) in
  let s2 := reconciled_state "a1" (set_status "decommissioned" s1) in
  let s3 := reconciled_state "a1" (set_status "active" s2) in
  let s4 := reconciled_state "a1" (set_status "decommissioned" s3) in
  places s2 = [(Some "10.0.0.20"%string, Released)] ∧
  places s4 = [(Some "10.0.0.20"%string, Released); (Some "10.0.0.20"%string, Active)] ∧
  (reconcileDnsResolvedForAsset "a1" (set_status "decommissioned" s3)).2 = Ok (mkReconcile 0 0 0 true).
Proof. split_and!; vm_compute; reflexivity. Qed.

(** Two assets of one name take the row from each other: after a sweep only the
    later of the two has one. *)
Theorem same_name_takes_row :
  let laptop30 := laptop "a2" "10.0.0.30" "AA:BB:CC:DD:EE:02" "active" in
  let s1 := (reconcileDnsResolvedForAllAssets (dns_state [laptop20; laptop30] [])).1 in
  places s1 = [(Some "10.0.0.20"%string, Released); (Some "10.0.0.30"%string, Active)].
Proof. vm_compute. reflexivity. Qed.

End dns_runs.
