(* ===== verification/AssetHooks.v ===== *)
(** * Writes to assets through the extended client

    The [asset] part of the client extension of [src/src/db.ts]: what every
    write of an asset goes through, and the reconcile of DNS-resolved rows it
    fires; with the bulk endpoint of [src/src/api/routes/assets.ts] that switches
    monitoring.  The history of addresses and the shadow writes of sources are
    not kept, and the fields of an asset are those of [Store.Asset]. *)

From S2P Require Import Prelude Cidr Store Networks Http Push JsColl Reservations Refresh RefreshProofs DnsResolved DnsProofs.

(** The fields a write sets; an absent field is left alone. *)
Record AssetWrite := mkAssetWrite {
  aw_hostname : option (option string);
  aw_ipAddress : option (option string);
  aw_dnsName : option (option string);
  aw_macAddress : option (option string);
  aw_status : option string;
  aw_monitored : option bool;
  aw_monitorStatus : option (option string);
}.

Definition terminal (status : string) : bool := String.eqb status "decommissioned" || String.eqb status "disabled".

Definition clampMonitoredForStatus (d : AssetWrite) : AssetWrite :=
  match aw_status d with
  | Some st =>
      if terminal st
      then mkAssetWrite (aw_hostname d) (aw_ipAddress d) (aw_dnsName d) (aw_macAddress d) (aw_status d) (Some false)
             (aw_monitorStatus d)
      else d
  | None => d
  end.

Definition write_asset (d : AssetWrite) (a : Asset) : Asset :=
  mkAsset (a_id a) (default (a_hostname a) (aw_hostname d)) (a_assetType a) (a_discoveredByIntegrationId a)
    (default (a_monitored a) (aw_monitored d)) (default (a_monitorStatus a) (aw_monitorStatus d))
    (default (a_ipAddress a) (aw_ipAddress d)) (default (a_dnsName a) (aw_dnsName d))
    (default (a_macAddress a) (aw_macAddress d)) (default (a_status a) (aw_status d)).

(** Could the write have changed who holds which address? *)
Definition touches_identity (d : AssetWrite) : bool :=
  bool_decide (is_Some (aw_ipAddress d)) || bool_decide (is_Some (aw_status d)) || bool_decide (is_Some (aw_hostname d)) ||
  bool_decide (is_Some (aw_dnsName d)) || bool_decide (is_Some (aw_macAddress d)).

Definition is_asset (id : string) (a : Asset) : bool := String.eqb (a_id a) id.

Section hooks.
Context `{PgInet, IpamStore} `{Net W}.
Notation St := (State W).

(** Fired and not awaited; its failure is swallowed. *)
Definition fireDnsResolvedReconcile (assetId : string) : M St unit :=
  hcatch (let! _ := reconcileDnsResolvedForAsset assetId in hret tt) (λ _, hret tt).

Definition asset_create (a : Asset) (d : AssetWrite) : M St unit :=
  hmodify (λ s, with_assets (assets s ++ [write_asset (clampMonitoredForStatus d) a]) s) ;!
  fireDnsResolvedReconcile (a_id a).

Definition asset_update (id : string) (d : AssetWrite) : M St unit :=
  let! found := findAsset (is_asset id) in
  match found with
  | None => hthrow P2025
  | Some _ =>
      hmodify (λ s, with_assets ((λ a, if is_asset id a then write_asset (clampMonitoredForStatus d) a else a) <$> assets s) s) ;!
      if touches_identity d then fireDnsResolvedReconcile id else hret tt
  end.

(** No reconcile: the periodic job catches the drift. *)
Definition asset_updateMany (p : Asset → bool) (d : AssetWrite) : M St nat :=
  let! s := hget in
  hput (with_assets ((λ a, if p a then write_asset (clampMonitoredForStatus d) a else a) <$> assets s) s) ;!
  hret (length (List.filter p (assets s))).

Definition asset_upsert (id : string) (blank : Asset) (create update : AssetWrite) : M St unit :=
  let! found := findAsset (is_asset id) in
  hmodify (λ s,
    match found with
    | Some _ => with_assets ((λ a, if is_asset id a then write_asset (clampMonitoredForStatus update) a else a) <$> assets s) s
    | None => with_assets (assets s ++ [write_asset (clampMonitoredForStatus create) blank]) s
    end) ;!
  fireDnsResolvedReconcile id.

Definition asset_delete (id : string) : M St unit :=
  hcatch (releaseDnsResolvedForAsset id) (λ _, hret tt) ;!
  let! found := findAsset (is_asset id) in
  match found with
  | None => hthrow P2025
  | Some _ => hmodify (λ s, with_assets (List.filter (λ a, negb (is_asset id a)) (assets s)) s)
  end.

(** [deleteMany] is not extended: no hook runs. *)
Definition asset_deleteMany (ids : list string) : M St nat :=
  let! s := hget in
  hput (with_assets (List.filter (λ a, negb (bool_decide (a_id a ∈ ids))) (assets s)) s) ;!
  hret (length (List.filter (λ a, bool_decide (a_id a ∈ ids)) (assets s))).

(** POST /assets/bulk-monitor, with [clampMonitoredState]. *)
Definition bulk_monitor (ids : list string) (monitored : bool) : M St (nat * list string) :=
  let! s := hget in
  let found := a_id <$> List.filter (λ a, bool_decide (a_id a ∈ ids)) (assets s) in
  let errors := List.filter (λ id, negb (bool_decide (id ∈ found))) ids in
  let data := mkAssetWrite None None None None None (Some monitored)
                (if monitored then Some (Some "recovering"%string) else None) in
  let! count := (if bool_decide (found = []) then hret 0%nat
                 else asset_updateMany (λ a, bool_decide (a_id a ∈ found)) data) in
  hret (count, errors).
End hooks.

(** ** Terminal assets are not monitored *)

Section hooks_proofs.
Context `{PgInet, IpamStoreLaws, PushRule} `{Net W}.
Notation St := (State W).
Implicit Types (s : St) (d : AssetWrite).

Definition unmonitored_ok (l : list Asset) : Prop := ∀ a, a ∈ l → terminal (a_status a) = true → a_monitored a = false.

(** A write that does not switch monitoring on, or sets the status with it. *)
Definition clamped_write d : Prop := aw_monitored d = Some true → is_Some (aw_status d).

Lemma write_unmonitored d a :
  clamped_write d → (terminal (a_status a) = true → a_monitored a = false) →
  terminal (a_status (write_asset (clampMonitoredForStatus d) a)) = true →
  a_monitored (write_asset (clampMonitoredForStatus d) a) = false.
Proof.
  intros Hd Ha. unfold clampMonitoredForStatus, write_asset. destruct (aw_status d) as [st|] eqn:Hst.
  - destruct (terminal st) eqn:Ht; cbn; [done|]. rewrite Hst. cbn. congruence.
  - cbn. rewrite Hst. cbn. intros Ht. destruct (aw_monitored d) as [[]|] eqn:Hm; cbn; [|done|by apply Ha].
    destruct Hd; congruence.
Qed.

Lemma reconcile_keeps_assets id s s' r : res_ok s → fireDnsResolvedReconcile id s = (s', r) → res_ok s' ∧ assets s' = assets s.
Proof.
  intros Hok. unfold fireDnsResolvedReconcile, hcatch, hbind.
  destruct (List.find (λ a, String.eqb (a_id a) id) (assets s)) as [a|] eqn:Ha.
  - destruct (reconcile_asset_run id a s Hok Ha) as (s1 & out & news & -> & Hun & _). intros [= <- <-].
    split; apply Hun.
  - unfold reconcileDnsResolvedForAsset, hbind, findAsset, hgets. rewrite Ha. by intros [= <- <-].
Qed.

(** Single writes through the client keep decommissioned and disabled assets
    unmonitored, provided a write that switches monitoring on also sets the
    status. *)
Theorem update_keeps_unmonitored id d s s' r :
  res_ok s → clamped_write d → unmonitored_ok (assets s) → asset_update id d s = (s', r) → unmonitored_ok (assets s').
Proof.
  intros Hok Hd Hm. unfold asset_update, hbind at 1, findAsset, hgets.
  destruct (List.find (is_asset id) (assets s)); [|by intros [= <- <-]]. unfold hbind, hmodify.
  set (s1 := with_assets _ s). assert (unmonitored_ok (assets s1)) as Hm1.
  { intros z (b & -> & Hb)%list_elem_of_fmap. destruct (is_asset id b); [|by apply Hm].
    apply write_unmonitored; [done|by apply Hm]. }
  destruct (touches_identity d); [|by intros [= <- <-]]. intros Hrun.
  apply reconcile_keeps_assets in Hrun as [_ ->]; [done|]. by eapply res_ok_same_tables; [|exact Hok].
Qed.
End hooks_proofs.

Section hooks_runs.
Import RefGate RefScope RefInet.
#[local] Existing Instances RefNetmask.lib ListStore.store named_rule.

Lemma update_keeps_unmonitored_witness :
  let d := mkAssetWrite None None None None (Some "decommissioned"%string) None None in
  unmonitored_ok (assets (asset_update "a1" d (dns_state [laptop20] [])).1).
Proof.
  intros d. refine (update_keeps_unmonitored "a1" d (dns_state [laptop20] []) _ _ (dns_state_ok _) _ _ (surjective_pairing _)).
  - intros Hm. discriminate Hm.
  - intros a Ha Ht. apply list_elem_of_singleton in Ha as ->. discriminate Ht.
Defined.

(** The bulk endpoint switches monitoring on for a decommissioned asset: its
    write carries no status, so nothing clamps it. *)
Theorem bulk_monitor_revives_decommissioned :
  let s := dns_state [laptop "a1" "10.0.0.20" "AA:BB:CC:DD:EE:01" "decommissioned"] [] in
  (λ a, (a_status a, a_monitored a)) <$> assets (bulk_monitor ["a1"%string] true s).1 = [("decommissioned"%string, true)].
Proof. vm_compute. reflexivity. Qed.

(** A bulk deletion runs no hook, and the sweep only visits assets, so the row
    of a deleted asset stays active; a single deletion releases it. *)
Theorem bulk_deleted_asset_keeps_row :
  let s1 := reconciled_state "a1" (dns_state [laptop20] []) in
  let s2 := (reconcileDnsResolvedForAllAssets (asset_deleteMany ["a1"%string] s1).1).1 in
  places s2 = [(Some "10.0.0.20"%string, Active)] ∧
  places (asset_delete "a1" s1).1 = [(Some "10.0.0.20"%string, Released)].
Proof. split; vm_compute; reflexivity. Qed.
End hooks_runs.
