(* ===== verification/StaleAlerts.v ===== *)
(** * Alerts for stale reservations

    [src/src/services/reservationStaleService.ts] and the endpoints of
    [src/src/api/routes/reservations.ts] that call it: which DHCP reservations
    have not been seen leased for too long, and the one alert each of them gets.

    An entry of the list keeps the row and the days since it was seen; the labels
    of its subnet and integration are for display.  The stored threshold is an
    integer. *)

From S2P Require Import Prelude Cidr Store Networks Http Push JsColl Reservations Refresh RefreshProofs.

Definition DEFAULT_STALE_AFTER_DAYS : Z := 60.
Definition DAY_MS : Z := 24 * 60 * 60 * 1000.

Record ReservationAlertEntry := mkAlert { al_row : Reservation; al_daysSinceSeen : Z }.
Inductive AlertMode := ActiveAlerts | IgnoredAlerts.

Definition stamp_stale (notified snoozed : option Z) (r : Reservation) : Reservation :=
  let x := r_stale r in set_r_stale (mkStaleState (lastSeenLeased x) notified snoozed (staleIgnored x)) r.
Definition stamp_ignored (b : bool) (r : Reservation) : Reservation :=
  let x := r_stale r in
  set_r_stale (mkStaleState (lastSeenLeased x) (if b then None else staleNotifiedAt x)
    (if b then None else staleSnoozedUntil x) b) r.

(** [orderBy: [{ lastSeenLeased: "asc" }, { createdAt: "asc" }]], nulls last. *)
Definition alert_leb (a b : Reservation) : bool :=
  match lastSeenLeased (r_stale a), lastSeenLeased (r_stale b) with
  | Some x, Some y => (x <? y) || ((x =? y) && (r_createdAt a <=? r_createdAt b))
  | Some _, None => true
  | None, Some _ => false
  | None, None => r_createdAt a <=? r_createdAt b
  end.

Definition watched (ignored : bool) (r : Reservation) : bool :=
  bool_decide (r_status r = Active) && bool_decide (r_sourceType r = DhcpReservation) &&
  Bool.eqb (staleIgnored (r_stale r)) ignored.

(** The latest sign of life, or the start of the watch. *)
Definition last_signal (detectionStartedAt : Z) (r : Reservation) : Z :=
  match lastSeenLeased (r_stale r) with
  | Some t => t
  | None => if detectionStartedAt <? r_createdAt r then r_createdAt r else detectionStartedAt
  end.
Definition snoozed (t : Z) (r : Reservation) : bool :=
  match staleSnoozedUntil (r_stale r) with Some u => t <? u | None => false end.
Definition is_stale_row (days detectionStartedAt t : Z) (r : Reservation) : bool :=
  watched false r && negb (snoozed t r) && (last_signal detectionStartedAt r <=? t - days * DAY_MS).

(** [Math.floor(ms / day)] *)
Definition days_since (t signal : Z) : Z := (t - signal) / DAY_MS.

(** The tables of [State] with the two settings of the service. *)
Record StaleDb `{IpamStore} (W : Type) := mkStaleDb {
  sd_ipam : State W;
  sd_staleAfterDays : option Z;
  sd_detectionStartedAt : option Z;
}.
Arguments mkStaleDb {_ W}.
Arguments sd_ipam {_ W}.
Arguments sd_staleAfterDays {_ W}.
Arguments sd_detectionStartedAt {_ W}.

Section stale.
Context `{IpamStore} `{Net W}.
Notation St := (State W).
Notation Sd := (StaleDb W).

Definition on_ipam {A} (m : M St A) : M Sd A := λ s,
  let '(s', r) := m (sd_ipam s) in (mkStaleDb s' (sd_staleAfterDays s) (sd_detectionStartedAt s), r).

Definition clean_days (d : option Z) : Z :=
  match d with Some n => if 0 <=? n then n else DEFAULT_STALE_AFTER_DAYS | None => DEFAULT_STALE_AFTER_DAYS end.
Definition getStaleSettings : M Sd Z := hgets (λ s, clean_days (sd_staleAfterDays s)).
Definition updateStaleSettings (days : option Z) : M Sd Z :=
  hmodify (λ s, mkStaleDb (sd_ipam s) (Some (clean_days days)) (sd_detectionStartedAt s)) ;!
  hret (clean_days days).

(** The first call stamps the start of the watch. *)
Definition getDetectionStartedAt : M Sd Z :=
  let! s := hget in
  match sd_detectionStartedAt s with
  | Some t => hret t
  | None =>
      let t := now (world (sd_ipam s)) in
      hput (mkStaleDb (sd_ipam s) (sd_staleAfterDays s) (Some t)) ;! hret t
  end.

Definition require_dhcp_reservation (id what : string) : M St unit :=
  let! row := findReservation (has_id id) in
  match row with
  | None => hthrow (AppError 404 ("Reservation " +:+ id +:+ " not found"))
  | Some r =>
      throw_if (negb (bool_decide (r_status r = Active)) || negb (bool_decide (r_sourceType r = DhcpReservation)))
        (AppError 409 ("Cannot " +:+ what +:+ " — reservation must be active and dhcp_reservation (status=" +:+
           show_status (r_status r) +:+ ", sourceType=" +:+ show_source (r_sourceType r) +:+ ")"))
  end.

Definition snooze_row (days : Z) (id : string) : M St Z :=
  require_dhcp_reservation id "snooze" ;!
  let! t := newDate in
  let until := t + days * DAY_MS in
  let! _ := reservation_update id (stamp_stale None (Some until)) in
  hret until.
Definition snoozeReservation (id : string) : M Sd (Z * Z) :=
  let! days := getStaleSettings in
  throw_if (days =? 0)
    (AppError 409 "Stale-reservation detection is disabled — set a non-zero threshold before snoozing alerts") ;!
  let! until := on_ipam (snooze_row days id) in
  hret (until, days).

Definition setStaleIgnored (id : string) (b : bool) : M St bool :=
  require_dhcp_reservation id "ignore" ;!
  let! _ := reservation_update id (stamp_ignored b) in
  hret b.

Definition stale_entries (days detectionStartedAt : Z) : M St (list ReservationAlertEntry) :=
  let! t := newDate in
  let! rows := findReservations (watched false) in
  hret ((λ r, mkAlert r (days_since t (last_signal detectionStartedAt r))) <$>
        List.filter (is_stale_row days detectionStartedAt t) (sort_by alert_leb rows)).

Definition ignored_entries : M St (list ReservationAlertEntry) :=
  let! t := newDate in
  let! rows := findReservations (watched true) in
  hret ((λ r, mkAlert r (days_since t (default (r_createdAt r) (lastSeenLeased (r_stale r))))) <$>
        sort_by alert_leb rows).

Definition listStaleReservations (mode : AlertMode) : M Sd (list ReservationAlertEntry) :=
  let! days := getStaleSettings in
  match mode with
  | IgnoredAlerts => on_ipam ignored_entries
  | ActiveAlerts =>
      if days =? 0 then hret []
      else let! t0 := getDetectionStartedAt in on_ipam (stale_entries days t0)
  end.

(** One event and one stamp per entry that has none yet. *)
Fixpoint flag_entries (t : Z) (l : list ReservationAlertEntry) (emitted : nat) : M St nat :=
  match l with
  | [] => hret emitted
  | e :: l' =>
      match staleNotifiedAt (r_stale (al_row e)) with
      | Some _ => flag_entries t l' emitted
      | None =>
          logEvent "reservation.stale" "warning" (Some (r_id (al_row e))) ;!
          let! _ := reservation_update (r_id (al_row e))
            (λ r, stamp_stale (Some t) (staleSnoozedUntil (r_stale r)) r) in
          flag_entries t l' (S emitted)
      end
  end.

Definition flagStaleReservations : M Sd nat :=
  let! days := getStaleSettings in
  if days =? 0 then hret 0%nat
  else
    let! stale := listStaleReservations ActiveAlerts in
    on_ipam (let! t := newDate in flag_entries t stale 0).
End stale.

(** ** One alert per silence *)

Section stale_proofs.
Context `{IpamStoreLaws, PushRule} `{Net W}.
Notation St := (State W).
Notation Sd := (StaleDb W).
Implicit Types (s : St).

Definition unnotified (r : Reservation) : bool := bool_decide (staleNotifiedAt (r_stale r) = None).
Definition notify (t : Z) (r : Reservation) : Reservation := stamp_stale (Some t) (staleSnoozedUntil (r_stale r)) r.
(** The rows a run alerts about. *)
Definition due (days t0 t : Z) (r : Reservation) : bool := is_stale_row days t0 t r && unnotified r.

Definition marked (t : Z) (Q : list Reservation) (r : Reservation) : Reservation :=
  if bool_decide (r ∈ Q) && unnotified r then notify t r else r.

(** The audit log grows by one alert per row. *)
Definition alerted (l : list Reservation) (s s' : St) : Prop :=
  audit s' = audit s ++ ((λ r, mkAuditEvent "reservation.stale" "warning" (Some (r_id r))) <$> l).

Lemma flag_entries_run t all es Q c s :
  res_ok s → NoDup (r_id <$> all) → reservation_rows s ≡ₚ marked t Q <$> all →
  NoDup (Q ++ (al_row <$> es)) → (∀ e, e ∈ es → al_row e ∈ all) →
  ∃ s', flag_entries t es c s = (s', Ok (c + length (List.filter unnotified (al_row <$> es)))%nat) ∧ res_ok s' ∧
    ipBlocks s' = ipBlocks s ∧ subnets s' = subnets s ∧ world s' = world s ∧
    reservation_rows s' ≡ₚ marked t (Q ++ (al_row <$> es)) <$> all ∧
    alerted (List.filter unnotified (al_row <$> es)) s s' ∧
    (List.filter unnotified (al_row <$> es) = [] → s' = s).
Proof.
  intros Hok Hnd. revert Q c s Hok. induction es as [|e es IH]; intros Q c s Hok Hr HQ Hes.
  { exists s. simpl. rewrite app_nil_r, Nat.add_0_r. split_and!; try done. unfold alerted. simpl. by rewrite app_nil_r. }
  rewrite fmap_cons in HQ |- *. assert (NoDup ((Q ++ [al_row e]) ++ (al_row <$> es))) as HQ' by by rewrite <-app_assoc.
  assert (al_row e ∈ all) as Hin by (apply Hes; by left).
  assert (al_row e ∉ Q) as HnQ.
  { intros HeQ. apply NoDup_app in HQ as (_ & Hd & _). apply (Hd _ HeQ). by left. }
  assert (∀ e, e ∈ es → al_row e ∈ all) as Hes' by (intros ? ?; apply Hes; by right).
  cbn [List.filter flag_entries]. destruct (staleNotifiedAt (r_stale (al_row e))) as [n|] eqn:Hn.
  - assert (unnotified (al_row e) = false) as Hu by (unfold unnotified; by rewrite Hn). rewrite Hu.
    destruct (IH (Q ++ [al_row e]) c s Hok) as (s' & Hrun & H1' & H2' & H3' & H4' & H5' & H6' & H7'); [|done|done|].
    { rewrite Hr. rewrite (fmap_ext_elem (marked t (Q ++ [al_row e])) (marked t Q)); [done|].
      intros r _. unfold marked. destruct (decide (r = al_row e)) as [->|Hne].
      - by rewrite Hu, !andb_false_r.
      - assert (bool_decide (r ∈ Q ++ [al_row e]) = bool_decide (r ∈ Q)) as ->; [|done].
        apply bool_decide_ext. rewrite elem_of_app, list_elem_of_singleton. naive_solver. }
    rewrite <-app_assoc in H5'. exists s'. by split_and!.
  - assert (unnotified (al_row e) = true) as Hu by (unfold unnotified; by rewrite Hn). rewrite Hu.
    pose proof Hin as (R & HR)%elem_of_Permutation.
    assert (al_row e ∉ R ∧ ∀ r, r ∈ R → r ≠ al_row e) as [_ HneR].
    { rewrite HR, fmap_cons, NoDup_cons in Hnd. destruct Hnd as [Hnd _].
      split; [|intros r Hr' ->]; [intros Hr'|]; by apply Hnd, list_elem_of_fmap_2. }
    assert (marked t Q (al_row e) = al_row e) as Hself by (unfold marked; by rewrite (bool_decide_eq_false_2 (al_row e ∈ Q))).
    set (s1 := set_audit (audit s ++ [mkAuditEvent "reservation.stale" "warning" (Some (r_id (al_row e)))]) s).
    assert (res_ok s1) as Hok1 by by eapply res_ok_same_tables; [|exact Hok].
    assert (reservation_rows s1 ≡ₚ al_row e :: (marked t Q <$> R)) as Hr1.
    { change (reservation_rows s1) with (reservation_rows s). by rewrite Hr, HR, fmap_cons, Hself. }
    destruct (update_head s1 (al_row e) _ (notify t) Hok1 Hr1) as (tb & E & Hok2 & Ht); [done|by intros ? ?|].
    destruct (IH (Q ++ [al_row e]) (S c) (set_reservations tb s1) Hok2) as (s' & Hrun & H1' & H2' & H3' & H4' & H5' & H6' & H7');
      [|done|done|].
    { change (reservation_rows (set_reservations tb s1)) with (rows tb). rewrite Ht, HR, fmap_cons. unfold marked at 2.
      rewrite bool_decide_eq_true_2, Hu by set_solver. simpl. rewrite (fmap_ext_elem (marked t (Q ++ [al_row e])) (marked t Q)); [done|]. intros r Hr'. unfold marked.
      assert (bool_decide (r ∈ Q ++ [al_row e]) = bool_decide (r ∈ Q)) as ->; [|done].
      apply bool_decide_ext. rewrite elem_of_app, list_elem_of_singleton. specialize (HneR r Hr'). naive_solver. }
    rewrite <-app_assoc in H5'. exists s'. split_and!; try done.
    + unfold hbind at 1, logEvent, hmodify. fold s1. unfold hbind. fold (notify t). rewrite E, Hrun. simpl. f_equal. f_equal. lia.
    + unfold alerted in *. rewrite H6'. simpl. by rewrite <-app_assoc.
Qed.

Lemma stale_list_elem days t0 t l r :
  r ∈ List.filter (is_stale_row days t0 t) (sort_by alert_leb (List.filter (watched false) l)) ↔
  r ∈ l ∧ is_stale_row days t0 t r = true.
Proof.
  rewrite elem_bfilter, (sort_by_perm alert_leb), elem_bfilter. unfold is_stale_row. rewrite !andb_true_iff. naive_solver.
Qed.
Lemma stale_list_due days t0 t l :
  List.filter unnotified (List.filter (is_stale_row days t0 t) (sort_by alert_leb (List.filter (watched false) l)))
  ≡ₚ List.filter (due days t0 t) l.
Proof.
  rewrite !filter_filter, (sort_by_perm alert_leb), filter_filter.
  rewrite (bfilter_ext _ (due days t0 t)); [done|]. intros r _. unfold due, is_stale_row. by destruct (watched false r).
Qed.

Lemma flag_due days t0 t l :
  (marked t (al_row <$> ((λ r, mkAlert r (days_since t (last_signal t0 r))) <$>
     List.filter (is_stale_row days t0 t) (sort_by alert_leb (List.filter (watched false) l)))) <$> l)
  = map_where (due days t0 t) (notify t) l.
Proof.
  apply fmap_ext_elem. intros r Hr. unfold marked, due. rewrite <-list_fmap_compose.
  assert (bool_decide (r ∈ (al_row ∘ (λ r, mkAlert r (days_since t (last_signal t0 r)))) <$>
     List.filter (is_stale_row days t0 t) (sort_by alert_leb (List.filter (watched false) l))) = is_stale_row days t0 t r) as ->; [|done].
  apply eq_true_iff_eq. rewrite bool_decide_eq_true, list_elem_of_fmap. setoid_rewrite stale_list_elem. simpl. naive_solver.
Qed.

(** The run of the job, with the detection on. *)
Lemma flag_run (s : Sd) :
  let t := now (world (sd_ipam s)) in
  let days := clean_days (sd_staleAfterDays s) in
  let t0 := default t (sd_detectionStartedAt s) in
  res_ok (sd_ipam s) → days ≠ 0 →
  ∃ (s' : Sd) (n : nat), flagStaleReservations s = (s', Ok n) ∧ res_ok (sd_ipam s') ∧ world (sd_ipam s') = world (sd_ipam s) ∧
    sd_staleAfterDays s' = sd_staleAfterDays s ∧ sd_detectionStartedAt s' = Some t0 ∧
    reservation_rows (sd_ipam s') ≡ₚ map_where (due days t0 t) (notify t) (reservation_rows (sd_ipam s)) ∧
    n = length (List.filter (due days t0 t) (reservation_rows (sd_ipam s))) ∧
    (∃ l, l ≡ₚ List.filter (due days t0 t) (reservation_rows (sd_ipam s)) ∧ alerted l (sd_ipam s) (sd_ipam s')) ∧
    (n = 0%nat → sd_ipam s' = sd_ipam s).
Proof.
  intros t days t0 Hok Hd. destruct s as [s sa sd]. simpl in *.
  set (es := (λ r, mkAlert r (days_since t (last_signal t0 r))) <$>
        List.filter (is_stale_row days t0 t) (sort_by alert_leb (List.filter (watched false) (reservation_rows s)))).
  assert (al_row <$> es = List.filter (is_stale_row days t0 t) (sort_by alert_leb (List.filter (watched false) (reservation_rows s)))) as Hes.
  { unfold es. rewrite <-list_fmap_compose. rewrite (fmap_ext_elem _ (λ r, r)), list_fmap_id; done. }
  assert (NoDup (r_id <$> reservation_rows s)) as Hnd by apply (ro_db _ Hok).
  destruct (flag_entries_run t (reservation_rows s) es [] 0 s Hok Hnd) as (s' & Hrun & H1' & H2' & H3' & H4' & H5' & H6' & H7').
  { rewrite (fmap_ext_elem _ (λ r, r)), list_fmap_id; [done|]. intros r _. unfold marked.
    by rewrite (bool_decide_eq_false_2 (r ∈ [])) by set_solver. }
  { simpl. rewrite Hes. apply NoDup_bfilter. rewrite (sort_by_perm alert_leb). apply NoDup_bfilter.
    by eapply NoDup_fmap_1. }
  { intros e He. assert (al_row e ∈ al_row <$> es) as Hin by by apply list_elem_of_fmap_2.
    rewrite Hes in Hin. by apply stale_list_elem in Hin as [? _]. }
  rewrite Hes, stale_list_due in Hrun. rewrite Hes in H6', H7'. simpl in Hrun.
  exists (mkStaleDb s' sa (Some t0)), (length (List.filter (due days t0 t) (reservation_rows s))). simpl. split_and!; try done.
  - unfold flagStaleReservations. unfold hbind at 1, getStaleSettings, hgets. simpl. fold days.
    destruct (Z.eqb_spec days 0) as [|_]; [done|]. unfold listStaleReservations, getStaleSettings. unfold hbind at 2.
    unfold hgets. unfold hbind at 1. simpl. fold days. destruct (Z.eqb_spec days 0) as [|_]; [done|].
    assert (getDetectionStartedAt (mkStaleDb s sa sd) = (mkStaleDb s sa (Some t0), Ok t0)) as Hdet.
    { unfold getDetectionStartedAt, hbind, hget, t0. simpl. by destruct sd. }
    unfold hbind at 1. rewrite Hdet. unfold on_ipam at 1. simpl.
    change (stale_entries days t0 s) with (s, @Ok (list ReservationAlertEntry) es). simpl.
    unfold on_ipam. simpl. unfold hbind, newDate, hgets. fold t. fold es. by rewrite Hrun.
  - rewrite H5'. simpl. by rewrite <-(flag_due days t0 t).
  - eexists. split; [|exact H6']. apply stale_list_due.
  - intros Hn. apply H7', Permutation_nil_r. by rewrite stale_list_due, (nil_length_inv _ Hn).
Qed.

(** The job alerts once.  It always returns; with the threshold at zero it
    does nothing; otherwise it writes one event and one stamp for exactly the
    active, watched DHCP reservations that are not snoozed, have shown no sign
    of life for the threshold and have no stamp yet, and touches nothing else.
    A second run at the same time writes nothing. *)
Theorem flag_alerts_once (s : Sd) :
  let t := now (world (sd_ipam s)) in
  let days := clean_days (sd_staleAfterDays s) in
  let t0 := default t (sd_detectionStartedAt s) in
  res_ok (sd_ipam s) →
  ∃ (s' : Sd) (n : nat), flagStaleReservations s = (s', Ok n) ∧
    (days = 0 → s' = s ∧ n = 0%nat) ∧
    (days ≠ 0 →
       reservation_rows (sd_ipam s') ≡ₚ map_where (due days t0 t) (notify t) (reservation_rows (sd_ipam s)) ∧
       (∃ l, l ≡ₚ List.filter (due days t0 t) (reservation_rows (sd_ipam s)) ∧ alerted l (sd_ipam s) (sd_ipam s') ∧
          n = length l)) ∧
    flagStaleReservations s' = (s', Ok 0%nat).
Proof.
  intros t days t0 Hok. destruct (Z.eq_dec days 0) as [Hz|Hnz].
  - assert (flagStaleReservations s = (s, Ok 0%nat)) as Hrun.
    { unfold flagStaleReservations, hbind, getStaleSettings, hgets. fold days. by rewrite Hz. }
    exists s, 0%nat. by split_and!.
  - destruct (flag_run s Hok Hnz) as (s' & n & Hrun & Hok' & Hw & Hsa & Hsd & Hr & Hn & (l & Hl & Hal) & _).
    fold t days t0 in Hr, Hn, Hl, Hsd. exists s', n. split_and!; [done|done| |].
    { intros _. split; [done|]. exists l. split_and!; [done..|]. by rewrite Hl. }
    destruct (flag_run s' Hok') as (s2 & n2 & Hrun2 & _ & _ & Hsa2 & Hsd2 & _ & Hn2 & _ & Hsame); [by rewrite Hsa|].
    rewrite Hw, Hsa, Hsd in *. simpl in *. fold t days in Hn2, Hsd2.
    assert (n2 = 0%nat) as ->.
    { rewrite Hn2, Hr. rewrite filter_nil; [done|]. intros r (y & Hy & ->)%elem_of_map_where.
      destruct (due days t0 t y) eqn:Hdue; [|done]. unfold due, unnotified, notify, stamp_stale. simpl. by rewrite andb_false_r. }
    rewrite Hrun2. f_equal. destruct s2, s'. simpl in *. rewrite Hsame by done. congruence.
Qed.
End stale_proofs.

(** ** Concrete runs *)

Section stale_runs.
Import RefGate RefScope.
#[local] Existing Instances RefNetmask.lib ListStore.store named_rule.

Definition days_later (n : Z) (s : State Scope) : State Scope :=
  let g := sc_gate (world s) in set_world (mkScope (mkGate (g_entries g) (g_now g + n * DAY_MS) (g_tls g)) (sc_leases (world s))) s.
Definition silent_row : Reservation := lan_row "r1" "10.0.0.20" Active DhcpReservation (Some "aa:bb:cc:dd:ee:0f"%string) None no_push.
Definition silent_db : StaleDb Scope :=
  mkStaleDb (days_later 61 (lan_state [silent_row] (scope_of [entry_of 7 "10.0.0.20" "aabbccddee0f" None] []))) None (Some 0).

Lemma flag_alerts_once_witness :
  (flagStaleReservations silent_db).2 = Ok 1%nat ∧
  flagStaleReservations (flagStaleReservations silent_db).1 = ((flagStaleReservations silent_db).1, Ok 0%nat).
Proof.
  split; [vm_compute; reflexivity|]. destruct (flag_alerts_once silent_db) as (s' & n & Hrun & _ & _ & Hagain).
  - eapply res_ok_same_tables; [|apply (lan_state_ok [silent_row] (scope_of [] []))]; [done| |].
    + apply (bool_decide_unpack (rows_ok [silent_row])). vm_compute. exact I.
    + intros r Hr. apply list_elem_of_singleton in Hr as ->. split; [exact I|reflexivity].
  - rewrite Hrun. exact Hagain.
Defined.

Definition later (n : Z) (db : StaleDb Scope) : StaleDb Scope :=
  mkStaleDb (days_later n (sd_ipam db)) (sd_staleAfterDays db) (sd_detectionStartedAt db).
Definition refresh_db (db : StaleDb Scope) : StaleDb Scope :=
  mkStaleDb (refreshed_state (sd_ipam db)) (sd_staleAfterDays db) (sd_detectionStartedAt db).

(** A refresh records that a client is back but leaves the stamp of the old
    alert, so the next silence of that client is never reported. *)
Theorem refresh_silences_next_alert :
  let flagged := (flagStaleReservations silent_db).1 in
  let seen := refresh_db (later 1 flagged) in
  (flagStaleReservations silent_db).2 = Ok 1%nat ∧
  (λ r, bool_decide (is_Some (lastSeenLeased (r_stale r)))) <$> reservation_rows (sd_ipam seen) = [true] ∧
  length (default [] (match (listStaleReservations ActiveAlerts (later 100 seen)).2 with Ok l => Some l | Throw _ => None end)) = 1%nat ∧
  (flagStaleReservations (later 100 seen)).2 = Ok 0%nat.
Proof. split_and!; vm_compute; reflexivity. Qed.
End stale_runs.
