(* ===== verification/Conflicts.v ===== *)
(** * Conflicts between discovery and reservations

    [upsertConflict] of [src/src/api/routes/integrations.ts] and the reservation
    half of [src/src/api/routes/conflicts.ts]: how a discovery proposes other
    values for a reservation, and how an operator settles the proposal.

    A conflict is named by its place in the table, and seen only while its
    reservation exists (the foreign key cascades).  The conflicts of assets are
    not modelled.  Whether the caller holds the permission is an argument; [Roles]
    decides it. *)

From S2P Require Import Prelude Cidr Store Networks Http Push JsColl Reservations Refresh RefreshProofs.

Inductive ConflictStatus := CfPending | CfAccepted | CfRejected.
#[global] Instance ConflictStatus_eq_dec : EqDecision ConflictStatus.
Proof. solve_decision. Defined.
Inductive ConflictField := FHostname | FOwner | FProjectRef | FNotes.
#[global] Instance ConflictField_eq_dec : EqDecision ConflictField.
Proof. solve_decision. Defined.

Record Conflict := mkConflict {
  cf_reservationId : string;
  cf_integrationId : string;
  cf_hostname : option string;
  cf_owner : option string;
  cf_projectRef : option string;
  cf_notes : option string;
  cf_sourceType : ReservationSourceType;
  cf_fields : list ConflictField;
  cf_status : ConflictStatus;
  cf_resolvedBy : option string;
  cf_resolvedAt : option Z;
}.
#[global] Instance Conflict_eq_dec : EqDecision Conflict.
Proof. solve_decision. Defined.

Record ProposedReservationData := mkProposed {
  pd_hostname : option string; pd_owner : option string; pd_projectRef : option string; pd_notes : option string;
  pd_sourceType : ReservationSourceType }.

(** The tables of [State] with the table of conflicts. *)
Record SyncDb `{IpamStore} (W : Type) := mkSyncDb { dd_ipam : State W; dd_conflicts : list Conflict }.
Arguments mkSyncDb {_ W}.
Arguments dd_ipam {_ W}.
Arguments dd_conflicts {_ W}.

(** [(a ?? null) !== (b ?? null)] *)
Definition differs (a b : option string) : bool := negb (bool_decide (a = b)).
Definition conflict_fields (p : ProposedReservationData) (existing : Reservation) : list ConflictField :=
  (if differs (pd_hostname p) (r_hostname existing) then [FHostname] else []) ++
  (if differs (pd_owner p) (r_owner existing) then [FOwner] else []) ++
  (if differs (pd_projectRef p) (r_projectRef existing) then [FProjectRef] else []).

Definition MERGE_TYPES : list ReservationSourceType := [Vip; DhcpReservation; DhcpLease].
Definition RERAISE_MS : Z := 30 * 24 * 60 * 60 * 1000.

Definition pending_on (rid : string) (c : Conflict) : bool :=
  bool_decide (cf_reservationId c = rid) && bool_decide (cf_status c = CfPending).
(** Settled less than thirty days before [t]. *)
Definition recently_resolved (rid : string) (t : Z) (c : Conflict) : bool :=
  bool_decide (cf_reservationId c = rid) && negb (bool_decide (cf_status c = CfPending)) &&
  bool_decide (cf_sourceType c ∈ MERGE_TYPES) &&
  match cf_resolvedAt c with Some r => t - RERAISE_MS <=? r | None => false end.

Definition resolve (st : ConflictStatus) (by_ : option string) (t : Z) (c : Conflict) : Conflict :=
  mkConflict (cf_reservationId c) (cf_integrationId c) (cf_hostname c) (cf_owner c) (cf_projectRef c) (cf_notes c)
    (cf_sourceType c) (cf_fields c) st by_ (Some t).
(** [conflictData] on an existing row. *)
Definition repropose (integrationId : string) (p : ProposedReservationData) (fields : list ConflictField) (c : Conflict)
  : Conflict :=
  mkConflict (cf_reservationId c) integrationId (pd_hostname p) (pd_owner p) (pd_projectRef p) (pd_notes p)
    (pd_sourceType p) fields (cf_status c) (cf_resolvedBy c) (cf_resolvedAt c).
Definition new_conflict (rid integrationId : string) (p : ProposedReservationData) (fields : list ConflictField) : Conflict :=
  mkConflict rid integrationId (pd_hostname p) (pd_owner p) (pd_projectRef p) (pd_notes p) (pd_sourceType p) fields
    CfPending None None.

(** The first row that satisfies [p], changed by [f]. *)
Fixpoint update_first {A} (p : A → bool) (f : A → A) (l : list A) : list A :=
  match l with [] => [] | x :: l' => if p x then f x :: l' else x :: update_first p f l' end.

Definition dismiss (rid : string) (t : Z) (l : list Conflict) : list Conflict :=
  map_where (pending_on rid) (resolve CfRejected (Some "auto"%string) t) l.

Definition raise_conflict (rid integrationId : string) (p : ProposedReservationData) (existing : Reservation) (t : Z)
    (l : list Conflict) : list Conflict :=
  let fields := conflict_fields p existing in
  if bool_decide (fields = []) then dismiss rid t l
  else if existsb (pending_on rid) l then update_first (pending_on rid) (repropose integrationId p fields) l
  else if bool_decide (pd_sourceType p ∈ MERGE_TYPES) && existsb (recently_resolved rid t) l then l
  else l ++ [new_conflict rid integrationId p fields].

(** ** Settling a conflict *)

(** The row after an accept; [existing] is the row as it was read. *)
Definition fill (blank : option string) (proposed old : option string) : option string :=
  if negb (Js.otruthy blank) && Js.otruthy proposed then proposed else old.
Definition take_field (c : Conflict) (f : ConflictField) (proposed old : option string) : option string :=
  if bool_decide (f ∈ cf_fields c) then proposed else old.
Definition is_merge (existing : Reservation) : bool := negb (bool_decide (r_sourceType existing = Manual)).
Definition accepted_row (c : Conflict) (existing x : Reservation) : Reservation :=
  let pick f sel old := if is_merge existing then fill (old existing) (sel c) (old x) else take_field c f (sel c) (old x) in
  mkReservation (r_id x) (r_subnetId x) (r_ipAddress x)
    (pick FHostname cf_hostname r_hostname) (pick FOwner cf_owner r_owner) (pick FProjectRef cf_projectRef r_projectRef)
    (r_expiresAt x) (pick FNotes cf_notes r_notes) (r_status x)
    (if is_merge existing then Vip else cf_sourceType c)
    (r_createdBy x) (r_macAddress x) (r_push x) (r_stale x) (r_createdAt x) (r_vipInfo x).
(** [Object.keys(updateData).length > 0] *)
Definition accept_writes (c : Conflict) (existing : Reservation) : bool :=
  if is_merge existing then
    (negb (Js.otruthy (r_hostname existing)) && Js.otruthy (cf_hostname c)) ||
    (negb (Js.otruthy (r_owner existing)) && Js.otruthy (cf_owner c)) ||
    (negb (Js.otruthy (r_projectRef existing)) && Js.otruthy (cf_projectRef c)) ||
    (negb (Js.otruthy (r_notes existing)) && Js.otruthy (cf_notes c)) ||
    negb (bool_decide (r_sourceType existing = Vip))
  else true.

(** Who may settle the conflict of a reservation. *)
Definition canResolve (may_write : bool) (roleName : option string) : bool :=
  may_write && negb (bool_decide (roleName = Some "assetsadmin"%string)).

Record ConflictCaller := mkCaller { cc_may_write : bool; cc_role : option string; cc_username : option string }.

Section conflicts.
Context `{IpamStore} `{Net W}.
Notation St := (State W).
Notation Db := (SyncDb W).

Definition on_dd {A} (m : M St A) : M Db A := λ s,
  let '(s', r) := m (dd_ipam s) in (mkSyncDb s' (dd_conflicts s), r).
Definition set_conflicts (f : list Conflict → list Conflict) : M Db unit :=
  hmodify (λ s, mkSyncDb (dd_ipam s) (f (dd_conflicts s))).

Definition upsertConflict (rid integrationId : string) (p : ProposedReservationData) (existing : Reservation) : M Db unit :=
  let! t := on_dd newDate in
  set_conflicts (raise_conflict rid integrationId p existing t).
Definition dismissConflicts (rid : string) : M Db unit :=
  let! t := on_dd newDate in
  set_conflicts (dismiss rid t).

(** The conflict with its reservation. *)
Definition findConflict (i : nat) : M Db (option (Conflict * Reservation)) :=
  let! s := hget in
  match dd_conflicts s !! i with
  | None => hret None
  | Some c =>
      let! r := on_dd (findReservation (has_id (cf_reservationId c))) in
      hret (match r with Some row => Some (c, row) | None => None end)
  end.

Definition require_pending (caller : ConflictCaller) (i : nat) : M Db (Conflict * Reservation) :=
  let! found := findConflict i in
  match found with
  | None => hthrow (AppError 404 "Conflict not found")
  | Some cr =>
      throw_if (negb (bool_decide (cf_status (fst cr) = CfPending))) (AppError 409 "Conflict is already resolved") ;!
      throw_if (negb (canResolve (cc_may_write caller) (cc_role caller)))
        (AppError 403 "You do not have permission to resolve this conflict") ;!
      hret cr
  end.

Definition acceptReservationConflict (c : Conflict) (existing : Reservation) : M Db unit :=
  (if accept_writes c existing
   then let! _ := on_dd (reservation_update (cf_reservationId c) (accepted_row c existing)) in hret tt
   else hret tt) ;!
  on_dd (logEvent "conflict.accepted" "info" (Some (cf_reservationId c))).
Definition rejectReservationConflict (c : Conflict) : M Db unit :=
  on_dd (logEvent "conflict.rejected" "info" (Some (cf_reservationId c))).

(** POST /conflicts/:id/accept and /reject *)
Definition postAccept (caller : ConflictCaller) (i : nat) : M Db unit :=
  let! cr := require_pending caller i in
  acceptReservationConflict (fst cr) (snd cr) ;!
  let! t := on_dd newDate in
  set_conflicts (alter (resolve CfAccepted (cc_username caller) t) i).
Definition postReject (caller : ConflictCaller) (i : nat) : M Db unit :=
  let! cr := require_pending caller i in
  rejectReservationConflict (fst cr) ;!
  let! t := on_dd newDate in
  set_conflicts (alter (resolve CfRejected (cc_username caller) t) i).
End conflicts.

(** ** One pending conflict per reservation *)

Definition pending_ids (l : list Conflict) : list string :=
  cf_reservationId <$> List.filter (λ c, bool_decide (cf_status c = CfPending)) l.
Definition one_pending (l : list Conflict) : Prop := NoDup (pending_ids l).

Lemma pending_ids_app l k : pending_ids (l ++ k) = pending_ids l ++ pending_ids k.
Proof. unfold pending_ids. by rewrite List.filter_app, fmap_app. Qed.
Lemma pending_ids_elem rid l : rid ∈ pending_ids l ↔ existsb (pending_on rid) l = true.
Proof.
  unfold pending_ids. rewrite list_elem_of_fmap, existsb_exists. setoid_rewrite elem_bfilter. setoid_rewrite <-list_elem_of_In.
  unfold pending_on. setoid_rewrite andb_true_iff. setoid_rewrite bool_decide_eq_true. naive_solver.
Qed.
Lemma pending_update_first p f l :
  (∀ c, cf_reservationId (f c) = cf_reservationId c ∧ cf_status (f c) = cf_status c) →
  pending_ids (update_first p f l) = pending_ids l.
Proof.
  intros Hf. induction l as [|c l IH]; [done|]. simpl. destruct (p c).
  - unfold pending_ids. simpl. destruct (Hf c) as [Hi ->]. destruct (bool_decide _); [|done]. by rewrite !fmap_cons, Hi.
  - unfold pending_ids in *. simpl. destruct (bool_decide _); [|done]. by rewrite !fmap_cons, IH.
Qed.
Lemma pending_on_case rid c : pending_on rid c = String.eqb (cf_reservationId c) rid && bool_decide (cf_status c = CfPending).
Proof.
  unfold pending_on. f_equal. destruct (String.eqb_spec (cf_reservationId c) rid) as [->|Hne].
  - by apply bool_decide_eq_true_2.
  - by apply bool_decide_eq_false_2.
Qed.
Lemma pending_dismiss rid t l : pending_ids (dismiss rid t l) = List.filter (λ i, negb (String.eqb i rid)) (pending_ids l).
Proof.
  unfold dismiss, map_where, pending_ids. induction l as [|c l IH]; [done|]. rewrite fmap_cons. cbn [List.filter].
  rewrite pending_on_case. destruct (bool_decide (cf_status c = CfPending)) eqn:Hs.
  - rewrite andb_true_r, fmap_cons. cbn [List.filter]. destruct (String.eqb (cf_reservationId c) rid) eqn:Hr; simpl.
    + exact IH.
    + rewrite Hs, fmap_cons. by f_equal.
  - rewrite andb_false_r, Hs. exact IH.
Qed.
Lemma raise_one_pending rid i p e t l : one_pending l → one_pending (raise_conflict rid i p e t l).
Proof.
  intros Hl. unfold raise_conflict, one_pending. destruct (bool_decide _).
  { rewrite pending_dismiss. by apply NoDup_bfilter. }
  destruct (existsb (pending_on rid) l) eqn:Hex; [by rewrite pending_update_first|].
  destruct (_ && _); [done|]. rewrite pending_ids_app, NoDup_app. split_and!; [done| |repeat constructor; set_solver].
  intros x Hx. intros Hin. apply list_elem_of_singleton in Hin as ->. apply pending_ids_elem in Hx. simpl in Hx. congruence.
Qed.
Lemma resolve_one_pending st by_ t i l : st ≠ CfPending → one_pending l → one_pending (alter (resolve st by_ t) i l).
Proof.
  intros Hst. unfold one_pending. revert i. induction l as [|c l IH]; intros [|i] Hl; [done|done| |].
  - unfold pending_ids in *. simpl in *. rewrite (bool_decide_eq_false_2 (st = CfPending)) by done.
    destruct (bool_decide _); [|done]. by apply NoDup_cons in Hl as [_ Hl].
  - change (alter (resolve st by_ t) (S i) (c :: l)) with (c :: alter (resolve st by_ t) i l).
    unfold pending_ids in *. simpl in *. destruct (bool_decide _); [|by apply IH].
    rewrite !fmap_cons in *. apply NoDup_cons in Hl as [Hc Hl]. apply NoDup_cons. split; [|by apply IH].
    intros Hin. apply Hc. clear -Hin Hst. revert i Hin. induction l as [|c' l IH]; intros [|i] Hin; [done|done| |].
    + simpl in *. rewrite (bool_decide_eq_false_2 (st = CfPending)) in Hin by done.
      destruct (bool_decide _); [|done]. rewrite fmap_cons. by right.
    + change (alter (resolve st by_ t) (S i) (c' :: l)) with (c' :: alter (resolve st by_ t) i l) in Hin.
      simpl in *. destruct (bool_decide _); [|by eapply IH].
      rewrite fmap_cons in *. apply elem_of_cons in Hin as [->|Hin]; [by left|]. right. by eapply IH.
Qed.
Lemma dismiss_one_pending rid t l : one_pending l → one_pending (dismiss rid t l).
Proof. intros Hl. unfold one_pending. rewrite pending_dismiss. by apply NoDup_bfilter. Qed.

(** ** What an accept does *)

(** The proposal a conflict records. *)
Definition proposes (p : ProposedReservationData) (c : Conflict) : Prop :=
  cf_hostname c = pd_hostname p ∧ cf_owner c = pd_owner p ∧ cf_projectRef c = pd_projectRef p.
(** A field that is filled in keeps its value. *)
Definition keeps_filled (old new : option string) : Prop := Js.otruthy old = true → new = old.

Lemma differs_same a : differs a a = false.
Proof. unfold differs. by rewrite bool_decide_eq_true_2. Qed.
Lemma take_field_settles p c x f sel new old :
  (f ∈ conflict_fields p x ↔ differs new old = true) → cf_fields c = conflict_fields p x → sel = new →
  differs new (take_field c f sel old) = false.
Proof.
  intros Hf Hc ->. unfold take_field. rewrite Hc. destruct (bool_decide _) eqn:Hin; [apply differs_same|].
  apply bool_decide_eq_false in Hin. apply not_true_iff_false. by rewrite <-Hf.
Qed.
Lemma accepted_settled p c x :
  r_sourceType x = Manual → proposes p c → cf_fields c = conflict_fields p x → conflict_fields p (accepted_row c x x) = [].
Proof.
  intros Hm (Hh & Ho & Hp) Hc. unfold conflict_fields at 1, accepted_row, is_merge. rewrite Hm. simpl.
  rewrite !(take_field_settles p c x); try done.
  all: unfold conflict_fields; rewrite !elem_of_app; repeat case_match; set_solver.
Qed.
Lemma fill_keeps old proposed : keeps_filled old (fill old proposed old).
Proof. unfold keeps_filled, fill. by intros ->. Qed.
Lemma accepted_merge c x :
  r_sourceType x ≠ Manual → r_sourceType (accepted_row c x x) = Vip ∧
    keeps_filled (r_hostname x) (r_hostname (accepted_row c x x)) ∧ keeps_filled (r_owner x) (r_owner (accepted_row c x x)) ∧
    keeps_filled (r_projectRef x) (r_projectRef (accepted_row c x x)) ∧ keeps_filled (r_notes x) (r_notes (accepted_row c x x)).
Proof.
  intros Hm. unfold accepted_row, is_merge. rewrite (bool_decide_eq_false_2 (r_sourceType x = Manual)) by done.
  simpl. split_and!; [done|apply fill_keeps..].
Qed.
Lemma accept_nothing c x : accept_writes c x = false → accepted_row c x x = x.
Proof.
  unfold accept_writes, accepted_row. destruct (is_merge x) eqn:Hm; [|done].
  rewrite !orb_false_iff, negb_false_iff, bool_decide_eq_true. intros [[[[Hh Ho] Hp] Hn] Hs].
  unfold fill. rewrite Hh, Ho, Hp, Hn. destruct x; simpl in *. by subst.
Qed.

Section conflict_claims.
Context `{NetmaskLib, IpamStoreLaws, PushRule} `{Net W}.
Notation St := (State W).
Notation Db := (SyncDb W).
Implicit Types (s : St) (x : Reservation).

Lemma same_key_accepted c e : same_key (accepted_row c e).
Proof. done. Qed.
Lemma keeps_push_accepted c e : keeps_push (accepted_row c e).
Proof. by intros r Hr. Qed.

(** The pending conflict [i] with its reservation, as the handlers look it up. *)
Definition conflict_at s (l : list Conflict) (i : nat) : option (Conflict * Reservation) :=
  match l !! i with
  | None => None
  | Some c => match List.find (has_id (cf_reservationId c)) (reservation_rows s) with Some x => Some (c, x) | None => None end
  end.

Lemma require_pending_run caller i s l :
  require_pending caller i (mkSyncDb s l) =
    (mkSyncDb s l, match conflict_at s l i with
                   | None => Throw (AppError 404 "Conflict not found")
                   | Some (c, x) =>
                       if negb (bool_decide (cf_status c = CfPending)) then Throw (AppError 409 "Conflict is already resolved")
                       else if negb (canResolve (cc_may_write caller) (cc_role caller))
                       then Throw (AppError 403 "You do not have permission to resolve this conflict")
                       else Ok (c, x)
                   end).
Proof.
  unfold require_pending, findConflict, conflict_at, hbind, hget, on_dd, findReservation, hgets, hguard. simpl.
  destruct (l !! i) as [c|]; [|done]. simpl. destruct (List.find _ _) as [x|]; [|done]. simpl.
  destruct (bool_decide _); [|done]. simpl. by destruct (canResolve _ _).
Qed.

(** C17: POST /conflicts/:id/accept refuses an unknown or settled conflict and a
    caller without the right, and changes nothing then.  Otherwise it always
    completes: it settles this conflict, rewrites its reservation and no other
    row.  A manual reservation then agrees with the proposal, so that the next
    discovery with the same values raises nothing; any other reservation becomes
    a VIP and keeps every field that was filled in. *)
Theorem postAccept_correct caller i s l :
  res_ok s →
  match conflict_at s l i with
  | None => postAccept caller i (mkSyncDb s l) = (mkSyncDb s l, Throw (AppError 404 "Conflict not found"))
  | Some (c, x) =>
      match postAccept caller i (mkSyncDb s l) with
      | (d, Throw e) => d = mkSyncDb s l ∧
          (cf_status c ≠ CfPending ∧ (∃ m, e = AppError 409 m) ∨
           cf_status c = CfPending ∧ canResolve (cc_may_write caller) (cc_role caller) = false ∧ ∃ m, e = AppError 403 m)
      | (d, Ok _) =>
          cf_status c = CfPending ∧ canResolve (cc_may_write caller) (cc_role caller) = true ∧
          res_ok (dd_ipam d) ∧ subnets (dd_ipam d) = subnets s ∧ ipBlocks (dd_ipam d) = ipBlocks s ∧
          dd_conflicts d = alter (resolve CfAccepted (cc_username caller) (now (world s))) i l ∧
          reservation_rows (dd_ipam d) ≡ₚ map_where (has_id (r_id x)) (accepted_row c x) (reservation_rows s) ∧
          (r_sourceType x = Manual → ∀ p t integrationId, proposes p c → cf_fields c = conflict_fields p x →
             raise_conflict (r_id x) integrationId p (accepted_row c x x) t (dd_conflicts d) =
               dismiss (r_id x) t (dd_conflicts d)) ∧
          (r_sourceType x ≠ Manual → r_sourceType (accepted_row c x x) = Vip ∧
             keeps_filled (r_hostname x) (r_hostname (accepted_row c x x)) ∧
             keeps_filled (r_owner x) (r_owner (accepted_row c x x)) ∧
             keeps_filled (r_projectRef x) (r_projectRef (accepted_row c x x)) ∧
             keeps_filled (r_notes x) (r_notes (accepted_row c x x)))
      end
  end.
Proof.
  intros Hok. pose proof (require_pending_run caller i s l) as Hreq.
  destruct (conflict_at s l i) as [[c x]|] eqn:Hat; unfold postAccept, hbind at 1; rewrite Hreq; [|done].
  assert (x ∈ reservation_rows s ∧ r_id x = cf_reservationId c) as [Hx Hid].
  { unfold conflict_at in Hat. destruct (l !! i); [|done]. destruct (List.find _ _) eqn:Hf; [|done].
    apply find_some_iff in Hf as [? Hh]. injection Hat as -> ->. by apply bool_decide_eq_true in Hh. }
  destruct (bool_decide (cf_status c = CfPending)) eqn:Hst; simpl; [apply bool_decide_eq_true in Hst|].
  2:{ apply bool_decide_eq_false in Hst. eauto. }
  destruct (canResolve _ _) eqn:Hcan; simpl; [|split; [done|right; eauto]].
  pose proof (update_same_key (cf_reservationId c) (accepted_row c x) s (same_key_accepted c x) Hok) as Hu.
  pose proof (keeps_update (cf_reservationId c) (accepted_row c x) (same_key_accepted c x) (keeps_push_accepted c x) s) as Hk.
  assert (r_sourceType x = Manual → ∀ p t ii k, proposes p c → cf_fields c = conflict_fields p x →
     raise_conflict (r_id x) ii p (accepted_row c x x) t k = dismiss (r_id x) t k) as Hman.
  { intros Hm p t ii k Hp Hc. unfold raise_conflict. rewrite (accepted_settled p c x Hm Hp Hc). by rewrite bool_decide_eq_true_2. }
  pose proof (accepted_merge c x) as Hmrg.
  unfold acceptReservationConflict. simpl. destruct (accept_writes c x) eqn:Hw.
  - unfold hbind, on_dd. simpl. destruct (reservation_update _ _ s) as [s1 [y|e]] eqn:Hrun.
    + destruct Hu as (t & -> & _ & _ & Hrows). simpl. split_and!; try done.
      * eapply res_ok_same_tables; [|by apply (Hk _ _ Hok eq_refl)]. done.
      * by rewrite Hid.
      * intros Hm p t' ii. by apply Hman.
    + destruct Hu as (_ & _ & Hno). exfalso. apply Hno. rewrite <-Hid. by apply (list_elem_of_fmap_2 r_id).
  - unfold hbind, on_dd. simpl. split_and!; try done.
    + by eapply res_ok_same_tables; [|exact Hok].
    + assert (map_where (has_id (r_id x)) (accepted_row c x) (reservation_rows s) = reservation_rows s) as ->; [|done].
      unfold map_where. rewrite (fmap_ext_elem _ (λ y, y)), list_fmap_id; [done|]. intros y Hy.
      unfold has_id. destruct (bool_decide _) eqn:Hy'; [|done]. apply bool_decide_eq_true in Hy'.
      assert (y = x) as ->; [|by apply accept_nothing].
      apply (rows_ok_id (reservation_rows s)); [apply Hok|done..].
    + intros Hm p t' ii. by apply Hman.
Qed.

Lemma postAccept_keeps caller i s l d r :
  res_ok s → postAccept caller i (mkSyncDb s l) = (d, r) →
  res_ok (dd_ipam d) ∧ subnets (dd_ipam d) = subnets s ∧ ipBlocks (dd_ipam d) = ipBlocks s.
Proof.
  intros Hok. unfold postAccept, acceptReservationConflict, hbind at 1. rewrite require_pending_run.
  destruct (match conflict_at s l i with None => _ | Some _ => _ end) as [[c x]|e]; [|by intros [= <- _]].
  simpl. destruct (accept_writes c x); unfold hbind, on_dd; simpl.
  - pose proof (keeps_update (cf_reservationId c) (accepted_row c x) (same_key_accepted c x) (keeps_push_accepted c x) s) as Hk.
    pose proof (update_same_key (cf_reservationId c) (accepted_row c x) s (same_key_accepted c x) Hok) as Hu.
    destruct (reservation_update _ _ s) as [s1 [y|e]]; simpl.
    + destruct Hu as (t & -> & _). intros [= <- _]. split_and!; [|done..].
      eapply res_ok_same_tables; [|by apply (Hk _ _ Hok eq_refl)]. done.
    + destruct Hu as [-> _]. by intros [= <- _].
  - intros [= <- _]. split_and!; [|done..]. by eapply res_ok_same_tables; [|exact Hok].
Qed.
Lemma postReject_keeps caller i s l d r :
  res_ok s → postReject caller i (mkSyncDb s l) = (d, r) →
  res_ok (dd_ipam d) ∧ subnets (dd_ipam d) = subnets s ∧ ipBlocks (dd_ipam d) = ipBlocks s.
Proof.
  intros Hok. unfold postReject, hbind at 1. rewrite require_pending_run.
  destruct (match conflict_at s l i with None => _ | Some _ => _ end) as [[c x]|e]; intros [= <- _]; [|done].
  split_and!; [|done..]. by eapply res_ok_same_tables; [|exact Hok].
Qed.
End conflict_claims.

(** ** Concrete runs *)

Section conflict_runs.
Definition contested (st : ReservationSourceType) : Reservation :=
  mkReservation "r1" "s1" (Some "10.0.0.20"%string) (Some "printer"%string) None None None None Active st
    None None no_push no_stale 0 None.
Definition proposal (hostname : string) (st : ReservationSourceType) : ProposedReservationData :=
  mkProposed (Some hostname) None None None st.
Definition statuses (l : list Conflict) : list (ConflictStatus * option string * option string) :=
  (λ c, (cf_status c, cf_resolvedBy c, cf_hostname c)) <$> l.

Import RefGate.
#[local] Existing Instances ListStore.store named_rule.

Definition contested_state (st : ReservationSourceType) : State Gate :=
  mkState [] [mkSubnet "s1" "b1" "10.0.0.0/24" "lan" None Available None [] None None None None] [contested st] [] []
    (mkGate [] 1000 None) [].
Definition alice : ConflictCaller := mkCaller true (Some "networkadmin"%string) (Some "alice"%string).

Lemma contested_ok st : res_ok (contested_state st).
Proof.
  split; [split_and!; (split; [|repeat constructor; set_solver]); apply (bool_decide_unpack _); vm_compute; exact I|..].
  - intros r [->|Hr]%elem_of_cons; [done|by apply elem_of_nil in Hr].
  - intros r [->|Hr]%elem_of_cons; [|by apply elem_of_nil in Hr]. eexists. split; [by left|done].
Qed.

(** An accepted proposal for a manual reservation. *)
Lemma postAccept_correct_witness :
  let p := proposal "laptop" DhcpLease in
  let l := raise_conflict "r1" "i1" p (contested Manual) 1000 [] in
  let d := (postAccept alice 0 (mkSyncDb (contested_state Manual) l)).1 in
  r_hostname <$> reservation_rows (dd_ipam d) = [Some "laptop"%string] ∧ res_ok (dd_ipam d) ∧
  (∀ x, x ∈ reservation_rows (dd_ipam d) → raise_conflict "r1" "i1" p x 5000 (dd_conflicts d) =
     dismiss "r1" 5000 (dd_conflicts d)).
Proof.
  split; [vm_compute; reflexivity|].
  pose proof (postAccept_correct alice 0 (contested_state Manual)
    (raise_conflict "r1" "i1" (proposal "laptop" DhcpLease) (contested Manual) 1000 []) (contested_ok Manual)) as Hp.
  simpl in Hp. destruct Hp as (_ & _ & Hok & _ & _ & _ & Hrows & Hman & _). split; [exact Hok|].
  intros x Hx. simpl in Hrows. rewrite Hrows in Hx. apply list_elem_of_singleton in Hx as ->.
  apply (Hman eq_refl (proposal "laptop" DhcpLease) 5000 "i1"%string); [by split_and!|reflexivity].
Defined.

(** A proposal withdrawn by the device counts as settled by an operator: when it
    comes back nothing is raised for thirty days. *)
Theorem withdrawn_proposal_stays_silent :
  let row := contested DhcpReservation in
  let l1 := raise_conflict "r1" "i1" (proposal "web" Vip) row 1000 [] in
  let l2 := raise_conflict "r1" "i1" (proposal "printer" Vip) row 2000 l1 in
  statuses l2 = [(CfRejected, Some "auto", Some "web")]%string ∧
  raise_conflict "r1" "i1" (proposal "web" Vip) row 3000 l2 = l2.
Proof. split; reflexivity. Qed.

(** Once an operator rejected one DHCP proposal for a manual reservation, every
    other one, and every VIP, goes unreported for thirty days. *)
Theorem rejection_silences_other_proposals :
  let row := contested Manual in
  let l1 := raise_conflict "r1" "i1" (proposal "laptop" DhcpLease) row 1000 [] in
  let l2 := alter (resolve CfRejected (Some "alice"%string) 2000) 0%nat l1 in
  statuses l2 = [(CfRejected, Some "alice", Some "laptop")]%string ∧
  raise_conflict "r1" "i1" (proposal "web" Vip) row 3000 l2 = l2 ∧
  statuses (raise_conflict "r1" "i1" (proposal "switch" FortiSwitch) row 3000 l2) =
    [(CfRejected, Some "alice", Some "laptop"); (CfPending, None, Some "switch")]%string.
Proof. split_and!; reflexivity. Qed.
End conflict_runs.
