(* ===== verification/SubnetSync.v ===== *)
(** * Discovered subnets

    Phases 1 and 2 of [syncDhcpSubnets] in
    [src/src/api/routes/integrations.ts]: the subnets a discovery reports are
    matched with the table or created in it, and the subnets of devices that are
    gone are deprecated.  The tables are read once, before phase 1, into an index
    that the phases keep up to date only in part.

    Batched updates run one after the other.  [DhcpSync] has the phases that
    write reservations. *)

From S2P Require Import Prelude Cidr Store Networks Http Push JsColl Reservations Refresh RefreshProofs.

Record DiscoveredSubnet := mkDiscovered {
  ds_cidr : string; ds_name : string; ds_fortigateDevice : string; ds_vlan : option Z }.
Inductive SyncMode := Full | SkipDeprecation | DeprecationOnly | Finalize.

Definition integrationLabel (integrationType : string) : string :=
  if String.eqb integrationType "windowsserver" then "Windows Server"
  else if String.eqb integrationType "fortigate" then "FortiGate" else "FortiManager".

Definition live (x : Subnet) : bool := negb (bool_decide (s_status x = Deprecated)).

Definition discovered_name (e : DiscoveredSubnet) : string :=
  "DHCP: " +:+ ds_name e +:+ " (" +:+ ds_fortigateDevice e +:+ ")".
Definition discovered_purpose (integrationType : string) : string :=
  "Discovered from " +:+ integrationLabel integrationType +:+ " DHCP".
(** [Array.from(new Set(l))] *)
Definition distinct (l : list string) : list string := foldl (λ acc x, sadd x acc) [] l.

(** A subnet without an integration is claimed. *)
Definition first_claim (existing : Subnet) : bool := bool_decide (s_discoveredBy existing = None).
(** The update of a matched row [x]; [existing] is its copy in the index. *)
Definition rediscovered (t : Z) (integrationId integrationType : string) (e : DiscoveredSubnet) (existing x : Subnet)
  : Subnet :=
  let first := first_claim existing in
  mkSubnet (s_id x) (s_blockId x) (s_cidr x)
    (if first then discovered_name e else s_name x)
    (if first && negb (Js.otruthy (s_purpose existing)) then Some (discovered_purpose integrationType) else s_purpose x)
    (if first then Available else s_status x)
    (match ds_vlan e with Some v => Some v | None => s_vlan x end)
    (if first then distinct (s_tags existing ++ ["dhcp-discovered"%string; integrationType]) else s_tags x)
    (Some integrationId) (Some (ds_fortigateDevice e)) (s_createdBy x) (Some t).
Definition discovered_subnet (t : Z) (integrationId integrationType : string) (e : DiscoveredSubnet) (blockId cidr : string)
    (id : string) : Subnet :=
  mkSubnet id blockId cidr (discovered_name e) (Some (discovered_purpose integrationType)) Available (ds_vlan e)
    ["dhcp-discovered"%string; integrationType] (Some integrationId) (Some (ds_fortigateDevice e)) None (Some t).

(** ** The index *)

Record SubnetIndex := mkIndex {
  allSubnets : list Subnet;
  subnetByCidr : JsMap string Subnet;
  siblingsByBlockId : JsMap string (list Subnet);
  blocksSorted : list IpBlock;
}.
Definition add_sibling (x : Subnet) (m : JsMap string (list Subnet)) : JsMap string (list Subnet) :=
  mset (s_blockId x) (default [] (mget (s_blockId x) m) ++ [x]) m.
Definition index_subnet (idx : JsMap string Subnet * JsMap string (list Subnet)) (x : Subnet)
  : JsMap string Subnet * JsMap string (list Subnet) :=
  if live x then (mset (s_cidr x) x idx.1, add_sibling x idx.2) else idx.

(** [parseInt(cidr.split("/")[1], 10)], longest prefix first. *)
Definition block_prefix (b : IpBlock) : option Z := nth_error (Js.split "/" (b_cidr b)) 1 ≫= Js.parseInt.
Definition block_leb (a b : IpBlock) : bool :=
  match block_prefix a, block_prefix b with Some x, Some y => y <=? x | _, _ => true end.

Definition build_index (blocks : list IpBlock) (subs : list Subnet) : SubnetIndex :=
  let maps := foldl index_subnet ([], []) subs in
  mkIndex subs maps.1 maps.2 (sort_by block_leb blocks).
Definition findParentBlock `{NetmaskLib} (idx : SubnetIndex) (cidr : string) : option IpBlock :=
  List.find (λ b, cidrContains (b_cidr b) cidr) (blocksSorted idx).
Definition index_created (x : Subnet) (idx : SubnetIndex) : SubnetIndex :=
  mkIndex (allSubnets idx ++ [x]) (mset (s_cidr x) x (subnetByCidr idx)) (add_sibling x (siblingsByBlockId idx))
    (blocksSorted idx).

(** ** The phases *)

Record Phase1 := mkPhase1 {
  p1_index : SubnetIndex;
  p1_updates : list (string * (Subnet → Subnet));
  p1_claimed : list string;
  p1_created : list string;
  p1_updated : list string;
  p1_skipped : list string;
}.
Record SyncResult := mkSyncResult {
  sy_created : list string; sy_updated : list string; sy_skipped : list string; sy_deprecated : list string }.

Definition skip (why : string) (p : Phase1) : Phase1 :=
  mkPhase1 (p1_index p) (p1_updates p) (p1_claimed p) (p1_created p) (p1_updated p) (p1_skipped p ++ [why]).

Section sync.
Context `{NetmaskLib, IpamStore} `{Net W}.
Notation St := (State W).

Definition subnet_updateMany (p : Subnet → bool) (f : Subnet → Subnet) : M St nat :=
  on_table subnets set_subnets (λ t, t_updateMany t p f).

Definition load_index : M St SubnetIndex := hgets (λ s, build_index (block_rows s) (subnet_rows s)).

(** One discovered subnet. *)
Definition sync_entry (integrationId integrationType : string) (e : DiscoveredSubnet) (p : Phase1) : M St Phase1 :=
  match normalizeCidr (ds_cidr e) with
  | Throw _ => hret (skip (ds_cidr e +:+ " (invalid CIDR)") p)
  | Ok cidr =>
      let idx := p1_index p in
      match mget cidr (subnetByCidr idx) with
      | Some existing =>
          let! t := newDate in
          hret (mkPhase1 idx (p1_updates p ++ [(s_id existing, rediscovered t integrationId integrationType e existing)])
            (if first_claim existing then p1_claimed p ++ [s_id existing] else p1_claimed p)
            (p1_created p) (p1_updated p ++ [cidr]) (p1_skipped p))
      | None =>
          match findParentBlock idx cidr with
          | None => hret (skip (cidr +:+ " (no matching parent block)") p)
          | Some block =>
              match List.find (λ x, cidrOverlaps (s_cidr x) cidr) (default [] (mget (b_id block) (siblingsByBlockId idx))) with
              | Some overlap => hret (skip (cidr +:+ " (overlaps " +:+ s_cidr overlap +:+ ")") p)
              | None =>
                  hcatch
                    (let! t := newDate in
                     let! x := subnet_create (discovered_subnet t integrationId integrationType e (b_id block) cidr) in
                     hret (mkPhase1 (index_created x idx) (p1_updates p) (p1_claimed p) (p1_created p ++ [cidr])
                       (p1_updated p) (p1_skipped p)))
                    (λ _, logEvent "integration.sync" "error" (Some integrationId) ;!
                          hret (skip (cidr +:+ " (create failed)") p))
              end
          end
      end
  end.
Fixpoint sync_entries (integrationId integrationType : string) (l : list DiscoveredSubnet) (p : Phase1) : M St Phase1 :=
  match l with
  | [] => hret p
  | e :: l' => let! p' := sync_entry integrationId integrationType e p in sync_entries integrationId integrationType l' p'
  end.

(** [batchSettled]: a failed update is ignored. *)
Fixpoint apply_updates (l : list (string * (Subnet → Subnet))) : M St unit :=
  match l with
  | [] => hret tt
  | u :: l' => hcatch (let! _ := subnet_update u.1 u.2 in hret tt) (λ _, hret tt) ;! apply_updates l'
  end.
Fixpoint log_each (action : string) (ids : list string) : M St unit :=
  match ids with [] => hret tt | id :: ids' => logEvent action "info" (Some id) ;! log_each action ids' end.

Definition phase1 (integrationId integrationType : string) (entries : list DiscoveredSubnet) (idx : SubnetIndex)
  : M St Phase1 :=
  let! p := sync_entries integrationId integrationType entries (mkPhase1 idx [] [] [] [] []) in
  apply_updates (p1_updates p) ;!
  log_each "subnet.claimed" (p1_claimed p) ;!
  hret p.

(** A subnet whose device is no longer configured; the names include those of
    the members of clusters. *)
Definition gone_device (integrationId : string) (knownDeviceNames : list string) (x : Subnet) : bool :=
  bool_decide (s_discoveredBy x = Some integrationId) && live x &&
  Js.otruthy (s_fortigateDevice x) && negb (bool_decide (default "" (s_fortigateDevice x) ∈ knownDeviceNames)).
Definition phase2 (integrationId : string) (knownDeviceNames : list string) (idx : SubnetIndex) : M St (list string) :=
  if bool_decide (knownDeviceNames = []) then hret []
  else
    let stale := List.filter (gone_device integrationId knownDeviceNames) (allSubnets idx) in
    if bool_decide (stale = []) then hret []
    else
      let! _ := subnet_updateMany (λ x, bool_decide (s_id x ∈ s_id <$> stale)) (set_s_status Deprecated) in
      log_each "subnet.deprecated" (s_id <$> stale) ;!
      hret (s_cidr <$> stale).

(** With the index of the tables. *)
Definition sync_with (idx : SubnetIndex) (mode : SyncMode) (integrationId integrationType : string)
    (entries : list DiscoveredSubnet) (knownDeviceNames : list string) : M St SyncResult :=
  let! p := (match mode with
             | DeprecationOnly | Finalize => hret (mkPhase1 idx [] [] [] [] [])
             | Full | SkipDeprecation => phase1 integrationId integrationType entries idx
             end) in
  let! deprecated := (match mode with
                      | SkipDeprecation => hret []
                      | _ => phase2 integrationId knownDeviceNames (p1_index p)
                      end) in
  hret (mkSyncResult (p1_created p) (p1_updated p) (p1_skipped p) deprecated).
Definition syncDhcpSubnets (mode : SyncMode) (integrationId integrationType : string) (entries : list DiscoveredSubnet)
    (knownDeviceNames : list string) : M St SyncResult :=
  let! idx := load_index in
  sync_with idx mode integrationId integrationType entries knownDeviceNames.
End sync.

(** ** Live subnets stay disjoint *)

Section sync_proofs.
Context `{NetmaskLaws, IpamStoreLaws} `{Net W}.
Notation St := (State W).
Implicit Types (s : St) (x y : Subnet).

(** [net_ok], with the siblings that are deprecated left out of the last
    clause. *)
Record live_ok s : Prop := {
  lo_db : db_ok s;
  lo_block b : b ∈ block_rows s → b_ipVersion b = v4 ∧ ∃ n p, denotes (b_cidr b) n p;
  lo_within x : x ∈ subnet_rows s →
    ∃ b, b ∈ block_rows s ∧ b_id b = s_blockId x ∧ ∀ a, covers (s_cidr x) a → covers (b_cidr b) a;
  lo_disjoint x y a : x ∈ subnet_rows s → y ∈ subnet_rows s → live x = true → live y = true →
    s_blockId x = s_blockId y → s_id x ≠ s_id y → covers (s_cidr x) a → ¬ covers (s_cidr y) a;
}.
Lemma net_ok_live s : net_ok s → live_ok s.
Proof. intros Hok. split; [apply Hok..|]. intros x y a ? ? _ _. by apply Hok. Qed.

(** A row that changed in place and was not revived. *)
Definition aged (x x' : Subnet) : Prop := same_net x x' ∧ (live x' = true → live x = true).
Lemma live_ok_aged s t :
  live_ok s → db_ok (set_subnets t s) → (∀ x', x' ∈ rows t → ∃ x, x ∈ subnet_rows s ∧ aged x x') →
  live_ok (set_subnets t s).
Proof.
  intros Hok Hdb Hx. split; [done|apply Hok|..].
  - intros x' (x & Hin & (_ & -> & ->) & _)%Hx. by apply Hok.
  - intros x' y' a Hx' Hy'. destruct (Hx _ Hx') as (x & ? & (-> & -> & ->) & Hl).
    destruct (Hx _ Hy') as (y & ? & (-> & -> & ->) & Hl'). intros ? ?. by apply Hok; auto.
Qed.
Lemma live_ok_add s t x b :
  live_ok s → db_ok (set_subnets t s) → rows t ≡ₚ x :: subnet_rows s →
  b ∈ block_rows s → b_id b = s_blockId x → (∀ a, covers (s_cidr x) a → covers (b_cidr b) a) →
  (∀ y a, y ∈ subnet_rows s → live y = true → s_blockId y = s_blockId x → covers (s_cidr y) a → ¬ covers (s_cidr x) a) →
  live_ok (set_subnets t s).
Proof.
  intros Hok Hdb Ht Hb Hid Hin Hdis.
  assert (∀ y, y ∈ subnet_rows (set_subnets t s) ↔ y = x ∨ y ∈ subnet_rows s) as Hrows.
  { intros y. unfold subnet_rows at 1. simpl. by rewrite Ht, elem_of_cons. }
  split; [done|apply Hok|..].
  - intros y [->|Hy]%Hrows; [by exists b|]. by apply Hok.
  - intros y z a [->|Hy]%Hrows [->|Hz]%Hrows Hly Hlz Hbl Hne Hc Hc'; [done|..].
    + by apply (Hdis z a).
    + by apply (Hdis y a).
    + exact (lo_disjoint _ Hok y z a Hy Hz Hly Hlz Hbl Hne Hc Hc').
Qed.

(** *** The index *)

Record index_ok (blocks : list IpBlock) (subs : list Subnet) (idx : SubnetIndex) : Prop := {
  ix_all : subs ≡ₚ allSubnets idx;
  ix_cidr c x : mget c (subnetByCidr idx) = Some x → x ∈ allSubnets idx ∧ live x = true ∧ s_cidr x = c;
  ix_sib x : x ∈ allSubnets idx → live x = true →
    ∃ l, mget (s_blockId x) (siblingsByBlockId idx) = Some l ∧ x ∈ l;
  ix_blocks b : b ∈ blocksSorted idx → b ∈ blocks;
}.

Lemma sibling_found x y m :
  (x = y ∨ ∃ l, mget (s_blockId x) m = Some l ∧ x ∈ l) → ∃ l, mget (s_blockId x) (add_sibling y m) = Some l ∧ x ∈ l.
Proof.
  unfold add_sibling. intros [->|(l & Hl & Hx)].
  - rewrite mget_mset_eq. eexists. split; [done|]. set_solver.
  - destruct (decide (s_blockId x = s_blockId y)) as [He|He].
    + rewrite He, mget_mset_eq. eexists. split; [done|]. rewrite He in Hl. rewrite Hl. set_solver.
    + rewrite mget_mset_ne by done. eauto.
Qed.
Lemma index_subnets_ok subs l (idx : JsMap string Subnet * JsMap string (list Subnet)) :
  (∀ c x, mget c idx.1 = Some x → x ∈ l ∧ live x = true ∧ s_cidr x = c) →
  (∀ x, x ∈ l → live x = true → ∃ k, mget (s_blockId x) idx.2 = Some k ∧ x ∈ k) →
  let idx' := foldl index_subnet idx subs in
  (∀ c x, mget c idx'.1 = Some x → x ∈ l ++ subs ∧ live x = true ∧ s_cidr x = c) ∧
  (∀ x, x ∈ l ++ subs → live x = true → ∃ k, mget (s_blockId x) idx'.2 = Some k ∧ x ∈ k).
Proof.
  revert l idx. induction subs as [|y subs IH]; intros l idx Q1 Q2; simpl.
  { rewrite app_nil_r. done. }
  specialize (IH (l ++ [y]) (index_subnet idx y)). rewrite <-app_assoc in IH. apply IH; unfold index_subnet.
  - intros c x. destruct (live y) eqn:Hl; simpl.
    + rewrite mget_mset. destruct (decide (c = s_cidr y)) as [->|].
      * intros [= <-]. set_solver.
      * intros (? & ? & ?)%Q1. set_solver.
    + intros (? & ? & ?)%Q1. set_solver.
  - intros x Hx Hlx. rewrite elem_of_app, list_elem_of_singleton in Hx. destruct (live y) eqn:Hl; simpl.
    + apply sibling_found. destruct Hx as [Hx|Hx]; [right; by apply Q2|by left].
    + destruct Hx as [Hx| ->]; [by apply Q2|congruence].
Qed.
Lemma build_index_ok blocks subs : index_ok blocks subs (build_index blocks subs).
Proof.
  destruct (index_subnets_ok subs [] ([], [])) as [Q1 Q2]; [done|intros x Hx; by apply elem_of_nil in Hx|].
  split; simpl; [done|done|done|]. intros b. by rewrite (sort_by_perm block_leb).
Qed.
Lemma index_created_ok blocks subs idx x :
  index_ok blocks subs idx → live x = true → index_ok blocks (x :: subs) (index_created x idx).
Proof.
  intros [Q1 Q2 Q3 Q4] Hl. split; simpl; [|intros c y|intros y|done].
  - by rewrite Q1, <-Permutation_cons_append.
  - rewrite mget_mset. destruct (decide (c = s_cidr x)) as [->|].
    + intros [= <-]. set_solver.
    + intros (? & ? & ?)%Q2. set_solver.
  - rewrite elem_of_app, list_elem_of_singleton. intros Hy Hly. apply sibling_found.
    destruct Hy as [Hy|Hy]; [right; by apply Q3|by left].
Qed.

(** *** Phase 1 *)

(** The state of the loop: the index describes the table, and every queued
    update is of a live row and keeps its id, its block, its CIDR and its life. *)
Record loop_ok s (p : Phase1) : Prop := {
  lp_live : live_ok s;
  lp_index : index_ok (block_rows s) (subnet_rows s) (p1_index p);
  lp_updates u : u ∈ p1_updates p →
    (∃ x, x ∈ subnet_rows s ∧ s_id x = u.1 ∧ live x = true) ∧
    ∀ x, same_net x (u.2 x) ∧ (live x = true → live (u.2 x) = true);
}.
(** Old rows stay, new rows are live. *)
Definition grown (n : nat) s s' : Prop :=
  ∃ news, length news = n ∧ subnet_rows s' ≡ₚ news ++ subnet_rows s ∧ Forall (λ x, live x = true) news ∧
    block_rows s' = block_rows s ∧ reservation_rows s' = reservation_rows s ∧ world s' = world s.
Lemma grown_refl s : grown 0 s s.
Proof. by exists []. Qed.
Lemma grown_trans n1 n2 s1 s2 s3 : grown n1 s1 s2 → grown n2 s2 s3 → grown (n2 + n1) s1 s3.
Proof.
  intros (k1 & L1 & Q1 & F1 & B1 & R1 & W1) (k2 & L2 & Q2 & F2 & B2 & R2 & W2). exists (k2 ++ k1).
  split_and!; [rewrite length_app; congruence|by rewrite Q2, Q1, app_assoc|by apply Forall_app|congruence..].
Qed.

Lemma rediscovered_keeps t i ty e existing x :
  same_net x (rediscovered t i ty e existing x) ∧ (live x = true → live (rediscovered t i ty e existing x) = true).
Proof. split; [done|]. unfold live, rediscovered. simpl. by destruct (first_claim existing). Qed.

(** The entries are all accounted for. *)
Definition accounted (p : Phase1) : nat := length (p1_created p) + length (p1_updated p) + length (p1_skipped p).

Lemma sync_entry_ok i ty e p s :
  loop_ok s p →
  ∃ s' p' n, sync_entry i ty e p s = (s', Ok p') ∧ loop_ok s' p' ∧ grown n s s' ∧
    length (p1_created p') = (n + length (p1_created p))%nat ∧ accounted p' = S (accounted p).
Proof.
  intros [Hl Hix Hu]. unfold sync_entry.
  assert (∀ why, ∃ s' p' n, (s, @Ok Phase1 (skip why p)) = (s', Ok p') ∧ loop_ok s' p' ∧ grown n s s' ∧
    length (p1_created p') = (n + length (p1_created p))%nat ∧ accounted p' = S (accounted p)) as Hskip.
  { intros why. exists s, (skip why p), 0%nat. split_and!; [done|by split|apply grown_refl|done|].
    unfold accounted, skip. simpl. rewrite length_app. simpl. lia. }
  destruct (normalizeCidr (ds_cidr e)) as [cidr|ex] eqn:Hc; [|apply Hskip].
  destruct (mget cidr (subnetByCidr (p1_index p))) as [existing|] eqn:Hm.
  - destruct (ix_cidr _ _ _ Hix _ _ Hm) as (Hin & Hle & _). eexists s, _, 0%nat. split; [reflexivity|]. split_and!.
    + split; [done|done|]. simpl. intros u [Hin'|Hin']%elem_of_app; [by apply Hu|].
      apply list_elem_of_singleton in Hin' as ->. simpl. split; [exists existing; by rewrite (ix_all _ _ _ Hix)|].
      intros x. apply rediscovered_keeps.
    + apply grown_refl.
    + done.
    + unfold accounted. simpl. rewrite length_app. simpl. lia.
  - unfold findParentBlock. destruct (List.find _ (blocksSorted _)) as [block|] eqn:Hb; [|apply Hskip].
    apply find_some_iff in Hb as [Hb Hcon]. apply (ix_blocks _ _ _ Hix) in Hb.
    destruct (List.find _ (default [] _)) as [o|] eqn:Hf; [apply Hskip|].
    rewrite find_none_iff in Hf.
    set (f := discovered_subnet (now (world s)) i ty e (b_id block) cidr).
    destruct (subnet_create_spec f s) as (t & id & Hcr & Hdb & Hfr & Ht); [done|apply Hl|].
    exists (set_subnets t s). eexists _, 1%nat. split.
    { unfold hcatch, hbind, newDate, hgets. fold f. rewrite Hcr. reflexivity. }
    split_and!.
    + split.
      * apply (live_ok_add s t (f id) block); try done; [by apply cidrContains_true|].
        intros y a Hy Hly Hbl Hya Hxa.
        rewrite (ix_all _ _ _ Hix) in Hy. destruct (ix_sib _ _ _ Hix y Hy Hly) as (l & Hg & Hyl).
        rewrite Hbl in Hg. specialize (Hf y). simpl in Hg. rewrite Hg in Hf. specialize (Hf Hyl).
        apply not_true_iff_false in Hf. apply Hf, cidrOverlaps_spec. eauto.
      * simpl. destruct (index_created_ok _ _ _ (f id) Hix eq_refl) as [Q1 Q2 Q3 Q4].
        split; [|done|done|done]. unfold subnet_rows. simpl. by rewrite Ht.
      * simpl. intros u Hu'. destruct (Hu u Hu') as [(x & Hx & Hid & Hlx) Hk]. split; [|done].
        exists x. split; [|done]. unfold subnet_rows. simpl. rewrite Ht. by right.
    + exists [f id]. split_and!; try done. by constructor.
    + simpl. rewrite length_app. simpl. lia.
    + unfold accounted. simpl. rewrite length_app. simpl. lia.
Qed.
Lemma sync_entries_ok i ty l p s :
  loop_ok s p →
  ∃ s' p' n, sync_entries i ty l p s = (s', Ok p') ∧ loop_ok s' p' ∧ grown n s s' ∧
    length (p1_created p') = (n + length (p1_created p))%nat ∧ accounted p' = (length l + accounted p)%nat.
Proof.
  revert p s. induction l as [|e l IH]; intros p s Hok.
  { exists s, p, 0%nat. split_and!; [done..|apply grown_refl|done|done]. }
  simpl. destruct (sync_entry_ok i ty e p s Hok) as (s1 & p1 & n1 & Hrun & Hok1 & Hg1 & Hc1 & Ha1).
  destruct (IH p1 s1 Hok1) as (s2 & p2 & n2 & Hrun2 & Hok2 & Hg2 & Hc2 & Ha2). exists s2, p2, (n2 + n1)%nat.
  split_and!; [by unfold hbind; rewrite Hrun|done|by eapply grown_trans| |]; [rewrite Hc2, Hc1|rewrite Ha2, Ha1]; lia.
Qed.

(** *** The updates, the log and phase 2 *)

Lemma subnet_rows_ok (g : Subnet → Subnet) (l : list Subnet) : (∀ x, s_id (g x) = s_id x) → rows_ok l → rows_ok (g <$> l).
Proof.
  intros Hg [Hnd _]. split.
  - rewrite <-list_fmap_compose. erewrite list_fmap_ext; [exact Hnd|]. intros i x _. apply Hg.
  - induction (g <$> l) as [|x k IH]; constructor; [|done]. by apply Forall_forall.
Qed.

(** The subnet table was rewritten row by row. *)
Definition rewritten s (g : Subnet → Subnet) s' : Prop :=
  subnet_rows s' ≡ₚ g <$> subnet_rows s ∧ block_rows s' = block_rows s ∧ reservation_rows s' = reservation_rows s ∧
  world s' = world s ∧ db_ok s'.

Lemma subnet_updateMany_spec p f s :
  (∀ x, s_id (f x) = s_id x) → db_ok s →
  ∃ s' n, subnet_updateMany p f s = (s', Ok n) ∧ rewritten s (λ x, if p x then f x else x) s'.
Proof.
  intros Hf Hdb. pose proof Hdb as (Hb & Hs & Hr). unfold subnet_updateMany, on_table.
  pose proof (tl_updateMany (subnets s) p f Hf Hs) as Hl. destruct (t_updateMany (subnets s) p f) as [[t n]|e].
  - destruct Hl as (Ht & Hok & _). exists (set_subnets t s), n. by split_and!.
  - destruct Hl as [_ []]. apply (subnet_rows_ok (λ x, if p x then f x else x)); [|done]. intros x. by destruct (p x).
Qed.

Lemma rewritten_live s g s' :
  live_ok s → (∀ x, x ∈ subnet_rows s → aged x (g x)) → rewritten s g s' → live_ok s'.
Proof.
  intros Hok Hg (Hr & Hb & Hres & Hw & Hdb). split; [done|rewrite Hb; apply Hok|..].
  - intros x'. rewrite Hr, Hb. intros (x & -> & Hx)%list_elem_of_fmap. destruct (Hg x Hx) as ((_ & -> & ->) & _). by apply Hok.
  - intros x' y' a. rewrite !Hr. intros (x & -> & Hx)%list_elem_of_fmap (y & -> & Hy)%list_elem_of_fmap Hlx Hly.
    destruct (Hg x Hx) as ((-> & -> & ->) & Hgx). destruct (Hg y Hy) as ((-> & -> & ->) & Hgy). apply Hok; auto.
Qed.

Lemma live_unique s x y : db_ok s → x ∈ subnet_rows s → y ∈ subnet_rows s → s_id x = s_id y → x = y.
Proof. intros (_ & Hs & _) ???. by apply (rows_ok_id (subnet_rows s) x y). Qed.

Lemma apply_updates_ok l s :
  live_ok s →
  (∀ u, u ∈ l → (∃ x, x ∈ subnet_rows s ∧ s_id x = u.1 ∧ live x = true) ∧
     ∀ x, same_net x (u.2 x) ∧ (live x = true → live (u.2 x) = true)) →
  ∃ s' g, apply_updates l s = (s', Ok tt) ∧ rewritten s g s' ∧ audit s' = audit s ∧
    ∀ x, x ∈ subnet_rows s → same_net x (g x) ∧ live (g x) = live x.
Proof.
  revert s. induction l as [|u l IH]; intros s Hok Hu.
  { exists s, (λ x, x). split_and!; try done. split_and!; [by rewrite list_fmap_id|done..|apply Hok]. }
  destruct (Hu u) as [(x0 & Hx0 & Hid0 & Hl0) Hf]; [by left|].
  assert (∀ x, s_id (u.2 x) = s_id x) as Hfid by (intros x; apply (Hf x)).
  pose proof (subnet_update_spec u.1 u.2 s Hfid (lo_db _ Hok)) as Hsp.
  destruct (subnet_update u.1 u.2 s) as [s1 [r|ex]] eqn:Hrun.
  2:{ destruct Hsp as (_ & _ & Hno). exfalso. apply Hno, list_elem_of_fmap. eauto. }
  destruct Hsp as (t & -> & Hdb1 & _ & Hr1).
  set (h := λ x, if has_id u.1 x then u.2 x else x).
  assert (∀ x, x ∈ subnet_rows s → same_net x (h x) ∧ live (h x) = live x) as Hh.
  { intros x Hx. unfold h, has_id. destruct (bool_decide (rid x = u.1)) eqn:Hid; [|done].
    apply bool_decide_eq_true in Hid. split; [apply Hf|]. assert (x = x0) as ->.
    { apply (live_unique s); [apply Hok|done|done|]. simpl in Hid. congruence. }
    rewrite Hl0. by apply Hf. }
  assert (rewritten s h (set_subnets t s)) as Hrw by by split_and!.
  assert (live_ok (set_subnets t s)) as Hok1.
  { eapply rewritten_live; [done| |done]. intros x Hx. destruct (Hh x Hx) as [? Hl]. split; [done|congruence]. }
  destruct (IH _ Hok1) as (s' & g & Hrun' & (Hr' & Hb' & Hres' & Hw' & Hdb') & Hau & Hg).
  { intros u' Hin. destruct (Hu u') as [(x & Hx & Hid & Hl) ?]; [by right|]. split; [|done].
    exists (h x). rewrite Hr1. destruct (Hh x Hx) as [(Hi & _) ->]. split; [by apply list_elem_of_fmap_2|].
    split; [congruence|done]. }
  exists s', (g ∘ h). split_and!.
  - simpl. unfold hbind, hcatch. by rewrite Hrun.
  - split_and!; [|done..]. rewrite Hr', Hr1. unfold map_where. by rewrite <-list_fmap_compose.
  - done.
  - intros x Hx. destruct (Hh x Hx) as ((Hi & Hbl & Hc) & Hl). destruct (Hg (h x)) as ((Hi' & Hbl' & Hc') & Hl').
    { rewrite Hr1. by apply list_elem_of_fmap_2. }
    split; [split_and!; simpl; congruence|simpl; congruence].
Qed.

Lemma log_each_ok action ids s : ∃ a, log_each action ids s = (set_audit a s, Ok tt).
Proof.
  revert s. induction ids as [|id ids IH]; intros s; [exists (audit s); by destruct s|].
  simpl. unfold hbind, logEvent, hmodify. destruct (IH (set_audit (audit s ++ [mkAuditEvent action "info" (Some id)]) s)) as (a & ->).
  by exists a.
Qed.
Lemma rewritten_audit s g s' a : rewritten s g s' → rewritten s g (set_audit a s').
Proof. done. Qed.

(** What phase 2 does to a row. *)
Definition deprecated_row (ids : list string) x : Subnet := if bool_decide (s_id x ∈ ids) then set_s_status Deprecated x else x.
Lemma deprecated_row_aged ids x : aged x (deprecated_row ids x).
Proof. unfold deprecated_row. destruct (bool_decide _); [|done]. by split. Qed.

Lemma phase2_ok i known idx s :
  live_ok s →
  ∃ s' l, phase2 i known idx s = (s', Ok l) ∧
    rewritten s (deprecated_row (if bool_decide (known = []) then [] else
      s_id <$> List.filter (gone_device i known) (allSubnets idx))) s' ∧
    l = (if bool_decide (known = []) then [] else s_cidr <$> List.filter (gone_device i known) (allSubnets idx)).
Proof.
  intros Hok. assert (∀ k, k = [] → rewritten s (deprecated_row k) s) as Hnone.
  { intros k ->. split_and!; [|done..|apply Hok]. rewrite (fmap_ext_elem _ (λ x, x)), list_fmap_id; [done|].
    intros x _. unfold deprecated_row. by rewrite bool_decide_eq_false_2 by set_solver. }
  unfold phase2. destruct (bool_decide (known = [])) eqn:Hk; [exists s, []; by split_and!; [|apply Hnone|]|].
  set (stale := List.filter (gone_device i known) (allSubnets idx)).
  destruct (bool_decide (stale = [])) eqn:Hst.
  { apply bool_decide_eq_true in Hst. exists s, []. rewrite Hst. split_and!; [done|by apply Hnone|done]. }
  destruct (subnet_updateMany_spec (λ x, bool_decide (s_id x ∈ s_id <$> stale)) (set_s_status Deprecated) s) as (s1 & n & Hrun & Hrw);
    [done|apply Hok|].
  destruct (log_each_ok "subnet.deprecated" (s_id <$> stale) s1) as (a & Hlog).
  exists (set_audit a s1), (s_cidr <$> stale). split_and!; [|by apply rewritten_audit|done].
  unfold hbind. by rewrite Hrun, Hlog.
Qed.

(** Phase 2 over the tables as they are. *)
Lemma phase2_fresh i known s :
  live_ok s →
  ∃ s' l g, phase2 i known (build_index (block_rows s) (subnet_rows s)) s = (s', Ok l) ∧ live_ok s' ∧ rewritten s g s' ∧
    (∀ x, x ∈ subnet_rows s → aged x (g x)) ∧
    ∀ x, x ∈ subnet_rows s →
      g x = if negb (bool_decide (known = [])) && gone_device i known x then set_s_status Deprecated x else x.
Proof.
  intros Hok. destruct (phase2_ok i known (build_index (block_rows s) (subnet_rows s)) s Hok) as (s2 & l & Hrun & Hrw & _).
  set (ids := if bool_decide (known = []) then [] else _) in Hrw.
  exists s2, l, (deprecated_row ids). split_and!; [done| |done|intros; apply deprecated_row_aged|].
  { eapply rewritten_live; [done| |done]. intros. apply deprecated_row_aged. }
  intros x Hx. unfold deprecated_row, ids. destruct (bool_decide (known = [])); [by rewrite bool_decide_eq_false_2 by set_solver|].
  simpl. assert (bool_decide (s_id x ∈ s_id <$> List.filter (gone_device i known) (subnet_rows s)) = gone_device i known x) as ->; [|done].
  apply eq_true_iff_eq. rewrite bool_decide_eq_true, list_elem_of_fmap. setoid_rewrite elem_bfilter. split.
  - intros (y & Hid & Hgone & Hy). by rewrite (live_unique s x y (lo_db _ Hok) Hx Hgone Hid) in *.
  - intros. by exists x.
Qed.

(** *** The whole sync *)

Lemma phase1_ok i ty entries s :
  live_ok s →
  ∃ s' p g news, phase1 i ty entries (build_index (block_rows s) (subnet_rows s)) s = (s', Ok p) ∧ live_ok s' ∧
    subnet_rows s' ≡ₚ (g <$> news) ++ (g <$> subnet_rows s) ∧ Forall (λ x, live x = true) (g <$> news) ∧
    (∀ x, x ∈ subnet_rows s → same_net x (g x) ∧ live (g x) = live x) ∧
    block_rows s' = block_rows s ∧ reservation_rows s' = reservation_rows s ∧
    length (p1_created p) = length news ∧ accounted p = length entries.
Proof.
  intros Hok. unfold phase1. set (idx := build_index _ _).
  destruct (sync_entries_ok i ty entries (mkPhase1 idx [] [] [] [] []) s) as (s1 & p & n & Hrun & [Hok1 Hix Hu] & Hgr & Hc & Ha).
  { split; [done|apply build_index_ok|]. intros u Hu. by apply elem_of_nil in Hu. }
  destruct Hgr as (news & <- & Hr1 & Hlive & Hb1 & Hres1 & Hw1).
  destruct (apply_updates_ok (p1_updates p) s1 Hok1 Hu) as (s2 & g & Hrun2 & Hrw & _ & Hg).
  destruct (log_each_ok "subnet.claimed" (p1_claimed p) s2) as (a & Hlog).
  assert (live_ok s2) as Hok2.
  { eapply rewritten_live; [done| |done]. intros x Hx. destruct (Hg x Hx) as [? Hl]. split; [done|congruence]. }
  destruct Hrw as (Hr2 & Hb2 & Hres2 & Hw2 & Hdb2).
  exists (set_audit a s2), p, g, news. split_and!.
  - unfold hbind. by rewrite Hrun, Hrun2, Hlog.
  - split; apply Hok2.
  - change (subnet_rows (set_audit a s2)) with (subnet_rows s2). by rewrite Hr2, Hr1, fmap_app.
  - apply Forall_fmap, Forall_forall. intros x Hx. rewrite Forall_forall in Hlive. simpl.
    destruct (Hg x) as [_ ->]; [rewrite Hr1, elem_of_app; by left|by apply Hlive].
  - intros x Hx. apply Hg. rewrite Hr1, elem_of_app. by right.
  - change (block_rows (set_audit a s2)) with (block_rows s2). congruence.
  - change (reservation_rows (set_audit a s2)) with (reservation_rows s2). congruence.
  - simpl in Hc. lia.
  - unfold accounted in Ha. simpl in Ha. unfold accounted. lia.
Qed.

(** C5: a sync of discovered subnets always returns, keeps the live siblings of
    every block disjoint and inside their block, and accounts for every entry.
    It removes no row, moves none to another block or CIDR and revives none; the
    sync of one device deprecates nothing, and the final pass deprecates exactly
    the live subnets of the integration whose device is not configured any
    more. *)
Theorem sync_keeps_live_network mode i ty entries known s :
  live_ok s →
  ∃ s' res news g, syncDhcpSubnets mode i ty entries known s = (s', Ok res) ∧ live_ok s' ∧
    subnet_rows s' ≡ₚ news ++ (g <$> subnet_rows s) ∧
    (∀ x, x ∈ subnet_rows s → aged x (g x)) ∧
    block_rows s' = block_rows s ∧ reservation_rows s' = reservation_rows s ∧
    length news = length (sy_created res) ∧
    (length (sy_created res) + length (sy_updated res) + length (sy_skipped res))%nat =
      (match mode with Full | SkipDeprecation => length entries | DeprecationOnly | Finalize => 0 end)%nat ∧
    match mode with
    | Full => True
    | SkipDeprecation => Forall (λ x, live x = true) news ∧ ∀ x, x ∈ subnet_rows s → live (g x) = live x
    | DeprecationOnly | Finalize => ∀ x, x ∈ subnet_rows s →
        g x = if negb (bool_decide (known = [])) && gone_device i known x then set_s_status Deprecated x else x
    end.
Proof.
  intros Hok. unfold syncDhcpSubnets, load_index. unfold hbind at 1, hgets. unfold sync_with.
  set (idx := build_index _ _). destruct mode.
  - destruct (phase1_ok i ty entries s Hok) as (s1 & p & g & news & Hrun & Hok1 & Hr1 & Hlive & Hg & Hb1 & Hres1 & Hc & Ha).
    destruct (phase2_ok i known (p1_index p) s1 Hok1) as (s2 & l & Hrun2 & Hrw & _). unfold hbind. fold idx in Hrun.
    rewrite Hrun, Hrun2. set (ids := if bool_decide (known = []) then [] else _) in Hrw.
    assert (live_ok s2) as Hok2 by (eapply rewritten_live; [done| |done]; intros; apply deprecated_row_aged).
    destruct Hrw as (Hr2 & Hb2 & Hres2 & _ & _).
    eexists s2, _, (deprecated_row ids <$> (g <$> news)), (deprecated_row ids ∘ g). split; [reflexivity|]. simpl. split_and!; try done.
    + by rewrite Hr2, Hr1, fmap_app, <-(list_fmap_compose g (deprecated_row ids) (subnet_rows s)).
    + intros x Hx. destruct (Hg x Hx) as ((? & ? & ?) & Hl). destruct (deprecated_row_aged ids (g x)) as ((? & ? & ?) & Hl').
      split; [split_and!; simpl; congruence|]. intros Hlx. rewrite <-Hl. by apply Hl'.
    + congruence.
    + congruence.
    + by rewrite !length_fmap.
  - destruct (phase1_ok i ty entries s Hok) as (s1 & p & g & news & Hrun & Hok1 & Hr1 & Hlive & Hg & Hb1 & Hres1 & Hc & Ha).
    unfold hbind. fold idx in Hrun. rewrite Hrun. eexists s1, _, (g <$> news), g. split; [reflexivity|]. simpl. split_and!; try done.
    + intros x Hx. destruct (Hg x Hx) as [? Hl]. split; [done|congruence].
    + by rewrite length_fmap.
    + intros x Hx. by apply Hg.
  - destruct (phase2_fresh i known s Hok) as (s2 & l & g & Hrun2 & Hok2 & (Hr2 & Hb2 & Hres2 & _) & Ha & Hg).
    unfold hbind, hret. simpl. fold idx in Hrun2. rewrite Hrun2. eexists s2, _, [], g. by split_and!.
  - destruct (phase2_fresh i known s Hok) as (s2 & l & g & Hrun2 & Hok2 & (Hr2 & Hb2 & Hres2 & _) & Ha & Hg).
    unfold hbind, hret. simpl. fold idx in Hrun2. rewrite Hrun2. eexists s2, _, [], g. by split_and!.
Qed.
End sync_proofs.

(** ** Concrete runs *)

Section sync_runs.
Import RefGate RefScope.
#[local] Existing Instances RefNetmask.lib ListStore.store.

Definition net_state (subs : list Subnet) : State Scope :=
  mkState [block10] subs [] [integration] [] (scope_of [] []) [].
Definition found (cidr name dev : string) : DiscoveredSubnet := mkDiscovered cidr name dev None.
Definition net_view (s : State Scope) : list (string * SubnetStatus * option string) :=
  (λ x, (s_cidr x, s_status x, s_fortigateDevice x)) <$> subnet_rows s.
Definition synced (mode : SyncMode) (entries : list DiscoveredSubnet) (known : list string) (s : State Scope) : State Scope :=
  (syncDhcpSubnets mode "i1" "fortigate" entries known s).1.

Lemma net_state_ok : live_ok (net_state []).
Proof.
  apply net_ok_live. split.
  - split_and!; repeat constructor; set_solver.
  - intros b Hb%list_elem_of_singleton. subst. split; [done|]. exists net10, 24. exact denotes_net10.
  - intros x Hx. by apply elem_of_nil in Hx.
  - intros x y a Hx. by apply elem_of_nil in Hx.
Qed.

(** Two overlapping scopes of one device: the first is created, the second
    skipped. *)
Lemma sync_keeps_live_network_witness :
  let entries := [found "10.0.0.64/26" "lan" "fg1"; found "10.0.0.0/25" "guest" "fg1"; found "10.0.0.70/26" "lan" "fg1"] in
  net_view (synced SkipDeprecation entries [] (net_state [])) = [("10.0.0.64/26", Available, Some "fg1")]%string ∧
  live_ok (synced SkipDeprecation entries [] (net_state [])) ∧
  ∃ s' res, syncDhcpSubnets SkipDeprecation "i1" "fortigate" entries [] (net_state []) = (s', Ok res) ∧
    (length (sy_created res) + length (sy_updated res) + length (sy_skipped res) = 3)%nat.
Proof.
  intros entries. split; [vm_compute; reflexivity|].
  destruct (sync_keeps_live_network SkipDeprecation "i1" "fortigate" entries [] (net_state []) net_state_ok)
    as (s' & res & news & g & Hrun & Hok & _ & _ & _ & _ & _ & Hn & _).
  unfold synced. rewrite Hrun. split; [exact Hok|]. exists s', res. split; [reflexivity|exact Hn].
Defined.

Definition branch (id cidr dev : string) (st : SubnetStatus) : Subnet :=
  mkSubnet id "b1" cidr "branch" None st None [] (Some "i1"%string) (Some dev) None None.

(** The device of a standalone integration is renamed.  The full sync gives its
    subnets the new name and then deprecates them, because the second phase still
    sees the old name in the index; the next sync makes a second row. *)
Theorem renamed_device_loses_subnets :
  let s := net_state [branch "s1" "10.0.0.64/26" "fg-old" Available] in
  let sync := synced Full [found "10.0.0.64/26" "lan" "fg-new"] ["fg-new"%string] in
  net_view (sync s) = [("10.0.0.64/26", Deprecated, Some "fg-new")]%string ∧
  net_view (sync (sync s)) = [("10.0.0.64/26", Deprecated, Some "fg-new"); ("10.0.0.64/26", Available, Some "fg-new")]%string.
Proof. split; vm_compute; reflexivity. Qed.

(** A sync creates a subnet over a deprecated one, which no handler does; the
    deprecated one can be made available again, and two live siblings overlap. *)
Theorem sync_overlaps_deprecated :
  let s := synced SkipDeprecation [found "10.0.0.64/26" "lan" "fg1"] [] (net_state [branch "s1" "10.0.0.0/25" "fg9" Deprecated]) in
  let s' := (updateSubnet "s1" (mkUpdateSubnetInput None None (Some Available) None None None) s).1 in
  net_view s' = [("10.0.0.0/25", Available, Some "fg9"); ("10.0.0.64/26", Available, Some "fg1")]%string.
Proof. vm_compute. reflexivity. Qed.

(** The syncs of two devices that report one network overlap in time: both read
    the tables before either writes, and both create it. *)
Theorem overlapping_syncs_create_twins :
  let idx := build_index [block10] [] in
  let sync dev s := (sync_with idx SkipDeprecation "i1" "fortimanager" [found "10.0.0.64/26" "lan" dev] [] s).1 in
  (load_index (net_state [])).2 = Ok idx ∧
  net_view (sync "fg2"%string (sync "fg1"%string (net_state []))) =
    [("10.0.0.64/26", Available, Some "fg1"); ("10.0.0.64/26", Available, Some "fg2")]%string.
Proof. split; vm_compute; reflexivity. Qed.
End sync_runs.
