(* ===== verification/Registration.v ===== *)
(** * Integrations and the tables of the IPAM service

    What [src/src/api/routes/integrations.ts] does to reservations and subnets
    outside a sync: the reservation, and for a FortiManager the placeholder asset,
    that saving an integration makes for its host ([registerFortinetHost]), and
    the references that deleting an integration sets to null; and the start-up job
    [src/src/jobs/resolvePolarisPushedConflicts.ts]. *)

From S2P Require Import Prelude Cidr Store Networks Http Push JsColl Reservations Refresh RefreshProofs DnsResolved DnsProofs AssetHooks Conflicts SubnetSync.

(** ** The host of an integration *)

(** [Number(text)] of a decimal text; anything else is not a number here. *)
Definition decimal (w : string) : option Z :=
  if Js.truthy w && Js.sforallb Js.is_digit w then Some (Js.parse_digits 0 w) else None.
Definition isPrivateIp (ip : string) : bool :=
  if negb (isValidIpAddress ip) then false
  else match decimal <$> Js.split "." ip with
       | Some 10 :: _ => true
       | Some 172 :: Some b :: _ => (16 <=? b) && (b <=? 31)
       | Some 192 :: Some b :: _ => b =? 168
       | _ => false
       end.

(** [.replace(/\s+/g, "-")]; [spaces] when the last character was a space. *)
Fixpoint dash_spaces (spaces : bool) (s : string) : string :=
  match s with
  | EmptyString => EmptyString
  | String c s' =>
      if Js.is_space c then (if spaces then dash_spaces true s' else String "-" (dash_spaces true s'))
      else String c (dash_spaces false s')
  end.

Definition product_label (integrationType : string) : string :=
  if String.eqb integrationType "fortigate" then "FortiGate" else "FortiManager".

Definition proposed_host (integrationType host integrationName subnetId : string) (t : Z) (id : string) : Reservation :=
  mkReservation id subnetId (Some host) (Some (dash_spaces false (Js.toLowerCase integrationName)))
    (Some "network-team"%string) (Some (product_label integrationType +:+ " Integration")) None
    (Some ("Auto-registered from " +:+ product_label integrationType +:+ " integration: " +:+ integrationName)) Active
    (if String.eqb integrationType "fortigate" then StFortigate else StFortimanager) None None no_push no_stale t None.

(** The fields the admin selected, of those that may be overwritten. *)
Definition ALLOWED_FIELDS : list string := ["hostname"; "owner"; "projectRef"; "notes"; "status"]%string.
Definition overwrite (fields : list string) (p x : Reservation) : Reservation :=
  let pick {A} f (new old : A) := if bool_decide (f ∈ fields) then new else old in
  mkReservation (r_id x) (r_subnetId x) (r_ipAddress x)
    (pick "hostname"%string (r_hostname p) (r_hostname x)) (pick "owner"%string (r_owner p) (r_owner x))
    (pick "projectRef"%string (r_projectRef p) (r_projectRef x)) (r_expiresAt x)
    (pick "notes"%string (r_notes p) (r_notes x)) (pick "status"%string (r_status p) (r_status x))
    (r_sourceType x) (r_createdBy x) (r_macAddress x) (r_push x) (r_stale x) (r_createdAt x) (r_vipInfo x).

(** The answer: the reservation in the way with its subnet, and what was made. *)
Record HostRegistration := mkHostRegistration {
  hr_conflicts : list (Reservation * string);
  hr_created : list string;
}.

Section registration.
Context `{NetmaskLib, PgInet, IpamStore} `{Net W}.
Notation St := (State W).

(** The half of it that writes the reservation. *)
Definition register_reservation (integrationType host integrationName : string) (force : bool) (fields : list string)
    (matching : Subnet) : M St HostRegistration :=
  let! existing := findReservation (λ r, bool_decide (r_subnetId r = s_id matching) &&
    bool_decide (r_ipAddress r = Some host) && bool_decide (r_status r = Active) &&
    negb (bool_decide (r_sourceType r = DnsResolved))) in
  let! t := newDate in
  let proposed := proposed_host integrationType host integrationName (s_id matching) t in
  match existing with
  | Some row =>
      if force then
        (if bool_decide (List.filter (λ f, bool_decide (f ∈ ALLOWED_FIELDS)) fields = []) then hret tt
         else let! _ := reservation_update (r_id row) (overwrite fields (proposed ""%string)) in hret tt) ;!
        hret (mkHostRegistration [] ["reservation"%string])
      else hret (mkHostRegistration [(row, s_cidr matching)] [])
  | None =>
      releaseDnsResolvedAt (s_id matching) host ;!
      let! _ := reservation_create proposed in
      hret (mkHostRegistration [] ["reservation"%string])
  end.

(** The placeholder of a FortiManager; [assetId] is the id its row is given. *)
Definition proposed_asset (host integrationName : string) : AssetWrite :=
  mkAssetWrite (Some (Some (dash_spaces false (Js.toLowerCase integrationName)))) (Some (Some host)) None None
    (Some "active"%string) None None.
Definition register_asset (host integrationName assetId : string) (done : HostRegistration) : M St HostRegistration :=
  let! existingAsset := findAsset (λ a, bool_decide (a_ipAddress a = Some host) && String.eqb (a_assetType a) "server") in
  match existingAsset with
  | Some _ => hret done
  | None =>
      asset_create (mkAsset assetId None "server" None false None None None None "active") (proposed_asset host integrationName) ;!
      hret (mkHostRegistration (hr_conflicts done) (hr_created done ++ ["asset"%string]))
  end.

Definition registerFortinetHost (integrationType host integrationName : string) (force : bool) (fields : list string)
    (assetId : string) : M St HostRegistration :=
  if negb (isValidIpAddress host) then hret (mkHostRegistration [] [])
  else
    let! subs := findSubnets (λ _, true) in
    let matchingSubnet := List.find (λ x, ipInCidr host (s_cidr x)) subs in
    if bool_decide (matchingSubnet = None) && negb (isPrivateIp host) then hret (mkHostRegistration [] [])
    else
      let! done := (match matchingSubnet with
                    | Some matching => register_reservation integrationType host integrationName force fields matching
                    | None => hret (mkHostRegistration [] [])
                    end) in
      if String.eqb integrationType "fortigate" then hret done
      else register_asset host integrationName assetId done.

(** ** DELETE /integrations/:id *)

(** [onDelete: SetNull] of the relations of reservations, subnets and assets. *)
Definition orphan_push (p : PushState) : PushState :=
  mkPushState None (pushedScopeId p) (pushedEntryId p) (pushStatus p) (pushedAt p) (pushError p) (pushQueuedAt p)
    (pushAttempts p) (pushLastAttemptAt p).
Definition orphan_subnet (x : Subnet) : Subnet :=
  mkSubnet (s_id x) (s_blockId x) (s_cidr x) (s_name x) (s_purpose x) (s_status x) (s_vlan x) (s_tags x) None
    (s_fortigateDevice x) (s_createdBy x) (s_lastDiscoveredAt x).
Definition orphan_asset (id : string) (a : Asset) : Asset :=
  if bool_decide (a_discoveredByIntegrationId a = Some id)
  then mkAsset (a_id a) (a_hostname a) (a_assetType a) None (a_monitored a) (a_monitorStatus a) (a_ipAddress a)
         (a_dnsName a) (a_macAddress a) (a_status a)
  else a.

Definition delete_integration (id : string) : M St unit :=
  let! existing := findIntegration (Some id) in
  match existing with
  | None => hthrow (AppError 404 "Integration not found")
  | Some _ =>
      let! _ := reservation_updateMany (λ r, bool_decide (pushedToId (r_push r) = Some id)) (on_push orphan_push) in
      let! _ := subnet_updateMany (λ x, bool_decide (s_discoveredBy x = Some id)) orphan_subnet in
      hmodify (λ s, mkState (ipBlocks s) (subnets s) (reservations s)
        (List.filter (λ i, negb (bool_decide (i_id i = id))) (integrations s)) (orphan_asset id <$> assets s)
        (world s) (audit s)) ;!
      logEvent "integration.deleted" "info" (Some id)
  end.
End registration.

(** ** [resolvePolarisPushedConflicts] *)

Section pushed_conflicts.
Context `{IpamStore} `{Net W}.
Notation St := (State W).
Notation Db := (SyncDb W).

(** The pending conflicts on rows with a push target, with the rows as read. *)
Definition pushed_candidates (rows : list Reservation) (l : list Conflict) : list (nat * Reservation) :=
  omap (λ '(i, c), if bool_decide (cf_status c = CfPending)
                   then match List.find (has_id (cf_reservationId c)) rows with
                        | Some r => match pushedToId (r_push r) with Some _ => Some (i, r) | None => None end
                        | None => None
                        end
                   else None) (zip (seq 0 (length l)) l).

Fixpoint settle_pushed (t : Z) (l : list (nat * Reservation)) : M Db unit :=
  match l with
  | [] => hret tt
  | (i, r) :: l' =>
      hcatch (let! _ := on_dd (reservation_update (r_id r)
                (λ x, if bool_decide (r_sourceType r = Manual) then set_r_sourceType DhcpReservation x else x)) in
              set_conflicts (alter (resolve CfRejected (Some "auto"%string) t) i)) (λ _, hret tt) ;!
      settle_pushed t l'
  end.
Definition resolvePolarisPushedConflicts : M Db unit :=
  let! s := hget in
  let! t := on_dd newDate in
  settle_pushed t (pushed_candidates (reservation_rows (dd_ipam s)) (dd_conflicts s)).
End pushed_conflicts.

(** ** The reservation invariant *)

Section registration_proofs.
Context `{NetmaskLib, PgInet, IpamStoreLaws, PushRule} `{Net W}.
Notation St := (State W).
Implicit Types (s : St).

Lemma keeps_register_reservation ty host name force fields x s s' r :
  x ∈ subnet_rows s → res_ok s → register_reservation (W := W) ty host name force fields x s = (s', r) → res_ok s'.
Proof.
  intros Hx Hok Hrun. unfold register_reservation in Hrun.
  unfold hbind at 1, findReservation, hgets in Hrun. unfold hbind at 1, newDate, hgets in Hrun.
  destruct (List.find _ (reservation_rows s)) as [row|] eqn:Hrow.
  - apply find_some_iff in Hrow as [_ Hrow]. rewrite !andb_true_iff, !bool_decide_eq_true in Hrow.
    revert Hrun. match goal with |- ?m s = _ → _ => assert (keeps res_ok m) as Hk; [|by eapply Hk] end.
    destruct force; [|solve_keeps]. apply keeps_hbind; [|solve_keeps]. case_match; [solve_keeps|].
    apply keeps_hbind; [|solve_keeps]. apply keeps_update_fk; [done|by intros ? ?].
  - destruct (releaseDns_spec (s_id x) host s Hok) as (s1 & Hd & Hok1 & [_ Hs1] & _).
    unfold hbind at 1 in Hrun. rewrite Hd in Hrun. unfold hbind at 1 in Hrun.
    match type of Hrun with context [reservation_create ?f s1] =>
      pose proof (create_on_subnet f x s1 Hok1) as Hc; destruct (reservation_create f s1) as [s2 [r2|e]] end.
    + destruct Hc as (? & ? & ? & ? & ? & ? & _); [unfold subnet_rows; by rewrite Hs1|done|]. by injection Hrun as <- <-.
    + destruct Hc as [-> _]; [unfold subnet_rows; by rewrite Hs1|done|]. by injection Hrun as <- <-.
Qed.

Lemma keeps_register_asset host name id d : keeps res_ok (register_asset (W := W) host name id d).
Proof.
  unfold register_asset. apply keeps_hbind; [apply keeps_readonly, readonly_findAsset|]. intros [a|]; [solve_keeps|].
  apply keeps_hbind; [|solve_keeps]. unfold asset_create. apply keeps_hbind.
  - intros s s' r Hok [= <- _]. by eapply res_ok_same_tables; [|exact Hok].
  - intros _ s s' r Hok Hrun. by eapply reconcile_keeps_assets.
Qed.

Lemma keeps_register ty host name force fields id :
  keeps res_ok (registerFortinetHost (W := W) ty host name force fields id).
Proof.
  unfold registerFortinetHost. destruct (negb _); [solve_keeps|].
  intros s s' r Hok Hrun. unfold findSubnets in Hrun. unfold hbind at 1, hgets in Hrun.
  set (m := List.find _ _) in Hrun.
  destruct (bool_decide (m = None) && negb (isPrivateIp host)); [by injection Hrun as <- _|].
  unfold hbind in Hrun at 1.
  assert (∀ s1 r1, (match m with Some x => register_reservation ty host name force fields x
                    | None => hret (mkHostRegistration [] []) end) s = (s1, r1) → res_ok s1) as Hfirst.
  { intros s1 r1. destruct m as [x|] eqn:Hm; [|by intros [= <- _]].
    apply find_some_iff in Hm as [[Hx _]%elem_of_lfilter _]. by apply keeps_register_reservation. }
  match type of Hrun with (match ?x with _ => _ end) = _ => destruct x as [s1 [d|e]] end;
    specialize (Hfirst _ _ eq_refl); [|by injection Hrun as <- _].
  destruct (String.eqb ty "fortigate"); [by injection Hrun as <- _|].
  by eapply keeps_register_asset.
Qed.

(** The references may go once a synced row need not name its integration. *)
Lemma keeps_orphan id : integration_named = false →
  keeps res_ok (reservation_updateMany (W := W) (λ r, bool_decide (pushedToId (r_push r) = Some id)) (on_push orphan_push)).
Proof.
  intros Hrule s s' n Hok Hrun. set (p := λ r, _) in Hrun.
  pose proof (reservation_updateMany_spec p (on_push orphan_push) s (λ _, eq_refl) (ro_db _ Hok)) as Hu.
  rewrite Hrun in Hu. destruct n as [n|e]; [|by destruct Hu as [-> _]].
  destruct Hu as (t & -> & Hdb & Hrows & _). apply res_ok_rows; [done|done|].
  intros r' Hr'. change (rows t) with (reservation_rows (set_reservations t s)) in Hr'. rewrite Hrows in Hr'.
  apply elem_of_map_where in Hr' as (r & Hr & ->). pose proof (ro_push _ Hok r Hr) as Hp. destruct (p r).
  - split; [|by exists r]. unfold push_ok, push_state_ok in *. cbn. rewrite Hrule.
    destruct (pushStatus (r_push r)) as [[]|]; naive_solver.
  - split; [done|by exists r].
Qed.

Lemma keeps_subnet_updateMany p f : (∀ x, s_id (f x) = s_id x) → keeps res_ok (subnet_updateMany (W := W) p f).
Proof.
  intros Hf s s' n Hok Hrun. destruct (subnet_updateMany_spec p f s Hf (ro_db _ Hok)) as (s1 & k & Hrun' & Hr & Hb & Hres & _ & Hdb).
  rewrite Hrun in Hrun'. injection Hrun' as -> _. destruct Hok as [_ Hp Hfk]. split; [done|..]; rewrite Hres; [done|].
  intros r (x & Hx & Hid)%Hfk. exists (if p x then f x else x). split.
  - rewrite Hr. by apply (list_elem_of_fmap_2 (λ x, if p x then f x else x)).
  - destruct (p x); [by rewrite Hf|done].
Qed.

Lemma keeps_delete_integration id : integration_named = false → keeps res_ok (delete_integration (W := W) id).
Proof.
  intros Hrule. unfold delete_integration. apply keeps_hbind; [apply keeps_readonly, readonly_hgets|]. intros [i|]; [|solve_keeps].
  apply keeps_hbind; [by apply keeps_orphan|]. intros _.
  apply keeps_hbind; [by apply keeps_subnet_updateMany|]. intros _.
  apply keeps_hbind; [|solve_keeps]. intros s s' r Hok [= <- _]. by eapply res_ok_same_tables; [|exact Hok].
Qed.

(** *** The start-up job *)

(** The reservation invariant, with at most one pending conflict per row. *)
Definition service_ok (d : SyncDb W) : Prop := res_ok (dd_ipam d) ∧ one_pending (dd_conflicts d).

Lemma keeps_service_dd {A} (m : M St A) : keeps res_ok m → keeps service_ok (on_dd m).
Proof.
  intros Hm [s l] d r [Hok Hl]. unfold on_dd. cbn. destruct (m s) as [s' r'] eqn:Hrun. intros [= <- <-].
  split; [by eapply Hm|done].
Qed.
Lemma keeps_service_conflicts f : (∀ l, one_pending l → one_pending (f l)) → keeps service_ok (set_conflicts (W := W) f).
Proof. intros Hf [s l] d r [Hok Hl] [= <- _]. split; [done|by apply Hf]. Qed.

Lemma keeps_settle_pushed t l : keeps service_ok (settle_pushed (W := W) t l).
Proof.
  induction l as [|[i r] l IH]; cbn [settle_pushed]; [apply keeps_readonly; solve_frame|].
  apply keeps_hbind; [|by intros _]. apply keeps_hcatch; [|intros e; apply keeps_readonly; solve_frame].
  apply keeps_hbind.
  - apply keeps_service_dd, keeps_update_fk.
    + intros x. by case_bool_decide.
    + intros x Hx. unfold push_ok in *. by case_bool_decide.
  - intros _. apply keeps_service_conflicts. intros k. by apply resolve_one_pending.
Qed.
Lemma keeps_resolve_pushed : keeps service_ok (resolvePolarisPushedConflicts (W := W)).
Proof.
  unfold resolvePolarisPushedConflicts. apply keeps_hbind; [apply keeps_readonly; intros ? ? ? [= <- _]; done|].
  intros d. apply keeps_hbind; [apply keeps_service_dd; solve_keeps|]. intros t. apply keeps_settle_pushed.
Qed.

(** Accepting and rejecting settle one conflict. *)
Lemma keeps_postAccept caller i : keeps service_ok (postAccept (W := W) caller i).
Proof.
  intros [s l] d r [Hok Hl] Hrun. split; [by eapply postAccept_keeps|].
  unfold postAccept, acceptReservationConflict, hbind at 1 in Hrun. rewrite require_pending_run in Hrun.
  destruct (match conflict_at s l i with None => _ | Some _ => _ end) as [[c x]|e]; [|by injection Hrun as <- _].
  cbn [fst snd] in Hrun. unfold hbind, on_dd in Hrun. cbn [dd_ipam dd_conflicts] in Hrun.
  destruct (accept_writes c x); cbn in Hrun; [destruct (reservation_update _ _ s) as [s1 [r1|e]]|];
    cbn in Hrun; injection Hrun as <- _; [|done|]; by apply resolve_one_pending.
Qed.
Lemma keeps_postReject caller i : keeps service_ok (postReject (W := W) caller i).
Proof.
  intros [s l] d r [Hok Hl] Hrun. split; [by eapply postReject_keeps|].
  unfold postReject, hbind at 1 in Hrun. rewrite require_pending_run in Hrun.
  destruct (match conflict_at s l i with None => _ | Some _ => _ end) as [[c x]|e]; injection Hrun as <- _; [|done].
  by apply resolve_one_pending.
Qed.
End registration_proofs.
