(* ===== verification/DhcpSync.v ===== *)
(** * Discovered reservations

    The phases of [syncDhcpSubnets] in [src/src/api/routes/integrations.ts] that
    write reservations: the management addresses of switches and access points
    (in phase 3), VIPs (3c), interface addresses (4), DHCP entries (5), the sweep
    of rows the device no longer has (5b), and the copy of asset data into
    reservations (in phase 6).  They read the active reservations once, into a
    map that they keep up to date only in part.

    The writes to assets are left out; what the asset index answers is an
    argument.  Batched updates run one after the other.  The lists of names for
    the report are not kept. *)

From S2P Require Import Prelude Cidr Store Networks Http Push JsColl Reservations Refresh RefreshProofs Conflicts SubnetSync.

(** ** What a discovery reports *)

Record DiscoveredFortiSwitch := mkSwitch { sw_device : string; sw_name : string; sw_ipAddress : string; sw_fgtInterface : string }.
Record DiscoveredFortiAP := mkAp { ap_device : string; ap_name : string; ap_serial : string; ap_ipAddress : string }.
Record DiscoveredVip := mkVip { dv_device : string; dv_name : string; dv_extip : string; dv_mappedips : list string }.
Record DiscoveredInterfaceIp := mkIfaceIp {
  di_device : string; di_interfaceName : string; di_ipAddress : string; di_role : string }.
Inductive DhcpEntryType := StaticEntry | DynamicLease.
#[global] Instance DhcpEntryType_eq_dec : EqDecision DhcpEntryType.
Proof. solve_decision. Defined.
Record DiscoveredDhcpEntry := mkDhcpEntry {
  de_device : string;
  de_interfaceName : string;
  de_ipAddress : string;
  de_macAddress : string;
  de_hostname : string;
  de_type : DhcpEntryType;
  de_expireTime : option Z;
  de_accessPoint : option string;
  de_ssid : option string;
  de_vci : option string;
  de_scopeId : option Z;
  de_entryId : option Z;
  de_seenLeased : bool;
}.
(** The parts of [DiscoveryResult] these phases read. *)
Record DiscoveryResult := mkDiscovery {
  dr_fortiSwitches : list DiscoveredFortiSwitch;
  dr_fortiAps : list DiscoveredFortiAP;
  dr_vips : list DiscoveredVip;
  dr_vipInventoriedDevices : list string;
  dr_interfaceIps : list DiscoveredInterfaceIp;
  dr_dhcpEntries : list DiscoveredDhcpEntry;
  dr_dhcpReservationsInventoriedDevices : list string;
}.
(** The columns of an asset these phases read, and the two look-ups of the asset
    index. *)
Record MatchedAsset := mkMatched { ma_hostname : option string; ma_assignedTo : option string }.
Record AssetLookups := mkLookups {
  findByMac : string → option MatchedAsset;
  findByEntry : DiscoveredDhcpEntry → option MatchedAsset;
}.

(** ** The map of active reservations *)

Notation ActiveMap := (JsMap string Reservation).
Definition reservationKey (subnetId ip : string) : string := subnetId +:+ "|" +:+ ip.
Definition index_row (m : ActiveMap) (r : Reservation) : ActiveMap :=
  if bool_decide (r_sourceType r = DnsResolved) then m
  else if Js.otruthy (r_ipAddress r) then mset (reservationKey (r_subnetId r) (default "" (r_ipAddress r))) r m
  else mset (r_subnetId r +:+ "|__full__") r m.
Definition active_map (l : list Reservation) : ActiveMap := foldl index_row [] l.

Definition findSubnetForIp `{NetmaskLib} (subs : list Subnet) (ip : string) : option Subnet :=
  List.find (λ x, live x && ipInCidr ip (s_cidr x)) subs.

(** ** Proposals *)

Definition projectRefLabel (integrationType : string) : string := integrationLabel integrationType +:+ " Integration".
Definition switch_proposal (integrationType : string) (sw : DiscoveredFortiSwitch) : ProposedReservationData :=
  mkProposed (or_null (Some (sw_name sw))) (Some "network-team"%string) (Some (projectRefLabel integrationType))
    (Some ("Auto-discovered from FortiGate " +:+ sw_device sw +:+
           (if Js.truthy (sw_fgtInterface sw) then " via " +:+ sw_fgtInterface sw else "") +:+
           " via " +:+ integrationLabel integrationType))
    FortiSwitch.
Definition ap_proposal (integrationType : string) (ap : DiscoveredFortiAP) : ProposedReservationData :=
  mkProposed (or_null (Some (ap_name ap))) (Some "network-team"%string) (Some (projectRefLabel integrationType))
    (Some ("FortiAP managed by FortiGate " +:+ ap_device ap)) Fortinap.
Definition interfaceRoleLabel (role : string) : string :=
  if String.eqb role "management" then "Management interface"
  else if String.eqb role "secondary" then "Secondary IP" else "Interface".
Definition interface_proposal (integrationType : string) (i : DiscoveredInterfaceIp) : ProposedReservationData :=
  mkProposed (Some (di_device i)) (Some "network-team"%string) (Some (projectRefLabel integrationType))
    (Some (interfaceRoleLabel (di_role i) +:+ " (" +:+ di_interfaceName i +:+ ") on " +:+ di_device i)) InterfaceIp.
Definition vip_proposal (v : DiscoveredVip) (role : string) : ProposedReservationData :=
  mkProposed (Some (dv_name v)) (Some "fortimanager-vip"%string) (Some ("VIP: " +:+ dv_device v))
    (Some ("Firewall VIP " +:+ dq +:+ dv_name v +:+ dq +:+ " (" +:+ role +:+ ") on " +:+ dv_device v +:+ " — ext: " +:+ dv_extip v))
    Vip.

(** [mac.toUpperCase().replace(/-/g, ":")], of a MAC that is not empty. *)
Definition colon_mac (mac : option string) : option string :=
  (λ m, Js.smap (λ c, if Ascii.eqb c "-" then ":"%char else c) (Js.toUpperCase m)) <$> or_null mac.
Definition entry_mac (e : DiscoveredDhcpEntry) : option string := colon_mac (Some (de_macAddress e)).
Definition is_static (e : DiscoveredDhcpEntry) : bool := bool_decide (de_type e = StaticEntry).

Definition note_part (label : string) (v : option string) : list string :=
  if Js.otruthy v then [label +:+ default "" v] else [].
Definition dhcp_source (e : DiscoveredDhcpEntry) : ReservationSourceType :=
  let vciLower := Js.toLowerCase (default "" (de_vci e)) in
  if Js.startsWith "fortiswitch-" vciLower then FortiSwitch
  else if Js.startsWith "fortiap-" vciLower then Fortinap
  else if is_static e then DhcpReservation else DhcpLease.
Definition dhcp_proposal (integrationType : string) (matched : option MatchedAsset) (e : DiscoveredDhcpEntry)
  : ProposedReservationData :=
  let hostname := or_null (matched ≫= ma_hostname) in
  let owner := or_null (matched ≫= ma_assignedTo) in
  mkProposed (match hostname with Some h => Some h | None => or_null (Some (de_hostname e)) end)
    (Some (default (if is_static e then "dhcp-reservation" else "dhcp-lease")%string owner))
    (Some (projectRefLabel integrationType))
    (Some (Js.join " — "
      ([(if is_static e then "DHCP reservation" else "DHCP lease") +:+ " on " +:+ de_device e +:+ " (" +:+
        de_interfaceName e +:+ ")"] ++
       note_part "MAC: " (Some (de_macAddress e)) ++ note_part "Model: " (de_vci e) ++ note_part "SSID: " (de_ssid e) ++
       note_part "AP: " (de_accessPoint e))))
    (dhcp_source e).
Definition dhcp_expiry (e : DiscoveredDhcpEntry) : option Z :=
  match de_expireTime e with
  | Some n => if is_static e || (n =? 0) then None else Some (n * 1000)
  | None => None
  end.

(** ** What is written to a row

    [snap] is the row in the map, [x] the row in the table. *)

(** [lastSeenLeased], and the alert of a silent reservation re-armed. *)
Definition seen_stamp (t : Z) (seen : bool) (p : StaleState) : StaleState :=
  if seen then mkStaleState (Some t) None None (staleIgnored p) else p.
Definition seen_now (e : DiscoveredDhcpEntry) : bool := de_seenLeased e && is_static e.
Definition set_vipInfo (v : option VipInfo) (r : Reservation) : Reservation :=
  mkReservation (r_id r) (r_subnetId r) (r_ipAddress r) (r_hostname r) (r_owner r) (r_projectRef r) (r_expiresAt r)
    (r_notes r) (r_status r) (r_sourceType r) (r_createdBy r) (r_macAddress r) (r_push r) (r_stale r) (r_createdAt r) v.
Definition with_identity (hostname owner mac : option string) (r : Reservation) : Reservation :=
  mkReservation (r_id r) (r_subnetId r) (r_ipAddress r) hostname owner (r_projectRef r) (r_expiresAt r)
    (r_notes r) (r_status r) (r_sourceType r) (r_createdBy r) mac (r_push r) (r_stale r) (r_createdAt r) (r_vipInfo r).
Definition set_pushStatus (st : option PushStatus) (r : Reservation) : Reservation :=
  let p := r_push r in
  set_r_push (mkPushState (pushedToId p) (pushedScopeId p) (pushedEntryId p) st (pushedAt p) (pushError p)
    (pushQueuedAt p) (pushAttempts p) (pushLastAttemptAt p)) r.

Definition adopted (t : Z) (integrationId : string) (scopeId entryId : Z) (seen : bool) (x : Reservation) : Reservation :=
  set_r_stale (seen_stamp t seen (r_stale x))
    (set_r_sourceType DhcpReservation (on_push (stamp_synced (Some integrationId) scopeId entryId t) x)).
Definition echoed (t : Z) (e : DiscoveredDhcpEntry) (x : Reservation) : Reservation :=
  set_r_stale (seen_stamp t (seen_now e) (r_stale x)) (set_r_sourceType DhcpReservation x).

Definition takes_owner (snap : Reservation) : bool := bool_decide (r_owner snap = Some "fortimanager-vip"%string).
Definition takes_notes (snap : Reservation) : bool :=
  negb (Js.otruthy (r_notes snap)) || Js.startsWith "Firewall VIP " (default "" (r_notes snap)).
Definition takes_mac (e : DiscoveredDhcpEntry) (snap : Reservation) : bool :=
  Js.otruthy (entry_mac e) && negb (Js.otruthy (r_macAddress snap)).
(** A VIP the device no longer has becomes a DHCP row. *)
Definition converted (e : DiscoveredDhcpEntry) (p : ProposedReservationData) (snap x : Reservation) : Reservation :=
  mkReservation (r_id x) (r_subnetId x) (r_ipAddress x) (r_hostname x)
    (if takes_owner snap then pd_owner p else r_owner x) (r_projectRef x) (r_expiresAt x)
    (if takes_notes snap then pd_notes p else r_notes x) (r_status x) (pd_sourceType p) (r_createdBy x)
    (if takes_mac e snap then entry_mac e else r_macAddress x) (r_push x) (r_stale x) (r_createdAt x) None.
Definition retyped (t : Z) (e : DiscoveredDhcpEntry) (p : ProposedReservationData) (snap x : Reservation) : Reservation :=
  let flips := negb (bool_decide (r_sourceType snap = pd_sourceType p)) in
  let owner := if flips && placeholder_owner (r_owner snap)
               then Some (if bool_decide (pd_sourceType p = DhcpReservation) then "dhcp-reservation" else "dhcp-lease")%string
               else r_owner x in
  set_r_stale (seen_stamp t (seen_now e) (r_stale x))
    (set_r_sourceType (if flips then pd_sourceType p else r_sourceType x)
      (with_identity (r_hostname x) owner (r_macAddress x) x)).
(** The release of a reservation the device no longer has. *)
Definition unlisted (x : Reservation) : Reservation :=
  let p := r_push x in
  set_r_status Released
    (set_r_push (mkPushState None None None None (pushedAt p) (pushError p) (pushQueuedAt p) (pushAttempts p)
       (pushLastAttemptAt p)) x).

Definition found_row (subnetId ip : string) (p : ProposedReservationData) (mac : option string) (expiresAt lastSeen : option Z)
    (t : Z) (id : string) : Reservation :=
  mkReservation id subnetId (Some ip) (pd_hostname p) (pd_owner p) (pd_projectRef p) expiresAt (pd_notes p) Active
    (pd_sourceType p) None mac no_push (mkStaleState lastSeen None None false) t None.

(** ** The phases *)

Section dhcp_sync.
Context `{NetmaskLib, IpamStore} `{Net W}.
Notation St := (State W).
Notation Db := (SyncDb W).
Context (integrationId integrationType : string) (subs : list Subnet).

Definition syncLog_error : M Db unit := on_dd (logEvent "integration.sync" "error" (Some integrationId)).
Definition edit_row (id : string) (f : Reservation → Reservation) : M Db unit :=
  let! _ := on_dd (reservation_update id f) in hret tt.

(** The row of an address that no active reservation holds. *)
Definition reserve (x : Subnet) (ip : string) (p : ProposedReservationData) (mac : option string) (expiresAt : option Z)
    (seen : bool) (m : ActiveMap) : M Db ActiveMap :=
  hcatch (
    on_dd (releaseDnsResolvedAt (s_id x) ip) ;!
    let! t := on_dd newDate in
    let! row := on_dd (reservation_create (found_row (s_id x) ip p mac expiresAt (if seen then Some t else None) t)) in
    hret (mset (reservationKey (s_id x) ip) row m))
  (λ _, syncLog_error ;! hret m).

(** Switches, access points and interfaces: only a manual row is contested. *)
Definition claim_ip (ip : string) (p : ProposedReservationData) (m : ActiveMap) : M Db ActiveMap :=
  match findSubnetForIp subs ip with
  | None => hret m
  | Some x =>
      match mget (reservationKey (s_id x) ip) m with
      | Some existing =>
          (if bool_decide (r_sourceType existing = Manual) then upsertConflict (r_id existing) integrationId p existing
           else hret tt) ;!
          hret m
      | None => reserve x ip p None None false m
      end
  end.
Definition sync_switch (sw : DiscoveredFortiSwitch) (m : ActiveMap) : M Db ActiveMap :=
  if Js.truthy (sw_ipAddress sw) then claim_ip (sw_ipAddress sw) (switch_proposal integrationType sw) m else hret m.

(** The first DHCP entry of each host name. *)
Definition dhcpByHostname (l : list DiscoveredDhcpEntry) : JsMap string string :=
  foldl (λ m e, let key := Js.toLowerCase (de_hostname e) in
    if Js.truthy (de_hostname e) && Js.truthy (de_ipAddress e) && negb (mhas key m) then mset key (de_ipAddress e) m else m)
    [] l.
Definition ap_address (byHostname : JsMap string string) (ap : DiscoveredFortiAP) : string :=
  if Js.truthy (ap_ipAddress ap) then ap_ipAddress ap
  else match mget (Js.toLowerCase (ap_name ap)) byHostname with
       | Some ip => ip
       | None => default "" (mget (Js.toLowerCase (ap_serial ap)) byHostname)
       end.
Definition sync_ap (byHostname : JsMap string string) (ap : DiscoveredFortiAP) (m : ActiveMap) : M Db ActiveMap :=
  let ip := ap_address byHostname ap in
  if Js.truthy ip then claim_ip ip (ap_proposal integrationType ap) m else hret m.
Definition sync_interface (i : DiscoveredInterfaceIp) (m : ActiveMap) : M Db ActiveMap :=
  if Js.truthy (di_ipAddress i) then claim_ip (di_ipAddress i) (interface_proposal integrationType i) m else hret m.

(** *** Phase 3c *)

Definition vip_ips (v : DiscoveredVip) : list (string * string) :=
  (dv_extip v, "external"%string) :: ((λ ip, (ip, "mapped"%string)) <$> dv_mappedips v).
Definition currentVipKeys (vips : list DiscoveredVip) : list string :=
  vips ≫= λ v, (vip_ips v).*1 ≫= λ ip,
    match findSubnetForIp subs ip with Some x => [reservationKey (s_id x) ip] | None => [] end.
(** The external address is not compared. *)
Definition info_differs (new : VipInfo) (cur : option VipInfo) : bool :=
  match cur with
  | None => true
  | Some c => negb (String.eqb (vi_name c) (vi_name new)) || negb (String.eqb (vi_device c) (vi_device new)) ||
              negb (String.eqb (vi_role c) (vi_role new))
  end.
Definition stamp_vip (key : string) (new : VipInfo) (existing : Reservation) (m : ActiveMap) : M Db ActiveMap :=
  if info_differs new (r_vipInfo existing) then
    edit_row (r_id existing) (set_vipInfo (Some new)) ;!
    hret (mset key (set_vipInfo (Some new) existing) m)
  else hret m.
Definition sync_vip_ip (v : DiscoveredVip) (ip role : string) (m : ActiveMap) : M Db ActiveMap :=
  match findSubnetForIp subs ip with
  | None => hret m
  | Some x =>
      let key := reservationKey (s_id x) ip in
      let p := vip_proposal v role in
      let new := mkVipInfo (dv_name v) (dv_device v) (dv_extip v) role in
      match mget key m with
      | Some existing =>
          match r_sourceType existing with
          | Manual => upsertConflict (r_id existing) integrationId p existing ;! hret m
          | Vip => stamp_vip key new existing m
          | DhcpReservation | DhcpLease =>
              let! m' := stamp_vip key new existing m in
              upsertConflict (r_id existing) integrationId p existing ;!
              hret m'
          | _ => hret m
          end
      | None => reserve x ip p None None false m
      end
  end.

(** *** Phase 5 *)

(** A queued push meets an entry at its address. *)
Definition queued_meets_dhcp (key : string) (e : DiscoveredDhcpEntry) (existing : Reservation) (m : ActiveMap) : M Db ActiveMap :=
  let pendingMac := colon_mac (r_macAddress existing) in
  let freshMac := entry_mac e in
  match is_static e && Js.otruthy pendingMac && Js.otruthy freshMac && bool_decide (pendingMac = freshMac),
        de_scopeId e, de_entryId e with
  | true, Some scopeId, Some entryId =>
      let! t := on_dd newDate in
      edit_row (r_id existing) (adopted t integrationId scopeId entryId (de_seenLeased e)) ;!
      dismissConflicts (r_id existing) ;!
      on_dd (logEvent "reservation.push.queued.adopted" "info" (Some (r_id existing))) ;!
      hret (mset key (set_pushStatus (Some Synced) (set_r_sourceType DhcpReservation existing)) m)
  | _, _, _ =>
      let! t := on_dd newDate in
      edit_row (r_id existing) (on_push (stamp_collided
        ("IP collided during queue — discovered " +:+ show_source (dhcp_source e) +:+
         (if Js.otruthy freshMac then " by " +:+ default "" freshMac else "")) t)) ;!
      on_dd (logEvent "reservation.push.queued.collided" "warning" (Some (r_id existing))) ;!
      hret (mset key (set_pushStatus (Some FailedPermanent) existing) m)
  end.
(** A manual row: its own push seen again, or a conflict. *)
Definition manual_meets_dhcp (e : DiscoveredDhcpEntry) (p : ProposedReservationData) (existing : Reservation) : M Db unit :=
  if Js.otruthy (pushedToId (r_push existing)) then
    let! t := on_dd newDate in
    edit_row (r_id existing) (echoed t e) ;!
    dismissConflicts (r_id existing)
  else upsertConflict (r_id existing) integrationId p existing.
Definition vip_meets_dhcp (key : string) (e : DiscoveredDhcpEntry) (p : ProposedReservationData) (vipKeys vipDevices : list string)
    (existing : Reservation) (m : ActiveMap) : M Db ActiveMap :=
  if negb (bool_decide (key ∈ vipKeys)) &&
     bool_decide (default "" (vi_device <$> r_vipInfo existing) ∈ vipDevices) then
    let! t := on_dd newDate in
    edit_row (r_id existing)
      (λ x, set_r_stale (seen_stamp t (seen_now e) (r_stale x)) (converted e p existing x)) ;!
    dismissConflicts (r_id existing) ;!
    on_dd (logEvent "reservation.vip.replaced" "info" (Some (r_id existing))) ;!
    hret (mset key (converted e p existing existing) m)
  else
    let! m' := (if takes_mac e existing then
                  let f r := with_identity (r_hostname r) (r_owner r) (entry_mac e) r in
                  edit_row (r_id existing) f ;!
                  hret (mset key (f existing) m)
                else hret m) in
    upsertConflict (r_id existing) integrationId p existing ;!
    hret m'.
Definition dhcp_meets_dhcp (e : DiscoveredDhcpEntry) (p : ProposedReservationData) (existing : Reservation) : M Db unit :=
  if negb (bool_decide (r_sourceType existing = pd_sourceType p)) || seen_now e then
    let! t := on_dd newDate in
    edit_row (r_id existing) (retyped t e p existing)
  else hret tt.

Definition sync_dhcp_entry (look : AssetLookups) (vipKeys vipDevices : list string) (e : DiscoveredDhcpEntry) (m : ActiveMap)
  : M Db ActiveMap :=
  if negb (Js.truthy (de_ipAddress e)) then hret m
  else match findSubnetForIp subs (de_ipAddress e) with
  | None => hret m
  | Some x =>
      let key := reservationKey (s_id x) (de_ipAddress e) in
      let p := dhcp_proposal integrationType (entry_mac e ≫= findByMac look) e in
      match mget key m with
      | Some existing =>
          match r_sourceType existing with
          | Manual =>
              if queued existing then queued_meets_dhcp key e existing m
              else manual_meets_dhcp e p existing ;! hret m
          | Vip => vip_meets_dhcp key e p vipKeys vipDevices existing m
          | DhcpLease | DhcpReservation => dhcp_meets_dhcp e p existing ;! hret m
          | _ => hret m
          end
      | None => reserve x (de_ipAddress e) p (entry_mac e) (dhcp_expiry e) (seen_now e) m
      end
  end.

(** *** Phase 5b *)

Definition stillOnGateKeys (devices : list string) (entries : list DiscoveredDhcpEntry) : list string :=
  entries ≫= λ e,
    if Js.truthy (de_ipAddress e) && bool_decide (de_device e ∈ devices)
    then match findSubnetForIp subs (de_ipAddress e) with
         | Some x => [reservationKey (s_id x) (de_ipAddress e)]
         | None => []
         end
    else [].
Definition subnetById : JsMap string Subnet := foldl (λ m x, mset (s_id x) x m) [] subs.

(** A row of the sweep, and what its release writes. *)
Definition vip_gone (vipKeys vipDevices : list string) (key : string) (row : Reservation) : bool :=
  bool_decide (r_sourceType row = Vip) && bool_decide (default "" (vi_device <$> r_vipInfo row) ∈ vipDevices) &&
  negb (bool_decide (key ∈ vipKeys)).
Definition reservation_gone (gateKeys devices : list string) (key : string) (row : Reservation) : bool :=
  bool_decide (r_sourceType row = DhcpReservation) && Js.truthy (r_subnetId row) &&
  match mget (r_subnetId row) subnetById with
  | Some x => bool_decide (s_discoveredBy x = Some integrationId) && Js.otruthy (s_fortigateDevice x) &&
              bool_decide (default "" (s_fortigateDevice x) ∈ devices)
  | None => false
  end &&
  negb (bool_decide (key ∈ gateKeys)).
Definition sweep_release (key : string) (row : Reservation) (f : Reservation → Reservation) (action : string) (m : ActiveMap)
  : M Db ActiveMap :=
  hcatch (
    edit_row (r_id row) f ;!
    dismissConflicts (r_id row) ;!
    on_dd (logEvent action "info" (Some (r_id row))) ;!
    hret (mdelete key m))
  (λ _, syncLog_error ;! hret m).
Definition sweep_row (vipKeys vipDevices gateKeys devices : list string) (kr : string * Reservation) (m : ActiveMap)
  : M Db ActiveMap :=
  let '(key, row) := kr in
  if negb (bool_decide (r_status row = Active)) then hret m
  else if vip_gone vipKeys vipDevices key row then
    sweep_release key row (λ x, set_vipInfo None (set_r_status Released x)) "reservation.vip.released" m
  else if reservation_gone gateKeys devices key row then
    sweep_release key row unlisted "reservation.dhcp_reservation.released" m
  else hret m.

(** *** The reservation half of phase 6 *)

(** The row with the data of the asset, when that changes it. *)
Definition cross_updated (a : MatchedAsset) (mac : option string) (res x : Reservation) : Reservation :=
  let macChanged := negb (bool_decide (colon_mac (r_macAddress res) = mac)) in
  with_identity
    (if Js.otruthy (ma_hostname a) && negb (bool_decide (r_hostname res = ma_hostname a)) then ma_hostname a else r_hostname x)
    (if Js.otruthy (ma_assignedTo a) && negb (bool_decide (r_owner res = ma_assignedTo a)) && macChanged
     then ma_assignedTo a else r_owner x)
    (if macChanged then mac else r_macAddress x) x.
Definition cross_writes (a : MatchedAsset) (mac : option string) (res : Reservation) : bool :=
  let macChanged := negb (bool_decide (colon_mac (r_macAddress res) = mac)) in
  (Js.otruthy (ma_hostname a) && negb (bool_decide (r_hostname res = ma_hostname a))) || macChanged.
Definition cross_entry (look : AssetLookups) (e : DiscoveredDhcpEntry)
    (acc : ActiveMap * list (string * (Reservation → Reservation))) : ActiveMap * list (string * (Reservation → Reservation)) :=
  let '(m, us) := acc in
  if negb (Js.truthy (de_macAddress e)) || negb (Js.truthy (de_ipAddress e)) then (m, us)
  else match findByEntry look e, findSubnetForIp subs (de_ipAddress e) with
  | Some a, Some x =>
      let key := reservationKey (s_id x) (de_ipAddress e) in
      match mget key m with
      | Some res =>
          if cross_writes a (entry_mac e) res
          then (mset key (cross_updated a (entry_mac e) res res) m, us ++ [(r_id res, cross_updated a (entry_mac e) res)])
          else (m, us)
      | None => (m, us)
      end
  | _, _ => (m, us)
  end.
(** [batchSettled]: a failed update is ignored. *)
Fixpoint apply_row_updates (us : list (string * (Reservation → Reservation))) : M Db unit :=
  match us with
  | [] => hret tt
  | u :: us' => hcatch (edit_row u.1 u.2) (λ _, hret tt) ;! apply_row_updates us'
  end.

(** *** All of them *)

(** [for (const x of l)] over the map. *)
Fixpoint each {A} (f : A → ActiveMap → M Db ActiveMap) (l : list A) (m : ActiveMap) : M Db ActiveMap :=
  match l with [] => hret m | x :: l' => let! m' := f x m in each f l' m' end.

Definition sync_vip (v : DiscoveredVip) : ActiveMap → M Db ActiveMap := each (λ ir, sync_vip_ip v ir.1 ir.2) (vip_ips v).

(** Up to the sweep. *)
Definition discover_rows (d : DiscoveryResult) (look : AssetLookups) (m : ActiveMap) : M Db ActiveMap :=
  let! m := each sync_switch (dr_fortiSwitches d) m in
  let! m := each (sync_ap (dhcpByHostname (dr_dhcpEntries d))) (dr_fortiAps d) m in
  let! m := each sync_vip (dr_vips d) m in
  let! m := each sync_interface (dr_interfaceIps d) m in
  each (sync_dhcp_entry look (currentVipKeys (dr_vips d)) (dr_vipInventoriedDevices d)) (dr_dhcpEntries d) m.
Definition sweep_rows (d : DiscoveryResult) (m : ActiveMap) : M Db ActiveMap :=
  let devices := dr_dhcpReservationsInventoriedDevices d in
  each (sweep_row (currentVipKeys (dr_vips d)) (dr_vipInventoriedDevices d)
          (stillOnGateKeys devices (dr_dhcpEntries d)) devices) m m.
Definition copy_assets (d : DiscoveryResult) (look : AssetLookups) (m : ActiveMap) : M Db unit :=
  apply_row_updates (foldl (λ acc e, cross_entry look e acc) (m, []) (dr_dhcpEntries d)).2.

Definition sync_reservations (d : DiscoveryResult) (look : AssetLookups) : M Db unit :=
  let! active := on_dd (findReservations (λ r, bool_decide (r_status r = Active))) in
  let! m := discover_rows d look (active_map active) in
  let! m := sweep_rows d m in
  copy_assets d look m.
End dhcp_sync.

Lemma key_inj a b x y :
  no_char "|" a = true → no_char "|" b = true → reservationKey a x = reservationKey b y → a = b ∧ x = y.
Proof.
  unfold reservationKey, no_char. revert b. induction a as [|c a IH]; intros [|c' b]; simpl; intros Ha Hb Heq; simplify_eq/=; try done.
  destruct (IH b) as [-> ->]; [by apply andb_true_iff in Ha as [_ ?]|by apply andb_true_iff in Hb as [_ ?]|done|done].
Qed.
(** ** What the phases keep *)

Section dhcp_sync_proofs.
Context `{NetmaskLib, IpamStoreLaws, PushRule} `{Net W}.
Notation St := (State W).
Notation Db := (SyncDb W).
Context (integrationId integrationType : string) (s0 : St) (subs : list Subnet) (spared : list Reservation).
Context (Hsubs : ∀ x, x ∈ subs → ∃ y, y ∈ subnet_rows s0 ∧ s_id y = s_id x).
Implicit Types (d : Db) (m : ActiveMap) (r e : Reservation).

(** A row an operator made and no push has touched. *)
Definition operator_row r : Prop :=
  r_sourceType r = Manual ∧ Js.otruthy (pushedToId (r_push r)) = false ∧ pushStatus (r_push r) ≠ Some Pending.

#[global] Instance operator_row_dec r : Decision (operator_row r).
Proof. unfold operator_row. apply _. Defined.

(** The key of the address a row holds. *)
Definition addr_key r : option string :=
  if Js.otruthy (r_ipAddress r) then Some (reservationKey (r_subnetId r) (default "" (r_ipAddress r))) else None.
(** The keys under which the map may have a row. *)
Definition indexed (k : string) r : Prop :=
  addr_key r = Some k ∨
  addr_key r = None ∧ (k = reservationKey (r_subnetId r) "" ∨ k = reservationKey (r_subnetId r) "__full__").
(** An active row holds the address. *)
Definition held_at (k : string) d : Prop :=
  ∃ r, r ∈ reservation_rows (dd_ipam d) ∧ r_status r = Active ∧ addr_key r = Some k.

(** The rows of the map are active rows of the table, and those of [spared] are
    seen as the operator's. *)
Definition in_table (k : string) e d : Prop :=
  ∃ r, r ∈ reservation_rows (dd_ipam d) ∧ r_id r = r_id e ∧ r_status r = Active ∧ r_sourceType r ≠ DnsResolved ∧ indexed k r.
Record map_ok m d : Prop := {
  mo_keys : NoDup (mkeys m);
  mo_there k e : (k, e) ∈ m → in_table k e d;
  mo_spared k e r : (k, e) ∈ m → r ∈ spared → r_id e = r_id r → operator_row e;
}.
(** [hs] are keys of addresses that are held. *)
Record sync_ok (hs : list string) m d : Prop := {
  so_res : res_ok (dd_ipam d);
  so_one : one_pending (dd_conflicts d);
  so_net : subnets (dd_ipam d) = subnets s0 ∧ ipBlocks (dd_ipam d) = ipBlocks s0;
  so_rows r : r ∈ spared → r ∈ reservation_rows (dd_ipam d);
  so_held k : k ∈ hs → held_at k d;
  so_map : map_ok m d;
}.

(** *** Statements *)

Section statements.
Context (hs : list string).

Lemma sync_world {A} (g : W → A) m : triple (sync_ok hs m) (on_dd (hgets (λ s : St, g (world s)))) (λ _, sync_ok hs m) never.
Proof. intros [s l] Hok. exact Hok. Qed.
Lemma sync_newDate m : triple (sync_ok hs m) (on_dd newDate) (λ _, sync_ok hs m) never.
Proof. apply sync_world. Qed.
Lemma sync_log m a l i : triple (sync_ok hs m) (on_dd (logEvent a l i)) (λ _, sync_ok hs m) never.
Proof. intros [s k] [[Hd Hp Hf] ? ? ? ? [? ? ?]]. by split; [split| | | | |split]. Qed.
Lemma sync_set_conflicts m f :
  (∀ l, one_pending l → one_pending (f l)) → triple (sync_ok hs m) (set_conflicts f) (λ _, sync_ok hs m) never.
Proof. intros Hf [s l] [? ? ? ? ? [? ? ?]]. split; simpl in *; [done|by apply Hf|done|done|done|by split]. Qed.

Lemma sync_upsert m rid p e : triple (sync_ok hs m) (upsertConflict rid integrationId p e) (λ _, sync_ok hs m) never.
Proof.
  eapply triple_bind; [apply sync_newDate|]. intros t. apply sync_set_conflicts. intros l. apply raise_one_pending.
Qed.
Lemma sync_dismiss m rid : triple (sync_ok hs m) (dismissConflicts rid) (λ _, sync_ok hs m) never.
Proof.
  eapply triple_bind; [apply sync_newDate|]. intros t. apply sync_set_conflicts. intros l. apply dismiss_one_pending.
Qed.

(** *** Rows of the map *)

Lemma map_ok_mset m d k e e' :
  map_ok m d → (k, e) ∈ m → r_id e' = r_id e → ¬ operator_row e → map_ok (mset k e' m) d.
Proof.
  intros [Hk Ht Hs] He Hid Hno. split; [by apply mset_NoDup|..].
  - intros k' x [[= -> ->]|Hx]%elem_mset; [|by apply Ht]. unfold in_table. rewrite Hid. by apply (Ht k e).
  - intros k' x r [[= -> ->]|Hx]%elem_mset Hr Hx'; [|by eapply Hs]. exfalso. apply Hno. eapply Hs; [done..|congruence].
Qed.
Lemma sync_ok_mset m d k e e' :
  sync_ok hs m d → (k, e) ∈ m → r_id e' = r_id e → ¬ operator_row e → sync_ok hs (mset k e' m) d.
Proof. intros [? ? ? ? ? ?] ???. split; try done. by eapply map_ok_mset. Qed.

(** The columns that place a row are the same. *)
Definition stays_put r r' : Prop :=
  r_id r' = r_id r ∧ r_subnetId r' = r_subnetId r ∧ r_ipAddress r' = r_ipAddress r ∧ r_status r' = r_status r.
Lemma same_place_key r r' : stays_put r r' → addr_key r' = addr_key r.
Proof. intros (_ & Hs & Hi & _). unfold addr_key. by rewrite Hs, Hi. Qed.
Lemma same_place_indexed k r r' : stays_put r r' → indexed k r → indexed k r'.
Proof. intros Hp. unfold indexed. rewrite (same_place_key _ _ Hp). destruct Hp as (_ & -> & _). done. Qed.
End statements.

(** A statement on the reservations that leaves the active rows where they are. *)
Lemma sync_ok_rows hs hs' m s s' l :
  sync_ok hs m (mkSyncDb s l) → res_ok s' → subnets s' = subnets s → ipBlocks s' = ipBlocks s →
  (∀ r, r ∈ reservation_rows s → r_status r = Active → r_sourceType r ≠ DnsResolved →
     ∃ r', r' ∈ reservation_rows s' ∧ stays_put r r' ∧ r_sourceType r' ≠ DnsResolved) →
  (∀ r k, r ∈ reservation_rows s → r_status r = Active → addr_key r = Some k → k ∈ hs' →
     ∃ r', r' ∈ reservation_rows s' ∧ stays_put r r') →
  (∀ r, r ∈ spared → r ∈ reservation_rows s') → hs' ⊆ hs →
  sync_ok hs' m (mkSyncDb s' l).
Proof.
  intros [? ? [? ?] ? Hh [Hnd Hth Hsp]] Hres Hsub Hblk Hlive Hheld Hrows Hhs.
  split; try done; [split; simpl in *; congruence| |split; [done| |done]].
  - intros k Hk. destruct (Hh k (Hhs k Hk)) as (r & Hr & Hst & Hkey). destruct (Hheld r k Hr Hst Hkey Hk) as (r' & Hr' & Hp).
    exists r'. split_and!; [done| |by rewrite (same_place_key _ _ Hp)]. by destruct Hp as (_ & _ & _ & ->).
  - intros k e He. destruct (Hth k e He) as (r & Hr & Hid & Hst & Hdns & Hix).
    destruct (Hlive r Hr Hst Hdns) as (r' & Hr' & Hp & Hdns'). exists r'. split_and!; [done|..|done|].
    + destruct Hp as (-> & _). done.
    + by destruct Hp as (_ & _ & _ & ->).
    + by eapply same_place_indexed.
Qed.
(** Rewrites a row in its place. *)
Record row_edit (f : Reservation → Reservation) : Prop := {
  re_key : same_key f;
  re_push : keeps_push f;
  re_source r : r_sourceType r ≠ DnsResolved → r_sourceType (f r) ≠ DnsResolved;
}.
Lemma sync_update hs m k e f :
  row_edit f → (k, e) ∈ m → ¬ operator_row e →
  triple (sync_ok hs m) (edit_row (r_id e) f) (λ _, sync_ok hs m) never.
Proof.
  intros [Hf Hp Hsrc] He Hno [s l] Hok. unfold edit_row, hbind, on_dd. simpl.
  pose proof (update_same_key (r_id e) f s Hf (so_res _ _ _ Hok)) as Hu.
  pose proof (keeps_update (r_id e) f Hf Hp s) as Hk.
  destruct (reservation_update (r_id e) f s) as [s' [r|x]].
  - destruct Hu as (t & -> & _ & _ & Hrows).
    assert (∀ y, y ∈ reservation_rows s →
      (if has_id (r_id e) y then f y else y) ∈ reservation_rows (set_reservations t s)) as Hin.
    { intros y Hy. rewrite Hrows, elem_of_map_where. by exists y. }
    eapply sync_ok_rows; [done|by eapply Hk; [apply Hok|]|done|done|..|done].
    + intros y Hy _ Hd. eexists. split; [by apply Hin|]. destruct (has_id _ y); [|done]. split; [apply Hf|by apply Hsrc].
    + intros y k' Hy _ _ _. eexists. split; [by apply Hin|]. destruct (has_id _ y); [apply Hf|done].
    + intros y Hy. specialize (Hin y (so_rows _ _ _ Hok y Hy)). destruct (has_id (r_id e) y) eqn:Hid; [|done].
      exfalso. apply Hno. apply bool_decide_eq_true in Hid. by eapply (mo_spared _ _ (so_map _ _ _ Hok)).
  - destruct Hu as (_ & _ & Hno'). apply Hno'. destruct (mo_there _ _ (so_map _ _ _ Hok) k e He) as (r & Hr & <- & _).
    by apply (list_elem_of_fmap_2 r_id).
Qed.

(** *** A new row *)

Context (Hspared : ∀ r, r ∈ spared → operator_row r).

Lemma sync_release_dns hs m sub ip :
  Js.truthy ip = true →
  triple (sync_ok hs m) (on_dd (releaseDnsResolvedAt sub ip))
    (λ _, sync_ok (filter (λ k, k ≠ reservationKey sub ip) hs) m) never.
Proof.
  intros Hip [s l] Hok. unfold on_dd. simpl.
  assert (filter (λ k, k ≠ reservationKey sub ip) hs ⊆ hs) as Hsub by by intros k [_ ?]%list_elem_of_filter.
  destruct (releaseDns_spec sub ip s (so_res _ _ _ Hok)) as (s' & -> & Hres & [? ?] & _ & _ & _ & [[Hrows _]|Hrows]).
  - apply (sync_ok_rows hs _ m s); try done; rewrite Hrows; [intros r ? _ ?; by exists r|intros r k ? _ _ _; by exists r|apply Hok].
  - assert (∀ y, y ∈ reservation_rows s → dns_at sub ip y = false → y ∈ reservation_rows s') as Hin.
    { intros y Hy Hd. rewrite Hrows, elem_of_map_where. exists y. by rewrite Hd. }
    assert (∀ y, r_sourceType y ≠ DnsResolved → dns_at sub ip y = false) as Hdns.
    { intros y Hy. unfold dns_at. rewrite (bool_decide_eq_false_2 (r_sourceType y = DnsResolved)) by done. by rewrite andb_false_r. }
    apply (sync_ok_rows hs _ m s); try done.
    + intros y Hy _ Hd. exists y. by split; [apply Hin, Hdns|].
    + intros y k Hy _ Hkey [Hne _]%list_elem_of_filter. exists y. split; [|done]. apply Hin; [done|].
      apply not_true_iff_false. unfold dns_at. rewrite !andb_true_iff, !bool_decide_eq_true. intros [[[Hs Hi] _] _].
      apply Hne. unfold addr_key in Hkey. rewrite Hi, Hs in Hkey. simpl in Hkey. rewrite Hip in Hkey. by injection Hkey.
    + intros y Hy. apply Hin; [by apply (so_rows _ _ _ Hok)|]. apply Hdns. by destruct (Hspared y Hy) as (-> & _).
Qed.
Lemma sync_ok_held hs k m d : sync_ok (filter (λ k', k' ≠ k) hs) m d → held_at k d → sync_ok hs m d.
Proof.
  intros [? ? ? ? Hh ?] Hk. split; try done. intros k' Hk'. destruct (decide (k' = k)) as [->|Hne]; [done|].
  by apply Hh, list_elem_of_filter.
Qed.
Lemma sync_create hs m x ip f :
  x ∈ subs → Js.truthy ip = true →
  (∀ id, let r := f id in r_id r = id ∧ r_subnetId r = s_id x ∧ r_ipAddress r = Some ip ∧ r_status r = Active ∧
     r_sourceType r ≠ DnsResolved ∧ push_ok r) →
  let k := reservationKey (s_id x) ip in
  triple (sync_ok hs m) (on_dd (reservation_create f)) (λ r d, sync_ok hs (mset k r m) d ∧ held_at k d)
    (λ d, sync_ok hs m d ∧ held_at k d).
Proof.
  intros Hx Hip Hf k [s l] Hok. unfold on_dd. simpl. destruct (Hsubs x Hx) as (y & Hy & Hid).
  assert (subnets s = subnets s0) as Hs by apply (so_net _ _ _ Hok).
  assert (y ∈ subnet_rows s) as Hy' by (unfold subnet_rows in *; by rewrite Hs).
  assert (∀ id, addr_key (f id) = Some k) as Hkey.
  { intros id. destruct (Hf id) as (_ & Hsub & Hi & _). unfold addr_key. rewrite Hi, Hsub. simpl. by rewrite Hip. }
  assert (∀ id, r_id (f id) = id ∧ r_subnetId (f id) = s_id x ∧ push_ok (f id)) as Hf'.
  { intros id. by destruct (Hf id) as (? & ? & _ & _ & _ & ?). }
  pose proof (create_on_subnet f y s (so_res _ _ _ Hok) Hy') as Hc. rewrite Hid in Hc. specialize (Hc Hf').
  destruct (reservation_create f s) as [s' [r|e]].
  - destruct Hc as (t & id & -> & -> & Hnew & Hres & Hrows).
    destruct (Hf id) as (Hfid & _ & _ & Hfst & Hfdns & _).
    assert (∀ z, z ∈ reservation_rows (set_reservations t s) ↔ z = f id ∨ z ∈ reservation_rows s) as Hin.
    { intros z. unfold reservation_rows at 1. simpl. rewrite Hrows. apply elem_of_cons. }
    assert (sync_ok hs m (mkSyncDb (set_reservations t s) l)) as Hok1.
    { apply (sync_ok_rows hs hs m s); try done.
      - intros z Hz _ Hd. exists z. split; [rewrite Hin; by right|done].
      - intros z k' Hz _ _ _. exists z. split; [rewrite Hin; by right|done].
      - intros z Hz. rewrite Hin. right. by apply (so_rows _ _ _ Hok). }
    split; [|exists (f id); split_and!; [apply Hin; by left|done|apply Hkey]].
    split; [apply Hok1..|]. destruct (so_map _ _ _ Hok1) as [Hnd Hth Hsp]. split; [by apply mset_NoDup|..].
    + intros k' z [[= -> ->]|Hz]%elem_mset; [|by apply Hth]. exists (f id).
      split_and!; [apply Hin; by left|done..|by left].
    + intros k' z r [[= -> ->]|Hz]%elem_mset Hr Hid'; [|by eapply Hsp]. exfalso. apply Hnew. rewrite <-Hfid, Hid'.
      apply (list_elem_of_fmap_2 r_id). by apply (so_rows _ _ _ Hok).
  - destruct Hc as [-> (r & id & Hr & Hc)]. split; [done|]. destruct (Hf id) as (_ & Hfs & Hfi & Hfst & _).
    apply reservation_conflict_true in Hc as (Hsub & Hst & (a & Ha & Hb)). exists r. split_and!; [done|congruence|].
    rewrite <-(Hkey id). unfold addr_key. by rewrite Ha, Hb, Hsub.
Qed.

(** *** The phases *)

Notation keeps_map hs f := (∀ m, triple (sync_ok hs m) (f m) (sync_ok hs) never).

Ltac step lem := eapply triple_bind; [apply lem|intros ?; cbv beta].
Ltac finish := apply triple_ret; auto.

Lemma keeps_push_same f : (∀ r, r_push (f r) = r_push r) → keeps_push f.
Proof. intros Hf r Hr. unfold push_ok. by rewrite Hf. Qed.
Lemma edit_same f :
  same_key f → (∀ r, r_push (f r) = r_push r) → (∀ r, r_sourceType (f r) = r_sourceType r ∨ r_sourceType (f r) ≠ DnsResolved) →
  row_edit f.
Proof. intros Hk Hp Hs. split; [done|by apply keeps_push_same|]. intros r Hr. by destruct (Hs r) as [->|]. Qed.
Lemma not_manual e : r_sourceType e ≠ Manual → ¬ operator_row e.
Proof. by intros ? [? _]. Qed.
Lemma found_subnet ip x : findSubnetForIp subs ip = Some x → x ∈ subs.
Proof. intros [? _]%find_some_iff. done. Qed.

Lemma sync_reserve hs x ip p mac ex seen m :
  x ∈ subs → Js.truthy ip = true → pd_sourceType p ≠ DnsResolved →
  triple (sync_ok hs m) (reserve integrationId x ip p mac ex seen m)
    (λ m' d, sync_ok hs m' d ∧ held_at (reservationKey (s_id x) ip) d) never.
Proof.
  intros Hx Hip Hp. unfold reserve. set (k := reservationKey (s_id x) ip). set (hs' := filter (λ k', k' ≠ k) hs).
  assert (∀ m d, sync_ok hs' m d ∧ held_at k d → sync_ok hs m d ∧ held_at k d) as Hback.
  { intros m' d [Hd Hk]. split; [|done]. by eapply sync_ok_held. }
  eapply (triple_catch _ (λ d, sync_ok hs m d ∧ held_at k d)).
  - eapply triple_bind; [by apply triple_total, sync_release_dns|]. intros ?. cbv beta. fold k hs'.
    eapply triple_bind; [apply triple_total, sync_newDate|]. intros t. cbv beta.
    eapply triple_bind; [|intros r; apply triple_ret; intros d; exact (Hback (mset k r m) d)].
    eapply triple_weaken; [by apply (sync_create hs' m x ip)|done|done|intros d; apply Hback].
  - intros _. intros d [Hd Hk]. pose proof (sync_log hs m "integration.sync" "error" (Some integrationId) d Hd) as Hl.
    unfold syncLog_error, hbind. destruct (on_dd _ d) as [d' [a|]] eqn:E; [|done]. split; [done|].
    destruct d as [s l]. injection E as <-. exact Hk.
Qed.

(** With the keys that are held fixed. *)
Section phases.
Context (hs : list string).

Lemma sync_reserved x ip p mac ex seen m :
  x ∈ subs → Js.truthy ip = true → pd_sourceType p ≠ DnsResolved →
  triple (sync_ok hs m) (reserve integrationId x ip p mac ex seen m) (sync_ok hs) never.
Proof. intros Hx Hip Hp. eapply triple_weaken; [by apply sync_reserve|done| |done]. by intros m' d [? _]. Qed.
Lemma sync_claim ip p : Js.truthy ip = true → pd_sourceType p ≠ DnsResolved → keeps_map hs (claim_ip integrationId subs ip p).
Proof.
  intros Hip Hp m. unfold claim_ip. destruct (findSubnetForIp subs ip) as [x|] eqn:Hx; [|finish].
  destruct (mget _ m) as [e|]; [|by apply sync_reserved; [eapply found_subnet|..]].
  eapply (triple_bind _ (λ _, sync_ok hs m)); [|intros _; finish].
  destruct (bool_decide _); [apply sync_upsert|finish].
Qed.
Lemma sync_switch_ok sw : keeps_map hs (sync_switch integrationId integrationType subs sw).
Proof. intros m. unfold sync_switch. destruct (Js.truthy _) eqn:Hip; [by apply sync_claim|finish]. Qed.
Lemma sync_ap_ok byHostname ap : keeps_map hs (sync_ap integrationId integrationType subs byHostname ap).
Proof. intros m. unfold sync_ap. destruct (Js.truthy _) eqn:Hip; [by apply sync_claim|finish]. Qed.
Lemma sync_interface_ok i : keeps_map hs (sync_interface integrationId integrationType subs i).
Proof. intros m. unfold sync_interface. destruct (Js.truthy _) eqn:Hip; [by apply sync_claim|finish]. Qed.

(** A row of the map changes in the table and in the map. *)
Lemma sync_change m k e e' f :
  row_edit f → mget k m = Some e → ¬ operator_row e → r_id e' = r_id e →
  triple (sync_ok hs m) (edit_row (r_id e) f) (λ _ d, sync_ok hs m d ∧ sync_ok hs (mset k e' m) d) never.
Proof.
  intros Hf He%mget_elem Hno Hid. eapply triple_weaken; [by eapply (sync_update hs m k e f)|done| |done].
  intros ? d Hd. split; [done|by eapply sync_ok_mset].
Qed.
Lemma edit_vipInfo v : row_edit (set_vipInfo v).
Proof. apply edit_same; auto. done. Qed.
Lemma sync_stamp_vip key new e m :
  mget key m = Some e → ¬ operator_row e → triple (sync_ok hs m) (stamp_vip key new e m) (sync_ok hs) never.
Proof.
  intros He Hno. unfold stamp_vip. destruct (info_differs _ _); [|finish]. eapply triple_bind.
  - apply (sync_change m key e (set_vipInfo (Some new) e)); [apply edit_vipInfo|done..].
  - intros ?. apply triple_ret. by intros d [_ ?].
Qed.
Lemma sync_vip_ip_ok v ip role : Js.truthy ip = true → keeps_map hs (sync_vip_ip integrationId subs v ip role).
Proof.
  intros Hip m. unfold sync_vip_ip. destruct (findSubnetForIp subs ip) as [x|] eqn:Hx; [|finish].
  destruct (mget _ m) as [e|] eqn:He; [|by apply sync_reserved; [eapply found_subnet|..]].
  destruct (r_sourceType e) eqn:Hs; try finish.
  - step sync_upsert. finish.
  - eapply triple_bind; [apply sync_stamp_vip; [done|by apply not_manual; rewrite Hs]|]. intros m'. step sync_upsert. finish.
  - eapply triple_bind; [apply sync_stamp_vip; [done|by apply not_manual; rewrite Hs]|]. intros m'. step sync_upsert. finish.
  - apply sync_stamp_vip; [done|by apply not_manual; rewrite Hs].
Qed.
Lemma sync_each {A} (f : A → ActiveMap → M Db ActiveMap) l :
  (∀ a, a ∈ l → keeps_map hs (f a)) → keeps_map hs (each f l).
Proof.
  induction l as [|a l IH]; intros Hf m; simpl; [finish|]. eapply triple_bind; [apply Hf; by left|].
  apply IH. intros b Hb. apply Hf. by right.
Qed.

(** *** Phase 5 *)

Lemma dhcp_source_dns dhcp : dhcp_source dhcp ≠ DnsResolved.
Proof. unfold dhcp_source. by repeat case_match. Qed.
Lemma sync_queued_meets key dhcp e m :
  mget key m = Some e → r_sourceType e = Manual → queued e = true →
  triple (sync_ok hs m) (queued_meets_dhcp integrationId key dhcp e m) (sync_ok hs) never.
Proof.
  intros He Hs Hq. assert (¬ operator_row e) as Hno.
  { intros (_ & _ & Hp). by apply bool_decide_eq_true in Hq. }
  unfold queued_meets_dhcp. set (adoptable := _ && _).
  assert (∀ (why : string) (e' : Reservation) (act : string), r_id e' = r_id e →
    triple (sync_ok hs m) (let! t := on_dd newDate in
      edit_row (r_id e) (on_push (stamp_collided why t)) ;! on_dd (logEvent act "warning" (Some (r_id e))) ;!
      hret (mset key e' m)) (sync_ok hs) never) as Hcollide.
  { intros why e' act Hid. step sync_newDate. eapply triple_bind.
    - apply (sync_change m key e e'); [split; auto with ipam|done..].
    - intros ?. eapply triple_pre; [intros d [_ Hd]; exact Hd|]. step sync_log. finish. }
  destruct adoptable; [|by apply Hcollide]. destruct (de_scopeId dhcp) as [sc|]; [|by apply Hcollide].
  destruct (de_entryId dhcp) as [en|]; [|by apply Hcollide].
  step sync_newDate. eapply triple_bind.
  - apply (sync_change m key e (set_pushStatus (Some Synced) (set_r_sourceType DhcpReservation e))); try done.
  - intros ?. eapply triple_pre; [intros d [_ Hd]; exact Hd|]. step sync_dismiss. step sync_log. finish.
Qed.
Lemma sync_manual_meets dhcp p e key m :
  mget key m = Some e → triple (sync_ok hs m) (manual_meets_dhcp integrationId dhcp p e) (λ _, sync_ok hs m) never.
Proof.
  intros He. unfold manual_meets_dhcp. destruct (Js.otruthy _) eqn:Hp; [|apply sync_upsert].
  step sync_newDate. eapply triple_bind.
  - apply (sync_update hs m key e); [apply edit_same; auto; done|by apply mget_elem|]. intros (_ & Ho & _). congruence.
  - intros ?. apply sync_dismiss.
Qed.
Lemma sync_vip_meets key dhcp p ks ds e m :
  mget key m = Some e → r_sourceType e = Vip → pd_sourceType p ≠ DnsResolved →
  triple (sync_ok hs m) (vip_meets_dhcp integrationId key dhcp p ks ds e m) (sync_ok hs) never.
Proof.
  intros He Hs Hp. assert (¬ operator_row e) as Hno by (apply not_manual; by rewrite Hs).
  unfold vip_meets_dhcp. destruct (_ && _).
  - step sync_newDate. eapply triple_bind.
    + apply (sync_change m key e (converted dhcp p e e)); try done. by apply edit_same; auto.
    + intros ?. eapply triple_pre; [intros d [_ Hd]; exact Hd|]. step sync_dismiss. step sync_log. finish.
  - eapply (triple_bind _ (sync_ok hs)).
    + destruct (takes_mac dhcp e); [|finish]. eapply triple_bind.
      * apply (sync_change m key e (with_identity (r_hostname e) (r_owner e) (entry_mac dhcp) e)); try done.
        by apply edit_same; auto.
      * intros ?. apply triple_ret. by intros d [_ ?].
    + intros m'. step sync_upsert. finish.
Qed.
Lemma sync_dhcp_meets dhcp p e key m :
  mget key m = Some e → r_sourceType e ≠ Manual → pd_sourceType p ≠ DnsResolved →
  triple (sync_ok hs m) (dhcp_meets_dhcp dhcp p e) (λ _, sync_ok hs m) never.
Proof.
  intros He Hs Hp. unfold dhcp_meets_dhcp. destruct (_ || _); [|finish]. step sync_newDate.
  apply (sync_update hs m key e); [|by apply mget_elem|by apply not_manual].
  apply edit_same; [done|done|]. intros r. unfold retyped. simpl. destruct (negb _); auto.
Qed.
Lemma sync_dhcp_entry_ok look ks ds dhcp : keeps_map hs (sync_dhcp_entry integrationId integrationType subs look ks ds dhcp).
Proof.
  intros m. unfold sync_dhcp_entry. destruct (Js.truthy _) eqn:Hip; simpl; [|finish].
  destruct (findSubnetForIp _ _) as [x|] eqn:Hx; [|finish].
  destruct (mget _ m) as [e|] eqn:He; [|apply sync_reserved; [by eapply found_subnet|done|apply dhcp_source_dns]].
  destruct (r_sourceType e) eqn:Hs; try finish.
  - destruct (queued e) eqn:Hq; [by apply sync_queued_meets|]. eapply triple_bind; [by eapply sync_manual_meets|].
    intros ?. finish.
  - eapply triple_bind; [eapply sync_dhcp_meets; [done|by rewrite Hs|apply dhcp_source_dns]|]. intros ?. finish.
  - eapply triple_bind; [eapply sync_dhcp_meets; [done|by rewrite Hs|apply dhcp_source_dns]|]. intros ?. finish.
  - apply sync_vip_meets; [done|done|apply dhcp_source_dns].
Qed.
End phases.

(** *** Reported addresses are held *)

Context (Hbar : ∀ y, y ∈ subnet_rows s0 → no_char "|" (s_id y) = true).

Lemma sync_ok_subset hs hs' m d : hs' ⊆ hs → sync_ok hs m d → sync_ok hs' m d.
Proof. intros Hsub [? ? ? ? Hh ?]. split; try done. intros k Hk. by apply Hh, Hsub. Qed.
Lemma sync_ok_cons hs k m d : sync_ok hs m d → held_at k d → sync_ok (k :: hs) m d.
Proof. intros [? ? ? ? Hh ?] Hk. split; try done. intros k' [->|Hk']%elem_of_cons; [done|by apply Hh]. Qed.
Lemma in_table_held hs m d e x ip :
  sync_ok hs m d → x ∈ subs → Js.truthy ip = true → ip ≠ "__full__"%string →
  mget (reservationKey (s_id x) ip) m = Some e → held_at (reservationKey (s_id x) ip) d.
Proof.
  intros Hok Hx Hip Hfull He%mget_elem. destruct (mo_there _ _ (so_map _ _ _ Hok) _ _ He) as (r & Hr & _ & Hst & _ & [Hk|[_ Hk]]).
  { by exists r. }
  exfalso. destruct (ro_fk _ (so_res _ _ _ Hok) r Hr) as (z & Hz & Hzid). destruct (Hsubs x Hx) as (y & Hy & Hyid).
  assert (subnets (dd_ipam d) = subnets s0) as Hs by apply (so_net _ _ _ Hok).
  unfold subnet_rows in Hz. rewrite Hs in Hz. apply Hbar in Hz, Hy. rewrite Hzid in Hz. rewrite Hyid in Hy.
  destruct Hk as [[_ ->]%key_inj|[_ ->]%key_inj]; done.
Qed.
Lemma sync_dhcp_entry_holds hs look ks ds dhcp x m :
  Js.truthy (de_ipAddress dhcp) = true → de_ipAddress dhcp ≠ "__full__"%string →
  findSubnetForIp subs (de_ipAddress dhcp) = Some x →
  triple (sync_ok hs m) (sync_dhcp_entry integrationId integrationType subs look ks ds dhcp m)
    (sync_ok (reservationKey (s_id x) (de_ipAddress dhcp) :: hs)) never.
Proof.
  intros Hip Hfull Hx. destruct (mget (reservationKey (s_id x) (de_ipAddress dhcp)) m) as [e|] eqn:He.
  - eapply triple_pre; [|apply sync_dhcp_entry_ok]. intros d Hd. apply sync_ok_cons; [done|].
    eapply in_table_held; [done|by eapply found_subnet|done..].
  - unfold sync_dhcp_entry. rewrite Hip, Hx, He. simpl. eapply triple_weaken.
    + apply sync_reserve; [by eapply found_subnet|done|apply dhcp_source_dns].
    + done.
    + intros m' d [Hd Hk]. by apply sync_ok_cons.
    + done.
Qed.

(** The sweep leaves the VIP of a key alone. *)
Definition vip_settled (ks ds : list string) (k : string) m : Prop :=
  ∀ row, mget k m = Some row → vip_gone ks ds k row = false.
Lemma settled_mset ks ds k k0 v m :
  k = k0 ∨ vip_settled ks ds k m → vip_gone ks ds k0 v = false → vip_settled ks ds k (mset k0 v m).
Proof.
  intros Hk Hv row. rewrite mget_mset. case_decide as Heq; [intros [= <-]; by subst|]. destruct Hk as [?|Hk]; [done|apply Hk].
Qed.
Lemma settled_same ks ds k k0 e m :
  k = k0 ∨ vip_settled ks ds k m → mget k0 m = Some e → vip_gone ks ds k0 e = false → vip_settled ks ds k m.
Proof. intros [->|Hk] He Hv; [|done]. intros row Hrow. congruence. Qed.
Lemma not_vip_gone ks ds k r : r_sourceType r ≠ Vip → vip_gone ks ds k r = false.
Proof. intros Hr. unfold vip_gone. by rewrite bool_decide_eq_false_2. Qed.

Notation leaves Q m := (triple (λ _ : Db, True) m (λ m' _, Q m') (λ _, True)).
Lemma anything {A} (m : M Db A) : triple (λ _, True) m (λ _ _, True) (λ _, True).
Proof. intros d _. by destruct (m d) as [? [?|?]]. Qed.
Lemma leaves_after {A} (m : M Db A) (k : A → M Db ActiveMap) (Q : ActiveMap → Prop) :
  (∀ a, leaves Q (k a)) → leaves Q (hbind m k).
Proof. intros Hk. eapply triple_bind; [apply anything|]. intros a. apply Hk. Qed.
Lemma leaves_ret (Q : ActiveMap → Prop) m : Q m → leaves Q (hret m).
Proof. intros Hm. by apply triple_ret. Qed.

Lemma reserve_settled hs ks ds k x ip p mac ex seen m :
  Js.truthy ip = true → mget (reservationKey (s_id x) ip) m = None → pd_sourceType p ≠ Vip →
  k = reservationKey (s_id x) ip ∨ vip_settled ks ds k m →
  triple (sync_ok hs m) (reserve integrationId x ip p mac ex seen m) (λ m' _, vip_settled ks ds k m') (λ _, True).
Proof.
  intros Hip Hnone Hp Hk. unfold reserve. apply (triple_catch _ (λ _, True)).
  - eapply triple_bind; [by apply triple_total, sync_release_dns|]. intros ?. cbv beta.
    eapply triple_bind; [apply triple_total, sync_newDate|]. intros t. cbv beta. intros [s l] Hok. unfold hbind, on_dd. simpl.
    set (f := found_row _ _ _ _ _ _ _).
    pose proof (reservation_create_spec f s (λ _, eq_refl) (ro_db _ (so_res _ _ _ Hok))) as Hc.
    destruct (reservation_create f s) as [s' [r|?]]; [|done]. destruct Hc as (_ & _ & _ & (id & _ & ->) & _). simpl.
    apply settled_mset; [done|]. by apply not_vip_gone.
  - intros _. apply leaves_after. intros _. apply leaves_ret. destruct Hk as [->|Hk]; [|done].
    intros row Hrow. congruence.
Qed.
Lemma dhcp_source_vip dhcp : dhcp_source dhcp ≠ Vip.
Proof. unfold dhcp_source. by repeat case_match. Qed.
Lemma vip_meets_settled k key dhcp p ks ds e m :
  mget key m = Some e → r_sourceType e = Vip → pd_sourceType p ≠ Vip → k = key ∨ vip_settled ks ds k m →
  leaves (vip_settled ks ds k) (vip_meets_dhcp integrationId key dhcp p ks ds e m).
Proof.
  intros He Hs Hp Hk. unfold vip_meets_dhcp. destruct (_ && _) eqn:Hgone.
  - do 4 (apply leaves_after; intros ?). apply leaves_ret, settled_mset; [done|]. by apply not_vip_gone.
  - assert (∀ r, r_vipInfo r = r_vipInfo e → vip_gone ks ds key r = false) as Hstay.
    { intros r Hr. unfold vip_gone. rewrite Hr, <-andb_assoc, (andb_comm (bool_decide (_ ∈ ds))), Hgone. apply andb_false_r. }
    eapply (triple_bind _ (λ m' _, vip_settled ks ds k m')).
    + destruct (takes_mac dhcp e); [|by apply leaves_ret; eapply settled_same; [..|apply Hstay]].
      apply leaves_after. intros ?. apply leaves_ret, settled_mset; [done|by apply Hstay].
    + intros m' d Hm'. unfold hbind. by destruct (upsertConflict (r_id e) integrationId p e d) as [d' [u|x]].
Qed.
Lemma sync_dhcp_entry_settled hs look ks ds dhcp m k :
  vip_settled ks ds k m ∨ (∃ x, Js.truthy (de_ipAddress dhcp) = true ∧ findSubnetForIp subs (de_ipAddress dhcp) = Some x ∧
    k = reservationKey (s_id x) (de_ipAddress dhcp)) →
  triple (sync_ok hs m) (sync_dhcp_entry integrationId integrationType subs look ks ds dhcp m)
    (λ m' _, vip_settled ks ds k m') (λ _, True).
Proof.
  intros Hk. unfold sync_dhcp_entry. destruct (Js.truthy _) eqn:Hip; simpl.
  2:{ apply triple_ret. intros _ _. by destruct Hk as [?|(x & ? & _)]. }
  destruct (findSubnetForIp _ _) as [x|] eqn:Hx.
  2:{ apply triple_ret. intros _ _. by destruct Hk as [?|(x & _ & ? & _)]. }
  set (key := reservationKey (s_id x) (de_ipAddress dhcp)) in *.
  assert (k = key ∨ vip_settled ks ds k m) as Hk'.
  { destruct Hk as [?|(y & _ & Hy & ->)]; [by right|]. left. injection Hy as <-. done. }
  destruct (mget key m) as [e|] eqn:He; [|by apply reserve_settled; [..|apply dhcp_source_vip|]].
  assert (r_sourceType e ≠ Vip → vip_settled ks ds k m) as Hsame.
  { intros Hs. eapply settled_same; [done..|by apply not_vip_gone]. }
  apply (triple_pre (λ _, True)); [done|]. destruct (r_sourceType e) eqn:Hs; try (by apply leaves_ret, Hsame).
  - destruct (queued e) eqn:Hq; [|by apply leaves_after; intros ?; apply leaves_ret, Hsame].
    unfold queued_meets_dhcp. assert (∀ e', r_sourceType e' ≠ Vip → vip_settled ks ds k (mset key e' m)) as Hset.
    { intros e' He'. apply settled_mset; [done|by apply not_vip_gone]. }
    repeat case_match; do 3 (apply leaves_after; intros ?); try (apply leaves_after; intros ?); apply leaves_ret, Hset; simpl;
      by rewrite ?Hs.
  - apply leaves_after; intros ?; by apply leaves_ret, Hsame.
  - apply leaves_after; intros ?; by apply leaves_ret, Hsame.
  - by apply vip_meets_settled; [..|apply dhcp_source_vip|].
Qed.

(** The map after phase 5. *)
Record found_ok (hs ks ds : list string) m d : Prop := {
  fo_sync : sync_ok hs m d;
  fo_settled k : k ∈ hs → vip_settled ks ds k m;
}.
Lemma dhcp_entries_ok look ks ds devices l hs m :
  (∀ dhcp, dhcp ∈ l → de_ipAddress dhcp ≠ "__full__"%string) → (∀ k, k ∈ hs → vip_settled ks ds k m) →
  triple (sync_ok hs m) (each (sync_dhcp_entry integrationId integrationType subs look ks ds) l m)
    (found_ok (stillOnGateKeys subs devices l ++ hs) ks ds) never.
Proof.
  revert hs m. induction l as [|dhcp l IH]; intros hs m Hfull Hset; simpl.
  { apply triple_ret. by split. }
  set (new := if _ && _ then _ else _).
  assert (∀ k, k ∈ new → ∃ x, Js.truthy (de_ipAddress dhcp) = true ∧ findSubnetForIp subs (de_ipAddress dhcp) = Some x ∧
    new = [k] ∧ k = reservationKey (s_id x) (de_ipAddress dhcp)) as Hnew.
  { intros k Hk. unfold new in *. destruct (Js.truthy _ && _) eqn:Hip; [|by apply elem_of_nil in Hk].
    apply andb_true_iff in Hip as [Hip _]. destruct (findSubnetForIp _ _) as [x|]; [|by apply elem_of_nil in Hk].
    apply list_elem_of_singleton in Hk as ->. by exists x. }
  eapply (triple_bind _ (λ m' d, sync_ok (new ++ hs) m' d ∧ ∀ k, k ∈ new ++ hs → vip_settled ks ds k m')).
  - intros d Hd.
    assert (∀ k, k ∈ new ++ hs → match sync_dhcp_entry integrationId integrationType subs look ks ds dhcp m d with
      | (_, Ok m') => vip_settled ks ds k m' | _ => True end) as Hs.
    { intros k Hk. pose proof (sync_dhcp_entry_settled hs look ks ds dhcp m k) as Hs.
      assert (vip_settled ks ds k m ∨ (∃ x, Js.truthy (de_ipAddress dhcp) = true ∧
        findSubnetForIp subs (de_ipAddress dhcp) = Some x ∧ k = reservationKey (s_id x) (de_ipAddress dhcp))) as Hcase.
      { apply elem_of_app in Hk as [(x & ? & ? & _ & ->)%Hnew|Hk]; [right; by exists x|left; by apply Hset]. }
      specialize (Hs Hcase d Hd). by destruct (sync_dhcp_entry _ _ _ _ _ _ _ _ d) as [? [?|?]]. }
    assert (match sync_dhcp_entry integrationId integrationType subs look ks ds dhcp m d with
      | (d', Ok m') => sync_ok (new ++ hs) m' d' | _ => False end) as Hok.
    { destruct new as [|k new'] eqn:Hn.
      - pose proof (sync_dhcp_entry_ok hs look ks ds dhcp m d Hd) as Hok. by destruct (sync_dhcp_entry _ _ _ _ _ _ _ _ d) as [? [?|?]].
      - destruct (Hnew k) as (x & Hip & Hx & [= ->] & ->); [by left|].
        pose proof (sync_dhcp_entry_holds hs look ks ds dhcp x m Hip (Hfull dhcp (list_elem_of_here _ _)) Hx d Hd) as Hok.
        by destruct (sync_dhcp_entry _ _ _ _ _ _ _ _ d) as [? [?|?]]. }
    destruct (sync_dhcp_entry _ _ _ _ _ _ _ _ d) as [d' [m'|x]]; [|done]. split; [done|exact Hs].
  - intros m' d [Hd Hs]. assert (∀ dhcp, dhcp ∈ l → de_ipAddress dhcp ≠ "__full__"%string) as Hfull'.
    { intros dhcp' Hin. apply Hfull. by right. }
    pose proof (IH (new ++ hs) m' Hfull' Hs d Hd) as Hl. destruct (each _ l m' d) as [d' [m''|x]]; [|done].
    assert (stillOnGateKeys subs devices (dhcp :: l) ++ hs ⊆ stillOnGateKeys subs devices l ++ new ++ hs) as Hsub.
    { intros k. unfold stillOnGateKeys at 1. rewrite bind_cons. fold new. rewrite !elem_of_app. tauto. }
    destruct Hl as [Q1 Q2]. split; [by eapply sync_ok_subset|]. intros k Hk. by apply Q2, Hsub.
Qed.

Lemma discover_rows_ok res look m :
  (∀ dhcp, dhcp ∈ dr_dhcpEntries res → de_ipAddress dhcp ≠ "__full__"%string) →
  (∀ v ir, v ∈ dr_vips res → ir ∈ vip_ips v → Js.truthy ir.1 = true) →
  triple (sync_ok [] m) (discover_rows integrationId integrationType subs res look m)
    (found_ok (stillOnGateKeys subs (dr_dhcpReservationsInventoriedDevices res) (dr_dhcpEntries res))
       (currentVipKeys subs (dr_vips res)) (dr_vipInventoriedDevices res)) never.
Proof.
  intros Hfull Hvips. unfold discover_rows.
  eapply triple_bind; [apply sync_each; intros ? _; apply sync_switch_ok|]. intros m1. cbv beta.
  eapply triple_bind; [apply sync_each; intros ? _; apply sync_ap_ok|]. intros m2. cbv beta.
  eapply triple_bind.
  { apply sync_each. intros v Hv. apply sync_each. intros ir Hir. apply sync_vip_ip_ok. by eapply Hvips. }
  intros m3. cbv beta. eapply triple_bind; [apply sync_each; intros ? _; apply sync_interface_ok|]. intros m4. cbv beta.
  rewrite <-(app_nil_r (stillOnGateKeys _ _ _)). apply dhcp_entries_ok; [done|]. intros k Hk. by apply elem_of_nil in Hk.
Qed.

(** *** The sweep *)

(** The state while the sweep walks over the map [m]. *)
Record swept (hs : list string) m d : Prop := {
  sw_res : res_ok (dd_ipam d);
  sw_one : one_pending (dd_conflicts d);
  sw_net : subnets (dd_ipam d) = subnets s0 ∧ ipBlocks (dd_ipam d) = ipBlocks s0;
  sw_rows r : r ∈ spared → r ∈ reservation_rows (dd_ipam d);
  sw_held k : k ∈ hs → held_at k d;
  sw_indexed k e r : (k, e) ∈ m → r ∈ reservation_rows (dd_ipam d) → r_id r = r_id e → r_status r = Active → indexed k r;
}.
Lemma swept_start hs m d : sync_ok hs m d → swept hs m d.
Proof.
  intros [Hres ? ? ? ? [_ Hth _]]. split; try done. intros k e r He Hr Hid _.
  destruct (Hth k e He) as (r' & Hr' & Hid' & _ & _ & Hix).
  rewrite (rows_ok_id (reservation_rows (dd_ipam d)) r r'); [done|apply Hres|done|done|change (r_id r = r_id r'); congruence].
Qed.
Lemma swept_conflicts hs m s l l' : swept hs m (mkSyncDb s l) → one_pending l' → swept hs m (mkSyncDb s l').
Proof. intros [? ? ? ? ? ?] ?. by split. Qed.
Lemma swept_audit hs m s l a : swept hs m (mkSyncDb s l) → swept hs m (mkSyncDb (set_audit a s) l).
Proof. intros [[? ? ?] ? ? ? ? ?]. by split. Qed.
Lemma swept_log hs m a lv i : triple (swept hs m) (on_dd (logEvent a lv i)) (λ _, swept hs m) never.
Proof. intros [s l] Hd. by apply swept_audit. Qed.
Lemma swept_dismiss hs m rid : triple (swept hs m) (dismissConflicts rid) (λ _, swept hs m) never.
Proof.
  intros [s l] Hd. unfold dismissConflicts, hbind, on_dd. simpl. eapply swept_conflicts; [done|].
  apply dismiss_one_pending, Hd.
Qed.

(** What a release writes.  It may be refused: an older released row is in its
    way. *)
Record releases (f : Reservation → Reservation) : Prop := {
  rl_place r : r_id (f r) = r_id r ∧ r_subnetId (f r) = r_subnetId r;
  rl_push : keeps_push f;
  rl_status r : r_status (f r) = Released;
}.
Lemma swept_release hs m key row f :
  releases f → (key, row) ∈ m → (∀ r, r ∈ spared → r_id r ≠ r_id row) → key ∉ hs →
  triple (swept hs m) (edit_row (r_id row) f) (λ _, swept hs m) (swept hs m).
Proof.
  intros [Hf Hp Hst] He Hno Hkey [s l] Hd. unfold edit_row, hbind, on_dd. simpl.
  pose proof (reservation_update_spec (r_id row) f s (λ r, proj1 (Hf r)) (ro_db _ (sw_res _ _ _ Hd))) as Hu.
  pose proof (keeps_update_fk (r_id row) f Hf Hp s) as Hk.
  destruct (reservation_update (r_id row) f s) as [s' [r|x]]; [|by destruct Hu as [-> _]].
  destruct Hu as (t & -> & _ & _ & Hrows). destruct Hd as [Hres Hone Hnet Hsp Hh Hix]. simpl in *.
  assert (∀ y, y ∈ reservation_rows s → r_id y ≠ r_id row → y ∈ reservation_rows (set_reservations t s)) as Hkeep.
  { intros y Hy Hne. rewrite Hrows, elem_of_map_where. exists y. unfold has_id. by rewrite bool_decide_eq_false_2. }
  split; simpl; [by eapply Hk|done|done|..].
  - intros y Hy. apply Hkeep; [by apply Hsp|by apply Hno].
  - intros k Hink. destruct (Hh k Hink) as (y & Hy & Hys & Hyk). exists y. split_and!; [|done|done]. apply Hkeep; [done|].
    intros Hid. apply Hkey. destruct (Hix key row y He Hy Hid Hys) as [Hk'|[Hk' _]]; rewrite Hyk in Hk'; by simplify_eq.
  - intros k e y Hke Hy Hid Hys. rewrite Hrows, elem_of_map_where in Hy. destruct Hy as (z & Hz & ->).
    destruct (has_id (r_id row) z); [by rewrite Hst in Hys|by eapply Hix].
Qed.
Lemma swept_sweep_release hs m m' key row f act :
  releases f → (key, row) ∈ m → (∀ r, r ∈ spared → r_id r ≠ r_id row) → key ∉ hs →
  triple (swept hs m) (sweep_release integrationId key row f act m') (λ _, swept hs m) never.
Proof.
  intros Hf He Hno Hkey. unfold sweep_release. eapply (triple_catch _ (swept hs m)).
  - eapply triple_bind; [by eapply swept_release|]. intros ?. cbv beta.
    eapply triple_bind; [apply triple_total, swept_dismiss|]. intros ?. cbv beta.
    eapply triple_bind; [apply triple_total, swept_log|]. intros ?. cbv beta. by apply triple_ret.
  - intros _. step (swept_log hs m). by apply triple_ret.
Qed.
Lemma swept_row hs m m' ks ds gs dv key row :
  (key, row) ∈ m → (∀ r, r ∈ spared → r_id row = r_id r → operator_row row) → hs ⊆ gs →
  (key ∈ hs → vip_gone ks ds key row = false) →
  triple (swept hs m) (sweep_row integrationId subs ks ds gs dv (key, row) m') (λ _, swept hs m) never.
Proof.
  intros He Hsp Hgs Hvip. unfold sweep_row. destruct (negb _); [by apply triple_ret|].
  assert (r_sourceType row ≠ Manual → ∀ r, r ∈ spared → r_id r ≠ r_id row) as Hno.
  { intros Hs r Hr Hid. destruct (Hsp r Hr) as [? _]; done. }
  destruct (vip_gone ks ds key row) eqn:Hv.
  { apply swept_sweep_release; [|done| |intros Hin; by specialize (Hvip Hin)].
    - split; [done|by apply keeps_push_same|done].
    - apply Hno. unfold vip_gone in Hv. rewrite !andb_true_iff, bool_decide_eq_true in Hv. destruct Hv as [[-> _] _]. done. }
  destruct (reservation_gone _ _ _ _ _ _) eqn:Hg; [|by apply triple_ret].
  unfold reservation_gone in Hg. rewrite !andb_true_iff, negb_true_iff, bool_decide_eq_true, bool_decide_eq_false in Hg.
  destruct Hg as [[[Hs _] _] Hkey]. apply swept_sweep_release; [split; [done|by intros ? _|done]|done|apply Hno; congruence|].
  intros Hin. by apply Hkey, Hgs.
Qed.
Lemma sweep_rows_ok res m :
  let gs := stillOnGateKeys subs (dr_dhcpReservationsInventoriedDevices res) (dr_dhcpEntries res) in
  triple (found_ok gs (currentVipKeys subs (dr_vips res)) (dr_vipInventoriedDevices res) m)
    (sweep_rows integrationId subs res m) (λ _, swept gs m) never.
Proof.
  intros gs d [Hd Hset]. pose proof (so_map _ _ _ Hd) as [Hnd _ Hsp]. pose proof (swept_start _ _ _ Hd) as Hsw.
  revert Hsw. unfold sweep_rows. fold gs. set (ks := currentVipKeys _ _) in *. set (ds := dr_vipInventoriedDevices res) in *.
  set (dv := dr_dhcpReservationsInventoriedDevices res). revert d Hd.
  enough (∀ l m', l ⊆ m → triple (swept gs m) (each (sweep_row integrationId subs ks ds gs dv) l m') (λ _, swept gs m) never) as Hl.
  { intros d _ Hsw. by apply Hl. }
  induction l as [|[key row] l IH]; intros m' Hl; simpl; [by apply triple_ret|].
  assert ((key, row) ∈ m) as He by (apply Hl; by left).
  eapply (triple_bind _ (λ _, swept gs m)); [|intros m1; apply IH; intros x Hx; apply Hl; by right].
  apply swept_row; [done|by intros r Hr Hid; eapply Hsp|done|]. intros Hin. apply (Hset key Hin). by apply elem_mget.
Qed.

(** *** The copy of asset data *)

(** Changes nothing but the host name, the owner and the MAC. *)
Definition identity_only (f : Reservation → Reservation) : Prop := ∀ x, ∃ h o mac, f x = with_identity h o mac x.
Record copied (hs : list string) d : Prop := {
  cp_res : res_ok (dd_ipam d);
  cp_one : one_pending (dd_conflicts d);
  cp_net : subnets (dd_ipam d) = subnets s0 ∧ ipBlocks (dd_ipam d) = ipBlocks s0;
  cp_rows r : r ∈ spared → ∃ h o mac, with_identity h o mac r ∈ reservation_rows (dd_ipam d);
  cp_held k : k ∈ hs → held_at k d;
}.
Lemma with_identity_same r : with_identity (r_hostname r) (r_owner r) (r_macAddress r) r = r.
Proof. by destruct r. Qed.
Lemma copied_start hs m d : swept hs m d → copied hs d.
Proof.
  intros [? ? ? Hrows ? ?]. split; try done. intros r Hr. exists (r_hostname r), (r_owner r), (r_macAddress r).
  rewrite with_identity_same. by apply Hrows.
Qed.
Lemma copied_update hs id f : identity_only f → triple (copied hs) (edit_row id f) (λ _, copied hs) (copied hs).
Proof.
  intros Hf [s l] Hok. assert (same_key f) as Hk by (intros x; by destruct (Hf x) as (? & ? & ? & ->)).
  assert (keeps_push f) as Hp by (apply keeps_push_same; intros x; by destruct (Hf x) as (? & ? & ? & ->)).
  unfold edit_row, hbind, on_dd. simpl. pose proof (update_same_key id f s Hk (cp_res _ _ Hok)) as Hu.
  pose proof (keeps_update id f Hk Hp s) as Hkeep.
  destruct (reservation_update id f s) as [s' [r|x]]; [|by destruct Hu as [-> _]].
  destruct Hu as (t & -> & _ & _ & Hrows). destruct Hok as [Hres Hone Hnet Hcp Hh].
  assert (∀ y, y ∈ reservation_rows s →
    ∃ h o mac, with_identity h o mac y ∈ reservation_rows (set_reservations t s)) as Hin.
  { intros y Hy. destruct (has_id id y) eqn:Hid.
    - destruct (Hf y) as (h & o & mac & Heq). exists h, o, mac. rewrite Hrows, elem_of_map_where. exists y. by rewrite Hid, Heq.
    - exists (r_hostname y), (r_owner y), (r_macAddress y). rewrite with_identity_same, Hrows, elem_of_map_where.
      exists y. by rewrite Hid. }
  split; simpl in *; [by eapply Hkeep|done|done|..].
  - intros y Hy. destruct (Hcp y Hy) as (h & o & mac & Hy'). by destruct (Hin _ Hy') as (h' & o' & mac' & ?); exists h', o', mac'.
  - intros k Hk'. destruct (Hh k Hk') as (y & Hy & Hst & Hkey). destruct (Hin y Hy) as (h & o & mac & Hy').
    by exists (with_identity h o mac y).
Qed.
Lemma apply_row_updates_ok hs us :
  (∀ u, u ∈ us → identity_only u.2) → triple (copied hs) (apply_row_updates us) (λ _, copied hs) never.
Proof.
  induction us as [|u us IH]; intros Hus; simpl; [by apply triple_ret|]. eapply (triple_bind _ (λ _, copied hs)).
  - eapply (triple_catch _ (copied hs)); [apply copied_update, Hus; by left|]. intros _. by apply triple_ret.
  - intros _. apply IH. intros v Hv. apply Hus. by right.
Qed.
Lemma cross_entries_identity look l acc :
  (∀ u, u ∈ acc.2 → identity_only u.2) →
  ∀ u, u ∈ (foldl (λ acc dhcp, cross_entry subs look dhcp acc) acc l).2 → identity_only u.2.
Proof.
  revert acc. induction l as [|e l IH]; intros acc Hacc; simpl; [done|]. apply IH. unfold cross_entry.
  destruct acc as [m us]. simpl in Hacc. repeat case_match; simpl; try done.
  intros u [Hu|Hu]%elem_of_app; [by apply Hacc|]. apply list_elem_of_singleton in Hu as ->. intros x. by do 3 eexists.
Qed.
Lemma cross_entries_none look l acc :
  (∀ dhcp, findByEntry look dhcp = None) → foldl (λ acc dhcp, cross_entry subs look dhcp acc) acc l = acc.
Proof.
  intros Hn. revert acc. induction l as [|e l IH]; intros [m us]; simpl; [done|]. rewrite Hn.
  destruct (_ || _); apply IH.
Qed.
End dhcp_sync_proofs.

Section dhcp_sync_claims.
Context `{NetmaskLib, IpamStoreLaws, PushRule} `{Net W}.
Notation St := (State W).
Implicit Types (s : St) (r : Reservation).

Lemma active_map_ok l k e :
  (k, e) ∈ active_map l →
  e ∈ l ∧ r_sourceType e ≠ DnsResolved ∧ indexed k e.
Proof.
  unfold active_map.
  enough (∀ m, (k, e) ∈ foldl index_row m l → (k, e) ∈ m ∨ e ∈ l ∧ r_sourceType e ≠ DnsResolved ∧ indexed k e) as Hm.
  { intros [Hin|Hin]%Hm; [by apply elem_of_nil in Hin|done]. }
  induction l as [|r l IH]; intros m; simpl; [by left|]. intros [Hin|(? & ? & ?)]%IH; [|right; split_and!; [by right|done..]].
  unfold index_row in Hin. destruct (bool_decide _) eqn:Hdns; [by left|]. apply bool_decide_eq_false in Hdns.
  destruct (Js.otruthy (r_ipAddress r)) eqn:Hip; (apply elem_mset in Hin as [[= -> ->]|Hin]; [right|by left]);
    (split_and!; [by left|done|]).
  - left. unfold addr_key. by rewrite Hip.
  - right. unfold addr_key. rewrite Hip. split; [done|by right].
Qed.
Lemma active_map_NoDup l : NoDup (mkeys (active_map l)).
Proof.
  unfold active_map. enough (∀ m, NoDup (mkeys m) → NoDup (mkeys (foldl index_row m l))) as Hm by (apply Hm; constructor).
  induction l as [|r l IH]; intros m Hnd; simpl; [done|]. apply IH. unfold index_row. repeat case_match; try done; by apply mset_NoDup.
Qed.

(** The subnets the sync looks in are subnets of the table, and ids hold no
    vertical bar. *)
Record sync_input s (subs : list Subnet) (res : DiscoveryResult) : Prop := {
  si_subs x : x ∈ subs → ∃ y, y ∈ subnet_rows s ∧ s_id y = s_id x;
  si_ids y : y ∈ subnet_rows s → no_char "|" (s_id y) = true;
  si_dhcp dhcp : dhcp ∈ dr_dhcpEntries res → de_ipAddress dhcp ≠ "__full__"%string;
  si_vips v ir : v ∈ dr_vips res → ir ∈ vip_ips v → Js.truthy ir.1 = true;
}.
Lemma sync_run integrationId integrationType subs res look s l :
  res_ok s → one_pending l → sync_input s subs res →
  let spared := filter operator_row (reservation_rows s) in
  let gs := stillOnGateKeys subs (dr_dhcpReservationsInventoriedDevices res) (dr_dhcpEntries res) in
  ∃ d, sync_reservations integrationId integrationType subs res look (mkSyncDb s l) = (d, Ok tt) ∧
    copied s spared gs d ∧
    ((∀ dhcp, findByEntry look dhcp = None) → ∀ r, r ∈ spared → r ∈ reservation_rows (dd_ipam d)).
Proof.
  intros Hok Hl [Hsubs Hids Hfull Hvips] spared gs.
  set (active := List.filter (λ r, bool_decide (r_status r = Active)) (reservation_rows s)).
  assert (sync_ok s spared [] (active_map active) (mkSyncDb s l)) as Hstart.
  { assert (∀ k e, (k, e) ∈ active_map active →
      e ∈ reservation_rows s ∧ r_status e = Active ∧ r_sourceType e ≠ DnsResolved ∧ indexed k e) as Hin.
    { intros k e He. apply active_map_ok in He as (He & Hd & Hk). apply elem_bfilter in He as [He Hst].
      by apply bool_decide_eq_true in Hst. }
    split; simpl; try done; [by intros r [_ ?]%list_elem_of_filter|by intros k ?%elem_of_nil|].
    split; [apply active_map_NoDup|..].
    - intros k e (He & Hst & Hd & Hk)%Hin. by exists e.
    - intros k e r (He & _)%Hin [Hop Hr]%list_elem_of_filter Hid.
      by rewrite (rows_ok_id (reservation_rows s) e r (proj2 (proj2 (ro_db _ Hok))) He Hr Hid). }
  assert (∀ r, r ∈ spared → operator_row r) as Hop by by intros r [? _]%list_elem_of_filter.
  pose proof (discover_rows_ok integrationId integrationType s subs spared Hsubs Hop Hids res look (active_map active) Hfull Hvips
    _ Hstart) as H1'.
  unfold sync_reservations. unfold hbind at 1. simpl. fold active. unfold hbind at 1.
  destruct (discover_rows _ _ _ _ _ _ _) as [d1 [m1|?]]; [|done].
  pose proof (sweep_rows_ok integrationId s subs spared res m1 d1 H1') as H2'. unfold hbind.
  destruct (sweep_rows _ _ _ _ _) as [d2 [m2|?]]; [|done].
  set (us := (foldl (λ acc e, cross_entry subs look e acc) (m2, []) (dr_dhcpEntries res)).2).
  assert (∀ u, u ∈ us → identity_only u.2) as Hus.
  { apply cross_entries_identity. intros u Hu. by apply elem_of_nil in Hu. }
  pose proof (apply_row_updates_ok s spared gs us Hus d2 (copied_start s spared gs m1 d2 H2')) as H3'.
  unfold copy_assets. fold us. destruct (apply_row_updates us d2) as [d3 [[]|?]] eqn:Hrun; [|done].
  exists d3. split_and!; [done|done|]. intros Hnone. unfold us in Hrun. rewrite cross_entries_none in Hrun by done.
  simpl in Hrun. injection Hrun as <-. intros r. apply (sw_rows _ _ _ _ _ H2').
Qed.
Lemma sync_keeps integrationId integrationType subs res look s l :
  res_ok s → one_pending l → sync_input s subs res →
  ∃ d, sync_reservations integrationId integrationType subs res look (mkSyncDb s l) = (d, Ok tt) ∧
    res_ok (dd_ipam d) ∧ one_pending (dd_conflicts d) ∧
    subnets (dd_ipam d) = subnets s ∧ ipBlocks (dd_ipam d) = ipBlocks s.
Proof.
  intros Hok Hl Hin. destruct (sync_run integrationId integrationType subs res look s l Hok Hl Hin) as (d & Hrun & Hc & _).
  exists d. split; [done|]. split_and!; apply Hc.
Qed.

(** C16: a sync of the discovered reservations always completes.  It keeps the
    invariant of the tables and at most one pending conflict per reservation.
    Afterwards an active reservation holds every address that a DHCP entry of a
    device with a complete inventory reports in a live subnet.  Every row an
    operator made that was never pushed stays: only its host name, owner and MAC
    may change, and these only by the copy from an asset found for a DHCP
    entry. *)
Theorem reservation_sync_correct integrationId integrationType subs res look s l :
  res_ok s → one_pending l → sync_input s subs res →
  ∃ d, sync_reservations integrationId integrationType subs res look (mkSyncDb s l) = (d, Ok tt) ∧
    res_ok (dd_ipam d) ∧ one_pending (dd_conflicts d) ∧
    subnets (dd_ipam d) = subnets s ∧ ipBlocks (dd_ipam d) = ipBlocks s ∧
    (∀ dhcp x, dhcp ∈ dr_dhcpEntries res → de_device dhcp ∈ dr_dhcpReservationsInventoriedDevices res →
       Js.truthy (de_ipAddress dhcp) = true → findSubnetForIp subs (de_ipAddress dhcp) = Some x →
       ∃ r, r ∈ reservation_rows (dd_ipam d) ∧ r_status r = Active ∧ r_subnetId r = s_id x ∧
         r_ipAddress r = Some (de_ipAddress dhcp)) ∧
    ∀ r, r ∈ reservation_rows s → operator_row r →
      (∃ h o mac, with_identity h o mac r ∈ reservation_rows (dd_ipam d)) ∧
      ((∀ dhcp, findByEntry look dhcp = None) → r ∈ reservation_rows (dd_ipam d)).
Proof.
  intros Hok Hl Hin. destruct (sync_run integrationId integrationType subs res look s l Hok Hl Hin) as (d & Hrun & Hc & Hs).
  exists d. split; [done|]. destruct Hc as [Q1 Q2 [Q3 Q4] Q5 Q6]. split_and!; try done.
  - intros dhcp x Hdhcp Hdev Hip Hx. destruct (Q6 (reservationKey (s_id x) (de_ipAddress dhcp))) as (r & Hr & Hst & Hkey).
    { apply list_elem_of_bind. exists dhcp. split; [|done]. rewrite Hip, bool_decide_eq_true_2, Hx by done. by left. }
    exists r. split; [done|]. split; [done|]. unfold addr_key in Hkey. destruct (r_ipAddress r) as [ip|] eqn:Hri; [|done].
    destruct (Js.otruthy (Some ip)); [|done]. simpl in Hkey. injection Hkey as Hkey.
    destruct (ro_fk _ Q1 r Hr) as (y & Hy & Hyid). unfold subnet_rows in Hy. rewrite Q3 in Hy.
    destruct (si_subs _ _ _ Hin x) as (z & Hz & Hzid); [by apply found_subnet in Hx|].
    apply (si_ids _ _ _ Hin) in Hy, Hz. rewrite Hyid in Hy. rewrite Hzid in Hz.
    destruct (key_inj _ _ _ _ Hy Hz Hkey) as [-> ->]. done.
  - intros r Hr Hop. assert (r ∈ filter operator_row (reservation_rows s)) as Hr' by by apply list_elem_of_filter.
    split; [by apply Q5|]. intros Hnone. by apply Hs.
Qed.
End dhcp_sync_claims.

(** ** Concrete runs *)

Section dhcp_sync_runs.
Import RefGate RefScope.
#[local] Existing Instances RefNetmask.lib ListStore.store named_rule.

Definition no_assets : AssetLookups := mkLookups (λ _, None) (λ _, None).
Definition nothing_found : DiscoveryResult := mkDiscovery [] [] [] [] [] [] [].
Definition dhcp_found (l : list DiscoveredDhcpEntry) : DiscoveryResult := mkDiscovery [] [] [] ["fg1"%string] [] l ["fg1"%string].
Definition vips_found (l : list DiscoveredVip) : DiscoveryResult := mkDiscovery [] [] l ["fg1"%string] [] [] ["fg1"%string].
Definition dhcp_of (ip mac hostname : string) (ty : DhcpEntryType) (expires : option Z) : DiscoveredDhcpEntry :=
  mkDhcpEntry "fg1" "lan" ip mac hostname ty expires None None None (Some 1) (Some 7) true.

Definition lan_db (rows : list Reservation) : SyncDb Scope := mkSyncDb (lan_state rows (scope_of [] [])) [].
Definition sync_with_assets (look : AssetLookups) (res : DiscoveryResult) (d : SyncDb Scope) : SyncDb Scope :=
  (sync_reservations "i1" "fortigate" [lan] res look d).1.
Definition synced_by : DiscoveryResult → SyncDb Scope → SyncDb Scope := sync_with_assets no_assets.
Definition at_time (t : Z) (d : SyncDb Scope) : SyncDb Scope :=
  mkSyncDb (set_world (mkScope (mkGate [] t None) []) (dd_ipam d)) (dd_conflicts d).
Definition expired (d : SyncDb Scope) : SyncDb Scope * result unit :=
  let '(s, r) := expireStaleReservations (dd_ipam d) in
  (mkSyncDb s (dd_conflicts d), match r with Ok _ => Ok tt | Throw e => Throw e end).
Definition table_of (d : SyncDb Scope) : list (option string * ReservationStatus * ReservationSourceType * option PushStatus) :=
  view_of (dd_ipam d).

(** A manual reservation stands where the device reports a lease; a second lease
    is at a free address. *)
Lemma reservation_sync_correct_witness :
  let row := lan_row "r1" "10.0.0.20" Active Manual None None no_push in
  let res := dhcp_found [dhcp_of "10.0.0.20" "11:22:33:44:55:66" "laptop" DynamicLease None;
                         dhcp_of "10.0.0.21" "11:22:33:44:55:67" "phone" DynamicLease None] in
  let d := synced_by res (lan_db [row]) in
  cf_status <$> dd_conflicts d = [CfPending] ∧ row ∈ reservation_rows (dd_ipam d) ∧ res_ok (dd_ipam d) ∧
  ∃ r, r ∈ reservation_rows (dd_ipam d) ∧ r_status r = Active ∧ r_ipAddress r = Some "10.0.0.21"%string.
Proof.
  split; [vm_compute; reflexivity|].
  set (row := lan_row "r1" "10.0.0.20" Active Manual None None no_push). set (res := dhcp_found _).
  assert (res_ok (lan_state [row] (scope_of [] []))) as Hok.
  { apply lan_state_ok; [apply (bool_decide_unpack (rows_ok _)); vm_compute; exact I|].
    intros r Hr%list_elem_of_singleton. by subst. }
  assert (sync_input (lan_state [row] (scope_of [] [])) [lan] res) as Hin.
  { split.
    - intros x Hx%list_elem_of_singleton. exists lan. subst. split; [by left|done].
    - intros y Hy%list_elem_of_singleton. by subst.
    - intros dhcp Hd. unfold res in Hd. simpl in Hd. rewrite !elem_of_cons, elem_of_nil in Hd. by destruct Hd as [->|[->|[]]].
    - intros v ir Hv. by apply elem_of_nil in Hv. }
  destruct (reservation_sync_correct "i1" "fortigate" [lan] res no_assets (lan_state [row] (scope_of [] [])) [] Hok
    (NoDup_nil_2) Hin) as (d & Hrun & Hres & _ & _ & _ & Hheld & Hrows).
  unfold synced_by, sync_with_assets, lan_db. rewrite Hrun. split_and!; [|exact Hres|].
  - destruct (Hrows row) as [_ Hrow]; [apply list_elem_of_here|split_and!; [reflexivity|reflexivity|discriminate]|].
    apply Hrow. intros dhcp. reflexivity.
  - destruct (Hheld (dhcp_of "10.0.0.21" "11:22:33:44:55:67" "phone" DynamicLease None) lan) as (r & Hr & Hst & _ & Hip);
      [right; left|left|reflexivity|vm_compute; reflexivity|]. exists r. exact (conj Hr (conj Hst Hip)).
Defined.

(** A queued push that lost its address to another device is taken for its own
    echo by the next sync, and for a lease by the one after. *)
Theorem lost_push_becomes_lease :
  let lease := dhcp_found [dhcp_of "10.0.0.30" "11:22:33:44:55:66" "laptop" DynamicLease None] in
  let s1 := synced_by lease (lan_db [queued_row]) in
  let s2 := synced_by lease s1 in
  table_of s1 = [(Some "10.0.0.30", Active, Manual, Some FailedPermanent)]%string ∧
  table_of s2 = [(Some "10.0.0.30", Active, DhcpReservation, Some FailedPermanent)]%string ∧
  table_of (synced_by lease s2) = [(Some "10.0.0.30", Active, DhcpLease, Some FailedPermanent)]%string.
Proof. split_and!; vm_compute; reflexivity. Qed.

(** A VIP that one sync saw and the next did not is never released: its first
    row does not name the device. *)
Theorem vip_seen_once_stays :
  let s1 := synced_by (vips_found [mkVip "fg1" "web" "10.0.0.50" []]) (lan_db []) in
  let s2 := synced_by (vips_found []) s1 in
  table_of s1 = [(Some "10.0.0.50", Active, Vip, None)]%string ∧ table_of s2 = table_of s1.
Proof. split_and!; vm_compute; reflexivity. Qed.

(** A reservation the device dropped is not released when an older released row
    stands at its address. *)
Theorem second_release_refused :
  let s := lan_db [lan_row "r1" "10.0.0.20" Released DhcpReservation None None no_push;
                   lan_row "r2" "10.0.0.20" Active DhcpReservation None None no_push] in
  table_of (synced_by (dhcp_found []) s) = table_of s ∧
  table_of (synced_by (dhcp_found []) (lan_db [lan_row "r2" "10.0.0.20" Active DhcpReservation None None no_push])) =
    [(Some "10.0.0.20", Released, DhcpReservation, None)]%string.
Proof. split_and!; vm_compute; reflexivity. Qed.

(** A sync raises a conflict about the host name of a manual reservation and
    writes the proposed name in the same run. *)
Theorem proposal_written_before_review :
  let a := mkMatched (Some "laptop"%string) None in
  let look := mkLookups (λ _, Some a) (λ _, Some a) in
  let s := sync_with_assets look (dhcp_found [dhcp_of "10.0.0.20" "11:22:33:44:55:66" "laptop" DynamicLease None])
             (lan_db [lan_row "r1" "10.0.0.20" Active Manual None None no_push]) in
  (λ c, (cf_status c, cf_hostname c)) <$> dd_conflicts s = [(CfPending, Some "laptop"%string)] ∧
  r_hostname <$> reservation_rows (dd_ipam s) = [Some "laptop"%string].
Proof. split_and!; vm_compute; reflexivity. Qed.

(** The end of a lease is recorded once.  A renewed lease expires at its first
    end; the next sync records it again, and when that row ends the older expired
    row aborts the expiry of every row. *)
Theorem renewed_lease_expires :
  let lease t := dhcp_found [dhcp_of "10.0.0.20" "11:22:33:44:55:66" "laptop" DynamicLease (Some t)] in
  let s1 := synced_by (lease 2) (lan_db []) in
  let s2 := synced_by (lease 4) s1 in
  let s3 := (expired (at_time 3000 s2)).1 in
  let s4 := synced_by (lease 4) s3 in
  let s5 := synced_by (lease 9) s4 in
  r_expiresAt <$> reservation_rows (dd_ipam s2) = [Some 2000] ∧
  table_of s3 = [(Some "10.0.0.20", Expired, DhcpLease, None)]%string ∧
  table_of s5 = [(Some "10.0.0.20", Expired, DhcpLease, None); (Some "10.0.0.20", Active, DhcpLease, None)]%string ∧
  (expired (at_time 5000 s5)).2 = Throw P2002 ∧ table_of (expired (at_time 5000 s5)).1 = table_of s5.
Proof. split_and!; vm_compute; reflexivity. Qed.

(** A lease that was made a reservation on the device keeps its end and expires. *)
Theorem promoted_lease_expires :
  let entry ty := dhcp_found [dhcp_of "10.0.0.20" "11:22:33:44:55:66" "laptop" ty (Some 2)] in
  let s1 := synced_by (entry StaticEntry) (synced_by (entry DynamicLease) (lan_db [])) in
  table_of s1 = [(Some "10.0.0.20", Active, DhcpReservation, None)]%string ∧
  table_of (expired (at_time 3000 s1)).1 = [(Some "10.0.0.20", Expired, DhcpReservation, None)]%string.
Proof. split_and!; vm_compute; reflexivity. Qed.

(** The external address of a VIP is recorded once. *)
Theorem moved_vip_keeps_address :
  let vip ext := vips_found [mkVip "fg1" "web" ext ["10.0.0.60"%string]] in
  let s := synced_by (vip "203.0.113.2"%string) (synced_by (vip "203.0.113.1"%string) (synced_by (vip "203.0.113.1"%string) (lan_db []))) in
  (λ r, (r_ipAddress r, vi_extip <$> r_vipInfo r)) <$> reservation_rows (dd_ipam s) =
    [(Some "10.0.0.60", Some "203.0.113.1")]%string.
Proof. vm_compute. reflexivity. Qed.
End dhcp_sync_runs.
