(* ===== verification/Ipam.v ===== *)
(** * The IPAM service as a whole

    The block, subnet and reservation handlers over one database: the invariant
    they keep together, and what the reservation handlers promise. *)

From S2P Require Import Prelude Cidr Store Networks Http Push Reservations JsColl Refresh RefreshProofs DnsResolved DnsProofs StaleAlerts Conflicts SubnetSync Registration DhcpSync.

Section ipam_invariant.
Context `{NetmaskLaws, IpamStoreLaws, PushRule} `{Net W}.
Notation St := (State W).
Implicit Types (s : St).

(** ** The network handlers keep the reservation invariant *)

Lemma keeps_block_create f :
  (∀ id, b_id (f id) = id) → keeps res_ok (block_create (W := W) f).
Proof.
  intros Hf s s' r Hok Hrun. pose proof (block_create_spec f s Hf (ro_db _ Hok)) as Hc.
  rewrite Hrun in Hc. destruct r; [|by destruct Hc as [-> _]].
  destruct Hc as (t & -> & Hdb & _). by destruct Hok.
Qed.
Lemma keeps_block_update id f :
  (∀ b, b_id (f b) = b_id b) → keeps res_ok (block_update (W := W) id f).
Proof.
  intros Hf s s' r Hok Hrun. pose proof (block_update_spec id f s Hf (ro_db _ Hok)) as Hc.
  rewrite Hrun in Hc. destruct r; [|by subst].
  destruct Hc as (t & -> & Hdb & _). by destruct Hok.
Qed.
Lemma keeps_subnet_create f :
  (∀ id, s_id (f id) = id) → keeps res_ok (subnet_create (W := W) f).
Proof.
  intros Hf s s' r Hok Hrun. destruct (subnet_create_spec f s Hf (ro_db _ Hok)) as (t & id & Hc & Hdb & _ & Hrows).
  rewrite Hrun in Hc. injection Hc as -> ->. destruct Hok as [_ Hp Hfk]. split; [done..|].
  intros r Hr. destruct (Hfk r Hr) as (x & Hx & ?). exists x. split; [|done].
  unfold subnet_rows. simpl. rewrite Hrows. by right.
Qed.
Lemma keeps_subnet_update id f :
  (∀ x, s_id (f x) = s_id x) → keeps res_ok (subnet_update (W := W) id f).
Proof.
  intros Hf s s' r Hok Hrun. pose proof (subnet_update_spec id f s Hf (ro_db _ Hok)) as Hc.
  rewrite Hrun in Hc. destruct r; [|by destruct Hc as [-> _]].
  destruct Hc as (t & -> & Hdb & _ & Hrows). destruct Hok as [_ Hp Hfk]. split; [done..|].
  intros r Hr. destruct (Hfk r Hr) as (x & Hx & Hid).
  exists (if has_id id x then f x else x). split; [rewrite Hrows, elem_of_map_where; eauto|].
  destruct (has_id id x); [by rewrite Hf|done].
Qed.
Lemma keeps_subnet_delete id : keeps res_ok (subnet_delete (W := W) id).
Proof.
  intros s s' r Hok Hrun. pose proof (subnet_delete_spec id s (ro_db _ Hok)) as Hc.
  rewrite Hrun in Hc. destruct r; [|by destruct Hc as [-> _]].
  destruct Hc as (Hdb & _ & _ & _ & _ & Hs & Hr). destruct Hok as [_ Hp Hfk]. split; [done|..].
  - intros r [Hin _]%Hr. by apply Hp.
  - intros r [Hin Hne]%Hr. destruct (Hfk r Hin) as (x & Hx & Hid). exists x. split; [|done].
    apply Hs. split; [done|congruence].
Qed.
Lemma keeps_block_delete id : keeps res_ok (block_delete (W := W) id).
Proof.
  intros s s' r Hok Hrun. pose proof (block_delete_spec id s (ro_db _ Hok)) as Hc.
  rewrite Hrun in Hc. destruct r; [|by subst].
  destruct Hc as (Hdb & _ & _ & _ & Hs & Hr). destruct Hok as [_ Hp Hfk]. split; [done|..].
  - intros r [Hin _]%Hr. by apply Hp.
  - intros r [Hin Hne]%Hr. destruct (Hfk r Hin) as (x & Hx & Hid). exists x. split; [|done].
    apply Hs. split; [done|]. intros Hb. by eapply Hne.
Qed.
#[local] Hint Resolve keeps_subnet_delete keeps_block_delete : inv.
#[local] Hint Extern 1 (keeps res_ok (block_create _)) => by apply keeps_block_create : inv.
#[local] Hint Extern 1 (keeps res_ok (block_update _ _)) => by apply keeps_block_update : inv.
#[local] Hint Extern 1 (keeps res_ok (subnet_create _)) => by apply keeps_subnet_create : inv.
#[local] Hint Extern 1 (keeps res_ok (subnet_update _ _)) => by apply keeps_subnet_update : inv.
#[local] Hint Resolve readonly_require_block readonly_findReservations readonly_findSubnets
  readonly_countReservations readonly_findSubnet : frame.

Lemma readonly_findBlock p : readonly (findBlock (W := W) p).
Proof. unfold findBlock. solve_frame. Qed.
#[local] Hint Resolve readonly_require_subnet readonly_findBlock readonly_check_entry
  readonly_check_assignment readonly_hforeach : frame.

Lemma keeps_createSubnet i : keeps res_ok (createSubnet (W := W) i).
Proof. unfold createSubnet. solve_keeps. Qed.
#[local] Hint Resolve keeps_createSubnet : inv.
Lemma keeps_create_assignments b p t c l : keeps res_ok (create_assignments (W := W) b p t c l).
Proof. induction l as [|[e cidr] l IH]; simpl; solve_keeps. Qed.
#[local] Hint Resolve keeps_create_assignments : inv.
Lemma keeps_bulkAllocate i : keeps res_ok (bulkAllocate (W := W) i).
Proof. unfold bulkAllocate. solve_keeps. apply keeps_transaction. solve_keeps. Qed.

Lemma net_step_res_ok s s' : net_step s s' → res_ok s → res_ok s'.
Proof.
  intros Hst Hok. destruct Hst as [i s s' r Hrun|id i s s' r Hrun|id s s' r Hrun|i s s' r Hrun|
    id p m s s' r Hrun|i s s' r Hrun|id i s s' r Hrun|id s s' r Hrun];
    match type of Hrun with ?m s = _ => assert (keeps res_ok m) as Hk; [|by eapply Hk] end.
  - unfold createBlock. solve_keeps.
  - unfold updateBlock. solve_keeps.
  - unfold deleteBlock. solve_keeps.
  - apply keeps_createSubnet.
  - unfold allocateNextSubnet. solve_keeps.
  - apply keeps_bulkAllocate.
  - unfold updateSubnet. solve_keeps.
  - unfold deleteSubnet. solve_keeps.
Qed.

(** ** So do the sync of subnets and the alerts *)

Lemma keeps_sync_entries i ty l p : keeps res_ok (sync_entries (W := W) i ty l p).
Proof.
  revert p. induction l as [|e l IH]; intros p; cbn [sync_entries]; [solve_keeps|].
  apply keeps_hbind; [|done]. unfold sync_entry. solve_keeps.
Qed.
Lemma keeps_apply_updates l : (∀ u x, u ∈ l → s_id (u.2 x) = s_id x) → keeps res_ok (apply_updates (W := W) l).
Proof.
  induction l as [|u l IH]; intros Hl; cbn [apply_updates]; [solve_keeps|]. apply keeps_hbind; [apply keeps_hcatch; [|solve_keeps]|].
  - apply keeps_hbind; [apply keeps_subnet_update; intros x; apply Hl; left|solve_keeps].
  - intros _. apply IH. intros u' x ?. apply Hl. by right.
Qed.
Lemma keeps_log_each action ids : keeps res_ok (log_each (W := W) action ids).
Proof. induction ids as [|id ids IH]; cbn [log_each]; solve_keeps. Qed.
#[local] Hint Resolve keeps_log_each : inv.

(** The updates of matched rows leave the ids alone. *)
Definition updates_ok (p : Phase1) : Prop := ∀ u x, u ∈ p1_updates p → s_id (u.2 x) = s_id x.
Lemma sync_entry_updates i ty e p s s' p' :
  updates_ok p → sync_entry (W := W) i ty e p s = (s', Ok p') → updates_ok p'.
Proof.
  intros Hp. unfold sync_entry. destruct (normalizeCidr _) as [c|]; [|by intros [= _ <-]].
  destruct (mget c _) as [x|].
  { unfold hbind, newDate, hgets. intros [= _ <-] u y [Hu|Hu]%elem_of_app; [by apply Hp|].
    by apply list_elem_of_singleton in Hu as ->. }
  destruct (findParentBlock _ _); [|by intros [= _ <-]]. destruct (List.find _ _); [by intros [= _ <-]|].
  unfold hcatch, hbind, newDate, hgets, logEvent, hmodify. destruct (subnet_create _ s) as [s1 [r|e1]]; by intros [= _ <-].
Qed.
Lemma sync_entries_updates i ty l p s s' p' :
  updates_ok p → sync_entries (W := W) i ty l p s = (s', Ok p') → updates_ok p'.
Proof.
  revert p s. induction l as [|e l IH]; intros p s Hp; cbn [sync_entries]; [by intros [= _ <-]|].
  unfold hbind. destruct (sync_entry i ty e p s) as [s1 [p1|e1]] eqn:E; [|done].
  apply IH. by eapply sync_entry_updates.
Qed.

Lemma keeps_phase1 i ty l idx : keeps res_ok (phase1 (W := W) i ty l idx).
Proof.
  intros s s' r Hok Hrun. unfold phase1 in Hrun. unfold hbind at 1 in Hrun.
  destruct (sync_entries i ty l _ s) as [s1 [p|e]] eqn:E.
  2: { injection Hrun as <- _. by eapply keeps_sync_entries. }
  pose proof (keeps_sync_entries _ _ _ _ _ _ _ Hok E) as Hok1.
  revert Hrun. match goal with |- ?m s1 = _ → _ => assert (keeps res_ok m) as Hk; [|by eapply Hk] end.
  apply keeps_hbind; [|solve_keeps]. apply keeps_apply_updates.
  refine (sync_entries_updates _ _ _ _ _ _ _ _ E). intros u x Hu. by apply elem_of_nil in Hu.
Qed.
Lemma keeps_syncDhcpSubnets mode i ty l known : keeps res_ok (syncDhcpSubnets (W := W) mode i ty l known).
Proof.
  unfold syncDhcpSubnets, sync_with, phase2, load_index.
  assert (∀ p f, (∀ x, s_id (f x) = s_id x) → keeps res_ok (subnet_updateMany (W := W) p f)) as Hu by apply keeps_subnet_updateMany.
  apply keeps_hbind; [apply keeps_readonly, readonly_hgets|]. intros idx.
  apply keeps_hbind; [destruct mode; solve [apply keeps_phase1|solve_keeps]|]. intros p.
  apply keeps_hbind; [|solve_keeps].
  destruct mode; repeat case_match; try solve_keeps; apply Hu; done.
Qed.

(** Alerts change the columns of the alerts only. *)
Lemma keeps_stale_update id f :
  (∀ r, ∃ x, f r = set_r_stale x r) → keeps res_ok (reservation_update (W := W) id f).
Proof.
  intros Hf. apply keeps_update_fk.
  - intros r. by destruct (Hf r) as [x ->].
  - intros r Hr. by destruct (Hf r) as [x ->].
Qed.
#[local] Hint Extern 1 (keeps res_ok (reservation_update _ (stamp_stale _ _))) =>
  apply keeps_stale_update; by eexists : inv.
#[local] Hint Extern 1 (keeps res_ok (reservation_update _ (stamp_ignored _))) =>
  apply keeps_stale_update; by eexists : inv.
Lemma keeps_snooze days id : keeps res_ok (snooze_row (W := W) days id).
Proof. unfold snooze_row, require_dhcp_reservation. solve_keeps. Qed.
Lemma keeps_ignore id b : keeps res_ok (setStaleIgnored (W := W) id b).
Proof. unfold setStaleIgnored, require_dhcp_reservation. solve_keeps. Qed.
Lemma keeps_flag_entries t l n : keeps res_ok (flag_entries (W := W) t l n).
Proof.
  revert n. induction l as [|e l IH]; intros n; cbn [flag_entries]; [solve_keeps|]. case_match; [apply IH|].
  apply keeps_hbind; [solve_keeps|]. intros _. apply keeps_hbind; [apply keeps_stale_update; by eexists|]. intros _. apply IH.
Qed.
End ipam_invariant.

(** ** The reservation handlers keep the network invariant *)

Section reservation_frames.
Context `{NetmaskLib, PgInet, IpamStoreLaws, PushRule} `{Net W} (s0 : State W).
Notation St := (State W).
Implicit Types (s : St).

(** The reservation invariant, and the networks of [s0] untouched. *)
Definition from s : Prop := res_ok s ∧ net_frame s0 s.

Lemma keeps_from {A} (m : M St A) :
  keeps res_ok m → (∀ s s' r, res_ok s → m s = (s', r) → net_frame s s') → keeps from m.
Proof.
  intros Hk Hf s s' r [Hok Hn] Hrun. split; [by eapply Hk|]. eapply net_frame_trans; [done|by eapply Hf].
Qed.

Lemma on_reservations_frame {A} (stmt : TR → result (TR * A)) s s' r :
  on_table reservations set_reservations stmt s = (s', r) → net_frame s s'.
Proof.
  unfold on_table. destruct (stmt (reservations s)) as [[t a]|e]; intros [= <- <-]; by apply net_frame_same.
Qed.

Lemma from_update_fk id f :
  (∀ r, r_id (f r) = r_id r ∧ r_subnetId (f r) = r_subnetId r) → keeps_push f →
  keeps from (reservation_update id f).
Proof.
  intros Hf Hp. apply keeps_from; [by apply keeps_update_fk|]. intros s s' r _. apply on_reservations_frame.
Qed.
Lemma from_update id f : same_key f → keeps_push f → keeps from (reservation_update id f).
Proof. intros Hf. apply from_update_fk. intros r. by destruct (Hf r) as (? & ? & _). Qed.
Lemma from_updateMany_status p st : keeps from (reservation_updateMany p (set_r_status st)).
Proof. apply keeps_from; [apply keeps_updateMany_status|]. intros s s' r _. apply on_reservations_frame. Qed.
Lemma from_delete id : keeps from (reservation_delete id).
Proof. apply keeps_from; [apply keeps_delete|]. intros s s' r _. apply on_reservations_frame. Qed.
Lemma from_deleteMany p : keeps from (reservation_deleteMany p).
Proof. apply keeps_from; [apply keeps_deleteMany|]. intros s s' r _. apply on_reservations_frame. Qed.
Lemma from_on_world {A} (m : M W A) : keeps from (on_world m).
Proof.
  apply keeps_from; [apply keeps_on_world|]. intros s s' r _. unfold on_world.
  destruct (m (world s)). intros [= <- <-]. by apply net_frame_same.
Qed.
Lemma from_logEvent a l i : keeps from (logEvent a l i).
Proof.
  apply keeps_from; [apply keeps_logEvent|]. intros s s' r _ [= <- <-]. by apply net_frame_same.
Qed.
Lemma from_subnet_status id st : keeps from (subnet_update id (set_s_status st)).
Proof.
  apply keeps_from; [apply keeps_subnet_status|]. intros s s' r Hok Hrun.
  pose proof (subnet_update_spec id (set_s_status st) s (λ _, eq_refl) (ro_db _ Hok)) as Hu.
  rewrite Hrun in Hu. destruct r; [|destruct Hu as [-> _]; by apply net_frame_same].
  destruct Hu as (t & -> & _ & _ & Hrows). by eapply net_frame_status.
Qed.
Lemma from_transaction {A} (m : M St A) : keeps from m → keeps from (transaction m).
Proof.
  intros Hm s s' r [Hok Hn]. unfold transaction. destruct (m s) as [s1 [a|e]] eqn:Hrun.
  - intros [= <- <-]. by eapply Hm.
  - intros [= <- <-]. split; [by eapply res_ok_same_tables; [|exact Hok]|done].
Qed.
#[local] Hint Extern 1 (keeps from (reservation_update _ _)) =>
  apply from_update; solve [eauto with ipam] : inv.
#[local] Hint Resolve from_updateMany_status from_delete from_deleteMany from_on_world from_logEvent
  from_subnet_status from_transaction : inv.
#[local] Hint Resolve readonly_require_reservation readonly_subnet_of readonly_findIntegration
  readonly_newDate readonly_findReservation readonly_findReservations readonly_findSubnet
  readonly_findSubnets readonly_countReservations readonly_findAsset readonly_firewall_asset
  readonly_load_queued readonly_hmapM : frame.

Lemma from_push_mac_update input r subnet i mac : keeps from (push_mac_update input r subnet i mac).
Proof. unfold push_mac_update. solve_keeps. Qed.
Lemma from_push_queued q i : keeps from (push_queued q i).
Proof. unfold push_queued. solve_keeps. Qed.
Lemma from_release_row r : keeps from (release_row r).
Proof. unfold release_row. apply from_transaction. solve_keeps. by apply from_update_fk. Qed.
#[local] Hint Resolve from_push_mac_update from_push_queued from_release_row : inv.
Lemma from_attemptQueuedPush q b : keeps from (attemptQueuedPush q b).
Proof. unfold attemptQueuedPush, cancel_queued. solve_keeps. Qed.
#[local] Hint Resolve from_attemptQueuedPush : inv.
Lemma from_retry_rows qs c : keeps from (retry_rows qs c).
Proof. revert c. induction qs as [|q qs IH]; intros c; simpl; solve_keeps. Qed.
#[local] Hint Resolve from_retry_rows : inv.
Lemma from_retryPending : keeps from retryPendingReservations.
Proof. unfold retryPendingReservations. solve_keeps. Qed.
#[local] Hint Resolve from_retryPending : inv.
Lemma from_createReservation input : keeps from (createReservation input).
Proof.
  apply keeps_from; [apply keeps_createReservation|]. intros s s' r Hok Hrun.
  pose proof (createReservation_spec input s Hok) as Hc. rewrite Hrun in Hc.
  destruct r; [apply Hc|]. apply net_frame_same, Hc.
Qed.
#[local] Hint Resolve from_createReservation : inv.

Lemma from_updateReservation id input actor : keeps from (updateReservation id input actor).
Proof.
  unfold updateReservation. do 5 (apply keeps_hbind; [eauto with inv|intros ?]).
  apply (keeps_hbind_post _ good_stamp); [solve_keeps|..|intros f Hf; eauto with inv ipam].
  intros s s' f. repeat case_match; intros Hrun; hinv; auto with ipam.
  all: by eapply push_mac_update_good.
Qed.
Lemma from_releaseReservation id : keeps from (releaseReservation id).
Proof. unfold releaseReservation, release_unpush, release_lease. solve_keeps. Qed.
Lemma from_nextAvailable input : keeps from (nextAvailableReservation input).
Proof. unfold nextAvailableReservation. solve_keeps. Qed.
Lemma from_expire : keeps from expireStaleReservations.
Proof. unfold expireStaleReservations. solve_keeps. Qed.
Lemma from_retryNow id : keeps from (retryReservationNow id).
Proof. unfold retryReservationNow, getReservation. solve_keeps. Qed.
Lemma from_trigger id : keeps from (triggerRetryAfterStatusChange id).
Proof. unfold triggerRetryAfterStatusChange. solve_keeps. Qed.

(** A state in which the subnet with id [sub] exists. *)
Definition from_at (sub : string) s : Prop := from s ∧ ∃ x, x ∈ subnet_rows s ∧ s_id x = sub.

Lemma keeps_from_at {A} sub (m : M St A) :
  keeps from m → (∀ s s' r, m s = (s', r) → subnets s' = subnets s) → keeps (from_at sub) m.
Proof.
  intros Hk Hs s s' r [Hf (x & Hx & Hid)] Hrun. split; [by eapply Hk|]. exists x. split; [|done].
  unfold subnet_rows. by rewrite (Hs _ _ _ Hrun).
Qed.
Lemma on_reservations_subnets {A} (stmt : TR → result (TR * A)) s s' r :
  on_table reservations set_reservations stmt s = (s', r) → subnets s' = subnets s.
Proof. unfold on_table. destruct (stmt (reservations s)) as [[t a]|e]; by intros [= <- <-]. Qed.

Lemma at_update sub id f : same_key f → keeps_push f → keeps (from_at sub) (reservation_update id f).
Proof. intros Hf Hp. apply keeps_from_at; [by apply from_update|]. intros s s' r. apply on_reservations_subnets. Qed.
Lemma at_release sub id : keeps (from_at sub) (reservation_update id (set_r_status Released)).
Proof.
  apply keeps_from_at; [apply from_update_fk; [done|by intros ? ?]|]. intros s s' r. apply on_reservations_subnets.
Qed.
Lemma at_log sub a l i : keeps (from_at sub) (logEvent a l i).
Proof. apply keeps_from_at; [apply from_logEvent|]. by intros s s' r [= <- <-]. Qed.
Lemma at_world {A} sub (m : M W A) : keeps (from_at sub) (on_world m).
Proof.
  apply keeps_from_at; [apply from_on_world|]. intros s s' r. unfold on_world.
  destruct (m (world s)). by intros [= <- <-].
Qed.
Lemma at_create sub f :
  (∀ id, r_id (f id) = id ∧ r_subnetId (f id) = sub ∧ push_ok (f id)) → keeps (from_at sub) (reservation_create f).
Proof.
  intros Hf s s' r [[Hok Hn] (x & Hx & <-)] Hrun. pose proof (create_on_subnet f x s Hok Hx Hf) as Hc.
  pose proof (on_reservations_subnets _ _ _ _ Hrun) as Hs. pose proof (on_reservations_frame _ _ _ _ Hrun) as Hfr.
  rewrite Hrun in Hc. destruct r as [r|e].
  - destruct Hc as (t & id & -> & _ & _ & Hok' & _). split; [|by exists x]. split; [done|].
    by eapply net_frame_trans.
  - destruct Hc as [-> _]. by split; [|exists x].
Qed.
#[local] Hint Extern 1 (keeps (from_at _) (reservation_update _ _)) => apply at_update; solve [eauto with ipam] : inv.
#[local] Hint Resolve at_release at_log at_world : inv.

Lemma at_upsert_fresh x rows0 actor sc e c :
  is_Some (s_discoveredBy x) → keeps (from_at (s_id x)) (upsert_fresh x rows0 actor sc e c).
Proof.
  intros [d Hd]. unfold upsert_fresh. destruct e as [ip f]. rewrite Hd. solve_keeps.
  - apply at_update; [done|]. intros ? _; split_and!; by eexists.
  - apply at_update; [done|by intros ? ?].
  - by apply at_create.
Qed.
Lemma at_upsert_all x rows0 actor sc fresh c :
  is_Some (s_discoveredBy x) → keeps (from_at (s_id x)) (upsert_all x rows0 actor sc fresh c).
Proof.
  intros Hd. revert c. induction fresh as [|e fresh IH]; intros c; simpl; [solve_keeps|].
  apply keeps_hbind; [by apply at_upsert_fresh|done].
Qed.
Lemma at_release_gone sub fresh ex c : keeps (from_at sub) (release_gone fresh ex c).
Proof. revert c. induction ex as [|r ex IH]; intros c; simpl; solve_keeps. Qed.

Lemma at_subnet_same sub id f : (∀ x, same_net x (f x)) → keeps (from_at sub) (subnet_update id f).
Proof.
  intros Hf s s' r [[Hok Hn] (x & Hx & Hid)] Hrun.
  assert (∀ x, s_id (f x) = s_id x) as Hfi by (intros y; by destruct (Hf y) as (? & _)).
  pose proof (keeps_subnet_same id f Hfi s s' r Hok Hrun) as Hok'.
  pose proof (subnet_update_spec id f s Hfi (ro_db _ Hok)) as Hu. rewrite Hrun in Hu.
  destruct r as [y|e]; [|destruct Hu as [-> _]; by split; [|exists x]].
  destruct Hu as (t & -> & _ & _ & Hrows). split; [split; [done|]|].
  - eapply net_frame_trans; [done|]. split; [done|]. intros z. rewrite Hrows, elem_of_map_where.
    intros (u & Hu & ->). exists u. split; [done|]. by destruct (has_id id u).
  - exists (if has_id id x then f x else x). split; [rewrite Hrows, elem_of_map_where; eauto|].
    by destruct (has_id id x); rewrite ?Hfi.
Qed.
Lemma at_reconcile x rows0 actor sc fresh :
  is_Some (s_discoveredBy x) → keeps (from_at (s_id x)) (reconcile_subnet x rows0 actor sc fresh).
Proof.
  intros Hd. unfold reconcile_subnet. apply keeps_hbind; [by apply at_upsert_all|]. intros c. apply at_release_gone.
Qed.

Lemma from_refresh id actor : keeps from (refreshSubnet id actor).
Proof.
  intros s s' r Hf. unfold refreshSubnet. unfold hbind at 1, findSubnet, hgets at 1.
  destruct (List.find (has_id id) (subnet_rows s)) as [x|] eqn:Hx; [|by intros [= <- <-]].
  apply find_some_iff in Hx as [Hx _]. intros Hrun.
  assert (from_at (s_id x) s) as Hat by (split; [done|by exists x]).
  match type of Hrun with ?m s = _ => enough (keeps (from_at (s_id x)) m) as Hk by (by eapply Hk) end.
  apply keeps_hbind; [by apply keeps_readonly, readonly_findReservations|intros rows0].
  apply keeps_hbind; [by apply keeps_readonly, readonly_findIntegration|intros i].
  destruct (if Js.otruthy (s_discoveredBy x) then i else None) as [j|] eqn:Hi; [|solve_keeps].
  assert (is_Some (s_discoveredBy x)) as Hd by (destruct (s_discoveredBy x); [by eexists|done]).
  solve_keeps; [by apply at_reconcile|by apply at_subnet_same].
Qed.

(** The reconciler of DNS-resolved rows. *)
Lemma from_untouched s s' : from s → untouched s s' → from s'.
Proof.
  intros [Hok Hn] Hun. split; [apply Hun|]. eapply net_frame_trans; [done|]. apply net_frame_same, Hun.
Qed.
Lemma from_reconcile_asset id : keeps from (reconcileDnsResolvedForAsset id).
Proof.
  intros s s' r Hf Hrun. destruct (List.find (λ a, String.eqb (a_id a) id) (assets s)) as [a|] eqn:Ha.
  - destruct (reconcile_asset_run id a s (proj1 Hf) Ha) as (s1 & out & news & E & Hun & _). rewrite Hrun in E.
    injection E as -> ->. by eapply from_untouched.
  - unfold reconcileDnsResolvedForAsset, hbind, findAsset, hgets in Hrun. rewrite Ha in Hrun. by injection Hrun as <- <-.
Qed.
Lemma from_reconcile_assets ids c u l n : keeps from (reconcile_assets ids c u l n).
Proof.
  revert c u l n. induction ids as [|id ids IH]; intros c u l n; simpl; [solve_keeps|].
  apply keeps_hbind; [apply from_reconcile_asset|]. intros r. apply IH.
Qed.
Lemma from_reconcile_all : keeps from reconcileDnsResolvedForAllAssets.
Proof.
  unfold reconcileDnsResolvedForAllAssets. intros s s' r Hf Hrun. unfold hbind at 1, hget in Hrun.
  by eapply from_reconcile_assets.
Qed.
Lemma from_release_for_asset id : keeps from (releaseDnsResolvedForAsset id).
Proof.
  unfold releaseDnsResolvedForAsset, findOwnedSystemRows. solve_keeps. intros s s' r Hf Hrun.
  match type of Hrun with releaseRows ?i ?a s = _ =>
    destruct (releaseRows_run i a s (proj1 Hf)) as (s1 & n & E & Hun & _) end.
  rewrite Hrun in E. injection E as -> ->. by eapply from_untouched.
Qed.
End reservation_frames.

(** ** Properties *)

Section ipam_claims.
Context `{NetmaskLaws, PgInet, IpamStoreLaws, PushRule} `{Net W}.
Notation St := (State W).
Implicit Types (s : St).

(** What the rest of the service and the world do: the assets and the clock
    change freely, integrations are edited and added.  (Deleting one also writes
    to the subnets and reservations that refer to it, and is not modelled.) *)
Definition elsewhere (ints : list Integration) (l : list Asset) (w : W) s : St :=
  mkState (ipBlocks s) (subnets s) (reservations s) ints l w (audit s).

(** One run of a reservation handler or job, whatever its outcome. *)
Inductive res_step : St → St → Prop :=
  | st_createReservation i s s' r : createReservation i s = (s', r) → res_step s s'
  | st_updateReservation id i a s s' r : updateReservation id i a s = (s', r) → res_step s s'
  | st_releaseReservation id s s' r : releaseReservation id s = (s', r) → res_step s s'
  | st_nextAvailable i s s' r : nextAvailableReservation i s = (s', r) → res_step s s'
  | st_expire s s' r : expireStaleReservations s = (s', r) → res_step s s'
  | st_retryPending s s' r : retryPendingReservations s = (s', r) → res_step s s'
  | st_retryNow id s s' r : retryReservationNow id s = (s', r) → res_step s s'
  | st_trigger id s s' r : triggerRetryAfterStatusChange id s = (s', r) → res_step s s'
  | st_refresh id a s s' r : refreshSubnet id a s = (s', r) → res_step s s'
  | st_dns_reconcile id s s' r : reconcileDnsResolvedForAsset id s = (s', r) → res_step s s'
  | st_dns_sweep s s' r : reconcileDnsResolvedForAllAssets s = (s', r) → res_step s s'
  | st_dns_release id s s' r : releaseDnsResolvedForAsset id s = (s', r) → res_step s s'
  | st_elsewhere ints l w s :
      (∀ i, i ∈ integrations s → ∃ j, j ∈ ints ∧ i_id j = i_id i) → res_step s (elsewhere ints l w s).

(** What integrations and alerts do to the tables.  Deleting an integration is
    a step under the rule that lets a synced row lose its integration. *)
Inductive integration_step : St → St → Prop :=
  | st_syncSubnets mode i ty l known s s' r : syncDhcpSubnets mode i ty l known s = (s', r) → integration_step s s'
  | st_register ty host name force fields assetId s s' r :
      registerFortinetHost ty host name force fields assetId s = (s', r) → integration_step s s'
  | st_deleteIntegration id s s' r :
      integration_named = false → delete_integration id s = (s', r) → integration_step s s'
  | st_snooze days id s s' r : snooze_row days id s = (s', r) → integration_step s s'
  | st_ignore id b s s' r : setStaleIgnored id b s = (s', r) → integration_step s s'
  | st_flag t l n s s' r : flag_entries t l n s = (s', r) → integration_step s s'.

Definition ipam_step s s' : Prop := net_step s s' ∨ res_step s s' ∨ integration_step s s'.
Definition ipam_ok s : Prop := net_ok s ∧ res_ok s.

Lemma net_ok_frame s s' : net_ok s → db_ok s' → net_frame s s' → net_ok s'.
Proof.
  intros Hok Hdb [Hb Hs]. apply (net_ok_mono s); try done; unfold block_rows; rewrite Hb.
  - intros b ?. by exists b.
  - intros b x ? ? ?. by exists b.
Qed.

Lemma res_step_from s s' : res_step s s' → res_ok s → from s s'.
Proof.
  intros Hst Hres.
  assert (from s s) as Hs by (split; [done|by apply net_frame_same]).
  destruct Hst as [i s s' r Hrun|id i a s s' r Hrun|id s s' r Hrun|i s s' r Hrun|
    s s' r Hrun|s s' r Hrun|id s s' r Hrun|id s s' r Hrun|id a s s' r Hrun|id s s' r Hrun|s s' r Hrun|
    id s s' r Hrun|ints l w s _].
  - by eapply from_createReservation.
  - by eapply from_updateReservation.
  - by eapply from_releaseReservation.
  - by eapply from_nextAvailable.
  - by eapply from_expire.
  - by eapply from_retryPending.
  - by eapply from_retryNow.
  - by eapply from_trigger.
  - by eapply from_refresh.
  - by eapply from_reconcile_asset.
  - by eapply from_reconcile_all.
  - by eapply from_release_for_asset.
  - split; [by eapply res_ok_same_tables; [|exact Hres]|by apply net_frame_same].
Qed.

(** The reservation handlers leave the networks alone. *)
Lemma res_step_ok s s' : res_step s s' → ipam_ok s → ipam_ok s'.
Proof.
  intros Hst [Hnet Hres]. destruct (res_step_from _ _ Hst Hres) as [Hres' Hframe].
  split; [|done]. eapply net_ok_frame; [done|apply Hres'|done].
Qed.

Lemma ipam_step_res_ok s s' : ipam_step s s' → res_ok s → res_ok s'.
Proof.
  intros [Hst|[Hst|Hst]] Hok; [by eapply net_step_res_ok|by eapply res_step_from|].
  destruct Hst as [mode i ty l known s s' r Hrun|ty host name force fields assetId s s' r Hrun|id s s' r Hrule Hrun|
    days id s s' r Hrun|id b s s' r Hrun|t l n s s' r Hrun].
  - by eapply keeps_syncDhcpSubnets.
  - by eapply keeps_register.
  - by eapply keeps_delete_integration.
  - by eapply keeps_snooze.
  - by eapply keeps_ignore.
  - by eapply keeps_flag_entries.
Qed.

(** A step of the service, over the tables and the conflicts.  Conflicts of
    deleted reservations go with them. *)
Inductive service_step : SyncDb W → SyncDb W → Prop :=
  | sv_ipam s s' l l' : ipam_step s s' → l' `sublist_of` l → service_step (mkSyncDb s l) (mkSyncDb s' l')
  | sv_accept caller i d d' r : postAccept caller i d = (d', r) → service_step d d'
  | sv_reject caller i d d' r : postReject caller i d = (d', r) → service_step d d'
  | sv_resolve d d' r : resolvePolarisPushedConflicts d = (d', r) → service_step d d'
  | sv_sync i ty subs res look d d' r :
      sync_input (dd_ipam d) subs res → sync_reservations i ty subs res look d = (d', r) → service_step d d'.

Lemma one_pending_sublist l l' : l' `sublist_of` l → one_pending l → one_pending l'.
Proof.
  intros Hsub Hl. unfold one_pending in *. eapply sublist_NoDup; [exact Hl|]. apply fmap_sublist.
  clear Hl. induction Hsub as [|c l l' _ IH|c l l' _ IH]; cbn; [done|..];
    destruct (bool_decide (cf_status c = CfPending)); by constructor || done.
Qed.

Lemma service_step_ok d d' : service_step d d' → service_ok d → service_ok d'.
Proof.
  destruct 1 as [s s' l l' Hst Hsub|caller i d d' r Hrun|caller i d d' r Hrun|d d' r Hrun|i ty subs res look [s l] d' r Hin Hrun];
    intros Hok.
  - destruct Hok as [Hok Hl]. split; [by eapply ipam_step_res_ok|by eapply one_pending_sublist].
  - by eapply keeps_postAccept.
  - by eapply keeps_postReject.
  - by eapply keeps_resolve_pushed.
  - destruct Hok as [Hok Hl]. destruct (sync_keeps i ty subs res look s l Hok Hl Hin) as (d1 & Hrun' & Hres & Hone & _).
    rewrite Hrun in Hrun'. injection Hrun' as -> _. done.
Qed.

(** C8: the invariant of the reservations.  Through any interleaving of the
    block and subnet handlers, the reservation handlers and jobs, refreshes and
    syncs, settled conflicts, the reconciler of DNS-resolved rows, the alerts, the
    registration of hosts and, whatever the devices answer and the assets become:
    every reservation belongs to a stored subnet, every row marked synced keeps
    the scope and the entry it has on the device, every pending row keeps its
    place in the queue, the constraints of the schema hold, and no reservation has
    two pending conflicts.  Under the rule [named_rule] a synced row also names
    its integration; under [orphaned_rule] integrations may be deleted as well.
    A sync is given a report whose addresses are no placeholder texts. *)
Theorem ipam_invariant_reachable d d' :
  rtc service_step d d' → service_ok d →
  service_ok d' ∧
  ∀ r, r ∈ reservation_rows (dd_ipam d') →
    (∃ x, x ∈ subnet_rows (dd_ipam d') ∧ s_id x = r_subnetId r) ∧
    (pushStatus (r_push r) = Some Synced →
       is_Some (pushedScopeId (r_push r)) ∧ is_Some (pushedEntryId (r_push r)) ∧
       (integration_named = true → is_Some (pushedToId (r_push r)))) ∧
    (pushStatus (r_push r) = Some Pending → is_Some (pushQueuedAt (r_push r))).
Proof.
  intros Hsteps Hok. assert (service_ok d') as Hok'.
  { induction Hsteps; eauto using service_step_ok. }
  split; [done|]. intros r Hr. destruct Hok' as [[_ Hp Hfk] _]. split; [by apply Hfk|].
  specialize (Hp r Hr). unfold push_ok, push_state_ok in Hp. split; intros Hst; rewrite Hst in Hp; [|done].
  destruct Hp as (? & ? & ? & _). done.
Qed.

(** C9: [createReservation] either returns one new active row for the address
    asked for, on a subnet that is not deprecated and contains it, with no
    other active row there and its push either not needed, synced or queued;
    or it throws and leaves no row behind: the table is the old one, except
    that an observational DNS row at the address may have been released. *)
Theorem createReservation_correct input s :
  res_ok s →
  match createReservation input s with
  | (s', Ok r) => res_ok s' ∧ create_post input s s' r
  | (s', Throw e) => same_net_tables s s' ∧ ∃ L, yielded input s L ∧ reservation_rows s' ≡ₚ L
  end.
Proof.
  intros Hok. pose proof (createReservation_spec input s Hok) as Hc.
  destruct (createReservation input s) as [s' [r|e]]; naive_solver.
Qed.

(** C10: an active reservation can always be released, whatever the device
    answers: the row ends released with its push columns cleared, an older
    released row at the same address is dropped, and no other row changes. *)
Theorem releaseReservation_total r L s :
  res_ok s → reservation_rows s ≡ₚ r :: L → r_status r = Active →
  ∃ s', releaseReservation (r_id r) s = (s', Ok (released r)) ∧
    r_status (released r) = Released ∧ r_push (released r) = no_push ∧
    reservation_rows s' ≡ₚ released r :: List.filter (λ x, negb (stale_release r x)) L.
Proof.
  intros Hok Hp Hact. destruct (releaseReservation_spec r L s Hok Hp Hact) as (s' & ? & _ & ?). eauto.
Qed.

Lemma reserved_ips s sub ip :
  ip ≠ ""%string →
  ip ∈ omap (λ r, or_null (r_ipAddress r)) (List.filter (λ r,
         bool_decide (r_subnetId r = sub) && bool_decide (r_status r = Active)) (reservation_rows s)) ↔
  ∃ r, r ∈ reservation_rows s ∧ r_subnetId r = sub ∧ r_status r = Active ∧ r_ipAddress r = Some ip.
Proof.
  intros Hne. rewrite list_elem_of_omap. split.
  - intros (r & Hr & Hip). apply elem_of_lfilter in Hr as [Hr Hp].
    rewrite andb_true_iff, !bool_decide_eq_true in Hp. exists r. unfold or_null in Hip.
    case_match; [|done]. naive_solver.
  - intros (r & Hr & Hsub & Hact & Hip). exists r. split.
    + apply elem_of_lfilter. split; [done|]. by rewrite !bool_decide_eq_true_2.
    + unfold or_null. rewrite Hip. by destruct ip.
Qed.

Lemma join_nonempty a b l : Js.join "." (a :: b :: l) ≠ ""%string.
Proof. simpl. by destruct a. Qed.
Lemma intToIp_nonempty n : intToIp n ≠ ""%string.
Proof. unfold intToIp. rewrite ?fmap_cons. apply join_nonempty. Qed.

(** The request of [nextAvailableReservation] with the address filled in. *)
Definition with_ip (input : CreateReservationInput) (ip : string) : CreateReservationInput :=
  mkCreateReservationInput (ci_subnetId input) (Some ip) (ci_hostname input) (ci_owner input)
    (ci_projectRef input) (ci_expiresAt input) (ci_notes input) (ci_createdBy input)
    (ci_macAddress input).

(** C11: on an IPv4 subnet of at most /30, [nextAvailableReservation]
    terminates with the lowest host address that has no active reservation and
    reserves exactly that one, and answers 409 without effect exactly when
    every host address is actively reserved. *)
Theorem nextAvailableReservation_lowest input s x n p :
  res_ok s → x ∈ subnet_rows s → s_id x = ci_subnetId input → s_status x ≠ Deprecated →
  s_cidr x = cidr_text n p → is_addr n → is_prefix p → p ≤ 30 →
  let taken i := ∃ r, r ∈ reservation_rows s ∧ r_subnetId r = ci_subnetId input ∧
                      r_status r = Active ∧ r_ipAddress r = Some (intToIp (net_of n p + i)) in
  (∃ i, 0 < i < blk_size p - 1 ∧ ¬ taken i ∧ (∀ j, 0 < j < i → taken j) ∧
     nextAvailableReservation input s = createReservation (with_ip input (intToIp (net_of n p + i))) s) ∨
  ((∀ i, 0 < i < blk_size p - 1 → taken i) ∧
   ∃ msg, nextAvailableReservation input s = (s, Throw (AppError 409 msg))).
Proof.
  intros Hok Hx Hid Hdep Hc Hn Hp Hp30 taken.
  assert (∀ i, intToIp (net_of n p + i) ∈ omap (λ r, or_null (r_ipAddress r)) (List.filter (λ r,
    bool_decide (r_subnetId r = ci_subnetId input) && bool_decide (r_status r = Active))
    (reservation_rows s)) ↔ taken i) as Htaken.
  { intros i. apply reserved_ips, intToIp_nonempty. }
  match type of Htaken with ∀ i, _ ∈ ?l ↔ _ => set (reserved := l) in * end.
  destruct (page_fuel_enough (cidr_text n p) n p reserved) as (r & Hr & Hspec);
    [by apply denotes_text|done|].
  assert (nextAvailableReservation input s =
    match r with
    | Some ip => createReservation (with_ip input ip) s
    | None => (s, Throw (AppError 409 ("No available IP addresses in subnet " +:+ s_cidr x)))
    end) as ->.
  { unfold nextAvailableReservation, findSubnet, findReservations. unfold hbind at 1, hgets at 1.
    rewrite (find_has_id _ (ci_subnetId input) x) by (done || apply Hok).
    rewrite (bool_decide_eq_false_2 _ Hdep), Hc, detectIpVersion_text by done. hred.
    rewrite (bool_decide_eq_true_2 (v4 = v4)) by done. hred. fold reserved. rewrite Hr.
    by destruct r. }
  destruct r as [ip|].
  - left. destruct Hspec as (i & Hi & -> & Hnot & Hbelow). exists i. split_and!; try (done || lia).
    + by intros Ht%Htaken.
    + intros j Hj. apply Htaken, Hbelow; lia.
  - right. split; [|by eexists]. intros i Hi. apply Htaken, Hspec; lia.
Qed.

(** C12: [expireStaleReservations] is all or nothing: when it succeeds it
    flips exactly the active rows past their expiry and counts them; but one
    older expired row at the address of one stale row makes the unique index
    abort the whole batch, so that nothing expires. *)
Theorem expireStaleReservations_batch s :
  res_ok s →
  let t := now (world s) in
  match expireStaleReservations s with
  | (s', Ok n) =>
      reservation_rows s' ≡ₚ map_where (is_stale t) (set_r_status Expired) (reservation_rows s) ∧
      n = length (List.filter (is_stale t) (reservation_rows s))
  | (s', Throw e) => s' = s ∧ e = P2002
  end ∧
  (∀ r y ip, r ∈ reservation_rows s → is_stale t r = true → r_ipAddress r = Some ip →
     y ∈ reservation_rows s → r_subnetId y = r_subnetId r → r_ipAddress y = Some ip →
     r_status y = Expired → expireStaleReservations s = (s, Throw P2002)).
Proof.
  intros Hok t. unfold expireStaleReservations, newDate. unfold hbind, hgets. fold t.
  pose proof (reservation_updateMany_spec (is_stale t) (set_r_status Expired) s (λ _, eq_refl) (ro_db _ Hok)) as Hu.
  destruct (reservation_updateMany _ _ s) as [s' [n|e]].
  - destruct Hu as (t' & -> & Hdb & Hrows & ->). split; [done|].
    intros r y ip Hr Hstale Hip Hy Hsub Hyip Hexp. exfalso.
    assert (is_stale t y = false) as Hny.
    { unfold is_stale. by rewrite Hexp, bool_decide_eq_false_2. }
    assert (set_r_status Expired r = y) as Heq.
    { destruct Hdb as (_ & _ & Hdb). apply (rows_ok_conflict (reservation_rows (set_reservations t' s)));
        [apply reservation_conflict_sym|done|..].
      - rewrite Hrows. apply elem_of_map_where. exists r. by rewrite Hstale.
      - rewrite Hrows. apply elem_of_map_where. exists y. by rewrite Hny.
      - apply reservation_conflict_true. split_and!; [done|done|]. by exists ip. }
    assert (r = y) as ->; [|congruence].
    apply (rows_ok_id (reservation_rows s)); [apply Hok|done|done|]. by rewrite <-Heq.
  - destruct Hu as (-> & -> & _). split; [done|]. done.
Qed.

(** One queued push, tried once: the attempt never throws, touches no
    other row, keeps the reservation's address, MAC and status, and leaves the
    row as its outcome says (synced with its entry, still queued with one more
    attempt, failed, or out of the queue).  The branch for a colliding active
    row is never taken: the unique index excludes such a row. *)
Theorem attemptQueuedPush_total q b r L s :
  res_ok s → reservation_rows s ≡ₚ r :: L → q_row q = r → r_status r = Active →
  ∃ s' o r', attemptQueuedPush q b s = (s', Ok o) ∧ o ≠ OSuperseded ∧
    reservation_rows s' ≡ₚ r' :: L ∧ same_claim r r' ∧ retry_post r b o r'.
Proof.
  intros Hok Hp Hq Hact.
  destruct (attemptQueuedPush_spec q b r L s Hok Hp Hq Hact) as (s' & o & r' & ? & _ & _ & ? & ? & Hpost).
  exists s', o, r'. split_and!; try done. by intros ->.
Qed.

(** A retry tick terminates without an error, tries every pending row
    exactly once and reports one outcome for each, and leaves every row that
    was not pending as it was. *)
Theorem retryPendingReservations_total s :
  res_ok s →
  ∃ s' c, retryPendingReservations s = (s', Ok c) ∧
    rc_attempted c = length (List.filter is_pending (reservation_rows s)) ∧
    outcomes c = rc_attempted c ∧ rc_superseded c = 0%nat ∧
    (∀ y, y ∈ reservation_rows s → is_pending y = false → y ∈ reservation_rows s').
Proof.
  intros Hok. destruct (retryPending_spec s Hok) as (s' & c & ? & _ & _ & ?). by exists s', c.
Qed.

Lemma same_on_world {A} s0 (m : M W A) : keeps (same_tables s0) (on_world m).
Proof.
  intros s s' r Hs. unfold on_world. destruct (m (world s)). intros [= <- <-]. by etrans.
Qed.
Lemma same_logEvent s0 a l i : keeps (same_tables s0) (logEvent (W := W) a l i).
Proof. intros s s' r Hs [= <- <-]. by etrans. Qed.
#[local] Hint Resolve same_on_world same_logEvent : inv.
#[local] Hint Resolve readonly_require_reservation readonly_subnet_of readonly_findIntegration
  readonly_newDate : frame.

Lemma same_push_mac_update s0 input r x i mac :
  keeps (same_tables s0) (push_mac_update (W := W) input r x i mac).
Proof. unfold push_mac_update. solve_keeps. Qed.
#[local] Hint Resolve same_push_mac_update : inv.

(** A block of code that keeps the tables, followed by one update of a row
    that is there, cannot fail in the update. *)
Lemma then_update {A} (m : M St A) (g : A → Reservation → Reservation) id s :
  (∀ a, same_key (g a)) → keeps (same_tables s) m → res_ok s → id ∈ r_id <$> reservation_rows s →
  match (let! a := m in reservation_update id (g a)) s with
  | (s', Ok r') => ∃ a r L, (∃ s1, m s = (s1, Ok a)) ∧ reservation_rows s ≡ₚ r :: L ∧ r_id r = id ∧
      r' = g a r ∧ reservation_rows s' ≡ₚ r' :: L ∧ same_net_tables s s'
  | (s', Throw e) => same_tables s s'
  end.
Proof.
  intros Hg Hm Hok Hid. unfold hbind. destruct (m s) as [s1 [a|e]] eqn:Hrun;
    pose proof (Hm s s1 _ ltac:(done) Hrun) as Hsame; [|done].
  assert (res_ok s1) as Hok1 by (by eapply res_ok_same_tables).
  pose proof (update_same_key id (g a) s1 (Hg a) Hok1) as Hu.
  destruct Hsame as (Hb & Hs & Hr).
  assert (reservation_rows s1 = reservation_rows s) as Hrows by (unfold reservation_rows; by rewrite Hr).
  rewrite Hrows in Hu. destruct (reservation_update id (g a) s1) as [s2 [r'|e]].
  - destruct Hu as (t & -> & _ & (r & Hin & Hrid & ->) & Hperm).
    pose proof Hin as [L HL]%elem_of_Permutation. exists a, r, L. split_and!; try done; [by eexists|].
    rewrite Hperm. rewrite <-(map_where_head r L (g a)), <-Hrid; [unfold map_where; by rewrite HL|].
    eapply head_id_fresh; [apply Hok|done].
  - by destruct Hu as (_ & _ & []).
Qed.

Lemma require_reservation_ok id s s' r :
  require_reservation (W := W) id s = (s', Ok r) → s' = s ∧ r ∈ reservation_rows s ∧ r_id r = id.
Proof.
  unfold require_reservation, findReservation, hbind, hgets.
  destruct (List.find _ _) as [x|] eqn:Hf; intros [= <- <-].
  apply find_some_iff in Hf as [Hr Hid%bool_decide_eq_true_1]. done.
Qed.

(** [updateReservation] writes the device first.  When it throws (the
    device refused the new MAC, the row is missing or not active, the MAC is
    ill-formed) the tables are unchanged; when it returns, exactly that row
    was rewritten, and its subnet, address, status and source are the old ones. *)
Theorem updateReservation_device_first id input actor s :
  res_ok s →
  match updateReservation id input actor s with
  | (s', Ok r') => ∃ r L, reservation_rows s ≡ₚ r :: L ∧ r_id r = id ∧ r_status r = Active ∧
      reservation_rows s' ≡ₚ r' :: L ∧ same_net_tables s s' ∧
      r_id r' = id ∧ r_subnetId r' = r_subnetId r ∧ r_ipAddress r' = r_ipAddress r ∧
      r_status r' = Active ∧ r_sourceType r' = r_sourceType r
  | (s', Throw e) => same_tables s s'
  end.
Proof.
  intros Hok. unfold updateReservation. unfold hbind at 1.
  destruct (require_reservation id s) as [s1 [r|e]] eqn:E1;
    [|by apply readonly_require_reservation in E1 as ->].
  apply require_reservation_ok in E1 as (-> & Hr & Hid).
  unfold hbind at 1. destruct (subnet_of r s) as [s2 [x|e]] eqn:E2;
    pose proof (readonly_subnet_of _ _ _ _ E2) as ->; [|done].
  unfold hbind at 1, findIntegration, hgets at 1. unfold hguard.
  destruct (bool_decide (r_status r = Active)) eqn:Hact; hred; [|done].
  apply bool_decide_eq_true_1 in Hact.
  destruct (normalized_new_mac (ui_macAddress input)) as [newMac|e]; hred; [|done].
  set (integ := match s_discoveredBy x with Some _ => _ | None => None end).
  match goal with |- match hbind ?m (λ push, reservation_update id (apply_update input ?o ?mac push)) _ with _ => _ end =>
    pose proof (then_update m (λ push, apply_update input o mac push) id s ltac:(done)) as Hthen;
    destruct (hbind m (λ push, reservation_update id (apply_update input o mac push)) s) as [s' [r'|e]] end.
  - destruct Hthen as (f & r1 & L & _ & HL & Hid1 & -> & Hrows & Hnet);
      [solve_keeps|done|rewrite <-Hid; by apply list_elem_of_fmap_2|].
    assert (r1 = r) as ->.
    { apply (rows_ok_id (reservation_rows s)); [apply Hok| |done|].
      - rewrite HL. by left.
      - simpl. congruence. }
    exists r, L. by split_and!.
  - apply Hthen; [solve_keeps|done|rewrite <-Hid; by apply list_elem_of_fmap_2].
Qed.

(** An operator cannot take over an address that an observational DNS row
    holds if an older released row exists there: the hand-off violates the
    unique index, its error is swallowed, and [createReservation] never
    returns (the comment says the manual create takes over silently). *)
Theorem createReservation_blocked_by_history input s y1 y2 ip :
  res_ok s → ci_ipAddress input = Some ip → ip ≠ ""%string →
  y1 ∈ reservation_rows s → y2 ∈ reservation_rows s →
  r_subnetId y1 = ci_subnetId input → r_subnetId y2 = ci_subnetId input →
  r_ipAddress y1 = Some ip → r_ipAddress y2 = Some ip →
  r_status y1 = Active → r_sourceType y1 = DnsResolved → r_status y2 = Released →
  ∀ s' r, createReservation input s ≠ (s', Ok r).
Proof.
  intros Hok Hin Hne H1' H2' Hs1 Hs2 Hip1 Hip2 Ha1 Hd1 Hr2 s' r Hrun.
  pose proof (createReservation_spec input s Hok) as Hc. rewrite Hrun in Hc.
  destruct Hc as (Hok' & _ & L & x & Hy & Hrows & Hsub & Hrip & _ & _ & _ & _ & _ & Hfree & _).
  destruct Hy as [Hy|Hy].
  - apply (Hfree y1); [by rewrite Hy|done|by rewrite Hin|by rewrite Hin|done].
  - rewrite Hin in Hy. simpl in Hy. destruct (ro_db _ Hok') as (_ & _ & Hdb).
    apply (rows_ok_perm _ (r :: L)) in Hdb; [|apply reservation_conflict_sym|done].
    apply rows_ok_cons in Hdb as (_ & _ & HL).
    assert (dns_at (ci_subnetId input) ip y1 = true) as Hm1.
    { unfold dns_at. by rewrite !bool_decide_eq_true_2. }
    assert (dns_at (ci_subnetId input) ip y2 = false) as Hm2.
    { unfold dns_at. rewrite (bool_decide_eq_false_2 (r_status y2 = Active)) by congruence.
      by rewrite !andb_false_r. }
    assert (set_r_status Released y1 = y2) as Heq.
    { apply (rows_ok_conflict L); [apply reservation_conflict_sym|done|..].
      - rewrite Hy. apply elem_of_map_where. exists y1. by rewrite Hm1.
      - rewrite Hy. apply elem_of_map_where. exists y2. by rewrite Hm2.
      - apply reservation_conflict_true. simpl. split_and!; [congruence|by symmetry|]. exists ip. done. }
    assert (y1 = y2) as ->; [|congruence].
    apply (rows_ok_id (reservation_rows s)); [apply Hok|done|done|]. by rewrite <-Heq.
Qed.
End ipam_claims.

(** C13: the retry window of an unmonitored gate: it starts at 60 seconds,
    doubles with every attempt, never shrinks, and stays between 30 seconds and
    half an hour, which it reaches at the sixth attempt. *)
Theorem backoffSecondsFor_window a b :
  30 ≤ backoffSecondsFor a ≤ 1800 ∧
  (a ≤ b → backoffSecondsFor a ≤ backoffSecondsFor b) ∧
  (1 ≤ a ≤ 5 → backoffSecondsFor a = 60 * 2 ^ (a - 1)) ∧
  (6 ≤ a → backoffSecondsFor a = 1800).
Proof.
  assert (∀ x, 1 ≤ x → 60 ≤ 60 * 2 ^ (x - 1)) as Hlow.
  { intros x Hx. assert (0 < 2 ^ (x - 1)) by (apply Z.pow_pos_nonneg; lia). lia. }
  assert (∀ x, 6 ≤ x → 1920 ≤ 60 * 2 ^ (x - 1)) as Hcap.
  { intros x Hx. assert (2 ^ 5 ≤ 2 ^ (x - 1)) by (apply Z.pow_le_mono_r; lia). lia. }
  unfold backoffSecondsFor, BACKOFF_BASE_SECONDS, BACKOFF_CAP_SECONDS.
  change (60 / 2) with 30. split_and!.
  - destruct (Z.leb_spec a 0); [lia|]. specialize (Hlow a ltac:(lia)). lia.
  - destruct (Z.leb_spec a 0); [lia|]. specialize (Hlow a ltac:(lia)). lia.
  - intros Hab. destruct (Z.leb_spec b 0); destruct (Z.leb_spec a 0); [lia..| |].
    + specialize (Hlow b ltac:(lia)). lia.
    + assert (2 ^ (a - 1) ≤ 2 ^ (b - 1)) by (apply Z.pow_le_mono_r; lia). lia.
  - intros Ha. destruct (Z.leb_spec a 0); [lia|].
    assert (2 ^ (a - 1) ≤ 2 ^ 4) by (apply Z.pow_le_mono_r; lia). lia.
  - intros Ha. destruct (Z.leb_spec a 0); [lia|]. specialize (Hcap a Ha). lia.
Qed.

(** ** Concrete runs *)

Section ipam_runs.
Import RefGate RefInet.
#[local] Existing Instances RefNetmask.lib ListStore.store named_rule.

(** The reference gate behind a link that drops the requests its script marks. *)
Definition Link : Type := Gate * list bool.
#[local] Instance link_net : Net Link :=
  {| fetch := λ req w,
       match w.2 with
       | true :: script => ((w.1, script), Throw (JsError "fetch failed"))
       | _ => let '(g, r) := serve req w.1 in ((g, tail w.2), r)
       end;
     now := λ w, g_now w.1;
     tls_env := λ w, g_tls w.1;
     set_tls_env := λ v w, (mkGate (g_entries w.1) (g_now w.1) v, w.2) |}.

Definition subnet10 : Subnet :=
  mkSubnet "s1" "b1" "10.0.0.0/24" "lan" None Available None [] (Some "i1"%string)
    (Some "fg1"%string) None None.
Definition ipam_ex (rows : list Reservation) (w : Link) : State Link :=
  mkState [block10] [subnet10] rows [integration] [] w [].
Definition input_ex : CreateReservationInput :=
  mkCreateReservationInput "s1" (Some "10.0.0.20"%string) (Some "printer"%string) None None None None
    (Some "alice"%string) (Some "AA-BB-CC-DD-EE-0F"%string).

Definition rows_view {A} (f : Reservation → A) (s : State Link) : list A := f <$> reservation_rows s.

(** A push whose write reached the gate but whose read-back was lost is
    queued as if nothing had been written; the retry then takes the gate's
    copy of the very same reservation for a collision and fails for good, and
    releasing the row leaves the entry on the gate. *)
Theorem lost_readback_orphans_entry :
  let s0 := ipam_ex [] (gate_ex, [false; false; false; true]) in
  let s1 := (createReservation input_ex s0).1 in
  let id := default "" (head (rows_view r_id s1)) in
  let s2 := (retryReservationNow id s1).1 in
  let s3 := (releaseReservation id s2).1 in
  rows_view (λ r, pushStatus (r_push r)) s1 = [Some Pending] ∧
  (fst <$> (retryReservationNow id s1).2) = Ok OPermanent ∧
  rows_view (λ r, pushStatus (r_push r)) s2 = [Some FailedPermanent] ∧
  rows_view r_status s3 = [Released] ∧
  ra_ip <$> g_entries (world s3).1 = [Some "10.0.0.20"%string].
Proof. split_and!; vm_compute; reflexivity. Qed.

Lemma ipam_ex_ok l w :
  rows_ok l → (∀ r, r ∈ l → push_ok r ∧ r_subnetId r = "s1"%string) → ipam_ok (ipam_ex l w).
Proof.
  intros Hl Hrows.
  assert (db_ok (ipam_ex l w)) as Hdb by (split_and!; [repeat constructor; set_solver..|done]).
  split; split; try done.
  - intros b Hb%list_elem_of_singleton. subst. split; [done|]. exists net10, 24. apply denotes_net10.
  - intros x Hx%list_elem_of_singleton. subst. exists block10. split_and!; [left|done|]. by intros a.
  - intros x y a Hx%list_elem_of_singleton Hy%list_elem_of_singleton. by subst.
  - intros r Hr. by apply Hrows.
  - intros r Hr. exists subnet10. split; [left|]. symmetry. by apply Hrows.
Qed.

Lemma ipam_empty_ok w : ipam_ok (ipam_ex [] w).
Proof.
  apply ipam_ex_ok; [repeat constructor; set_solver|]. intros r Hr. by inversion Hr.
Qed.

Definition row_ex (id : string) (st : ReservationStatus) (src : ReservationSourceType)
    (expires : option Z) (p : PushState) : Reservation :=
  mkReservation id "s1" (Some "10.0.0.20"%string) (Some "printer"%string) None None expires None st src
    None (Some "aa:bb:cc:dd:ee:0f"%string) p no_stale 0 None.
Definition queued_ex : PushState := stamp_queued (Some "i1"%string) 500 1 (Some 500) "offline" no_push.
Definition link_ex : Link := (gate_ex, []).

Lemma ipam_one_ok r w : push_ok r → r_subnetId r = "s1"%string → ipam_ok (ipam_ex [r] w).
Proof.
  intros Hp Hs. apply ipam_ex_ok; [split; [apply NoDup_singleton|repeat constructor]|].
  by intros r' ->%list_elem_of_singleton.
Qed.

(** The row that [createReservation] pushed, after its integration is deleted. *)
Definition orphaned_ex : State Link :=
  (delete_integration "i1" (createReservation input_ex (ipam_ex [] link_ex)).1).1.

Lemma ipam_invariant_reachable_witness :
  ∃ d, rtc (service_step (H4 := orphaned_rule)) (mkSyncDb (ipam_ex [] link_ex) []) d ∧
    rows_view (λ r, (pushStatus (r_push r), pushedToId (r_push r))) (dd_ipam d) = [(Some Synced, None)] ∧
    service_ok (H3 := orphaned_rule) d.
Proof.
  exists (mkSyncDb orphaned_ex []).
  assert (rtc (service_step (H4 := orphaned_rule)) (mkSyncDb (ipam_ex [] link_ex) []) (mkSyncDb orphaned_ex [])) as Hr.
  { eapply rtc_l.
    - apply sv_ipam; [|apply sublist_nil_l]. right. left. eapply st_createReservation. apply surjective_pairing.
    - apply rtc_once, sv_ipam; [|apply sublist_nil_l]. right. right.
      eapply (st_deleteIntegration (H4 := orphaned_rule) "i1"); [reflexivity|apply surjective_pairing]. }
  split; [exact Hr|]. split; [vm_compute; reflexivity|].
  refine (proj1 (ipam_invariant_reachable (H4 := orphaned_rule) _ _ Hr _)). split; [|constructor].
  destruct (ipam_empty_ok link_ex) as [_ [Hdb _ Hfk]]. split; [exact Hdb| |exact Hfk].
  intros r Hin. by apply elem_of_nil in Hin.
Defined.

Lemma createReservation_correct_witness :
  ∃ r, (createReservation input_ex (ipam_ex [] link_ex)).2 = Ok r ∧
    pushStatus (r_push r) = Some Synced ∧ r_status r = Active.
Proof.
  pose proof (createReservation_correct input_ex (ipam_ex [] link_ex) (proj2 (ipam_empty_ok _))) as Hc.
  assert (∃ r, (createReservation input_ex (ipam_ex [] link_ex)).2 = Ok r ∧
    pushStatus (r_push r) = Some Synced) as (r & Hr & Hp) by (eexists; split; vm_compute; reflexivity).
  exists r. split; [exact Hr|]. split; [exact Hp|].
  destruct (createReservation input_ex (ipam_ex [] link_ex)) as [s' res]. simpl in Hr. subst res.
  destruct Hc as (_ & L & x & _ & _ & _ & _ & Hst & _). exact Hst.
Defined.

Lemma releaseReservation_total_witness :
  let r := row_ex "r1" Active Manual None no_push in
  ∃ s', releaseReservation "r1" (ipam_ex [r] link_ex) = (s', Ok (released r)).
Proof.
  intros r. destruct (releaseReservation_total r [] (ipam_ex [r] link_ex)) as (s' & Hs & _);
    [exact (proj2 (ipam_one_ok r link_ex I eq_refl))|reflexivity|reflexivity|].
  exists s'. exact Hs.
Defined.

Lemma nextAvailableReservation_lowest_witness :
  let s := ipam_ex [] link_ex in
  (∃ r, (nextAvailableReservation input_ex s).2 = Ok r ∧ r_ipAddress r = Some "10.0.0.1"%string) ∧
  ∃ i, nextAvailableReservation input_ex s =
         createReservation (with_ip input_ex (intToIp (net_of net10 24 + i))) s.
Proof.
  intros s. split; [eexists; split; vm_compute; reflexivity|].
  destruct (nextAvailableReservation_lowest input_ex s subnet10 net10 24 (proj2 (ipam_empty_ok _)))
    as [(i & _ & _ & _ & Hi)|[Htaken _]]; [left|reflexivity|discriminate|reflexivity|
    by apply is_addr_dec|unfold is_prefix; lia|lia| |].
  - exists i. exact Hi.
  - exfalso. destruct (Htaken 1) as (r & Hr & _); [split; [lia|vm_compute; reflexivity]|]. inversion Hr.
Defined.

Lemma expireStaleReservations_batch_witness :
  let r := row_ex "r1" Active Manual (Some 10) no_push in
  let y := row_ex "r0" Expired Manual (Some 5) no_push in
  expireStaleReservations (ipam_ex [r; y] link_ex) = (ipam_ex [r; y] link_ex, Throw P2002).
Proof.
  intros r y.
  assert (ipam_ok (ipam_ex [r; y] link_ex)) as Hok.
  { apply ipam_ex_ok; [apply (bool_decide_unpack (rows_ok [r; y])); vm_compute; exact I|].
    intros x Hx. rewrite !elem_of_cons, elem_of_nil in Hx. by destruct Hx as [->|[->|[]]]. }
  destruct (expireStaleReservations_batch (ipam_ex [r; y] link_ex) (proj2 Hok)) as [_ Hbad].
  apply (Hbad r y "10.0.0.20"%string); try reflexivity; [left|right; left].
Defined.

Lemma attemptQueuedPush_total_witness :
  let r := row_ex "r1" Active Manual None queued_ex in
  ∃ s' o, attemptQueuedPush (mkQueuedRow r subnet10 (Some integration)) true (ipam_ex [r] link_ex)
            = (s', Ok o) ∧ o ≠ OSuperseded.
Proof.
  intros r.
  destruct (attemptQueuedPush_total (mkQueuedRow r subnet10 (Some integration)) true r []
    (ipam_ex [r] link_ex)) as (s' & o & r' & Hrun & Ho & _);
    [exact (proj2 (ipam_one_ok r link_ex (mk_is_Some _ _ eq_refl) eq_refl))|reflexivity..|].
  exists s', o. split; [exact Hrun|exact Ho].
Defined.

Lemma retryPendingReservations_total_witness :
  let r := row_ex "r1" Active Manual None queued_ex in
  ∃ s' c, retryPendingReservations (ipam_ex [r] link_ex) = (s', Ok c) ∧ rc_attempted c = 1%nat.
Proof.
  intros r. destruct (retryPendingReservations_total (ipam_ex [r] link_ex)) as (s' & c & Hrun & Ha & _);
    [exact (proj2 (ipam_one_ok r link_ex (mk_is_Some _ _ eq_refl) eq_refl))|].
  exists s', c. split; [exact Hrun|]. rewrite Ha. reflexivity.
Defined.

Lemma updateReservation_device_first_witness :
  let r := row_ex "r1" Active Manual None no_push in
  let input := mkUpdateReservationInput None None None None None (Some "00-11-22-33-44-55"%string) in
  same_tables (ipam_ex [r] link_ex) (updateReservation "r1" input None (ipam_ex [r] link_ex)).1 ∧
  is_ok (updateReservation "r1" input None (ipam_ex [r] link_ex)).2 = false.
Proof.
  intros r input.
  pose proof (updateReservation_device_first "r1" input None (ipam_ex [r] link_ex)
    (proj2 (ipam_one_ok r link_ex I eq_refl))) as Hu.
  assert (is_ok (updateReservation "r1" input None (ipam_ex [r] link_ex)).2 = false) as Hf
    by (vm_compute; reflexivity).
  split; [|exact Hf].
  destruct (updateReservation "r1" input None (ipam_ex [r] link_ex)) as [s' [r'|e]]; [discriminate Hf|].
  exact Hu.
Defined.

Lemma createReservation_blocked_by_history_witness :
  let y1 := row_ex "r1" Active DnsResolved None no_push in
  let y2 := row_ex "r0" Released Manual None no_push in
  (createReservation input_ex (ipam_ex [y1; y2] link_ex)).2 = Throw P2002 ∧
  ∀ s' r, createReservation input_ex (ipam_ex [y1; y2] link_ex) ≠ (s', Ok r).
Proof.
  intros y1 y2. split; [vm_compute; reflexivity|].
  assert (ipam_ok (ipam_ex [y1; y2] link_ex)) as Hok.
  { apply ipam_ex_ok; [apply (bool_decide_unpack (rows_ok [y1; y2])); vm_compute; exact I|].
    intros x Hx. rewrite !elem_of_cons, elem_of_nil in Hx. by destruct Hx as [->|[->|[]]]. }
  apply (createReservation_blocked_by_history input_ex (ipam_ex [y1; y2] link_ex) y1 y2
    "10.0.0.20"%string (proj2 Hok)); try reflexivity; [discriminate|left|right; left].
Defined.
End ipam_runs.
