(* ===== verification/Topology.v ===== *)
(** * Topology from interface names

    [src/src/utils/fortinetSerialPattern.ts] and
    [src/src/services/interfaceTopologyService.ts]: a FortiOS aggregate that is
    named after its peer's serial number (or hostname) gives an edge between two
    inventory assets.  [fortios_ifname] is the naming rule the parser's header
    documents; [peer_interface_roundtrip] says the parser undoes it. *)

From S2P Require Import Prelude JsColl Http.

(** ** [fortinetSerialPattern.ts] *)

Definition MIN_LEN : nat := 8.
Definition MAX_LEN : nat := 30.

Record ParsedPeerInterface := mkParsedPeerInterface {
  interfaceName : string;
  peerFragment : string;
  aggregateIndex : option Z;
}.

(** [[A-Z0-9]] *)
Definition is_name_char (c : ascii) : bool :=
  Js.is_digit c || ((65 <=? Ascii.nat_of_ascii c) && (Ascii.nat_of_ascii c <=? 90))%nat.

Fixpoint last_char (s : string) : option ascii :=
  match s with
  | EmptyString => None
  | String c EmptyString => Some c
  | String _ s' => last_char s'
  end.

(** [/^[A-Z0-9](?:[A-Z0-9-]*[A-Z0-9])?$/] *)
Definition PEER_INTERFACE_NAME_RE (s : string) : bool :=
  match s, last_char s with
  | String c _, Some d =>
      is_name_char c && is_name_char d && Js.sforallb (λ x, is_name_char x || Ascii.eqb x "-") s
  | _, _ => false
  end.

(** [s.lastIndexOf(c)]; -1 is [None]. *)
Fixpoint lastIndexOf (c : ascii) (s : string) : option nat :=
  match s with
  | EmptyString => None
  | String d s' =>
      match lastIndexOf c s' with
      | Some i => Some (S i)
      | None => if Ascii.eqb c d then Some O else None
      end
  end.

(** [/^\d+$/] *)
Definition all_digits (s : string) : bool := Js.truthy s && Js.sforallb Js.is_digit s.

(** [s.endsWith(f)] *)
Definition endsWith (f s : string) : bool :=
  String.eqb (Js.drop (String.length s - String.length f) s) f.

Definition parseFortinetPeerInterface (name : option string) : option ParsedPeerInterface :=
  match name with
  | None => None
  | Some name =>
      if negb (Js.truthy name) then None else
      let trimmed := Js.trim name in
      if negb (Js.truthy trimmed) then None else
      if ((String.length trimmed <? MIN_LEN) || (MAX_LEN <? String.length trimmed))%nat then None else
      if negb (PEER_INTERFACE_NAME_RE trimmed) then None else
      let whole := mkParsedPeerInterface trimmed trimmed None in
      match lastIndexOf "-" trimmed with
      | Some (S i) =>
          let dashIdx := S i in
          let tail := Js.drop (dashIdx + 1) trimmed in
          if all_digits tail then
            let fragment := Js.take dashIdx trimmed in
            if (6 <=? String.length fragment)%nat
            then Some (mkParsedPeerInterface trimmed fragment (Some (Js.parse_digits 0 tail)))
            else Some whole
          else Some whole
      | _ => Some whole
      end
  end.

Definition serialMatchesPeerInterface (parsed : ParsedPeerInterface) (assetSerial : option string) : bool :=
  match assetSerial with
  | None => false
  | Some assetSerial =>
      if negb (Js.truthy assetSerial) then false else
      let a := Js.trim (Js.toUpperCase assetSerial) in
      let f := Js.toUpperCase (peerFragment parsed) in
      if (String.length a <? String.length f)%nat then false else endsWith f a
  end.

Definition hostnameMatchesPeerInterface (parsed : ParsedPeerInterface) (assetHostname : option string) : bool :=
  match assetHostname with
  | None => false
  | Some assetHostname =>
      if negb (Js.truthy assetHostname) then false else
      let h := Js.trim (Js.toUpperCase assetHostname) in
      let f := Js.toUpperCase (peerFragment parsed) in
      if (String.length h <? String.length f)%nat then false else
      if String.eqb h f then true else
      Js.startsWith (f +:+ "-") h || Js.startsWith (f +:+ ".") h
  end.

(** ** Rows *)

(** The columns of [Asset] that the topology and the dependency tree read or write. *)
Record AssetRow := mkAssetRow {
  as_id : string;
  as_hostname : option string;
  as_serialNumber : option string;
  as_assetType : string;
  as_fortinetTopology : Json;
  as_discoveredByIntegrationId : option string;
  as_monitored : bool;
  as_monitorStatus : option string;
  as_dependencyLayer : option Z;
  as_dependencySuppressed : bool;
  as_dependencySuppressedAt : option Z;
  as_dependencyTestUntil : option Z;
  as_dependencyTestStartedBy : option string;
}.

(** [AssetInterfaceSample] *)
Record InterfaceSample := mkInterfaceSample {
  is_assetId : string;
  is_ifName : string;
  is_ifType : option string;
  is_ifParent : option string;
  is_timestamp : Z;
}.

(** [assetType: { in: ["firewall", "switch", "access_point"] }] *)
Definition is_infra (a : AssetRow) : bool :=
  bool_decide (as_assetType a ∈ ["firewall"; "switch"; "access_point"]).

(** ** [interfaceTopologyService.ts] *)

Inductive MatchVia := BySerial | ByHostname.

Record InterfaceInferredEdge := mkInterfaceInferredEdge {
  ie_sourceAssetId : string;
  ie_sourceIfName : string;
  ie_targetAssetId : string;
  ie_targetIfName : option string;
  ie_matchVia : MatchVia;
  ie_aggregateIndex : option Z;
}.

Record DirectedHit := mkDirectedHit {
  dh_sourceAssetId : string;
  dh_sourceIfName : string;
  dh_matched : AssetRow;
  dh_matchVia : MatchVia;
  dh_aggregateIndex : option Z;
}.
(** [targetAssetId: matched.id] *)
Definition dh_targetAssetId (h : DirectedHit) : string := as_id (dh_matched h).

(** [ORDER BY "assetId", "ifName", "timestamp" DESC] *)
Definition sample_leb (a b : InterfaceSample) : bool :=
  if String.eqb (is_assetId a) (is_assetId b) then
    if String.eqb (is_ifName a) (is_ifName b) then is_timestamp b <=? is_timestamp a
    else String.leb (is_ifName a) (is_ifName b)
  else String.leb (is_assetId a) (is_assetId b).

(** [SELECT DISTINCT ON ("assetId", "ifName")]: the first row of each key. *)
Fixpoint distinct_on (seen : list (string * string)) (l : list InterfaceSample) : list InterfaceSample :=
  match l with
  | [] => []
  | r :: l' =>
      if decide ((is_assetId r, is_ifName r) ∈ seen) then distinct_on seen l'
      else r :: distinct_on ((is_assetId r, is_ifName r) :: seen) l'
  end.

Definition HOUR_MS : Z := 60 * 60 * 1000.

Definition interface_rows (now : Z) (seedAssetIds : list string) (samples : list InterfaceSample) :
    list InterfaceSample :=
  distinct_on [] (sort_by sample_leb (List.filter (λ r,
    bool_decide (is_assetId r ∈ seedAssetIds) && (now - HOUR_MS <? is_timestamp r)) samples)).

(** [`${a}|${b}`] *)
Definition pair_key (a b : string) : string := a +:+ "|" +:+ b.

Definition physical_by_parent (rows : list InterfaceSample) : JsMap string (list string) :=
  fold_left (λ m row,
    match is_ifParent row with
    | Some p =>
        if bool_decide (is_ifType row = Some "physical"%string) && Js.truthy p
        then mpush (pair_key (is_assetId row) p) (is_ifName row) m else m
    | None => m
    end) rows [].

Definition preferPhysical (physicalByParent : JsMap string (list string)) (assetId ifName : string) : string :=
  match mget (pair_key assetId ifName) physicalByParent with
  | Some [member] => member
  | _ => ifName
  end.

(** The inventory asset a candidate names, if exactly one does. *)
Definition match_candidate (inventory : list AssetRow) (parsed : ParsedPeerInterface) :
    option (AssetRow * MatchVia) :=
  match List.filter (λ a, serialMatchesPeerInterface parsed (as_serialNumber a)) inventory with
  | [a] => Some (a, BySerial)
  | [] =>
      match List.filter (λ a, hostnameMatchesPeerInterface parsed (as_hostname a)) inventory with
      | [a] => Some (a, ByHostname)
      | _ => None
      end
  | _ => None
  end.

Definition directed_hit (inventory : list AssetRow) (row : InterfaceSample) : option DirectedHit :=
  match parseFortinetPeerInterface (Some (is_ifName row)) with
  | None => None
  | Some parsed =>
      match match_candidate inventory parsed with
      | None => None
      | Some (matched, via) =>
          if String.eqb (as_id matched) (is_assetId row) then None
          else Some (mkDirectedHit (is_assetId row) (is_ifName row) matched via (aggregateIndex parsed))
      end
  end.

(** [byPair]: the first hit of each directed pair. *)
Definition by_pair (hits : list DirectedHit) : JsMap string DirectedHit :=
  fold_left (λ m h,
    let key := pair_key (dh_sourceAssetId h) (dh_targetAssetId h) in
    if mhas key m then m else mset key h m) hits [].

Definition inferred_edge (physicalByParent : JsMap string (list string)) (byPair : JsMap string DirectedHit)
    (h : DirectedHit) : InterfaceInferredEdge :=
  mkInterfaceInferredEdge (dh_sourceAssetId h)
    (preferPhysical physicalByParent (dh_sourceAssetId h) (dh_sourceIfName h))
    (dh_targetAssetId h)
    ((λ r, preferPhysical physicalByParent (dh_sourceAssetId r) (dh_sourceIfName r)) <$>
       mget (pair_key (dh_targetAssetId h) (dh_sourceAssetId h)) byPair)
    (dh_matchVia h) (dh_aggregateIndex h).

(** The emission loop: one edge per pair, whichever side named it first.  The
    second component is [remoteAssets], keyed by asset id. *)
Fixpoint emit_edges (seedSet : list string) (mk : DirectedHit → InterfaceInferredEdge)
    (emitted : list string) (hits : list DirectedHit) (remote : JsMap string AssetRow) :
    list InterfaceInferredEdge * JsMap string AssetRow :=
  match hits with
  | [] => ([], remote)
  | h :: hits' =>
      let k := pair_key (dh_sourceAssetId h) (dh_targetAssetId h) in
      let reverseKey := pair_key (dh_targetAssetId h) (dh_sourceAssetId h) in
      if bool_decide (k ∈ emitted) || bool_decide (reverseKey ∈ emitted)
      then emit_edges seedSet mk emitted hits' remote
      else
        let remote' := if bool_decide (dh_targetAssetId h ∈ seedSet) then remote
                       else mset (dh_targetAssetId h) (dh_matched h) remote in
        let '(edges, remote'') := emit_edges seedSet mk (k :: emitted) hits' remote' in
        (mk h :: edges, remote'')
  end.

Record InterfaceInferenceResult := mkInterfaceInferenceResult {
  ir_edges : list InterfaceInferredEdge;
  ir_remoteAssets : JsMap string AssetRow;
}.

Definition inferInterfaceTopology (now : Z) (samples : list InterfaceSample) (assets : list AssetRow)
    (seedAssetIds : list string) : InterfaceInferenceResult :=
  match seedAssetIds with
  | [] => mkInterfaceInferenceResult [] []
  | _ =>
      let rows := interface_rows now seedAssetIds samples in
      let physicalByParent := physical_by_parent rows in
      let candidates := List.filter (λ row,
        match parseFortinetPeerInterface (Some (is_ifName row)) with Some _ => true | None => false end) rows in
      match candidates with
      | [] => mkInterfaceInferenceResult [] []
      | _ =>
          let inventory := List.filter is_infra assets in
          let hits := omap (directed_hit inventory) candidates in
          let '(edges, remote) :=
            emit_edges seedAssetIds (inferred_edge physicalByParent (by_pair hits)) [] hits [] in
          mkInterfaceInferenceResult edges remote
      end
  end.

(** ** Strings *)

Definition no_char (c : ascii) (s : string) : Prop := Js.sforallb (λ d, negb (Ascii.eqb d c)) s = true.

Lemma pair_key_inj a b a' b' :
  no_char "|" a → no_char "|" b → no_char "|" a' → no_char "|" b' →
  pair_key a b = pair_key a' b' → a = a' ∧ b = b'.
Proof.
  intros Ha Hb Ha' Hb' Heq. apply (f_equal (Js.split "|")) in Heq. unfold pair_key in Heq.
  change ("|" +:+ b) with (String "|" b) in Heq. change ("|" +:+ b') with (String "|" b') in Heq.
  rewrite !split_append, !split_no_sep in Heq by done. by simplify_eq.
Qed.

Lemma name_char_facts c :
  is_name_char c = true →
  Js.is_space c = false ∧ Js.upper c = c ∧ negb (Ascii.eqb c "-") = true.
Proof. destruct c as [[] [] [] [] [] [] [] []]; by vm_compute. Qed.

Lemma trimEnd_id s : Js.sforallb (λ c, negb (Js.is_space c)) s = true → Js.trimEnd s = s.
Proof.
  induction s as [|c s IH]; simpl; [done|]. rewrite andb_true_iff, negb_true_iff.
  intros [Hc Hs]. rewrite IH by done. destruct s; [by rewrite Hc|done].
Qed.
Lemma trim_id s : Js.sforallb (λ c, negb (Js.is_space c)) s = true → Js.trim s = s.
Proof.
  intros Hs. unfold Js.trim. rewrite trimEnd_id; destruct s as [|c s]; try done; simpl in *;
    apply andb_true_iff in Hs as [Hc%negb_true_iff Hs]; rewrite Hc; simpl; by rewrite ?Hc.
Qed.
Lemma toUpperCase_id s : Js.sforallb is_name_char s = true → Js.toUpperCase s = s.
Proof.
  unfold Js.toUpperCase. induction s as [|c s IH]; simpl; [done|].
  rewrite andb_true_iff. intros [(_ & Hc & _)%name_char_facts Hs]. by rewrite Hc, IH.
Qed.

Lemma sforallb_drop f n s : Js.sforallb f s = true → Js.sforallb f (Js.drop n s) = true.
Proof.
  revert s. induction n as [|n IH]; intros [|c s]; simpl; try done.
  rewrite andb_true_iff. intros [_ ?]. auto.
Qed.
Lemma length_drop n s : String.length (Js.drop n s) = (String.length s - n)%nat.
Proof. revert s. induction n as [|n IH]; intros [|c s]; simpl; auto. Qed.
Lemma take_append p s : Js.take (String.length p) (p +:+ s) = p.
Proof. induction p as [|c p IH]; simpl; [by destruct s|]. by rewrite IH. Qed.

Lemma lastIndexOf_none c s : no_char c s → lastIndexOf c s = None.
Proof.
  unfold no_char. induction s as [|d s IH]; simpl; [done|].
  rewrite andb_true_iff, negb_true_iff. intros [Hd Hs]. rewrite IH by done.
  by rewrite Ascii.eqb_sym, Hd.
Qed.
Lemma lastIndexOf_append c a b : no_char c b → lastIndexOf c (a +:+ String c b) = Some (String.length a).
Proof.
  intros Hb. induction a as [|d a IH]; simpl.
  - by rewrite lastIndexOf_none, Ascii.eqb_refl.
  - by rewrite IH.
Qed.
Lemma last_char_append a b d : last_char b = Some d → last_char (a +:+ b) = Some d.
Proof.
  intros Hb. induction a as [|c a IH]; simpl; [done|].
  destruct (a +:+ b) eqn:Hab; [|done]. by rewrite <-IH.
Qed.
Lemma last_char_of f s : s ≠ ""%string → Js.sforallb f s = true → ∃ d, last_char s = Some d ∧ f d = true.
Proof.
  intros Hne Hs. induction s as [|c s IH]; [done|]. simpl in *. apply andb_true_iff in Hs as [Hc Hs].
  destruct s as [|c' s]; [by exists c|]. by apply IH.
Qed.

(** ** The parser undoes FortiOS's naming *)

(** The naming rule the header of [fortinetSerialPattern.ts] documents: the peer's
    serial loses characters from the front until it fits 15 characters with the
    optional [-N] suffix. *)
Definition fortios_suffix (n : option Z) : string :=
  match n with Some n => "-" +:+ pretty n | None => "" end.
Definition fortios_ifname (serial : string) (n : option Z) : string :=
  Js.drop (String.length serial - (15 - String.length (fortios_suffix n))) serial +:+ fortios_suffix n.

Lemma name_chars_weak s : Js.sforallb is_name_char s = true →
  Js.sforallb (λ c, negb (Js.is_space c)) s = true ∧ no_char "-" s ∧
  Js.sforallb (λ x, is_name_char x || Ascii.eqb x "-") s = true.
Proof.
  intros Hs. split_and!; (eapply sforallb_impl; [|exact Hs]);
    intros c Hc; destruct (name_char_facts c Hc) as (Hsp & _ & ?); rewrite ?Hsp, ?Hc; done.
Qed.

Lemma digit_name_char c : Js.is_digit c = true → is_name_char c = true.
Proof. unfold is_name_char. by intros ->. Qed.

Lemma fortios_suffix_chars n : (∀ k, n = Some k → 0 ≤ k) →
  fortios_suffix n = ""%string ∨
  ∃ d, fortios_suffix n = String "-" d ∧ n = Some (Js.parse_digits 0 d) ∧ d ≠ ""%string ∧
       Js.sforallb Js.is_digit d = true.
Proof.
  intros Hn. destruct n as [k|]; [|by left]. right. specialize (Hn k eq_refl). exists (pretty k).
  split_and!; [done|by rewrite parse_digits_pretty| |by apply pretty_digits].
  destruct (pretty_head k Hn) as (c & s & -> & _). done.
Qed.

Lemma peer_name_ok f d :
  f ≠ ""%string → Js.sforallb is_name_char f = true →
  d = ""%string ∨ (∃ t, d = String "-" t ∧ t ≠ ""%string ∧ Js.sforallb is_name_char t = true) →
  Js.trim (f +:+ d) = f +:+ d ∧ PEER_INTERFACE_NAME_RE (f +:+ d) = true.
Proof.
  intros Hne Hf Hd. destruct (name_chars_weak f Hf) as (Hsp & _ & Hre).
  assert (Js.sforallb (λ c, negb (Js.is_space c)) d = true ∧
          Js.sforallb (λ x, is_name_char x || Ascii.eqb x "-") d = true ∧
          ∃ c, last_char (f +:+ d) = Some c ∧ is_name_char c = true) as (Hsp' & Hre' & c & Hc & Hcn).
  { destruct Hd as [->|(t & -> & Htne & Ht)].
    - rewrite append_nil_r. split_and!; [done..|by apply last_char_of].
    - destruct (name_chars_weak t Ht) as (? & _ & ?). simpl. split_and!; [done..|].
      destruct (last_char_of _ t Htne Ht) as (c & Hc & Hcn). exists c. split; [|done].
      apply last_char_append. simpl. by destruct t. }
  split; [by apply trim_id; rewrite sforallb_append, Hsp, Hsp'|].
  assert (Js.sforallb (λ x, is_name_char x || Ascii.eqb x "-") (f +:+ d) = true) as Hall.
  { by rewrite sforallb_append, Hre, Hre'. }
  unfold PEER_INTERFACE_NAME_RE. destruct f as [|a f]; [done|].
  change (String a f +:+ d) with (String a (f +:+ d)) in *. cbv iota beta. rewrite Hc, Hcn, Hall.
  simpl in Hf. apply andb_true_iff in Hf as [Ha _]. by rewrite Ha.
Qed.

(** The parser undoes FortiOS's peer naming.  For every serial number of
    upper-case letters and digits and every aggregate index that leaves at least
    six characters of it, the interface name FortiOS stamps parses to a
    non-empty suffix of the serial and to that index, and the serial matches. *)
Theorem peer_interface_roundtrip serial n :
  Js.sforallb is_name_char serial = true → (8 ≤ String.length serial)%nat →
  (∀ k, n = Some k → 0 ≤ k ∧ (String.length (pretty k) ≤ 8)%nat) →
  ∃ p, parseFortinetPeerInterface (Some (fortios_ifname serial n)) = Some p ∧
    aggregateIndex p = n ∧ peerFragment p +:+ fortios_suffix n = fortios_ifname serial n ∧
    (6 ≤ String.length (peerFragment p))%nat ∧ serialMatchesPeerInterface p (Some serial) = true.
Proof.
  intros Hs Hlen Hn. unfold fortios_ifname. set (sfx := fortios_suffix n).
  set (k := (String.length serial - (15 - String.length sfx))%nat). set (f := Js.drop k serial).
  assert (String.length sfx ≤ 9)%nat as Hsfx.
  { unfold sfx, fortios_suffix. destruct n as [z|]; simpl; [|lia]. destruct (Hn z eq_refl). lia. }
  assert (String.length f = (String.length serial - k)%nat) as Hf by apply length_drop.
  assert (Js.sforallb is_name_char f = true) as Hfc by by apply sforallb_drop.
  assert (f ≠ ""%string) as Hfne by (intros Hempty; rewrite Hempty in Hf; simpl in Hf; lia).
  destruct (name_chars_weak f Hfc) as (_ & Hdash & _).
  assert (serialMatchesPeerInterface (mkParsedPeerInterface (f +:+ sfx) f n) (Some serial) = true) as Hmatch.
  { unfold serialMatchesPeerInterface, endsWith. simpl. rewrite !toUpperCase_id by done.
    rewrite trim_id by apply name_chars_weak, Hs.
    assert (Js.truthy serial = true) as -> by (destruct serial; simpl in *; [lia|done]). simpl.
    destruct (Nat.ltb_spec (String.length serial) (String.length f)); [lia|].
    apply String.eqb_eq. unfold f. f_equal. rewrite length_drop. lia. }
  exists (mkParsedPeerInterface (f +:+ sfx) f n).
  split; [|simpl; split_and!; [done|done|lia|done]].
  assert ((String.length (f +:+ sfx) <? MIN_LEN) || (MAX_LEN <? String.length (f +:+ sfx)) = false)%nat as Hl.
  { rewrite append_length, orb_false_iff, !Nat.ltb_ge. unfold MIN_LEN, MAX_LEN. lia. }
  assert (Js.truthy (f +:+ sfx) = true) as Htr by (by destruct f).
  unfold parseFortinetPeerInterface.
  destruct (fortios_suffix_chars n) as [Hd|(d & Hd & Hnd & Hdne & Hdc)]; [by intros z [? _]%Hn|..]; fold sfx in Hd.
  - destruct (peer_name_ok f sfx) as [Htrim Hre]; [done|done|by left|].
    rewrite Htr, Htrim, Htr, Hl, Hre. simpl. rewrite Hd, append_nil_r, lastIndexOf_none by done.
    assert (n = None) as -> by (destruct n; done). done.
  - assert (Js.sforallb is_name_char d = true) as Hdn by (eapply sforallb_impl; [apply digit_name_char|done]).
    destruct (peer_name_ok f sfx) as [Htrim Hre]; [done|done|right; eauto|].
    rewrite Htr, Htrim, Htr, Hl, Hre. cbn [negb]. cbv zeta. rewrite Hd, lastIndexOf_append by apply name_chars_weak, Hdn.
    destruct (String.length f) as [|i] eqn:Hi; [lia|]. cbv iota beta zeta.
    rewrite Nat.add_1_r, <-Hi, take_append.
    assert (Js.drop (S (String.length f)) (f +:+ String "-" d) = d) as ->.
    { clear. induction f; [done|]. simpl in *. done. }
    assert (all_digits d = true) as -> by (unfold all_digits; by rewrite Hdc, andb_true_r; destruct d).
    destruct (Nat.leb_spec 6 (String.length f)); [|lia]. by rewrite Hnd.
Qed.

Lemma peer_interface_roundtrip_witness :
  ∃ p, parseFortinetPeerInterface (Some "8FFTV23025884-0"%string) = Some p ∧
    aggregateIndex p = Some 0 ∧ serialMatchesPeerInterface p (Some "S108FFTV23025884"%string) = true.
Proof.
  destruct (peer_interface_roundtrip "S108FFTV23025884" (Some 0)) as (p & Hp & Hi & _ & _ & Hm).
  - vm_compute. reflexivity.
  - vm_compute. lia.
  - intros k [= <-]. vm_compute. split; [discriminate|lia].
  - exists p. split; [exact Hp|]. split; [exact Hi|exact Hm].
Defined.

(** ** The inferred edges *)

Definition hit_key (h : DirectedHit) : string := pair_key (dh_sourceAssetId h) (dh_targetAssetId h).
Definition hit_rev (h : DirectedHit) : string := pair_key (dh_targetAssetId h) (dh_sourceAssetId h).

Lemma emit_edges_spec seed mk emitted hits remote :
  ∃ sel, (emit_edges seed mk emitted hits remote).1 = mk <$> sel ∧ sel ⊆ hits ∧
    (∀ h, h ∈ sel → hit_key h ∉ emitted ∧ hit_rev h ∉ emitted) ∧
    StronglySorted (λ h h', hit_key h' ≠ hit_key h ∧ hit_rev h' ≠ hit_key h) sel ∧
    (∀ h, h ∈ hits → (∃ h', h' ∈ sel ∧ (hit_key h' = hit_key h ∨ hit_key h' = hit_rev h)) ∨
                      hit_key h ∈ emitted ∨ hit_rev h ∈ emitted).
Proof.
  revert emitted remote. induction hits as [|h hits IH]; intros emitted remote; simpl.
  - exists []. split_and!; [done|done|by intros ? ?%elem_of_nil|constructor|by intros ? ?%elem_of_nil].
  - fold (hit_key h) (hit_rev h).
    destruct (bool_decide (hit_key h ∈ emitted) || bool_decide (hit_rev h ∈ emitted)) eqn:Hem.
    + rewrite orb_true_iff, !bool_decide_eq_true in Hem.
      destruct (IH emitted remote) as (sel & -> & Hsub & Hnot & Hs & Hall). exists sel.
      split_and!; [done|set_solver|done|done|]. intros h' [->|Hh']%elem_of_cons; [tauto|by apply Hall].
    + rewrite orb_false_iff, !bool_decide_eq_false in Hem. destruct Hem as [Hk Hr].
      match goal with |- context [emit_edges _ _ _ _ ?r] => destruct (IH (hit_key h :: emitted) r)
        as (sel & Hsel & Hsub & Hnot & Hs & Hall); destruct (emit_edges _ _ _ _ r) as [edges remote'] end.
      simpl in *. subst edges. exists (h :: sel). split_and!; [done|set_solver| | |].
      * intros h' [->|Hh']%elem_of_cons; [done|]. apply Hnot in Hh'. set_solver.
      * constructor; [done|]. apply Forall_forall. intros h' Hh'. apply Hnot in Hh'. set_solver.
      * intros h' [->|Hh']%elem_of_cons; [left; exists h; split; [left|by left]|].
        destruct (Hall h' Hh') as [(h'' & ? & ?)|[Hin|Hin]]; [left; exists h''; set_solver|..];
          apply elem_of_cons in Hin as [Heq|]; [|tauto| |tauto];
          left; exists h; (split; [left|]); rewrite Heq; tauto.
Qed.

Lemma distinct_on_sub seen l r : r ∈ distinct_on seen l → r ∈ l.
Proof.
  revert seen. induction l as [|x l IH]; intros seen; simpl; [done|].
  case_decide; [right; eauto|]. intros [->|?]%elem_of_cons; [left|right; eauto].
Qed.

(** [row] is a recent sample of a seed asset. *)
Definition live_row (now : Z) (seed : list string) (row : InterfaceSample) : Prop :=
  is_assetId row ∈ seed ∧ now - HOUR_MS < is_timestamp row.

Lemma interface_rows_live now seed samples row :
  row ∈ interface_rows now seed samples → row ∈ samples ∧ live_row now seed row.
Proof.
  unfold interface_rows. intros Hin%distinct_on_sub. rewrite sort_by_perm in Hin.
  apply list_elem_of_In, filter_In in Hin as [Hin%list_elem_of_In Hb].
  rewrite andb_true_iff, bool_decide_eq_true, Z.ltb_lt in Hb. by split.
Qed.

(** The asset an interface name points at: the only serial match, or the only
    hostname match when no serial matches. *)
Definition names_peer (inventory : list AssetRow) (row : InterfaceSample) (a : AssetRow) : Prop :=
  ∃ parsed, parseFortinetPeerInterface (Some (is_ifName row)) = Some parsed ∧
    (List.filter (λ x, serialMatchesPeerInterface parsed (as_serialNumber x)) inventory = [a] ∨
     List.filter (λ x, serialMatchesPeerInterface parsed (as_serialNumber x)) inventory = [] ∧
     List.filter (λ x, hostnameMatchesPeerInterface parsed (as_hostname x)) inventory = [a]).

Lemma directed_hit_spec inventory row h :
  directed_hit inventory row = Some h →
  dh_sourceAssetId h = is_assetId row ∧ names_peer inventory row (dh_matched h) ∧
  dh_targetAssetId h ≠ is_assetId row.
Proof.
  unfold directed_hit, names_peer. destruct (parseFortinetPeerInterface _) as [parsed|]; [|done].
  destruct (match_candidate inventory parsed) as [[a via]|] eqn:Hm; [|done].
  destruct (String.eqb_spec (as_id a) (is_assetId row)) as [|Hne]; [done|]. intros [= <-]. simpl.
  split_and!; [done| |done]. exists parsed. split; [done|]. unfold match_candidate in Hm.
  repeat case_match; simplify_eq; eauto.
Qed.
Lemma directed_hit_complete inventory row a :
  names_peer inventory row a → as_id a ≠ is_assetId row →
  ∃ h, directed_hit inventory row = Some h ∧ dh_matched h = a ∧ dh_sourceAssetId h = is_assetId row.
Proof.
  intros (parsed & Hp & Hm) Hne. unfold directed_hit, match_candidate. rewrite Hp.
  destruct Hm as [->|[-> ->]]; destruct (String.eqb_spec (as_id a) (is_assetId row)); try done; by eexists.
Qed.

(** Two edges join the same two assets. *)
Definition same_pair (e e' : InterfaceInferredEdge) : Prop :=
  (ie_sourceAssetId e = ie_sourceAssetId e' ∧ ie_targetAssetId e = ie_targetAssetId e') ∨
  (ie_sourceAssetId e = ie_targetAssetId e' ∧ ie_targetAssetId e = ie_sourceAssetId e').

Lemma omap_filter_none {A B} (f : A → option B) (p : A → bool) l :
  (∀ x, p x = false → f x = None) → omap f (List.filter p l) = omap f l.
Proof.
  intros Hf. induction l as [|x l IH]; [done|]. cbn. destruct (p x) eqn:Hp; cbn; rewrite IH.
  - done.
  - by rewrite Hf.
Qed.

Lemma inferInterfaceTopology_edges now samples assets seed :
  let rows := interface_rows now seed samples in
  let hits := omap (directed_hit (List.filter is_infra assets)) rows in
  ir_edges (inferInterfaceTopology now samples assets seed) =
    (emit_edges seed (inferred_edge (physical_by_parent rows) (by_pair hits)) [] hits []).1.
Proof.
  intros rows hits.
  assert (omap (directed_hit (List.filter is_infra assets)) (List.filter (λ row,
    match parseFortinetPeerInterface (Some (is_ifName row)) with Some _ => true | None => false end) rows)
    = hits) as Hhits.
  { apply omap_filter_none. intros row. unfold directed_hit. by destruct (parseFortinetPeerInterface _). }
  unfold inferInterfaceTopology. destruct seed as [|sd seed'].
  - assert (rows = []) as Hnil; [|unfold hits; by rewrite Hnil].
    destruct rows as [|row l] eqn:Hr; [done|]. unfold rows in Hr.
    assert (row ∈ interface_rows now [] samples) as Hin by (rewrite Hr; left).
    apply interface_rows_live in Hin as [_ [Hin _]]. by apply elem_of_nil in Hin.
  - fold rows. clearbody hits. destruct (List.filter _ rows) as [|c cs]; [by rewrite <-Hhits|].
    rewrite Hhits. by destruct (emit_edges _ _ _ _ _).
Qed.

(** The edges read only the identity columns of an asset. *)
Section identity_columns.
Context (f : AssetRow → AssetRow).
Context (Hf : ∀ a, as_id (f a) = as_id a ∧ as_serialNumber (f a) = as_serialNumber a ∧
                   as_hostname (f a) = as_hostname a ∧ as_assetType (f a) = as_assetType a).

Definition lift_hit (h : DirectedHit) : DirectedHit :=
  mkDirectedHit (dh_sourceAssetId h) (dh_sourceIfName h) (f (dh_matched h)) (dh_matchVia h) (dh_aggregateIndex h).

Lemma lift_hit_target h : dh_targetAssetId (lift_hit h) = dh_targetAssetId h.
Proof. unfold dh_targetAssetId. simpl. apply Hf. Qed.

Lemma filter_fmap_same {A} (g : A → A) (p : A → bool) (l : list A) :
  (∀ a, p (g a) = p a) → List.filter p (g <$> l) = g <$> List.filter p l.
Proof.
  intros Hp. induction l as [|a l IH]; [done|]. rewrite fmap_cons. cbn [List.filter]. rewrite Hp, IH.
  by destruct (p a).
Qed.

Lemma directed_hit_lift inventory row :
  directed_hit (f <$> inventory) row = lift_hit <$> directed_hit inventory row.
Proof.
  unfold directed_hit, match_candidate. destruct (parseFortinetPeerInterface _) as [parsed|]; [|done].
  rewrite !filter_fmap_same.
  - destruct (List.filter _ inventory) as [|a [|? ?]]; cbn.
    + destruct (List.filter _ inventory) as [|a [|? ?]]; cbn; [done| |done].
      rewrite (proj1 (Hf a)). by destruct (String.eqb _ _).
    + rewrite (proj1 (Hf a)). by destruct (String.eqb _ _).
    + done.
  - intros a. by destruct (Hf a) as (_ & _ & -> & _).
  - intros a. by destruct (Hf a) as (_ & -> & _).
Qed.

Lemma by_pair_lift hits k : mget k (by_pair (lift_hit <$> hits)) = lift_hit <$> mget k (by_pair hits).
Proof.
  unfold by_pair. change (@nil (string * DirectedHit)) with (prod_map (@id string) lift_hit <$> @nil (string * DirectedHit)) at 1.
  assert (∀ (m : JsMap string DirectedHit) k, mget k (prod_map id lift_hit <$> m) = lift_hit <$> mget k m) as Hget.
  { intros m k'. induction m as [|[k0 h] m IH]; cbn; [done|]. case_decide; [done|]. apply IH. }
  assert (∀ (m : JsMap string DirectedHit) k h,
    mset k (lift_hit h) (prod_map id lift_hit <$> m) = prod_map id lift_hit <$> mset k h m) as Hset.
  { intros m k' h. induction m as [|[k0 h0] m IH]; cbn; [done|]. case_decide; cbn; [done|]. by rewrite IH. }
  generalize (@nil (string * DirectedHit)). induction hits as [|h hits IH]; intros m; [apply Hget|].
  rewrite fmap_cons. cbn [fold_left]. rewrite lift_hit_target. cbn [dh_sourceAssetId lift_hit].
  unfold mhas. rewrite Hget. destruct (mget _ m); cbn; [apply IH|]. rewrite Hset. apply IH.
Qed.

Lemma emit_edges_lift seed mk mk' emitted hits r r' :
  (∀ h, mk' (lift_hit h) = mk h) →
  (emit_edges seed mk' emitted (lift_hit <$> hits) r').1 = (emit_edges seed mk emitted hits r).1.
Proof.
  intros Hmk. revert emitted r r'. induction hits as [|h hits IH]; intros emitted r r'; [done|].
  rewrite fmap_cons. cbn [emit_edges]. rewrite lift_hit_target. cbn [dh_sourceAssetId lift_hit].
  destruct (_ || _); [apply IH|].
  match goal with |- context [emit_edges seed mk' ?e ?h ?x] => match goal with |- context [emit_edges seed mk e hits ?y] =>
    specialize (IH e y x); destruct (emit_edges seed mk' e h x), (emit_edges seed mk e hits y) end end.
  cbn in *. rewrite Hmk. by f_equal.
Qed.

Lemma inferInterfaceTopology_identity now samples assets seed :
  ir_edges (inferInterfaceTopology now samples (f <$> assets) seed) =
  ir_edges (inferInterfaceTopology now samples assets seed).
Proof.
  rewrite !inferInterfaceTopology_edges, filter_fmap_same.
  2: { intros a. unfold is_infra. by destruct (Hf a) as (_ & _ & _ & ->). }
  set (inventory := List.filter is_infra assets). set (rows := interface_rows now seed samples).
  assert (omap (directed_hit (f <$> inventory)) rows = lift_hit <$> omap (directed_hit inventory) rows) as ->.
  { induction rows as [|row rows IH]; [done|]. cbn. rewrite directed_hit_lift. cbn in IH. rewrite IH.
    by destruct (directed_hit inventory row). }
  apply emit_edges_lift. intros h. unfold inferred_edge. rewrite lift_hit_target, by_pair_lift.
  cbn [dh_sourceAssetId dh_sourceIfName dh_matchVia dh_aggregateIndex lift_hit].
  by destruct (mget _ (by_pair _)).
Qed.
End identity_columns.

Lemma selected_pairs_distinct mk sel :
  (∀ h, ie_sourceAssetId (mk h) = dh_sourceAssetId h ∧ ie_targetAssetId (mk h) = dh_targetAssetId h) →
  StronglySorted (λ h h', hit_key h' ≠ hit_key h ∧ hit_rev h' ≠ hit_key h) sel →
  ∀ i j e e', (mk <$> sel) !! i = Some e → (mk <$> sel) !! j = Some e' → same_pair e e' → i = j.
Proof.
  intros Hmk Hs.
  assert (∀ i j h h', (i < j)%nat → sel !! i = Some h → sel !! j = Some h' → ¬ same_pair (mk h) (mk h')) as Hlt.
  { intros i j h h' Hij Hi Hj Hsame.
    destruct (StronglySorted_lookup _ sel i j h h' Hs Hi Hj Hij) as [Hk Hr].
    destruct (Hmk h) as [Hs1 Ht1], (Hmk h') as [Hs2 Ht2]. unfold same_pair in Hsame.
    rewrite Hs1, Ht1, Hs2, Ht2 in Hsame. unfold hit_key, hit_rev in *.
    destruct Hsame as [[E1 E2]|[E1 E2]]; rewrite E1, E2 in *; done. }
  intros i j e e' Hi Hj Hsame. rewrite list_lookup_fmap in Hi, Hj.
  destruct (sel !! i) as [h|] eqn:Hi', (sel !! j) as [h'|] eqn:Hj'; simplify_eq/=.
  destruct (decide (i = j)) as [|Hij]; [done|]. exfalso.
  destruct (decide (i < j)%nat); [by eapply (Hlt i j)|].
  eapply (Hlt j i); [lia|done|done|]. unfold same_pair in *. naive_solver.
Qed.

Lemma hit_ids_plain now samples assets seed :
  Forall (λ a, no_char "|" (as_id a)) assets → Forall (λ r, no_char "|" (is_assetId r)) samples →
  ∀ h, h ∈ omap (directed_hit (List.filter is_infra assets)) (interface_rows now seed samples) →
    no_char "|" (dh_sourceAssetId h) ∧ no_char "|" (dh_targetAssetId h).
Proof.
  intros Hassets Hsamples x (r & [Hr _]%interface_rows_live & Hrd)%list_elem_of_omap.
  apply directed_hit_spec in Hrd as (-> & (parsed & _ & Hpp) & _).
  rewrite Forall_forall in Hassets. rewrite Forall_forall in Hsamples.
  split; [by apply Hsamples|]. unfold dh_targetAssetId.
  assert (dh_matched x ∈ List.filter is_infra assets) as Hin.
  { destruct Hpp as [Hf|[_ Hf]]; eapply list_elem_of_In, (proj1 (filter_In _ _ _)), list_elem_of_In;
      rewrite Hf; left. }
  apply list_elem_of_In, filter_In in Hin as [Hin%list_elem_of_In _]. by apply Hassets.
Qed.

(** C23: the inferred topology is exactly what the interface names say.  Every
    edge comes from a sample of the last hour of a seed asset whose name points
    at one other infrastructure asset; no two edges join the same two assets;
    and every such name gives an edge between the two, in one direction. *)
Theorem inferInterfaceTopology_exact now samples assets seed :
  Forall (λ a, no_char "|" (as_id a)) assets → Forall (λ r, no_char "|" (is_assetId r)) samples →
  let edges := ir_edges (inferInterfaceTopology now samples assets seed) in
  let inventory := List.filter is_infra assets in
  (∀ e, e ∈ edges → ∃ row a, row ∈ samples ∧ live_row now seed row ∧ names_peer inventory row a ∧
     ie_sourceAssetId e = is_assetId row ∧ ie_targetAssetId e = as_id a ∧ as_id a ≠ is_assetId row) ∧
  (∀ i j e e', edges !! i = Some e → edges !! j = Some e' → same_pair e e' → i = j) ∧
  (∀ row a, row ∈ interface_rows now seed samples → names_peer inventory row a → as_id a ≠ is_assetId row →
     ∃ e, e ∈ edges ∧
       ((ie_sourceAssetId e = is_assetId row ∧ ie_targetAssetId e = as_id a) ∨
        (ie_sourceAssetId e = as_id a ∧ ie_targetAssetId e = is_assetId row))).
Proof.
  intros Hassets Hsamples. cbv zeta.
  rewrite inferInterfaceTopology_edges.
  match goal with |- context [emit_edges seed ?m [] ?h []] => set (mk := m); set (hits := h) end.
  assert (∀ h, ie_sourceAssetId (mk h) = dh_sourceAssetId h ∧ ie_targetAssetId (mk h) = dh_targetAssetId h) as Hmk by done.
  destruct (emit_edges_spec seed mk [] hits []) as (sel & -> & Hsub & _ & Hs & Hall).
  assert (∀ h, h ∈ hits → ∃ row, row ∈ interface_rows now seed samples ∧
    directed_hit (List.filter is_infra assets) row = Some h) as Hhit.
  { intros h Hh. apply list_elem_of_omap in Hh as (row & ? & ?). eauto. }
  split_and!.
  - intros e (h & -> & Hh)%list_elem_of_fmap. apply Hsub in Hh. destruct (Hhit h Hh) as (row & Hrow & Hd).
    apply interface_rows_live in Hrow as [? ?]. apply directed_hit_spec in Hd as (Hsrc & Hp & Hne).
    exists row, (dh_matched h). destruct (Hmk h) as [-> ->]. rewrite Hsrc. by split_and!.
  - by apply selected_pairs_distinct.
  - intros row a Hrow Hp Hne. destruct (directed_hit_complete _ _ _ Hp Hne) as (h & Hd & Ha & Hsrc).
    assert (h ∈ hits) as Hh by (apply list_elem_of_omap; eauto).
    pose proof (hit_ids_plain now samples assets seed Hassets Hsamples) as Hbar.
    destruct (Hall h Hh) as [(h' & Hh' & Hk)|[Hk|Hk]]; [|by apply elem_of_nil in Hk..].
    destruct (Hbar h Hh), (Hbar h' (Hsub _ Hh')). exists (mk h'). destruct (Hmk h') as [-> ->].
    split; [by apply list_elem_of_fmap_2|].
    rewrite <-Ha, <-Hsrc. fold (dh_targetAssetId h). unfold hit_key, hit_rev in Hk.
    destruct Hk as [[-> ->]%pair_key_inj|[-> ->]%pair_key_inj]; auto.
Qed.

Definition topo_ex_assets : list AssetRow :=
  [ mkAssetRow "fg1" (Some "HQ-FG") (Some "FGT61FTK22002079") "firewall" JNull None true None None false None None None;
    mkAssetRow "sw1" (Some "HQ-SW1") (Some "S108FFTV23025884") "switch" JNull None true None None false None None None ]%string.
Definition topo_ex_samples : list InterfaceSample :=
  [ mkInterfaceSample "sw1" "GT61FTK22002079" (Some "aggregate") None 5000000;
    mkInterfaceSample "sw1" "port9" (Some "physical") (Some "GT61FTK22002079") 5000000;
    mkInterfaceSample "fg1" "8FFTV23025884-0" (Some "aggregate") None 5000000 ]%string.

Lemma inferInterfaceTopology_exact_witness :
  ir_edges (inferInterfaceTopology 6000000 topo_ex_samples topo_ex_assets ["fg1"; "sw1"]%string) =
    [mkInterfaceInferredEdge "fg1" "8FFTV23025884-0" "sw1" (Some "port9"%string) BySerial (Some 0)] ∧
  ∀ e, e ∈ ir_edges (inferInterfaceTopology 6000000 topo_ex_samples topo_ex_assets ["fg1"; "sw1"]%string) →
    ie_sourceAssetId e ≠ ie_targetAssetId e.
Proof.
  split; [vm_compute; reflexivity|]. intros e He.
  destruct (inferInterfaceTopology_exact 6000000 topo_ex_samples topo_ex_assets ["fg1"; "sw1"]%string)
    as [Hsound _].
  - repeat constructor.
  - repeat constructor.
  - destruct (Hsound e He) as (row & a & _ & _ & _ & Hs & Ht & Hne). congruence.
Defined.
