(* ===== verification/Dependency.v ===== *)
(** * The dependency tree

    The pure half of [src/src/services/dependencyTreeService.ts]: candidate edges
    from the discovery signals ([buildDependencyEdgesFromInputs]), breadth-first
    layers from the FortiGate roots with the controller fallback
    ([assignLayers]), and the suppression rule ([evaluateSuppression]).

    The two loops that are not structural carry fuel: [bfs_fuel] for one
    breadth-first pass and one round per asset for the controller fallback;
    [isParentOk] carries one unit per known asset.  [None] is "out of fuel" (or
    a read of an asset without a layer); the theorems show it does not occur. *)

From S2P Require Import Prelude JsColl Http Topology.

(** ** Data *)

Inductive DependencyDetectedVia := Controller | Interface | Lldp | Manual.
#[global] Instance via_eq_dec : EqDecision DependencyDetectedVia.
Proof. solve_decision. Defined.
Inductive DependencySource := Computed | Override.
#[global] Instance source_eq_dec : EqDecision DependencySource.
Proof. solve_decision. Defined.

Definition via_text (v : DependencyDetectedVia) : string :=
  match v with Controller => "controller" | Interface => "interface" | Lldp => "lldp" | Manual => "manual" end.

Record DepAsset := mkDepAsset {
  da_id : string;
  da_hostname : option string;
  da_serialNumber : option string;
  da_assetType : string;
  da_fortinetTopology : Json;
}.

(** [DepInterfaceEdge] and [DepLldpEdge]: an unordered pair of asset ids. *)
Definition DepPair : Type := string * string.

Record DependencyEdge := mkDependencyEdge {
  childAssetId : string;
  parentAssetId : string;
  detectedVia : DependencyDetectedVia;
}.

Record LayerAssignment := mkLayerAssignment {
  la_layers : JsMap string Z;
  la_keptEdges : list DependencyEdge;
  la_unresolved : list string;
}.

(** ** [buildDependencyEdgesFromInputs] *)

Definition edge_key (child parent : string) (via : DependencyDetectedVia) : string :=
  pair_key child (pair_key parent (via_text via)).

Definition add_edge (child parent : string) (via : DependencyDetectedVia)
    (edges : JsMap string DependencyEdge) : JsMap string DependencyEdge :=
  if String.eqb child parent then edges else
  let key := edge_key child parent via in
  if mhas key edges then edges else mset key (mkDependencyEdge child parent via) edges.

(** [typeof top.k === "string" ? top.k.toLowerCase() : null], then truthy. *)
Definition topology_host (k : string) (top : Json) : option string :=
  match jstring (jget k (Some top)) with
  | Some h => let h := Js.toLowerCase h in if Js.truthy h then Some h else None
  | None => None
  end.

Definition byHostname (assets : list DepAsset) : JsMap string DepAsset :=
  fold_left (λ m a, match da_hostname a with
                    | Some h => if Js.truthy h then mset (Js.toLowerCase h) a m else m
                    | None => m
                    end) assets [].
Definition byId (assets : list DepAsset) : JsMap string DepAsset :=
  fold_left (λ m a, mset (da_id a) a m) assets [].

(** One asset's controller edge, if its topology names a known controller of
    the right type. *)
Definition controller_parent (hosts : JsMap string DepAsset) (a : DepAsset) : option string :=
  let top := da_fortinetTopology a in
  let named k ty := match topology_host k top with
    | Some h => match mget h hosts with
                | Some p => if String.eqb (da_assetType p) ty then Some (da_id p) else None
                | None => None
                end
    | None => None
    end in
  if negb (jtruthy (Some top)) then None
  else if String.eqb (da_assetType a) "switch" then named "controllerFortigate"%string "firewall"%string
  else if String.eqb (da_assetType a) "access_point" then
    match topology_host "parentSwitch" top with
    | Some _ => named "parentSwitch"%string "switch"%string
    | None => named "controllerFortigate"%string "firewall"%string
    end
  else None.

Definition add_controller (hosts : JsMap string DepAsset) (edges : JsMap string DependencyEdge) (a : DepAsset) :=
  match controller_parent hosts a with Some p => add_edge (da_id a) p Controller edges | None => edges end.

(** A bidirectional signal between two known assets. *)
Definition add_pair (ids : JsMap string DepAsset) (via : DependencyDetectedVia)
    (edges : JsMap string DependencyEdge) (e : DepPair) :=
  match mget e.1 ids, mget e.2 ids with
  | Some a, Some b => add_edge (da_id b) (da_id a) via (add_edge (da_id a) (da_id b) via edges)
  | _, _ => edges
  end.

Definition buildDependencyEdgesFromInputs (assets : list DepAsset)
    (interfaceEdges lldpEdges : list DepPair) : list DependencyEdge :=
  let hosts := byHostname assets in
  let ids := byId assets in
  let edges := fold_left (add_controller hosts) assets [] in
  let edges := fold_left (add_pair ids Interface) interfaceEdges edges in
  let edges := fold_left (add_pair ids Lldp) lldpEdges edges in
  mvalues edges.

(** ** [assignLayers] *)

Definition physicalRank (v : DependencyDetectedVia) : Z :=
  match v with Interface => 3 | Lldp => 2 | Controller => 1 | Manual => 0 end.

Notation Adj := (JsMap string (list string)).
Notation Layers := (JsMap string Z).

Definition link (a b : string) (adj : Adj) : Adj := mset a (sadd b (default [] (mget a adj))) adj.
Definition link_both (e : DependencyEdge) (adj : Adj) : Adj :=
  link (parentAssetId e) (childAssetId e) (link (childAssetId e) (parentAssetId e) adj).

Definition isPhysical (v : DependencyDetectedVia) : bool :=
  match v with Interface | Lldp => true | _ => false end.

(** [physicalAdj] and [controllerAdj] *)
Definition adjacency (physical : bool) (edges : list DependencyEdge) : Adj :=
  fold_left (λ adj e, if Bool.eqb (isPhysical (detectedVia e)) physical then link_both e adj else adj) edges [].

Definition neighbors (adj : Adj) (n : string) : list string := default [] (mget n adj).

(** One neighbour of the node at the head of the queue. *)
Definition visit (curLayer : Z) (st : list string * Layers) (n : string) : list string * Layers :=
  let '(queue, layers) := st in
  if mhas n layers then (queue, layers) else (queue ++ [n], mset n (curLayer + 1) layers).

Fixpoint physicalBfs (fuel : nat) (adj : Adj) (queue : list string) (layers : Layers) : option Layers :=
  match queue with
  | [] => Some layers
  | cur :: queue' =>
      match fuel, mget cur layers with
      | S fuel', Some curLayer =>
          let '(queue'', layers') := fold_left (visit curLayer) (neighbors adj cur) (queue', layers) in
          physicalBfs fuel' adj queue'' layers'
      | _, _ => None
      end
  end.

Definition firewall_layers (assets : list DepAsset) : Layers :=
  fold_left (λ m a, if String.eqb (da_assetType a) "firewall" then mset (da_id a) 1 m else m) assets [].

(** The closest layered controller neighbour. *)
Definition best_parent (layers : Layers) (ctlNeighbors : list string) : option (string * Z) :=
  fold_left (λ best n,
    match mget n layers with
    | Some nLayer =>
        match best with
        | Some (_, bestLayer) => if nLayer <? bestLayer then Some (n, nLayer) else best
        | None => Some (n, nLayer)
        end
    | None => best
    end) ctlNeighbors None.

Definition bucket_asset (controllerAdj : Adj) (layers : Layers) (buckets : JsMap string (list string))
    (a : DepAsset) : JsMap string (list string) :=
  if mhas (da_id a) layers then buckets else
  match best_parent layers (neighbors controllerAdj (da_id a)) with
  | Some (p, _) => mpush p (da_id a) buckets
  | None => buckets
  end.

(** [[...buckets.entries()].sort()]: the default order compares the entries'
    texts, [parent,member,member…]. *)
Definition bucket_leb (a b : string * list string) : bool :=
  String.leb (Js.join "," (a.1 :: a.2)) (Js.join "," (b.1 :: b.2)).

Definition neighborsInBucket (physicalAdj : Adj) (memberIds : list string) (id : string) : list string :=
  List.filter (λ n, bool_decide (n ∈ memberIds)) (neighbors physicalAdj id).

Definition chain_endpoints (physicalAdj : Adj) (memberIds : list string) : list string :=
  List.filter (λ id, (length (neighborsInBucket physicalAdj memberIds id) =? 1)%nat) memberIds.

(** [totalEdges === memberIds.length - 1], with the sum of degrees not yet halved. *)
Definition isSimpleChain (physicalAdj : Adj) (memberIds : list string) : bool :=
  let degrees := (λ id, length (neighborsInBucket physicalAdj memberIds id)) <$> memberIds in
  (3 <=? length memberIds)%nat &&
  (sum_list degrees =? 2 * (length memberIds - 1))%nat &&
  (length (chain_endpoints physicalAdj memberIds) =? 2)%nat &&
  negb (existsb (λ d, (2 <? d)%nat) degrees).

(** [(headById.get(id)?.hostname ?? id).toLowerCase()] *)
Definition chain_name (assets : list DepAsset) (id : string) : string :=
  Js.toLowerCase (default id (mget id (byId assets) ≫= da_hostname)).

Definition chain_head (assets : list DepAsset) (endpoints : list string) : option string :=
  head (sort_by (λ a b, String.leb (chain_name assets a) (chain_name assets b)) endpoints).

Definition bfs_fuel (assets : list DepAsset) (edges : list DependencyEdge) : nat :=
  length assets + 2 * length edges.

Section assign.
Context (assets : list DepAsset) (edges : list DependencyEdge).
Let physicalAdj := adjacency true edges.
Let controllerAdj := adjacency false edges.
Let fuel := bfs_fuel assets edges.

(** One bucket; the flag is [progress]. *)
Definition process_bucket (st : option (Layers * bool)) (bucket : string * list string) :
    option (Layers * bool) :=
  match st with
  | None => None
  | Some (layers, progress) =>
      let '(parentId, memberIds) := bucket in
      match mget parentId layers with
      | None => None
      | Some parentLayer =>
          if isSimpleChain physicalAdj memberIds then
            match chain_head assets (chain_endpoints physicalAdj memberIds) with
            | None => None
            | Some hd =>
                (λ l, (l, true)) <$> physicalBfs fuel physicalAdj [hd] (mset hd (parentLayer + 1) layers)
            end
          else
            let layers' := fold_left (λ m id, mset id (parentLayer + 1) m) memberIds layers in
            (λ l, (l, progress || negb (bool_decide (memberIds = [])))) <$>
              physicalBfs fuel physicalAdj memberIds layers'
      end
  end.

Definition buckets_of (layers : Layers) : list (string * list string) :=
  sort_by bucket_leb (fold_left (bucket_asset controllerAdj layers) assets []).

(** [while (progress)] *)
Fixpoint attach_loop (rounds : nat) (layers : Layers) : option Layers :=
  match rounds with
  | O => None
  | S rounds' =>
      match fold_left process_bucket (buckets_of layers) (Some (layers, false)) with
      | None => None
      | Some (layers', true) => attach_loop rounds' layers'
      | Some (layers', false) => Some layers'
      end
  end.

(** Pass 1: breadth first from the firewalls, over the cabled links. *)
Definition physical_pass : option Layers :=
  let roots := firewall_layers assets in
  physicalBfs fuel physicalAdj (sort_by String.leb (mkeys roots)) roots.

(** The layers after both passes. *)
Definition compute_layers : option Layers :=
  match physical_pass with
  | None => None
  | Some layers => attach_loop (S (length assets)) layers
  end.
End assign.

(** The edge points from one layer to the next. *)
Definition is_parent_edge (layers : Layers) (e : DependencyEdge) : bool :=
  match mget (childAssetId e) layers, mget (parentAssetId e) layers with
  | Some childLayer, Some parentLayer => parentLayer + 1 =? childLayer
  | _, _ => false
  end.

Definition prune_edge (layers : Layers) (best : JsMap string DependencyEdge) (e : DependencyEdge) :
    JsMap string DependencyEdge :=
  if negb (is_parent_edge layers e) then best else
  let key := pair_key (childAssetId e) (parentAssetId e) in
  match mget key best with
  | None => mset key e best
  | Some existing =>
      if physicalRank (detectedVia existing) <? physicalRank (detectedVia e) then mset key e best else best
  end.

Definition assignLayers (assets : list DepAsset) (edges : list DependencyEdge) : option LayerAssignment :=
  (λ layers, mkLayerAssignment layers
     (mvalues (fold_left (prune_edge layers) edges []))
     (da_id <$> List.filter (λ a, negb (mhas (da_id a) layers)) assets)) <$>
  compute_layers assets edges.

(** ** [evaluateSuppression] *)

Record SuppressionAssetState := mkSuppressionAssetState {
  ss_id : string;
  ss_layer : option Z;
  ss_monitored : bool;
  ss_monitorStatus : option string;
  ss_currentlySuppressed : bool;
  ss_dependencyTestUntil : option Z;
}.

Definition MAX_SAFE_INTEGER : Z := 2 ^ 53 - 1.
Definition layer_of (s : SuppressionAssetState) : Z := default MAX_SAFE_INTEGER (ss_layer s).

Definition stateById (states : list SuppressionAssetState) : JsMap string SuppressionAssetState :=
  fold_left (λ m s, mset (ss_id s) s m) states [].

(** [ps.dependencyTestUntil && ps.dependencyTestUntil.getTime() > evalNow] *)
Definition test_active (evalNow : Z) (s : SuppressionAssetState) : bool :=
  match ss_dependencyTestUntil s with Some t => evalNow <? t | None => false end.

Section evaluate.
Context (evalNow : Z) (states : JsMap string SuppressionAssetState) (parentsByChild : JsMap string (list string)).

Definition parents_of (id : string) : list string := default [] (mget id parentsByChild).

(** [ids.some(isParentOk)] with the closure's [visited] threaded through: it stops
    at the first [true]. *)
Fixpoint some_ok (f : list string → string → option (list string * bool)) (visited : list string)
    (ids : list string) : option (list string * bool) :=
  match ids with
  | [] => Some (visited, false)
  | g :: ids' =>
      match f visited g with
      | Some (visited', true) => Some (visited', true)
      | Some (visited', false) => some_ok f visited' ids'
      | None => None
      end
  end.

Fixpoint isParentOk (fuel : nat) (result : JsMap string bool) (visited : list string) (parentId : string) :
    option (list string * bool) :=
  match fuel with
  | O => None
  | S fuel' =>
      if bool_decide (parentId ∈ visited) then Some (visited, false) else
      let visited := parentId :: visited in
      match mget parentId states with
      | None => Some (visited, true)
      | Some ps =>
          if test_active evalNow ps then Some (visited, false) else
          if negb (ss_monitored ps) then
            match parents_of parentId with
            | [] => Some (visited, true)
            | grand => some_ok (isParentOk fuel' result) visited grand
            end
          else
            let okStatus := negb (bool_decide (ss_monitorStatus ps = Some "down"%string)) in
            let suppressed := default false (mget parentId result) in
            Some (visited, okStatus && negb suppressed)
      end
  end.

Definition ok_fuel : nat := 2 + length states.

Definition evaluate_one (result : option (JsMap string bool)) (s : SuppressionAssetState) :
    option (JsMap string bool) :=
  match result with
  | None => None
  | Some result =>
      match parents_of (ss_id s) with
      | [] => Some (mset (ss_id s) false result)
      | parents =>
          match some_ok (isParentOk ok_fuel result) [] parents with
          | Some (_, anyParentOk) => Some (mset (ss_id s) (negb anyParentOk) result)
          | None => None
          end
      end
  end.
End evaluate.

Definition sorted_states (states : list SuppressionAssetState) : list SuppressionAssetState :=
  sort_by (λ a b, layer_of a <=? layer_of b) states.

Definition evaluateSuppression (evalNow : Z) (states : list SuppressionAssetState)
    (parentsByChild : JsMap string (list string)) : option (JsMap string bool) :=
  let sorted := sorted_states states in
  let result := fold_left (λ m s, mset (ss_id s) false m) sorted [] in
  fold_left (evaluate_one evalNow (stateById states) parentsByChild) sorted (Some result).
