(* ===== verification/DependencyProofs.v ===== *)
(** * Correctness of the dependency tree

    Breadth-first search ([physicalBfs]), the controller fallback
    ([attach_loop]), the pruning of [assignLayers] and the suppression rule of
    [Dependency], against graph-theoretic specifications: shortest paths,
    connectedness, acyclicity and the "all parents down" equation. *)

From S2P Require Import Prelude JsColl Http Topology Dependency.

(** ** Adjacency *)

(** An edge of one kind, read without its direction. *)
Definition joined (physical : bool) (edges : list DependencyEdge) (a b : string) : Prop :=
  ∃ e, e ∈ edges ∧ isPhysical (detectedVia e) = physical ∧
    ((childAssetId e = a ∧ parentAssetId e = b) ∨ (parentAssetId e = a ∧ childAssetId e = b)).
Definition connected (edges : list DependencyEdge) (a b : string) : Prop :=
  ∃ e, e ∈ edges ∧
    ((childAssetId e = a ∧ parentAssetId e = b) ∨ (parentAssetId e = a ∧ childAssetId e = b)).

Lemma connected_joined edges a b : connected edges a b ↔ joined true edges a b ∨ joined false edges a b.
Proof.
  unfold connected, joined. split; [|naive_solver]. intros (e & He & Hab).
  destruct (isPhysical (detectedVia e)) eqn:Hp; [left|right]; eauto.
Qed.

Lemma neighbors_link a b adj x : ∀ y, y ∈ neighbors (link a b adj) x ↔ y ∈ neighbors adj x ∨ (x = a ∧ y = b).
Proof.
  intros y. unfold neighbors, link. rewrite mget_mset. case_decide as Hx; simpl.
  - subst. rewrite elem_sadd. naive_solver.
  - naive_solver.
Qed.

Lemma neighbors_adjacency physical edges a b :
  b ∈ neighbors (adjacency physical edges) a ↔ joined physical edges a b.
Proof.
  unfold adjacency, joined.
  assert (∀ adj, b ∈ neighbors (fold_left (λ adj e,
    if Bool.eqb (isPhysical (detectedVia e)) physical then link_both e adj else adj) edges adj) a ↔
    b ∈ neighbors adj a ∨ ∃ e, e ∈ edges ∧ isPhysical (detectedVia e) = physical ∧
    ((childAssetId e = a ∧ parentAssetId e = b) ∨ (parentAssetId e = a ∧ childAssetId e = b))) as Hgen.
  { induction edges as [|e edges IH]; intros adj; simpl.
    - split; [by left|]. intros [?|(e & He & _)]; [done|by apply elem_of_nil in He].
    - rewrite IH. setoid_rewrite elem_of_cons.
      destruct (Bool.eqb_spec (isPhysical (detectedVia e)) physical) as [Hp|Hp].
      + unfold link_both. rewrite !neighbors_link. naive_solver.
      + naive_solver. }
  rewrite Hgen. unfold neighbors at 1. simpl. split; [|by right].
  intros [Hin|?]; [by apply elem_of_nil in Hin|done].
Qed.

Definition edge_ends (edges : list DependencyEdge) : list string :=
  (childAssetId <$> edges) ++ (parentAssetId <$> edges).

Lemma joined_ends physical edges a b : joined physical edges a b → a ∈ edge_ends edges ∧ b ∈ edge_ends edges.
Proof.
  intros (e & He & _ & Hab). unfold edge_ends. rewrite !elem_of_app, !list_elem_of_fmap.
  destruct Hab as [[<- <-]|[<- <-]]; split; eauto.
Qed.

(** ** Breadth-first search *)

(** The nodes of [U] that have no layer yet. *)
Definition unlayered (U : list string) (L : Layers) : nat :=
  length (List.filter (λ x, negb (mhas x L)) U).

Lemma unlayered_mono U L L' :
  (∀ x, is_Some (mget x L) → is_Some (mget x L')) → (unlayered U L' ≤ unlayered U L)%nat.
Proof.
  intros Hmono. unfold unlayered. induction U as [|x U IH]; simpl; [lia|].
  destruct (mhas x L') eqn:H', (mhas x L) eqn:H; simpl; try lia.
  apply mhas_true, Hmono in H. apply mhas_false in H'. rewrite H' in H. by destruct H.
Qed.
Lemma unlayered_lt U L L' x :
  (∀ x, is_Some (mget x L) → is_Some (mget x L')) → x ∈ U → mget x L = None → is_Some (mget x L') →
  (unlayered U L' < unlayered U L)%nat.
Proof.
  intros Hmono Hx HL HL'. unfold unlayered. induction U as [|y U IH]; [by apply elem_of_nil in Hx|].
  pose proof (unlayered_mono U L L' Hmono) as Hle. unfold unlayered in Hle. simpl.
  apply elem_of_cons in Hx as [<-|Hx].
  - rewrite (proj2 (mhas_true _ _) HL'), (proj2 (mhas_false _ _) HL). simpl. lia.
  - specialize (IH Hx).
    destruct (mhas y L') eqn:H', (mhas y L) eqn:H; simpl; try lia.
    apply mhas_true, Hmono in H. apply mhas_false in H'. rewrite H' in H. by destruct H.
Qed.

(** What one node adds: its neighbours without a layer, in order, one layer down. *)
Lemma visit_all l ns Q L :
  ∃ new L', fold_left (visit l) ns (Q, L) = (Q ++ new, L') ∧
    (∀ x, mget x L' = if decide (x ∈ new) then Some (l + 1) else mget x L) ∧
    (∀ x, x ∈ new → x ∈ ns ∧ mget x L = None) ∧ (∀ n, n ∈ ns → is_Some (mget n L')) ∧
    (∀ U, ns ⊆ U → length new + unlayered U L' ≤ unlayered U L)%nat.
Proof.
  revert Q L. induction ns as [|n ns IH]; intros Q L.
  - exists [], L. split_and!; [by rewrite app_nil_r|done|set_solver|set_solver|simpl; lia].
  - cbn [fold_left]. destruct (mhas n L) eqn:Hn.
    + assert (visit l (Q, L) n = (Q, L)) as -> by (unfold visit; by rewrite Hn). apply mhas_true in Hn. destruct (IH Q L) as (new & L' & -> & Hget & Hnew & Hall & Hlen).
      exists new, L'. split_and!; [done|done|set_solver| |intros U HU; apply Hlen; set_solver].
      intros y [->|Hy]%elem_of_cons; [|by apply Hall]. rewrite Hget. by case_decide.
    + assert (visit l (Q, L) n = (Q ++ [n], mset n (l + 1) L)) as -> by (unfold visit; by rewrite Hn).
      apply mhas_false in Hn.
      destruct (IH (Q ++ [n]) (mset n (l + 1) L)) as (new & L' & -> & Hget & Hnew & Hall & Hlen).
      exists (n :: new), L'. split_and!.
      * by rewrite <-app_assoc.
      * intros x. rewrite Hget, mget_mset. repeat case_decide; set_solver.
      * intros x [->|Hx]%elem_of_cons; [split; [left|done]|]. apply Hnew in Hx as [? Hx].
        rewrite mget_mset in Hx. case_decide; [done|]. split; [by right|done].
      * intros y [->|Hy]%elem_of_cons; [|by apply Hall]. rewrite Hget, mget_mset_eq. by case_decide.
      * intros U HU. specialize (Hlen U ltac:(set_solver)).
        assert (unlayered U (mset n (l + 1)%Z L) < unlayered U L)%nat; [|simpl; lia].
        apply (unlayered_lt U L _ n); [|set_solver|done|by rewrite mget_mset_eq].
        intros x Hx. rewrite mget_mset. by case_decide.
Qed.

Definition extends (L L' : Layers) : Prop := ∀ x v, mget x L = Some v → mget x L' = Some v.
Definition closed_under (adj : Adj) (Q : list string) (L : Layers) : Prop :=
  ∀ x, is_Some (mget x L) → x ∉ Q → ∀ y, y ∈ neighbors adj x → is_Some (mget y L).

Section bfs.
Context (adj : Adj) (U : list string) (HU : ∀ x, neighbors adj x ⊆ U).

(** A pass terminates within its fuel, keeps the layers it started from, carries
    every property that goes from a node to its neighbours one layer down, and
    reaches every neighbour of every layered node. *)
Lemma physicalBfs_spec fuel Q L :
  (∀ q, q ∈ Q → is_Some (mget q L)) → (length Q + unlayered U L ≤ fuel)%nat →
  ∃ L', physicalBfs fuel adj Q L = Some L' ∧ extends L L' ∧
    (∀ P : string → Z → Prop, (∀ x v, mget x L = Some v → P x v) →
       (∀ x v y, P x v → y ∈ neighbors adj x → P y (v + 1)) → ∀ x v, mget x L' = Some v → P x v) ∧
    (closed_under adj Q L → closed_under adj [] L').
Proof.
  revert Q L. induction fuel as [|fuel IH]; intros Q L HQ Hfuel; destruct Q as [|cur Q]; simpl.
  1,3: exists L; split_and!; [done|by intros ? ?|by intros P ? ?|done].
  - simpl in Hfuel. lia.
  - destruct (HQ cur ltac:(left)) as [l Hl]. rewrite Hl.
    destruct (visit_all l (neighbors adj cur) Q L) as (new & L1 & -> & Hget & Hnew & Hall & Hlen).
    assert (extends L L1) as Hext.
    { intros x v Hx. rewrite Hget. case_decide as Hin; [|done]. apply Hnew in Hin as [_ ?]. congruence. }
    destruct (IH (Q ++ new) L1) as (L' & HL' & Hext' & HP & Hcl).
    { intros q [Hq|Hq]%elem_of_app.
      - destruct (HQ q ltac:(by right)) as [v Hv]. eauto.
      - rewrite Hget. by case_decide. }
    { specialize (Hlen U (HU cur)). rewrite length_app. simpl in Hfuel. lia. }
    exists L'. split_and!; [done|by intros x v ?%Hext%Hext'| |].
    + intros P HP0 Hstep. apply HP; [|done]. intros x v. rewrite Hget. case_decide as Hin; [|apply HP0].
      intros [= <-]. apply Hnew in Hin as [Hin _]. eapply Hstep; [|done]. by apply HP0.
    + intros Hc. apply Hcl. intros x [v Hx] Hnx y Hy. rewrite Hget in Hx.
      case_decide as Hin; [set_solver|]. destruct (decide (x = cur)) as [->|Hne]; [by apply Hall|].
      destruct (Hc x) with y as [w Hw]; [by eexists|set_solver|done|]. eauto.
Qed.

End bfs.

Section bfs_distance.
Context (adj : Adj).

(** The queue is in layer order and never spans more than two layers. *)
Record bfs_order (Q : list string) (L : Layers) : Prop := {
  bo_queued : ∀ q, q ∈ Q → is_Some (mget q L);
  bo_sorted : StronglySorted (λ p q, ∀ v w, mget p L = Some v → mget q L = Some w → v ≤ w) Q;
  bo_span : ∀ x v q w, mget x L = Some v → q ∈ Q → mget q L = Some w → v ≤ w + 1;
  bo_done : ∀ x v, mget x L = Some v → x ∉ Q → ∀ y, y ∈ neighbors adj x → ∃ w, mget y L = Some w ∧ w ≤ v + 1;
}.

Lemma bfs_order_step cur Q L l new L1 :
  bfs_order (cur :: Q) L → mget cur L = Some l →
  (∀ x, mget x L1 = if decide (x ∈ new) then Some (l + 1) else mget x L) →
  (∀ x, x ∈ new → x ∈ neighbors adj cur ∧ mget x L = None) →
  (∀ n, n ∈ neighbors adj cur → is_Some (mget n L1)) →
  bfs_order (Q ++ new) L1.
Proof.
  intros [HQ Hs Hspan Hdone] Hl Hget Hnew Hall.
  apply StronglySorted_cons in Hs as [Hhead Hs]. rewrite Forall_forall in Hhead.
  assert (∀ q, q ∈ Q → q ∉ new) as Hold.
  { intros q Hq Hin. apply Hnew in Hin as [_ Hin]. destruct (HQ q ltac:(by right)). congruence. }
  assert (∀ q w, q ∈ Q ++ new → mget q L1 = Some w → l ≤ w) as Hge.
  { intros q w Hq Hw. rewrite Hget in Hw. case_decide as Hin; [simplify_eq; lia|].
    eapply Hhead; [|done..]. set_solver. }
  assert (∀ x v, mget x L1 = Some v → v ≤ l + 1) as Hle.
  { intros x v Hx. rewrite Hget in Hx. case_decide; [simplify_eq; lia|].
    eapply (Hspan x v cur l); [done|left|done]. }
  split.
  - intros q [Hq|Hq]%elem_of_app; rewrite Hget; case_decide; try done. apply HQ. by right.
  - apply StronglySorted_app_2.
    + intros p q Hp Hq v w Hv Hw. apply Hle in Hv. rewrite Hget in Hw. case_decide; [simplify_eq; lia|done].
    + eapply (StronglySorted_sub_rel) ; [|exact Hs]. intros p q Hp Hq Hpq v w.
      rewrite !Hget, !decide_False by auto. apply Hpq.
    + clear -Hget. assert (∀ l', l' ⊆ new → StronglySorted (λ p q, ∀ v w, mget p L1 = Some v →
        mget q L1 = Some w → v ≤ w) l') as Hn; [|by apply Hn].
      induction l' as [|x l' IH]; intros Hsub; constructor; [apply IH; set_solver|].
      apply Forall_forall. intros y Hy v w. rewrite !Hget, !decide_True by set_solver. intros; simplify_eq; lia.
  - intros x v q w Hx Hq Hw. apply Hle in Hx. apply Hge in Hw; [lia|done].
  - intros x v Hx Hnx y Hy. rewrite Hget in Hx. case_decide as Hin; [set_solver|].
    destruct (decide (x = cur)) as [->|Hne].
    + destruct (Hall y Hy) as [w Hw]. exists w. split; [done|]. apply Hle in Hw. simplify_eq. lia.
    + destruct (Hdone x v Hx) with y as (w & Hw & ?); [set_solver|done|]. exists w. split; [|done].
      rewrite Hget, decide_False; [done|]. intros Hyn. apply Hnew in Hyn as [_ ?]. congruence.
Qed.

Lemma physicalBfs_order fuel Q L L' :
  physicalBfs fuel adj Q L = Some L' → bfs_order Q L →
  ∀ x v, mget x L' = Some v → ∀ y, y ∈ neighbors adj x → ∃ w, mget y L' = Some w ∧ w ≤ v + 1.
Proof.
  revert Q L. induction fuel as [|fuel IH]; intros Q L; destruct Q as [|cur Q]; simpl; try done.
  1,2: intros [= <-] Ho x v Hx y Hy; eapply Ho; [done|apply not_elem_of_nil|done].
  destruct (mget cur L) as [l|] eqn:Hl; [|done].
  destruct (visit_all l (neighbors adj cur) Q L) as (new & L1 & -> & Hget & Hnew & Hall & _).
  intros Hrun Ho. eapply IH; [done|]. by eapply bfs_order_step.
Qed.
End bfs_distance.

(** ** The first pass: distance from the roots *)

Definition is_root (assets : list DepAsset) (r : string) : Prop :=
  ∃ a, a ∈ assets ∧ da_assetType a = "firewall"%string ∧ da_id a = r.

(** The least number of physical links between [x] and a root. *)
Definition phys_dist (assets : list DepAsset) (edges : list DependencyEdge) (x : string) (k : nat) : Prop :=
  (∃ r, is_root assets r ∧ nsteps (joined true edges) k r x) ∧
  (∀ r j, is_root assets r → nsteps (joined true edges) j r x → (k ≤ j)%nat).

Lemma firewall_layers_fold assets m x v :
  mget x (fold_left (λ m a, if String.eqb (da_assetType a) "firewall" then mset (da_id a) 1 m else m) assets m)
    = Some v ↔ (is_root assets x ∧ v = 1) ∨ (¬ is_root assets x ∧ mget x m = Some v).
Proof.
  assert (∀ a l, is_root (a :: l) x ↔
    (da_assetType a = "firewall"%string ∧ da_id a = x) ∨ is_root l x) as Hcons.
  { intros a l. unfold is_root. setoid_rewrite elem_of_cons. naive_solver. }
  revert m. induction assets as [|a assets IH]; intros m; cbn [fold_left].
  - assert (¬ is_root [] x) by (intros (? & Hin & _); by apply elem_of_nil in Hin). naive_solver.
  - rewrite IH, Hcons. destruct (String.eqb_spec (da_assetType a) "firewall") as [Ht|Ht]; [|naive_solver].
    rewrite mget_mset. destruct (decide (x = da_id a)) as [->|Hne]; [|naive_solver].
    destruct (decide (v = 1)); [|naive_solver]. subst v.
    assert (is_root assets (da_id a) ∨ ¬ is_root assets (da_id a)) as [?|?]; [|naive_solver..].
    unfold is_root. destruct (List.find (λ b, bool_decide (da_assetType b = "firewall"%string) &&
      bool_decide (da_id b = da_id a)) assets) as [b|] eqn:Hf.
    + apply find_some in Hf as [Hb%list_elem_of_In Hp]. rewrite andb_true_iff, !bool_decide_eq_true in Hp.
      left. exists b. naive_solver.
    + right. intros (b & Hb%list_elem_of_In & Hty & Hid). eapply find_none in Hf; [|exact Hb].
      by rewrite Hty, Hid, !bool_decide_eq_true_2 in Hf.
Qed.

Lemma firewall_layers_spec assets x v :
  mget x (firewall_layers assets) = Some v ↔ is_root assets x ∧ v = 1.
Proof. unfold firewall_layers. rewrite firewall_layers_fold. simpl. naive_solver. Qed.

Lemma length_mset {V} (k : string) (v : V) m : (length (mset k v m) ≤ S (length m))%nat.
Proof. induction m as [|[k' v'] m IH]; simpl; [lia|]. case_decide; simpl; lia. Qed.

Lemma length_firewall_layers assets : (length (firewall_layers assets) ≤ length assets)%nat.
Proof.
  unfold firewall_layers. change (length assets) with (length (@nil (string * Z)) + length assets)%nat.
  generalize (@nil (string * Z)). induction assets as [|a assets IH]; intros m; cbn [fold_left length]; [lia|].
  etrans; [apply IH|]. case_match; [pose proof (length_mset (da_id a) 1 m); lia|lia].
Qed.

Section assign_layers.
Context (assets : list DepAsset) (edges : list DependencyEdge).
Notation U := (edge_ends edges).
Notation padj := (adjacency true edges).
Notation cadj := (adjacency false edges).
Notation bfs := (physicalBfs (bfs_fuel assets edges) padj).

Lemma neighbors_ends physical x : neighbors (adjacency physical edges) x ⊆ U.
Proof. intros y Hy. apply neighbors_adjacency in Hy. by eapply joined_ends. Qed.

Lemma bfs_fuel_enough (Q : list string) L :
  (length Q ≤ length assets)%nat → (length Q + unlayered U L ≤ bfs_fuel assets edges)%nat.
Proof.
  intros HQ. unfold bfs_fuel. assert (unlayered U L ≤ length U)%nat.
  { unfold unlayered. induction U as [|x l IH]; simpl; [lia|]. case_match; simpl; lia. }
  unfold edge_ends in *. rewrite length_app, !length_fmap in *. lia.
Qed.

(** What both passes maintain: layers start at 1, a layered node is connected to a
    root, and every physical neighbour of a layered node is layered. *)
Definition placed (x : string) (v : Z) : Prop :=
  1 ≤ v ∧ ∃ r, is_root assets r ∧ rtc (connected edges) r x.
Definition layers_ok (L : Layers) : Prop :=
  (∀ x v, mget x L = Some v → placed x v) ∧ closed_under padj [] L.

Lemma placed_step x v y : placed x v → connected edges x y → placed y (v + 1).
Proof. intros (? & r & ? & ?) ?. split; [lia|]. exists r. split; [done|]. by eapply rtc_r. Qed.

Lemma placed_neighbor x v y : placed x v → y ∈ neighbors padj x → placed y (v + 1).
Proof. intros Hp Hy%neighbors_adjacency. eapply placed_step; [done|]. apply connected_joined. by left. Qed.

Lemma bfs_layers_ok Q L :
  (∀ q, q ∈ Q → is_Some (mget q L)) → (length Q ≤ length assets)%nat →
  (∀ x v, mget x L = Some v → placed x v) → closed_under padj Q L →
  ∃ L', bfs Q L = Some L' ∧ extends L L' ∧ layers_ok L' ∧
    ∀ P : string → Z → Prop, (∀ x v, mget x L = Some v → P x v) →
      (∀ x v y, P x v → y ∈ neighbors padj x → P y (v + 1)) → ∀ x v, mget x L' = Some v → P x v.
Proof.
  intros HQ Hlen Hp Hc.
  destruct (physicalBfs_spec padj U (neighbors_ends true) (bfs_fuel assets edges) Q L)
    as (L' & ? & ? & HP & Hcl); [done|by apply bfs_fuel_enough|].
  exists L'. split_and!; [done|done| |done]. split; [|by apply Hcl]. apply HP; [done|]. apply placed_neighbor.
Qed.

Definition roots_queue : list string := sort_by String.leb (mkeys (firewall_layers assets)).

Lemma elem_roots_queue q : q ∈ roots_queue ↔ is_root assets q.
Proof.
  unfold roots_queue. rewrite sort_by_perm, elem_mkeys. split.
  - intros [v [? _]%firewall_layers_spec]. done.
  - intros Hr. exists 1. by apply firewall_layers_spec.
Qed.

Lemma roots_queued q : q ∈ roots_queue → is_Some (mget q (firewall_layers assets)).
Proof. intros Hq%elem_roots_queue. exists 1. by apply firewall_layers_spec. Qed.
Lemma length_roots_queue : (length roots_queue ≤ length assets)%nat.
Proof.
  unfold roots_queue. rewrite (Permutation_length (sort_by_perm _ _)). unfold mkeys.
  rewrite length_fmap. apply length_firewall_layers.
Qed.
Lemma roots_order : bfs_order padj roots_queue (firewall_layers assets).
Proof.
  split.
  - apply roots_queued.
  - apply StronglySorted_sub_rel with (λ _ _, True).
    + intros p q _ _ _ v v' [_ ->]%firewall_layers_spec [_ ->]%firewall_layers_spec. lia.
    + induction roots_queue; constructor; [done|]. by apply Forall_true.
  - intros p v q v' [_ ->]%firewall_layers_spec _ [_ ->]%firewall_layers_spec. lia.
  - intros p v [Hp _]%firewall_layers_spec Hn. by apply elem_roots_queue in Hp.
Qed.

Lemma pass1_lower L :
  bfs roots_queue (firewall_layers assets) = Some L → ∀ x v, mget x L = Some v →
  1 ≤ v ∧ ∃ r, is_root assets r ∧ nsteps (joined true edges) (Z.to_nat (v - 1)) r x.
Proof.
  intros HL. destruct (physicalBfs_spec padj U (neighbors_ends true) (bfs_fuel assets edges) roots_queue
    (firewall_layers assets)) as (L' & HL' & _ & HP & _);
    [apply roots_queued|apply bfs_fuel_enough, length_roots_queue|].
  rewrite HL in HL'. simplify_eq. apply HP.
  - intros x v [Hr ->]%firewall_layers_spec. split; [lia|]. exists x. split; [done|constructor].
  - intros x v y (? & r & ? & ?) Hy%neighbors_adjacency. split; [lia|]. exists r. split; [done|].
    replace (Z.to_nat (v + 1 - 1)) with (S (Z.to_nat (v - 1))) by lia. by eapply nsteps_r.
Qed.

Lemma pass1_upper L :
  bfs roots_queue (firewall_layers assets) = Some L → extends (firewall_layers assets) L →
  ∀ k r x, is_root assets r → nsteps (joined true edges) k r x →
  ∃ w, mget x L = Some w ∧ w ≤ Z.of_nat k + 1.
Proof.
  intros HL Hext k r x Hr. revert x. induction k as [|k IH]; intros x Hk.
  - inversion Hk; subst. exists 1. split; [|lia]. apply Hext. by apply firewall_layers_spec.
  - apply nsteps_inv_r in Hk as (y & Hy & Hyx). destruct (IH y Hy) as (w & Hw & Hle).
    destruct (physicalBfs_order padj _ _ _ L HL roots_order y w Hw x) as (w' & ? & ?);
      [by apply neighbors_adjacency|exists w'; split; [done|lia]].
Qed.

(** Reached from a root over cabled links. *)
Definition linked (x : string) : Prop := ∃ r, is_root assets r ∧ rtc (joined true edges) r x.

Lemma pass1_spec :
  ∃ L, physical_pass assets edges = Some L ∧ extends (firewall_layers assets) L ∧ layers_ok L ∧
    (∀ x v, mget x L = Some v ↔ ∃ k, phys_dist assets edges x k ∧ v = Z.of_nat k + 1) ∧
    (∀ x, linked x → is_Some (mget x L)) ∧ ∀ x v, mget x L = Some v → linked x.
Proof.
  destruct (bfs_layers_ok roots_queue (firewall_layers assets)) as (L & HL & Hext & Hok & _).
  - apply roots_queued.
  - apply length_roots_queue.
  - intros x v [Hr ->]%firewall_layers_spec. split; [lia|]. by exists x.
  - intros x [v [Hr _]%firewall_layers_spec] Hx. by apply elem_roots_queue in Hr.
  - exists L. split_and!; [done|done|done|..].
    + intros x v. split.
      * intros Hv. destruct (pass1_lower L HL x v Hv) as (? & r & Hr & Hk). exists (Z.to_nat (v - 1)).
        split; [|lia]. split; [by exists r|]. intros r' j Hr' Hj.
        destruct (pass1_upper L HL Hext j r' x Hr' Hj) as (w & Hw & ?). simplify_eq. lia.
      * intros (k & [(r & Hr & Hk) Hmin] & ->). destruct (pass1_upper L HL Hext k r x Hr Hk) as (w & Hw & Hle).
        destruct (pass1_lower L HL x w Hw) as (? & r' & Hr' & Hk'). rewrite Hw. f_equal.
        apply Hmin in Hk'; [lia|done].
    + intros x (r & Hr & [k Hk]%rtc_nsteps_1). destruct (pass1_upper L HL Hext k r x Hr Hk) as (w & Hw & _). by exists w.
    + intros x v Hv. destruct (pass1_lower L HL x v Hv) as (_ & r & Hr & Hk). exists r. split; [done|].
      by eapply rtc_nsteps_2.
Qed.

(** ** The second pass: controller fallback *)

Lemma best_parent_fold (L : Layers) (ns : list string) best :
  match fold_left (λ best n,
    match mget n L with
    | Some nLayer =>
        match best with
        | Some (_, bestLayer) => if nLayer <? bestLayer then Some (n, nLayer) else best
        | None => Some (n, nLayer)
        end
    | None => best
    end) ns best with
  | Some (p, l) => best = Some (p, l) ∨ (p ∈ ns ∧ mget p L = Some l)
  | None => best = None ∧ ∀ n, n ∈ ns → mget n L = None
  end.
Proof.
  revert best. induction ns as [|n ns IH]; intros best; cbn [fold_left].
  - destruct best as [[p l]|]; [by left|]. split; [done|]. by intros ? ?%elem_of_nil.
  - match goal with |- context [fold_left _ ns ?b] => specialize (IH b) end.
    destruct (fold_left _ ns _) as [[p l]|].
    + destruct IH as [Hb|[? ?]]; [|right; split; [by right|done]].
      destruct (mget n L) as [nl|] eqn:Hn; [|by left].
      destruct best as [[bp bl]|]; [destruct (nl <? bl)|]; simplify_eq; first [by left|right; split; [left|done]].
    + destruct IH as [Hb Hall]. destruct (mget n L) as [nl|] eqn:Hn.
      * destruct best as [[bp bl]|]; [destruct (nl <? bl)|]; done.
      * split; [done|]. intros y [->|Hy]%elem_of_cons; [done|by apply Hall].
Qed.

Lemma best_parent_spec L ns :
  match best_parent L ns with
  | Some (p, l) => p ∈ ns ∧ mget p L = Some l
  | None => ∀ n, n ∈ ns → mget n L = None
  end.
Proof.
  pose proof (best_parent_fold L ns None) as Hb. unfold best_parent.
  destruct (fold_left _ ns None) as [[p l]|]; naive_solver.
Qed.

(** The asset goes into the bucket of [p]. *)
Definition attaches (L : Layers) (p : string) (a : DepAsset) : bool :=
  negb (mhas (da_id a) L) &&
  match best_parent L (neighbors cadj (da_id a)) with Some (p', _) => bool_decide (p' = p) | None => false end.

Lemma bucket_fold L l m p :
  mget p (fold_left (bucket_asset cadj L) l m) =
  match da_id <$> List.filter (attaches L p) l with
  | [] => mget p m
  | ms => Some (default [] (mget p m) ++ ms)
  end.
Proof.
  revert m. induction l as [|a l IH]; intros m; [done|]. cbn [fold_left List.filter]. rewrite IH.
  unfold bucket_asset, attaches at 2. destruct (mhas (da_id a) L); [done|]. cbn [negb andb].
  destruct (best_parent L _) as [[p' l']|]; [|done]. unfold mpush.
  case_bool_decide as Hp; rewrite ?fmap_cons.
  - subst p'. rewrite mget_mset_eq. destruct (da_id <$> List.filter (attaches L p) l); [done|].
    simpl. by rewrite <-app_assoc.
  - by rewrite mget_mset_ne by congruence.
Qed.

Lemma bucket_NoDup L l m : NoDup (mkeys m) → NoDup (mkeys (fold_left (bucket_asset cadj L) l m)).
Proof.
  revert m. induction l as [|a l IH]; intros m Hm; [done|]. cbn [fold_left]. apply IH. unfold bucket_asset.
  destruct (mhas _ _); [done|]. destruct (best_parent _ _) as [[p' ?]|]; [|done]. by apply mset_NoDup.
Qed.

Lemma elem_buckets L p ms :
  (p, ms) ∈ buckets_of assets edges L ↔ ms = da_id <$> List.filter (attaches L p) assets ∧ ms ≠ [].
Proof.
  unfold buckets_of. rewrite sort_by_perm.
  assert ((p, ms) ∈ fold_left (bucket_asset cadj L) assets [] ↔
    mget p (fold_left (bucket_asset cadj L) assets []) = Some ms) as ->.
  { split; [|apply mget_elem]. apply elem_mget, bucket_NoDup. constructor. }
  rewrite bucket_fold. simpl. destruct (_ <$> _); naive_solver.
Qed.

(** What a bucket of a round that started from [L0] looks like. *)
Definition bucket_ok (L0 : Layers) (b : string * list string) : Prop :=
  is_Some (mget b.1 L0) ∧ b.2 ≠ [] ∧ (length b.2 ≤ length assets)%nat ∧
  ∀ m, m ∈ b.2 → m ∈ da_id <$> assets ∧ mget m L0 = None ∧ joined false edges b.1 m.

Lemma buckets_ok L : Forall (bucket_ok L) (buckets_of assets edges L).
Proof.
  apply Forall_forall. intros [p ms] [-> Hne]%elem_buckets.
  assert (∀ a, a ∈ List.filter (attaches L p) assets →
    a ∈ assets ∧ mget (da_id a) L = None ∧ is_Some (mget p L) ∧ joined false edges p (da_id a)) as Hmem.
  { intros a [Ha%list_elem_of_In Hat]%list_elem_of_In%filter_In. unfold attaches in Hat.
    rewrite andb_true_iff, negb_true_iff, mhas_false in Hat. destruct Hat as [Hn Hat].
    pose proof (best_parent_spec L (neighbors cadj (da_id a))) as Hb.
    destruct (best_parent _ _) as [[p' l']|]; [|done]. apply bool_decide_eq_true in Hat as ->.
    destruct Hb as [(e & He & Hph & Hab)%neighbors_adjacency Hl]. split_and!; [done|done|by eexists|].
    exists e. split_and!; [done|done|naive_solver]. }
  split_and!; simpl.
  - destruct (List.filter (attaches L p) assets) as [|a l]; [done|]. apply (Hmem a). left.
  - done.
  - rewrite length_fmap. clear. induction assets as [|a l IH]; simpl; [lia|]. case_match; simpl; lia.
  - intros m (a & -> & Ha)%list_elem_of_fmap. destruct (Hmem a Ha) as (? & ? & _ & ?).
    split_and!; [by apply list_elem_of_fmap_2|done|done].
Qed.

(** The layer that the fallback gives: [x] is [k] cabled links from an asset
    [m] with a controller link to [p], and counts on from the layer of [p]. *)
Definition attached (L : Layers) (x : string) (v : Z) : Prop :=
  ∃ p m pl k, joined false edges p m ∧ mget p L = Some pl ∧ nsteps (joined true edges) k m x ∧
    v = pl + 1 + Z.of_nat k.
Definition explained (L : Layers) (x : string) (v : Z) : Prop := linked x ∨ attached L x v.

Lemma explained_mono L L' x v : extends L L' → explained L x v → explained L' x v.
Proof.
  intros Hext [?|(p & m & pl & k & ? & ?%Hext & ? & ?)]; [by left|right]. by exists p, m, pl, k.
Qed.
Lemma explained_step L x v y : explained L x v → y ∈ neighbors padj x → explained L y (v + 1).
Proof.
  intros [(r & Hr & Hx)|(p & m & pl & k & ? & ? & ? & ->)] Hy%neighbors_adjacency.
  - left. exists r. split; [done|]. by eapply rtc_r.
  - right. exists p, m, pl, (S k). split_and!; [done|done|by eapply nsteps_r|lia].
Qed.

Definition round_inv (L0 L : Layers) : Prop :=
  extends L0 L ∧ layers_ok L ∧ ∀ x v, mget x L = Some v → explained L0 x v.
Definition dom_le (L L' : Layers) : Prop := ∀ x, is_Some (mget x L) → is_Some (mget x L').

Lemma mset_all (l : list string) (v : Z) L x :
  mget x (fold_left (λ m id, mset id v m) l L) = if decide (x ∈ l) then Some v else mget x L.
Proof.
  revert L. induction l as [|y l IH]; intros L; [done|]. cbn [fold_left]. rewrite IH, mget_mset.
  repeat case_decide; set_solver.
Qed.

(** Give the nodes [Q] of a bucket the layer after their controller and search on
    from them. *)
Lemma attach_nodes L0 L p pl Q L1 :
  round_inv L0 L → mget p L0 = Some pl → (length Q ≤ length assets)%nat →
  (∀ m, m ∈ Q → mget m L0 = None ∧ joined false edges p m) →
  (∀ x, mget x L1 = if decide (x ∈ Q) then Some (pl + 1) else mget x L) →
  ∃ L', bfs Q L1 = Some L' ∧ round_inv L0 L' ∧ dom_le L L' ∧ (∀ m, m ∈ Q → is_Some (mget m L')).
Proof.
  intros (Hext & [Hpl Hcl] & Hwhy) Hp Hlen HQ Hget.
  destruct (bfs_layers_ok Q L1) as (L' & HL' & Hext' & Hok' & HP); [|done|..].
  - intros q Hq. rewrite Hget. by case_decide.
  - intros x v. rewrite Hget. case_decide as Hx; [|apply Hpl]. intros [= <-].
    apply (placed_step p); [by apply Hpl, Hext|]. apply connected_joined. right. by apply HQ.
  - intros x [v Hx] Hn y Hy. rewrite Hget, decide_False in Hx by done. rewrite Hget.
    case_decide; [done|]. eapply (Hcl x); [by eexists|apply not_elem_of_nil|done].
  - exists L'. split_and!; [done| | |].
    + split_and!; [|done|].
      * intros x v Hx. apply Hext'. rewrite Hget. case_decide as HxQ; [|by apply Hext].
        apply HQ in HxQ as [? _]. congruence.
      * apply HP; [|apply explained_step]. intros x v. rewrite Hget. case_decide as HxQ; [|apply Hwhy].
        intros [= <-]. right. exists p, x, pl, 0%nat. split_and!; [by apply HQ|done|constructor|lia].
    + intros x [v Hx]. destruct (decide (x ∈ Q)) as [HxQ|HxQ].
      * exists (pl + 1). apply Hext'. rewrite Hget. by case_decide.
      * exists v. apply Hext'. rewrite Hget. by case_decide.
    + intros m Hm. exists (pl + 1). apply Hext'. rewrite Hget. by case_decide.
Qed.

Lemma chain_head_elem l : l ≠ [] → ∃ h, chain_head assets l = Some h ∧ h ∈ l.
Proof.
  intros Hne. unfold chain_head. destruct (sort_by _ l) as [|h t] eqn:Hs.
  - apply (f_equal length) in Hs. rewrite (Permutation_length (sort_by_perm _ _)) in Hs. by destruct l.
  - exists h. split; [done|]. match type of Hs with sort_by ?f l = _ => rewrite <-(sort_by_perm f l), Hs end.
    left.
Qed.

Lemma process_bucket_spec L0 L prog b :
  round_inv L0 L → bucket_ok L0 b →
  ∃ L', process_bucket assets edges (Some (L, prog)) b = Some (L', true) ∧ round_inv L0 L' ∧ dom_le L L' ∧
    ∃ m, m ∈ da_id <$> assets ∧ mget m L0 = None ∧ is_Some (mget m L').
Proof.
  destruct b as [p ms]. unfold bucket_ok. cbn [fst snd]. intros Hinv ([pl Hp] & Hne & Hlen & Hms).
  unfold process_bucket. rewrite (proj1 Hinv p pl Hp).
  destruct (isSimpleChain padj ms) eqn:Hchain.
  - destruct (chain_head_elem (chain_endpoints padj ms)) as (h & -> & Hh).
    { unfold isSimpleChain in Hchain. rewrite !andb_true_iff, Nat.eqb_eq in Hchain.
      destruct Hchain as [[_ Hl] _]. intros Hnil. rewrite Hnil in Hl. done. }
    assert (h ∈ ms) as Hm. { by apply list_elem_of_In, filter_In in Hh as [?%list_elem_of_In _]. }
    destruct (attach_nodes L0 L p pl [h] (mset h (pl + 1) L)) as (L' & HL' & ? & ? & Hin); [done..| | | |].
    + simpl. destruct ms; [done|]. simpl in Hlen. lia.
    + intros m ->%list_elem_of_singleton. by apply Hms.
    + intros x. rewrite mget_mset. repeat case_decide; set_solver.
    + exists L'. rewrite HL'. split_and!; [done..|]. exists h. destruct (Hms h Hm) as (? & ? & _).
      split_and!; [done..|]. apply Hin. left.
  - destruct (attach_nodes L0 L p pl ms (fold_left (λ m id, mset id (pl + 1) m) ms L))
      as (L' & HL' & ? & ? & Hin); [done..| | |].
    + intros m Hm. by apply Hms.
    + intros x. apply mset_all.
    + exists L'. rewrite HL', bool_decide_eq_false_2 by done. cbn. rewrite orb_true_r.
      destruct ms as [|m ms]; [done|]. split_and!; [done..|]. exists m.
      destruct (Hms m) as (? & ? & _); [left|]. split_and!; [done..|]. apply Hin. left.
Qed.

Lemma process_buckets_spec L0 bs L prog :
  round_inv L0 L → Forall (bucket_ok L0) bs →
  ∃ L' prog', fold_left (process_bucket assets edges) bs (Some (L, prog)) = Some (L', prog') ∧
    round_inv L0 L' ∧ dom_le L L' ∧
    (bs = [] → L' = L ∧ prog' = prog) ∧
    (bs ≠ [] → prog' = true ∧ ∃ m, m ∈ da_id <$> assets ∧ mget m L0 = None ∧ is_Some (mget m L')).
Proof.
  revert L prog. induction bs as [|b bs IH]; intros L prog Hinv Hbs.
  - exists L, prog. split_and!; [done|done|by intros ? ?|done|done].
  - apply Forall_cons in Hbs as [Hb Hbs]. cbn [fold_left].
    destruct (process_bucket_spec L0 L prog b Hinv Hb) as (L1 & -> & Hinv1 & Hdom1 & m & ? & ? & Hm).
    destruct (IH L1 true Hinv1 Hbs) as (L' & prog' & -> & Hinv' & Hdom' & Hnil & Hcons).
    exists L', prog'. split_and!; [done|done|by intros x ?%Hdom1%Hdom'|done|]. intros _.
    split; [|exists m; split_and!; [done|done|by apply Hdom']].
    destruct bs as [|b' bs]; [by destruct (Hnil eq_refl)|by apply Hcons].
Qed.

Lemma attach_loop_spec rounds L :
  layers_ok L → (∀ x v, mget x L = Some v → explained L x v) → (unlayered (da_id <$> assets) L < rounds)%nat →
  ∃ L', attach_loop assets edges rounds L = Some L' ∧ extends L L' ∧ layers_ok L' ∧
    buckets_of assets edges L' = [] ∧ ∀ x v, mget x L' = Some v → explained L' x v.
Proof.
  revert L. induction rounds as [|rounds IH]; intros L Hok Hwhy Hlt; [lia|]. cbn [attach_loop].
  destruct (process_buckets_spec L (buckets_of assets edges L) L false) as
    (L1 & prog & -> & (Hext & Hok1 & Hwhy1) & Hdom & Hnil & Hcons); [by split_and!; [intros ? ?|..]|apply buckets_ok|].
  destruct (buckets_of assets edges L) as [|b bs] eqn:Hb.
  - destruct (Hnil eq_refl) as [-> ->]. by exists L.
  - destruct (Hcons ltac:(done)) as (-> & m & Hm & Hm0 & Hm1).
    destruct (IH L1 Hok1) as (L' & ? & ? & ? & ? & ?).
    { intros x v Hx. eapply explained_mono; [exact Hext|by apply Hwhy1]. }
    { pose proof (unlayered_lt (da_id <$> assets) L L1 m Hdom Hm Hm0 Hm1). lia. }
    exists L'. split_and!; [done|by intros x v ?%Hext; auto|done|done|done].
Qed.

(** Both passes together: a result is always returned; it keeps the layers of
    the first pass, is connected to the roots, says where every other layer comes
    from, and leaves nothing attachable out. *)
Lemma compute_layers_spec :
  ∃ L1 L, physical_pass assets edges = Some L1 ∧ compute_layers assets edges = Some L ∧
    (∀ x v, mget x L1 = Some v ↔ ∃ k, phys_dist assets edges x k ∧ v = Z.of_nat k + 1) ∧
    extends L1 L ∧ layers_ok L ∧ buckets_of assets edges L = [] ∧
    (∀ r, is_root assets r → mget r L = Some 1) ∧
    ∀ x v, mget x L = Some v → mget x L1 = None → attached L x v.
Proof.
  destruct pass1_spec as (L1 & HL1 & Hext1 & Hok1 & Hdist & Hin & Hlinked).
  destruct (attach_loop_spec (S (length assets)) L1 Hok1) as (L & HL & Hext & Hok & Hb & Hwhy).
  { intros x v Hx. left. by eapply Hlinked. }
  { unfold unlayered. rewrite <-(length_fmap da_id assets). apply Nat.lt_succ_r.
    induction (da_id <$> assets) as [|x l IH]; simpl; [lia|]. case_match; simpl; lia. }
  exists L1, L. split_and!; [done| |done|done|done|done|..].
  - unfold compute_layers. by rewrite HL1.
  - intros r Hr. apply Hext, Hext1. by apply firewall_layers_spec.
  - intros x v Hx Hn. destruct (Hwhy x v Hx) as [Hl|?]; [|done]. destruct (Hin x Hl). congruence.
Qed.

Lemma no_bucket_no_controller L a n :
  buckets_of assets edges L = [] → a ∈ assets → mget (da_id a) L = None →
  joined false edges (da_id a) n → mget n L = None.
Proof.
  intros Hb Ha Hn Hj%neighbors_adjacency. pose proof (best_parent_spec L (neighbors cadj (da_id a))) as Hbp.
  destruct (best_parent _ _) as [[p l]|] eqn:Hp; [|by apply Hbp]. exfalso.
  assert ((p, da_id <$> List.filter (attaches L p) assets) ∈ buckets_of assets edges L) as Hin.
  { apply elem_buckets. split; [done|]. intros Hnil%fmap_nil_inv.
    assert (a ∈ List.filter (attaches L p) assets) as Hin; [|rewrite Hnil in Hin; by apply elem_of_nil in Hin].
    apply list_elem_of_In, filter_In. split; [by apply list_elem_of_In|]. unfold attaches.
    by rewrite (proj2 (mhas_false _ _) Hn), Hp, bool_decide_eq_true_2. }
  rewrite Hb in Hin. by apply elem_of_nil in Hin.
Qed.
End assign_layers.

(** ** Pruning *)

Definition edge_pair (e : DependencyEdge) : string := pair_key (childAssetId e) (parentAssetId e).
Definition rank (e : DependencyEdge) : Z := physicalRank (detectedVia e).

Lemma prune_fold L edges best :
  NoDup (mkeys best) →
  let m := fold_left (prune_edge L) edges best in
  NoDup (mkeys m) ∧
  (∀ k e, mget k m = Some e → mget k best = Some e ∨ (e ∈ edges ∧ is_parent_edge L e = true ∧ k = edge_pair e)) ∧
  (∀ k e, mget k best = Some e → ∃ e', mget k m = Some e' ∧ rank e ≤ rank e') ∧
  (∀ e, e ∈ edges → is_parent_edge L e = true → ∃ e', mget (edge_pair e) m = Some e' ∧ rank e ≤ rank e').
Proof.
  revert best. induction edges as [|e edges IH]; intros best Hnd; cbn [fold_left].
  - split_and!; [done|by left|eauto using Z.le_refl|by intros ? ?%elem_of_nil].
  - assert (NoDup (mkeys (prune_edge L best e)) ∧
      (∀ k x, mget k (prune_edge L best e) = Some x → mget k best = Some x ∨
         (x = e ∧ is_parent_edge L e = true ∧ k = edge_pair e)) ∧
      (∀ k x, mget k best = Some x → ∃ x', mget k (prune_edge L best e) = Some x' ∧ rank x ≤ rank x') ∧
      (is_parent_edge L e = true → ∃ x', mget (edge_pair e) (prune_edge L best e) = Some x' ∧ rank e ≤ rank x'))
      as (Hnd1 & Hfrom & Hup & Hin).
    { unfold prune_edge. destruct (is_parent_edge L e); cbn [negb];
        [|by split_and!; [done|by left|eauto using Z.le_refl|]].
      fold (edge_pair e) (rank e). destruct (mget (edge_pair e) best) as [x|] eqn:Hx; [fold (rank x)|].
      - destruct (Z.ltb_spec (rank x) (rank e)) as [Hlt|Hge];
          [|split_and!; [done|by left|eauto using Z.le_refl|eauto]].
        split_and!; [by apply mset_NoDup| | |intros _; exists e; by rewrite mget_mset_eq].
        + intros k y. rewrite mget_mset. case_decide; naive_solver.
        + intros k y Hy. rewrite mget_mset. case_decide as Hk; [|eauto using Z.le_refl].
          subst. exists e. split; [done|]. simplify_eq. lia.
      - split_and!; [by apply mset_NoDup| | |intros _; exists e; by rewrite mget_mset_eq].
        + intros k y. rewrite mget_mset. case_decide; naive_solver.
        + intros k y Hy. rewrite mget_mset. case_decide; [congruence|eauto using Z.le_refl]. }
    destruct (IH _ Hnd1) as (Hnd2 & Hfrom2 & Hup2 & Hin2). split_and!; [done| | |].
    + intros k x [Hx|(Hx & ? & ?)]%Hfrom2; [|right; split_and!; [by right|done|done]].
      apply Hfrom in Hx as [?|(-> & ? & ?)]; [by left|right; split_and!; [left|done|done]].
    + intros k x Hx. destruct (Hup k x Hx) as (y & Hy & ?). destruct (Hup2 k y Hy) as (z & ? & ?).
      exists z. split; [done|lia].
    + intros x [->|Hx]%elem_of_cons Hp; [|by apply Hin2]. destruct (Hin Hp) as (y & Hy & ?).
      destruct (Hup2 _ y Hy) as (z & ? & ?). exists z. split; [done|lia].
Qed.

Lemma elem_mvalues {V} (m : JsMap string V) v : NoDup (mkeys m) → v ∈ mvalues m ↔ ∃ k, mget k m = Some v.
Proof.
  intros Hnd. unfold mvalues. rewrite list_elem_of_fmap. split.
  - intros ([k x] & -> & Hin). exists k. by apply elem_mget.
  - intros (k & Hk%mget_elem). by exists (k, v).
Qed.

Definition kept_parent (kept : list DependencyEdge) (c p : string) : Prop :=
  ∃ e, e ∈ kept ∧ childAssetId e = c ∧ parentAssetId e = p.

Lemma is_parent_edge_true L e :
  is_parent_edge L e = true ↔ ∃ l, mget (parentAssetId e) L = Some l ∧ mget (childAssetId e) L = Some (l + 1).
Proof.
  unfold is_parent_edge. destruct (mget (childAssetId e) L) as [c|], (mget (parentAssetId e) L) as [p|];
    rewrite ?Z.eqb_eq; naive_solver lia.
Qed.

(** A layering is a rank function: no chain of parents returns to its start. *)
Lemma layered_acyclic (R : string → string → Prop) (L : Layers) :
  (∀ c p, R c p → ∃ l, mget p L = Some l ∧ mget c L = Some (l + 1)) → ∀ x, ¬ tc R x x.
Proof.
  intros HR. assert (∀ x y, tc R x y → ∃ a b, mget x L = Some a ∧ mget y L = Some b ∧ b < a) as Htc.
  { intros x y Hxy. induction Hxy as [x y Hxy|x y z Hxy _ IH].
    - destruct (HR x y Hxy) as (l & ? & ?). exists (l + 1), l. split_and!; [done..|lia].
    - destruct (HR x y Hxy) as (l & ? & ?). destruct IH as (a & b & ? & ? & ?). simplify_eq.
      eexists _, b. split_and!; [done..|lia]. }
  intros x (a & b & ? & ? & ?)%Htc. simplify_eq. lia.
Qed.

Lemma assignLayers_total assets edges : ∃ la, assignLayers assets edges = Some la.
Proof.
  destruct (compute_layers_spec assets edges) as (_ & L & _ & HL & _). unfold assignLayers. rewrite HL. by eexists.
Qed.

Lemma keptEdges_consecutive assets edges la e :
  assignLayers assets edges = Some la → e ∈ la_keptEdges la →
  e ∈ edges ∧ ∃ l, mget (parentAssetId e) (la_layers la) = Some l ∧ mget (childAssetId e) (la_layers la) = Some (l + 1).
Proof.
  unfold assignLayers. destruct (compute_layers assets edges) as [L|]; [|done]. intros Hla. simplify_eq/=.
  destruct (prune_fold L edges []) as (Hnd & Hfrom & _); [constructor|].
  intros (k & Hk)%elem_mvalues; [|done]. apply Hfrom in Hk as [?|(? & ? & _)]; [done|].
  split; [done|]. by apply is_parent_edge_true.
Qed.

(** No two kept edges join one child with one parent. *)
Lemma keptEdges_pairs assets edges la :
  assignLayers assets edges = Some la → NoDup (edge_pair <$> la_keptEdges la).
Proof.
  unfold assignLayers. destruct (compute_layers assets edges) as [L|]; [|done]. intros Hla. simplify_eq/=.
  destruct (prune_fold L edges []) as (Hnd & Hfrom & _); [constructor|].
  set (m := fold_left (prune_edge L) edges []) in *.
  assert (edge_pair <$> mvalues m = mkeys m) as ->; [|done].
  unfold mvalues, mkeys. rewrite <-list_fmap_compose. apply list_fmap_ext. intros i [k e] Hi. cbn.
  assert (mget k m = Some e) as Hk by (apply elem_mget; [done|by eapply list_elem_of_lookup_2]).
  by apply Hfrom in Hk as [?|(_ & _ & ->)].
Qed.

(** ** The layering theorems *)

(** C18: layers are shortest cabled distances, and controllers only help where
    there is no cable.  Whatever the assets and edges, both passes return.  The
    first puts exactly the assets with a chain of cabled links to a FortiGate on
    a layer, one plus the least number of links; the result keeps these layers,
    however controller edges cut across; and any other layer it has counts on
    from that of an asset with a controller link, over cabled links below it. *)
Theorem assignLayers_physical_distance assets edges :
  ∃ L la, physical_pass assets edges = Some L ∧ assignLayers assets edges = Some la ∧
    (∀ x v, mget x L = Some v ↔ ∃ k, phys_dist assets edges x k ∧ v = Z.of_nat k + 1) ∧
    (∀ x v, mget x L = Some v → mget x (la_layers la) = Some v) ∧
    ∀ x v, mget x (la_layers la) = Some v → mget x L = None → attached edges (la_layers la) x v.
Proof.
  destruct (compute_layers_spec assets edges) as (L1 & L & HL1 & HL & Hdist & Hext & _ & _ & _ & Hwhy).
  unfold assignLayers. rewrite HL. by exists L1, (mkLayerAssignment L
    (mvalues (fold_left (prune_edge L) edges [])) (da_id <$> List.filter (λ a, negb (mhas (da_id a) L)) assets)).
Qed.

(** An asset is left unresolved exactly when no chain of links of any kind
    connects it to a FortiGate. *)
Theorem assignLayers_unresolved assets edges :
  Forall (λ x, x ∈ da_id <$> assets) (edge_ends edges) →
  ∃ la, assignLayers assets edges = Some la ∧
    ∀ a, a ∈ assets →
      (da_id a ∈ la_unresolved la ↔ ¬ ∃ r, is_root assets r ∧ rtc (connected edges) r (da_id a)).
Proof.
  intros Hends. rewrite Forall_forall in Hends.
  destruct (compute_layers_spec assets edges) as (_ & L & _ & HL & _ & _ & [Hpl Hcl] & Hb & Hroot & _).
  unfold assignLayers. rewrite HL. eexists. split; [reflexivity|]. intros a Ha. cbn [la_unresolved].
  assert (da_id a ∈ da_id <$> List.filter (λ x, negb (mhas (da_id x) L)) assets ↔ mget (da_id a) L = None) as ->.
  { rewrite list_elem_of_fmap. split.
    - intros (x & Heq & [_ Hx]%list_elem_of_In%filter_In). rewrite negb_true_iff, mhas_false in Hx. congruence.
    - intros Hn. exists a. split; [done|]. apply list_elem_of_In, filter_In. split; [by apply list_elem_of_In|].
      by rewrite negb_true_iff, mhas_false. }
  assert (∀ r x, is_root assets r → rtc (connected edges) r x → is_Some (mget x L)) as Hreach.
  { intros r x Hr Hx. revert x Hx. apply rtc_ind_r; [by eexists; apply Hroot|]. intros x y _ Hxy IH.
    apply connected_joined in Hxy as [Hxy|Hxy].
    - eapply Hcl; [exact IH|apply not_elem_of_nil|]. by apply neighbors_adjacency.
    - destruct (mget y L) as [v|] eqn:Hy; [done|]. destruct (joined_ends _ _ _ _ Hxy) as [_ Hye].
      apply Hends, list_elem_of_fmap in Hye as (b & -> & Hbin). destruct IH as [v Hv].
      assert (joined false edges (da_id b) x) as Hj by (destruct Hxy as (e & ? & ? & ?); exists e; naive_solver).
      by rewrite (no_bucket_no_controller assets edges L b x Hb Hbin Hy Hj) in Hv. }
  split.
  - intros Hn (r & Hr & Hx). destruct (Hreach r _ Hr Hx). congruence.
  - intros Hno. destruct (mget (da_id a) L) as [v|] eqn:Hv; [|done]. exfalso. apply Hno.
    by destruct (Hpl _ _ Hv) as [_ ?].
Qed.

(** The kept edges form a DAG.  Each comes from the candidates and joins two
    consecutive layers, so no chain of parents returns to its start; a child and
    a parent are joined by one kept edge at most; and every candidate between
    consecutive layers is represented, by a signal at least as physical. *)
Theorem keptEdges_dag assets edges la :
  Forall (no_char "|") (edge_ends edges) → assignLayers assets edges = Some la →
  (∀ e, e ∈ la_keptEdges la → e ∈ edges ∧ ∃ l, mget (parentAssetId e) (la_layers la) = Some l ∧
     mget (childAssetId e) (la_layers la) = Some (l + 1)) ∧
  (∀ x, ¬ tc (kept_parent (la_keptEdges la)) x x) ∧
  (∀ e e', e ∈ la_keptEdges la → e' ∈ la_keptEdges la → childAssetId e = childAssetId e' →
     parentAssetId e = parentAssetId e' → e = e') ∧
  (∀ e, e ∈ edges → is_parent_edge (la_layers la) e = true →
     ∃ e', e' ∈ la_keptEdges la ∧ childAssetId e' = childAssetId e ∧ parentAssetId e' = parentAssetId e ∧
       rank e ≤ rank e').
Proof.
  intros Hends Hla. pose proof (λ e, keptEdges_consecutive assets edges la e Hla) as Hl.
  unfold assignLayers in Hla. destruct (compute_layers assets edges) as [L|]; [|done].
  simplify_eq/=. destruct (prune_fold L edges []) as (Hnd & Hfrom & _ & Hin); [constructor|].
  set (m := fold_left (prune_edge L) edges []) in *.
  assert (∀ e, e ∈ mvalues m → mget (edge_pair e) m = Some e ∧ e ∈ edges) as Hkept.
  { intros e (k & Hk)%elem_mvalues; [|done]. pose proof Hk as Hk'.
    apply Hfrom in Hk' as [?|(? & ? & ->)]; [done|auto]. }
  split_and!.
  - exact Hl.
  - apply (layered_acyclic _ L). intros c p (e & He & <- & <-). by apply Hl.
  - intros e e' [He _]%Hkept [He' _]%Hkept Hc Hp. unfold edge_pair in *. rewrite Hc, Hp in He. congruence.
  - intros e He Hp. destruct (Hin e He Hp) as (e' & He' & Hr). exists e'.
    assert (e' ∈ mvalues m) as Hv by (apply elem_mvalues; eauto). split; [done|].
    destruct (Hkept e' Hv) as (_ & He'in). apply Hfrom in He' as [?|(_ & _ & Hk)]; [done|].
    rewrite Forall_forall in Hends. unfold edge_ends in Hends.
    apply pair_key_inj in Hk as [-> ->]; [done|..]; apply Hends, elem_of_app;
      rewrite !list_elem_of_fmap; eauto.
Qed.

(** ** Suppression *)

Section suppression.
Context (evalNow : Z) (states : JsMap string SuppressionAssetState) (parentsByChild : JsMap string (list string)).
Notation parents_of := (parents_of parentsByChild).
Notation isParentOk := (isParentOk evalNow states parentsByChild).

(** A parent at which the walk up stops with "ok": an unknown asset, an
    unmonitored one without parents, or a monitored one that is neither down nor
    suppressed; never one under an active Dependency Test. *)
Definition ok_end (result : JsMap string bool) (p : string) : Prop :=
  match mget p states with
  | None => True
  | Some ps =>
      test_active evalNow ps = false ∧
      if ss_monitored ps
      then ss_monitorStatus ps ≠ Some "down"%string ∧ default false (mget p result) = false
      else parents_of p = []
  end.

(** Unmonitored parents are transparent: the walk goes on to their parents. *)
Definition climbs (p q : string) : Prop :=
  (∃ ps, mget p states = Some ps ∧ test_active evalNow ps = false ∧ ss_monitored ps = false) ∧ q ∈ parents_of p.

Definition reaches_ok (result : JsMap string bool) (p : string) : Prop :=
  ∃ q, rtc climbs p q ∧ ok_end result q.

Definition unvisited (V : list string) : nat :=
  length (List.filter (λ k, negb (bool_decide (k ∈ V))) (mkeys states)).

Lemma unvisited_cons_le p V : (unvisited (p :: V) ≤ unvisited V)%nat.
Proof.
  unfold unvisited. induction (mkeys states) as [|k l IH]; simpl; [lia|].
  do 2 case_bool_decide; simpl; try lia. set_solver.
Qed.
Lemma unvisited_sub V V' : V ⊆ V' → (unvisited V' ≤ unvisited V)%nat.
Proof.
  intros Hsub. unfold unvisited. induction (mkeys states) as [|k l IH]; simpl; [lia|].
  do 2 case_bool_decide; simpl; try lia. set_solver.
Qed.
Lemma unvisited_cons_lt p V : is_Some (mget p states) → p ∉ V → (unvisited (p :: V) < unvisited V)%nat.
Proof.
  intros Hp%elem_mkeys Hn. unfold unvisited. induction (mkeys states) as [|k l IH]; [by apply elem_of_nil in Hp|].
  assert (length (List.filter (λ k, negb (bool_decide (k ∈ p :: V))) l) ≤
          length (List.filter (λ k, negb (bool_decide (k ∈ V))) l))%nat as Hle.
  { clear. induction l as [|k l IH]; simpl; [lia|]. do 2 case_bool_decide; simpl; try lia. set_solver. }
  simpl. apply elem_of_cons in Hp as [<-|Hp].
  - rewrite bool_decide_eq_true_2 by left. rewrite bool_decide_eq_false_2 by done. simpl. lia.
  - specialize (IH Hp). do 2 case_bool_decide; simpl; try lia. set_solver.
Qed.

(** A search from [V] to [V'] that found nothing: what it added leads nowhere new. *)
Definition exhausted (result : JsMap string bool) (V V' : list string) : Prop :=
  ∀ x, x ∈ V' → x ∉ V → ¬ ok_end result x ∧ ∀ y, climbs x y → y ∈ V'.

Definition search_ok (result : JsMap string bool) (f : list string → string → option (list string * bool))
    (V : list string) (p : string) : Prop :=
  ∃ V' b, f V p = Some (V', b) ∧ V ⊆ V' ∧ (b = true → reaches_ok result p) ∧
    (b = false → p ∈ V' ∧ exhausted result V V').

Lemma some_ok_spec result f n :
  (∀ V p, (unvisited V < n)%nat → search_ok result f V p) →
  ∀ ids V, (unvisited V < n)%nat →
  ∃ V' b, some_ok f V ids = Some (V', b) ∧ V ⊆ V' ∧ (b = true → ∃ p, p ∈ ids ∧ reaches_ok result p) ∧
    (b = false → ids ⊆ V' ∧ exhausted result V V').
Proof.
  intros Hf ids. induction ids as [|g ids IH]; intros V HV; cbn [some_ok].
  - exists V, false. split_and!; [done|done|done|]. intros _. split; [set_solver|]. by intros x ? ?.
  - destruct (Hf V g HV) as (V1 & b & -> & Hsub & Ht & Hfalse). destruct b.
    + exists V1, true. split_and!; [done|done| |done]. intros _. exists g. split; [left|by apply Ht].
    + destruct (Hfalse eq_refl) as [Hg Hex].
      destruct (IH V1) as (V' & b & -> & Hsub' & Ht' & Hfalse').
      { pose proof (unvisited_sub V V1 Hsub). lia. }
      exists V', b. split_and!; [done|set_solver| |].
      * intros (p & ? & ?)%Ht'. exists p. split; [by right|done].
      * intros [Hids Hex']%Hfalse'. split; [set_solver|]. intros x Hx Hn.
        destruct (decide (x ∈ V1)) as [Hx1|Hx1]; [|by apply Hex'].
        destruct (Hex x Hx1 Hn) as [? Hcl]. split; [done|]. intros y Hy%Hcl. set_solver.
Qed.

Lemma isParentOk_spec result fuel V p :
  (unvisited V < fuel)%nat → search_ok result (isParentOk fuel result) V p.
Proof.
  revert V p. induction fuel as [|fuel IH]; intros V p HV; [lia|]. unfold search_ok. cbn [Dependency.isParentOk].
  case_bool_decide as Hp; [exists V, false; split_and!; [done..|intros _; split; [done|by intros x ? ?]]|].
  assert (∀ b, (b = true → ok_end result p) → (b = false → ¬ ok_end result p) → (∀ y, ¬ climbs p y) →
    ∃ V' b', Some (p :: V, b) = Some (V', b') ∧ V ⊆ V' ∧ (b' = true → reaches_ok result p) ∧
      (b' = false → p ∈ V' ∧ exhausted result V V')) as Hstop.
  { intros b Ht Hf Hn. exists (p :: V), b. split_and!; [done|set_solver| |].
    - intros ?%Ht. by exists p.
    - intros Hb. split; [left|]. intros x [->|Hx]%elem_of_cons Hxn; [|done]. split; [by apply Hf|].
      intros y Hy. by apply Hn in Hy. }
  destruct (mget p states) as [ps|] eqn:Hps.
  2: { apply Hstop; [intros _; unfold ok_end; by rewrite Hps|done|]. intros y [(? & ? & _) _]. congruence. }
  destruct (test_active evalNow ps) eqn:Htest.
  { apply Hstop; [done| |intros y [(? & ? & ? & _) _]; congruence].
    intros _. unfold ok_end. rewrite Hps. intros [? _]. congruence. }
  destruct (ss_monitored ps) eqn:Hmon; cbn [negb].
  { apply Hstop; [..|intros y [(? & ? & _ & ?) _]; congruence]; unfold ok_end; rewrite Hps, Hmon.
    - rewrite andb_true_iff, !negb_true_iff, bool_decide_eq_false. naive_solver.
    - rewrite andb_false_iff, !negb_false_iff, bool_decide_eq_true. intros [?|?] (_ & ? & ?); congruence. }
  destruct (parents_of p) as [|g grand] eqn:Hgrand.
  { apply Hstop; [|done|intros y [_ Hy]; rewrite Hgrand in Hy; by apply elem_of_nil in Hy].
    intros _. unfold ok_end. by rewrite Hps, Hmon. }
  destruct (some_ok_spec result (isParentOk fuel result) fuel IH (g :: grand) (p :: V))
    as (V' & b & -> & Hsub & Ht & Hf).
  { pose proof (unvisited_cons_lt p V ltac:(by rewrite Hps) Hp). lia. }
  assert (∀ q, q ∈ g :: grand → climbs p q) as Hclimb by (intros q Hq; split; [by exists ps|by rewrite Hgrand]).
  exists V', b. split_and!; [done|set_solver| |].
  - intros (q & Hq & r & ? & ?)%Ht. exists r. split; [|done]. eapply rtc_l; [by apply Hclimb|done].
  - intros [Hids Hex]%Hf. split; [set_solver|]. intros x Hx Hxn.
    destruct (decide (x = p)) as [->|Hne]; [|apply Hex; set_solver]. split.
    + unfold ok_end. rewrite Hps, Hmon, Hgrand. by intros [_ ?].
    + intros y [_ Hy]. rewrite Hgrand in Hy. by apply Hids.
Qed.

Lemma any_parent_ok result ids :
  ∃ V b, some_ok (isParentOk (ok_fuel states) result) [] ids = Some (V, b) ∧
    (b = true ↔ ∃ p, p ∈ ids ∧ reaches_ok result p).
Proof.
  destruct (some_ok_spec result (isParentOk (ok_fuel states) result) (ok_fuel states)
    (isParentOk_spec result (ok_fuel states)) ids []) as (V & b & Hrun & _ & Ht & Hf).
  { unfold ok_fuel, unvisited. assert (∀ (l : list string) f, (length (List.filter f l) ≤ length l)%nat) as Hle.
    { intros l f. induction l as [|x l IH]; simpl; [lia|]. destruct (f x); simpl; lia. }
    etrans; [apply Nat.lt_succ_r, Hle|]. unfold mkeys. rewrite length_fmap. lia. }
  exists V, b. split; [done|]. split; [done|]. intros (p & Hp & q & Hpq & Hq). destruct b; [done|exfalso].
  destruct (Hf eq_refl) as [Hids Hex]. apply Hids in Hp. clear Hids Ht Hf.
  induction Hpq as [q|p y q Hpy _ IH]; [by apply (Hex q Hp (not_elem_of_nil q))|].
  apply IH; [|done]. by apply (Hex p Hp (not_elem_of_nil p)).
Qed.

(** The rule, for one asset: it has parents and the walk up from them finds none
    that is ok. *)
Definition all_down (result : JsMap string bool) (s : SuppressionAssetState) : Prop :=
  parents_of (ss_id s) ≠ [] ∧ ∀ p, p ∈ parents_of (ss_id s) → ¬ reaches_ok result p.

Lemma evaluate_one_spec result s :
  ∃ v, evaluate_one evalNow states parentsByChild (Some result) s = Some (mset (ss_id s) v result) ∧
    (v = true ↔ all_down result s).
Proof.
  unfold evaluate_one, all_down. destruct (parents_of (ss_id s)) as [|g l] eqn:Hpar.
  - exists false. split; [done|]. naive_solver.
  - destruct (any_parent_ok result (g :: l)) as (V & b & -> & Hb). exists (negb b). split; [done|].
    rewrite negb_true_iff. destruct b; split; try done.
    + intros [_ Hno]. destruct (proj1 Hb eq_refl) as (p & ? & ?). by exfalso; eapply Hno.
    + intros _. split; [done|]. intros p Hp Hok. by assert (false = true) by (apply Hb; eauto).
Qed.

Lemma evaluate_fold l result :
  NoDup (ss_id <$> l) →
  ∃ result', fold_left (evaluate_one evalNow states parentsByChild) l (Some result) = Some result' ∧
    (∀ x, x ∉ ss_id <$> l → mget x result' = mget x result) ∧
    (∀ i s, l !! i = Some s → ∃ v result_i, mget (ss_id s) result' = Some v ∧ (v = true ↔ all_down result_i s) ∧
       ∀ x, mget x result_i = mget x (if decide (x ∈ ss_id <$> drop i l) then result else result')).
Proof.
  revert result. induction l as [|s l IH]; intros result Hnd.
  - exists result. split_and!; [done|done|]. by intros i s Hs.
  - rewrite fmap_cons in Hnd. apply NoDup_cons in Hnd as [Hs Hnd].
    destruct (evaluate_one_spec result s) as (v & Hone & Hv). cbn [fold_left]. rewrite Hone.
    destruct (IH (mset (ss_id s) v result) Hnd) as (result' & -> & Hsame & Hall).
    exists result'. split; [done|]. split.
    + intros x Hx. rewrite fmap_cons, not_elem_of_cons in Hx. destruct Hx as [Hne Hx].
      by rewrite Hsame, mget_mset_ne.
    + intros [|i] s' Hi; simplify_eq/=.
      * exists v, result. split_and!; [by rewrite Hsame, mget_mset_eq|done|].
        intros x. destruct (decide (x ∈ ss_id s' :: (ss_id <$> l))) as [|Hx]; [done|].
        rewrite not_elem_of_cons in Hx. destruct Hx as [Hne Hx]. by rewrite Hsame, mget_mset_ne.
      * destruct (Hall i s' Hi) as (v' & result_i & ? & ? & Hr). exists v', result_i. split_and!; [done|done|].
        intros x. rewrite Hr. case_decide as Hx; [|done]. apply mget_mset_ne. intros ->. apply Hs.
        rewrite fmap_drop in Hx. eapply subseteq_drop. exact Hx.
Qed.
End suppression.

Lemma stateById_fold states m p ps :
  mget p (fold_left (λ m s, mset (ss_id s) s m) states m) = Some ps →
  (ps ∈ states ∧ ss_id ps = p) ∨ mget p m = Some ps.
Proof.
  revert m. induction states as [|s states IH]; intros m; cbn [fold_left]; [by right|].
  intros [[? ?]|Hm]%IH; [left; split; [by right|done]|]. rewrite mget_mset in Hm.
  case_decide; [|by right]. simplify_eq. left. split; [left|done].
Qed.
Lemma stateById_spec states p ps : mget p (stateById states) = Some ps → ps ∈ states ∧ ss_id ps = p.
Proof. intros [?|?]%stateById_fold; done. Qed.

(** Every parent is on an earlier layer than its child. *)
Definition parents_above (states : list SuppressionAssetState) (parentsByChild : JsMap string (list string)) : Prop :=
  ∀ c p, c ∈ states → p ∈ states → ss_id p ∈ parents_of parentsByChild (ss_id c) → layer_of p < layer_of c.

Lemma climbs_above evalNow states parentsByChild p q sp sq :
  parents_above states parentsByChild → rtc (climbs evalNow (stateById states) parentsByChild) p q →
  mget p (stateById states) = Some sp → mget q (stateById states) = Some sq → layer_of sq ≤ layer_of sp.
Proof.
  intros Habove Hpq. revert sp. induction Hpq as [q|p y q [(ps & Hps & _) Hy] Hyq IH]; intros sp Hp Hq.
  - simplify_eq. lia.
  - destruct (mget y (stateById states)) as [sy|] eqn:Hsy.
    + specialize (IH sy eq_refl Hq). pose proof (stateById_spec _ _ _ Hp) as [? Hpid].
      pose proof (stateById_spec _ _ _ Hsy) as [? Hyid].
      assert (layer_of sy < layer_of sp); [|lia]. apply Habove; [done|done|]. by rewrite Hpid, Hyid.
    + inversion Hyq as [|? z ? [(? & ? & _) _]]; subst; congruence.
Qed.

Lemma sorted_before states i j s p :
  sorted_states states !! i = Some s → sorted_states states !! j = Some p → layer_of p < layer_of s → (j < i)%nat.
Proof.
  intros Hi Hj Hlt. destruct (decide (j < i)%nat) as [|Hge]; [done|]. exfalso.
  destruct (decide (i = j)) as [->|Hne]; [simplify_eq; lia|].
  assert (StronglySorted (λ a b, (layer_of a <=? layer_of b) = true) (sorted_states states)) as Hs.
  { apply sort_by_sorted; intros *; rewrite ?Z.leb_le, ?Z.leb_gt; lia. }
  eapply StronglySorted_lookup in Hs; [|exact Hi|exact Hj|lia]. rewrite Z.leb_le in Hs. lia.
Qed.

Lemma NoDup_not_in_drop (l : list string) i j x : NoDup l → l !! j = Some x → (j < i)%nat → x ∉ drop i l.
Proof.
  intros Hnd Hj Hlt Hin. apply list_elem_of_lookup in Hin as [k Hk]. rewrite lookup_drop in Hk.
  pose proof (NoDup_lookup _ _ _ _ Hnd Hj Hk). lia.
Qed.

(** The names in front of [x]. *)
Fixpoint in_front (x : string) (l : list string) : list string :=
  match l with [] => [] | y :: l' => if decide (y = x) then [] else y :: in_front x l' end.

(** What the evaluation of [s] reads: the verdicts of the states evaluated
    before it, those in front of it in layer order; the others still count as
    unsuppressed. *)
Definition evaluated_before (states : list SuppressionAssetState) (s : SuppressionAssetState) (id : string) : bool :=
  bool_decide (id ∈ in_front (ss_id s) (ss_id <$> sorted_states states)).
Definition seen (states : list SuppressionAssetState) (s : SuppressionAssetState) (result : JsMap string bool) :
    JsMap string bool := List.filter (λ kv, evaluated_before states s kv.1) result.

Lemma all_down_ext evalNow states pbc result result' s :
  (∀ p q, p ∈ parents_of pbc (ss_id s) → rtc (climbs evalNow states pbc) p q → is_Some (mget q states) →
     default false (mget q result) = default false (mget q result')) →
  all_down evalNow states pbc result s ↔ all_down evalNow states pbc result' s.
Proof.
  intros Heq. assert (∀ p, p ∈ parents_of pbc (ss_id s) →
    reaches_ok evalNow states pbc result p ↔ reaches_ok evalNow states pbc result' p) as Hr.
  2: { unfold all_down. split; (intros [? Hno]; split; [done|]); intros p Hp Hok; apply (Hno p Hp); by apply (Hr p Hp). }
  intros p Hp. unfold reaches_ok. apply exist_proper. intros q.
  assert (rtc (climbs evalNow states pbc) p q → ok_end evalNow states pbc result q ↔ ok_end evalNow states pbc result' q);
    [|naive_solver].
  intros Hpq. specialize (Heq p q Hp Hpq). unfold ok_end. destruct (mget q states) as [ps|]; [|done].
  by rewrite Heq.
Qed.

Lemma elem_in_front (l : list string) i x y :
  NoDup l → l !! i = Some x → y ∈ in_front x l ↔ y ∈ l ∧ y ∉ drop i l.
Proof.
  revert l. induction i as [|i IH]; intros [|z l] Hnd Hi; try done; apply NoDup_cons in Hnd as [Hz Hnd]; cbn in Hi.
  - injection Hi as ->. cbn. rewrite decide_True by done. split; [by intros ?%elem_of_nil|]. naive_solver.
  - cbn. assert (z ≠ x) as Hne by (intros ->; apply Hz; by eapply list_elem_of_lookup_2). rewrite decide_False by done.
    rewrite !elem_of_cons, (IH l) by done. split; [|naive_solver].
    intros [->|[? ?]]; [|auto]. split; [by left|]. intros Hin. apply Hz. by eapply subseteq_drop.
Qed.

Lemma initial_false (l : list SuppressionAssetState) (m : JsMap string bool) x :
  default false (mget x m) = false →
  default false (mget x (fold_left (λ m s, mset (ss_id s) false m) l m)) = false.
Proof.
  revert m. induction l as [|s l IH]; intros m Hm; cbn [fold_left]; [done|]. apply IH. rewrite mget_mset. by case_decide.
Qed.

(** C19: the suppression rule.  The evaluation returns and gives every asset a
    verdict, whatever the graph of parents: an asset is suppressed exactly when it
    has parents and, looking through unmonitored ones, each is down, under test,
    or suppressed by the verdicts already given, those of the assets before it in
    layer order.  When every parent sits on an earlier layer than its child these
    are the final verdicts, so the result solves the rule for all assets at once. *)
Theorem evaluateSuppression_all_down evalNow states parentsByChild :
  NoDup (ss_id <$> states) →
  ∃ result, evaluateSuppression evalNow states parentsByChild = Some result ∧
    ∀ s, s ∈ states → ∃ v, mget (ss_id s) result = Some v ∧
      (v = true ↔ all_down evalNow (stateById states) parentsByChild (seen states s result) s) ∧
      (parents_above states parentsByChild →
       v = true ↔ all_down evalNow (stateById states) parentsByChild result s).
Proof.
  intros Hnd. unfold evaluateSuppression.
  assert (NoDup (ss_id <$> sorted_states states)) as Hnd'.
  { unfold sorted_states. by rewrite sort_by_perm. }
  assert (∀ x, x ∈ ss_id <$> sorted_states states ↔ x ∈ ss_id <$> states) as Hsorted.
  { intros x. unfold sorted_states. by rewrite sort_by_perm. }
  set (m0 := fold_left (λ m s, mset (ss_id s) false m) (sorted_states states) []).
  destruct (evaluate_fold evalNow (stateById states) parentsByChild (sorted_states states) m0 Hnd')
    as (result & Hrun & _ & Hall).
  exists result. split; [exact Hrun|]. intros s Hs.
  assert (s ∈ sorted_states states) as [i Hi]%list_elem_of_lookup by (unfold sorted_states; by rewrite sort_by_perm).
  destruct (Hall i s Hi) as (v & result_i & Hv & Hiff & Hsame). exists v. split; [done|].
  assert (v = true ↔ all_down evalNow (stateById states) parentsByChild (seen states s result) s) as Hseen.
  { rewrite Hiff. apply all_down_ext. intros p q _ _ [sq [Hsq <-]%stateById_spec]. rewrite Hsame. unfold seen.
    rewrite (mget_filter_key (evaluated_before states s)), fmap_drop. unfold evaluated_before.
    assert (ss_id sq ∈ ss_id <$> sorted_states states) as Hin by (apply Hsorted; by apply list_elem_of_fmap_2).
    pose proof (elem_in_front (ss_id <$> sorted_states states) i (ss_id s) (ss_id sq) Hnd') as Htw.
    rewrite list_lookup_fmap, Hi in Htw. specialize (Htw eq_refl).
    case_decide as Hd; case_bool_decide as Hb; try done.
    - apply Htw in Hb as [_ ?]. done.
    - by apply initial_false.
    - exfalso. apply Hb, Htw. done. }
  split; [exact Hseen|]. intros Habove. rewrite Hiff. apply all_down_ext. intros p q Hp Hpq [sq Hsq].
  rewrite Hsame. case_decide as Hd; [|done]. exfalso. revert Hd.
  assert (∃ sp, mget p (stateById states) = Some sp) as [sp Hsp].
  { inversion Hpq as [|? ? ? [(ps & Hps & _) _]]; subst; eauto. }
  pose proof (climbs_above _ _ _ p q sp sq Habove Hpq Hsp Hsq) as Hle.
  apply stateById_spec in Hsp as [Hsp <-]. apply stateById_spec in Hsq as [Hsq <-].
  pose proof (Habove s sp Hs Hsp Hp) as Hlt.
  assert (sq ∈ sorted_states states) as [j Hj]%list_elem_of_lookup by (unfold sorted_states; by rewrite sort_by_perm).
  rewrite fmap_drop. eapply NoDup_not_in_drop; [done|by rewrite list_lookup_fmap, Hj|].
  eapply sorted_before; [done|done|lia].
Qed.

(** ** Examples *)

(** Three switches daisy-chained over LLDP behind one FortiGate that manages all
    of them, and one switch nothing leads to. *)
Definition tree_ex_assets : list DepAsset :=
  let sw id := mkDepAsset id (Some id) None "switch" (JObj [("controllerFortigate", JStr "FG")]) in
  [ mkDepAsset "fg" (Some "FG") None "firewall" JNull; sw "s1"; sw "s2"; sw "s3";
    mkDepAsset "lost" (Some "lost") None "switch" JNull ]%string.
Definition tree_ex_edges : list DependencyEdge :=
  buildDependencyEdgesFromInputs tree_ex_assets [] [("fg", "s1"); ("s1", "s2"); ("s2", "s3")]%string.

(** The layers and the kept parents of the example, as [assignLayers] computes them. *)
Lemma tree_ex_layers :
  ∃ la, assignLayers tree_ex_assets tree_ex_edges = Some la ∧
    la_layers la = [("fg", 1); ("s1", 2); ("s2", 3); ("s3", 4)]%string ∧ la_unresolved la = ["lost"]%string ∧
    ((λ e, (childAssetId e, parentAssetId e)) <$> la_keptEdges la) =
      [("s1", "fg"); ("s2", "s1"); ("s3", "s2")]%string.
Proof. eexists. vm_compute. split_and!; reflexivity. Qed.

Lemma assignLayers_unresolved_witness :
  ∃ la, assignLayers tree_ex_assets tree_ex_edges = Some la ∧
    ¬ ∃ r, is_root tree_ex_assets r ∧ rtc (connected tree_ex_edges) r "lost"%string.
Proof.
  destruct (assignLayers_unresolved tree_ex_assets tree_ex_edges) as (la & Hla & Hall).
  - apply (bool_decide_eq_true_1 _). vm_compute. reflexivity.
  - exists la. split; [exact Hla|].
    apply (Hall (mkDepAsset "lost" (Some "lost"%string) None "switch" JNull)).
    + unfold tree_ex_assets. do 4 right. left.
    + destruct tree_ex_layers as (la' & Hla' & _ & Hun & _). rewrite Hla in Hla'. injection Hla' as <-.
      rewrite Hun. left.
Defined.

Lemma keptEdges_dag_witness :
  ∃ la, assignLayers tree_ex_assets tree_ex_edges = Some la ∧ ¬ tc (kept_parent (la_keptEdges la)) "s3"%string "s3"%string.
Proof.
  destruct tree_ex_layers as (la & Hla & _). exists la. split; [exact Hla|].
  destruct (keptEdges_dag tree_ex_assets tree_ex_edges la) as (_ & Hacyclic & _).
  - unfold no_char. apply (bool_decide_eq_true_1 _). vm_compute. reflexivity.
  - exact Hla.
  - apply Hacyclic.
Defined.

Definition up_state (id : string) (layer : Z) (st : string) : SuppressionAssetState :=
  mkSuppressionAssetState id (Some layer) true (Some st) false None.

(** [f] is down, so [m] and [b] below it are suppressed; [a] is on layer 2 but an
    operator pinned [b], on layer 3, as its only parent. *)
Definition gap_states : list SuppressionAssetState :=
  [up_state "f" 1 "down"; up_state "m" 2 "up"; up_state "a" 2 "up"; up_state "b" 3 "up"]%string.
Definition gap_parents : JsMap string (list string) := [("m", ["f"]); ("b", ["m"]); ("a", ["b"])]%string.

Lemma evaluateSuppression_all_down_witness :
  ∃ result, evaluateSuppression 0 gap_states [("m", ["f"]); ("b", ["m"])]%string = Some result ∧
    mget "b"%string result = Some true ∧
    all_down 0 (stateById gap_states) [("m", ["f"]); ("b", ["m"])]%string
      (seen gap_states (up_state "b" 3 "up") result) (up_state "b" 3 "up").
Proof.
  destruct (evaluateSuppression_all_down 0 gap_states [("m", ["f"]); ("b", ["m"])]%string) as (result & Hr & Hall).
  - apply (bool_decide_eq_true_1 _). vm_compute. reflexivity.
  - exists result. split; [exact Hr|].
    destruct (Hall (up_state "b" 3 "up")) as (v & Hv & Hiff & _); [unfold gap_states; do 3 right; left|].
    vm_compute in Hr. injection Hr as <-. vm_compute in Hv. injection Hv as <-. split; [reflexivity|].
    apply Hiff. reflexivity.
Defined.

(** One pass is not enough for an override that points down the layers.  The
    comment above [evaluateSuppression] says it iterates until stable; on this
    input its result does not satisfy its own rule: every parent of [a] is
    suppressed in the result, yet [a] is not. *)
Theorem evaluateSuppression_single_pass_gap :
  ∃ result, evaluateSuppression 0 gap_states gap_parents = Some result ∧
    mget "b"%string result = Some true ∧ mget "a"%string result = Some false ∧
    all_down 0 (stateById gap_states) gap_parents result (up_state "a" 2 "up").
Proof.
  eexists. split; [vm_compute; reflexivity|]. split; [reflexivity|]. split; [reflexivity|].
  split; [done|]. intros p Hp. change (parents_of gap_parents "a") with ["b"%string] in Hp.
  apply list_elem_of_singleton in Hp as ->. intros (q & Hq & Hok).
  inversion Hq as [|? y ? [(ps & Hps & _ & Hm) _]]; subst.
  - vm_compute in Hok. by destruct Hok as (_ & _ & ?).
  - vm_compute in Hps. injection Hps as <-. discriminate Hm.
Qed.
