(* ===== verification/DependencyStore.v ===== *)
(** * The dependency tree over the database

    The database half of [src/src/services/dependencyTreeService.ts]
    ([recomputeDependencyTree], [reconcileDependencySuppression],
    [propagateAfterStatusChange]) and the handlers of
    [src/src/api/routes/assets.ts] that write it: the parent override (PUT and
    DELETE) and the Dependency Test (POST and DELETE).  Tables are lists of rows;
    the clock does not advance inside one handler. *)

From S2P Require Import Prelude JsColl Http Topology Dependency DependencyProofs.

(** ** State *)

(** [AssetDependencyParent], less its own id and timestamps. *)
Record DepRow := mkDepRow {
  dr_assetId : string;
  dr_parentAssetId : string;
  dr_source : DependencySource;
  dr_detectedVia : DependencyDetectedVia;
}.

Inductive DepEvent :=
  | TestExpired (id : string)
  | DependencySuppressed (id : string) (parentIds : list string)
  | DependencyResumed (id : string) (parentIds : list string)
  | OverrideSet (id : string) (parentIds : list string)
  | OverrideCleared (id : string) (removed : nat)
  | TestStarted (id : string) (until : Z)
  | TestCleared (id : string).

Record DepState := mkDepState {
  dp_assets : list AssetRow;
  dp_rows : list DepRow;
  dp_samples : list InterfaceSample;
  (** [AssetLldpNeighbor]: [assetId] and [matchedAssetId]. *)
  dp_lldp : list (string * option string);
  dp_now : Z;
  dp_events : list DepEvent;
}.

Definition set_dp_assets (l : list AssetRow) (s : DepState) : DepState :=
  mkDepState l (dp_rows s) (dp_samples s) (dp_lldp s) (dp_now s) (dp_events s).
Definition set_dp_rows (l : list DepRow) (s : DepState) : DepState :=
  mkDepState (dp_assets s) l (dp_samples s) (dp_lldp s) (dp_now s) (dp_events s).
Definition log_dp (l : list DepEvent) (s : DepState) : DepState :=
  mkDepState (dp_assets s) (dp_rows s) (dp_samples s) (dp_lldp s) (dp_now s) (dp_events s ++ l).

Definition set_layer (l : option Z) (a : AssetRow) : AssetRow :=
  mkAssetRow (as_id a) (as_hostname a) (as_serialNumber a) (as_assetType a) (as_fortinetTopology a)
    (as_discoveredByIntegrationId a) (as_monitored a) (as_monitorStatus a) l
    (as_dependencySuppressed a) (as_dependencySuppressedAt a) (as_dependencyTestUntil a) (as_dependencyTestStartedBy a).
Definition set_suppressed (b : bool) (at_ : option Z) (a : AssetRow) : AssetRow :=
  mkAssetRow (as_id a) (as_hostname a) (as_serialNumber a) (as_assetType a) (as_fortinetTopology a)
    (as_discoveredByIntegrationId a) (as_monitored a) (as_monitorStatus a) (as_dependencyLayer a)
    b at_ (as_dependencyTestUntil a) (as_dependencyTestStartedBy a).
Definition set_test (until : option Z) (by_ : option string) (a : AssetRow) : AssetRow :=
  mkAssetRow (as_id a) (as_hostname a) (as_serialNumber a) (as_assetType a) (as_fortinetTopology a)
    (as_discoveredByIntegrationId a) (as_monitored a) (as_monitorStatus a) (as_dependencyLayer a)
    (as_dependencySuppressed a) (as_dependencySuppressedAt a) until by_.

(** [updateMany({ where: { id: { in: ids } }, data })] *)
Definition update_assets (ids : list string) (f : AssetRow → AssetRow) (l : list AssetRow) : list AssetRow :=
  (λ a, if bool_decide (as_id a ∈ ids) then f a else a) <$> l.

(** ** [recomputeDependencyTree] *)

Record RecomputeResult := mkRecomputeResult { rr_scoped : nat; rr_edgesWritten : nat; rr_unresolved : nat }.

Definition dep_asset (a : AssetRow) : DepAsset :=
  mkDepAsset (as_id a) (as_hostname a) (as_serialNumber a) (as_assetType a) (as_fortinetTopology a).

(** [new Set(ids)] *)
Definition to_set (ids : list string) : list string := fold_left (λ s x, sadd x s) ids [].

Definition in_scope (integrationId : option string) (inventory : list AssetRow) : list string :=
  to_set (as_id <$>
    if Js.otruthy integrationId
    then List.filter (λ a, bool_decide (as_discoveredByIntegrationId a = integrationId)) inventory
    else inventory).

(** [createMany({ data, skipDuplicates: true })] under the unique key
    [(assetId, parentAssetId, source)]. *)
Definition same_row_key (a b : DepRow) : bool :=
  bool_decide (dr_assetId a = dr_assetId b) && bool_decide (dr_parentAssetId a = dr_parentAssetId b) &&
  bool_decide (dr_source a = dr_source b).
Definition create_row (rows : list DepRow) (r : DepRow) : list DepRow :=
  if existsb (same_row_key r) rows then rows else rows ++ [r].
Definition create_rows (new rows : list DepRow) : list DepRow := fold_left create_row new rows.

Definition computed_row (e : DependencyEdge) : DepRow :=
  mkDepRow (childAssetId e) (parentAssetId e) Computed (detectedVia e).

(** [byLayer]: the in-scope assets of each layer, and the [updateMany] per layer. *)
Definition by_layer (layers : Layers) (scope : list string) (inventory : list AssetRow) :
    JsMap (option Z) (list string) :=
  bucket_loop (λ a, bool_decide (as_id a ∈ scope)) (λ a, mget (as_id a) layers) as_id inventory [].
Definition write_layers (m : JsMap (option Z) (list string)) (assets : list AssetRow) : list AssetRow :=
  fold_left (λ l kv, update_assets kv.2 (set_layer kv.1) l) m assets.

(** The inputs of the graph: what the candidate edges are built from. *)
Definition lldp_pairs (inventory : list AssetRow) (lldp : list (string * option string)) : list DepPair :=
  omap (λ r, match r.2 with
             | Some m => if bool_decide (r.1 ∈ as_id <$> inventory) && Js.truthy m then Some (r.1, m) else None
             | None => None
             end) lldp.
Definition candidate_edges (s : DepState) (inventory : list AssetRow) : list DependencyEdge :=
  let ifResult := inferInterfaceTopology (dp_now s) (dp_samples s) (dp_assets s) (as_id <$> inventory) in
  buildDependencyEdgesFromInputs (dep_asset <$> inventory)
    ((λ e, (ie_sourceAssetId e, ie_targetAssetId e)) <$> ir_edges ifResult)
    (lldp_pairs inventory (dp_lldp s)).

Definition diverges {A} : M DepState A := hthrow (JsError "out of fuel").

Definition recomputeDependencyTree (integrationId : option string) : M DepState RecomputeResult :=
  let! s := hget in
  let inventory := List.filter is_infra (dp_assets s) in
  match inventory with
  | [] => hret (mkRecomputeResult 0 0 0)
  | _ =>
      let scope := in_scope integrationId inventory in
      match assignLayers (dep_asset <$> inventory) (candidate_edges s inventory) with
      | None => diverges
      | Some la =>
          let scopedKept := List.filter (λ e, bool_decide (childAssetId e ∈ scope)) (la_keptEdges la) in
          let rows := List.filter (λ r, negb (bool_decide (dr_source r = Computed) &&
                                              bool_decide (dr_assetId r ∈ scope))) (dp_rows s) in
          hmodify (set_dp_rows (create_rows (computed_row <$> scopedKept) rows)) ;!
          hmodify (set_dp_assets (write_layers (by_layer (la_layers la) scope inventory) (dp_assets s))) ;!
          hret (mkRecomputeResult (length scope) (length scopedKept) (length (la_unresolved la)))
      end
  end.

(** ** [reconcileDependencySuppression] *)

Definition is_override (r : DepRow) : bool := bool_decide (dr_source r = Override).

Definition group_rows (override : bool) (rows : list DepRow) : JsMap string (list string) :=
  bucket_loop (λ r, Bool.eqb (is_override r) override) dr_assetId dr_parentAssetId rows [].

Definition loadEffectiveParents (rows : list DepRow) : JsMap string (list string) :=
  set_all (group_rows true rows) (set_all (group_rows false rows) []).

Definition suppression_state (a : AssetRow) : SuppressionAssetState :=
  mkSuppressionAssetState (as_id a) (as_dependencyLayer a) (as_monitored a) (as_monitorStatus a)
    (as_dependencySuppressed a) (as_dependencyTestUntil a).

Record ReconcileResult := mkReconcileResult { rc_evaluated : nat; rc_changed : nat }.

Record Transition := mkTransition {
  tr_id : string;
  tr_to : bool;
  tr_parentIds : list string;
}.

(** [dependencyTestUntil: { lte: now }] *)
Definition test_expired (now : Z) (a : AssetRow) : bool :=
  match as_dependencyTestUntil a with Some t => t <=? now | None => false end.

Definition expire_tests : M DepState unit :=
  let! s := hget in
  let expired := List.filter (test_expired (dp_now s)) (dp_assets s) in
  hmodify (set_dp_assets (update_assets (as_id <$> expired) (set_test None None) (dp_assets s))) ;!
  hmodify (log_dp ((λ a, TestExpired (as_id a)) <$> expired)).

Definition transition (desired : JsMap string bool) (parentsByChild : JsMap string (list string)) (a : AssetRow) :
    option Transition :=
  let next := default false (mget (as_id a) desired) in
  if Bool.eqb next (as_dependencySuppressed a) then None
  else Some (mkTransition (as_id a) next (default [] (mget (as_id a) parentsByChild))).

Definition write_transition (now : Z) (l : list AssetRow) (t : Transition) : list AssetRow :=
  update_assets [tr_id t] (set_suppressed (tr_to t) (if tr_to t then Some now else None)) l.

Definition transition_event (assets : list AssetRow) (t : Transition) : option DepEvent :=
  match List.find (λ a, String.eqb (as_id a) (tr_id t)) assets with
  | Some a => if as_monitored a
              then Some (if tr_to t then DependencySuppressed (tr_id t) (tr_parentIds t)
                         else DependencyResumed (tr_id t) (tr_parentIds t))
              else None
  | None => None
  end.

Definition reconcileDependencySuppression : M DepState ReconcileResult :=
  expire_tests ;!
  let! s := hget in
  let assets := dp_assets s in
  match assets with
  | [] => hret (mkReconcileResult 0 0)
  | _ =>
      let parentsByChild := loadEffectiveParents (dp_rows s) in
      match evaluateSuppression (dp_now s) (suppression_state <$> assets) parentsByChild with
      | None => diverges
      | Some desired =>
          let transitions := omap (transition desired parentsByChild) assets in
          match transitions with
          | [] => hret (mkReconcileResult (length assets) 0)
          | _ =>
              hmodify (set_dp_assets (fold_left (write_transition (dp_now s)) transitions assets)) ;!
              hmodify (log_dp (omap (transition_event assets) transitions)) ;!
              hret (mkReconcileResult (length assets) (length transitions))
          end
      end
  end.

(** Failures are logged and dropped: the next tick of the reconciler catches up. *)
Definition propagateAfterStatusChange (_assetId : string) : M DepState unit :=
  hcatch (reconcileDependencySuppression ;! hret tt) (λ _, hret tt).

(** ** The override endpoints *)

Definition find_asset (id : string) : M DepState AssetRow :=
  let! s := hget in
  match List.find (λ a, String.eqb (as_id a) id) (dp_assets s) with
  | Some a => hret a
  | None => hthrow (AppError 404 "Asset not found")
  end.

(** [z.array(z.string().min(1)).max(20)] *)
Definition valid_override_body (ids : list string) : bool :=
  forallb Js.truthy ids && (length ids <=? 20)%nat.

(** [effectiveParentsOf]: the override set of a child that has one, else the computed set. *)
Definition effectiveParentsOf (rows : list DepRow) (child : string) : list string :=
  match mget child (group_rows true rows) with
  | Some o => o
  | None => default [] (mget child (group_rows false rows))
  end.

(** The climb from the proposed parents; [true] when it meets [id]. *)
Fixpoint cycle_check (fuel : nat) (rows : list DepRow) (id : string) (visited queue : list string) : option bool :=
  match queue with
  | [] => Some false
  | cur :: queue' =>
      match fuel with
      | O => None
      | S fuel' =>
          if String.eqb cur id then Some true
          else if bool_decide (cur ∈ visited) then cycle_check fuel' rows id visited queue'
          else cycle_check fuel' rows id (cur :: visited) (queue' ++ effectiveParentsOf rows cur)
      end
  end.

Definition cycle_fuel (rows : list DepRow) (proposed : list string) : nat := length proposed + length rows.

Definition override_row (id parentId : string) : DepRow := mkDepRow id parentId Override Manual.

(** Everything the PUT handler checks about the proposed parents. *)
Definition check_override (id : string) (proposed : list string) : M DepState unit :=
  throw_if (bool_decide (id ∈ proposed)) (AppError 400 "An asset cannot be its own dependency parent") ;!
  match proposed with
  | [] => hret tt
  | _ =>
      let! s := hget in
      let found := List.filter (λ a, bool_decide (as_id a ∈ proposed)) (dp_assets s) in
      throw_if (negb (length found =? length proposed)%nat)
        (AppError 400 "One or more proposed parent assets not found") ;!
      throw_if (existsb (λ a, negb (is_infra a)) found)
        (AppError 400 "Dependency parents must be firewall/switch/access_point") ;!
      match cycle_check (cycle_fuel (dp_rows s) proposed) (dp_rows s) id [] proposed with
      | None => diverges
      | Some true => hthrow (AppError 400 "Proposed override would form a dependency cycle")
      | Some false => hret tt
      end
  end.

Definition drop_overrides (id : string) (rows : list DepRow) : list DepRow :=
  List.filter (λ r, negb (bool_decide (dr_assetId r = id) && is_override r)) rows.

(** PUT /:id/dependencies/override *)
Definition putOverride (id : string) (parentAssetIds : list string) : M DepState (list string) :=
  throw_if (negb (valid_override_body parentAssetIds)) (JsError "ZodError") ;!
  let! _ := find_asset id in
  let proposed := to_set parentAssetIds in
  check_override id proposed ;!
  let! s := hget in
  hmodify (set_dp_rows (create_rows (override_row id <$> proposed) (drop_overrides id (dp_rows s)))) ;!
  hmodify (log_dp [OverrideSet id proposed]) ;!
  hret proposed.

(** DELETE /:id/dependencies/override *)
Definition deleteOverride (id : string) : M DepState nat :=
  let! _ := find_asset id in
  let! s := hget in
  let rows := drop_overrides id (dp_rows s) in
  let removed := (length (dp_rows s) - length rows)%nat in
  hmodify (set_dp_rows rows) ;!
  (if (0 <? removed)%nat then hmodify (log_dp [OverrideCleared id removed]) else hret tt) ;!
  hret removed.

(** ** The Dependency Test endpoints *)

(** POST /:id/dependency-test; [durationMinutes] is an integer from 1 to 240. *)
Definition postDependencyTest (id : string) (durationMinutes : Z) (startedBy : string) : M DepState Z :=
  throw_if (negb ((1 <=? durationMinutes) && (durationMinutes <=? 240))) (JsError "ZodError") ;!
  let! asset := find_asset id in
  throw_if (negb (is_infra asset))
    (AppError 400 "Dependency Test only applies to firewall / switch / access_point assets") ;!
  let! s := hget in
  let until := dp_now s + durationMinutes * 60000 in
  hmodify (set_dp_assets (update_assets [id] (set_test (Some until) (Some startedBy)) (dp_assets s))) ;!
  propagateAfterStatusChange id ;!
  hmodify (log_dp [TestStarted id until]) ;!
  hret until.

(** DELETE /:id/dependency-test; the answer is [alreadyCleared]. *)
Definition deleteDependencyTest (id : string) : M DepState bool :=
  let! asset := find_asset id in
  match as_dependencyTestUntil asset with
  | None => hret true
  | Some _ =>
      let! s := hget in
      hmodify (set_dp_assets (update_assets [id] (set_test None None) (dp_assets s))) ;!
      propagateAfterStatusChange id ;!
      hmodify (log_dp [TestCleared id]) ;!
      hret false
  end.

(** ** Effective parents *)

Definition rows_of (override : bool) (rows : list DepRow) (c : string) : list string :=
  dr_parentAssetId <$> List.filter (λ r, Bool.eqb (is_override r) override && bool_decide (dr_assetId r = c)) rows.

Lemma group_rows_get override rows c :
  mget c (group_rows override rows) = match rows_of override rows c with [] => None | l => Some l end.
Proof. unfold group_rows. rewrite bucket_loop_get. fold (rows_of override rows c). by destruct (rows_of _ _ _). Qed.

Lemma effectiveParentsOf_rows rows c :
  effectiveParentsOf rows c = match rows_of true rows c with [] => rows_of false rows c | l => l end.
Proof.
  unfold effectiveParentsOf. rewrite !group_rows_get. by destruct (rows_of true rows c), (rows_of false rows c).
Qed.

(** The reconciler and the override endpoint resolve the same parents. *)
Lemma loadEffectiveParents_spec rows c :
  parents_of (loadEffectiveParents rows) c = effectiveParentsOf rows c.
Proof.
  unfold parents_of, loadEffectiveParents, effectiveParentsOf.
  rewrite !mget_set_all by (apply bucket_loop_NoDup; constructor). simpl.
  by destruct (mget c (group_rows true rows)), (mget c (group_rows false rows)).
Qed.

Definition effective (rows : list DepRow) (c p : string) : Prop := p ∈ effectiveParentsOf rows c.
Definition acyclic (rows : list DepRow) : Prop := ∀ x, ¬ tc (effective rows) x x.

(** ** The cycle check *)

(** The rows of children not climbed yet. *)
Definition unclimbed (rows : list DepRow) (visited : list string) : nat :=
  length (List.filter (λ r, negb (bool_decide (dr_assetId r ∈ visited))) rows).

Lemma unclimbed_cons rows visited c :
  c ∉ visited → (length (effectiveParentsOf rows c) + unclimbed rows (c :: visited) ≤ unclimbed rows visited)%nat.
Proof.
  intros Hc.
  assert (∀ b, (length (rows_of b rows c) + unclimbed rows (c :: visited) ≤ unclimbed rows visited)%nat) as Hb.
  { intros b. unfold rows_of, unclimbed. rewrite length_fmap. induction rows as [|r rows IH]; simpl; [lia|].
    destruct (decide (dr_assetId r = c)) as [->|Hne].
    - rewrite (bool_decide_eq_true_2 (c = c)), (bool_decide_eq_true_2 (c ∈ c :: visited)),
        (bool_decide_eq_false_2 (c ∈ visited)) by (done || left). simpl. destruct (Bool.eqb _ _); simpl; lia.
    - rewrite (bool_decide_eq_false_2 (dr_assetId r = c)) by done. rewrite andb_false_r.
      do 2 case_bool_decide; simpl; try lia; set_solver. }
  rewrite effectiveParentsOf_rows. specialize (Hb true) as Ht. specialize (Hb false).
  destruct (rows_of true rows c); [done|]. simpl in *. lia.
Qed.

Lemma cycle_check_spec fuel rows id visited queue :
  (length queue + unclimbed rows visited ≤ fuel)%nat → id ∉ visited →
  (∀ x, x ∈ visited → ∀ y, effective rows x y → y ∈ visited ∨ y ∈ queue) →
  ∃ b, cycle_check fuel rows id visited queue = Some b ∧
    (b = true → ∃ q, q ∈ queue ∧ rtc (effective rows) q id) ∧
    (b = false → ∀ q, q ∈ visited ∨ q ∈ queue → ¬ rtc (effective rows) q id).
Proof.
  revert visited queue. induction fuel as [|fuel IH]; intros visited queue Hfuel Hid Hcl;
    destruct queue as [|cur queue]; cbn [cycle_check].
  1,3: exists false; split_and!; [done|done|]; intros _ q [Hq|Hq] Hr; [|by apply elem_of_nil in Hq];
    apply Hid; clear -Hr Hcl Hq; induction Hr as [x|x y z Hxy _ IH]; [done|]; apply IH;
    destruct (Hcl x Hq y Hxy) as [?|Hy]; [done|by apply elem_of_nil in Hy].
  - simpl in Hfuel. lia.
  - simpl in Hfuel. destruct (String.eqb_spec cur id) as [->|Hne].
    + exists true. split_and!; [done| |done]. intros _. exists id. split; [left|done].
    + case_bool_decide as Hv.
      * destruct (IH visited queue) as (b & Hb & Ht & Hf); [lia|done| |].
        { intros x Hx y Hy. destruct (Hcl x Hx y Hy) as [|[->|]%elem_of_cons]; auto. }
        exists b. split_and!; [done| |].
        -- intros (q & Hq & ?)%Ht. exists q. split; [by right|done].
        -- intros Hbf q Hq. apply Hf; [done|]. rewrite elem_of_cons in Hq. naive_solver.
      * pose proof (unclimbed_cons rows visited cur Hv) as Hun.
        destruct (IH (cur :: visited) (queue ++ effectiveParentsOf rows cur)) as (b & Hb & Ht & Hf).
        { rewrite length_app. lia. }
        { set_solver. }
        { intros x [->|Hx]%elem_of_cons y Hy; [right; apply elem_of_app; by right|].
          destruct (Hcl x Hx y Hy) as [|[->|]%elem_of_cons]; set_solver. }
        exists b. split_and!; [done| |].
        -- intros (q & [Hq|Hq]%elem_of_app & Hr)%Ht; [exists q; split; [by right|done]|].
           exists cur. split; [left|]. by eapply rtc_l.
        -- intros Hbf q Hq. apply Hf; [done|]. set_solver.
Qed.

Lemma cycle_check_total rows id proposed :
  ∃ b, cycle_check (cycle_fuel rows proposed) rows id [] proposed = Some b ∧
    (b = true ↔ ∃ q, q ∈ proposed ∧ rtc (effective rows) q id).
Proof.
  destruct (cycle_check_spec (cycle_fuel rows proposed) rows id [] proposed) as (b & Hb & Ht & Hf).
  - unfold cycle_fuel, unclimbed. apply Nat.add_le_mono_l, filter_length_le.
  - apply not_elem_of_nil.
  - by intros x ?%elem_of_nil.
  - exists b. split; [done|]. split; [done|]. intros (q & Hq & Hr). destruct b; [done|].
    exfalso. eapply Hf; eauto.
Qed.

(** ** Overrides *)

Lemma create_rows_new new rows :
  ∃ kept, create_rows new rows = rows ++ kept ∧ kept ⊆ new ∧
    ∀ r, r ∈ new → ∃ r', r' ∈ rows ++ kept ∧ same_row_key r r' = true.
Proof.
  unfold create_rows. revert rows. induction new as [|r new IH]; intros rows; cbn [fold_left].
  - exists []. split_and!; [by rewrite app_nil_r|done|by intros ? ?%elem_of_nil].
  - unfold create_row at 2. destruct (existsb (same_row_key r) rows) eqn:He.
    + destruct (IH rows) as (kept & -> & Hsub & Hall). exists kept. split_and!; [done|set_solver|].
      intros x [->|Hx]%elem_of_cons; [|by apply Hall]. apply existsb_exists in He as (y & Hy%list_elem_of_In & ?).
      exists y. split; [set_solver|done].
    + destruct (IH (rows ++ [r])) as (kept & -> & Hsub & Hall). exists (r :: kept).
      rewrite <-app_assoc in *. simpl in *. split_and!; [done|set_solver|].
      intros x [->|Hx]%elem_of_cons; [|by apply Hall]. exists r. split; [set_solver|].
      unfold same_row_key. by rewrite !bool_decide_eq_true_2.
Qed.

Lemma rows_of_app b r1 r2 c : rows_of b (r1 ++ r2) c = rows_of b r1 c ++ rows_of b r2 c.
Proof. unfold rows_of. by rewrite List.filter_app, fmap_app. Qed.

Lemma rows_of_none b rows c :
  (∀ r, r ∈ rows → is_override r = b → dr_assetId r = c → False) → rows_of b rows c = [].
Proof.
  intros Hno. unfold rows_of. destruct (List.filter _ rows) as [|r l] eqn:Hf; [done|]. exfalso.
  assert (r ∈ r :: l) as Hr by left. rewrite <-Hf in Hr. apply list_elem_of_In, filter_In in Hr as [Hr Hp].
  rewrite andb_true_iff, Bool.eqb_true_iff, bool_decide_eq_true in Hp. eapply Hno; [by apply list_elem_of_In|tauto..].
Qed.

Lemma rows_of_drop b rows id c :
  rows_of b (drop_overrides id rows) c = if b && bool_decide (c = id) then [] else rows_of b rows c.
Proof.
  destruct (b && bool_decide (c = id)) eqn:Hb.
  - rewrite andb_true_iff, bool_decide_eq_true in Hb. destruct Hb as [-> ->]. apply rows_of_none.
    intros r [_ Hp]%list_elem_of_In%filter_In Ho Hid. by rewrite Hid, Ho, bool_decide_eq_true_2 in Hp.
  - unfold rows_of, drop_overrides. f_equal. induction rows as [|r rows IH]; simpl; [done|].
    destruct (bool_decide (dr_assetId r = id) && is_override r) eqn:Hr; simpl; [|by rewrite IH].
    rewrite IH. rewrite andb_true_iff, bool_decide_eq_true in Hr. destruct Hr as [Hid Ho]. rewrite Ho, Hid.
    destruct b; simpl in *; [|done]. rewrite bool_decide_eq_false in Hb. by rewrite bool_decide_eq_false_2 by congruence.
Qed.

(** The rows the PUT handler leaves. *)
Definition pin_rows (id : string) (proposed : list string) (rows : list DepRow) : list DepRow :=
  create_rows (override_row id <$> proposed) (drop_overrides id rows).

Lemma pin_rows_spec id proposed rows :
  (∀ c, c ≠ id → effectiveParentsOf (pin_rows id proposed rows) c = effectiveParentsOf rows c) ∧
  (∀ p, p ∈ rows_of true (pin_rows id proposed rows) id ↔ p ∈ proposed) ∧
  rows_of false (pin_rows id proposed rows) id = rows_of false rows id.
Proof.
  unfold pin_rows. destruct (create_rows_new (override_row id <$> proposed) (drop_overrides id rows))
    as (kept & -> & Hsub & Hall).
  assert (∀ r, r ∈ kept → ∃ p, p ∈ proposed ∧ r = override_row id p) as Hk.
  { intros r Hr%Hsub. apply list_elem_of_fmap in Hr as (p & -> & ?). eauto. }
  split_and!.
  - intros c Hne. rewrite !effectiveParentsOf_rows, !rows_of_app, !rows_of_drop.
    rewrite bool_decide_eq_false_2 by done. rewrite andb_false_r. cbn [andb].
    rewrite !(rows_of_none _ kept c), !app_nil_r; [done|..]; intros r (p & ? & ->)%Hk _ Heq; by apply Hne.
  - intros p. rewrite rows_of_app, rows_of_drop, bool_decide_eq_true_2 by done. cbn [andb app].
    unfold rows_of. rewrite list_elem_of_fmap. split.
    + intros (r & -> & [(p' & ? & ->)%list_elem_of_In%Hk _]%list_elem_of_In%filter_In). done.
    + intros Hp. destruct (Hall (override_row id p)) as (r & Hr & Hkey); [by apply list_elem_of_fmap_2|].
      unfold same_row_key in Hkey. rewrite !andb_true_iff, !bool_decide_eq_true in Hkey.
      destruct Hkey as [[Hid Hpar] Hsrc]. cbn in Hid, Hpar, Hsrc. apply elem_of_app in Hr as [Hr|Hr].
      * apply list_elem_of_In, filter_In in Hr as [_ Hr]. unfold is_override in Hr.
        by rewrite <-Hid, <-Hsrc, !bool_decide_eq_true_2 in Hr.
      * exists r. split; [done|]. apply list_elem_of_In, filter_In. split; [by apply list_elem_of_In|].
        unfold is_override. by rewrite <-Hid, <-Hsrc, !bool_decide_eq_true_2.
  - rewrite rows_of_app, rows_of_drop. cbn [andb]. rewrite (rows_of_none _ kept), app_nil_r; [done|].
    intros r (p & ? & ->)%Hk Ho. done.
Qed.

(** Redirecting the parents of one node cannot close a cycle unless one of the new
    parents already leads to it. *)
Lemma redirect_acyclic (R R' : string → string → Prop) id :
  (∀ x, ¬ tc R x x) → (∀ x y, x ≠ id → R' x y → R x y) → (∀ p, R' id p → ¬ rtc R p id) → ∀ x, ¬ tc R' x x.
Proof.
  intros Hac Hsame Hnew.
  assert (∀ x y, rtc R' x y → rtc R x y ∨ (rtc R x id ∧ rtc R' x id ∧ rtc R' id y)) as Hpath.
  { intros x y Hxy. induction Hxy as [x|x y z Hxy Hyz IH]; [by left|].
    destruct (decide (x = id)) as [->|Hne]; [right; split_and!; [done|done|by eapply rtc_l]|].
    pose proof (Hsame _ _ Hne Hxy) as Hxy'. destruct IH as [?|(? & ? & ?)]; [left; by eapply rtc_l|].
    right. split_and!; [by eapply rtc_l|by eapply rtc_l|done]. }
  assert (¬ tc R' id id) as Hid.
  { intros Ht. assert (∃ p, R' id p ∧ rtc R' p id) as (p & Hp & Hr).
    { inversion Ht; subst; eauto using rtc_refl, tc_rtc. }
    apply (Hnew p Hp). apply Hpath in Hr as [?|(? & _)]; done. }
  intros x Hx. assert (∃ y, R' x y ∧ rtc R' y x) as (y & Hxy & Hyx).
  { inversion Hx; subst; eauto using rtc_refl, tc_rtc. }
  destruct (decide (x = id)) as [->|Hne]; [done|].
  destruct (Hpath y x Hyx) as [Hr|(_ & Hyid & Hidx)].
  - apply (Hac x). eapply tc_rtc_r; [by apply tc_once, Hsame|done].
  - apply Hid. eapply tc_rtc_l; [exact Hidx|]. eapply tc_rtc_r; [by apply tc_once|done].
Qed.

Lemma check_override_spec id proposed s :
  ∃ r, check_override id proposed s = (s, r) ∧
    (r = Ok tt → id ∉ proposed ∧ ∀ p, p ∈ proposed → ¬ rtc (effective (dp_rows s)) p id) ∧
    (∀ m, r ≠ Throw (JsError m)).
Proof.
  unfold check_override, hguard. case_bool_decide as Hid; [by eexists|]. hred.
  destruct proposed as [|p0 proposed]; [eexists; split_and!; [done| |done]; intros _; set_solver|].
  hred. destruct (_ =? _)%nat; [|by eexists]. hred. destruct (existsb _ _); [by eexists|]. hred.
  destruct (cycle_check_total (dp_rows s) id (p0 :: proposed)) as (b & -> & Hb). destruct b; [by eexists|].
  eexists. split_and!; [done| |done]. intros _. split; [done|]. intros p Hp Hr.
  by assert (false = true) by (apply Hb; eauto).
Qed.

Lemma readonly_find_asset id : readonly (find_asset id).
Proof. intros s s' r. unfold find_asset, hbind, hget. case_match; by intros [= <- <-]. Qed.

Lemma putOverride_cases id ids s s' r :
  putOverride id ids s = (s', r) →
  match r with
  | Ok l => l = to_set ids ∧ dp_rows s' = pin_rows id l (dp_rows s) ∧ id ∉ l ∧
            ∀ p, p ∈ l → ¬ rtc (effective (dp_rows s)) p id
  | Throw e => s' = s ∧ e ≠ JsError "out of fuel"
  end.
Proof.
  unfold putOverride, find_asset, hguard. unfold hbind, hget, hmodify, hret, hthrow. cbv beta iota zeta.
  destruct (negb (valid_override_body ids)); [by intros [= <- <-]|].
  destruct (List.find _ (dp_assets s)) as [a|]; [|by intros [= <- <-]].
  destruct (check_override_spec id (to_set ids) s) as (rc & Hrc & Hok & Hno). rewrite Hrc.
  destruct rc as [[]|e].
  - intros [= <- <-]. destruct (Hok eq_refl). by split_and!.
  - intros [= <- <-]. split; [done|]. intros ->. by eapply Hno.
Qed.

(** C22: operator overrides cannot close a dependency cycle.  From an acyclic
    graph of effective parents, PUT override either fails and changes nothing
    (the cycle walk always terminates), or changes only the asset's own parents:
    to the proposed ones, in a graph that is still acyclic, or, for an empty
    list, to whatever the computed rows say. *)
Theorem putOverride_acyclic id ids s s' r :
  acyclic (dp_rows s) → putOverride id ids s = (s', r) →
  match r with
  | Ok l => (∀ c, c ≠ id → effectiveParentsOf (dp_rows s') c = effectiveParentsOf (dp_rows s) c) ∧
            (l ≠ [] → acyclic (dp_rows s') ∧ ∀ p, p ∈ effectiveParentsOf (dp_rows s') id ↔ p ∈ l) ∧
            (l = [] → effectiveParentsOf (dp_rows s') id = rows_of false (dp_rows s) id)
  | Throw e => s' = s ∧ e ≠ JsError "out of fuel"
  end.
Proof.
  intros Hac Hrun. apply putOverride_cases in Hrun. destruct r as [l|e]; [|done].
  destruct Hrun as (_ & -> & Hid & Hnew). destruct (pin_rows_spec id l (dp_rows s)) as (Hoth & Hov & Hcomp).
  split_and!; [done|..].
  - intros Hne. assert (∀ p, p ∈ effectiveParentsOf (pin_rows id l (dp_rows s)) id ↔ p ∈ l) as Heff.
    { intros p. rewrite effectiveParentsOf_rows. rewrite <-(Hov p).
      destruct (rows_of true (pin_rows id l (dp_rows s)) id) as [|x y] eqn:Hr; [|done].
      destruct l as [|x l]; [done|]. exfalso. by apply (not_elem_of_nil x), Hov; left. }
    split; [|done]. refine (redirect_acyclic (effective (dp_rows s)) _ id Hac _ _).
    + intros x y Hx. unfold effective. by rewrite Hoth.
    + intros p Hp%Heff. by apply Hnew.
  - intros ->. rewrite effectiveParentsOf_rows, Hcomp.
    destruct (rows_of true (pin_rows id [] (dp_rows s)) id) as [|x y]; [done|].
    exfalso. by apply (not_elem_of_nil x), Hov; left.
Qed.

(** ** Recomputation *)

Lemma elem_to_set x l : x ∈ to_set l ↔ x ∈ l.
Proof.
  unfold to_set. assert (∀ s, x ∈ fold_left (λ s x, sadd x s) l s ↔ x ∈ l ∨ x ∈ s) as Hgen.
  { induction l as [|y l IH]; intros s; cbn [fold_left]; [set_solver|]. rewrite IH, elem_sadd. set_solver. }
  rewrite Hgen. set_solver.
Qed.

Lemma update_assets_layers m (g : string → option Z) assets :
  (∀ k ids x, (k, ids) ∈ m → x ∈ ids → k = g x) →
  write_layers m assets =
  (λ a, if existsb (λ kv, bool_decide (as_id a ∈ kv.2)) m then set_layer (g (as_id a)) a else a) <$> assets.
Proof.
  unfold write_layers. revert assets. induction m as [|[k ids] m IH]; intros assets Hm; cbn [fold_left existsb].
  - by rewrite list_fmap_id.
  - rewrite IH by (intros k' ids' x Hin; apply Hm; by right). unfold update_assets.
    rewrite <-list_fmap_compose. apply list_fmap_ext. intros i a _. cbn [compose fst snd].
    case_bool_decide as Hin; cbn [orb].
    + cbn [set_layer as_id]. rewrite <-(Hm k ids (as_id a) ltac:(left) Hin). by destruct (existsb _ m).
    + done.
Qed.

Definition layer_write (layers : Layers) (scope : list string) (a : AssetRow) : AssetRow :=
  if bool_decide (as_id a ∈ scope) then set_layer (mget (as_id a) layers) a else a.

Lemma write_by_layer layers scope inventory assets :
  scope ⊆ as_id <$> inventory →
  write_layers (by_layer layers scope inventory) assets = layer_write layers scope <$> assets.
Proof.
  intros Hscope. set (m := by_layer layers scope inventory).
  assert (NoDup (mkeys m)) as Hnd by (apply bucket_loop_NoDup; constructor).
  assert (∀ k ids, (k, ids) ∈ m → ids = as_id <$> List.filter (λ a, bool_decide (as_id a ∈ scope) &&
    bool_decide (mget (as_id a) layers = k)) inventory) as Hm.
  { intros k ids Hin%elem_mget; [|done]. unfold m, by_layer in Hin. rewrite bucket_loop_get in Hin.
    match type of Hin with match ?x with _ => _ end = _ => destruct x end; by simplify_eq/=. }
  rewrite (update_assets_layers m (λ x, mget x layers)).
  - apply list_fmap_ext. intros i a _. unfold layer_write.
    assert (existsb (λ kv, bool_decide (as_id a ∈ kv.2)) m = bool_decide (as_id a ∈ scope)) as ->; [|done].
    apply eq_true_iff_eq. rewrite existsb_exists, bool_decide_eq_true. split.
    + intros ([k ids] & Hin%list_elem_of_In & Ha). apply bool_decide_eq_true in Ha. cbn in Ha.
      rewrite (Hm _ _ Hin) in Ha. apply list_elem_of_fmap in Ha as (b & -> & [_ Hb]%list_elem_of_In%filter_In).
      rewrite andb_true_iff, !bool_decide_eq_true in Hb. tauto.
    + intros Ha. pose proof (Hscope _ Ha) as (b & Hab & Hb)%list_elem_of_fmap.
      destruct (mget (mget (as_id b) layers) m) as [ids|] eqn:Hg.
      * exists (mget (as_id b) layers, ids). split; [by apply list_elem_of_In, mget_elem|].
        apply bool_decide_eq_true. cbn. rewrite (Hm _ _ (mget_elem _ _ _ Hg)), Hab. apply list_elem_of_fmap_2.
        apply list_elem_of_In, filter_In. split; [by apply list_elem_of_In|].
        by rewrite <-Hab, !bool_decide_eq_true_2.
      * exfalso. unfold m, by_layer in Hg. rewrite bucket_loop_get in Hg.
        assert (b ∈ List.filter (λ a, bool_decide (as_id a ∈ scope) &&
          bool_decide (mget (as_id a) layers = mget (as_id b) layers)) inventory) as Hbf.
        { apply list_elem_of_In, filter_In. split; [by apply list_elem_of_In|].
          by rewrite <-Hab, !bool_decide_eq_true_2. }
        destruct (List.filter _ inventory) as [|x l] in Hg, Hbf; [by apply elem_of_nil in Hbf|done].
  - intros k ids x Hin Hx. rewrite (Hm _ _ Hin) in Hx.
    apply list_elem_of_fmap in Hx as (b & -> & [_ Hb]%list_elem_of_In%filter_In).
    rewrite andb_true_iff, !bool_decide_eq_true in Hb. naive_solver.
Qed.

Lemma in_scope_sub integrationId inventory : in_scope integrationId inventory ⊆ as_id <$> inventory.
Proof.
  intros x. unfold in_scope. rewrite elem_to_set. destruct (Js.otruthy integrationId); [|done].
  intros (a & -> & [Ha _]%list_elem_of_In%filter_In)%list_elem_of_fmap.
  by apply list_elem_of_fmap_2, list_elem_of_In.
Qed.

Lemma layer_write_facts layers scope a :
  as_id (layer_write layers scope a) = as_id a ∧
  as_discoveredByIntegrationId (layer_write layers scope a) = as_discoveredByIntegrationId a ∧
  dep_asset (layer_write layers scope a) = dep_asset a ∧ is_infra (layer_write layers scope a) = is_infra a ∧
  layer_write layers scope (layer_write layers scope a) = layer_write layers scope a.
Proof.
  unfold layer_write. destruct (bool_decide (as_id a ∈ scope)) eqn:Hb; cbn; rewrite ?Hb; done.
Qed.

(** The graph a recomputation sees does not depend on the layers it wrote before. *)
Lemma recompute_inputs_stable layers scope s s' integrationId :
  dp_assets s' = layer_write layers scope <$> dp_assets s → dp_samples s' = dp_samples s →
  dp_lldp s' = dp_lldp s → dp_now s' = dp_now s →
  let inv := List.filter is_infra (dp_assets s) in
  let inv' := List.filter is_infra (dp_assets s') in
  inv' = layer_write layers scope <$> inv ∧ dep_asset <$> inv' = dep_asset <$> inv ∧
  as_id <$> inv' = as_id <$> inv ∧
  in_scope integrationId inv' = in_scope integrationId inv ∧ candidate_edges s' inv' = candidate_edges s inv.
Proof.
  intros Ha Hsm Hl Hn inv inv'.
  assert (inv' = layer_write layers scope <$> inv) as Hinv.
  { unfold inv', inv. rewrite Ha. apply filter_fmap_same. intros a. apply layer_write_facts. }
  assert (as_id <$> inv' = as_id <$> inv) as Hid.
  { rewrite Hinv, <-list_fmap_compose. apply list_fmap_ext. intros i a _. apply layer_write_facts. }
  assert (dep_asset <$> inv' = dep_asset <$> inv) as Hdep.
  { rewrite Hinv, <-list_fmap_compose. apply list_fmap_ext. intros i a _. apply layer_write_facts. }
  split_and!; [done..| |].
  - unfold in_scope. destruct (Js.otruthy integrationId); [|by rewrite Hid].
    rewrite Hinv, filter_fmap_same, <-list_fmap_compose.
    + f_equal. apply list_fmap_ext. intros i a _. apply layer_write_facts.
    + intros a. by destruct (layer_write_facts layers scope a) as (_ & -> & _).
  - unfold candidate_edges, lldp_pairs. rewrite Hid, Hdep, Hsm, Hl, Hn, Ha, inferInterfaceTopology_identity; [done|].
    intros a. unfold layer_write. by case_bool_decide.
Qed.

Definition owned (scope : list string) (r : DepRow) : bool :=
  bool_decide (dr_source r = Computed) && bool_decide (dr_assetId r ∈ scope).

Lemma filter_create_rows p new rows :
  (∀ r, r ∈ new → p r = false) → List.filter p (create_rows new rows) = List.filter p rows.
Proof.
  intros Hp. destruct (create_rows_new new rows) as (kept & -> & Hsub & _). rewrite List.filter_app.
  assert (List.filter p kept = []) as ->; [|by rewrite app_nil_r].
  induction kept as [|r kept IH]; [done|]. cbn [List.filter]. rewrite Hp by set_solver. apply IH. set_solver.
Qed.

Lemma filter_idemp {A} (p : A → bool) l : List.filter p (List.filter p l) = List.filter p l.
Proof. induction l as [|x l IH]; [done|]. cbn. destruct (p x) eqn:Hp; cbn; rewrite ?Hp, IH; done. Qed.

(** What a recomputation with the layering [la] leaves. *)
Definition scoped_kept (scope : list string) (la : LayerAssignment) : list DependencyEdge :=
  List.filter (λ e, bool_decide (childAssetId e ∈ scope)) (la_keptEdges la).
Definition recomputed (scope : list string) (la : LayerAssignment) (s : DepState) : DepState :=
  set_dp_assets (layer_write (la_layers la) scope <$> dp_assets s)
    (set_dp_rows (create_rows (computed_row <$> scoped_kept scope la)
      (List.filter (λ r, negb (owned scope r)) (dp_rows s))) s).

Lemma recompute_run integrationId s la :
  let inv := List.filter is_infra (dp_assets s) in
  let scope := in_scope integrationId inv in
  inv ≠ [] → assignLayers (dep_asset <$> inv) (candidate_edges s inv) = Some la →
  recomputeDependencyTree integrationId s =
    (recomputed scope la s,
     Ok (mkRecomputeResult (length scope) (length (scoped_kept scope la)) (length (la_unresolved la)))).
Proof.
  intros inv scope Hne Hla. unfold recomputeDependencyTree, hbind, hget, hmodify, hret. cbv beta iota zeta.
  fold inv scope.
  assert (scope ⊆ as_id <$> inv) as Hsub by apply in_scope_sub. clearbody scope. clearbody inv.
  destruct inv as [|a0 inv0]; [done|]. rewrite Hla. by rewrite write_by_layer.
Qed.

(** Rows with new keys are all created. *)
Lemma create_rows_fresh new rows :
  (∀ r r', r ∈ new → r' ∈ rows → same_row_key r r' = false) → ForallOrdPairs (λ r' r, same_row_key r r' = false) new →
  create_rows new rows = rows ++ new.
Proof.
  unfold create_rows. revert rows. induction new as [|r new IH]; intros rows Hrows Hnew; cbn [fold_left].
  { by rewrite app_nil_r. }
  inversion Hnew as [|? ? Hr Hnew']; subst. unfold create_row at 2.
  assert (existsb (same_row_key r) rows = false) as ->.
  { apply not_true_iff_false. rewrite existsb_exists. intros (y & Hy%list_elem_of_In & Hk).
    rewrite Hrows in Hk; [done|left|done]. }
  rewrite IH; [by rewrite <-app_assoc| |done]. intros x y Hx [Hy|Hy]%elem_of_app; [apply Hrows; [by right|done]|].
  apply list_elem_of_singleton in Hy as ->. rewrite Forall_forall in Hr. by apply Hr.
Qed.

(** The rows of the fresh tree replace the computed rows of the scope. *)
Lemma recomputed_rows assets edges la scope s :
  assignLayers assets edges = Some la →
  dp_rows (recomputed scope la s) =
    List.filter (λ x, negb (owned scope x)) (dp_rows s) ++ (computed_row <$> scoped_kept scope la).
Proof.
  intros Hla. cbn. apply create_rows_fresh.
  - intros r x (e & -> & [_ He]%list_elem_of_In%filter_In)%list_elem_of_fmap [_ Hx]%list_elem_of_In%filter_In.
    apply not_true_iff_false. unfold same_row_key. rewrite !andb_true_iff, !bool_decide_eq_true. cbn. intros [[Hc _] Hs].
    unfold owned in Hx. rewrite <-Hc, <-Hs, (bool_decide_eq_true_2 (Computed = Computed)), He in Hx; done.
  - pose proof (keptEdges_pairs _ _ _ Hla) as Hnd. unfold scoped_kept.
    induction (la_keptEdges la) as [|e l IH]; cbn [List.filter]; [constructor|].
    rewrite fmap_cons in Hnd. apply NoDup_cons in Hnd as [He Hnd]. case_bool_decide; [|by apply IH].
    rewrite fmap_cons. constructor; [|by apply IH]. apply Forall_forall.
    intros r (x & -> & [Hx%list_elem_of_In _]%list_elem_of_In%filter_In)%list_elem_of_fmap.
    apply not_true_iff_false. unfold same_row_key. rewrite !andb_true_iff, !bool_decide_eq_true. cbn. intros [[Hc Hp] _].
    apply He, list_elem_of_fmap. exists x. split; [|done]. unfold edge_pair. congruence.
Qed.

(** A recomputation over any inventory, the empty one included. *)
Lemma recompute_total integrationId s :
  let inv := List.filter is_infra (dp_assets s) in
  let scope := in_scope integrationId inv in
  ∃ la, assignLayers (dep_asset <$> inv) (candidate_edges s inv) = Some la ∧
    recomputeDependencyTree integrationId s =
      (recomputed scope la s,
       Ok (mkRecomputeResult (length scope) (length (scoped_kept scope la)) (length (la_unresolved la)))).
Proof.
  intros inv scope. destruct (assignLayers_total (dep_asset <$> inv) (candidate_edges s inv)) as (la & Hla).
  exists la. split; [done|]. destruct (decide (inv = [])) as [Hnil|Hne]; [|by apply recompute_run].
  unfold recomputeDependencyTree, hbind, hget. fold inv.
  assert (in_scope integrationId [] = []) as Hsc by (unfold in_scope; by destruct (Js.otruthy integrationId)).
  unfold scope. rewrite Hnil in Hla |- *. rewrite Hsc. unfold hret. f_equal; [|f_equal].
  - unfold recomputed, scoped_kept. assert (∀ l : list DependencyEdge, List.filter (λ e, bool_decide (childAssetId e ∈ @nil string)) l = []) as ->.
    { intros l. induction l as [|e l IH]; [done|]. cbn. by rewrite bool_decide_eq_false_2 by apply not_elem_of_nil. }
    cbn [fmap list_fmap]. unfold create_rows. cbn [fold_left].
    assert (List.filter (λ r, negb (owned [] r)) (dp_rows s) = dp_rows s) as ->.
    { induction (dp_rows s) as [|r l IH]; [done|]. cbn. unfold owned at 1.
      rewrite (bool_decide_eq_false_2 (dr_assetId r ∈ [])) by apply not_elem_of_nil. rewrite andb_false_r. cbn. by rewrite IH. }
    assert (layer_write (la_layers la) [] <$> dp_assets s = dp_assets s) as ->; [|by destruct s].
    rewrite <-(list_fmap_id (dp_assets s)) at 2. apply list_fmap_ext. intros i a _. unfold layer_write.
    by rewrite bool_decide_eq_false_2 by apply not_elem_of_nil.
  - unfold assignLayers in Hla. destruct (compute_layers _ _); [|done]. simplify_eq/=. f_equal.
    unfold scoped_kept. induction (mvalues _) as [|e l IH]; [done|].
    cbn. by rewrite bool_decide_eq_false_2 by apply not_elem_of_nil.
Qed.

Lemma recomputed_again assets edges la scope s :
  assignLayers assets edges = Some la → recomputed scope la (recomputed scope la s) = recomputed scope la s.
Proof.
  intros Hla. pose proof (recomputed_rows _ _ _ scope s Hla) as Hrows.
  pose proof (recomputed_rows _ _ _ scope (recomputed scope la s) Hla) as Hrows'.
  assert (dp_rows (recomputed scope la (recomputed scope la s)) = dp_rows (recomputed scope la s)) as Heq.
  { rewrite Hrows', Hrows, List.filter_app, filter_idemp.
    assert (List.filter (λ x, negb (owned scope x)) (computed_row <$> scoped_kept scope la) = []) as ->.
    { unfold scoped_kept. induction (la_keptEdges la) as [|e l IH]; [done|]. cbn. case_bool_decide as He; [|done].
      cbn. unfold owned. cbn. by rewrite !bool_decide_eq_true_2. }
    by rewrite app_nil_r. }
  assert (dp_assets (recomputed scope la (recomputed scope la s)) = dp_assets (recomputed scope la s)) as Ha.
  { cbn. rewrite <-list_fmap_compose. apply list_fmap_ext. intros i a _. apply layer_write_facts. }
  revert Heq Ha. unfold recomputed, set_dp_assets, set_dp_rows. cbn. by intros -> ->.
Qed.

(** C20: [recomputeDependencyTree] replaces the tree of its scope.  It always
    returns; the layering is that of [assignLayers] over the whole inventory.  The
    computed rows of the scope are exactly one row per kept edge of the layering
    whose child is in scope; every other row stays as it was.  The assets of the
    scope get the layer of the layering, or none; every other asset stays as it
    was.  Every new row points from a stored layer to the next one up, and a
    second run changes nothing and returns the same counts. *)
Theorem recomputeDependencyTree_correct integrationId s :
  let inv := List.filter is_infra (dp_assets s) in
  let scope := in_scope integrationId inv in
  ∃ la s' r, assignLayers (dep_asset <$> inv) (candidate_edges s inv) = Some la ∧
    recomputeDependencyTree integrationId s = (s', Ok r) ∧
    dp_rows s' = List.filter (λ x, negb (owned scope x)) (dp_rows s) ++
      (computed_row <$> List.filter (λ e, bool_decide (childAssetId e ∈ scope)) (la_keptEdges la)) ∧
    dp_assets s' = (λ a, if bool_decide (as_id a ∈ scope) then set_layer (mget (as_id a) (la_layers la)) a else a)
      <$> dp_assets s ∧
    (∀ x c p, x ∈ dp_rows s' → owned scope x = true → c ∈ dp_assets s' → p ∈ dp_assets s' →
       as_id c = dr_assetId x → as_id p = dr_parentAssetId x → as_id p ∈ scope →
       ∃ l, as_dependencyLayer p = Some l ∧ as_dependencyLayer c = Some (l + 1)) ∧
    recomputeDependencyTree integrationId s' = (s', Ok r).
Proof.
  intros inv scope. destruct (recompute_total integrationId s) as (la & Hla & Hrun). fold inv scope in Hla, Hrun.
  pose proof (recomputed_rows _ _ _ scope s Hla) as Hrows.
  exists la. eexists _, _. split; [done|]. split; [exact Hrun|]. split_and!; [exact Hrows|done|..].
  - intros x c p Hx Hox Hc Hp Hcid Hpid Hps. rewrite Hrows in Hx. cbn in Hc, Hp.
    apply elem_of_app in Hx as [[_ Hx]%list_elem_of_In%filter_In|Hx]; [by rewrite Hox in Hx|].
    apply list_elem_of_fmap in Hx as (e & -> & [He%list_elem_of_In Hes]%list_elem_of_In%filter_In).
    apply bool_decide_eq_true in Hes. destruct (keptEdges_consecutive _ _ _ _ Hla He) as (_ & l & Hl & Hl').
    apply list_elem_of_fmap in Hc as (c0 & -> & _), Hp as (p0 & -> & _).
    destruct (layer_write_facts (la_layers la) scope c0) as [Hc0 _], (layer_write_facts (la_layers la) scope p0) as [Hp0 _].
    rewrite Hc0 in Hcid. rewrite Hp0 in Hpid, Hps. cbn in Hcid, Hpid. exists l. unfold layer_write.
    rewrite !bool_decide_eq_true_2 by congruence. cbn. split; congruence.
  - destruct (recompute_inputs_stable (la_layers la) scope s (recomputed scope la s) integrationId)
      as (Hinv & Hdep & _ & Hscope & Hcand); [done..|]. fold inv scope in Hinv, Hdep, Hscope, Hcand.
    destruct (recompute_total integrationId (recomputed scope la s)) as (la' & Hla' & ->).
    rewrite Hdep, Hcand, Hla in Hla'. injection Hla' as <-. rewrite Hscope. f_equal.
    by rewrite (recomputed_again _ _ _ scope s Hla).
Qed.

(** ** Reconciliation *)

(** The rule reads neither the current flag nor more of the clock than which tests
    are active. *)
Section evaluate_reads.
Context (g : SuppressionAssetState → SuppressionAssetState) (now now' : Z) (states : list SuppressionAssetState).
Context (Hg : ∀ s, ss_id (g s) = ss_id s ∧ ss_layer (g s) = ss_layer s ∧ ss_monitored (g s) = ss_monitored s ∧
                   ss_monitorStatus (g s) = ss_monitorStatus s).
Context (Htest : ∀ s, s ∈ states → test_active now' (g s) = test_active now s).

Lemma stateById_map : stateById (g <$> states) = prod_map id g <$> stateById states.
Proof.
  unfold stateById.
  change (@nil (string * SuppressionAssetState)) with (prod_map (@id string) g <$> @nil (string * SuppressionAssetState)) at 1.
  assert (∀ k s (m : JsMap string SuppressionAssetState),
    mset k (g s) (prod_map id g <$> m) = prod_map id g <$> mset k s m) as Hset.
  { intros k s m. induction m as [|[k0 s0] m IH]; cbn; [done|]. case_decide; cbn; [done|]. by rewrite IH. }
  clear Htest. generalize (@nil (string * SuppressionAssetState)).
  induction states as [|s l IH]; intros m; [done|]. rewrite fmap_cons. cbn [fold_left].
  rewrite (proj1 (Hg s)), Hset. apply IH.
Qed.

Lemma mget_stateById_map p : mget p (stateById (g <$> states)) = g <$> mget p (stateById states).
Proof.
  rewrite stateById_map. induction (stateById states) as [|[k s] m IH]; cbn; [done|]. by case_decide.
Qed.

Lemma isParentOk_reads pbc fuel result visited p :
  isParentOk now' (stateById (g <$> states)) pbc fuel result visited p =
  isParentOk now (stateById states) pbc fuel result visited p.
Proof.
  revert visited p. induction fuel as [|fuel IH]; intros visited p; [done|]. cbn [isParentOk].
  case_bool_decide; [done|]. rewrite mget_stateById_map.
  destruct (mget p (stateById states)) as [ps|] eqn:Hps; cbn [fmap option_fmap option_map]; [|done].
  apply stateById_spec in Hps as [Hps _]. destruct (Hg ps) as (_ & _ & -> & ->). rewrite Htest by done.
  destruct (test_active now ps), (ss_monitored ps); cbn [negb]; try done.
  destruct (parents_of pbc p) as [|q l]; [done|]. generalize (p :: visited).
  induction (q :: l) as [|x xs IHl]; intros V; [done|]. cbn [some_ok]. rewrite IH.
  destruct (isParentOk _ _ _ _ _ V x) as [[V' []]|]; [done|apply IHl|done].
Qed.

Lemma sorted_states_map : sorted_states (g <$> states) = g <$> sorted_states states.
Proof.
  apply sort_by_map. intros x y. unfold layer_of. by destruct (Hg x) as (_ & -> & _), (Hg y) as (_ & -> & _).
Qed.

Lemma evaluateSuppression_reads pbc :
  evaluateSuppression now' (g <$> states) pbc = evaluateSuppression now states pbc.
Proof.
  unfold evaluateSuppression. rewrite sorted_states_map.
  assert (∀ l m, fold_left (λ m s, mset (ss_id s) false m) (g <$> l) m = fold_left (λ m s, mset (ss_id s) false m) l m) as ->.
  { intros l. induction l as [|s l IH]; intros m; [done|]. cbn. by rewrite (proj1 (Hg s)). }
  generalize (Some (fold_left (λ m s, mset (ss_id s) false m) (sorted_states states) [])).
  induction (sorted_states states) as [|s l IH]; intros r; [done|]. rewrite fmap_cons. cbn [fold_left].
  rewrite <-IH. f_equal. unfold evaluate_one. destruct r as [r|]; [|done]. rewrite (proj1 (Hg s)).
  destruct (parents_of pbc (ss_id s)) as [|q qs]; [done|].
  assert (ok_fuel (stateById (g <$> states)) = ok_fuel (stateById states)) as ->.
  { unfold ok_fuel. by rewrite stateById_map, length_fmap. }
  assert (∀ V xs, some_ok (isParentOk now' (stateById (g <$> states)) pbc (ok_fuel (stateById states)) r) V xs =
    some_ok (isParentOk now (stateById states) pbc (ok_fuel (stateById states)) r) V xs) as ->; [|done].
  intros V xs. revert V. induction xs as [|x xs IHx]; intros V; [done|]. cbn [some_ok].
  rewrite isParentOk_reads. by destruct (isParentOk _ _ _ _ _ V x) as [[V' []]|].
Qed.
End evaluate_reads.

Lemma evaluateSuppression_total now states pbc :
  NoDup (ss_id <$> states) → ∃ desired, evaluateSuppression now states pbc = Some desired.
Proof.
  intros Hnd. unfold evaluateSuppression.
  destruct (evaluate_fold now (stateById states) pbc (sorted_states states)
    (fold_left (λ m s, mset (ss_id s) false m) (sorted_states states) [])) as (r & -> & _); [|by eexists].
  unfold sorted_states. by rewrite sort_by_perm.
Qed.

Definition with_flag (now : Z) (desired : JsMap string bool) (a : AssetRow) : AssetRow :=
  let next := default false (mget (as_id a) desired) in
  if Bool.eqb next (as_dependencySuppressed a) then a
  else set_suppressed next (if next then Some now else None) a.

(** The transitions of the assets write exactly the flags that differ. *)
Lemma write_transitions now desired pbc assets :
  NoDup (as_id <$> assets) →
  fold_left (write_transition now) (omap (transition desired pbc) assets) assets = with_flag now desired <$> assets.
Proof.
  intros Hnd.
  assert (∀ l1 l2, NoDup (as_id <$> l1 ++ l2) →
    fold_left (write_transition now) (omap (transition desired pbc) l2) (l1 ++ l2) =
    l1 ++ (with_flag now desired <$> l2)) as Hgen; [|by apply (Hgen [])].
  intros l1 l2. revert l1. induction l2 as [|a l2 IH]; intros l1 Hl; [done|].
  assert (as_id a ∉ as_id <$> l1 ∧ as_id a ∉ as_id <$> l2) as [Hn1 Hn2].
  { rewrite fmap_app, fmap_cons in Hl. apply NoDup_app in Hl as (_ & Hd & [? _]%NoDup_cons).
    split; [|done]. intros Hin. by apply (Hd _ Hin); left. }
  assert (∀ b, as_id b = as_id a → fold_left (write_transition now) (omap (transition desired pbc) l2) (l1 ++ b :: l2)
    = l1 ++ b :: (with_flag now desired <$> l2)) as Hrest.
  { intros b Hb. rewrite (cons_middle b l1 l2), app_assoc, IH; [by rewrite <-app_assoc|].
    rewrite !fmap_app, fmap_cons in *. cbn in *. rewrite <-app_assoc, Hb. exact Hl. }
  rewrite fmap_cons. unfold with_flag at 1.
  destruct (Bool.eqb (default false (mget (as_id a) desired)) (as_dependencySuppressed a)) eqn:He.
  - assert (omap (transition desired pbc) (a :: l2) = omap (transition desired pbc) l2) as ->; [|by apply Hrest].
    cbn. unfold transition at 1. by rewrite He.
  - assert (omap (transition desired pbc) (a :: l2) =
      mkTransition (as_id a) (default false (mget (as_id a) desired)) (default [] (mget (as_id a) pbc)) ::
      omap (transition desired pbc) l2) as ->.
    { cbn. unfold transition at 1. by rewrite He. }
    cbn [fold_left]. unfold write_transition at 2, update_assets. cbn [tr_id tr_to].
    assert (∀ f (l : list AssetRow), as_id a ∉ as_id <$> l → (λ b, if bool_decide (as_id b ∈ [as_id a]) then f b else b) <$> l = l) as Hskip.
    { intros f l Hn. rewrite <-(list_fmap_id l) at 2. apply list_fmap_ext. intros i b Hb. rewrite bool_decide_eq_false_2; [done|].
      intros Heq%list_elem_of_singleton. apply Hn. rewrite <-Heq. by eapply list_elem_of_fmap_2, list_elem_of_lookup_2. }
    rewrite fmap_app, fmap_cons, !Hskip by done. rewrite bool_decide_eq_true_2 by by apply list_elem_of_singleton.
    by apply Hrest.
Qed.

Definition set_dp_now (now : Z) (s : DepState) : DepState :=
  mkDepState (dp_assets s) (dp_rows s) (dp_samples s) (dp_lldp s) now (dp_events s).

Lemma with_flag_facts now desired a :
  as_id (with_flag now desired a) = as_id a ∧
  as_dependencyTestUntil (with_flag now desired a) = as_dependencyTestUntil a ∧
  as_dependencySuppressed (with_flag now desired a) = default false (mget (as_id a) desired) ∧
  suppression_state (with_flag now desired a) =
    mkSuppressionAssetState (as_id a) (as_dependencyLayer a) (as_monitored a) (as_monitorStatus a)
      (default false (mget (as_id a) desired)) (as_dependencyTestUntil a).
Proof.
  unfold with_flag. destruct (Bool.eqb _ _) eqn:He; [|done]. apply Bool.eqb_prop in He.
  unfold suppression_state. by rewrite He.
Qed.

Lemma expire_tests_run s :
  ∃ s1, expire_tests s = (s1, Ok tt) ∧ dp_rows s1 = dp_rows s ∧ dp_now s1 = dp_now s ∧
    as_id <$> dp_assets s1 = as_id <$> dp_assets s ∧
    ((∀ a, a ∈ dp_assets s → test_expired (dp_now s) a = false) → s1 = s).
Proof.
  unfold expire_tests, hbind, hget, hmodify. eexists. split_and!; [reflexivity|done|done| |].
  - cbn. unfold update_assets. rewrite <-list_fmap_compose. apply list_fmap_ext. intros i a _. cbn. by case_bool_decide.
  - intros Hno. assert (List.filter (test_expired (dp_now s)) (dp_assets s) = []) as ->.
    { destruct (List.filter _ _) as [|a l] eqn:Hf; [done|]. assert (a ∈ a :: l) as Ha by left.
      rewrite <-Hf in Ha. apply list_elem_of_In, filter_In in Ha as [Ha%list_elem_of_In He].
      rewrite Hno in He; done. }
    cbn. destruct s as [assets rows samples lldp now events]. unfold log_dp, set_dp_assets. cbn. f_equal.
    + unfold update_assets. rewrite <-(list_fmap_id assets) at 2. apply list_fmap_ext. intros i a _.
      by rewrite bool_decide_eq_false_2 by apply not_elem_of_nil.
    + apply app_nil_r.
Qed.

(** One run past the expiry of tests, with the flags it leaves. *)
Lemma reconcile_run s s1 desired :
  NoDup (as_id <$> dp_assets s1) → expire_tests s = (s1, Ok tt) →
  evaluateSuppression (dp_now s1) (suppression_state <$> dp_assets s1) (loadEffectiveParents (dp_rows s1)) = Some desired →
  ∃ s' n, reconcileDependencySuppression s = (s', Ok (mkReconcileResult (length (dp_assets s1)) n)) ∧
    dp_assets s' = with_flag (dp_now s1) desired <$> dp_assets s1 ∧ dp_rows s' = dp_rows s1 ∧ dp_now s' = dp_now s1 ∧
    ((∀ a, a ∈ dp_assets s1 → as_dependencySuppressed a = default false (mget (as_id a) desired)) → s' = s1 ∧ n = 0%nat).
Proof.
  intros Hnd Hexp Hev. unfold reconcileDependencySuppression, hbind, hget. rewrite Hexp. cbv beta iota zeta.
  pose proof (write_transitions (dp_now s1) desired (loadEffectiveParents (dp_rows s1)) (dp_assets s1) Hnd) as Hw.
  destruct (dp_assets s1) as [|a0 l0] eqn:Ha.
  { exists s1, 0%nat. split_and!; [done|by rewrite Ha|done|done|done]. }
  rewrite Hev. rewrite <-Ha in *. destruct (omap (transition desired _) (dp_assets s1)) as [|t ts] eqn:Ht.
  - exists s1, 0%nat. split_and!; [done|exact Hw|done|done|done].
  - eexists _, _. split_and!; [reflexivity|exact Hw|done|done|]. intros Hsame. exfalso.
    assert (t ∈ t :: ts) as Hin by left. rewrite <-Ht in Hin. apply list_elem_of_omap in Hin as (a & Hin & Htr).
    unfold transition in Htr. by rewrite <-(Hsame a Hin), Bool.eqb_reflx in Htr.
Qed.

(** A state in which every flag is at what the rule says of it. *)
Definition settled (now : Z) (desired : JsMap string bool) (s : DepState) : Prop :=
  evaluateSuppression now (suppression_state <$> dp_assets s) (loadEffectiveParents (dp_rows s)) = Some desired ∧
  ∀ a, a ∈ dp_assets s → as_dependencySuppressed a = default false (mget (as_id a) desired).

Lemma reconcile_settles s :
  NoDup (as_id <$> dp_assets s) →
  ∃ s' r desired, reconcileDependencySuppression s = (s', Ok r) ∧ dp_rows s' = dp_rows s ∧ dp_now s' = dp_now s ∧
    as_id <$> dp_assets s' = as_id <$> dp_assets s ∧ settled (dp_now s) desired s'.
Proof.
  intros Hnd. destruct (expire_tests_run s) as (s1 & Hexp & Hrows & Hnow & Hids & _).
  rewrite <-Hids in Hnd |- *. rewrite <-Hrows, <-Hnow.
  assert (ss_id <$> (suppression_state <$> dp_assets s1) = as_id <$> dp_assets s1) as Hss.
  { rewrite <-list_fmap_compose. by apply list_fmap_ext. }
  destruct (evaluateSuppression_total (dp_now s1) (suppression_state <$> dp_assets s1)
    (loadEffectiveParents (dp_rows s1))) as [desired Hev]; [by rewrite Hss|].
  destruct (reconcile_run s s1 desired Hnd Hexp Hev) as (s' & n & Hrun & Ha' & Hr' & Hn' & _).
  exists s', (mkReconcileResult (length (dp_assets s1)) n), desired. split_and!; [done..| |].
  { rewrite Ha', <-list_fmap_compose. apply list_fmap_ext. intros i a _. apply with_flag_facts. }
  split.
  - set (g := λ st, mkSuppressionAssetState (ss_id st) (ss_layer st) (ss_monitored st) (ss_monitorStatus st)
      (default false (mget (ss_id st) desired)) (ss_dependencyTestUntil st)).
    assert (suppression_state <$> dp_assets s' = g <$> (suppression_state <$> dp_assets s1)) as ->.
    { rewrite Ha', <-!list_fmap_compose. apply list_fmap_ext. intros i a _. apply with_flag_facts. }
    rewrite Hr', (evaluateSuppression_reads g (dp_now s1)); done.
  - intros a Hin. rewrite Ha' in Hin. apply list_elem_of_fmap in Hin as (b & -> & _).
    by destruct (with_flag_facts (dp_now s1) desired b) as (-> & _ & -> & _).
Qed.

(** A settled state stays settled, and a run leaves it alone, until a test ends. *)
Lemma reconcile_settled now now' desired s :
  NoDup (as_id <$> dp_assets s) → settled now desired s → now ≤ now' →
  (∀ a t, a ∈ dp_assets s → as_dependencyTestUntil a = Some t → now' < t) →
  reconcileDependencySuppression (set_dp_now now' s) =
    (set_dp_now now' s, Ok (mkReconcileResult (length (dp_assets s)) 0)).
Proof.
  intros Hnd [Hev Hflag] Hle Htests.
  destruct (expire_tests_run (set_dp_now now' s)) as (s2 & Hexp2 & _ & _ & _ & Hnone). rewrite Hnone in Hexp2.
  2: { intros a Hin. unfold test_expired. destruct (as_dependencyTestUntil a) as [t|] eqn:Ht; [|done].
       apply Z.leb_gt. by apply (Htests a). }
  destruct (reconcile_run (set_dp_now now' s) (set_dp_now now' s) desired) as (s3 & n3 & -> & _ & _ & _ & Hsame);
    [done|done| |].
  { rewrite <-Hev. cbn [dp_assets dp_rows dp_now set_dp_now]. rewrite <-(list_fmap_id (suppression_state <$> dp_assets s)) at 1.
    apply (evaluateSuppression_reads id); [done|].
    intros st (a & -> & Hin)%list_elem_of_fmap. unfold test_active. cbn.
    destruct (as_dependencyTestUntil a) as [t|] eqn:Ht; [|done].
    pose proof (Htests a t Hin Ht). by rewrite !(proj2 (Z.ltb_lt _ _)) by lia. }
  destruct Hsame as [-> ->]; [done|done].
Qed.

(** C21: the reconciler converges.  One run returns, leaves every asset's flag at
    what the suppression rule says of the state it leaves, touches no parent
    row, and every later run until a Dependency Test ends changes nothing. *)
Theorem reconcileDependencySuppression_converges s :
  NoDup (as_id <$> dp_assets s) →
  ∃ s' r desired, reconcileDependencySuppression s = (s', Ok r) ∧ dp_rows s' = dp_rows s ∧
    settled (dp_now s) desired s' ∧
    (∀ now', dp_now s ≤ now' → (∀ a t, a ∈ dp_assets s' → as_dependencyTestUntil a = Some t → now' < t) →
       reconcileDependencySuppression (set_dp_now now' s') =
         (set_dp_now now' s', Ok (mkReconcileResult (length (dp_assets s')) 0))).
Proof.
  intros Hnd. destruct (reconcile_settles s Hnd) as (s' & r & desired & Hrun & Hrows & _ & Hids & Hset).
  exists s', r, desired. split_and!; [done..|]. intros now' Hle Htests.
  apply (reconcile_settled (dp_now s) now' desired); [by rewrite Hids|done..].
Qed.

(** ** Examples *)

Definition dep_asset_row (id type : string) (status : option string) (layer : option Z) : AssetRow :=
  mkAssetRow id (Some id) None type JNull None true status layer false None None None.

(** [x] is pinned to [z] over its computed parent [y]; in [pinned_ex], [y] is pinned to [x] as well. *)
Definition override_ex : DepState :=
  mkDepState [dep_asset_row "x" "switch" None (Some 2); dep_asset_row "y" "switch" None (Some 1);
              dep_asset_row "z" "firewall" None (Some 1)]
    [mkDepRow "x" "y" Computed Lldp; mkDepRow "x" "z" Override Manual] [] [] 0 [].
Definition pinned_ex : DepState :=
  set_dp_rows (dp_rows override_ex ++ [mkDepRow "y" "x" Override Manual]) override_ex.

Lemma effective_children rows c p : effective rows c p → c ∈ dr_assetId <$> rows.
Proof.
  unfold effective. rewrite effectiveParentsOf_rows.
  assert (∀ b, p ∈ rows_of b rows c → c ∈ dr_assetId <$> rows) as Hr.
  { intros b (r & -> & [Hr Hb]%list_elem_of_In%filter_In)%list_elem_of_fmap.
    rewrite andb_true_iff, bool_decide_eq_true in Hb. destruct Hb as [_ <-].
    by apply list_elem_of_fmap_2, list_elem_of_In. }
  pose proof (Hr true). destruct (rows_of true rows c); eauto.
Qed.

(** Rows whose effective parents descend in [L] are acyclic. *)
Lemma acyclic_by_layers rows (L : Layers) :
  Forall (λ c, Forall (λ p, is_parent_edge L (mkDependencyEdge c p Manual) = true) (effectiveParentsOf rows c))
    (dr_assetId <$> rows) → acyclic rows.
Proof.
  intros Hall. refine (layered_acyclic _ L _). intros c p Hcp. rewrite Forall_forall in Hall.
  specialize (Hall c (effective_children _ _ _ Hcp)). rewrite Forall_forall in Hall.
  specialize (Hall p Hcp). by apply is_parent_edge_true in Hall.
Qed.

Lemma override_ex_acyclic : acyclic (dp_rows override_ex).
Proof. apply (acyclic_by_layers _ [("z", 1); ("x", 2)]%string). apply (bool_decide_eq_true_1 _). by vm_compute. Qed.
Lemma pinned_ex_acyclic : acyclic (dp_rows pinned_ex).
Proof. apply (acyclic_by_layers _ [("z", 1); ("x", 2); ("y", 3)]%string). apply (bool_decide_eq_true_1 _). by vm_compute. Qed.

Lemma putOverride_acyclic_witness :
  ∃ s', putOverride "y" ["x"%string] override_ex = (s', Ok ["x"%string]) ∧ acyclic (dp_rows s').
Proof.
  destruct (putOverride "y" ["x"%string] override_ex) as [s' r] eqn:Hrun.
  pose proof (putOverride_acyclic "y" ["x"%string] override_ex s' r override_ex_acyclic Hrun) as H.
  vm_compute in Hrun. injection Hrun as <- <-. eexists. split; [reflexivity|]. apply H. discriminate.
Defined.

Lemma reconcileDependencySuppression_converges_witness :
  ∃ s' r desired, reconcileDependencySuppression override_ex = (s', Ok r) ∧ settled 0 desired s'.
Proof.
  destruct (reconcileDependencySuppression_converges override_ex) as (s' & r & desired & Hrun & _ & Hset & _).
  - apply (bool_decide_eq_true_1 _). vm_compute. reflexivity.
  - exists s', r, desired. split; [exact Hrun|exact Hset].
Defined.

(** The empty override.  The comments on the endpoint and on
    [loadEffectiveParents] call it a "no parents" pin; what it does is drop the
    pin, without the cycle check: here an acyclic graph in which [x] is pinned
    to [z] and [y] to [x] becomes a cycle, because the computed parent of [x]
    is [y]. *)
Theorem empty_override_is_no_pin :
  ∃ s s', acyclic (dp_rows s) ∧ putOverride "x" [] s = (s', Ok []) ∧
    effectiveParentsOf (dp_rows s') "x" = ["y"%string] ∧ ¬ acyclic (dp_rows s').
Proof.
  exists pinned_ex. eexists. split; [exact pinned_ex_acyclic|]. split; [vm_compute; reflexivity|].
  split; [vm_compute; reflexivity|]. intros Hno. apply (Hno "x"%string).
  eapply tc_l; [|apply tc_once]; unfold effective; rewrite effectiveParentsOf_rows; vm_compute; left.
Qed.
