(* ===== verification/FmgWorker.v ===== *)
(** * The FortiManager worker

    [src/src/services/fmgWorker.ts]: per integration, a proxy lane that runs one
    task at a time in order of submission, and a native lane that only counts.
    The event loop runs one turn at a time, so a turn is one function: what a
    call of [submitProxy] or [submitNative], an abort, or the end of a task does
    up to the next [await].  [turn] is that function of the event, and the lane
    refines an abstract first-come-first-served server with the same events. *)

From S2P Require Import Prelude JsColl.

Inductive Outcome :=
  | Resolved
  | Rejected
  | AbortedBeforeSubmit
  | AbortedWhileQueued
  | AbortedBeforeDispatch.

(** A queued task; [qe_ticket] stands for the identity of the entry object. *)
Record QueueEntry := mkQueueEntry {
  qe_ticket : nat;
  qe_label : string;
  qe_signal : option nat;
}.
#[global] Instance entry_eq_dec : EqDecision QueueEntry.
Proof. solve_decision. Defined.

(** The fields of the class, the three gauges it publishes, and what its callers
    see: the signals aborted so far, the entries submitted and started, and the
    settled promises. *)
Record FmgWorker := mkFmgWorker {
  proxyQueue : list QueueEntry;
  proxyInFlight : option QueueEntry;
  proxyDraining : bool;
  nativeInFlight : Z;
  gaugeDepth : Z;
  gaugeInflight : Z;
  gaugeNative : Z;
  aborted : list nat;
  submitted : list QueueEntry;
  started : list QueueEntry;
  settled_log : list (QueueEntry * Outcome);
  nativeRunning : list nat;
  next_ticket : nat;
}.

(** [new FmgWorker(integrationId)] *)
Definition new_worker : FmgWorker :=
  mkFmgWorker [] None false 0 0 0 0 [] [] [] [] [] 0.

Definition is_aborted (w : FmgWorker) (signal : option nat) : bool :=
  match signal with Some s => bool_decide (s ∈ aborted w) | None => false end.

Definition set_queue (q : list QueueEntry) (w : FmgWorker) : FmgWorker :=
  mkFmgWorker q (proxyInFlight w) (proxyDraining w) (nativeInFlight w) (gaugeDepth w) (gaugeInflight w)
    (gaugeNative w) (aborted w) (submitted w) (started w) (settled_log w) (nativeRunning w) (next_ticket w).
Definition set_draining (b : bool) (w : FmgWorker) : FmgWorker :=
  mkFmgWorker (proxyQueue w) (proxyInFlight w) b (nativeInFlight w) (gaugeDepth w) (gaugeInflight w)
    (gaugeNative w) (aborted w) (submitted w) (started w) (settled_log w) (nativeRunning w) (next_ticket w).
Definition publishProxyDepth (w : FmgWorker) : FmgWorker :=
  mkFmgWorker (proxyQueue w) (proxyInFlight w) (proxyDraining w) (nativeInFlight w) (Z.of_nat (length (proxyQueue w)))
    (gaugeInflight w) (gaugeNative w) (aborted w) (submitted w) (started w) (settled_log w) (nativeRunning w) (next_ticket w).
Definition publishNativeInflight (w : FmgWorker) : FmgWorker :=
  mkFmgWorker (proxyQueue w) (proxyInFlight w) (proxyDraining w) (nativeInFlight w) (gaugeDepth w)
    (gaugeInflight w) (nativeInFlight w) (aborted w) (submitted w) (started w) (settled_log w) (nativeRunning w) (next_ticket w).
(** [entry.resolve(…)] or [entry.reject(…)] *)
Definition settle (e : QueueEntry) (o : Outcome) (w : FmgWorker) : FmgWorker :=
  mkFmgWorker (proxyQueue w) (proxyInFlight w) (proxyDraining w) (nativeInFlight w) (gaugeDepth w)
    (gaugeInflight w) (gaugeNative w) (aborted w) (submitted w) (started w) (settled_log w ++ [(e, o)])
    (nativeRunning w) (next_ticket w).
(** [this.proxyInFlight = entry; publishProxyInflight(1); entry.run()] *)
Definition start (e : QueueEntry) (w : FmgWorker) : FmgWorker :=
  mkFmgWorker (proxyQueue w) (Some e) (proxyDraining w) (nativeInFlight w) (gaugeDepth w) 1
    (gaugeNative w) (aborted w) (submitted w) (started w ++ [e]) (settled_log w) (nativeRunning w) (next_ticket w).
(** [this.proxyInFlight = null; publishProxyInflight(0)] *)
Definition finish (w : FmgWorker) : FmgWorker :=
  mkFmgWorker (proxyQueue w) None (proxyDraining w) (nativeInFlight w) (gaugeDepth w) 0
    (gaugeNative w) (aborted w) (submitted w) (started w) (settled_log w) (nativeRunning w) (next_ticket w).

(** The loop of [drainProxy] from its test to the next [await]; [q] is the queue. *)
Fixpoint drain_loop (q : list QueueEntry) (w : FmgWorker) : FmgWorker :=
  match q with
  | [] => set_draining false (set_queue [] w)
  | entry :: q' =>
      let w := publishProxyDepth (set_queue q' w) in
      if is_aborted w (qe_signal entry) then drain_loop q' (settle entry AbortedBeforeDispatch w)
      else start entry w
  end.

Definition drainProxy (w : FmgWorker) : FmgWorker :=
  if proxyDraining w then w else drain_loop (proxyQueue w) (set_draining true w).

(** A fresh entry object, recorded as submitted. *)
Definition push_entry (e : QueueEntry) (w : FmgWorker) : FmgWorker :=
  mkFmgWorker (proxyQueue w ++ [e]) (proxyInFlight w) (proxyDraining w) (nativeInFlight w) (gaugeDepth w)
    (gaugeInflight w) (gaugeNative w) (aborted w) (submitted w ++ [e]) (started w) (settled_log w)
    (nativeRunning w) (S (next_ticket w)).
Definition refuse_entry (e : QueueEntry) (w : FmgWorker) : FmgWorker :=
  settle e AbortedBeforeSubmit
    (mkFmgWorker (proxyQueue w) (proxyInFlight w) (proxyDraining w) (nativeInFlight w) (gaugeDepth w)
      (gaugeInflight w) (gaugeNative w) (aborted w) (submitted w ++ [e]) (started w) (settled_log w)
      (nativeRunning w) (S (next_ticket w))).

Definition submitProxy (label : string) (signal : option nat) (w : FmgWorker) : FmgWorker :=
  let entry := mkQueueEntry (next_ticket w) label signal in
  if is_aborted w signal then refuse_entry entry w
  else drainProxy (publishProxyDepth (push_entry entry w)).

(** The task in flight ends: the [await] of [drainProxy] resumes and the loop goes on. *)
Definition complete (o : bool) (w : FmgWorker) : option FmgWorker :=
  match proxyInFlight w with
  | None => None
  | Some e => let w := finish (settle e (if o then Resolved else Rejected) w) in Some (drain_loop (proxyQueue w) w)
  end.

(** [onAbort] of one entry: found in the queue, it is spliced out and rejected. *)
Definition onAbort (e : QueueEntry) (w : FmgWorker) : FmgWorker :=
  if bool_decide (e ∈ proxyQueue w)
  then settle e AbortedWhileQueued
         (publishProxyDepth (set_queue (List.filter (λ x, negb (bool_decide (x = e))) (proxyQueue w)) w))
  else w.

Definition of_signal (s : nat) (e : QueueEntry) : bool := bool_decide (qe_signal e = Some s).

(** The signal fires: its listeners run in the order they were added. *)
Definition abort (s : nat) (w : FmgWorker) : FmgWorker :=
  let listeners := List.filter (of_signal s) (proxyQueue w) in
  let w := mkFmgWorker (proxyQueue w) (proxyInFlight w) (proxyDraining w) (nativeInFlight w) (gaugeDepth w)
    (gaugeInflight w) (gaugeNative w) (s :: aborted w) (submitted w) (started w) (settled_log w)
    (nativeRunning w) (next_ticket w) in
  fold_left (λ w e, onAbort e w) listeners w.

Definition set_native (n : Z) (running : list nat) (ticket : nat) (w : FmgWorker) : FmgWorker :=
  mkFmgWorker (proxyQueue w) (proxyInFlight w) (proxyDraining w) n (gaugeDepth w) (gaugeInflight w)
    (gaugeNative w) (aborted w) (submitted w) (started w) (settled_log w) running ticket.

(** [submitNative] up to the [await run()]; an aborted signal throws at once. *)
Definition submitNative (signal : option nat) (w : FmgWorker) : FmgWorker :=
  if is_aborted w signal then w
  else publishNativeInflight (set_native (nativeInFlight w + 1) (next_ticket w :: nativeRunning w) (S (next_ticket w)) w).

(** The [finally] of [submitNative]. *)
Definition completeNative (t : nat) (w : FmgWorker) : option FmgWorker :=
  if bool_decide (t ∈ nativeRunning w)
  then Some (publishNativeInflight (set_native (nativeInFlight w - 1)
         (List.filter (λ x, negb (bool_decide (x = t))) (nativeRunning w)) (next_ticket w) w))
  else None.

(** What can happen to a worker between two awaits. *)
Inductive LaneEvent :=
  | SubmitProxy (label : string) (signal : option nat)
  | TaskEnds (ok : bool)
  | SignalFires (s : nat)
  | SubmitNative (signal : option nat)
  | NativeEnds (t : nat).

(** One turn of the event loop; [None] when the event cannot happen. *)
Definition turn (ev : LaneEvent) (w : FmgWorker) : option FmgWorker :=
  match ev with
  | SubmitProxy label signal => Some (submitProxy label signal w)
  | TaskEnds o => complete o w
  | SignalFires s => Some (abort s w)
  | SubmitNative signal => Some (submitNative signal w)
  | NativeEnds t => completeNative t w
  end.
Definition lane_turn (w w' : FmgWorker) : Prop := ∃ ev, turn ev w = Some w'.

(** A sequence of events, one after the other. *)
Fixpoint after {S} (f : LaneEvent → S → option S) (evs : list LaneEvent) (s : S) : option S :=
  match evs with [] => Some s | ev :: evs' => f ev s ≫= after f evs' end.

(** ** The registry *)

(** [workers] with the workers it holds; [getFmgWorker] returns the entry of the
    id, creating it on the first call. *)
Definition getFmgWorker (integrationId : string) (workers : JsMap string FmgWorker) :
    JsMap string FmgWorker * FmgWorker :=
  match mget integrationId workers with
  | Some worker => (workers, worker)
  | None => (mset integrationId new_worker workers, new_worker)
  end.

(** ** The invariant of a lane *)

Definition in_flight (w : FmgWorker) : list QueueEntry :=
  match proxyInFlight w with Some e => [e] | None => [] end.

Record lane_ok (w : FmgWorker) : Prop := {
  lo_draining : proxyDraining w = match proxyInFlight w with Some _ => true | None => false end;
  lo_busy : proxyInFlight w = None → proxyQueue w = [];
  lo_live : ∀ e, e ∈ proxyQueue w → is_aborted w (qe_signal e) = false;
  lo_depth : gaugeDepth w = Z.of_nat (length (proxyQueue w));
  lo_inflight : gaugeInflight w = Z.of_nat (length (in_flight w));
  lo_native : nativeInFlight w = Z.of_nat (length (nativeRunning w)) ∧ gaugeNative w = nativeInFlight w;
  lo_running : NoDup (nativeRunning w) ∧ ∀ t, t ∈ nativeRunning w → (t < next_ticket w)%nat;
  lo_tickets : NoDup (submitted w) ∧ ∀ e, e ∈ submitted w → (qe_ticket e < next_ticket w)%nat;
  lo_accounted : submitted w ≡ₚ (settled_log w).*1 ++ in_flight w ++ proxyQueue w;
  lo_order : started w ++ proxyQueue w `sublist_of` submitted w;
  lo_dispatched : ∀ e o, (e, o) ∈ settled_log w → o ≠ AbortedBeforeDispatch;
}.

Lemma lane_ok_new : lane_ok new_worker.
Proof. split; try done; try (split; [constructor|]); set_solver. Qed.

(** The queue of a lane at rest between the end of one task and the next loop test. *)
Record lane_idle (w : FmgWorker) : Prop := {
  li_draining : proxyDraining w = true;
  li_none : proxyInFlight w = None;
  li_live : ∀ e, e ∈ proxyQueue w → is_aborted w (qe_signal e) = false;
  li_depth : gaugeDepth w = Z.of_nat (length (proxyQueue w));
  li_inflight : gaugeInflight w = 0;
  li_native : nativeInFlight w = Z.of_nat (length (nativeRunning w)) ∧ gaugeNative w = nativeInFlight w;
  li_running : NoDup (nativeRunning w) ∧ ∀ t, t ∈ nativeRunning w → (t < next_ticket w)%nat;
  li_tickets : NoDup (submitted w) ∧ ∀ e, e ∈ submitted w → (qe_ticket e < next_ticket w)%nat;
  li_accounted : submitted w ≡ₚ (settled_log w).*1 ++ proxyQueue w;
  li_order : started w ++ proxyQueue w `sublist_of` submitted w;
  li_dispatched : ∀ e o, (e, o) ∈ settled_log w → o ≠ AbortedBeforeDispatch;
}.

(** The dead branch stays dead: the loop starts the head of the queue, if any. *)
Lemma drain_loop_idle w :
  lane_idle w →
  drain_loop (proxyQueue w) w =
  match proxyQueue w with
  | [] => set_draining false (set_queue [] w)
  | e :: q => start e (publishProxyDepth (set_queue q w))
  end.
Proof.
  intros Hi. destruct (proxyQueue w) as [|e q] eqn:Hq; [done|]. cbn [drain_loop].
  assert (is_aborted w (qe_signal e) = false) as Hl by (apply Hi; rewrite Hq; left).
  by replace (is_aborted (publishProxyDepth (set_queue q w)) (qe_signal e)) with false.
Qed.

Lemma drain_loop_ok w : lane_idle w → lane_ok (drain_loop (proxyQueue w) w).
Proof.
  intros Hi. rewrite drain_loop_idle by done. destruct Hi as [Hd Hn Hl Hdp Hif Hnat Hrun Htk Hacc Hord Hdis].
  destruct (proxyQueue w) as [|e q] eqn:Hq; split; cbn; try done.
  - by rewrite Hn.
  - unfold in_flight. cbn. by rewrite Hn, Hif.
  - unfold in_flight. cbn. by rewrite Hn.
  - intros x Hx. apply Hl. by right.
  - by rewrite <-app_assoc.
Qed.

Lemma complete_idle (o : bool) w e :
  lane_ok w → proxyInFlight w = Some e → lane_idle (finish (settle e (if o then Resolved else Rejected) w)).
Proof.
  intros Hok He. pose proof (lo_draining w Hok) as Hd. pose proof (lo_accounted w Hok) as Hacc.
  unfold in_flight in Hacc. rewrite He in Hd, Hacc.
  split; cbn; try done; try apply Hok.
  - rewrite fmap_app, <-app_assoc. exact Hacc.
  - intros x o' [Hx|Hx]%elem_of_app; [by eapply Hok|]. apply list_elem_of_singleton in Hx as [= -> ->]. by destruct o.
Qed.

Lemma lane_ok_complete o w w' : lane_ok w → complete o w = Some w' → lane_ok w'.
Proof.
  intros Hok. unfold complete. destruct (proxyInFlight w) as [e|] eqn:He; [|done]. intros [= <-].
  by apply (drain_loop_ok (finish (settle e _ w))), complete_idle.
Qed.

Lemma fresh_entry w label signal :
  lane_ok w → mkQueueEntry (next_ticket w) label signal ∉ submitted w.
Proof. intros Hok Hin. apply (proj2 (lo_tickets w Hok)) in Hin. cbn in Hin. lia. Qed.

Lemma push_entry_queue_ok w e :
  lane_ok w → qe_ticket e = next_ticket w → e ∉ submitted w →
  NoDup (submitted w ++ [e]) ∧ (∀ x, x ∈ submitted w ++ [e] → (qe_ticket x < S (next_ticket w))%nat) ∧
  started w ++ proxyQueue w ++ [e] `sublist_of` submitted w ++ [e].
Proof.
  intros Hok Ht Hf. split_and!.
  - apply NoDup_app. split_and!; [apply Hok| |apply NoDup_singleton]. set_solver.
  - intros x [Hx|Hx]%elem_of_app; [apply Hok in Hx; lia|]. apply list_elem_of_singleton in Hx as ->. lia.
  - rewrite app_assoc. apply sublist_app; [apply Hok|done].
Qed.

Lemma lane_ok_submit label signal w : lane_ok w → lane_ok (submitProxy label signal w).
Proof.
  intros Hok. unfold submitProxy. set (e := mkQueueEntry (next_ticket w) label signal).
  pose proof (fresh_entry w label signal Hok) as Hf. fold e in Hf.
  destruct (push_entry_queue_ok w e Hok eq_refl Hf) as (Hnd & Htk & Hord).
  destruct (is_aborted w signal) eqn:Ha.
  - split; cbn; try apply Hok; try done.
    + split; [apply Hok|]. intros t Ht. apply Hok in Ht. lia.
    + rewrite fmap_app, <-app_assoc. cbn. rewrite (lo_accounted w Hok) at 1. rewrite <-app_assoc.
      apply Permutation_app_head. by rewrite (Permutation_app_comm _ [e]).
    + apply sublist_inserts_r, Hok.
    + intros x o [Hx|Hx]%elem_of_app; [by eapply Hok|]. by apply list_elem_of_singleton in Hx as [= -> ->].
  - unfold drainProxy. cbn [proxyDraining publishProxyDepth push_entry]. rewrite (lo_draining w Hok).
    assert (∀ x, x ∈ proxyQueue w ++ [e] → is_aborted w (qe_signal x) = false) as Hlive.
    { intros x [Hx|Hx]%elem_of_app; [by apply Hok|]. by apply list_elem_of_singleton in Hx as ->. }
    assert (∀ t, t ∈ nativeRunning w → (t < S (next_ticket w))%nat) as Hrun.
    { intros t Ht. apply Hok in Ht. lia. }
    pose proof (lo_accounted w Hok) as Hacc. unfold in_flight in Hacc.
    destruct (proxyInFlight w) as [f|] eqn:Hfl.
    + split; cbn; try apply Hok; try done; rewrite ?Hfl; try done.
      * split; [apply Hok|done].
      * rewrite Hacc, <-!app_assoc. unfold in_flight. cbn. by rewrite Hfl.
    + apply (drain_loop_ok (set_draining true (publishProxyDepth (push_entry e w)))).
      split; cbn; try apply Hok; try done.
      * rewrite (lo_inflight w Hok). unfold in_flight. by rewrite Hfl.
      * split; [apply Hok|done].
      * by rewrite Hacc, <-!app_assoc.
Qed.

(** The listeners of a signal, one after the other: their entries leave the queue. *)
Definition without (l : list QueueEntry) (q : list QueueEntry) : list QueueEntry :=
  List.filter (λ x, negb (bool_decide (x ∈ l))) q.
#[local] Arguments without : simpl never.
Definition yanked (l : list QueueEntry) (w : FmgWorker) : FmgWorker :=
  mkFmgWorker (without l (proxyQueue w)) (proxyInFlight w) (proxyDraining w) (nativeInFlight w)
    (Z.of_nat (length (without l (proxyQueue w)))) (gaugeInflight w) (gaugeNative w) (aborted w) (submitted w)
    (started w) (settled_log w ++ ((λ e, (e, AbortedWhileQueued)) <$> l)) (nativeRunning w) (next_ticket w).

Lemma without_nil q : without [] q = q.
Proof.
  unfold without. induction q as [|x q IH]; [done|]. cbn.
  by rewrite bool_decide_eq_false_2, IH by apply not_elem_of_nil.
Qed.
Lemma without_cons e l q : without l (List.filter (λ x, negb (bool_decide (x = e))) q) = without (e :: l) q.
Proof.
  unfold without. induction q as [|x q IH]; [done|]. cbn [List.filter]. destruct (decide (x = e)) as [->|Hne].
  - rewrite (bool_decide_eq_true_2 (e = e)), (bool_decide_eq_true_2 (e ∈ e :: l)) by (done || left). done.
  - rewrite (bool_decide_eq_false_2 (x = e)) by done. cbn [negb List.filter]. rewrite IH.
    by rewrite (bool_decide_ext (x ∈ e :: l) (x ∈ l)) by (rewrite elem_of_cons; naive_solver).
Qed.

Lemma onAbort_all l w :
  gaugeDepth w = Z.of_nat (length (proxyQueue w)) → NoDup l → l ⊆ proxyQueue w →
  fold_left (λ w e, onAbort e w) l w = yanked l w.
Proof.
  revert w. induction l as [|e l IH]; intros w Hg Hl Hsub; cbn [fold_left].
  - destruct w. unfold yanked. cbn in *. by rewrite without_nil, app_nil_r, <-Hg.
  - apply NoDup_cons in Hl as [He Hl]. unfold onAbort at 2. rewrite bool_decide_eq_true_2 by set_solver.
    rewrite IH; [|done|done|].
    + unfold yanked. cbn. by rewrite without_cons, <-app_assoc.
    + cbn. intros x Hx. apply list_elem_of_In, filter_In. split; [apply list_elem_of_In; set_solver|].
      by rewrite bool_decide_eq_false_2 by set_solver.
Qed.

Lemma partition_perm {A} (p : A → bool) l : l ≡ₚ List.filter p l ++ List.filter (λ x, negb (p x)) l.
Proof.
  induction l as [|x l IH]; [done|]. cbn. destruct (p x); cbn; [by constructor|].
  by rewrite <-Permutation_middle; constructor.
Qed.
Lemma filter_sublist {A} (p : A → bool) l : List.filter p l `sublist_of` l.
Proof. induction l as [|x l IH]; [done|]. cbn. destruct (p x); by constructor. Qed.

Lemma queue_NoDup w : lane_ok w → NoDup (proxyQueue w).
Proof.
  intros Hok. pose proof (proj1 (lo_tickets w Hok)) as Hnd. rewrite (lo_accounted w Hok), app_assoc in Hnd.
  by apply NoDup_app in Hnd as (_ & _ & ?).
Qed.

Lemma without_signal s q :
  without (List.filter (of_signal s) q) q = List.filter (λ x, negb (of_signal s x)) q.
Proof.
  unfold without. apply List.filter_ext_in. intros x Hx. f_equal. apply eq_true_iff_eq.
  rewrite bool_decide_eq_true, list_elem_of_In, filter_In. tauto.
Qed.

(** Aborting yanks the queued entries of that signal and nothing else. *)
Lemma abort_spec s w :
  lane_ok w →
  let L := List.filter (of_signal s) (proxyQueue w) in
  abort s w = mkFmgWorker (List.filter (λ x, negb (of_signal s x)) (proxyQueue w)) (proxyInFlight w) (proxyDraining w)
    (nativeInFlight w) (Z.of_nat (length (List.filter (λ x, negb (of_signal s x)) (proxyQueue w)))) (gaugeInflight w)
    (gaugeNative w) (s :: aborted w) (submitted w) (started w)
    (settled_log w ++ ((λ e, (e, AbortedWhileQueued)) <$> L)) (nativeRunning w) (next_ticket w).
Proof.
  intros Hok L. unfold abort. rewrite onAbort_all.
  - unfold yanked. cbn. by rewrite without_signal.
  - apply Hok.
  - eapply sublist_NoDup; [apply queue_NoDup, Hok|apply filter_sublist].
  - cbn. intros x Hx. by apply list_elem_of_In, filter_In in Hx as [?%list_elem_of_In _].
Qed.

Lemma lane_ok_abort s w : lane_ok w → lane_ok (abort s w).
Proof.
  intros Hok. rewrite abort_spec by done. split; cbn; try apply Hok; try done.
  - intros Hn. by rewrite (lo_busy w Hok Hn).
  - intros e [He Hs]%list_elem_of_In%filter_In. apply list_elem_of_In in He. apply (lo_live w Hok) in He.
    unfold is_aborted in *. cbn. destruct (qe_signal e) as [s'|] eqn:Hsig; [|done].
    unfold of_signal in Hs. rewrite Hsig in Hs. rewrite bool_decide_eq_false in He |- *.
    rewrite negb_true_iff, bool_decide_eq_false in Hs. set_solver.
  - etrans; [exact (lo_accounted w Hok)|]. rewrite fmap_app, <-list_fmap_compose, <-app_assoc.
    apply Permutation_app_head. unfold in_flight. cbn [proxyInFlight]. set (L := List.filter (of_signal s) (proxyQueue w)).
    assert (fst ∘ (λ e, (e, AbortedWhileQueued)) <$> L = L) as -> by apply list_fmap_id.
    etrans; [apply Permutation_app_head, (partition_perm (of_signal s))|]. fold L. rewrite !app_assoc. apply Permutation_app_tail, Permutation_app_comm.
  - etrans; [|apply Hok]. apply sublist_app; [done|apply filter_sublist].
  - intros e o [He|He]%elem_of_app; [by eapply Hok|]. by apply list_elem_of_fmap in He as (x & [= -> ->] & _).
Qed.

Lemma lane_ok_native signal w : lane_ok w → lane_ok (submitNative signal w).
Proof.
  intros Hok. unfold submitNative. destruct (is_aborted w signal); [done|]. split; cbn; try apply Hok.
  - rewrite (proj1 (lo_native w Hok)). lia.
  - split; [constructor; [intros Hin%(lo_running w Hok); lia|apply Hok]|].
    intros t [->|Ht%(lo_running w Hok)]%elem_of_cons; lia.
  - split; [apply Hok|]. intros e He%(lo_tickets w Hok). lia.
Qed.

Lemma lane_ok_completeNative t w w' : lane_ok w → completeNative t w = Some w' → lane_ok w'.
Proof.
  intros Hok. unfold completeNative. case_bool_decide as Ht; [|done]. intros [= <-]. split; cbn; try apply Hok.
  - split; [|done]. rewrite (proj1 (lo_native w Hok)). destruct (lo_running w Hok) as [Hnd _].
    clear -Ht Hnd. induction (nativeRunning w) as [|x l IH]; [by apply elem_of_nil in Ht|].
    apply NoDup_cons in Hnd as [Hx Hnd]. cbn. destruct (decide (x = t)) as [->|Hne].
    + rewrite bool_decide_eq_true_2 by done. cbn.
      assert (List.filter (λ x, negb (bool_decide (x = t))) l = l) as ->; [|lia].
      clear -Hx. induction l as [|y l IH]; [done|]. cbn. rewrite bool_decide_eq_false_2 by set_solver.
      cbn. rewrite IH by set_solver. done.
    + rewrite bool_decide_eq_false_2 by done. cbn [negb length].
      assert (t ∈ l) as Htl by set_solver. specialize (IH Htl Hnd). lia.
  - destruct (lo_running w Hok) as [Hnd Hlt]. split.
    + eapply sublist_NoDup; [exact Hnd|apply filter_sublist].
    + intros x Hx. apply Hlt. by apply list_elem_of_In, filter_In in Hx as [?%list_elem_of_In _].
Qed.

Lemma lane_turn_ok w w' : lane_turn w w' → lane_ok w → lane_ok w'.
Proof.
  intros [[] Hturn] Hok; cbn in Hturn;
    first [injection Hturn as <-; eauto using lane_ok_submit, lane_ok_abort, lane_ok_native
          |eauto using lane_ok_complete, lane_ok_completeNative].
Qed.

(** ** The abstract server *)

(** First come, first served, one at a time: who waits, who is served, who has
    been taken so far, what was answered, the signals that have fired, the native
    calls under way and the number of calls.  It has no drain flag, no loop, no
    gauges and no listeners. *)
Record Server := mkServer {
  waiting : list QueueEntry;
  serving : option QueueEntry;
  taken_so_far : list QueueEntry;
  answered : list (QueueEntry * Outcome);
  fired : list nat;
  natives : list nat;
  calls : nat;
}.
Definition idle_server : Server := mkServer [] None [] [] [] [] 0.

Definition has_fired (s : Server) (signal : option nat) : bool :=
  match signal with Some x => bool_decide (x ∈ fired s) | None => false end.

(** A free server takes the first of those who wait. *)
Definition take_next (s : Server) : Server :=
  match serving s, waiting s with
  | None, e :: q =>
      mkServer q (Some e) (taken_so_far s ++ [e]) (answered s) (fired s) (natives s) (calls s)
  | _, _ => s
  end.

Definition serve (ev : LaneEvent) (s : Server) : option Server :=
  match ev with
  | SubmitProxy label signal =>
      let e := mkQueueEntry (calls s) label signal in
      Some (if has_fired s signal
            then mkServer (waiting s) (serving s) (taken_so_far s) (answered s ++ [(e, AbortedBeforeSubmit)])
                   (fired s) (natives s) (S (calls s))
            else take_next (mkServer (waiting s ++ [e]) (serving s) (taken_so_far s) (answered s) (fired s) (natives s)
                              (S (calls s))))
  | TaskEnds ok =>
      match serving s with
      | None => None
      | Some e => Some (take_next (mkServer (waiting s) None (taken_so_far s)
                    (answered s ++ [(e, if ok then Resolved else Rejected)]) (fired s) (natives s) (calls s)))
      end
  | SignalFires x =>
      Some (mkServer (List.filter (λ e, negb (of_signal x e)) (waiting s)) (serving s) (taken_so_far s)
        (answered s ++ ((λ e, (e, AbortedWhileQueued)) <$> List.filter (of_signal x) (waiting s)))
        (x :: fired s) (natives s) (calls s))
  | SubmitNative signal =>
      Some (if has_fired s signal then s
            else mkServer (waiting s) (serving s) (taken_so_far s) (answered s) (fired s) (calls s :: natives s) (S (calls s)))
  | NativeEnds t =>
      if bool_decide (t ∈ natives s)
      then Some (mkServer (waiting s) (serving s) (taken_so_far s) (answered s) (fired s)
                   (List.filter (λ x, negb (bool_decide (x = t))) (natives s)) (calls s))
      else None
  end.

(** What a caller can observe of a worker. *)
Definition as_server (w : FmgWorker) : Server :=
  mkServer (proxyQueue w) (proxyInFlight w) (started w) (settled_log w) (aborted w) (nativeRunning w) (next_ticket w).

Lemma drain_loop_server w : lane_idle w → as_server (drain_loop (proxyQueue w) w) = take_next (as_server w).
Proof.
  intros Hi. rewrite drain_loop_idle by done. unfold as_server, take_next. cbn. rewrite (li_none w Hi).
  destruct (proxyQueue w) as [|e q] eqn:Hq; cbn; [by rewrite (li_none w Hi)|done].
Qed.

(** The state [submitProxy] drains when the lane was at rest. *)
Lemma submit_idle e w :
  lane_ok w → proxyInFlight w = None → qe_ticket e = next_ticket w → e ∉ submitted w →
  is_aborted w (qe_signal e) = false → lane_idle (set_draining true (publishProxyDepth (push_entry e w))).
Proof.
  intros Hok Hfl Ht Hf Ha. destruct (push_entry_queue_ok w e Hok Ht Hf) as (Hnd & Htk & Hord).
  pose proof (lo_accounted w Hok) as Hacc. unfold in_flight in Hacc. rewrite Hfl in Hacc.
  split; cbn; try apply Hok; try done.
  - intros x [Hx|Hx]%elem_of_app; [by apply Hok|]. by apply list_elem_of_singleton in Hx as ->.
  - rewrite (lo_inflight w Hok). unfold in_flight. by rewrite Hfl.
  - split; [apply Hok|]. intros t Hr. apply Hok in Hr. lia.
  - by rewrite Hacc, <-!app_assoc.
Qed.

Lemma drainProxy_idle w : proxyDraining w = false → drainProxy w = drain_loop (proxyQueue w) (set_draining true w).
Proof. intros Hd. unfold drainProxy. by rewrite Hd. Qed.

Lemma submitProxy_server label signal w :
  lane_ok w → serve (SubmitProxy label signal) (as_server w) = Some (as_server (submitProxy label signal w)).
Proof.
  intros Hok. unfold serve, submitProxy, has_fired. cbn [calls fired as_server].
  set (e := mkQueueEntry (next_ticket w) label signal).
  fold (is_aborted w signal). destruct (is_aborted w signal) eqn:Ha; [done|]. f_equal.
  pose proof (lo_draining w Hok) as Hd. destruct (proxyInFlight w) as [f|] eqn:Hf.
  - unfold drainProxy. cbn [proxyDraining publishProxyDepth push_entry]. rewrite Hd.
    unfold as_server, take_next. cbn. by rewrite Hf.
  - rewrite drainProxy_idle by exact Hd.
    pose proof (submit_idle e w Hok Hf eq_refl (fresh_entry w label signal Hok) Ha) as Hi.
    apply drain_loop_server in Hi. symmetry. etrans; [exact Hi|].
    unfold as_server. cbn [waiting serving taken_so_far answered fired natives calls proxyQueue proxyInFlight started settled_log aborted
      nativeRunning next_ticket set_draining publishProxyDepth push_entry]. by rewrite Hf.
Qed.

Lemma turn_serves ev w : lane_ok w → as_server <$> turn ev w = serve ev (as_server w).
Proof.
  intros Hok. destruct ev as [label signal|o|x|signal|t]; cbn [turn serve fmap option_fmap option_map].
  - symmetry. by apply submitProxy_server.
  - unfold complete. cbn [serving as_server]. destruct (proxyInFlight w) as [e|] eqn:He; [|done]. cbn [fmap option_fmap option_map].
    f_equal. etrans; [apply drain_loop_server, complete_idle; done|done].
  - f_equal. by rewrite abort_spec.
  - f_equal. unfold submitNative, has_fired. cbn [fired as_server]. fold (is_aborted w signal).
    by destruct (is_aborted w signal).
  - unfold completeNative. cbn [natives as_server]. by case_bool_decide.
Qed.

(** C24: the proxy lane is a first-come-first-served server that serves one
    request at a time.  For every sequence of submissions, ends of tasks, fired
    signals and native calls, the worker can go through it exactly when the
    server can, and then queue, request in flight, requests started and answers
    given are the server's.  The server takes the first waiting request whenever
    it is free, and its requests start in the order they were submitted. *)
Theorem proxy_lane_refines_server evs :
  as_server <$> after turn evs new_worker = after serve evs idle_server ∧
  ∀ w, after turn evs new_worker = Some w →
    started w ++ proxyQueue w `sublist_of` submitted w ∧ (proxyInFlight w = None → proxyQueue w = []).
Proof.
  change idle_server with (as_server new_worker). pose proof lane_ok_new as Hok. revert Hok.
  generalize new_worker. induction evs as [|ev evs IH]; intros w Hok.
  - split; [done|]. intros w' [= <-]. split; apply Hok.
  - cbn [after]. rewrite <-turn_serves by done. destruct (turn ev w) as [w1|] eqn:Ht; [|done]. cbn.
    apply IH. eapply lane_turn_ok; [by exists ev|done].
Qed.

(** The worker's books are right in every reachable state: it is idle only
    when nothing waits, every submitted request is in exactly one place
    (settled once, in flight, or queued), requests start in submission order,
    the three gauges show the real counts, the native counter is the number of
    native calls under way, and no queued request carries a fired signal, so
    the "aborted before dispatch" branch never runs. *)
Theorem fmg_worker_books w :
  rtc lane_turn new_worker w →
  (proxyInFlight w = None → proxyQueue w = []) ∧
  NoDup (submitted w) ∧ submitted w ≡ₚ (settled_log w).*1 ++ in_flight w ++ proxyQueue w ∧
  started w ++ proxyQueue w `sublist_of` submitted w ∧
  gaugeDepth w = Z.of_nat (length (proxyQueue w)) ∧ gaugeInflight w = Z.of_nat (length (in_flight w)) ∧
  gaugeNative w = Z.of_nat (length (nativeRunning w)) ∧
  ∀ e o, (e, o) ∈ settled_log w → o ≠ AbortedBeforeDispatch.
Proof.
  intros Hsteps. assert (lane_ok w) as Hok.
  { revert w Hsteps. apply rtc_ind_r; [apply lane_ok_new|]. intros; by eapply lane_turn_ok. }
  destruct Hok as [_ Hbusy _ Hdepth Hinf [Hnat Hgn] _ [Hnd _] Hacc Hord Hdis].
  split_and!; try done. by rewrite Hgn.
Qed.

(** The end of tasks, one after the other. *)
Fixpoint complete_all (os : list bool) (w : FmgWorker) : option FmgWorker :=
  match os with
  | [] => Some w
  | o :: os' => match complete o w with Some w' => complete_all os' w' | None => None end
  end.

(** No proxied request starves.  In every reachable state, the request at
    position [i] of the queue is in flight after [i + 1] tasks have ended,
    however they end. *)
Theorem queued_request_starts w i e os :
  rtc lane_turn new_worker w → proxyQueue w !! i = Some e → length os = S i →
  ∃ w', complete_all os w = Some w' ∧ proxyInFlight w' = Some e.
Proof.
  intros Hsteps. assert (lane_ok w) as Hok.
  { revert w Hsteps. apply rtc_ind_r; [apply lane_ok_new|]. intros; by eapply lane_turn_ok. }
  clear Hsteps. revert w os Hok. induction i as [|i IH]; intros w os Hok Hi Hlen; destruct os as [|o os]; try done.
  all: destruct (proxyInFlight w) as [f|] eqn:Hf;
    [|by rewrite (lo_busy w Hok Hf) in Hi]; cbn [complete_all]; unfold complete; rewrite Hf;
    set (w1 := finish (settle f (if o then Resolved else Rejected) w)).
  all: assert (lane_idle w1) as Hidle by (by apply complete_idle);
    assert (proxyQueue w1 = proxyQueue w) as Hq by done; rewrite (drain_loop_idle w1 Hidle).
  all: destruct (proxyQueue w1) as [|x q] eqn:Hq1; [rewrite <-Hq in Hi; by destruct i || done|].
  - destruct os; [|done]. rewrite <-Hq in Hi. injection Hi as ->. by eexists.
  - apply IH; [|by rewrite <-Hq in Hi|by injection Hlen].
    pose proof (drain_loop_ok w1 Hidle) as Hok'. by rewrite (drain_loop_idle w1 Hidle), Hq1 in Hok'.
Qed.

(** The registry hands out one worker per integration for the life of the process. *)
Lemma getFmgWorker_stable id workers :
  let '(workers', worker) := getFmgWorker id workers in
  mget id workers' = Some worker ∧ getFmgWorker id workers' = (workers', worker) ∧
  ∀ id', id' ≠ id → mget id' workers' = mget id' workers.
Proof.
  unfold getFmgWorker. destruct (mget id workers) as [x|] eqn:Hx.
  - by rewrite Hx.
  - rewrite mget_mset_eq. split_and!; [done|done|]. intros id' Hne. by apply mget_mset_ne.
Qed.

(** ** Examples *)

(** Two requests, the second one waiting. *)
Definition lane_ex : FmgWorker := submitProxy "b" (Some 7%nat) (submitProxy "a" None new_worker).
Lemma lane_ex_reachable : rtc lane_turn new_worker lane_ex.
Proof.
  apply (rtc_l _ _ (submitProxy "a" None new_worker)); [exists (SubmitProxy "a" None); cbn [turn]; reflexivity|].
  apply rtc_once. exists (SubmitProxy "b" (Some 7%nat)). unfold lane_ex. cbn [turn]. reflexivity.
Qed.

Lemma proxy_lane_refines_server_witness :
  let evs := [SubmitProxy "a" None; SubmitProxy "b" (Some 7%nat); SubmitProxy "c" None; SignalFires 7; TaskEnds true] in
  ∃ w, after turn evs new_worker = Some w ∧ qe_label <$> started w = ["a"; "c"]%string ∧
    started w ++ proxyQueue w `sublist_of` submitted w.
Proof.
  intros evs. eexists. split; [vm_compute; reflexivity|]. split; [reflexivity|].
  apply (proxy_lane_refines_server evs). vm_compute. reflexivity.
Defined.

Lemma fmg_worker_books_witness :
  gaugeDepth lane_ex = 1 ∧ gaugeDepth lane_ex = Z.of_nat (length (proxyQueue lane_ex)).
Proof.
  split; [vm_compute; reflexivity|]. destruct (fmg_worker_books lane_ex lane_ex_reachable) as (_ & _ & _ & _ & Hd & _).
  exact Hd.
Defined.

Lemma queued_request_starts_witness :
  ∃ w', complete_all [true] lane_ex = Some w' ∧ proxyInFlight w' = Some (mkQueueEntry 1 "b" (Some 7%nat)).
Proof.
  apply (queued_request_starts lane_ex 0 (mkQueueEntry 1 "b" (Some 7%nat)) [true]);
    [exact lane_ex_reachable|vm_compute; reflexivity|reflexivity].
Defined.
