(* ===== verification/Login.v ===== *)
(** * Local sign-in

    [src/src/utils/loginLockout.ts], [src/src/utils/mfaPending.ts],
    [src/src/utils/password.ts], the code checks of
    [src/src/services/totpService.ts], and the handlers of
    [src/src/api/routes/auth.ts] that use them: the two login steps and the
    self-service TOTP endpoints, with the password reset of
    [src/src/api/routes/users.ts].  Argon2, the TOTP algorithm and the random
    generator are the class [AuthLib]. *)

From S2P Require Import Prelude JsColl.

(** What the packages provide: [@node-rs/argon2] (a rejected promise reads as
    [false]), [otpauth] with one step of drift, and [randomBytes], whose [n]-th
    draw is [random n]. *)
Class AuthLib := {
  argonVerify : string → string → bool;
  argonHash : nat → string → string;
  totpValidate : string → string → Z → bool;
  random : nat → string;
}.

(** ** [loginLockout.ts] *)

Record LockEntry := mkLockEntry {
  failures : Z;
  lockedUntil : Z;
  firstFailureAt : Z;
}.
Notation LockStore := (JsMap string LockEntry).

Definition MAX_FAILURES : Z := 5.
Definition LOCKOUT_MS : Z := 15 * 60 * 1000.
Definition WINDOW_MS : Z := 15 * 60 * 1000.

Definition lock_key (username : string) : string := Js.toLowerCase (Js.trim username).

(** The unlock time of a locked account. *)
Definition isLocked (now : Z) (username : string) (store : LockStore) : option Z :=
  match mget (lock_key username) store with
  | None => None
  | Some entry => if now <? lockedUntil entry then Some (lockedUntil entry) else None
  end.

Record FailureResult := mkFailureResult { lockedNow : bool; failure_count : Z }.

Definition recordFailure (now : Z) (username : string) (store : LockStore) : LockStore * FailureResult :=
  let k := lock_key username in
  let fresh := mkLockEntry 0 0 now in
  let entry := match mget k store with
               | None => fresh
               | Some entry => if WINDOW_MS <? now - firstFailureAt entry then fresh else entry
               end in
  let n := failures entry + 1 in
  if MAX_FAILURES <=? n
  then (mset k (mkLockEntry n (now + LOCKOUT_MS) (firstFailureAt entry)) store, mkFailureResult true n)
  else (mset k (mkLockEntry n (lockedUntil entry) (firstFailureAt entry)) store, mkFailureResult false n).

Definition clearLockout (username : string) (store : LockStore) : LockStore := mdelete (lock_key username) store.

(** The periodic sweep. *)
Definition lock_stale (now : Z) (v : LockEntry) : bool :=
  (lockedUntil v <=? now) && (WINDOW_MS <? now - firstFailureAt v).
Definition sweepLockout (now : Z) (store : LockStore) : LockStore :=
  List.filter (λ kv, negb (lock_stale now kv.2)) store.

(** ** [mfaPending.ts] *)

Record MfaEntry := mkMfaEntry {
  mfa_userId : string;
  mfa_username : string;
  mfa_expiresAt : Z;
}.
Notation MfaStore := (JsMap string MfaEntry).

Definition TTL_MS : Z := 5 * 60 * 1000.

Definition issue (now : Z) (token userId username : string) (store : MfaStore) : MfaStore :=
  mset token (mkMfaEntry userId username (now + TTL_MS)) store.

Definition peek (now : Z) (token : string) (store : MfaStore) : MfaStore * option MfaEntry :=
  if negb (Js.truthy token) then (store, None) else
  match mget token store with
  | None => (store, None)
  | Some entry => if mfa_expiresAt entry <? now then (mdelete token store, None) else (store, Some entry)
  end.

Definition consume (now : Z) (token : string) (store : MfaStore) : MfaStore * option MfaEntry :=
  match peek now token store with
  | (store', Some entry) => (mdelete token store', Some entry)
  | (store', None) => (store', None)
  end.

Definition revokeForUser (userId : string) (store : MfaStore) : MfaStore :=
  List.filter (λ kv, negb (String.eqb (mfa_userId kv.2) userId)) store.

(** The periodic sweep. *)
Definition sweepMfa (now : Z) (store : MfaStore) : MfaStore :=
  List.filter (λ kv, negb (mfa_expiresAt kv.2 <? now)) store.

(** ** [password.ts] *)

Definition ARGON2_MEMORY : Z := 19456.
Definition ARGON2_TIME : Z := 2.
Definition ARGON2_PARALLELISM : Z := 1.

(** A run of digits and what follows it. *)
Fixpoint take_digits (s : string) : string * string :=
  match s with
  | String c s' => if Js.is_digit c then let '(d, r) := take_digits s' in (String c d, r) else (EmptyString, s)
  | EmptyString => (EmptyString, EmptyString)
  end.

Definition number_after (prefix s : string) : option (Z * string) :=
  if Js.startsWith prefix s then
    let '(d, r) := take_digits (Js.drop (String.length prefix) s) in
    if Js.truthy d then Some (Js.parse_digits 0 d, r) else None
  else None.

(** [/\$m=(\d+),t=(\d+),p=(\d+)\$/] at the start of [s]. *)
Definition argon_params_at (s : string) : option (Z * Z * Z) :=
  match number_after "$m=" s with
  | Some (m, r) =>
      match number_after ",t=" r with
      | Some (t, r) =>
          match number_after ",p=" r with
          | Some (p, r) => if Js.startsWith "$" r then Some (m, t, p) else None
          | None => None
          end
      | None => None
      end
  | None => None
  end.

(** The first match anywhere in [s]. *)
Fixpoint argon_params (s : string) : option (Z * Z * Z) :=
  match argon_params_at s with
  | Some r => Some r
  | None => match s with EmptyString => None | String _ s' => argon_params s' end
  end.

Definition argonParamsWeakerThanTarget (stored : string) : bool :=
  match argon_params stored with
  | None => true
  | Some (m, t, p) => (m <? ARGON2_MEMORY) || (t <? ARGON2_TIME) || (p <? ARGON2_PARALLELISM)
  end.

(** [passwordSchema] of [routes/users.ts] *)
Definition in_range (lo hi c : ascii) : bool :=
  (nat_of_ascii lo <=? nat_of_ascii c)%nat && (nat_of_ascii c <=? nat_of_ascii hi)%nat.
Definition has_char (f : ascii → bool) (s : string) : bool := negb (Js.sforallb (λ c, negb (f c)) s).
Definition password_ok (s : string) : bool :=
  (8 <=? String.length s)%nat && has_char (in_range "a" "z") s && has_char (in_range "A" "Z") s &&
  has_char Js.is_digit s &&
  has_char (λ c, negb (in_range "a" "z" c || in_range "A" "Z" c || Js.is_digit c)) s.

(** ** Users, sessions, state *)

Record User := mkUser {
  us_id : string;
  us_username : string;
  us_passwordHash : string;
  us_authProvider : string;
  us_lastLogin : option Z;
  us_totpSecret : option string;
  us_totpEnabledAt : option Z;
  us_totpBackupCodes : list string;
  us_needsRoleReview : bool;
  us_azureOid : option string;
  us_displayName : option string;
  us_email : option string;
}.

(** The attributes of a SAML assertion. *)
Notation Profile := (JsMap string string).

(** A session the process has issued, with the sign-in it comes from: a password,
    the challenge answered, or the assertion. *)
Inductive Origin := ByPassword | ByChallenge (token : string) | BySaml (profile : Profile).
Record Session := mkSession {
  se_userId : string;
  se_mfaVerified : bool;
  se_origin : Origin;
}.

Record LoginState := mkLoginState {
  ls_users : list User;
  ls_lock : LockStore;
  ls_mfa : MfaStore;
  ls_now : Z;
  ls_draws : nat;
  ls_sessions : list Session;
}.

Definition set_lock (l : LockStore) (s : LoginState) : LoginState :=
  mkLoginState (ls_users s) l (ls_mfa s) (ls_now s) (ls_draws s) (ls_sessions s).
Definition set_mfa (m : MfaStore) (s : LoginState) : LoginState :=
  mkLoginState (ls_users s) (ls_lock s) m (ls_now s) (ls_draws s) (ls_sessions s).
Definition set_users (l : list User) (s : LoginState) : LoginState :=
  mkLoginState l (ls_lock s) (ls_mfa s) (ls_now s) (ls_draws s) (ls_sessions s).
Definition add_session (x : Session) (s : LoginState) : LoginState :=
  mkLoginState (ls_users s) (ls_lock s) (ls_mfa s) (ls_now s) (ls_draws s) (ls_sessions s ++ [x]).
Definition set_clock (t : Z) (s : LoginState) : LoginState :=
  mkLoginState (ls_users s) (ls_lock s) (ls_mfa s) t (ls_draws s) (ls_sessions s).

(** [req.session.mfaVerified = true] *)
Definition set_verified (sess : nat) (s : LoginState) : LoginState :=
  mkLoginState (ls_users s) (ls_lock s) (ls_mfa s) (ls_now s) (ls_draws s)
    (alter (λ x, mkSession (se_userId x) true (se_origin x)) sess (ls_sessions s)).

Definition update_user (id : string) (f : User → User) (l : list User) : list User :=
  (λ u, if String.eqb (us_id u) id then f u else u) <$> l.

Definition set_login (now : Z) (hash : option string) (first : bool) (u : User) : User :=
  mkUser (us_id u) (us_username u) (default (us_passwordHash u) hash) (us_authProvider u) (Some now)
    (us_totpSecret u) (us_totpEnabledAt u) (us_totpBackupCodes u) (first || us_needsRoleReview u)
    (us_azureOid u) (us_displayName u) (us_email u).
Definition set_codes (now : Z) (codes : option (list string)) (u : User) : User :=
  mkUser (us_id u) (us_username u) (us_passwordHash u) (us_authProvider u) (Some now)
    (us_totpSecret u) (us_totpEnabledAt u) (default (us_totpBackupCodes u) codes) (us_needsRoleReview u)
    (us_azureOid u) (us_displayName u) (us_email u).
Definition set_totp (secret : option string) (enabledAt : option Z) (codes : list string) (u : User) : User :=
  mkUser (us_id u) (us_username u) (us_passwordHash u) (us_authProvider u) (us_lastLogin u)
    secret enabledAt codes (us_needsRoleReview u) (us_azureOid u) (us_displayName u) (us_email u).
Definition set_hash (h : string) (u : User) : User :=
  mkUser (us_id u) (us_username u) h (us_authProvider u) (us_lastLogin u) (us_totpSecret u)
    (us_totpEnabledAt u) (us_totpBackupCodes u) (us_needsRoleReview u) (us_azureOid u) (us_displayName u) (us_email u).

Inductive LoginAnswer :=
  | SessionIssued
  | MfaRequired (pendingToken : string).

Section login.
Context `{AuthLib}.
Notation L := (M LoginState).

(** [null] and the empty string read as "no such user". *)
Definition verifyPassword (plaintext : string) (stored : option string) : bool * bool :=
  match stored with
  | Some stored =>
      if negb (Js.truthy stored) then (false, false)
      else if Js.startsWith "$argon2" stored
      then let valid := argonVerify stored plaintext in (valid, valid && argonParamsWeakerThanTarget stored)
      else (false, false)
  | None => (false, false)
  end.

(** [code.replace(/\s/g, "")], six digits, then the algorithm. *)
Definition verifyCode (secret code : string) (now : Z) : bool :=
  let cleaned := Js.sfilter (λ c, negb (Js.is_space c)) code in
  if Js.sforallb Js.is_digit cleaned && (String.length cleaned =? 6)%nat
  then totpValidate secret cleaned now else false.

(** The stored hashes without the one [code] opens. *)
Fixpoint consume_code (cleaned : string) (hashes : list string) : option (list string) :=
  match hashes with
  | [] => None
  | h :: hashes' =>
      if (verifyPassword cleaned (Some h)).1 then Some hashes'
      else (λ l, h :: l) <$> consume_code cleaned hashes'
  end.
Definition consumeBackupCode (storedHashes : list string) (code : string) : option (list string) :=
  consume_code (Js.toUpperCase (Js.trim code)) storedHashes.

(** A fresh draw of the random generator. *)
Definition draw : L nat := λ s,
  (mkLoginState (ls_users s) (ls_lock s) (ls_mfa s) (ls_now s) (S (ls_draws s)) (ls_sessions s), Ok (ls_draws s)).

Definition findUser (p : User → bool) : L (option User) := hgets (λ s, List.find p (ls_users s)).

Definition locked_error : exn := AppError 423 "Account temporarily locked due to too many failed attempts.".
Definition bad_login : exn := AppError 401 "Invalid username or password".
Definition session_expired : exn := AppError 401 "Session expired — please sign in again.".
Definition bad_code : exn := AppError 401 "Invalid verification code".

Definition refuse_locked (username : string) : L unit :=
  let! s := hget in
  throw_if (match isLocked (ls_now s) username (ls_lock s) with Some _ => true | None => false end) locked_error.

Definition record_failure (username : string) : L FailureResult :=
  let! s := hget in
  let '(store, r) := recordFailure (ls_now s) username (ls_lock s) in
  hmodify (set_lock store) ;! hret r.

Definition peek_pending (token : string) : L (option MfaEntry) :=
  let! pending := hgets (λ s, (peek (ls_now s) token (ls_mfa s)).2) in
  hmodify (λ s, set_mfa (peek (ls_now s) token (ls_mfa s)).1 s) ;! hret pending.

Definition consume_pending (token : string) : L unit :=
  hmodify (λ s, set_mfa (consume (ls_now s) token (ls_mfa s)).1 s).

(** POST /auth/login *)
Definition login (username password : string) : L LoginAnswer :=
  throw_if (negb (Js.truthy username) || negb (Js.truthy password)) (JsError "ZodError") ;!
  refuse_locked username ;!
  let! user := findUser (λ u, String.eqb (us_username u) username) in
  let '(valid, needsRehash) := verifyPassword password (us_passwordHash <$> user) in
  match user, valid with
  | Some user, true =>
      hmodify (λ s, set_lock (clearLockout username (ls_lock s)) s) ;!
      let! hash := (if needsRehash then let! n := draw in hret (Some (argonHash n password)) else hret None) in
      let first := match us_lastLogin user with None => true | Some _ => false end in
      hmodify (λ s, set_users (update_user (us_id user) (set_login (ls_now s) hash first) (ls_users s)) s) ;!
      if String.eqb (us_authProvider user) "local" && match us_totpEnabledAt user with Some _ => true | None => false end
      then
        let! n := draw in
        hmodify (λ s, set_mfa (issue (ls_now s) (random n) (us_id user) (us_username user) (ls_mfa s)) s) ;!
        hret (MfaRequired (random n))
      else
        hmodify (add_session (mkSession (us_id user) false ByPassword)) ;!
        hret SessionIssued
  | _, _ =>
      record_failure username ;!
      hthrow bad_login
  end.

(** What the second factor says: refused, or accepted with the backup codes left. *)
Definition second_factor (user : User) (secret code : string) (isBackupCode : bool) (now : Z) :
    option (option (list string)) :=
  if isBackupCode
  then Some <$> consumeBackupCode (us_totpBackupCodes user) code
  else if verifyCode secret code now then Some None else None.

(** POST /auth/login/totp, up to its first [await]: the challenge and the lock. *)
Definition loginTotp_enter (pendingToken code : string) : L MfaEntry :=
  throw_if (negb (Js.truthy pendingToken) || negb (Js.truthy code)) (JsError "ZodError") ;!
  let! pending := peek_pending pendingToken in
  match pending with
  | None => hthrow session_expired
  | Some pending => refuse_locked (mfa_username pending) ;! hret pending
  end.

(** The account of a challenge, while its TOTP is still configured. *)
Definition totp_account (pending : MfaEntry) : L (option (User * string)) :=
  let! user := findUser (λ u, String.eqb (us_id u) (mfa_userId pending)) in
  hret (user ≫= λ u, match us_totpSecret u, us_totpEnabledAt u with
                     | Some secret, Some _ => if Js.truthy secret then Some (u, secret) else None
                     | _, _ => None
                     end).

(** The rest of it, from the user's row on. *)
Definition loginTotp_finish (pendingToken code : string) (isBackupCode : bool) (pending : MfaEntry) : L unit :=
  let! account := totp_account pending in
  match account with
  | None => consume_pending pendingToken ;! hthrow session_expired
  | Some (user, secret) =>
      let! s := hget in
      match second_factor user secret code isBackupCode (ls_now s) with
      | None =>
          let! tripped := record_failure (mfa_username pending) in
          (if lockedNow tripped then consume_pending pendingToken else hret tt) ;!
          hthrow bad_code
      | Some remaining =>
          consume_pending pendingToken ;!
          hmodify (λ s, set_lock (clearLockout (mfa_username pending) (ls_lock s)) s) ;!
          hmodify (λ s, set_users (update_user (us_id user) (set_codes (ls_now s) remaining) (ls_users s)) s) ;!
          hmodify (add_session (mkSession (us_id user) true (ByChallenge pendingToken)))
      end
  end.

Definition loginTotp (pendingToken code : string) (isBackupCode : bool) : L unit :=
  let! pending := loginTotp_enter pendingToken code in
  loginTotp_finish pendingToken code isBackupCode pending.

(** POST /auth/totp/enroll, for the signed-in user. *)
Definition totpEnroll (userId : string) : L string :=
  let! user := findUser (λ u, String.eqb (us_id u) userId) in
  match user with
  | None => hthrow (AppError 404 "User not found")
  | Some user =>
      throw_if (negb (String.eqb (us_authProvider user) "local"))
        (AppError 400 "Two-factor auth is managed by your identity provider for SSO accounts.") ;!
      throw_if (match us_totpEnabledAt user with Some _ => true | None => false end)
        (AppError 409 "Two-factor auth is already enabled. Disable it before re-enrolling.") ;!
      let! n := draw in
      hmodify (λ s, set_users (update_user userId
        (λ u, set_totp (Some (random n)) (us_totpEnabledAt u) (us_totpBackupCodes u) u) (ls_users s)) s) ;!
      hret (random n)
  end.

(** The ten fresh backup codes, [XXXX-XXXX] in hex, then their hashes. *)
Definition BACKUP_CODE_COUNT : nat := 10.
Definition backup_code (n : nat) : string :=
  let hex := Js.toUpperCase (random n) in Js.take 4 hex +:+ "-" +:+ Js.take 4 (Js.drop 4 hex).
Fixpoint draw_all {A} (f : A → nat → string) (l : list A) : L (list string) :=
  match l with
  | [] => hret []
  | x :: l' => let! n := draw in let! rest := draw_all f l' in hret (f x n :: rest)
  end.
Definition generateBackupCodes : L (list string * list string) :=
  let! plaintext := draw_all (λ _, backup_code) (seq 0 BACKUP_CODE_COUNT) in
  let! hashes := draw_all (λ code n, argonHash n code) plaintext in
  hret (plaintext, hashes).

(** POST /auth/totp/confirm, from the session [sess]. *)
Definition totpConfirm (userId : string) (sess : nat) (code : string) : L (list string) :=
  throw_if (negb (Js.truthy code)) (JsError "ZodError") ;!
  let! user := findUser (λ u, String.eqb (us_id u) userId) in
  match user ≫= λ u, match us_totpSecret u with
                     | Some secret => if Js.truthy secret then Some (u, secret) else None
                     | None => None
                     end with
  | None => hthrow (AppError 400 "No enrollment in progress — start by generating a QR code.")
  | Some (user, secret) =>
      throw_if (match us_totpEnabledAt user with Some _ => true | None => false end)
        (AppError 409 "Two-factor auth is already enabled.") ;!
      let! s := hget in
      throw_if (negb (verifyCode secret code (ls_now s)))
        (AppError 401 "Invalid code. Try again with a fresh value from your authenticator app.") ;!
      let! codes := generateBackupCodes in
      hmodify (λ s, set_users (update_user userId
        (λ u, set_totp (us_totpSecret u) (Some (ls_now s)) codes.2 u) (ls_users s)) s) ;!
      hmodify (set_verified sess) ;!
      hret codes.1
  end.

(** DELETE /auth/totp *)
Definition totpDisable (userId code : string) (isBackupCode : bool) : L unit :=
  throw_if (negb (Js.truthy code)) (JsError "ZodError") ;!
  let! user := findUser (λ u, String.eqb (us_id u) userId) in
  match user with
  | None => hthrow (AppError 404 "User not found")
  | Some user =>
      match us_totpEnabledAt user, us_totpSecret user with
      | Some _, Some secret =>
          throw_if (negb (Js.truthy secret)) (AppError 400 "Two-factor auth is not currently enabled.") ;!
          let! s := hget in
          throw_if (match second_factor user secret code isBackupCode (ls_now s) with Some _ => false | None => true end)
            (AppError 401 "Invalid code.") ;!
          hmodify (λ s, set_users (update_user userId (set_totp None None []) (ls_users s)) s)
      | _, _ => hthrow (AppError 400 "Two-factor auth is not currently enabled.")
      end
  end.

(** PUT /users/:id/password *)
Definition resetPassword (id password : string) : L unit :=
  throw_if (negb (password_ok password)) (JsError "ZodError") ;!
  let! user := findUser (λ u, String.eqb (us_id u) id) in
  match user with
  | None => hthrow (AppError 404 "User not found")
  | Some user =>
      throw_if (String.eqb (us_authProvider user) "azure") (AppError 400 "Cannot reset password for Azure SSO users") ;!
      let! n := draw in
      hmodify (λ s, set_users (update_user id (set_hash (argonHash n password)) (ls_users s)) s) ;!
      hmodify (λ s, set_lock (clearLockout (us_username user) (ls_lock s)) s)
  end.
End login.

(** ** Lockout *)

(** Failed attempts: each at its time, all refused for the credentials. *)
Fixpoint failed_attempts `{AuthLib} (l : list (Z * (string * string))) (s : LoginState) : option LoginState :=
  match l with
  | [] => Some s
  | (t, (u, p)) :: l' =>
      match login u p (set_clock t s) with
      | (s', Throw e) => if bool_decide (e = bad_login) then failed_attempts l' s' else None
      | _ => None
      end
  end.

Section lockout.
Context `{AuthLib}.

Lemma refuse_locked_run u s :
  refuse_locked u s = (s, match isLocked (ls_now s) u (ls_lock s) with Some _ => Throw locked_error | None => Ok tt end).
Proof. unfold refuse_locked, hbind, hget, hguard. by destruct (isLocked _ _ _). Qed.

Lemma login_refused u p s s' :
  login u p s = (s', Throw bad_login) →
  isLocked (ls_now s) u (ls_lock s) = None ∧ s' = set_lock (recordFailure (ls_now s) u (ls_lock s)).1 s.
Proof.
  unfold login, hguard. destruct (negb (Js.truthy u) || negb (Js.truthy p)); [done|].
  unfold hbind at 1, hret at 1. unfold hbind at 1. rewrite refuse_locked_run.
  destruct (isLocked (ls_now s) u (ls_lock s)) eqn:Hl; [done|]. unfold findUser, hbind, hgets, hmodify, hret, hthrow, draw.
  destruct (verifyPassword _ _) as [valid needs]. destruct (List.find _ (ls_users s)) as [user|], valid.
  1: destruct needs, (String.eqb (us_authProvider user) "local"), (us_totpEnabledAt user); discriminate.
  all: unfold record_failure, hbind, hget, hmodify, hret;
    destruct (recordFailure (ls_now s) u (ls_lock s)) as [store r]; intros [= <-]; done.
Qed.

(** The failures of [k] since [t0], none of them locking yet. *)
Definition counted (k : string) (t0 n : Z) (store : LockStore) : Prop :=
  mget k store = (if n =? 0 then None else Some (mkLockEntry n 0 t0)).

Lemma recordFailure_counts k t0 n t u store :
  lock_key u = k → 0 ≤ n → counted k t0 n store → (n = 0 → t = t0) → t - t0 ≤ WINDOW_MS →
  let store' := (recordFailure t u store).1 in
  if n + 1 <? MAX_FAILURES then counted k t0 (n + 1) store'
  else mget k store' = Some (mkLockEntry (n + 1) (t + LOCKOUT_MS) t0).
Proof.
  intros <- Hn Hc Ht Hw. unfold counted, recordFailure in *. rewrite Hc.
  destruct (Z.eqb_spec n 0) as [->|Hne].
  - rewrite (Ht eq_refl). change (MAX_FAILURES <=? _) with false. change (0 + 1 <? MAX_FAILURES) with true.
    cbn [fst]. by rewrite mget_mset_eq.
  - assert (WINDOW_MS <? t - t0 = false) as Hst by (apply Z.ltb_ge; lia). cbn [firstFailureAt failures lockedUntil].
    rewrite Hst. cbn [firstFailureAt failures lockedUntil]. unfold MAX_FAILURES.
    destruct (Z.leb_spec 5 (n + 1)), (Z.ltb_spec (n + 1) 5); try lia; cbn [fst]; rewrite mget_mset_eq; [done|].
    destruct (Z.eqb_spec (n + 1) 0); [lia|done].
Qed.

Lemma failed_attempts_lock k l t0 n s s' :
  0 ≤ n → n + Z.of_nat (length l) = MAX_FAILURES → counted k t0 n (ls_lock s) → l ≠ [] →
  (∀ a, a ∈ l → lock_key a.2.1 = k ∧ t0 ≤ a.1 ≤ t0 + WINDOW_MS) → (n = 0 → ∀ a, head l = Some a → a.1 = t0) →
  failed_attempts l s = Some s' →
  ∃ t a, last l = Some a ∧ t = a.1 ∧ mget k (ls_lock s') = Some (mkLockEntry MAX_FAILURES (t + LOCKOUT_MS) t0).
Proof.
  revert n s. induction l as [|[t [u p]] l IH]; intros n s Hn Hlen Hc Hne Hl Hhead Hrun; [done|].
  cbn [failed_attempts] in Hrun. destruct (login u p (set_clock t s)) as [s1 [a|e]] eqn:Hlog; [done|].
  case_bool_decide as He; [|done]. subst e. apply login_refused in Hlog as [_ ->].
  destruct (Hl (t, (u, p)) ltac:(left)) as [Hk Ht]. cbn in Hk, Ht.
  pose proof (recordFailure_counts k t0 n t u (ls_lock s) Hk Hn Hc) as Hrec. cbn in Hlen.
  destruct l as [|a l].
  - cbn in Hrun, Hlen. injection Hrun as <-. exists t, (t, (u, p)). split_and!; [done|done|]. cbn.
    replace MAX_FAILURES with (n + 1) by lia.
    assert (n + 1 <? MAX_FAILURES = false) as Hb by (apply Z.ltb_ge; lia). rewrite Hb in Hrec. apply Hrec; [|lia].
    intros Hz. exfalso. unfold MAX_FAILURES in *. lia.
  - cbn [length] in Hlen. assert (n + 1 <? MAX_FAILURES = true) as Hb by (apply Z.ltb_lt; lia). rewrite Hb in Hrec.
    destruct (IH (n + 1) (set_lock (recordFailure t u (ls_lock s)).1 (set_clock t s))) as (t' & a' & Hlast & -> & Hend);
      [lia|cbn [length]; lia| |done| |lia|done|].
    + cbn. apply Hrec; [|lia]. intros Hz. by apply (Hhead Hz (t, (u, p))).
    + intros b Hb'. apply Hl. by right.
    + exists a'.1, a'. split_and!; [|done|done]. exact Hlast.
Qed.

(** Five failed attempts on an account within fifteen minutes, under any
    spelling of its name, lock it: from the fifth on and for fifteen minutes
    every login, with whatever password, is refused with 423 and changes
    nothing. *)
Theorem five_failures_lock k l s s' :
  length l = 5%nat → mget k (ls_lock s) = None →
  (∀ a, a ∈ l → lock_key a.2.1 = k) →
  (∀ a b, head l = Some a → b ∈ l → a.1 ≤ b.1 ≤ a.1 + WINDOW_MS) →
  failed_attempts l s = Some s' →
  ∃ a, last l = Some a ∧
    ∀ t u p, t < a.1 + LOCKOUT_MS → lock_key u = k → u ≠ ""%string → p ≠ ""%string →
      login u p (set_clock t s') = (set_clock t s', Throw locked_error).
Proof.
  intros Hlen Hnone Hk Hwin Hrun. destruct l as [|a0 l]; [done|].
  destruct (failed_attempts_lock k (a0 :: l) a0.1 0 s s') as (t' & a & Hlast & -> & Hlock).
  - lia.
  - rewrite Hlen. done.
  - done.
  - done.
  - intros b Hb. split; [by apply Hk|by apply Hwin].
  - intros _ b [= <-]. done.
  - done.
  - exists a. split; [done|]. intros t u p Ht Hu Hune Hpne. unfold login, hguard.
    assert (negb (Js.truthy u) || negb (Js.truthy p) = false) as -> by (by destruct u, p).
    unfold hbind at 1, hret at 1. unfold hbind at 1. rewrite refuse_locked_run. cbn [ls_now ls_lock set_clock].
    unfold isLocked. rewrite Hu, Hlock. cbn [lockedUntil]. by rewrite (proj2 (Z.ltb_lt _ _)) by lia.
Qed.
End lockout.

(** ** Sessions and challenges *)

(** Who the sessions are for and the challenges they have answered. *)
Definition grants (s : LoginState) : list (string * Origin) :=
  (λ x, (se_userId x, se_origin x)) <$> ls_sessions s.
Definition answer_of (o : Origin) : option string := match o with ByChallenge t => Some t | _ => None end.
Definition answered (s : LoginState) : list string := omap (λ g, answer_of g.2) (grants s).

Lemma grants_add_session x s : grants (add_session x s) = grants s ++ [(se_userId x, se_origin x)].
Proof. unfold grants. cbn. by rewrite fmap_app. Qed.

(** No session and no challenge is new. *)
Record quiet (s s' : LoginState) : Prop := mkQuiet {
  quiet_grants : grants s' = grants s;
  quiet_mfa : ls_mfa s' ⊆ ls_mfa s;
  quiet_draws : (ls_draws s ≤ ls_draws s')%nat;
}.
#[export] Instance quiet_preorder : PreOrder quiet.
Proof.
  split; [by constructor|]. intros s1 s2 s3 [A1 M1 D1] [A2 M2 D2].
  constructor; [congruence|set_solver|lia].
Qed.

Definition quiet_run {A} (m : M LoginState A) : Prop := ∀ s s' r, m s = (s', r) → quiet s s'.

Lemma quiet_readonly {A} (m : M LoginState A) : readonly m → quiet_run m.
Proof. by intros Hm s s' r ->%Hm. Qed.
Lemma quiet_hbind {A B} (m : M LoginState A) (k : A → M LoginState B) :
  quiet_run m → (∀ a, quiet_run (k a)) → quiet_run (hbind m k).
Proof.
  intros Hm Hk s s' r. unfold hbind. destruct (m s) as [s1 [a|e]] eqn:H1; intros Hr.
  - transitivity s1; [by eapply Hm|by eapply Hk].
  - injection Hr as <- <-. by eapply Hm.
Qed.
Lemma quiet_hmodify f : (∀ s, quiet s (f s)) → quiet_run (hmodify f).
Proof. by intros Hf s s' r [= <- <-]. Qed.
Lemma quiet_hget : quiet_run hget.
Proof. by intros s s' r [= <- <-]. Qed.

Lemma quiet_set_lock l s : quiet s (set_lock l s).
Proof. by constructor. Qed.
Lemma quiet_set_users l s : quiet s (set_users l s).
Proof. by constructor. Qed.
Lemma quiet_set_clock t s : quiet s (set_clock t s).
Proof. by constructor. Qed.
Lemma quiet_set_verified n s : quiet s (set_verified n s).
Proof.
  constructor; [|done|done]. unfold grants. cbn. revert n.
  induction (ls_sessions s) as [|x l IH]; intros [|n]; cbn; [done|done|done|]. f_equal. apply IH.
Qed.
Lemma quiet_set_mfa m s : m ⊆ ls_mfa s → quiet s (set_mfa m s).
Proof. by constructor. Qed.
#[export] Hint Resolve quiet_hbind quiet_hmodify quiet_hget quiet_set_lock quiet_set_users quiet_set_clock
  quiet_set_verified quiet_set_mfa : quiet.
#[export] Hint Extern 1 (quiet_run _) => (apply quiet_readonly; solve [eauto with frame]) : quiet.

Lemma filter_incl {A} (f : A → bool) (l : list A) : List.filter f l ⊆ l.
Proof. by intros x [?%list_elem_of_In _]%list_elem_of_In%filter_In. Qed.
Lemma peek_incl now t m : (peek now t m).1 ⊆ m.
Proof.
  unfold peek. destruct (negb _); [done|]. destruct (mget t m) as [e|]; [|done].
  destruct (mfa_expiresAt e <? now); [apply filter_incl|done].
Qed.
Lemma consume_incl now t m : (consume now t m).1 ⊆ m.
Proof.
  unfold consume. pose proof (peek_incl now t m) as Hp. destruct (peek now t m) as [m' [e|]]; cbn in *; [|done].
  pose proof (filter_incl (λ kv : string * MfaEntry, negb (bool_decide (kv.1 = t))) m'). unfold mdelete. set_solver.
Qed.
#[export] Hint Resolve filter_incl peek_incl consume_incl : quiet.

Ltac solve_quiet :=
  intros; repeat (match goal with
  | |- quiet_run (hbind _ _) => apply quiet_hbind
  | |- ∀ _, _ => intros ?
  | |- quiet_run (match ?x with _ => _ end) => destruct x
  | |- quiet_run (let '_ := ?x in _) => destruct x
  end); eauto with quiet frame.

Section sessions.
Context `{AuthLib}.

Lemma quiet_draw : quiet_run draw.
Proof. intros s s' r [= <- <-]. constructor; [done|done|cbn; lia]. Qed.
Lemma quiet_findUser p : quiet_run (findUser p).
Proof. apply quiet_readonly, readonly_hgets. Qed.
Lemma quiet_refuse_locked u : quiet_run (refuse_locked u).
Proof. unfold refuse_locked. solve_quiet. Qed.
Lemma quiet_record_failure u : quiet_run (record_failure u).
Proof. unfold record_failure. solve_quiet. Qed.
Lemma quiet_consume_pending t : quiet_run (consume_pending t).
Proof. unfold consume_pending. solve_quiet. Qed.
Lemma quiet_draw_all {A} (f : A → nat → string) l : quiet_run (draw_all f l).
Proof. induction l; cbn [draw_all]; [solve_quiet|]. apply quiet_hbind; [apply quiet_draw|]. solve_quiet. Qed.
#[local] Hint Resolve quiet_draw quiet_findUser quiet_refuse_locked quiet_record_failure quiet_consume_pending
  quiet_draw_all : quiet.

Lemma quiet_enter t c : quiet_run (loginTotp_enter t c).
Proof. unfold loginTotp_enter, peek_pending. solve_quiet. Qed.
Lemma quiet_totpEnroll id : quiet_run (totpEnroll id).
Proof. unfold totpEnroll. solve_quiet. Qed.
Lemma quiet_totpConfirm id n c : quiet_run (totpConfirm id n c).
Proof. unfold totpConfirm, generateBackupCodes. solve_quiet. Qed.
Lemma quiet_totpDisable id c b : quiet_run (totpDisable id c b).
Proof. unfold totpDisable. solve_quiet. Qed.
Lemma quiet_resetPassword id p : quiet_run (resetPassword id p).
Proof. unfold resetPassword. solve_quiet. Qed.

(** The credentials a first step has shown. *)
Definition password_accepted (u p : string) (s : LoginState) (user : User) : Prop :=
  List.find (λ x, String.eqb (us_username x) u) (ls_users s) = Some user ∧
  isLocked (ls_now s) u (ls_lock s) = None ∧
  (verifyPassword p (Some (us_passwordHash user))).1 = true.

Definition needs_totp (user : User) : bool :=
  String.eqb (us_authProvider user) "local" && match us_totpEnabledAt user with Some _ => true | None => false end.

Lemma login_effect u p s s' r :
  login u p s = (s', r) →
  (∃ e, r = Throw e ∧ quiet s s') ∨
  ∃ user s1, password_accepted u p s user ∧ quiet s s1 ∧
    ((needs_totp user = false ∧ r = Ok SessionIssued ∧ s' = add_session (mkSession (us_id user) false ByPassword) s1) ∨
     (needs_totp user = true ∧ r = Ok (MfaRequired (random (ls_draws s1))) ∧
      grants s' = grants s1 ∧ ls_draws s' = S (ls_draws s1) ∧
      ls_mfa s' = issue (ls_now s1) (random (ls_draws s1)) (us_id user) (us_username user) (ls_mfa s1))).
Proof.
  unfold login, hguard. destruct (_ || _); [intros [= <- <-]; left; eauto using quiet_preorder with quiet|].
  unfold hbind at 1, hret at 1. unfold hbind at 1. rewrite refuse_locked_run.
  destruct (isLocked _ _ _) eqn:Hl; [intros [= <- <-]; left; by eexists|]. unfold findUser, hgets. unfold hbind at 1.
  destruct (verifyPassword p _) as [valid needs] eqn:Hv.
  destruct (List.find _ (ls_users s)) as [user|] eqn:Hf, valid.
  2-4: intros Hr; left; exists bad_login; split;
    [revert Hr; unfold record_failure, hbind, hget, hmodify, hret, hthrow; by destruct (recordFailure _ _ _); intros [= _ <-]
    |revert Hr; apply quiet_hbind; solve_quiet].
  unfold hbind at 1, hmodify at 1. set (s1 := set_lock _ s).
  assert (password_accepted u p s user) as Hp by (split_and!; [done|done|]; change (us_passwordHash <$> Some user) with (Some (us_passwordHash user)) in Hv; by rewrite Hv).
  set (rehash := if needs then _ else _).
  assert (∃ s2 h, rehash s1 = (s2, Ok h) ∧ quiet s s2) as (s2 & h & Hre & Hq).
  { unfold rehash. destruct needs; eexists _, _; (split; [reflexivity|]).
    - transitivity s1; [apply quiet_set_lock|]. constructor; [done|done|cbn; lia].
    - apply quiet_set_lock. }
  unfold hbind at 1. rewrite Hre. unfold hbind at 1, hmodify at 1. set (s3 := set_users _ s2).
  assert (quiet s s3) as Hq3 by (transitivity s2; [done|apply quiet_set_users]).
  fold (needs_totp user). destruct (needs_totp user) eqn:Hn; intros [= <- <-]; right; exists user, s3;
    (split_and!; [done|done|]); [right|left]; done.
Qed.

(** The challenge and the code a second step has shown. *)
Definition code_accepted (t c : string) (b : bool) (s : LoginState) (user : User) : Prop :=
  ∃ pending secret,
    mget t (ls_mfa s) = Some pending ∧ ls_now s ≤ mfa_expiresAt pending ∧
    isLocked (ls_now s) (mfa_username pending) (ls_lock s) = None ∧
    List.find (λ x, String.eqb (us_id x) (mfa_userId pending)) (ls_users s) = Some user ∧
    us_totpSecret user = Some secret ∧ is_Some (us_totpEnabledAt user) ∧
    is_Some (second_factor user secret c b (ls_now s)).

Lemma peek_Some now t m m' e : peek now t m = (m', Some e) → m' = m ∧ mget t m = Some e ∧ now ≤ mfa_expiresAt e.
Proof.
  unfold peek. destruct (negb _); [done|]. destruct (mget t m) as [e'|]; [|done].
  destruct (Z.ltb_spec (mfa_expiresAt e') now); [done|]. by intros [= <- <-].
Qed.

Lemma loginTotp_enter_ok t c s s' pending :
  loginTotp_enter t c s = (s', Ok pending) →
  s' = s ∧ mget t (ls_mfa s) = Some pending ∧ ls_now s ≤ mfa_expiresAt pending ∧
  isLocked (ls_now s) (mfa_username pending) (ls_lock s) = None.
Proof.
  unfold loginTotp_enter, peek_pending, hguard. destruct (_ || _); [done|]. unfold hbind, hret, hgets, hmodify.
  destruct (peek (ls_now s) t (ls_mfa s)) as [m' [e|]] eqn:Hp; cbn [fst snd]; [|done].
  apply peek_Some in Hp as (-> & Hg & Hle). rewrite refuse_locked_run. cbn [ls_now ls_lock set_mfa].
  destruct (isLocked _ _ _) eqn:Hl; [done|]. intros [= <- <-]. split_and!; try done. by destruct s.
Qed.

Lemma consume_gone now t m e : mget t m = Some e → t ≠ ""%string → t ∉ mkeys (consume now t m).1.
Proof.
  intros Hg Ht. rewrite elem_mkeys. unfold consume, peek. destruct t as [|x t]; [done|]. cbn [Js.truthy negb].
  rewrite Hg. destruct (mfa_expiresAt e <? now); cbn [fst]; rewrite mget_mdelete; case_decide; by intros [? ?].
Qed.

Lemma totp_account_run pending s :
  ∃ account, totp_account pending s = (s, Ok account) ∧
    ∀ user secret, account = Some (user, secret) →
      List.find (λ x, String.eqb (us_id x) (mfa_userId pending)) (ls_users s) = Some user ∧
      us_totpSecret user = Some secret ∧ is_Some (us_totpEnabledAt user).
Proof.
  eexists. split; [reflexivity|]. cbn. intros user secret. destruct (List.find _ _) as [u|]; cbn; [|done].
  destruct (us_totpSecret u) as [x|] eqn:Hs, (us_totpEnabledAt u) eqn:He; try done.
  destruct (Js.truthy x); [|done]. intros [= <- <-]. split_and!; [done|done|by eexists].
Qed.

Lemma loginTotp_effect t c b s s' r :
  loginTotp t c b s = (s', r) →
  (∃ e, r = Throw e ∧ quiet s s') ∨
  ∃ user s1, code_accepted t c b s user ∧ quiet s s1 ∧ t ∉ mkeys (ls_mfa s1) ∧
    r = Ok tt ∧ s' = add_session (mkSession (us_id user) true (ByChallenge t)) s1.
Proof.
  unfold loginTotp, hbind at 1. destruct (loginTotp_enter t c s) as [s0 [pending|e]] eqn:Hin;
    [|intros [= <- <-]; left; eexists; split; [done|by eapply quiet_enter]].
  assert (t ≠ ""%string) as Htne by (intros ->; done).
  apply loginTotp_enter_ok in Hin as (-> & Hg & Hle & Hl). unfold loginTotp_finish, hbind at 1.
  destruct (totp_account_run pending s) as ([[user secret]|] & -> & Hacc).
  - destruct (Hacc _ _ eq_refl) as (Hf & Hs & He). unfold hbind at 1, hget at 1.
    destruct (second_factor _ _ _ _ _) as [remaining|] eqn:H2.
    + intros [= <- <-]. right. eexists user, _. split_and!; [by exists pending, secret; eauto| | |done|reflexivity].
      * constructor; [done| |done]. apply consume_incl.
      * by eapply consume_gone.
    + intros Hr. left. exists bad_code. split.
      * revert Hr. unfold record_failure, hbind, hget, hmodify, hret, hthrow, consume_pending.
        destruct (recordFailure _ _ _) as [st fr]. destruct (lockedNow fr); by intros [= _ <-].
      * revert Hr. apply quiet_hbind; solve_quiet.
  - intros Hr. left. exists session_expired. split; [by injection Hr|]. revert Hr. apply quiet_hbind; solve_quiet.
Qed.
End sessions.

(** ** Concrete runs *)

(** A hash that carries its password, one code that is always right, and a
    counter for the random generator. *)
Definition toy_hash (p : string) : string := "$argon2id$v=19$m=19456,t=2,p=1$" +:+ p.
Definition toy_lib : AuthLib := {|
  argonVerify stored p := String.eqb stored (toy_hash p);
  argonHash _ p := toy_hash p;
  totpValidate _ code _ := String.eqb code "123456";
  random n := pretty n;
|}.

Definition bob : User :=
  mkUser "u1" "bob" (toy_hash "pw") "local" None (Some "JBSWY3DP") (Some 1) [toy_hash "AAAA-BBBB"] false
    None None None.
Definition bob_process : LoginState := mkLoginState [bob] [] [] 1000 0 [].

Definition wrong_passwords : list (Z * (string * string)) :=
  [(1000, ("bob", "a")); (2000, ("BOB", "b")); (3000, (" bob ", "c")); (4000, ("bob", "d")); (5000, ("bob", "e"))].

Lemma five_failures_lock_witness :
  ∃ s', @failed_attempts toy_lib wrong_passwords bob_process = Some s' ∧
    ∃ a, last wrong_passwords = Some a ∧
      ∀ t u p, t < a.1 + LOCKOUT_MS → lock_key u = "bob" → u ≠ ""%string → p ≠ ""%string →
        @login toy_lib u p (set_clock t s') = (set_clock t s', Throw locked_error).
Proof.
  eexists. split; [vm_compute; reflexivity|]. apply (@five_failures_lock toy_lib "bob" wrong_passwords bob_process).
  - reflexivity.
  - reflexivity.
  - intros a Ha. repeat (apply elem_of_cons in Ha as [->|Ha]; [reflexivity|]). by apply elem_of_nil in Ha.
  - intros a b [= <-] Hb. unfold WINDOW_MS.
    repeat (apply elem_of_cons in Hb as [->|Hb]; [cbn; lia|]). by apply elem_of_nil in Hb.
  - vm_compute. reflexivity.
Defined.

(** Bob signs in with his password and his code. *)
Definition bob_signs_in : LoginState :=
  (@loginTotp toy_lib "0" "123 456" false (@login toy_lib "bob" "pw" bob_process).1).1.

(** ** Limits of the lockout and of the challenges *)

(** A right password forgets the failures of its account, those of the second
    step too. *)
Lemma password_forgets_failures `{AuthLib} u p s user :
  u ≠ ""%string → p ≠ ""%string → password_accepted u p s user →
  mget (lock_key u) (ls_lock (login u p s).1) = None.
Proof.
  intros Hu Hp (Hf & Hl & Hv). unfold login, hguard.
  assert (negb (Js.truthy u) || negb (Js.truthy p) = false) as -> by (by destruct u, p).
  unfold hbind at 1, hret at 1. unfold hbind at 1. rewrite refuse_locked_run, Hl. unfold findUser, hgets, hbind at 1.
  rewrite Hf. change (us_passwordHash <$> Some user) with (Some (us_passwordHash user)).
  destruct (verifyPassword _ _) as [valid needs]. cbn [fst] in Hv. subst valid. unfold hbind, hmodify, hret, draw.
  destruct needs, (_ && _); cbn; unfold clearLockout; rewrite mget_mdelete; by case_decide.
Qed.

(** One round of guessing: the password, then four wrong codes. *)
Fixpoint wrong_codes `{AuthLib} (n : nat) (t : string) (s : LoginState) : option LoginState :=
  match n with
  | O => Some s
  | S n' => match loginTotp t "000000" false s with
            | (s', Throw e) => if bool_decide (e = bad_code) then wrong_codes n' t s' else None
            | _ => None
            end
  end.
Fixpoint guessing_rounds `{AuthLib} (rounds : nat) (u p : string) (s : LoginState) : option LoginState :=
  match rounds with
  | O => Some s
  | S r => match login u p s with
           | (s', Ok (MfaRequired t)) => wrong_codes 4 t s' ≫= guessing_rounds r u p
           | _ => None
           end
  end.

(** A hundred wrong codes in the same instant, none refused by the lock: the
    failure ceiling does not bound the codes tried with a stolen password. *)
Example codes_unbounded : is_Some (@guessing_rounds toy_lib 25 "bob" "pw" bob_process).
Proof. vm_compute. by eexists. Qed.

(** Two second steps that overlap, both past their first [await] before either
    consumes the challenge: one challenge, two sessions. *)
Example overlapping_codes_reuse_challenge :
  let s1 := (@login toy_lib "bob" "pw" bob_process).1 in
  ∃ e s2 s3, loginTotp_enter "0" "123456" s1 = (s1, Ok e) ∧
    @loginTotp_finish toy_lib "0" "123456" false e s1 = (s2, Ok tt) ∧
    @loginTotp_finish toy_lib "0" "123456" false e s2 = (s3, Ok tt) ∧ answered s3 = ["0"; "0"].
Proof. cbv zeta. do 3 eexists. split_and!; vm_compute; reflexivity. Qed.
