(* ===== verification/SignIn.v ===== *)
(** * SAML sign-in, and where sessions come from

    [src/src/services/azureAuthService.ts] and the [/auth/azure] endpoints of
    [src/src/api/routes/auth.ts], beside the local handlers of [Login] in one
    process: its users, its challenges, the stored SSO settings with their
    30-second cache, and the cached SAML client.  [node-saml] and Prisma's [uuid()]
    are the class [SamlLib].  The last part traces every session of a run of the
    process to the calls that earned it. *)

From S2P Require Import Prelude JsColl Store Login.

(** ** Settings *)

Record SsoSettings := mkSsoSettings {
  sso_enabled : bool;
  spEntityId : string;
  idpEntityId : string;
  idpLoginUrl : string;
  idpLogoutUrl : string;
  idpCertificate : string;
  wantResponseSigned : bool;
  skipLoginPage : bool;
  autoLogoutMinutes : Z;
}.
Definition SSO_DEFAULTS : SsoSettings := mkSsoSettings false "" "" "" "" "" false false 0.

(** [Partial<SsoSettings>] *)
Record SsoUpdate := mkSsoUpdate {
  su_enabled : option bool;
  su_spEntityId : option string;
  su_idpEntityId : option string;
  su_idpLoginUrl : option string;
  su_idpLogoutUrl : option string;
  su_idpCertificate : option string;
  su_wantResponseSigned : option bool;
  su_skipLoginPage : option bool;
  su_autoLogoutMinutes : option Z;
}.
Definition merge_sso (u : SsoUpdate) (x : SsoSettings) : SsoSettings :=
  let text f old := default old (Js.trim <$> f u) in
  mkSsoSettings (default (sso_enabled x) (su_enabled u)) (text su_spEntityId (spEntityId x))
    (text su_idpEntityId (idpEntityId x)) (text su_idpLoginUrl (idpLoginUrl x))
    (text su_idpLogoutUrl (idpLogoutUrl x)) (text su_idpCertificate (idpCertificate x))
    (default (wantResponseSigned x) (su_wantResponseSigned u)) (default (skipLoginPage x) (su_skipLoginPage u))
    (default (autoLogoutMinutes x) ((λ n, Z.max 0 (Z.min 1440 n)) <$> su_autoLogoutMinutes u)).

(** The fields of [SamlConfig] that are not constants. *)
Record SamlConfig := mkSamlConfig {
  sc_idpCert : string;
  sc_issuer : string;
  sc_callbackUrl : string;
  sc_entryPoint : string;
  sc_logoutUrl : string;
  sc_idpIssuer : string;
  sc_wantAuthnResponseSigned : bool;
}.

(** [.replace(/\/+$/, "")] *)
Fixpoint strip_slashes (s : string) : string :=
  match s with
  | EmptyString => EmptyString
  | String c s' =>
      match strip_slashes s' with
      | EmptyString => if Ascii.eqb c "/" then EmptyString else String c EmptyString
      | r => String c r
      end
  end.
Definition saml_config (x : SsoSettings) : SamlConfig :=
  let baseUrl := strip_slashes (spEntityId x) in
  mkSamlConfig (idpCertificate x) baseUrl (baseUrl +:+ "/api/v1/auth/azure/callback") (idpLoginUrl x)
    (Js.oor (Some (idpLogoutUrl x)) (idpLoginUrl x)) (idpEntityId x) (wantResponseSigned x).

(** The body of the callback. *)
Notation SamlBody := (JsMap string string).

(** What the packages provide: the check of a response at a time, with its
    profile if it carries one, the address of the sign-in page, and fresh ids. *)
Class SamlLib := {
  samlValidate : SamlConfig → SamlBody → Z → result (option Profile);
  samlAuthorizeUrl : SamlConfig → string → result string;
  uuid : nat → string;
}.

(** ** The process *)

Record Process := mkProcess {
  pr_login : LoginState;
  pr_sso : option SsoSettings;
  pr_cache : option (SsoSettings * Z);
  pr_client : option SamlConfig;
  pr_roles : list string;
}.
Definition set_login_state (l : LoginState) (p : Process) : Process :=
  mkProcess l (pr_sso p) (pr_cache p) (pr_client p) (pr_roles p).
Definition set_cache (c : option (SsoSettings * Z)) (p : Process) : Process :=
  mkProcess (pr_login p) (pr_sso p) c (pr_client p) (pr_roles p).
Definition set_client (c : option SamlConfig) (p : Process) : Process :=
  mkProcess (pr_login p) (pr_sso p) (pr_cache p) c (pr_roles p).
Definition set_sso (x : option SsoSettings) (p : Process) : Process :=
  mkProcess (pr_login p) x (pr_cache p) (pr_client p) (pr_roles p).
Definition set_roles (l : list string) (p : Process) : Process :=
  mkProcess (pr_login p) (pr_sso p) (pr_cache p) (pr_client p) l.
Definition pr_now (p : Process) : Z := ls_now (pr_login p).

Definition SSO_CACHE_MS : Z := 30000.

(** [profile[key] || ...] over the keys, then [d]. *)
Definition first_claim (keys : list string) (d : string) (profile : Profile) : string :=
  foldr (λ k rest, Js.oor (mget k profile) rest) d keys.
Definition saml_email (profile : Profile) : string :=
  first_claim ["http://schemas.xmlsoap.org/ws/2005/05/identity/claims/emailaddress"; "email"; "mail"; "nameID"]%string
    "" profile.
Definition saml_displayName (profile : Profile) : string :=
  first_claim ["http://schemas.xmlsoap.org/ws/2005/05/identity/claims/name";
    "http://schemas.microsoft.com/identity/claims/displayname"; "displayName"]%string "" profile.
Definition saml_oid (profile : Profile) : string :=
  first_claim ["http://schemas.microsoft.com/identity/claims/objectidentifier"; "nameID"]%string "" profile.

(** [/[^a-z0-9._-]/g] *)
Definition username_char (c : ascii) : bool :=
  in_range "a" "z" c || Js.is_digit c || Ascii.eqb c "." || Ascii.eqb c "_" || Ascii.eqb c "-".
Definition saml_username (email oid : string) : string :=
  let local := default ""%string (head (Js.split "@" email)) in
  let username := Js.sfilter username_char (Js.toLowerCase local) in
  if Js.truthy username then username else "azure-" +:+ Js.take 8 oid.

(** The row of a user who signs in by SAML. *)
Definition set_saml_login (now : Z) (displayName email : string) (u : User) : User :=
  mkUser (us_id u) (us_username u) (us_passwordHash u) (us_authProvider u) (Some now)
    (us_totpSecret u) (us_totpEnabledAt u) (us_totpBackupCodes u)
    (match us_lastLogin u with None => true | Some _ => us_needsRoleReview u end)
    (us_azureOid u) (if Js.truthy displayName then Some displayName else us_displayName u)
    (if Js.truthy email then Some email else us_email u).
Definition or_none (s : string) : option string := if Js.truthy s then Some s else None.
Definition saml_user (id username hash oid displayName email : string) (now : Z) : User :=
  mkUser id username hash "azure" (Some now) None None [] true (Some oid) (or_none displayName) (or_none email).

(** The answers of [/azure/login] and [/azure/callback]. *)
Inductive AzureLogin :=
  | AzureNotConfigured
  | AzureRedirect (relayState url : string)
  | AzureLoginError (relayState : string) (e : exn).
Inductive AzureCallback :=
  | AzureSignedIn
  | AzureInvalidState
  | AzureCallbackError (e : exn).

Section saml.
Context `{AuthLib, SamlLib}.
Notation P := (M Process).

Definition on_login {A} (m : M LoginState A) : P A := λ p,
  let '(l, r) := m (pr_login p) in (set_login_state l p, r).

Definition getSsoSettings : P SsoSettings :=
  let! p := hget in
  match pr_cache p with
  | Some (v, expiry) => if pr_now p <? expiry then hret v
                        else let v := default SSO_DEFAULTS (pr_sso p) in
                             hmodify (set_cache (Some (v, pr_now p + SSO_CACHE_MS))) ;! hret v
  | None => let v := default SSO_DEFAULTS (pr_sso p) in
            hmodify (set_cache (Some (v, pr_now p + SSO_CACHE_MS))) ;! hret v
  end.

Definition updateSsoSettings (u : SsoUpdate) : P SsoSettings :=
  let! current := getSsoSettings in
  let merged := merge_sso u current in
  hmodify (set_sso (Some merged)) ;!
  hmodify (λ p, set_cache (Some (merged, pr_now p + SSO_CACHE_MS)) p) ;!
  hmodify (set_client None) ;!
  hret merged.

Definition isAzureSsoConfiguredAsync : P bool :=
  let! s := getSsoSettings in
  hret (sso_enabled s && Js.truthy (idpEntityId s) && Js.truthy (idpLoginUrl s) && Js.truthy (idpCertificate s)).

Definition getSamlClient : P SamlConfig :=
  let! p := hget in
  match pr_client p with
  | Some c => hret c
  | None =>
      let! settings := getSsoSettings in
      throw_if (negb (Js.truthy (idpEntityId settings)) || negb (Js.truthy (idpLoginUrl settings)) ||
                negb (Js.truthy (idpCertificate settings))) (JsError "SAML SSO is not configured") ;!
      throw_if (negb (Js.truthy (spEntityId settings)))
        (JsError "SAML SSO requires an Application URL — set it in Authentication Settings") ;!
      hmodify (set_client (Some (saml_config settings))) ;!
      hret (saml_config settings)
  end.

Definition validateSamlResponse (body : SamlBody) : P Profile :=
  let! client := getSamlClient in
  let! now := hgets pr_now in
  let! profile := hlift (samlValidate client body now) in
  match profile with
  | Some profile => hret profile
  | None => hthrow (JsError "SAML assertion validation failed — no profile returned")
  end.

(** [prisma.user.create], whose ids, names and object ids are unique. *)
Definition user_create (f : string → User) : P User :=
  let! n := on_login draw in
  let row := f (uuid n) in
  let! p := hget in
  throw_if (existsb (λ u, String.eqb (us_id u) (us_id row) || String.eqb (us_username u) (us_username row) ||
      (bool_decide (is_Some (us_azureOid row)) && bool_decide (us_azureOid u = us_azureOid row)))
    (ls_users (pr_login p))) P2002 ;!
  on_login (hmodify (λ l, set_users (ls_users l ++ [row]) l)) ;!
  hret row.

(** A username no row has, of the three that are tried; the last is not checked. *)
Definition free_username (username oid : string) (l : list User) : string :=
  let held name := existsb (λ u, String.eqb (us_username u) name) l in
  if held username
  then let username := username +:+ "-azure" in
       if held username then "azure-" +:+ Js.take 12 oid else username
  else username.

Definition findOrProvisionSamlUser (profile : Profile) : P User :=
  let email := saml_email profile in
  let displayName := saml_displayName profile in
  let oid := saml_oid profile in
  throw_if (negb (Js.truthy oid)) (JsError "SAML assertion missing user identifier") ;!
  let! existing := on_login (findUser (λ u, bool_decide (us_azureOid u = Some oid))) in
  let! now := hgets pr_now in
  match existing with
  | Some u =>
      on_login (hmodify (λ l, set_users (update_user (us_id u) (set_saml_login now displayName email) (ls_users l)) l)) ;!
      hret (set_saml_login now displayName email u)
  | None =>
      let! username := hgets (λ p, free_username (saml_username email oid) oid (ls_users (pr_login p))) in
      let! n := on_login draw in
      let! k := on_login draw in
      let placeholderHash := argonHash k (random n) in
      let! p := hget in
      throw_if (negb (bool_decide ("readonly"%string ∈ pr_roles p)))
        (JsError "SAML auto-provision: built-in 'readonly' role not found — Polaris is mis-seeded") ;!
      user_create (λ id, saml_user id username placeholderHash oid displayName email now)
  end.

(** GET /auth/azure/login; the relay state goes to the session of the caller. *)
Definition azureLogin : P AzureLogin :=
  let! configured := isAzureSsoConfiguredAsync in
  if negb configured then hret AzureNotConfigured
  else
    let! n := on_login draw in
    hcatch (let! client := getSamlClient in
            let! url := hlift (samlAuthorizeUrl client (random n)) in
            hret (AzureRedirect (random n) url))
           (λ e, hret (AzureLoginError (random n) e)).

(** POST /auth/azure/callback, from a session with [samlRelayState]. *)
Definition azureCallback (samlRelayState : option string) (body : SamlBody) : P AzureCallback :=
  let returnedState := Js.oor (mget "RelayState"%string body) "" in
  if match samlRelayState with
     | Some state => Js.truthy state && negb (String.eqb returnedState state)
     | None => false
     end
  then hret AzureInvalidState
  else
    hcatch (let! profile := validateSamlResponse body in
            let! user := findOrProvisionSamlUser profile in
            on_login (hmodify (add_session (mkSession (us_id user) true (BySaml profile)))) ;!
            hret AzureSignedIn)
           (λ e, hret (AzureCallbackError e)).

(** ** Runs of the process *)

(** What happens to the process, one call after the other.  Other handlers
    write the users, and the roles, at will. *)
Inductive Event :=
  | CLogin (username password : string)
  | CTotp (pendingToken code : string) (isBackupCode : bool)
  | CEnroll (userId : string)
  | CConfirm (userId : string) (sess : nat) (code : string)
  | CDisable (userId code : string) (isBackupCode : bool)
  | CReset (id password : string)
  | CAzureLogin
  | CAzureCallback (samlRelayState : option string) (body : SamlBody)
  | CUpdateSso (u : SsoUpdate)
  | CTick (ms : N)
  | CSweepLock
  | CSweepMfa
  | CUsers (l : list User)
  | CRoles (l : list string).

Definition happen (ev : Event) (p : Process) : Process :=
  match ev with
  | CLogin u pw => (on_login (login u pw) p).1
  | CTotp t c b => (on_login (loginTotp t c b) p).1
  | CEnroll id => (on_login (totpEnroll id) p).1
  | CConfirm id n c => (on_login (totpConfirm id n c) p).1
  | CDisable id c b => (on_login (totpDisable id c b) p).1
  | CReset id pw => (on_login (resetPassword id pw) p).1
  | CAzureLogin => (azureLogin p).1
  | CAzureCallback r body => (azureCallback r body p).1
  | CUpdateSso u => (updateSsoSettings u p).1
  | CTick ms => (on_login (hmodify (λ l, set_clock (ls_now l + Z.of_N ms) l)) p).1
  | CSweepLock => (on_login (hmodify (λ l, set_lock (sweepLockout (ls_now l) (ls_lock l)) l)) p).1
  | CSweepMfa => (on_login (hmodify (λ l, set_mfa (sweepMfa (ls_now l) (ls_mfa l)) l)) p).1
  | CUsers l => (on_login (hmodify (set_users l)) p).1
  | CRoles l => set_roles l p
  end.
Definition run (evs : list Event) (p : Process) : Process := foldl (λ p ev, happen ev p) p evs.
End saml.

(** ** The settings behind a check *)

Section settings.
Context `{AuthLib, SamlLib}.
Implicit Types (p : Process).

Definition sso_complete (v : SsoSettings) : bool :=
  Js.truthy (idpEntityId v) && Js.truthy (idpLoginUrl v) && Js.truthy (idpCertificate v) && Js.truthy (spEntityId v).

(** The cache holds the stored settings, and the client is built from them. *)
Record sso_ok p : Prop := mkSsoOk {
  so_cache : ∀ v t, pr_cache p = Some (v, t) → v = default SSO_DEFAULTS (pr_sso p);
  so_client : ∀ c, pr_client p = Some c → ∃ v, pr_sso p = Some v ∧ sso_complete v = true ∧ c = saml_config v;
}.

(** Nothing but the cache and the client differs. *)
Definition same_store p p' : Prop := pr_login p' = pr_login p ∧ pr_sso p' = pr_sso p ∧ pr_roles p' = pr_roles p.

Lemma same_store_refl p : same_store p p.
Proof. done. Qed.
Lemma same_store_cache c p : same_store p (set_cache c p).
Proof. done. Qed.
#[local] Hint Resolve same_store_refl same_store_cache : core.

Lemma sso_ok_login l p : sso_ok p → sso_ok (set_login_state l p).
Proof. by intros [? ?]. Qed.
Lemma on_login_run {A} (m : M LoginState A) p l r :
  m (pr_login p) = (l, r) → on_login m p = (set_login_state l p, r).
Proof. intros Hm. unfold on_login. by rewrite Hm. Qed.

Lemma getSsoSettings_run p :
  sso_ok p →
  ∃ p', getSsoSettings p = (p', Ok (default SSO_DEFAULTS (pr_sso p))) ∧ sso_ok p' ∧ same_store p p' ∧
    pr_client p' = pr_client p.
Proof.
  intros Hok. pose proof Hok as [Hc Hk]. unfold getSsoSettings, hbind, hget.
  assert (Hnew : let v := default SSO_DEFAULTS (pr_sso p) in
    sso_ok (set_cache (Some (v, pr_now p + SSO_CACHE_MS)) p)) by (constructor; [by intros ? ? [= <- _]|done]).
  destruct (pr_cache p) as [[v t]|] eqn:Hp; [destruct (_ <? t)|].
  - exists p. rewrite (Hc _ _ eq_refl). by split_and!.
  - eexists. by split_and!.
  - eexists. by split_and!.
Qed.

Lemma updateSsoSettings_run u p :
  sso_ok p → ∃ p', updateSsoSettings u p = (p', Ok (merge_sso u (default SSO_DEFAULTS (pr_sso p)))) ∧ sso_ok p' ∧
    pr_login p' = pr_login p.
Proof.
  intros Hok. unfold updateSsoSettings, hbind, hmodify, hret. destruct (getSsoSettings_run p Hok) as (p1 & -> & _ & Hs & _).
  eexists. split; [done|]. split; [constructor; [by intros ? ? [= <- _]|done]|]. apply Hs.
Qed.

(** The client of a process whose settings are complete; otherwise an error. *)
Lemma getSamlClient_run p :
  sso_ok p →
  ∃ p' r, getSamlClient p = (p', r) ∧ sso_ok p' ∧ same_store p p' ∧
    ∀ c, r = Ok c → ∃ v, pr_sso p = Some v ∧ sso_complete v = true ∧ c = saml_config v.
Proof.
  intros Hok. unfold getSamlClient. unfold hbind at 1, hget. destruct (pr_client p) as [c|] eqn:Hc.
  { exists p, (Ok c). split_and!; try done. intros ? [= <-]. by apply (so_client _ Hok). }
  unfold hbind at 1. destruct (getSsoSettings_run p Hok) as (p1 & -> & Hok1 & (Hl & Hs & Hr) & Hcl).
  set (v := default _ _). unfold hguard. unfold hbind at 1.
  destruct (_ || _) eqn:E1; [by exists p1; eexists|]. unfold hret at 1. unfold hbind at 1.
  destruct (negb (Js.truthy (spEntityId v))) eqn:E2; [by exists p1; eexists|]. unfold hret at 1, hbind, hmodify, hret.
  assert (sso_complete v = true) as Hv.
  { unfold sso_complete. rewrite !orb_false_iff, !negb_false_iff in *. destruct E1 as [[-> ->] ->]. by rewrite E2. }
  assert (pr_sso p = Some v) as Hpv by (unfold v in *; by destruct (pr_sso p)).
  eexists _, _. split; [reflexivity|]. split_and!; [|done..|].
  - destruct Hok1 as [H1 H2]. constructor; [done|]. intros ? [= <-]. exists v. by rewrite <- Hs in Hpv.
  - intros c' [= <-]. by exists v.
Qed.

Lemma validateSamlResponse_run body p :
  sso_ok p →
  ∃ p' r, validateSamlResponse body p = (p', r) ∧ sso_ok p' ∧ same_store p p' ∧
    ∀ profile, r = Ok profile → ∃ v, pr_sso p = Some v ∧ sso_complete v = true ∧
      samlValidate (saml_config v) body (pr_now p) = Ok (Some profile).
Proof.
  intros Hok. unfold validateSamlResponse. unfold hbind at 1.
  destruct (getSamlClient_run p Hok) as (p1 & [c|e] & -> & Hok1 & Hs & Hc); [|by exists p1; eexists].
  destruct (Hc _ eq_refl) as (v & Hv & Hcv & ->). unfold hbind, hgets, hlift.
  assert (pr_now p1 = pr_now p) as -> by (unfold pr_now; by destruct Hs as [-> _]).
  destruct (samlValidate _ _ _) as [[profile|]|e] eqn:E; exists p1; eexists; split_and!; try done; [apply Hs..|].
  intros ? [= <-]. by exists v.
Qed.

(** ** The account of an assertion *)

(** [user_create] adds one row whose id and username no row had. *)
Lemma user_create_run f p :
  (∀ id, us_id (f id) = id) →
  ∃ p' r, user_create f p = (p', r) ∧ (sso_ok p → sso_ok p') ∧ quiet (pr_login p) (pr_login p') ∧
    ∀ row, r = Ok row → row = f (us_id row) ∧ ls_users (pr_login p') = ls_users (pr_login p) ++ [row] ∧
      ∀ u, u ∈ ls_users (pr_login p) → us_id u ≠ us_id row ∧ us_username u ≠ us_username row.
Proof.
  intros Hf. unfold user_create, hguard, hbind, hret, on_login, draw, hmodify, hget. cbn.
  set (row := f (uuid _)). destruct (existsb _ _) eqn:E.
  - eexists _, _. split; [reflexivity|]. split_and!; [apply sso_ok_login|constructor; cbn; [done|done|lia]|done].
  - eexists _, _. split; [reflexivity|]. split_and!; [intros ?; by apply sso_ok_login, sso_ok_login|constructor; cbn; [done|done|lia]|].
    intros ? [= <-]. split_and!; [unfold row; by rewrite Hf|done|]. intros u Hu.
    assert (String.eqb (us_id u) (us_id row) || String.eqb (us_username u) (us_username row) = false) as Hu'.
    { apply not_true_iff_false. intros Ht. apply not_true_iff_false in E. apply E, existsb_exists. exists u.
      split; [by apply list_elem_of_In|]. by rewrite Ht. }
    apply orb_false_iff in Hu' as [?%String.eqb_neq ?%String.eqb_neq]. done.
Qed.

(** The account a response signs in: the one that carries the object id, or a
    new one with no rights to inherit and flagged for review. *)
Definition saml_account (profile : Profile) (p : Process) (p' : Process) (id : string) : Prop :=
  match List.find (λ u, bool_decide (us_azureOid u = Some (saml_oid profile))) (ls_users (pr_login p)) with
  | Some u => us_id u = id
  | None => ∃ name hash,
      saml_user id name hash (saml_oid profile) (saml_displayName profile) (saml_email profile) (pr_now p)
        ∈ ls_users (pr_login p') ∧
      "readonly"%string ∈ pr_roles p ∧
      ∀ u, u ∈ ls_users (pr_login p) → us_id u ≠ id ∧ us_username u ≠ name
  end.

Lemma findOrProvision_run profile p :
  ∃ p' r, findOrProvisionSamlUser profile p = (p', r) ∧ (sso_ok p → sso_ok p') ∧ quiet (pr_login p) (pr_login p') ∧
    ∀ user, r = Ok user → Js.truthy (saml_oid profile) = true ∧ saml_account profile p p' (us_id user).
Proof.
  unfold findOrProvisionSamlUser, saml_account, hguard. unfold hbind at 1.
  destruct (negb (Js.truthy (saml_oid profile))) eqn:Ho.
  { exists p; eexists. split_and!; [reflexivity|done|done|done]. }
  apply negb_false_iff in Ho. unfold hret at 1, hbind at 1, on_login at 1, findUser, hgets at 1. cbn [fst snd].
  destruct (List.find _ _) as [u|] eqn:Hf.
  { unfold hbind, hgets, on_login, hmodify, hret. eexists _, _. split; [reflexivity|].
    split_and!; [intros ?; by apply sso_ok_login, sso_ok_login|by constructor|]. by intros ? [= <-]. }
  unfold hbind at 1, hgets at 1. unfold hbind at 1, hgets at 1. unfold hbind at 1, on_login at 1, draw at 1.
  unfold hbind at 1, on_login at 1, draw at 1. unfold hbind at 1, hget. cbn [pr_login set_login_state pr_roles].
  set (p2 := set_login_state _ (set_login_state _ _)).
  assert (sso_ok p → sso_ok p2) as Hok2 by (intros ?; by apply sso_ok_login, sso_ok_login, sso_ok_login).
  assert (quiet (pr_login p) (pr_login p2)) as Hq2 by (constructor; cbn; [done|done|lia]).
  unfold hbind at 1. case_bool_decide as Hr; cbn [negb]; [|exists p2; eexists; by split_and!].
  unfold hret at 1. set (name := free_username _ _ _). set (hash := argonHash _ _).
  destruct (user_create_run (λ id, saml_user id name hash (saml_oid profile) (saml_displayName profile) (saml_email profile) (pr_now p)) p2)
    as (p3 & r & E & Hok3 & Hq3 & Hrow); [done|].
  exists p3, r. split; [exact E|]. split_and!; [auto|by etrans|]. intros user Hu. split; [done|].
  destruct (Hrow _ Hu) as (Hrow' & Husers & Hfresh). exists name, hash. split_and!; [|done|].
  - rewrite <- Hrow', Husers. apply elem_of_app. right. by apply list_elem_of_singleton.
  - intros x Hx. destruct (Hfresh x Hx) as [? Hn]. split; [done|]. by rewrite Hrow' in Hn.
Qed.

(** What the callback has checked before it signs a user in. *)
Record saml_accepted (body : SamlBody) p p' (profile : Profile) (id : string) : Prop := mkSamlAccepted {
  sa_checked : ∃ v, pr_sso p = Some v ∧ sso_complete v = true ∧
    samlValidate (saml_config v) body (pr_now p) = Ok (Some profile);
  sa_oid : Js.truthy (saml_oid profile) = true;
  sa_account : saml_account profile p p' id;
}.

Lemma azureCallback_effect relay body p p' ans :
  sso_ok p → azureCallback relay body p = (p', ans) →
  sso_ok p' ∧
  ((quiet (pr_login p) (pr_login p') ∧ ans ≠ Ok AzureSignedIn) ∨
   ∃ profile id s1, saml_accepted body p p' profile id ∧ quiet (pr_login p) s1 ∧ ans = Ok AzureSignedIn ∧
     pr_login p' = add_session (mkSession id true (BySaml profile)) s1).
Proof.
  intros Hok. unfold azureCallback. match goal with |- context [if ?b then _ else _] => destruct b end.
  { intros [= <- <-]. split; [done|]. left. by split. }
  unfold hcatch. unfold hbind at 1.
  destruct (validateSamlResponse_run body p Hok) as (p1 & [profile|e] & -> & Hok1 & (Hl & Hs & Hr) & Hv).
  2: { intros [= <- <-]. split; [done|]. left. rewrite Hl. by split. }
  unfold hbind at 1. destruct (findOrProvision_run profile p1) as (p2 & [user|e] & -> & Hok2 & Hq & Ha).
  2: { intros [= <- <-]. split; [auto|]. left. rewrite <- Hl. by split. }
  unfold hbind, on_login, hmodify, hret. intros [= <- <-]. split; [apply sso_ok_login; auto|]. right.
  destruct (Ha _ eq_refl) as [Ho Hacc]. exists profile, (us_id user), (pr_login p2).
  rewrite <- Hl. split_and!; [|done..]. constructor; [by apply Hv|done|]. unfold saml_account, pr_now in *.
  rewrite Hl, Hr in Hacc. exact Hacc.
Qed.

Lemma azureLogin_quiet p p' r :
  sso_ok p → azureLogin p = (p', r) → sso_ok p' ∧ quiet (pr_login p) (pr_login p').
Proof.
  intros Hok. unfold azureLogin, isAzureSsoConfiguredAsync. unfold hbind at 1. unfold hbind at 1.
  destruct (getSsoSettings_run p Hok) as (p1 & -> & Hok1 & (Hl & _) & _). unfold hret at 1.
  destruct (negb _); [intros [= <- _]; by rewrite Hl|]. unfold hbind at 1, on_login, draw. set (p2 := set_login_state _ p1).
  assert (sso_ok p2) as Hok2 by by apply sso_ok_login.
  assert (quiet (pr_login p) (pr_login p2)) as Hq by (rewrite <- Hl; constructor; cbn; [done|done|lia]).
  unfold hcatch. unfold hbind at 1. destruct (getSamlClient_run p2 Hok2) as (p3 & [c|e] & -> & Hok3 & (Hl3 & _) & _).
  - unfold hbind, hlift. destruct (samlAuthorizeUrl _ _); intros [= <- _]; by rewrite Hl3.
  - intros [= <- _]. by rewrite Hl3.
Qed.
End settings.

(** ** Where the sessions come from *)

Section sign_in.
Context `{AuthLib, SamlLib}.
Implicit Types (p : Process).

(** A session or a challenge that a call adds, with the credentials behind it. *)
Inductive granted p : Event → Process → Prop :=
  | granted_quiet ev p' : quiet (pr_login p) (pr_login p') → granted p ev p'
  | granted_session u pw user s1 p' :
      password_accepted u pw (pr_login p) user → needs_totp user = false → quiet (pr_login p) s1 →
      (login u pw (pr_login p)).2 = Ok SessionIssued →
      pr_login p' = add_session (mkSession (us_id user) false ByPassword) s1 → granted p (CLogin u pw) p'
  | granted_challenge u pw user s1 p' n :
      password_accepted u pw (pr_login p) user → needs_totp user = true → quiet (pr_login p) s1 →
      (login u pw (pr_login p)).2 = Ok (MfaRequired (random n)) →
      n = ls_draws s1 → grants (pr_login p') = grants s1 → ls_draws (pr_login p') = S n →
      ls_mfa (pr_login p') = mset (random n) (mkMfaEntry (us_id user) (us_username user) (ls_now s1 + TTL_MS)) (ls_mfa s1) →
      granted p (CLogin u pw) p'
  | granted_second t c b user s1 p' :
      code_accepted t c b (pr_login p) user → quiet (pr_login p) s1 → t ∉ mkeys (ls_mfa s1) →
      pr_login p' = add_session (mkSession (us_id user) true (ByChallenge t)) s1 → granted p (CTotp t c b) p'
  | granted_saml relay body profile id s1 p' :
      saml_accepted body p p' profile id → quiet (pr_login p) s1 →
      pr_login p' = add_session (mkSession id true (BySaml profile)) s1 → granted p (CAzureCallback relay body) p'.

Lemma on_login_quiet {A} (m : M LoginState A) p :
  quiet_run m → quiet (pr_login p) (pr_login (on_login m p).1).
Proof. intros Hm. unfold on_login. destruct (m (pr_login p)) as [l r] eqn:E. by eapply Hm. Qed.
Lemma on_login_sso {A} (m : M LoginState A) p : sso_ok p → sso_ok (on_login m p).1.
Proof. intros Hok. unfold on_login. destruct (m _). by apply sso_ok_login. Qed.

Lemma happen_sso ev p : sso_ok p → sso_ok (happen ev p).
Proof.
  intros Hok. destruct ev; cbn [happen]; try by apply on_login_sso.
  - destruct (azureLogin p) as [p' r] eqn:E. by eapply azureLogin_quiet.
  - destruct (azureCallback samlRelayState body p) as [p' r] eqn:E. by eapply azureCallback_effect.
  - destruct (updateSsoSettings_run u p Hok) as (p' & -> & ? & _). done.
  - by destruct Hok.
Qed.

Lemma happen_granted ev p : sso_ok p → granted p ev (happen ev p).
Proof.
  intros Hok. destruct ev as [u pw|t c b|id|id n c|id c b|id pw| |relay body|u|ms| | |l|l]; cbn [happen].
  - unfold on_login. destruct (login u pw (pr_login p)) as [l r] eqn:E.
    destruct (login_effect _ _ _ _ _ E) as [(e & _ & Hq)|(user & s1 & Hp & Hq & [(Hn & -> & ->)|(Hn & -> & Ha & Hd & Hm)])].
    + by constructor.
    + by eapply granted_session; rewrite ?E.
    + by eapply granted_challenge; rewrite ?E.
  - unfold on_login. destruct (loginTotp t c b (pr_login p)) as [l r] eqn:E.
    destruct (loginTotp_effect _ _ _ _ _ _ E) as [(e & _ & Hq)|(user & s1 & Hc & Hq & Hg & _ & ->)];
      [by constructor|by eapply granted_second].
  - constructor. apply on_login_quiet, quiet_totpEnroll.
  - constructor. apply on_login_quiet, quiet_totpConfirm.
  - constructor. apply on_login_quiet, quiet_totpDisable.
  - constructor. apply on_login_quiet, quiet_resetPassword.
  - constructor. destruct (azureLogin p) as [p' r] eqn:E. by eapply azureLogin_quiet.
  - destruct (azureCallback relay body p) as [p' r] eqn:E.
    destruct (azureCallback_effect _ _ _ _ _ Hok E) as (_ & [[Hq _]|(profile & id & s1 & Ha & Hq & _ & Hl)]);
      [by constructor|by eapply granted_saml].
  - constructor. destruct (updateSsoSettings_run u p Hok) as (p' & -> & _ & Hl). cbn. by rewrite Hl.
  - constructor. apply on_login_quiet, quiet_hmodify. intros s. apply quiet_set_clock.
  - constructor. apply on_login_quiet, quiet_hmodify. intros s. apply quiet_set_lock.
  - constructor. apply on_login_quiet, quiet_hmodify. intros s. apply quiet_set_mfa, filter_incl.
  - constructor. apply on_login_quiet, quiet_hmodify. intros s. apply quiet_set_users.
  - by constructor.
Qed.

Lemma run_app evs evs' p : run (evs ++ evs') p = run evs' (run evs p).
Proof. apply foldl_app. Qed.

(** In the run of [evs] from [p0], the login of some [username] and [password]
    was accepted for [user], before [post]. *)
Definition password_shown p0 (evs : list Event) (user : User) (answer : LoginAnswer) : Prop :=
  ∃ pre u pw post, evs = pre ++ CLogin u pw :: post ∧
    password_accepted u pw (pr_login (run pre p0)) user ∧
    (login u pw (pr_login (run pre p0))).2 = Ok answer.

Definition earned p0 (evs : list Event) (id : string) (o : Origin) : Prop :=
  match o with
  | ByPassword => ∃ user, password_shown p0 evs user SessionIssued ∧ us_id user = id ∧ needs_totp user = false
  | ByChallenge t =>
      ∃ pre c b post user holder, evs = pre ++ CTotp t c b :: post ∧
        code_accepted t c b (pr_login (run pre p0)) holder ∧ us_id holder = id ∧
        password_shown p0 pre user (MfaRequired t) ∧ us_id user = id
  | BySaml profile =>
      ∃ pre relay body post, evs = pre ++ CAzureCallback relay body :: post ∧
        saml_accepted body (run pre p0) (run (pre ++ [CAzureCallback relay body]) p0) profile id
  end.

Lemma password_shown_later p0 evs ev user a : password_shown p0 evs user a → password_shown p0 (evs ++ [ev]) user a.
Proof. intros (pre & u & pw & post & -> & ? & ?). exists pre, u, pw, (post ++ [ev]). by rewrite <- app_assoc. Qed.
Lemma earned_later p0 evs ev id o : earned p0 evs id o → earned p0 (evs ++ [ev]) id o.
Proof.
  destruct o as [|t|profile].
  - intros (user & ? & ? & ?). exists user. split_and!; [by apply password_shown_later|done..].
  - intros (pre & c & b & post & user & holder & -> & ?). exists pre, c, b, (post ++ [ev]), user, holder. by rewrite <- app_assoc.
  - intros (pre & relay & body & post & -> & ?). exists pre, relay, body, (post ++ [ev]). by rewrite <- app_assoc.
Qed.

(** The challenges and the sessions of a run. *)
Record accounted p0 (evs : list Event) : Prop := mkAccounted {
  ac_sso : sso_ok (run evs p0);
  ac_mfa : ∀ t e, (t, e) ∈ ls_mfa (pr_login (run evs p0)) →
    ∃ user, password_shown p0 evs user (MfaRequired t) ∧ us_id user = mfa_userId e;
  ac_grants : ∀ id o, (id, o) ∈ grants (pr_login (run evs p0)) → earned p0 evs id o;
}.

Lemma accounted_step p0 evs ev : accounted p0 evs → accounted p0 (evs ++ [ev]).
Proof.
  intros [Hsso Hm Hg]. pose proof (happen_granted ev _ Hsso) as Hgr.
  assert (run (evs ++ [ev]) p0 = happen ev (run evs p0)) as Hrun by by rewrite run_app.
  assert (Hm' : ∀ s1, quiet (pr_login (run evs p0)) s1 → ∀ t e, (t, e) ∈ ls_mfa s1 →
    ∃ user, password_shown p0 (evs ++ [ev]) user (MfaRequired t) ∧ us_id user = mfa_userId e).
  { intros s1 Hq t e Hin. destruct (Hm t e) as (user & ? & ?); [by apply (quiet_mfa _ _ Hq)|].
    exists user. split; [by apply password_shown_later|done]. }
  assert (Hg' : ∀ s1, quiet (pr_login (run evs p0)) s1 → ∀ id o, (id, o) ∈ grants s1 → earned p0 (evs ++ [ev]) id o).
  { intros s1 Hq id o. rewrite (quiet_grants _ _ Hq). intros Hin. by apply earned_later, Hg. }
  constructor; rewrite ?Hrun; [by apply happen_sso|..].
  - destruct Hgr as [ev p' Hq|u pw user s1 p' Hp Hn Hq Hans Hl|u pw user s1 p' n Hp Hn Hq Ha -> Hgs Hd Hmf|
      t c b user s1 p' Hc Hq Hgone Hl|relay body profile id s1 p' Ha Hq Hl].
    + by apply Hm'.
    + rewrite Hl. exact (Hm' s1 Hq).
    + rewrite Hmf. intros t e [[= -> ->]|Hin]%elem_mset; [|by eapply Hm'].
      exists user. split; [|done]. by exists evs, u, pw, [].
    + rewrite Hl. exact (Hm' s1 Hq).
    + rewrite Hl. exact (Hm' s1 Hq).
  - destruct Hgr as [ev p' Hq|u pw user s1 p' Hp Hn Hq Hans Hl|u pw user s1 p' n Hp Hn Hq Ha -> Hgs Hd Hmf|
      t c b user s1 p' Hc Hq Hgone Hl|relay body profile id s1 p' Ha Hq Hl].
    + by apply Hg'.
    + intros id o. rewrite Hl, grants_add_session, elem_of_app, list_elem_of_singleton.
      intros [Hin|[= -> ->]]; [by eapply Hg'|]. exists user. split_and!; [|done|done]. by exists evs, u, pw, [].
    + intros id o. rewrite Hgs. by apply Hg'.
    + intros id o. rewrite Hl, grants_add_session, elem_of_app, list_elem_of_singleton.
      intros [Hin|[= -> ->]]; [by eapply Hg'|].
      pose proof Hc as (pending & secret & Hget & _ & _ & Hf & _). apply find_some in Hf as [_ Hf%String.eqb_eq].
      destruct (Hm t pending) as (first & Hshown & Hid); [by apply mget_elem|].
      exists evs, c, b, [], first, user. split_and!; [done|done|done|done|by rewrite Hid, Hf].
    + intros id' o. rewrite Hl, grants_add_session, elem_of_app, list_elem_of_singleton.
      intros [Hin|[= -> ->]]; [by eapply Hg'|]. exists evs, relay, body, []. split; [done|]. by rewrite Hrun.
Qed.

(** C25: a session is never issued without the credentials.  From a process
    with no sessions, no challenges and nothing cached of its SSO settings,
    through any sequence of calls to the local and the SAML endpoints, of edits of
    the SSO settings, and of writes to the users and the roles by other handlers,
    every session in the process comes from one of three calls of that sequence.
    A login, answered with a session: the password checked against the user's row
    while the name was not locked, and the user had no second factor.  A second
    step: a right code for the user, under a live challenge that an earlier login
    of the same user was answered with, for a right password.  A SAML callback: a
    response the library accepted, at that moment and under the client built from
    the settings then stored, for the account with the object id of the assertion,
    or for a new one. *)
Theorem session_earned p0 evs x :
  ls_sessions (pr_login p0) = [] → ls_mfa (pr_login p0) = [] → pr_cache p0 = None → pr_client p0 = None →
  x ∈ ls_sessions (pr_login (run evs p0)) → earned p0 evs (se_userId x) (se_origin x).
Proof.
  intros H1 H2 H3 H4 Hin. assert (accounted p0 evs) as [_ _ Hg].
  { clear Hin. induction evs as [|ev evs IH] using rev_ind; [|by apply accounted_step].
    constructor; cbn; unfold grants; rewrite ?H1, ?H2; [|by intros ?? ?%elem_of_nil..].
    constructor; rewrite ?H3, ?H4; by intros. }
  apply Hg. unfold grants. apply list_elem_of_fmap. by exists x.
Qed.

(** The challenges, pending or answered, are distinct draws of the past. *)
Record challenges_ok (s : LoginState) : Prop := mkChallengesOk {
  ch_once : NoDup (answered s);
  ch_gone : ∀ t, t ∈ answered s → t ∉ mkeys (ls_mfa s);
  ch_drawn : ∀ t, t ∈ answered s ∨ t ∈ mkeys (ls_mfa s) → ∃ n, (n < ls_draws s)%nat ∧ t = random n;
}.

Lemma mkeys_incl (m m' : MfaStore) : m' ⊆ m → mkeys m' ⊆ mkeys m.
Proof. intros Hm t (x & -> & Hx)%list_elem_of_fmap. apply list_elem_of_fmap. exists x. auto. Qed.

Lemma challenges_ok_quiet s s' : quiet s s' → challenges_ok s → challenges_ok s'.
Proof.
  intros [Hg Hm Hd] [H1 H2 H3]. pose proof (mkeys_incl _ _ Hm) as Hk. unfold answered in *.
  constructor; unfold answered; rewrite Hg; [done|set_solver|].
  intros t Ht. destruct (H3 t) as (n & Hn & ->); [set_solver|]. exists n. split; [lia|done].
Qed.

Lemma answered_add_session x s : answered (add_session x s) = answered s ++ option_list (answer_of (se_origin x)).
Proof. unfold answered. rewrite grants_add_session, omap_app. cbn. by destruct (answer_of _). Qed.

Lemma challenges_ok_happen ev p :
  Inj (=) (=) random → sso_ok p → challenges_ok (pr_login p) → challenges_ok (pr_login (happen ev p)).
Proof.
  intros Hinj Hsso Hok. destruct (happen_granted ev p Hsso) as
    [ev p' Hq|u pw user s1 p' Hp Hn Hq Hans Hl|u pw user s1 p' n Hp Hn Hq Ha -> Hgr Hd Hmf|
     t c b user s1 p' Hc Hq Hgone Hl|relay body profile id s1 p' Ha Hq Hl].
  - by eapply challenges_ok_quiet.
  - apply (challenges_ok_quiet _ _ Hq) in Hok as [H1 H2 H3]. rewrite Hl.
    constructor; rewrite answered_add_session; cbn; rewrite ?app_nil_r; done.
  - apply (challenges_ok_quiet _ _ Hq) in Hok as [H1 H2 H3].
    assert (answered (pr_login p') = answered s1) as Han by (unfold answered; by rewrite Hgr).
    assert (Hk : ∀ t, t ∈ mkeys (ls_mfa (pr_login p')) → t ∈ mkeys (ls_mfa s1) ∨ t = random (ls_draws s1)).
    { intros t. rewrite Hmf, mkeys_mset. destruct (mhas _ _); [auto|]. rewrite elem_of_app, list_elem_of_singleton. auto. }
    constructor; rewrite ?Han; [done| |].
    + intros t Ht Hin. destruct (Hk t Hin) as [Hin1| ->]; [by eapply H2|].
      destruct (H3 (random (ls_draws s1))) as (n & Hlt & ?%Hinj); [by left|lia].
    + rewrite Hd. intros t [Ht|[Ht| ->]%Hk].
      1,2: destruct (H3 t) as (n & Hn' & ->); [auto|]; exists n; split; [lia|done].
      exists (ls_draws s1). split; [lia|done].
  - assert (t ∈ mkeys (ls_mfa (pr_login p))) as Ht.
    { destruct Hc as (pending & secret & Hg & _). apply elem_mkeys. by eexists. }
    pose proof (ch_gone _ Hok t) as Hna. pose proof (ch_drawn _ Hok t (or_intror Ht)) as (n & Hn & Htn).
    apply (challenges_ok_quiet _ _ Hq) in Hok as [H1 H2 H3].
    assert (t ∉ answered s1) as Hna1. { unfold answered in *. rewrite (quiet_grants _ _ Hq). intros ?. by apply Hna. }
    rewrite Hl. constructor; rewrite answered_add_session; cbn [ls_mfa ls_draws add_session answer_of se_origin option_list].
    + apply NoDup_app. split_and!; [done| |apply NoDup_singleton]. by intros x Hx ->%list_elem_of_singleton.
    + intros x [Hx| ->%list_elem_of_singleton]%elem_of_app; [by apply H2|done].
    + intros x [[Hx| ->%list_elem_of_singleton]%elem_of_app|Hx]; [auto| |auto].
      exists n. split; [|done]. pose proof (quiet_draws _ _ Hq). lia.
  - apply (challenges_ok_quiet _ _ Hq) in Hok as [H1 H2 H3]. rewrite Hl.
    constructor; rewrite answered_add_session; cbn; rewrite ?app_nil_r; done.
Qed.

(** A pending-login challenge is single-use.  When the random generator
    does not repeat itself, no two sessions ever answer the same challenge, and
    an answered challenge is not pending again, whatever is called, one call
    after the other. *)
Theorem challenge_single_use p0 evs :
  Inj (=) (=) random → ls_sessions (pr_login p0) = [] → ls_mfa (pr_login p0) = [] → sso_ok p0 →
  NoDup (answered (pr_login (run evs p0))) ∧
  ∀ t, t ∈ answered (pr_login (run evs p0)) → mget t (ls_mfa (pr_login (run evs p0))) = None.
Proof.
  intros Hinj H1 H2 H3.
  assert (sso_ok (run evs p0) ∧ challenges_ok (pr_login (run evs p0))) as [_ [Hnd Hgone _]].
  { induction evs as [|ev evs [Hs Hc]] using rev_ind.
    - split; [done|]. constructor; unfold answered, grants; cbn; rewrite ?H1, ?H2; [constructor|set_solver|set_solver].
    - rewrite run_app. split; [by apply happen_sso|by apply challenges_ok_happen]. }
  split; [done|]. intros t Ht%Hgone. destruct (mget t (ls_mfa _)) eqn:Hg; [|done]. exfalso. apply Ht, elem_mkeys. by eexists.
Qed.
End sign_in.

(** ** Concrete runs *)

(** A library that takes the body of a response as its profile, when the
    signature in it is the certificate. *)
Definition toy_saml : SamlLib := {|
  samlValidate c body _ := if bool_decide (mget "signature"%string body = Some (sc_idpCert c))
                           then Ok (Some body) else Throw (JsError "Invalid signature");
  samlAuthorizeUrl c relay := Ok (sc_entryPoint c +:+ "?RelayState=" +:+ relay);
  uuid n := "user-" +:+ pretty n;
|}.
#[local] Existing Instances toy_lib toy_saml.

Definition sso_on (enabled : bool) : SsoUpdate :=
  mkSsoUpdate (Some enabled) (Some "https://polaris.example/") (Some "https://idp.example") (Some "https://idp.example/sso")
    None (Some "CERT") None None None.
Definition alice_response : SamlBody :=
  [("signature", "CERT"); ("nameID", "oid-alice"); ("email", "Alice.B@example.com")].
Definition bob_start : Process := mkProcess bob_process None None None ["readonly"].

(** Bob signs in with his password and his code, Alice with an assertion. *)
Definition two_sign_ins : list Event :=
  [CLogin "bob" "pw"; CTotp "0" "123 456" false; CUpdateSso (sso_on true); CAzureLogin; CTick 5;
   CAzureCallback None alice_response].

Lemma session_earned_witness :
  (λ x, (se_userId x, se_mfaVerified x)) <$> ls_sessions (pr_login (run two_sign_ins bob_start)) = [("u1", true); ("user-4", true)] ∧
  earned bob_start two_sign_ins "u1" (ByChallenge "0") ∧ earned bob_start two_sign_ins "user-4" (BySaml alice_response).
Proof.
  split; [vm_compute; reflexivity|]. split.
  - apply (session_earned bob_start two_sign_ins (mkSession "u1" true (ByChallenge "0"))); try reflexivity. vm_compute. left.
  - apply (session_earned bob_start two_sign_ins (mkSession "user-4" true (BySaml alice_response))); try reflexivity.
    vm_compute. right. left.
Defined.

Lemma challenge_single_use_witness :
  answered (pr_login (run two_sign_ins bob_start)) = ["0"] ∧ mget "0"%string (ls_mfa (pr_login (run two_sign_ins bob_start))) = None.
Proof.
  assert (answered (pr_login (run two_sign_ins bob_start)) = ["0"]) as Ha by (vm_compute; reflexivity). split; [done|].
  apply (challenge_single_use bob_start two_sign_ins); [apply _|reflexivity|reflexivity|by constructor|]. rewrite Ha. left.
Defined.

(** The callback does not look at [enabled]: with SSO switched off the sign-in
    page is not offered, and an assertion still signs its user in. *)
Example disabled_sso_signs_in :
  let p := run [CUpdateSso (sso_on true); CUpdateSso (sso_on false)] bob_start in
  (azureLogin p).2 = Ok AzureNotConfigured ∧ (azureCallback None alice_response p).2 = Ok AzureSignedIn.
Proof. split; vm_compute; reflexivity. Qed.
