(* ===== verification/MonitorSettings.v ===== *)
(** * Monitor settings

    The four-tier settings hierarchy of [src/src/services/monitoringService.ts]
    (lines 147 to 1124), its compatibility matrix
    [src/src/utils/pollingCompatibility.ts], and the endpoints of
    [src/src/api/routes/monitorSettings.ts] that write the tiers and drop the
    resolver's caches.  A settings object is a function of its field names,
    which the code lists one by one. *)

From S2P Require Import Prelude Http JsColl.

(** ** [pollingCompatibility.ts] *)

Inductive PollingMethod := RestApi | Snmp | Winrm | Ssh | Icmp | Disabled | AgentPoll.
#[export] Instance PollingMethod_eq_dec : EqDecision PollingMethod.
Proof. solve_decision. Defined.

Inductive Stream := ResponseTime | CpuMemory | Temperature | Interfaces | LldpStream | StorageStream.
#[export] Instance Stream_eq_dec : EqDecision Stream.
Proof. solve_decision. Defined.

Inductive AssetSourceKind := Fortimanager | Fortigate | ActiveDirectory | EntraId | WindowsServer | ManualSource.

Definition method_text (m : PollingMethod) : string :=
  match m with
  | RestApi => "rest_api" | Snmp => "snmp" | Winrm => "winrm" | Ssh => "ssh"
  | Icmp => "icmp" | Disabled => "disabled" | AgentPoll => "agent"
  end.
Definition ALL_METHODS : list PollingMethod := [RestApi; Snmp; Winrm; Ssh; Icmp; Disabled; AgentPoll].

Definition COMPATIBILITY (source : AssetSourceKind) : list PollingMethod :=
  match source with
  | Fortimanager | Fortigate => [RestApi; Snmp; Ssh; Icmp; Disabled]
  | ActiveDirectory | EntraId | WindowsServer => [Icmp; Winrm; Ssh; Disabled; AgentPoll]
  | ManualSource => ALL_METHODS
  end.

Definition assetSourceKindFromIntegrationType (t : option string) : AssetSourceKind :=
  match t with
  | None => ManualSource
  | Some t =>
      if String.eqb t "fortimanager" then Fortimanager
      else if String.eqb t "fortigate" then Fortigate
      else if String.eqb t "activedirectory" then ActiveDirectory
      else if String.eqb t "entraid" then EntraId
      else if String.eqb t "windowsserver" then WindowsServer
      else ManualSource
  end.

Definition isPollingMethodCompatible (source : AssetSourceKind) (m : PollingMethod) : bool :=
  bool_decide (m ∈ COMPATIBILITY source).

(** [isPollingMethod(v) ? v : null] *)
Definition isPollingMethod (v : option string) : option PollingMethod :=
  match v with
  | Some v => List.find (λ m, String.eqb v (method_text m)) ALL_METHODS
  | None => None
  end.

(** ** The fields *)

Inductive NumKey :=
  | intervalSeconds | failureThreshold | probeTimeoutMs | cpuMemoryTimeoutMs | temperatureTimeoutMs
  | systemInfoTimeoutMs | cpuMemoryIntervalSeconds | temperatureIntervalSeconds | systemInfoIntervalSeconds
  | sampleRetentionDays | telemetryRetentionDays | systemInfoRetentionDays.
#[export] Instance NumKey_eq_dec : EqDecision NumKey.
Proof. solve_decision. Defined.

(** The streams that carry a MIB and a credential. *)
Inductive MibKey := MibResponseTime | MibCpuMemory | MibTemperature | MibInterfaces | MibLldp.
#[export] Instance MibKey_eq_dec : EqDecision MibKey.
Proof. solve_decision. Defined.

Record MonitorTierSettings := mkTier {
  ts_num : NumKey → Z;
  ts_polling : Stream → option PollingMethod;
  ts_mib : MibKey → option string;
  ts_cred : MibKey → option string;
}.

Record MonitorOverrideSettings := mkOverride {
  ov_num : NumKey → option Z;
  ov_polling : Stream → option PollingMethod;
  ov_mib : MibKey → option string;
  ov_cred : MibKey → option string;
}.

Definition HARDCODED_NUM (k : NumKey) : Z :=
  match k with
  | intervalSeconds => 60
  | failureThreshold => 3
  | probeTimeoutMs => 5000
  | cpuMemoryTimeoutMs | temperatureTimeoutMs | systemInfoTimeoutMs => 10000
  | cpuMemoryIntervalSeconds | temperatureIntervalSeconds => 60
  | systemInfoIntervalSeconds => 600
  | sampleRetentionDays | telemetryRetentionDays | systemInfoRetentionDays => 30
  end.
Definition HARDCODED_FLOOR : MonitorTierSettings :=
  mkTier HARDCODED_NUM (λ _, None) (λ _, None) (λ _, None).

Definition num_name (k : NumKey) : string :=
  match k with
  | intervalSeconds => "intervalSeconds" | failureThreshold => "failureThreshold"
  | probeTimeoutMs => "probeTimeoutMs" | cpuMemoryTimeoutMs => "cpuMemoryTimeoutMs"
  | temperatureTimeoutMs => "temperatureTimeoutMs" | systemInfoTimeoutMs => "systemInfoTimeoutMs"
  | cpuMemoryIntervalSeconds => "cpuMemoryIntervalSeconds"
  | temperatureIntervalSeconds => "temperatureIntervalSeconds"
  | systemInfoIntervalSeconds => "systemInfoIntervalSeconds" | sampleRetentionDays => "sampleRetentionDays"
  | telemetryRetentionDays => "telemetryRetentionDays" | systemInfoRetentionDays => "systemInfoRetentionDays"
  end.

(** The name of a stream in the nested and in the flat shape. *)
Definition stream_name (s : Stream) : string :=
  match s with
  | ResponseTime => "responseTime" | CpuMemory => "cpuMemory" | Temperature => "temperature"
  | Interfaces => "interfaces" | LldpStream => "lldp" | StorageStream => "storage"
  end.
Definition polling_name (s : Stream) : string := stream_name s +:+ "Polling".
Definition mib_name (k : MibKey) : string :=
  match k with
  | MibResponseTime => "responseTimeMibId" | MibCpuMemory => "cpuMemoryMibId"
  | MibTemperature => "temperatureMibId" | MibInterfaces => "interfacesMibId" | MibLldp => "lldpMibId"
  end.

(** ** Reading a stored tier *)

(** [Math.floor(Number(s))] of a text: blank text is zero, a decimal number its
    floor; [None] is NaN, which exponents and radix prefixes are read as. *)
Fixpoint skip_digits (s : string) : string :=
  match s with
  | String c s' => if Js.is_digit c then skip_digits s' else s
  | EmptyString => EmptyString
  end.
Definition unsigned_floor (s : string) : option Z :=
  match skip_digits s with
  | EmptyString => if Js.truthy s then Some (Js.parse_digits 0 s) else None
  | String "." r =>
      if Js.sforallb Js.is_digit r && (Js.truthy r || negb (Js.startsWith "." s))
      then Some (Js.parse_digits 0 s) else None
  | _ => None
  end.
Definition number_of_text (s : string) : option Z :=
  match Js.trim s with
  | EmptyString => Some 0
  | String "-" r =>
      match unsigned_floor r with
      | Some n => Some (if Js.sforallb (λ c, Ascii.eqb c "0" || Ascii.eqb c ".") (skip_digits r) then - n else - n - 1)
      | None => None
      end
  | String "+" r => unsigned_floor r
  | s => unsigned_floor s
  end.

(** [Number(v)], floored. *)
Definition js_number (v : option Json) : option Z :=
  match v with
  | None => None
  | Some JNull => Some 0
  | Some (JBool b) => Some (if b then 1 else 0)
  | Some (JNum z) => Some z
  | Some (JStr s) => number_of_text s
  | Some (JArr l) => number_of_text (jshow (JArr l))
  | Some (JObj _) => None
  end.

Definition toPositiveInt (v : option Json) (fallback : Z) : Z :=
  match js_number v with
  | Some n => if n <? 0 then fallback else n
  | None => fallback
  end.

Definition toPositiveIntOr (v : option Json) (fallback : option Z) : option Z :=
  match v with
  | Some (JNum z) => if 0 <? z then Some z else fallback
  | _ => fallback
  end.

Definition readPollingFromJson (v : option Json) (key : string) : option PollingMethod :=
  if jtruthy v then isPollingMethod (jstring (jget key v)) else None.

Definition readMibIdFromJson (v : option Json) : option string :=
  match v with
  | Some (JStr s) => let t := Js.trim s in if Js.truthy t then Some t else None
  | _ => None
  end.

(** [a ?? b] *)
Definition oelse {A} (a b : option A) : option A := match a with Some x => Some x | None => b end.

Definition tierFromJson (v : Json) : MonitorTierSettings :=
  let o := match v with JNull => JObj [] | _ => v end in
  let get k := jget k (Some o) in
  let pollingBlock := jor (get "polling"%string) None in
  let flat := Some o in
  let legacyInterval := toPositiveIntOr (get "telemetryIntervalSeconds"%string) None in
  let legacyTimeout := toPositiveIntOr (get "telemetryTimeoutMs"%string) None in
  mkTier
    (λ k, toPositiveInt (get (num_name k))
            match k with
            | cpuMemoryTimeoutMs | temperatureTimeoutMs => default (HARDCODED_NUM k) legacyTimeout
            | cpuMemoryIntervalSeconds | temperatureIntervalSeconds => default (HARDCODED_NUM k) legacyInterval
            | _ => HARDCODED_NUM k
            end)
    (λ s, let own := oelse (readPollingFromJson pollingBlock (stream_name s)) (readPollingFromJson flat (polling_name s)) in
          match s with
          | CpuMemory | Temperature =>
              oelse own (oelse (readPollingFromJson pollingBlock "telemetry") (readPollingFromJson flat "telemetryPolling"))
          | _ => own
          end)
    (λ k, match k with
          | MibCpuMemory | MibTemperature =>
              oelse (readMibIdFromJson (get (mib_name k))) (readMibIdFromJson (get "telemetryMibId"%string))
          | _ => readMibIdFromJson (get (mib_name k))
          end)
    (λ _, None).

(** ** The store and the caches *)

(** A row of [MonitorClassOverride]. *)
Record ClassRow := mkClassRow {
  cr_id : string;
  cr_integrationId : option string;
  cr_assetType : string;
  cr_num : NumKey → option Z;
  cr_polling : Stream → option string;
  cr_mib : MibKey → option string;
  cr_cred : MibKey → option string;
}.

(** An integration: its type and [config.monitorSettings]. *)
Record TierIntegration := mkTierIntegration {
  ti_id : string;
  ti_type : string;
  ti_settings : option Json;
}.

Record MonState := mkMonState {
  ms_manual : option Json;
  ms_legacy : option Json;
  ms_integrations : list TierIntegration;
  ms_classes : list ClassRow;
  ms_tierCache : JsMap string MonitorTierSettings;
  ms_classCache : JsMap string (option MonitorOverrideSettings);
  ms_credentials : list string;
  ms_nextId : nat;
}.

Definition set_tierCache (c : JsMap string MonitorTierSettings) (s : MonState) : MonState :=
  mkMonState (ms_manual s) (ms_legacy s) (ms_integrations s) (ms_classes s) c (ms_classCache s) (ms_credentials s) (ms_nextId s).
Definition set_classCache (c : JsMap string (option MonitorOverrideSettings)) (s : MonState) : MonState :=
  mkMonState (ms_manual s) (ms_legacy s) (ms_integrations s) (ms_classes s) (ms_tierCache s) c (ms_credentials s) (ms_nextId s).
Definition set_manual (v : option Json) (s : MonState) : MonState :=
  mkMonState v (ms_legacy s) (ms_integrations s) (ms_classes s) (ms_tierCache s) (ms_classCache s) (ms_credentials s) (ms_nextId s).
Definition set_integrations (l : list TierIntegration) (s : MonState) : MonState :=
  mkMonState (ms_manual s) (ms_legacy s) l (ms_classes s) (ms_tierCache s) (ms_classCache s) (ms_credentials s) (ms_nextId s).
Definition set_classes (l : list ClassRow) (s : MonState) : MonState :=
  mkMonState (ms_manual s) (ms_legacy s) (ms_integrations s) l (ms_tierCache s) (ms_classCache s) (ms_credentials s) (ms_nextId s).

Definition MANUAL_TIER_CACHE_KEY : string := "__manual__".

Definition classCacheKey (integrationId : option string) (assetType : string) : string :=
  default MANUAL_TIER_CACHE_KEY integrationId +:+ ":" +:+ assetType.

(** [invalidateMonitorSettingsCache({ integrationId, assetType })], with a scope
    that names the tier as every endpoint does; only the jobs at start-up pass no
    scope.  The tier key of [null] is the manual tier. *)
Definition tier_key (integrationId : option string) : string := default MANUAL_TIER_CACHE_KEY integrationId.
Definition invalidateMonitorSettingsCache (integrationId : option string) (assetType : option string) (s : MonState) : MonState :=
  let tierKey := tier_key integrationId in
  let s := set_tierCache (mdelete tierKey (ms_tierCache s)) s in
  match assetType with
  | Some ty => set_classCache (mdelete (tierKey +:+ ":" +:+ ty) (ms_classCache s)) s
  | None => set_classCache (List.filter (λ kv, negb (Js.startsWith (tierKey +:+ ":") kv.1)) (ms_classCache s)) s
  end.

Notation Mon := (M MonState).

(** ** Tiers 3 and 2 *)

Definition legacy_tier (s : MonState) : MonitorTierSettings :=
  match ms_legacy s with
  | Some v => if jtruthy (Some v) then tierFromJson v else HARDCODED_FLOOR
  | None => HARDCODED_FLOOR
  end.

(** What the store says of a tier, the database reads of the two loaders. *)
Definition stored_integration_tier (s : MonState) (id : string) : MonitorTierSettings :=
  match List.find (λ i, String.eqb (ti_id i) id) (ms_integrations s) ≫= ti_settings with
  | Some v => if jtruthy (Some v) then tierFromJson v else legacy_tier s
  | None => legacy_tier s
  end.
Definition stored_manual_tier (s : MonState) : MonitorTierSettings :=
  match ms_manual s with
  | Some v => if jtruthy (Some v) then tierFromJson v else legacy_tier s
  | None => legacy_tier s
  end.

Definition loadIntegrationTierSettings (integrationId : string) : Mon MonitorTierSettings :=
  let! cached := hgets (λ s, mget integrationId (ms_tierCache s)) in
  match cached with
  | Some t => hret t
  | None =>
      let! result := hgets (λ s, stored_integration_tier s integrationId) in
      hmodify (λ s, set_tierCache (mset integrationId result (ms_tierCache s)) s) ;!
      hret result
  end.

Definition loadManualTierSettings : Mon MonitorTierSettings :=
  let! cached := hgets (λ s, mget MANUAL_TIER_CACHE_KEY (ms_tierCache s)) in
  match cached with
  | Some t => hret t
  | None =>
      let! result := hgets stored_manual_tier in
      hmodify (λ s, set_tierCache (mset MANUAL_TIER_CACHE_KEY result (ms_tierCache s)) s) ;!
      hret result
  end.

(** [if (v) result.f = v] for a string column *)
Definition nonempty (v : option string) : option string :=
  match v with Some s => if Js.truthy s then Some s else None | None => None end.

Definition override_of_row (row : ClassRow) : MonitorOverrideSettings :=
  mkOverride (cr_num row) (λ s, isPollingMethod (cr_polling row s)) (λ k, nonempty (cr_mib row k)) (λ k, nonempty (cr_cred row k)).

Definition covers (integrationId : option string) (assetType : string) (row : ClassRow) : bool :=
  bool_decide (cr_integrationId row = integrationId) && String.eqb (cr_assetType row) assetType.
Definition stored_class (s : MonState) (integrationId : option string) (assetType : string) : option MonitorOverrideSettings :=
  override_of_row <$> List.find (covers integrationId assetType) (ms_classes s).

Definition loadClassOverride (integrationId : option string) (assetType : string) : Mon (option MonitorOverrideSettings) :=
  let key := classCacheKey integrationId assetType in
  let! cached := hgets (λ s, mget key (ms_classCache s)) in
  match cached with
  | Some o => hret o
  | None =>
      let! result := hgets (λ s, stored_class s integrationId assetType) in
      hmodify (λ s, set_classCache (mset key result (ms_classCache s)) s) ;!
      hret result
  end.

(** ** The resolver *)

Record AssetMonitorContext := mkContext {
  ac_assetType : string;
  ac_integrationId : option string;
  ac_integrationType : option string;
  ac_num : NumKey → option Z;
  ac_polling : Stream → option string;
  ac_mib : MibKey → option string;
}.

(** The fields that have a per-asset column. *)
Definition asset_field (k : NumKey) : bool :=
  match k with
  | failureThreshold | sampleRetentionDays | telemetryRetentionDays | systemInfoRetentionDays => false
  | _ => true
  end.
Definition asset_num (asset : AssetMonitorContext) (k : NumKey) : option Z :=
  if asset_field k then ac_num asset k else None.

Definition defaultPollingForSource (source : AssetSourceKind) (stream : Stream) : option PollingMethod :=
  match source with
  | Fortimanager | Fortigate =>
      match stream with
      | LldpStream | StorageStream => Some Disabled
      | _ => Some RestApi
      end
  | _ => match stream with ResponseTime => Some Icmp | _ => None end
  end.

(** [v && isPollingMethodCompatible(source, v) ? v : resolved] *)
Definition take_compatible (source : AssetSourceKind) (v resolved : option PollingMethod) : option PollingMethod :=
  match v with
  | Some m => if isPollingMethodCompatible source m then Some m else resolved
  | None => resolved
  end.

Definition resolveStream (source : AssetSourceKind) (stream : Stream)
    (tierVal classVal : option PollingMethod) (assetVal : option string) : option PollingMethod :=
  let resolved := defaultPollingForSource source stream in
  let resolved := take_compatible source tierVal resolved in
  let resolved := take_compatible source classVal resolved in
  take_compatible source (isPollingMethod assetVal) resolved.

Definition resolveMibId (tierVal classVal assetVal : option string) : option string :=
  let resolved := tierVal in
  let resolved := if Js.otruthy classVal then classVal else resolved in
  if Js.otruthy assetVal then assetVal else resolved.

(** The merge of the tiers for one asset. *)
Definition merge_settings (tier3 : MonitorTierSettings) (classOverride : option MonitorOverrideSettings)
    (asset : AssetMonitorContext) : MonitorTierSettings :=
  let sourceKind := assetSourceKindFromIntegrationType (ac_integrationType asset) in
  mkTier
    (λ k, let merged := default (ts_num tier3 k) (classOverride ≫= λ c, ov_num c k) in
          default merged (asset_num asset k))
    (λ s, resolveStream sourceKind s (ts_polling tier3 s) (classOverride ≫= λ c, ov_polling c s) (ac_polling asset s))
    (λ k, resolveMibId (ts_mib tier3 k) (classOverride ≫= λ c, ov_mib c k) (ac_mib asset k))
    (λ k, classOverride ≫= λ c, ov_cred c k).

Definition load_tier3 (asset : AssetMonitorContext) : Mon MonitorTierSettings :=
  match ac_integrationId asset with
  | Some id => if Js.truthy id then loadIntegrationTierSettings id else loadManualTierSettings
  | None => loadManualTierSettings
  end.

Definition resolveMonitorSettings (asset : AssetMonitorContext) : Mon MonitorTierSettings :=
  let! tier3 := load_tier3 asset in
  let! classOverride := loadClassOverride (ac_integrationId asset) (ac_assetType asset) in
  hret (merge_settings tier3 classOverride asset).

(** ** The resolver with provenance *)

Inductive ProvenanceTier := FromAsset | FromClass | FromIntegration | FromManual.

Record Provenance := mkProvenance {
  pv_num : NumKey → ProvenanceTier;
  pv_polling : Stream → ProvenanceTier;
  pv_mib : MibKey → ProvenanceTier;
  pv_cred : MibKey → ProvenanceTier;
}.

(** One field: the value and the label, tier after tier. *)
Definition bump {A} (v : option A) (label : ProvenanceTier) (cur : A * ProvenanceTier) : A * ProvenanceTier :=
  match v with Some x => (x, label) | None => cur end.

Definition prov_num (tier3 : MonitorTierSettings) (classOverride : option MonitorOverrideSettings)
    (asset : AssetMonitorContext) (src : ProvenanceTier) (k : NumKey) : Z * ProvenanceTier :=
  bump (asset_num asset k) FromAsset (bump (classOverride ≫= λ c, ov_num c k) FromClass (ts_num tier3 k, src)).

(** A nullable field, of which [null] never overrides. *)
Definition bump_opt {A} (v : option A) (label : ProvenanceTier) (cur : option A * ProvenanceTier) :=
  match v with Some x => (Some x, label) | None => cur end.

Definition asset_polling (source : AssetSourceKind) (raw : option string) : option PollingMethod :=
  match isPollingMethod raw with
  | Some m => if isPollingMethodCompatible source m then Some m else None
  | None => None
  end.
Definition prov_polling (tier3 : MonitorTierSettings) (classOverride : option MonitorOverrideSettings)
    (asset : AssetMonitorContext) (src : ProvenanceTier) (s : Stream) : option PollingMethod * ProvenanceTier :=
  let sourceKindForAsset := assetSourceKindFromIntegrationType (ac_integrationType asset) in
  bump_opt (asset_polling sourceKindForAsset (ac_polling asset s)) FromAsset
    (bump_opt (classOverride ≫= λ c, ov_polling c s) FromClass (ts_polling tier3 s, src)).

Definition asset_mib (raw : option string) : option string :=
  match raw with Some r => if Js.truthy (Js.trim r) then Some r else None | None => None end.
Definition prov_mib (tier3 : MonitorTierSettings) (classOverride : option MonitorOverrideSettings)
    (asset : AssetMonitorContext) (src : ProvenanceTier) (k : MibKey) : option string * ProvenanceTier :=
  bump_opt (asset_mib (ac_mib asset k)) FromAsset
    (bump_opt (nonempty (classOverride ≫= λ c, ov_mib c k)) FromClass (ts_mib tier3 k, src)).

Definition prov_cred (tier3 : MonitorTierSettings) (classOverride : option MonitorOverrideSettings)
    (src : ProvenanceTier) (k : MibKey) : option string * ProvenanceTier :=
  bump_opt (nonempty (classOverride ≫= λ c, ov_cred c k)) FromClass (ts_cred tier3 k, src).

Record ResolvedSettingsWithProvenance := mkResolved {
  rp_resolved : MonitorTierSettings;
  rp_provenance : Provenance;
  rp_tier3Source : ProvenanceTier;
  rp_classOverrideId : option string;
}.

Definition resolveMonitorSettingsWithProvenance (asset : AssetMonitorContext) : Mon ResolvedSettingsWithProvenance :=
  let src := match ac_integrationId asset with
             | Some id => if Js.truthy id then FromIntegration else FromManual
             | None => FromManual
             end in
  let! tier3 := load_tier3 asset in
  let! classOverride := loadClassOverride (ac_integrationId asset) (ac_assetType asset) in
  let! classOverrideId :=
    match classOverride with
    | Some _ => hgets (λ s, cr_id <$> List.find (covers (ac_integrationId asset) (ac_assetType asset)) (ms_classes s))
    | None => hret None
    end in
  hret (mkResolved
    (mkTier (λ k, (prov_num tier3 classOverride asset src k).1) (λ s, (prov_polling tier3 classOverride asset src s).1)
       (λ k, (prov_mib tier3 classOverride asset src k).1) (λ k, (prov_cred tier3 classOverride src k).1))
    (mkProvenance (λ k, (prov_num tier3 classOverride asset src k).2) (λ s, (prov_polling tier3 classOverride asset src s).2)
       (λ k, (prov_mib tier3 classOverride asset src k).2) (λ k, (prov_cred tier3 classOverride src k).2))
    src classOverrideId).

(** ** The endpoints that write the tiers *)

(** A parsed body: a field is absent, [null] or a value. *)
Record SettingsInput := mkInput {
  in_num : NumKey → option (option Z);
  in_polling : Stream → option (option PollingMethod);
  in_mib : MibKey → option (option string);
  in_cred : MibKey → option (option string);
}.

Definition num_range (k : NumKey) : Z * Z :=
  match k with
  | intervalSeconds => (1, 86400)
  | failureThreshold => (1, 100)
  | probeTimeoutMs => (100, 60000)
  | cpuMemoryTimeoutMs | temperatureTimeoutMs | systemInfoTimeoutMs => (1000, 120000)
  | cpuMemoryIntervalSeconds | temperatureIntervalSeconds => (15, 86400)
  | systemInfoIntervalSeconds => (60, 86400)
  | sampleRetentionDays | telemetryRetentionDays | systemInfoRetentionDays => (0, 0)
  end.
Definition in_num_range (k : NumKey) (z : Z) : bool := ((num_range k).1 <=? z) && (z <=? (num_range k).2).

(** Retention keys are tolerated on input and dropped. *)
Definition is_retention (k : NumKey) : bool :=
  match k with sampleRetentionDays | telemetryRetentionDays | systemInfoRetentionDays => true | _ => false end.
Definition is_timeout (k : NumKey) : bool :=
  match k with cpuMemoryTimeoutMs | temperatureTimeoutMs | systemInfoTimeoutMs => true | _ => false end.

Definition ALL_NUMS : list NumKey :=
  [intervalSeconds; failureThreshold; probeTimeoutMs; cpuMemoryTimeoutMs; temperatureTimeoutMs; systemInfoTimeoutMs;
   cpuMemoryIntervalSeconds; temperatureIntervalSeconds; systemInfoIntervalSeconds].
Definition ALL_STREAMS : list Stream := [ResponseTime; CpuMemory; Temperature; Interfaces; LldpStream; StorageStream].
Definition ALL_MIBS : list MibKey := [MibResponseTime; MibCpuMemory; MibTemperature; MibInterfaces; MibLldp].

(** [TierSettingsSchema]: every field but the collector timeouts is required. *)
Definition tier_field_ok (input : SettingsInput) (k : NumKey) : bool :=
  match in_num input k with
  | Some (Some z) => in_num_range k z
  | Some None | None => is_timeout k
  end.
Definition TierSettingsSchema (input : SettingsInput) : bool := forallb (tier_field_ok input) ALL_NUMS.

(** [OverrideSettingsSchema]: every field may be absent or [null]. *)
Definition override_field_ok (input : SettingsInput) (k : NumKey) : bool :=
  match in_num input k with Some (Some z) => in_num_range k z | _ => true end.

(** [z.string().uuid()] *)
Class ZodLib := { isUuid : string → bool }.

Definition cred_ok `{ZodLib} (input : SettingsInput) (k : MibKey) : bool :=
  match in_cred input k with Some (Some c) => isUuid c | _ => true end.
Definition OverrideSettingsSchema `{ZodLib} (input : SettingsInput) : bool :=
  forallb (override_field_ok input) ALL_NUMS && forallb (cred_ok input) ALL_MIBS.

Definition ASSET_TYPES : list string :=
  ["server"; "switch"; "router"; "firewall"; "workstation"; "printer"; "access_point"; "other"].

Definition source_text (k : AssetSourceKind) : string :=
  match k with
  | Fortimanager => "fortimanager" | Fortigate => "fortigate" | ActiveDirectory => "activedirectory"
  | EntraId => "entraid" | WindowsServer => "windowsserver" | ManualSource => "manual"
  end.
Definition pollingMethodLabel (m : PollingMethod) : string :=
  match m with
  | RestApi => "REST API" | Snmp => "SNMP" | Winrm => "WinRM" | Ssh => "SSH"
  | Icmp => "ICMP" | Disabled => "Disabled" | AgentPoll => "Polaris Agent"
  end.

Definition assertPollingCompatible (source : AssetSourceKind) (input : SettingsInput) : Mon unit :=
  hforeach ALL_STREAMS (λ field,
    match in_polling input field with
    | Some (Some v) =>
        throw_if (negb (isPollingMethodCompatible source v))
          (AppError 400 (pollingMethodLabel v +:+ " polling is not supported for " +:+ source_text source +:+
                         " assets (field: " +:+ polling_name field +:+ ")"))
    | _ => hret tt
    end).

(** The stored JSON of a tier, without the retention keys. *)
Definition json_field {A} (name : string) (show : A → Json) (v : option (option A)) : list (string * Json) :=
  match v with
  | None => []
  | Some None => [(name, JNull)]
  | Some (Some x) => [(name, show x)]
  end.
Definition tier_json (input : SettingsInput) : Json :=
  JObj (List.concat (List.map (λ k, json_field (num_name k) JNum (in_num input k)) ALL_NUMS) ++
        List.concat (List.map (λ k, json_field (polling_name k) (λ m, JStr (method_text m)) (in_polling input k)) ALL_STREAMS) ++
        List.concat (List.map (λ k, json_field (mib_name k) JStr (in_mib input k)) ALL_MIBS)).

(** PUT /monitor-settings/manual *)
Definition putManual (input : SettingsInput) : Mon unit :=
  throw_if (negb (TierSettingsSchema input)) (JsError "ZodError") ;!
  hmodify (set_manual (Some (tier_json input))) ;!
  hmodify (invalidateMonitorSettingsCache None None).

Definition find_integration (id : string) : Mon (option TierIntegration) :=
  hgets (λ s, List.find (λ i, String.eqb (ti_id i) id) (ms_integrations s)).
Definition set_settings (id : string) (v : option Json) (l : list TierIntegration) : list TierIntegration :=
  (λ i, if String.eqb (ti_id i) id then mkTierIntegration (ti_id i) (ti_type i) v else i) <$> l.

(** PUT /monitor-settings/integration/:id *)
Definition putIntegration (id : string) (input : SettingsInput) : Mon unit :=
  throw_if (negb (TierSettingsSchema input)) (JsError "ZodError") ;!
  let! integration := find_integration id in
  match integration with
  | None => hthrow (AppError 404 "Integration not found")
  | Some integration =>
      assertPollingCompatible (assetSourceKindFromIntegrationType (Some (ti_type integration))) input ;!
      hmodify (λ s, set_integrations (set_settings id (Some (tier_json input)) (ms_integrations s)) s) ;!
      hmodify (invalidateMonitorSettingsCache (Some id) None)
  end.

(** The credentials a row names must exist. *)
Definition check_credentials (input : SettingsInput) : Mon unit :=
  let! s := hget in
  hforeach ALL_MIBS (λ k,
    match in_cred input k with
    | Some (Some c) => throw_if (negb (bool_decide (c ∈ ms_credentials s))) (PrismaError "P2003")
    | _ => hret tt
    end).

(** [data: { ...settings }]: an absent field keeps what was there. *)
Definition keep {A} (v : option (option A)) (cur : option A) : option A := default cur v.
Definition apply_input (input : SettingsInput) (row : ClassRow) : ClassRow :=
  mkClassRow (cr_id row) (cr_integrationId row) (cr_assetType row)
    (λ k, if is_retention k then cr_num row k else keep (in_num input k) (cr_num row k))
    (λ s, keep (option_map (option_map method_text) (in_polling input s)) (cr_polling row s))
    (λ k, keep (in_mib input k) (cr_mib row k))
    (λ k, keep (in_cred input k) (cr_cred row k)).
Definition blank_row (id : string) (integrationId : option string) (assetType : string) : ClassRow :=
  mkClassRow id integrationId assetType (λ _, None) (λ _, None) (λ _, None) (λ _, None).

Section class_routes.
Context `{ZodLib}.

Definition valid_integration_id (integrationId : option string) : bool :=
  match integrationId with Some id => isUuid id | None => true end.

(** The source kind a class override is checked against. *)
Definition class_source (integrationId : option string) : Mon AssetSourceKind :=
  match integrationId with
  | None => hret ManualSource
  | Some id =>
      let! integration := find_integration id in
      match integration with
      | None => hthrow (AppError 400 ("Integration " +:+ id +:+ " not found"))
      | Some i => hret (assetSourceKindFromIntegrationType (Some (ti_type i)))
      end
  end.

(** POST /monitor-settings/class-overrides *)
Definition postClassOverride (integrationId : option string) (assetType : string) (input : SettingsInput) : Mon string :=
  throw_if (negb (valid_integration_id integrationId && bool_decide (assetType ∈ ASSET_TYPES) && OverrideSettingsSchema input))
    (JsError "ZodError") ;!
  let! sourceKind := class_source integrationId in
  assertPollingCompatible sourceKind input ;!
  let! existing := hgets (λ s, List.find (covers integrationId assetType) (ms_classes s)) in
  throw_if (match existing with Some _ => true | None => false end)
    (AppError 409 ("Class override for (" +:+ default "manual" integrationId +:+ ", " +:+ assetType +:+ ") already exists")) ;!
  check_credentials input ;!
  let! id := (λ s, (mkMonState (ms_manual s) (ms_legacy s) (ms_integrations s) (ms_classes s) (ms_tierCache s)
                      (ms_classCache s) (ms_credentials s) (S (ms_nextId s)), Ok (pretty (ms_nextId s)))) in
  hmodify (λ s, set_classes (ms_classes s ++ [apply_input input (blank_row id integrationId assetType)]) s) ;!
  hmodify (invalidateMonitorSettingsCache integrationId (Some assetType)) ;!
  hret id.

Definition find_class (id : string) : Mon (option ClassRow) :=
  hgets (λ s, List.find (λ r, String.eqb (cr_id r) id) (ms_classes s)).

(** PUT /monitor-settings/class-overrides/:id *)
Definition putClassOverride (id : string) (input : SettingsInput) : Mon unit :=
  throw_if (negb (OverrideSettingsSchema input)) (JsError "ZodError") ;!
  let! existing := find_class id in
  match existing with
  | None => hthrow (AppError 404 "Class override not found")
  | Some existing =>
      let! s := hget in
      let integration := cr_integrationId existing ≫= λ i, List.find (λ x, String.eqb (ti_id x) i) (ms_integrations s) in
      assertPollingCompatible (match integration with
                               | Some i => assetSourceKindFromIntegrationType (Some (ti_type i))
                               | None => ManualSource
                               end) input ;!
      check_credentials input ;!
      hmodify (λ s, set_classes ((λ r, if String.eqb (cr_id r) id then apply_input input r else r) <$> ms_classes s) s) ;!
      hmodify (invalidateMonitorSettingsCache (cr_integrationId existing) (Some (cr_assetType existing)))
  end.

(** DELETE /monitor-settings/class-overrides/:id *)
Definition deleteClassOverride (id : string) : Mon unit :=
  let! existing := find_class id in
  match existing with
  | None => hthrow (AppError 404 "Class override not found")
  | Some existing =>
      hmodify (λ s, set_classes (List.filter (λ r, negb (String.eqb (cr_id r) id)) (ms_classes s)) s) ;!
      hmodify (invalidateMonitorSettingsCache (cr_integrationId existing) (Some (cr_assetType existing)))
  end.
End class_routes.

(** The last lines of PUT /integrations/:id: the saved configuration. *)
Definition saveIntegrationConfig (id : string) (settings : option Json) : Mon unit :=
  let! existing := find_integration id in
  match existing with
  | None => hthrow (AppError 404 "Integration not found")
  | Some _ =>
      hmodify (λ s, set_integrations (set_settings id settings (ms_integrations s)) s) ;!
      hmodify (invalidateMonitorSettingsCache (Some id) None)
  end.

(** DELETE /integrations/:id; the class overrides of the integration go with it. *)
Definition deleteIntegration (id : string) : Mon unit :=
  let! existing := find_integration id in
  match existing with
  | None => hthrow (AppError 404 "Integration not found")
  | Some _ =>
      hmodify (λ s, set_integrations (List.filter (λ i, negb (String.eqb (ti_id i) id)) (ms_integrations s)) s) ;!
      hmodify (λ s, set_classes (List.filter (λ r, negb (bool_decide (cr_integrationId r = Some id))) (ms_classes s)) s) ;!
      hmodify (invalidateMonitorSettingsCache (Some id) None)
  end.

(** [deleteCredential] of [credentialService.ts]: refused while an asset names
    the credential; the class overrides that name it lose it ([onDelete: SetNull]). *)
Definition clear_cred (id : string) (r : ClassRow) : ClassRow :=
  mkClassRow (cr_id r) (cr_integrationId r) (cr_assetType r) (cr_num r) (cr_polling r) (cr_mib r)
    (λ k, if bool_decide (cr_cred r k = Some id) then None else cr_cred r k).
Definition deleteCredential (inUse : Z) (id : string) : Mon unit :=
  throw_if (0 <? inUse)
    (AppError 409 ("Credential is in use by " +:+ pretty inUse +:+ " asset" +:+ (if inUse =? 1 then "" else "s") +:+
                   "; clear monitoring there first")) ;!
  let! s := hget in
  throw_if (negb (bool_decide (id ∈ ms_credentials s))) (AppError 404 "Credential not found") ;!
  hmodify (λ s, mkMonState (ms_manual s) (ms_legacy s) (ms_integrations s) (clear_cred id <$> ms_classes s) (ms_tierCache s)
    (ms_classCache s) (List.filter (λ c, negb (String.eqb c id)) (ms_credentials s)) (ms_nextId s)).
