(* ===== verification/MonitorSettingsProofs.v ===== *)
(** * The monitor settings hierarchy is right

    The caches of the resolver never serve a stale value, the resolved polling
    methods suit the source of the asset, the two resolvers agree, and a stored
    tier is read back as it was written. *)

From S2P Require Import Prelude Http JsColl Topology MonitorSettings.

(** ** Cache keys *)

Lemma colon_inj a b a' b' :
  no_char ":" a → no_char ":" a' → a +:+ String ":" b = a' +:+ String ":" b' → a = a' ∧ b = b'.
Proof.
  unfold no_char. revert a'. induction a as [|x a IH]; intros [|x' a']; cbn; intros Ha Ha' Heq; simplify_eq; try done.
  apply andb_true_iff in Ha as [_ Ha], Ha' as [_ Ha']. by destruct (IH a' Ha Ha') as [-> ->].
Qed.

Lemma startsWith_split p s : Js.startsWith p s = true → ∃ r, s = p +:+ r.
Proof.
  revert s. induction p as [|c p IH]; intros [|d s]; cbn; try done; [by eexists|by eexists|].
  intros [->%Ascii.eqb_eq (r & ->)%IH]%andb_true_iff. by exists r.
Qed.

Lemma find_map_irrel {A} (p : A → bool) (f : A → A) l :
  (∀ x, x ∈ l → p (f x) = p x ∧ (p x = true → f x = x)) → List.find p (f <$> l) = List.find p l.
Proof.
  induction l as [|x l IH]; intros Hf; [done|]. cbn. destruct (Hf x ltac:(left)) as [-> Hx].
  destruct (p x); [by rewrite Hx|]. apply IH. intros y Hy. apply Hf. by right.
Qed.
Lemma find_filter_irrel {A} (p q : A → bool) l :
  (∀ x, x ∈ l → p x = true → q x = true) → List.find p (List.filter q l) = List.find p l.
Proof.
  induction l as [|x l IH]; intros Hf; [done|]. cbn. pose proof (Hf x ltac:(left)) as Hx.
  assert (List.find p (List.filter q l) = List.find p l) as IH' by (apply IH; intros y Hy; apply Hf; by right).
  destruct (q x) eqn:Hq; cbn; destruct (p x) eqn:Hp; try done. discriminate (Hx eq_refl).
Qed.
Lemma find_app_irrel {A} (p : A → bool) l x : p x = false → List.find p (l ++ [x]) = List.find p l.
Proof. intros Hx. induction l as [|y l IH]; cbn; [by rewrite Hx|]. by destruct (p y). Qed.

(** A statement that only reads, then the rest. *)
Lemma readonly_bind_run {S A B} (m : M S A) (k : A → M S B) s s' r :
  readonly m → hbind m k s = (s', r) → s' = s ∨ ∃ a, m s = (s, Ok a) ∧ k a s = (s', r).
Proof.
  intros Hm. unfold hbind. destruct (m s) as [s1 [a|e]] eqn:Hms; pose proof (Hm _ _ _ Hms) as ->.
  - intros Hk. right. by exists a.
  - intros [= <- <-]. by left.
Qed.

(** The documented shape of a UUID, as far as the cache keys need it. *)
Class UuidLaws `{ZodLib} : Prop := {
  uuid_plain s : isUuid s = true → no_char ":" s;
  uuid_not_manual s : isUuid s = true → s ≠ MANUAL_TIER_CACHE_KEY;
  uuid_nonempty s : isUuid s = true → Js.truthy s = true;
}.

Section caches.
Context `{UuidLaws}.

Definition valid_id (i : option string) : Prop := ∀ id, i = Some id → isUuid id = true.

Lemma tier_key_plain i : valid_id i → no_char ":" (tier_key i).
Proof. destruct i as [id|]; intros Hi; [by apply uuid_plain, Hi|reflexivity]. Qed.
Lemma tier_key_inj i j : valid_id i → valid_id j → tier_key i = tier_key j → i = j.
Proof.
  destruct i as [id|], j as [id'|]; cbn; intros Hi Hj Heq; [by subst| | |done].
  - by apply uuid_not_manual in Heq; [|apply Hi].
  - symmetry in Heq. by apply uuid_not_manual in Heq; [|apply Hj].
Qed.
Lemma classCacheKey_inj i j ty ty' :
  valid_id i → valid_id j → classCacheKey i ty = classCacheKey j ty' → i = j ∧ ty = ty'.
Proof.
  intros Hi Hj [Hk ->]%colon_inj; [|by apply tier_key_plain..]. split; [|done]. by apply tier_key_inj.
Qed.
Lemma classCacheKey_prefix i j ty :
  valid_id i → valid_id j → Js.startsWith (tier_key i +:+ ":") (classCacheKey j ty) = true → i = j.
Proof.
  intros Hi Hj (r & Heq)%startsWith_split. unfold classCacheKey in Heq. rewrite append_assoc in Heq.
  symmetry in Heq. apply colon_inj in Heq as [Hk _]; [|by apply tier_key_plain..]. by apply tier_key_inj.
Qed.

(** ** Coherence *)

Definition stored_tier (s : MonState) (i : option string) : MonitorTierSettings :=
  match i with Some id => stored_integration_tier s id | None => stored_manual_tier s end.

(** What the database guarantees of its rows. *)
Record rows_ok (s : MonState) : Prop := mkRowsOk {
  ro_ids : NoDup (cr_id <$> ms_classes s);
  ro_fresh : ∀ r n, r ∈ ms_classes s → (ms_nextId s ≤ n)%nat → cr_id r ≠ pretty n;
  ro_scope : ∀ r, r ∈ ms_classes s → valid_id (cr_integrationId r);
}.

(** A cached value is what the store says. *)
Record coherent (s : MonState) : Prop := mkCoherent {
  co_tier : ∀ i t, valid_id i → mget (tier_key i) (ms_tierCache s) = Some t → t = stored_tier s i;
  co_class : ∀ i ty o, valid_id i → mget (classCacheKey i ty) (ms_classCache s) = Some o → o = stored_class s i ty;
}.

(** The tier [i], with the class override of [ty] or all of them, may differ. *)
Record differs_at (i : option string) (ty : option string) (s s' : MonState) : Prop := mkDiffers {
  df_tierCache : ms_tierCache s' = ms_tierCache s;
  df_classCache : ms_classCache s' = ms_classCache s;
  df_tier : ∀ j, valid_id j → j ≠ i → stored_tier s' j = stored_tier s j;
  df_class : ∀ j ty', valid_id j → j ≠ i ∨ (∃ t, ty = Some t ∧ ty' ≠ t) → stored_class s' j ty' = stored_class s j ty';
}.

Lemma invalidate_stored i ty s j :
  stored_tier (invalidateMonitorSettingsCache i ty s) j = stored_tier s j.
Proof. by destruct ty, j. Qed.
Lemma invalidate_stored_class i ty s j ty' :
  stored_class (invalidateMonitorSettingsCache i ty s) j ty' = stored_class s j ty'.
Proof. by destruct ty. Qed.

Lemma invalidate_coherent i ty s s' :
  valid_id i → coherent s → differs_at i ty s s' → coherent (invalidateMonitorSettingsCache i ty s').
Proof.
  intros Hi [Ht Hc] [Et Ec Dt Dc]. constructor.
  - intros j t Hj Hg. rewrite invalidate_stored.
    assert (mget (tier_key j) (mdelete (tier_key i) (ms_tierCache s)) = Some t) as Hg'.
    { rewrite <-Et. by destruct ty. }
    rewrite mget_mdelete in Hg'. case_decide as Hk; [done|]. rewrite Dt; [by apply Ht|done|congruence].
  - intros j ty' o Hj Hg. rewrite invalidate_stored_class. destruct ty as [ty|].
    + change (mget (classCacheKey j ty') (mdelete (classCacheKey i ty) (ms_classCache s')) = Some o) in Hg.
      rewrite Ec, mget_mdelete in Hg. case_decide as Hk; [done|].
      rewrite Dc; [by apply Hc|done|]. destruct (decide (j = i)) as [->|]; [right|by left].
      exists ty. split; [done|]. congruence.
    + change (mget (classCacheKey j ty')
        (List.filter (λ kv, negb (Js.startsWith (tier_key i +:+ ":") kv.1)) (ms_classCache s')) = Some o) in Hg.
      rewrite Ec, (mget_filter_key (λ k, negb (Js.startsWith (tier_key i +:+ ":") k))) in Hg.
      destruct (Js.startsWith _ _) eqn:Hp; [done|]. cbn in Hg.
      rewrite Dc; [by apply Hc|done|]. left. intros ->. unfold classCacheKey in Hp.
      change (default MANUAL_TIER_CACHE_KEY i +:+ ":" +:+ ty') with (tier_key i +:+ ":" +:+ ty') in Hp.
      by rewrite <-append_assoc, startsWith_append in Hp.
Qed.

(** ** The loaders *)

Lemma loadTier_ok i :
  ∀ s, valid_id i → coherent s → rows_ok s →
  ∃ s', (match i with Some id => loadIntegrationTierSettings id | None => loadManualTierSettings end) s =
          (s', Ok (stored_tier s i)) ∧
    coherent s' ∧ rows_ok s' ∧ (∀ j, stored_tier s' j = stored_tier s j) ∧ ∀ j ty, stored_class s' j ty = stored_class s j ty.
Proof.
  intros s Hi Hco Hro.
  destruct (mget (tier_key i) (ms_tierCache s)) as [t|] eqn:Hg.
  - exists s. split_and!; [|done..]. pose proof (co_tier s Hco i t Hi Hg) as ->.
    destruct i as [id|]; unfold loadIntegrationTierSettings, loadManualTierSettings, hbind, hgets;
      [change (tier_key (Some id)) with id in Hg|change (tier_key None) with MANUAL_TIER_CACHE_KEY in Hg]; by rewrite Hg.
  - exists (set_tierCache (mset (tier_key i) (stored_tier s i) (ms_tierCache s)) s). split_and!.
    + destruct i as [id|]; unfold loadIntegrationTierSettings, loadManualTierSettings, hbind, hgets;
        [change (tier_key (Some id)) with id in Hg|change (tier_key None) with MANUAL_TIER_CACHE_KEY in Hg]; by rewrite Hg.
    + destruct Hco as [Ht Hc]. constructor; [|exact Hc]. intros j t Hj. cbn [ms_tierCache set_tierCache].
      rewrite mget_mset. case_decide as Hk; [|by apply Ht]. intros [= <-]. apply tier_key_inj in Hk as ->; [by destruct i|done|done].
    + destruct Hro. by constructor.
    + by intros [?|].
    + done.
Qed.

Lemma loadClass_ok i ty s :
  valid_id i → coherent s → rows_ok s →
  ∃ s', loadClassOverride i ty s = (s', Ok (stored_class s i ty)) ∧
    coherent s' ∧ rows_ok s' ∧ (∀ j, stored_tier s' j = stored_tier s j) ∧ (∀ j ty, stored_class s' j ty = stored_class s j ty).
Proof.
  intros Hi Hco Hro. unfold loadClassOverride, hbind, hgets.
  destruct (mget (classCacheKey i ty) (ms_classCache s)) as [o|] eqn:Hg.
  - exists s. pose proof (co_class s Hco i ty o Hi Hg) as ->. by split_and!.
  - eexists. split; [reflexivity|]. destruct Hco as [Ht Hc]. split_and!; [|by destruct Hro|by intros [?|]|done].
    constructor; [exact Ht|]. intros j ty' o Hj. cbn [ms_classCache set_classCache].
    rewrite mget_mset. case_decide as Hk; [|by apply Hc]. intros [= <-].
    apply classCacheKey_inj in Hk as [-> ->]; done.
Qed.

Lemma load_tier3_eq asset :
  valid_id (ac_integrationId asset) →
  load_tier3 asset =
    match ac_integrationId asset with Some id => loadIntegrationTierSettings id | None => loadManualTierSettings end.
Proof.
  unfold load_tier3. intros Hv. destruct (ac_integrationId asset) as [id|]; [|done]. by rewrite uuid_nonempty by (by apply Hv).
Qed.

(** The settings of an asset, straight from the store. *)
Definition settings_of (s : MonState) (asset : AssetMonitorContext) : MonitorTierSettings :=
  merge_settings (stored_tier s (ac_integrationId asset)) (stored_class s (ac_integrationId asset) (ac_assetType asset)) asset.

Lemma resolve_ok asset s :
  valid_id (ac_integrationId asset) → coherent s → rows_ok s →
  ∃ s', resolveMonitorSettings asset s = (s', Ok (settings_of s asset)) ∧ coherent s' ∧ rows_ok s' ∧
    ∀ asset', settings_of s' asset' = settings_of s asset'.
Proof.
  intros Hv Hco Hro. unfold resolveMonitorSettings, hbind at 1. rewrite load_tier3_eq by done.
  destruct (loadTier_ok (ac_integrationId asset) s Hv Hco Hro) as (s1 & -> & Hco1 & Hro1 & Ht1 & Hc1).
  destruct (loadClass_ok (ac_integrationId asset) (ac_assetType asset) s1 Hv Hco1 Hro1) as (s2 & Hl & Hco2 & Hro2 & Ht2 & Hc2).
  exists s2. unfold hbind, hret. rewrite Hl, Hc1. split_and!; [done..|].
  intros asset'. unfold settings_of. by rewrite Ht2, Hc2, Ht1, Hc1.
Qed.

Lemma provenance_coherent asset s s' r :
  valid_id (ac_integrationId asset) → coherent s → rows_ok s →
  resolveMonitorSettingsWithProvenance asset s = (s', r) → coherent s' ∧ rows_ok s'.
Proof.
  intros Hv Hco Hro. unfold resolveMonitorSettingsWithProvenance. cbv zeta. unfold hbind at 1. rewrite load_tier3_eq by done.
  destruct (loadTier_ok (ac_integrationId asset) s Hv Hco Hro) as (s1 & -> & Hco1 & Hro1 & _ & Hc1).
  destruct (loadClass_ok (ac_integrationId asset) (ac_assetType asset) s1 Hv Hco1 Hro1) as (s2 & Hl & Hco2 & Hro2 & _).
  unfold hbind at 1. rewrite Hl. destruct (stored_class _ _ _); unfold hbind, hgets, hret; by intros [= <- <-].
Qed.

(** ** The writers *)

Lemma assertPollingCompatible_readonly source input : readonly (assertPollingCompatible source input).
Proof. unfold assertPollingCompatible. apply readonly_hforeach. intros a. destruct (in_polling input a) as [[?|]|]; eauto with frame. Qed.
Lemma check_credentials_readonly input : readonly (check_credentials input).
Proof.
  unfold check_credentials. apply readonly_hbind; [by intros s s' r [= <- <-]|]. intros s. apply readonly_hforeach.
  intros k. destruct (in_cred input k) as [[?|]|]; eauto with frame.
Qed.
Lemma find_integration_readonly id : readonly (find_integration id).
Proof. apply readonly_hgets. Qed.
Lemma class_source_readonly i : readonly (class_source i).
Proof.
  destruct i as [id|]; [|apply readonly_hret]. apply readonly_hbind; [apply find_integration_readonly|].
  intros [x|]; eauto with frame.
Qed.
#[local] Hint Resolve assertPollingCompatible_readonly check_credentials_readonly find_integration_readonly
  class_source_readonly : frame.

(** A writer: the reads change nothing, and the last two statements write the
    rows and drop the caches. *)
Definition ok_state (s : MonState) : Prop := coherent s ∧ rows_ok s.

Lemma write_then_invalidate i ty f s s' (r : result unit) :
  valid_id i → ok_state s → differs_at i ty s (f s) → rows_ok (f s) →
  (hmodify f ;! hmodify (invalidateMonitorSettingsCache i ty)) s = (s', r) → ok_state s'.
Proof.
  intros Hi [Hco Hro] Hd Hr' [= <- <-]. split; [by eapply invalidate_coherent|].
  destruct Hr'. destruct ty; by constructor.
Qed.

Lemma find_settings id id' v l :
  id' ≠ id → List.find (λ i, String.eqb (ti_id i) id') (set_settings id v l) = List.find (λ i, String.eqb (ti_id i) id') l.
Proof.
  intros Hne. apply find_map_irrel. intros x _. destruct (String.eqb_spec (ti_id x) id) as [Hx|]; [|done]. cbn.
  split; [done|]. intros Hx'%String.eqb_eq. congruence.
Qed.

Lemma differs_settings id v s :
  valid_id (Some id) → differs_at (Some id) None s (set_integrations (set_settings id v (ms_integrations s)) s).
Proof.
  intros Hi. constructor; try done. intros [j|] Hj Hne; [|done]. cbn. unfold stored_integration_tier. cbn [ms_integrations set_integrations].
  by rewrite find_settings by congruence.
Qed.

Lemma putManual_ok input s s' r : ok_state s → putManual input s = (s', r) → ok_state s'.
Proof.
  intros Hok. unfold putManual. intros [->|([] & _ & Hr)]%readonly_bind_run; [done| |eauto with frame].
  revert Hr. apply write_then_invalidate; try done.
  - constructor; try done. by intros [j|].
  - by destruct Hok as [_ []].
Qed.

Lemma putIntegration_ok id input s s' r : valid_id (Some id) → ok_state s → putIntegration id input s = (s', r) → ok_state s'.
Proof.
  intros Hi Hok. unfold putIntegration. intros [->|([] & _ & Hr)]%readonly_bind_run; [done| |eauto with frame].
  apply readonly_bind_run in Hr as [->|([x|] & _ & Hr)]; [done| | |eauto with frame]; [|by injection Hr as <- _].
  apply readonly_bind_run in Hr as [->|([] & _ & Hr)]; [done| |eauto with frame].
  revert Hr. apply write_then_invalidate; [done|done|by apply differs_settings|]. by destruct Hok as [_ []].
Qed.

Lemma saveIntegrationConfig_ok id v s s' r :
  valid_id (Some id) → ok_state s → saveIntegrationConfig id v s = (s', r) → ok_state s'.
Proof.
  intros Hi Hok. unfold saveIntegrationConfig.
  intros [->|([x|] & _ & Hr)]%readonly_bind_run; [done| | |eauto with frame]; [|by injection Hr as <- _].
  revert Hr. apply write_then_invalidate; [done|done|by apply differs_settings|]. by destruct Hok as [_ []].
Qed.

Lemma covers_true i ty r : covers i ty r = true ↔ cr_integrationId r = i ∧ cr_assetType r = ty.
Proof. unfold covers. by rewrite andb_true_iff, bool_decide_eq_true, String.eqb_eq. Qed.

(** Rows that cover one scope only change that scope. *)
Lemma differs_classes (l : list ClassRow) i ty s :
  (∀ j ty', j ≠ i ∨ ty' ≠ ty → List.find (covers j ty') l = List.find (covers j ty') (ms_classes s)) →
  differs_at i (Some ty) s (set_classes l s).
Proof.
  intros Hf. constructor; [done|done|by intros [j|]|]. intros j ty' Hj Hor. unfold stored_class. cbn [ms_classes set_classes].
  rewrite Hf; [done|]. destruct Hor as [|(t & [= <-] & Hne)]; [by left|by right].
Qed.

Lemma find_class_row id s r :
  find_class id s = (s, Ok (Some r)) → r ∈ ms_classes s ∧ cr_id r = id.
Proof.
  unfold find_class, hgets. intros [= Hf]. apply find_some in Hf as [Hin%list_elem_of_In Hid%String.eqb_eq]. done.
Qed.

Lemma row_by_id s r r' : rows_ok s → r ∈ ms_classes s → r' ∈ ms_classes s → cr_id r = cr_id r' → r = r'.
Proof.
  intros Hro. pose proof (ro_ids s Hro) as Hnd. revert Hnd. generalize (ms_classes s). intros l.
  induction l as [|x l IH]; intros Hnd; [by intros ?%elem_of_nil|]. rewrite fmap_cons in Hnd. apply NoDup_cons in Hnd as [Hx Hnd].
  assert (Hout : ∀ y, y ∈ l → cr_id x ≠ cr_id y). { intros y Hy Heq. apply Hx, list_elem_of_fmap. by exists y. }
  intros [->|Hr]%elem_of_cons [->|Hr']%elem_of_cons Heq; [done| | |by apply IH]; exfalso; by eapply Hout.
Qed.

Lemma class_rows_filter q s : rows_ok s → rows_ok (set_classes (List.filter q (ms_classes s)) s).
Proof.
  intros [Hnd Hfr Hsc]. constructor; cbn [ms_classes ms_nextId set_classes].
  - clear -Hnd. induction (ms_classes s) as [|y l IH]; [done|]. rewrite fmap_cons in Hnd. apply NoDup_cons in Hnd as [Hy Hnd].
    cbn. destruct (q y); [|by apply IH]. rewrite fmap_cons. apply NoDup_cons. split; [|by apply IH].
    intros (z & Hz & [Hzl%list_elem_of_In _]%list_elem_of_In%filter_In)%list_elem_of_fmap. apply Hy, list_elem_of_fmap. eauto.
  - intros y n [Hy%list_elem_of_In _]%list_elem_of_In%filter_In. by apply Hfr.
  - intros y [Hy%list_elem_of_In _]%list_elem_of_In%filter_In. by apply Hsc.
Qed.

Lemma deleteClassOverride_ok id s s' r : ok_state s → deleteClassOverride id s = (s', r) → ok_state s'.
Proof.
  intros Hok. unfold deleteClassOverride.
  intros [->|([x|] & Hx & Hr)]%readonly_bind_run; [done| | |apply readonly_hgets]; [|by injection Hr as <- _].
  apply find_class_row in Hx as [Hin Hid]. pose proof Hok as [_ Hro].
  revert Hr. apply write_then_invalidate; [by apply (ro_scope s Hro)|done| |].
  - apply differs_classes. intros j ty' Hne. apply find_filter_irrel. intros y Hy [Hj Ht]%covers_true.
    rewrite negb_true_iff, String.eqb_neq. intros Hyid. assert (y = x) as -> by (eapply row_by_id; eauto; congruence).
    destruct Hne; congruence.
  - by apply class_rows_filter.
Qed.

Lemma putClassOverride_ok id input s s' r : ok_state s → putClassOverride id input s = (s', r) → ok_state s'.
Proof.
  intros Hok. unfold putClassOverride. intros [->|([] & _ & Hr)]%readonly_bind_run; [done| |eauto with frame].
  apply readonly_bind_run in Hr as [->|([x|] & Hx & Hr)]; [done| | |apply readonly_hgets]; [|by injection Hr as <- _].
  apply readonly_bind_run in Hr as [->|(s0 & [= <-] & Hr)]; [done| |by intros ??? [= <- <-]].
  apply readonly_bind_run in Hr as [->|([] & _ & Hr)]; [done| |eauto with frame].
  apply readonly_bind_run in Hr as [->|([] & _ & Hr)]; [done| |eauto with frame].
  apply find_class_row in Hx as [Hin Hid]. pose proof Hok as [_ Hro].
  revert Hr. apply write_then_invalidate; [by apply (ro_scope s Hro)|done| |].
  - apply differs_classes. intros j ty' Hne. apply find_map_irrel. intros y Hy.
    destruct (String.eqb_spec (cr_id y) id) as [Hyid|]; [|done]. split; [done|]. intros [Hj Ht]%covers_true.
    assert (y = x) as -> by (eapply row_by_id; eauto; congruence). destruct Hne; congruence.
  - destruct Hro as [Hnd Hfr Hsc]. constructor; cbn [ms_classes ms_nextId set_classes].
    + rewrite <-list_fmap_compose. erewrite list_fmap_ext; [exact Hnd|]. intros k y _. cbn. by destruct (String.eqb _ _).
    + intros y n (z & -> & Hz)%list_elem_of_fmap Hn. destruct (String.eqb _ _); by apply (Hfr z).
    + intros y (z & -> & Hz)%list_elem_of_fmap. destruct (String.eqb _ _); by apply (Hsc z).
Qed.

Lemma postClassOverride_ok i ty input s s' r : ok_state s → postClassOverride i ty input s = (s', r) → ok_state s'.
Proof.
  intros Hok. unfold postClassOverride. unfold hguard at 1.
  destruct (valid_integration_id i) eqn:Hv; [|by intros [= <- <-]].
  assert (valid_id i) as Hi by (intros id ->; exact Hv).
  intros [->|([] & _ & Hr)]%readonly_bind_run; [done| |by destruct (negb _); eauto with frame].
  apply readonly_bind_run in Hr as [->|(src & _ & Hr)]; [done| |eauto with frame].
  apply readonly_bind_run in Hr as [->|([] & _ & Hr)]; [done| |eauto with frame].
  apply readonly_bind_run in Hr as [->|(ex & [= <-] & Hr)]; [done| |eauto with frame].
  apply readonly_bind_run in Hr as [->|([] & Hex & Hr)]; [done| |eauto with frame].
  apply readonly_bind_run in Hr as [->|([] & _ & Hr)]; [done| |eauto with frame].
  set (row := apply_input input (blank_row (pretty (ms_nextId s)) i ty)) in *.
  set (s1 := mkMonState (ms_manual s) (ms_legacy s) (ms_integrations s) (ms_classes s ++ [row]) (ms_tierCache s)
               (ms_classCache s) (ms_credentials s) (S (ms_nextId s))).
  assert (s' = invalidateMonitorSettingsCache i (Some ty) s1) as -> by (by injection Hr as <- _).
  destruct Hok as [Hco Hro]. split.
  - eapply invalidate_coherent; [done|exact Hco|]. constructor; [done|done|by intros [j|]|].
    intros j ty' Hj Hor. unfold stored_class, s1. cbn [ms_classes]. rewrite find_app_irrel; [done|].
    apply not_true_iff_false. intros [Hr1 Hr2]%covers_true. cbn in Hr1, Hr2. subst.
    destruct Hor as [|(t & [= <-] & ?)]; congruence.
  - destruct Hro as [Hnd Hfr Hsc]. constructor; cbn [ms_classes ms_nextId set_classes set_tierCache set_classCache s1 invalidateMonitorSettingsCache].
    + rewrite fmap_app. apply NoDup_app. split_and!; [done| |apply NoDup_singleton].
      intros x (y & Hx & Hy)%list_elem_of_fmap Hx'%list_elem_of_singleton. apply (Hfr y (ms_nextId s) Hy); [lia|]. by rewrite <-Hx.
    + intros y n [Hy| ->%list_elem_of_singleton]%elem_of_app Hn; [apply Hfr; [done|lia]|].
      cbn. intros ?%(inj pretty). lia.
    + intros y [Hy| ->%list_elem_of_singleton]%elem_of_app; [by apply Hsc|done].
Qed.

Lemma deleteIntegration_ok id s s' r : valid_id (Some id) → ok_state s → deleteIntegration id s = (s', r) → ok_state s'.
Proof.
  intros Hi Hok. unfold deleteIntegration.
  intros [->|([x|] & _ & Hr)]%readonly_bind_run; [done| | |eauto with frame]; [|by injection Hr as <- _].
  set (keep_row := λ r, negb (bool_decide (cr_integrationId r = Some id))) in *.
  set (gone := λ s, set_classes (List.filter keep_row (ms_classes s))
                 (set_integrations (List.filter (λ i, negb (String.eqb (ti_id i) id)) (ms_integrations s)) s)).
  assert ((hmodify gone ;! hmodify (invalidateMonitorSettingsCache (Some id) None)) s = (s', r)) as Hr' by exact Hr.
  revert Hr'. apply write_then_invalidate; [done|done| |].
  - constructor; [done|done| |].
    + intros [j|] Hj Hne; [|done]. unfold stored_tier, stored_integration_tier. cbn [gone ms_integrations set_classes set_integrations].
      rewrite find_filter_irrel; [done|]. intros y _ Hy%String.eqb_eq. rewrite negb_true_iff, String.eqb_neq. congruence.
    + intros j ty Hj [Hne|(t & [=] & _)]. unfold stored_class. cbn [gone ms_classes set_classes set_integrations].
      rewrite find_filter_irrel; [done|]. intros y _ [Hy _]%covers_true. unfold keep_row.
      rewrite negb_true_iff, bool_decide_eq_false. congruence.
  - destruct Hok as [_ Hro]. by destruct (class_rows_filter keep_row s Hro).
Qed.

(** ** Every step *)

Inductive mon_step : MonState → MonState → Prop :=
  | ms_resolve asset s s' r : valid_id (ac_integrationId asset) → resolveMonitorSettings asset s = (s', r) → mon_step s s'
  | ms_provenance asset s s' r :
      valid_id (ac_integrationId asset) → resolveMonitorSettingsWithProvenance asset s = (s', r) → mon_step s s'
  | ms_putManual input s s' r : putManual input s = (s', r) → mon_step s s'
  | ms_putIntegration id input s s' r : isUuid id = true → putIntegration id input s = (s', r) → mon_step s s'
  | ms_post i ty input s s' r : postClassOverride i ty input s = (s', r) → mon_step s s'
  | ms_put id input s s' r : putClassOverride id input s = (s', r) → mon_step s s'
  | ms_delete id s s' r : deleteClassOverride id s = (s', r) → mon_step s s'
  | ms_save id v s s' r : isUuid id = true → saveIntegrationConfig id v s = (s', r) → mon_step s s'
  | ms_deleteIntegration id s s' r : isUuid id = true → deleteIntegration id s = (s', r) → mon_step s s'.

Lemma valid_some id : isUuid id = true → valid_id (Some id).
Proof. by intros ? ? [= <-]. Qed.

Lemma mon_step_ok s s' : mon_step s s' → ok_state s → ok_state s'.
Proof.
  destruct 1 as [asset s s' r Hv Hr|asset s s' r Hv Hr|input s s' r Hr|id input s s' r Hid Hr|i ty input s s' r Hr
    |id input s s' r Hr|id s s' r Hr|id v s s' r Hid Hr|id s s' r Hid Hr]; intros Hok.
  - destruct Hok as [Hco Hro]. destruct (resolve_ok asset s Hv Hco Hro) as (s1 & Hr1 & ? & ? & _). rewrite Hr1 in Hr. by simplify_eq.
  - destruct Hok. by eapply provenance_coherent.
  - by eapply putManual_ok.
  - eapply putIntegration_ok; [by apply valid_some|done|done].
  - by eapply postClassOverride_ok.
  - by eapply putClassOverride_ok.
  - by eapply deleteClassOverride_ok.
  - eapply saveIntegrationConfig_ok; [by apply valid_some|done|done].
  - eapply deleteIntegration_ok; [by apply valid_some|done|done].
Qed.

(** C26: the caching resolver implements the uncached one.  Through any sequence
    of resolutions, tier and class-override edits and integration edits and
    deletions, starting with empty caches, a resolution answers what the stored
    tiers say at that moment: none of these writes leaves a stale cache entry
    behind (the delete of a credential does, [deleted_credential_stays_cached]). *)
Theorem resolver_never_stale s0 s asset :
  ms_tierCache s0 = [] → ms_classCache s0 = [] → rows_ok s0 → rtc mon_step s0 s → valid_id (ac_integrationId asset) →
  (resolveMonitorSettings asset s).2 = Ok (settings_of s asset).
Proof.
  intros Ht Hc Hro Hs Hv.
  assert (ok_state s) as [Hco Hro'].
  { revert s Hs. apply rtc_ind_r; [|intros s s' _ Hst Hok; by eapply mon_step_ok].
    split; [|done]. constructor; intros *; [rewrite Ht|rewrite Hc]; done. }
  destruct (resolve_ok asset s Hv Hco Hro') as (s' & -> & _). done.
Qed.
End caches.

(** ** What a resolution says *)

Lemma compatible_default source stream m :
  defaultPollingForSource source stream = Some m → isPollingMethodCompatible source m = true.
Proof. by destruct source, stream; intros [= <-]. Qed.

(** The values of the tiers for a stream, most specific first. *)
Definition stream_tiers (tier3 : MonitorTierSettings) (classOverride : option MonitorOverrideSettings)
    (asset : AssetMonitorContext) (stream : Stream) : list (option PollingMethod) :=
  [isPollingMethod (ac_polling asset stream); classOverride ≫= λ c, ov_polling c stream; ts_polling tier3 stream].

(** The first tier whose value suits the source. *)
Fixpoint first_compatible (source : AssetSourceKind) (l : list (option PollingMethod)) : option PollingMethod :=
  match l with
  | [] => None
  | Some m :: l' => if isPollingMethodCompatible source m then Some m else first_compatible source l'
  | None :: l' => first_compatible source l'
  end.

Lemma first_compatible_ok source l m :
  first_compatible source l = Some m → isPollingMethodCompatible source m = true ∧ Some m ∈ l.
Proof.
  induction l as [|[x|] l IH]; cbn; [done| |].
  - destruct (isPollingMethodCompatible source x) eqn:Hx; [intros [= <-]; split; [done|left]|].
    intros [? ?]%IH. split; [done|by right].
  - intros [? ?]%IH. split; [done|by right].
Qed.

Lemma merged_polling tier3 classOverride asset stream :
  let source := assetSourceKindFromIntegrationType (ac_integrationType asset) in
  ts_polling (merge_settings tier3 classOverride asset) stream =
    oelse (first_compatible source (stream_tiers tier3 classOverride asset stream)) (defaultPollingForSource source stream).
Proof.
  cbv zeta. set (source := assetSourceKindFromIntegrationType _).
  cbn [merge_settings ts_polling stream_tiers first_compatible]. fold source. unfold resolveStream, take_compatible.
  destruct (isPollingMethod _) as [m1|]; cbn; [destruct (isPollingMethodCompatible source m1); [done|]|];
    (destruct (classOverride ≫= _) as [m2|]; cbn; [destruct (isPollingMethodCompatible source m2); [done|]|]);
    (destruct (ts_polling tier3 stream) as [m3|]; cbn; [by destruct (isPollingMethodCompatible source m3)|done]).
Qed.

(** How the tiers combine.  A number comes from the asset, else from the
    class override, else from tier 3.  A polling method comes from the most
    specific of the three tiers whose value suits the source of the asset, else
    from the source default; what is chosen always suits the source. *)
Theorem merge_settings_most_specific tier3 classOverride asset :
  let source := assetSourceKindFromIntegrationType (ac_integrationType asset) in
  let merged := merge_settings tier3 classOverride asset in
  (∀ k, ts_num merged k = default (default (ts_num tier3 k) (classOverride ≫= λ c, ov_num c k)) (asset_num asset k)) ∧
  (∀ stream, ts_polling merged stream =
     oelse (first_compatible source (stream_tiers tier3 classOverride asset stream)) (defaultPollingForSource source stream)) ∧
  (∀ stream m, ts_polling merged stream = Some m → isPollingMethodCompatible source m = true).
Proof.
  cbv zeta. split_and!; [done|intros; apply merged_polling|]. intros stream m. rewrite merged_polling.
  destruct (first_compatible _ _) as [x|] eqn:Hf; cbn; [|apply compatible_default].
  intros [= <-]. by apply first_compatible_ok in Hf as [? _].
Qed.

(** ** The two resolvers *)

Section provenance.
Context (tier3 : MonitorTierSettings) (classOverride : option MonitorOverrideSettings) (asset : AssetMonitorContext).
Context (src : ProvenanceTier).
Notation source := (assetSourceKindFromIntegrationType (ac_integrationType asset)).
Notation merged := (merge_settings tier3 classOverride asset).

Lemma prov_num_eq k : (prov_num tier3 classOverride asset src k).1 = ts_num merged k.
Proof.
  cbn [merge_settings ts_num]. unfold prov_num, bump. destruct (asset_num asset k); [done|].
  by destruct (classOverride ≫= _).
Qed.

Lemma nonempty_true v : (∀ s, v = Some s → Js.truthy s = true) → nonempty v = v.
Proof. destruct v as [s|]; [|done]. intros Hv. cbn. by rewrite Hv. Qed.

Lemma prov_mib_eq k :
  (∀ m, ac_mib asset k = Some m → Js.truthy m = true → Js.truthy (Js.trim m) = true) →
  (prov_mib tier3 classOverride asset src k).1 = ts_mib merged k.
Proof.
  intros Ha. cbn [merge_settings ts_mib]. unfold prov_mib, bump_opt, resolveMibId, asset_mib, nonempty, Js.otruthy.
  assert (Htrim : Js.trim "" = ""%string) by reflexivity.
  destruct (ac_mib asset k) as [m|]; [destruct (Js.truthy m) eqn:Hm|].
  - by rewrite (Ha m eq_refl Hm).
  - destruct m; [|done]. rewrite Htrim. cbn. destruct (classOverride ≫= _) as [c|]; [|done]. by destruct (Js.truthy c).
  - destruct (classOverride ≫= _) as [c|]; [|done]. by destruct (Js.truthy c).
Qed.

Lemma prov_cred_eq k :
  ts_cred tier3 k = None → (∀ c x, classOverride = Some c → ov_cred c k = Some x → Js.truthy x = true) →
  (prov_cred tier3 classOverride src k).1 = ts_cred merged k.
Proof.
  intros Ht Hc. cbn [merge_settings ts_cred]. unfold prov_cred, bump_opt. rewrite Ht.
  rewrite nonempty_true; [by destruct (classOverride ≫= _)|]. destruct classOverride as [c|]; cbn; [|done]. intros s. by apply Hc.
Qed.

(** The streams on which the two resolvers agree. *)
Definition stream_settled (stream : Stream) : Prop :=
  (∀ m, Some m ∈ stream_tiers tier3 classOverride asset stream → isPollingMethodCompatible source m = true) ∧
  ((∃ m, Some m ∈ stream_tiers tier3 classOverride asset stream) ∨ defaultPollingForSource source stream = None).

Lemma prov_polling_eq stream :
  stream_settled stream → (prov_polling tier3 classOverride asset src stream).1 = ts_polling merged stream.
Proof.
  intros [Hc Hset]. rewrite merged_polling. unfold prov_polling, asset_polling. unfold stream_tiers in *.
  destruct (isPollingMethod (ac_polling asset stream)) as [m1|].
  - cbn. rewrite (Hc m1) by left. done.
  - cbn. destruct (classOverride ≫= _) as [m2|]; cbn; [by rewrite (Hc m2) by (right; left)|].
    destruct (ts_polling tier3 stream) as [m3|]; cbn; [by rewrite (Hc m3) by (right; right; left)|].
    destruct Hset as [(m & Hm)| ->]; [|done]. repeat (apply elem_of_cons in Hm as [?|Hm]; [done|]). by apply elem_of_nil in Hm.
Qed.

Lemma prov_polling_unset stream :
  (∀ m, Some m ∉ stream_tiers tier3 classOverride asset stream) →
  (prov_polling tier3 classOverride asset src stream).1 = None ∧
  ts_polling merged stream = defaultPollingForSource source stream.
Proof.
  intros Hn. rewrite merged_polling. unfold prov_polling, asset_polling. unfold stream_tiers in *.
  destruct (isPollingMethod _) as [m|]; [exfalso; apply (Hn m); left|].
  destruct (classOverride ≫= _) as [m|]; [exfalso; apply (Hn m); right; left|].
  destruct (ts_polling tier3 stream) as [m|]; [exfalso; apply (Hn m); right; right; left|]. done.
Qed.

(** The labels tell which tier spoke. *)
Definition num_label_right (k : NumKey) : Prop :=
  (prov_num tier3 classOverride asset src k).2 =
    match asset_num asset k, classOverride ≫= λ c, ov_num c k with
    | Some _, _ => FromAsset
    | None, Some _ => FromClass
    | None, None => src
    end.
Lemma num_label_ok k : num_label_right k.
Proof. unfold num_label_right, prov_num, bump. destruct (asset_num asset k); [done|]. by destruct (classOverride ≫= _). Qed.
End provenance.

Lemma stored_tier_no_cred s i k : ts_cred (stored_tier s i) k = None.
Proof.
  assert (Hl : ts_cred (legacy_tier s) k = None). { unfold legacy_tier. destruct (ms_legacy s) as [v|]; [|done]. by destruct (jtruthy _). }
  destruct i as [id|]; cbn; unfold stored_integration_tier, stored_manual_tier.
  - destruct (_ ≫= ti_settings) as [v|]; [|done]. by destruct (jtruthy _).
  - destruct (ms_manual s) as [v|]; [|done]. by destruct (jtruthy _).
Qed.

Lemma stored_class_cred s i ty c k x : stored_class s i ty = Some c → ov_cred c k = Some x → Js.truthy x = true.
Proof.
  unfold stored_class. destruct (List.find _ _) as [row|]; [|done]. intros [= <-]. cbn. unfold nonempty.
  destruct (cr_cred row k) as [v|]; [|done]. destruct (Js.truthy v) eqn:Hv; [|done]. by intros [= <-].
Qed.

(** The resolver behind the asset view and the one behind the monitor agree
    on every number, on every credential, on every MIB that is not blank, and on
    every stream that some tier sets with a method that suits the source.  On a
    stream that no tier sets, the view says "none" where the monitor uses the
    default of the source. *)
Theorem provenance_resolver_agrees `{UuidLaws} s asset :
  coherent s → rows_ok s → valid_id (ac_integrationId asset) →
  let tier3 := stored_tier s (ac_integrationId asset) in
  let classOverride := stored_class s (ac_integrationId asset) (ac_assetType asset) in
  ∃ p, (resolveMonitorSettingsWithProvenance asset s).2 = Ok p ∧
    let shown := rp_resolved p in
    let used := settings_of s asset in
    (resolveMonitorSettings asset s).2 = Ok used ∧
    (∀ k, ts_num shown k = ts_num used k) ∧
    (∀ k, ts_cred shown k = ts_cred used k) ∧
    (∀ k, (∀ m, ac_mib asset k = Some m → Js.truthy m = true → Js.truthy (Js.trim m) = true) → ts_mib shown k = ts_mib used k) ∧
    (∀ stream, stream_settled tier3 classOverride asset stream → ts_polling shown stream = ts_polling used stream) ∧
    (∀ stream, (∀ m, Some m ∉ stream_tiers tier3 classOverride asset stream) →
       ts_polling shown stream = None ∧
       ts_polling used stream = defaultPollingForSource (assetSourceKindFromIntegrationType (ac_integrationType asset)) stream) ∧
    (∀ k, pv_num (rp_provenance p) k =
       match asset_num asset k, classOverride ≫= λ c, ov_num c k with
       | Some _, _ => FromAsset | None, Some _ => FromClass | None, None => rp_tier3Source p end).
Proof.
  intros Hco Hro Hv. cbv zeta. destruct (resolve_ok asset s Hv Hco Hro) as (s' & Hres & _).
  unfold resolveMonitorSettingsWithProvenance. cbv zeta. unfold hbind at 1. rewrite load_tier3_eq by done.
  destruct (loadTier_ok (ac_integrationId asset) s Hv Hco Hro) as (s1 & -> & Hco1 & Hro1 & _ & Hc1).
  destruct (loadClass_ok (ac_integrationId asset) (ac_assetType asset) s1 Hv Hco1 Hro1) as (s2 & Hl & _).
  unfold hbind at 1. rewrite Hl, Hc1, Hres.
  set (classOverride := stored_class s _ _). set (tier3 := stored_tier s _).
  match goal with |- context [hbind ?m _ s2] => assert (∃ cid, m s2 = (s2, Ok cid)) as (cid & Hcid) end.
  { destruct classOverride; by eexists. }
  unfold hbind. rewrite Hcid. eexists. split; [reflexivity|]. cbn [rp_resolved rp_provenance rp_tier3Source ts_num ts_polling ts_mib ts_cred pv_num].
  split_and!; [done|..].
  - intros k. apply prov_num_eq.
  - intros k. apply prov_cred_eq; [apply stored_tier_no_cred|]. intros c x. apply stored_class_cred.
  - intros k. apply prov_mib_eq.
  - intros stream. apply prov_polling_eq.
  - intros stream. apply prov_polling_unset.
  - intros k. apply num_label_ok.
Qed.

(** ** What is stored is what is read *)

Section fields.
Context {X A : Type} `{EqDecision X} (name : X → string) (show : A → Json) (v : X → option (option A)).
Definition fields (xs : list X) : list (string * Json) := List.concat (List.map (λ k, json_field (name k) show (v k)) xs).

Lemma assoc_fields xs x l :
  Inj (=) (=) name →
  assoc (name x) (fields xs ++ l) =
    match (if decide (x ∈ xs) then v x else None) with
    | None => assoc (name x) l
    | Some None => Some JNull
    | Some (Some y) => Some (show y)
    end.
Proof.
  intros Hinj. induction xs as [|k xs IH]; [done|]. unfold fields in *. cbn [List.map List.concat]. rewrite <-app_assoc.
  destruct (decide (x = k)) as [->|Hne].
  - rewrite decide_True by left. unfold json_field at 1. destruct (v k) as [[y|]|]; cbn; rewrite ?String.eqb_refl; [done|done|].
    rewrite IH. by case_decide.
  - assert (String.eqb (name x) (name k) = false) as Hn. { apply String.eqb_neq. intros ?%Hinj. congruence. }
    unfold json_field at 1. transitivity (assoc (name x) (List.concat (List.map (λ k0, json_field (name k0) show (v k0)) xs) ++ l));
      [by destruct (v k) as [[y|]|]; cbn; rewrite ?Hn|].
    rewrite IH. destruct (decide (x ∈ xs)) as [Hi|Hi], (decide (x ∈ k :: xs)) as [Hk|Hk]; try done; exfalso.
    + apply Hk. by right.
    + apply elem_of_cons in Hk as [|]; done.
Qed.

Lemma assoc_other xs s l : forallb (λ k, negb (String.eqb s (name k))) xs = true → assoc s (fields xs ++ l) = assoc s l.
Proof.
  unfold fields. induction xs as [|k xs IH]; [done|]. cbn [List.map List.concat forallb]. rewrite <-app_assoc.
  intros [Hn%negb_true_iff Hxs]%andb_true_iff. destruct (v k) as [[y|]|]; cbn; rewrite ?Hn; by apply IH.
Qed.
End fields.

Lemma num_name_inj : Inj (=) (=) num_name.
Proof. intros [] []; vm_compute; done. Qed.
Lemma polling_name_inj : Inj (=) (=) polling_name.
Proof. intros [] []; vm_compute; done. Qed.
Lemma mib_name_inj : Inj (=) (=) mib_name.
Proof. intros [] []; vm_compute; done. Qed.

Lemma tier_json_fields input :
  tier_json input = JObj (fields num_name JNum (in_num input) ALL_NUMS ++
    fields polling_name (λ m, JStr (method_text m)) (in_polling input) ALL_STREAMS ++ fields mib_name JStr (in_mib input) ALL_MIBS ++ []).
Proof. by rewrite app_nil_r. Qed.

(** The JSON value of a parsed field. *)
Definition field_json {A} (show : A → Json) (v : option (option A)) : option Json :=
  match v with None => None | Some None => Some JNull | Some (Some x) => Some (show x) end.

Ltac other_fields := repeat first [rewrite assoc_other by (vm_compute; reflexivity) | done].

Lemma read_num input k :
  is_retention k = false → jget (num_name k) (Some (tier_json input)) = field_json JNum (in_num input k).
Proof.
  intros Hk. rewrite tier_json_fields. cbn [jget]. rewrite (assoc_fields num_name) by apply num_name_inj.
  rewrite decide_True by (destruct k; try done; vm_compute; set_solver).
  destruct (in_num input k) as [[z|]|]; [done|done|]. destruct k; other_fields.
Qed.
Lemma read_polling input st :
  jget (polling_name st) (Some (tier_json input)) = field_json (λ m, JStr (method_text m)) (in_polling input st).
Proof.
  rewrite tier_json_fields. cbn [jget]. destruct st; rewrite (assoc_other num_name) by (vm_compute; reflexivity);
    rewrite (assoc_fields polling_name) by apply polling_name_inj; (rewrite decide_True by (vm_compute; set_solver));
    (destruct (in_polling input _) as [[z|]|]; [done|done|other_fields]).
Qed.
Lemma read_mib input k : jget (mib_name k) (Some (tier_json input)) = field_json JStr (in_mib input k).
Proof.
  rewrite tier_json_fields. cbn [jget]. destruct k; rewrite (assoc_other num_name) by (vm_compute; reflexivity);
    rewrite (assoc_other polling_name) by (vm_compute; reflexivity);
    rewrite (assoc_fields mib_name) by apply mib_name_inj; (rewrite decide_True by (vm_compute; set_solver));
    by destruct (in_mib input _) as [[z|]|].
Qed.
Lemma read_legacy input s : s ∈ ["polling"; "telemetryIntervalSeconds"; "telemetryTimeoutMs"; "telemetryPolling"; "telemetryMibId"] →
  jget s (Some (tier_json input)) = None.
Proof.
  intros Hs. rewrite tier_json_fields. cbn [jget].
  repeat (apply elem_of_cons in Hs as [->|Hs]; [other_fields|]). by apply elem_of_nil in Hs.
Qed.

Lemma read_retention input k : is_retention k = true → jget (num_name k) (Some (tier_json input)) = None.
Proof. intros Hk. rewrite tier_json_fields. cbn [jget]. destruct k; try done; other_fields. Qed.

Lemma isPollingMethod_text m : isPollingMethod (Some (method_text m)) = Some m.
Proof. by destruct m. Qed.

Lemma schema_nonneg input k z :
  TierSettingsSchema input = true → is_retention k = false → in_num input k = Some (Some z) → 0 ≤ z.
Proof.
  unfold TierSettingsSchema. rewrite forallb_forall. intros Hall Hk Hz.
  assert (In k ALL_NUMS) as Hin by (destruct k; try done; vm_compute; tauto).
  specialize (Hall k Hin). unfold tier_field_ok in Hall. rewrite Hz in Hall. unfold in_num_range in Hall.
  apply andb_true_iff in Hall as [Hlo _]. apply Z.leb_le in Hlo. destruct k; cbn in Hlo; lia.
Qed.

(** The trimmed text of a MIB id, when there is one. *)
Definition mib_text (v : option (option string)) : option string :=
  match v with Some (Some s) => if Js.truthy (Js.trim s) then Some (Js.trim s) else None | _ => None end.

Lemma tier_num_read input k :
  ts_num (tierFromJson (tier_json input)) k =
    toPositiveInt (if is_retention k then None else field_json JNum (in_num input k)) (HARDCODED_NUM k).
Proof.
  unfold tierFromJson. cbn [ts_num tier_json]. fold (tier_json input).
  rewrite !(read_legacy input "telemetryTimeoutMs"), !(read_legacy input "telemetryIntervalSeconds") by set_solver.
  destruct (is_retention k) eqn:Hk; [rewrite read_retention by done|rewrite read_num by done]; by destruct k.
Qed.

Lemma tier_polling_read input st : ts_polling (tierFromJson (tier_json input)) st = default None (in_polling input st).
Proof.
  unfold tierFromJson. cbn [ts_polling tier_json]. fold (tier_json input).
  rewrite (read_legacy input "polling") by set_solver. unfold readPollingFromJson. cbn [jor jtruthy oelse].
  change (jtruthy (Some (tier_json input))) with true.
  rewrite read_polling, (read_legacy input "telemetryPolling") by set_solver.
  destruct (in_polling input st) as [[m|]|]; cbn [field_json jstring default]; rewrite ?isPollingMethod_text; by destruct st.
Qed.

Lemma tier_mib_read input k : ts_mib (tierFromJson (tier_json input)) k = mib_text (in_mib input k).
Proof.
  unfold tierFromJson. cbn [ts_mib tier_json]. fold (tier_json input).
  rewrite (read_legacy input "telemetryMibId") by set_solver. rewrite read_mib.
  destruct (in_mib input k) as [[x|]|]; cbn [field_json readMibIdFromJson mib_text oelse]; [|by destruct k..].
  destruct (Js.truthy (Js.trim x)) eqn:Hx; cbv zeta; rewrite ?Hx; by destruct k.
Qed.

(** A saved tier is read back as it was saved.  Every number the operator
    gave, every polling method and every MIB (trimmed) comes back; an absent
    number and the dropped retention keys read as the floor.  A collector timeout
    saved as [null] does not: it reads as zero. *)
Theorem tier_roundtrip input :
  TierSettingsSchema input = true →
  let t := tierFromJson (tier_json input) in
  (∀ k z, is_retention k = false → in_num input k = Some (Some z) → ts_num t k = z) ∧
  (∀ k, is_retention k = true ∨ in_num input k = None → ts_num t k = HARDCODED_NUM k) ∧
  (∀ k, is_retention k = false → in_num input k = Some None → is_timeout k = true ∧ ts_num t k = 0) ∧
  (∀ st, ts_polling t st = default None (in_polling input st)) ∧
  (∀ k, ts_mib t k = mib_text (in_mib input k)).
Proof.
  intros Hs. cbv zeta. split_and!.
  - intros k z Hk Hz. pose proof (schema_nonneg input k z Hs Hk Hz). rewrite tier_num_read, Hk, Hz. unfold toPositiveInt. cbn.
    by rewrite (proj2 (Z.ltb_ge _ _)) by lia.
  - intros k [Hk|Hz]; rewrite tier_num_read, ?Hk, ?Hz; [done|]. by destruct (is_retention k).
  - intros k Hk Hz. rewrite tier_num_read, Hk, Hz. split; [|done].
    unfold TierSettingsSchema in Hs. rewrite forallb_forall in Hs.
    assert (In k ALL_NUMS) as Hin by (destruct k; try done; vm_compute; tauto).
    specialize (Hs k Hin). unfold tier_field_ok in Hs. by rewrite Hz in Hs.
  - intros st. apply tier_polling_read.
  - intros k. apply tier_mib_read.
Qed.

(** ** Concrete runs *)

Definition toy_zod : ZodLib := {| isUuid s := String.eqb s "i1" |}.
#[export] Instance toy_uuid_laws : @UuidLaws toy_zod.
Proof. split; intros s ->%String.eqb_eq; done. Qed.

(** A tier whose numbers are at their lower bounds, polled over SNMP. *)
Definition lowest_input : SettingsInput :=
  mkInput (λ k, if is_retention k then None else if is_timeout k then None else Some (Some (num_range k).1))
    (λ s, match s with ResponseTime => Some (Some Snmp) | _ => None end) (λ _, None) (λ _, None).
Definition one_gate : MonState := mkMonState None None [mkTierIntegration "i1" "fortigate" None] [] [] [] [] 0.
Definition gate_asset : AssetMonitorContext :=
  mkContext "firewall" (Some "i1") (Some "fortigate") (λ _, None) (λ _, None) (λ _, None).

(** Resolve, then save a tier. *)
Definition gate_saved : MonState :=
  (putIntegration "i1" lowest_input (resolveMonitorSettings gate_asset one_gate).1).1.

Lemma gate_valid : @valid_id toy_zod (ac_integrationId gate_asset).
Proof. by intros id [= <-]. Qed.
Lemma one_gate_rows : @rows_ok toy_zod one_gate.
Proof. constructor; cbn; [constructor|by intros ? ? ?%elem_of_nil|by intros ? ?%elem_of_nil]. Qed.
Lemma gate_saved_reached : rtc (@mon_step toy_zod) one_gate gate_saved.
Proof.
  eapply rtc_l; [eapply (@ms_resolve toy_zod gate_asset); [apply gate_valid|apply surjective_pairing]|].
  eapply rtc_l; [eapply (@ms_putIntegration toy_zod "i1" lowest_input); [reflexivity|apply surjective_pairing]|]. apply rtc_refl.
Qed.

Lemma resolver_never_stale_witness :
  ∃ t, (resolveMonitorSettings gate_asset gate_saved).2 = Ok t ∧
    ts_num t intervalSeconds = 1 ∧ ts_polling t ResponseTime = Some Snmp ∧ ts_polling t CpuMemory = Some RestApi.
Proof.
  exists (settings_of gate_saved gate_asset). split.
  - apply (@resolver_never_stale toy_zod toy_uuid_laws one_gate gate_saved gate_asset).
    + reflexivity.
    + reflexivity.
    + apply one_gate_rows.
    + apply gate_saved_reached.
    + apply gate_valid.
  - vm_compute. done.
Defined.

Lemma one_gate_coherent : @coherent toy_zod one_gate.
Proof. by constructor. Qed.

Lemma provenance_resolver_agrees_witness :
  ∃ p, (resolveMonitorSettingsWithProvenance gate_asset one_gate).2 = Ok p ∧
    ts_num (rp_resolved p) intervalSeconds = 60 ∧
    ts_polling (rp_resolved p) ResponseTime = None ∧ ts_polling (settings_of one_gate gate_asset) ResponseTime = Some RestApi.
Proof.
  destruct (@provenance_resolver_agrees toy_zod toy_uuid_laws one_gate gate_asset) as (p & Hp & _ & Hn & _ & _ & _ & Hu & _).
  - apply one_gate_coherent.
  - apply one_gate_rows.
  - apply gate_valid.
  - exists p. split; [done|]. split; [rewrite Hn; vm_compute; reflexivity|].
    destruct (Hu ResponseTime) as [-> ->]; [|by vm_compute].
    intros m Hm. vm_compute in Hm. repeat (apply elem_of_cons in Hm as [?|Hm]; [done|]). by apply elem_of_nil in Hm.
Defined.

Lemma tier_roundtrip_witness :
  ts_num (tierFromJson (tier_json lowest_input)) failureThreshold = 1 ∧
  ts_polling (tierFromJson (tier_json lowest_input)) ResponseTime = Some Snmp.
Proof.
  destruct (tier_roundtrip lowest_input) as (Hn & _ & _ & Hp & _); [vm_compute; reflexivity|].
  split; [apply Hn; reflexivity|rewrite Hp; reflexivity].
Defined.

(** A loader that reads before a save and fills its cache after the save
    leaves the old tier in the cache: later resolutions miss the save. *)
Example overlapping_load_goes_stale :
  let old := stored_integration_tier one_gate "i1" in
  let saved := (putIntegration "i1" lowest_input one_gate).1 in
  let filled := set_tierCache (mset "i1" old (ms_tierCache saved)) saved in
  ts_num (settings_of filled gate_asset) intervalSeconds = 1 ∧
  ∃ t, (resolveMonitorSettings gate_asset filled).2 = Ok t ∧ ts_num t intervalSeconds = 60.
Proof. cbv zeta. split; [vm_compute; reflexivity|]. eexists. split; [vm_compute; reflexivity|]. reflexivity. Qed.

(** The delete of a credential drops no cache entry: the resolver keeps handing
    out a credential that is gone from the class override and from the table. *)
Definition one_class : MonState :=
  mkMonState None None (ms_integrations one_gate)
    [mkClassRow "r1" (Some "i1"%string) "firewall" (λ _, None) (λ _, None) (λ _, None) (λ _, Some "cred"%string)] [] [] ["cred"%string] 0.
Example deleted_credential_stays_cached :
  let read := (resolveMonitorSettings gate_asset one_class).1 in
  let deleted := (deleteCredential 0 "cred" read).1 in
  (deleteCredential 0 "cred" read).2 = Ok tt ∧ ms_credentials deleted = [] ∧
  ts_cred (settings_of deleted gate_asset) MibLldp = None ∧
  ∃ t, (resolveMonitorSettings gate_asset deleted).2 = Ok t ∧ ts_cred t MibLldp = Some "cred"%string.
Proof. cbv zeta. split_and!; [vm_compute; reflexivity..|]. eexists. split; [vm_compute; reflexivity|]. reflexivity. Qed.
