(* ===== verification/Monitor.v ===== *)
(** * The monitor

    [recordProbeResult] and [runMonitorPass] of
    [src/src/services/monitoringService.ts]: the five-state machine of a probed
    asset, what a change of state sets off (the dependency reconciler of
    [DependencyStore], a retry of queued reservations), and which work a pass of
    the monitor schedules.  The probes and collectors themselves are outside. *)

From S2P Require Import Prelude Http JsColl Topology Dependency DependencyProofs DependencyStore MonitorSettings.

(** ** State *)

(** The columns of [Asset] the monitor keeps beside those of [AssetRow]. *)
Record MonitorCols := mkMonitorCols {
  mc_consecutiveFailures : Z;
  mc_consecutiveSuccesses : Z;
  mc_lastMonitorAt : option Z;
  mc_lastResponseTimeMs : option Z;
  mc_monitorStatusChangedAt : option Z;
  mc_lastTelemetryAt : option Z;
  mc_lastSystemInfoAt : option Z;
  mc_integrationType : option string;
  mc_num : NumKey → option Z;
  mc_polling : Stream → option string;
  mc_mib : MibKey → option string;
  mc_monitoredInterfaces : list string;
  mc_monitoredStorage : list string;
  mc_monitoredIpsecTunnels : list string;
}.

Record MonitorSample := mkMonitorSample {
  sm_assetId : string;
  sm_timestamp : Z;
  sm_success : bool;
  sm_responseTimeMs : option Z;
  sm_error : option string;
}.

Inductive MonitorEvent := StatusChanged (assetId previousStatus nextStatus : string) (cf cs : Z).

Record MonitorState := mkMonitorState {
  mo_dep : DepState;
  mo_cols : JsMap string MonitorCols;
  mo_settings : MonState;
  (** The buffer of [sampleWriteBuffer], newest last. *)
  mo_samples : list MonitorSample;
  mo_events : list MonitorEvent;
  (** The assets [triggerRetryAfterStatusChange] was called for. *)
  mo_retries : list string;
}.

Definition set_mo_dep (d : DepState) (s : MonitorState) : MonitorState :=
  mkMonitorState d (mo_cols s) (mo_settings s) (mo_samples s) (mo_events s) (mo_retries s).
Definition set_mo_cols (c : JsMap string MonitorCols) (s : MonitorState) : MonitorState :=
  mkMonitorState (mo_dep s) c (mo_settings s) (mo_samples s) (mo_events s) (mo_retries s).
Definition add_sample (x : MonitorSample) (s : MonitorState) : MonitorState :=
  mkMonitorState (mo_dep s) (mo_cols s) (mo_settings s) (mo_samples s ++ [x]) (mo_events s) (mo_retries s).
Definition add_event (x : MonitorEvent) (s : MonitorState) : MonitorState :=
  mkMonitorState (mo_dep s) (mo_cols s) (mo_settings s) (mo_samples s) (mo_events s ++ [x]) (mo_retries s).
Definition add_retry (x : string) (s : MonitorState) : MonitorState :=
  mkMonitorState (mo_dep s) (mo_cols s) (mo_settings s) (mo_samples s) (mo_events s) (mo_retries s ++ [x]).

Notation Mo := (M MonitorState).

Definition in_settings {A} (m : M MonState A) : Mo A := λ s,
  let '(st, r) := m (mo_settings s) in
  (mkMonitorState (mo_dep s) (mo_cols s) st (mo_samples s) (mo_events s) (mo_retries s), r).
Definition in_dep {A} (m : M DepState A) : Mo A := λ s,
  let '(d, r) := m (mo_dep s) in (set_mo_dep d s, r).

(** ** [recordProbeResult] *)

Record ProbeResult := mkProbeResult {
  pr_success : bool;
  pr_responseTimeMs : Z;
  pr_error : option string;
}.

(** The row of the asset, read for the update or handed over by the probe. *)
Record AssetMonitorSnapshot := mkSnapshot {
  sn_monitorStatus : option string;
  sn_consecutiveFailures : Z;
  sn_consecutiveSuccesses : Z;
  sn_context : AssetMonitorContext;
}.

(** The per-asset columns both [select]s read: the cadences and the probe timeout. *)
Definition selected_num (c : MonitorCols) (k : NumKey) : option Z :=
  match k with cpuMemoryTimeoutMs | temperatureTimeoutMs | systemInfoTimeoutMs => None | _ => mc_num c k end.

(** The columns of the [select], of which the polling methods and the MIBs are
    not part; the type of the integration never is. *)
Definition load_snapshot (assetId : string) : Mo (option AssetMonitorSnapshot) := hgets (λ s,
  match List.find (λ a, String.eqb (as_id a) assetId) (dp_assets (mo_dep s)), mget assetId (mo_cols s) with
  | Some a, Some c => Some (mkSnapshot (as_monitorStatus a) (mc_consecutiveFailures c) (mc_consecutiveSuccesses c)
                        (mkContext (as_assetType a) (as_discoveredByIntegrationId a) None (selected_num c) (λ _, None) (λ _, None)))
  | _, _ => None
  end).

(** The five-state machine. *)
Definition next_status (threshold : Z) (previousStatus : string) (success : bool) (newCf newCs : Z) : string :=
  if success then
    if String.eqb previousStatus "up" then "up"
    else if String.eqb previousStatus "warning" || String.eqb previousStatus "recovering"
    then if threshold <=? newCs then "up" else previousStatus
    else if threshold <=? newCs then "up" else "recovering"
  else
    if threshold <=? newCf then "down"
    else if String.eqb previousStatus "up" || String.eqb previousStatus "unknown" then "warning"
    else if String.eqb previousStatus "warning" || String.eqb previousStatus "recovering" || String.eqb previousStatus "down"
    then previousStatus
    else "warning".

Definition set_status (st : string) (a : AssetRow) : AssetRow :=
  mkAssetRow (as_id a) (as_hostname a) (as_serialNumber a) (as_assetType a) (as_fortinetTopology a)
    (as_discoveredByIntegrationId a) (as_monitored a) (Some st) (as_dependencyLayer a)
    (as_dependencySuppressed a) (as_dependencySuppressedAt a) (as_dependencyTestUntil a) (as_dependencyTestStartedBy a).
Definition set_probe (now : Z) (result : ProbeResult) (cf cs : Z) (changed : bool) (c : MonitorCols) : MonitorCols :=
  mkMonitorCols cf cs (Some now) (if pr_success result then Some (pr_responseTimeMs result) else None)
    (if changed then Some now else mc_monitorStatusChangedAt c) (mc_lastTelemetryAt c) (mc_lastSystemInfoAt c)
    (mc_integrationType c) (mc_num c) (mc_polling c) (mc_mib c)
    (mc_monitoredInterfaces c) (mc_monitoredStorage c) (mc_monitoredIpsecTunnels c).

(** [prisma.asset.update]; a row that is gone is an error. *)
Definition update_row (assetId : string) (st : string) (f : MonitorCols → MonitorCols) : Mo unit :=
  let! s := hget in
  match List.find (λ a, String.eqb (as_id a) assetId) (dp_assets (mo_dep s)), mget assetId (mo_cols s) with
  | Some _, Some c =>
      hmodify (λ s, set_mo_dep (set_dp_assets (update_assets [assetId] (set_status st) (dp_assets (mo_dep s))) (mo_dep s)) s) ;!
      hmodify (λ s, set_mo_cols (mset assetId (f c) (mo_cols s)) s)
  | _, _ => hthrow (PrismaError "P2025")
  end.

Definition recordProbeResult (assetId : string) (result : ProbeResult) (preloadedAsset : option AssetMonitorSnapshot)
    (fromAgent : bool) : Mo unit :=
  let! asset := (match preloadedAsset with Some a => hret (Some a) | None => load_snapshot assetId end) in
  match asset with
  | None => hret tt
  | Some asset =>
      let! effective := in_settings (resolveMonitorSettings (sn_context asset)) in
      let threshold := ts_num effective failureThreshold in
      if bool_decide (ts_polling effective ResponseTime = Some AgentPoll) && negb fromAgent then hret tt else
      let! now := hgets (λ s, dp_now (mo_dep s)) in
      let previousStatus := default "unknown" (sn_monitorStatus asset) in
      let newCf := if pr_success result then 0 else sn_consecutiveFailures asset + 1 in
      let newCs := if pr_success result then sn_consecutiveSuccesses asset + 1 else 0 in
      let nextStatus := next_status threshold previousStatus (pr_success result) newCf newCs in
      let changed := negb (String.eqb previousStatus nextStatus) in
      hmodify (add_sample (mkMonitorSample assetId now (pr_success result)
        (if pr_success result then Some (pr_responseTimeMs result) else None)
        (if pr_success result then None else pr_error result))) ;!
      update_row assetId nextStatus (set_probe now result newCf newCs changed) ;!
      if changed && (String.eqb nextStatus "up" || String.eqb nextStatus "down") then
        hmodify (add_event (StatusChanged assetId previousStatus nextStatus newCf newCs)) ;!
        in_dep (propagateAfterStatusChange assetId) ;!
        (if String.eqb nextStatus "up" then hmodify (add_retry assetId) else hret tt)
      else hret tt
  end.

(** ** [runMonitorPass] *)

Inductive WorkKind := ProbeWork | FastFilteredWork | TelemetryWork | SystemInfoWork.
#[export] Instance WorkKind_eq_dec : EqDecision WorkKind.
Proof. solve_decision. Defined.
Definition Work : Type := string * WorkKind.

Definition isDue (now : Z) (last : option Z) (intervalSec : Z) : bool :=
  if intervalSec <=? 0 then false
  else match last with None => true | Some t => intervalSec * 1000 <=? now - t end.

Definition pass_context (a : AssetRow) (c : MonitorCols) : AssetMonitorContext :=
  mkContext (as_assetType a) (as_discoveredByIntegrationId a) (mc_integrationType c) (selected_num c) (mc_polling c) (λ _, None).

Definition hasFastPin (c : MonitorCols) : bool :=
  match mc_monitoredInterfaces c, mc_monitoredStorage c, mc_monitoredIpsecTunnels c with
  | [], [], [] => false
  | _, _, _ => true
  end.

Definition is_method (v : option PollingMethod) (m : PollingMethod) : bool := bool_decide (v = Some m).
Definition is_null (v : option PollingMethod) : bool := match v with None => true | Some _ => false end.

Definition canTelemetry (eff : MonitorTierSettings) (a : AssetRow) : bool :=
  let p := ts_polling eff CpuMemory in
  negb (is_null p) && negb (is_method p Icmp) && negb (is_method p Winrm) && negb (is_method p Ssh) &&
  negb (is_method p RestApi && String.eqb (as_assetType a) "switch").
Definition canSystemInfo (eff : MonitorTierSettings) (a : AssetRow) : bool :=
  let anySysInfoStream := negb (is_null (ts_polling eff Interfaces)) || negb (is_null (ts_polling eff LldpStream)) ||
                          negb (is_null (ts_polling eff StorageStream)) in
  let isManagedSwitchOrAp := String.eqb (as_assetType a) "switch" || String.eqb (as_assetType a) "access_point" in
  anySysInfoStream && negb (is_method (ts_polling eff Interfaces) RestApi && isManagedSwitchOrAp).

Definition probeIntervalSec (eff : MonitorTierSettings) (a : AssetRow) : Z :=
  if as_dependencySuppressed a && negb (is_method (ts_polling eff ResponseTime) Disabled)
  then ts_num eff intervalSeconds * 2 else ts_num eff intervalSeconds.

(** The kinds of work one candidate is due for. *)
Definition due_work (now : Z) (enabled : WorkKind → bool) (eff : MonitorTierSettings) (a : AssetRow) (c : MonitorCols) (k : WorkKind) : bool :=
  let probe := isDue now (mc_lastMonitorAt c) (probeIntervalSec eff a) in
  let telemetry := isDue now (mc_lastTelemetryAt c) (ts_num eff cpuMemoryIntervalSeconds) in
  let systemInfo := isDue now (mc_lastSystemInfoAt c) (ts_num eff systemInfoIntervalSeconds) in
  let isUp := bool_decide (as_monitorStatus a = Some "up"%string) && negb (as_dependencySuppressed a) in
  enabled k &&
  match k with
  | ProbeWork => probe
  | TelemetryWork => telemetry && canTelemetry eff a && isUp
  | SystemInfoWork => systemInfo && canSystemInfo eff a && isUp
  | FastFilteredWork => probe && hasFastPin c && canSystemInfo eff a && negb systemInfo && isUp
  end.

(** The loop over the candidates: each is resolved, in order.  A row without
    its monitor columns does not occur. *)
Fixpoint resolve_candidates (l : list AssetRow) : Mo (list (AssetRow * MonitorCols * MonitorTierSettings)) :=
  match l with
  | [] => hret []
  | a :: l' =>
      let! c := hgets (λ s, mget (as_id a) (mo_cols s)) in
      match c with
      | None => resolve_candidates l'
      | Some c =>
          let! eff := in_settings (resolveMonitorSettings (pass_context a c)) in
          let! rest := resolve_candidates l' in
          hret ((a, c, eff) :: rest)
      end
  end.

Definition work_of (now : Z) (enabled : WorkKind → bool) (l : list (AssetRow * MonitorCols * MonitorTierSettings)) (k : WorkKind) : list Work :=
  (λ x, (as_id x.1.1, k)) <$> List.filter (λ x, due_work now enabled x.2 x.1.1 x.1.2 k) l.

(** Probes first, then the pinned scrapes, then the heavy collectors. *)
Definition select_work (enabled : WorkKind → bool) : Mo (list Work) :=
  let! s := hget in
  let now := dp_now (mo_dep s) in
  let! resolved := resolve_candidates (List.filter as_monitored (dp_assets (mo_dep s))) in
  hret (work_of now enabled resolved ProbeWork ++ work_of now enabled resolved FastFilteredWork ++
        work_of now enabled resolved TelemetryWork ++ work_of now enabled resolved SystemInfoWork).

Inductive CadenceOutcome := Success | Failure | Crash.
Record RunStats := mkRunStats {
  rs_probed : nat; rs_succeeded : nat; rs_failed : nat;
  rs_telemetry : nat * nat;
  rs_systemInfo : nat * nat;
  rs_fastFiltered : nat * nat;
}.
Definition tally (o : CadenceOutcome) (p : nat * nat) : nat * nat :=
  match o with Success => (S p.1, p.2) | _ => (p.1, S p.2) end.
Definition count_work (stats : RunStats) (w : Work) (o : CadenceOutcome) : RunStats :=
  match w.2 with
  | ProbeWork =>
      let '(ok, bad) := tally o (rs_succeeded stats, rs_failed stats) in
      mkRunStats (S (rs_probed stats)) ok bad (rs_telemetry stats) (rs_systemInfo stats) (rs_fastFiltered stats)
  | TelemetryWork => mkRunStats (rs_probed stats) (rs_succeeded stats) (rs_failed stats) (tally o (rs_telemetry stats))
                       (rs_systemInfo stats) (rs_fastFiltered stats)
  | SystemInfoWork => mkRunStats (rs_probed stats) (rs_succeeded stats) (rs_failed stats) (rs_telemetry stats)
                        (tally o (rs_systemInfo stats)) (rs_fastFiltered stats)
  | FastFilteredWork => mkRunStats (rs_probed stats) (rs_succeeded stats) (rs_failed stats) (rs_telemetry stats)
                          (rs_systemInfo stats) (tally o (rs_fastFiltered stats))
  end.

(** The worker pool: [cursor] is shared, a worker takes the next item in one
    turn of the event loop and reports its outcome in a later one. *)
Record Pool := mkPool {
  po_cursor : nat;
  po_running : list nat;
  po_stats : RunStats;
}.
Inductive pool_step (work : list Work) (limit : nat) : Pool → Pool → Prop :=
  | pool_take p : (po_cursor p < length work)%nat → (length (po_running p) < limit)%nat →
      pool_step work limit p (mkPool (S (po_cursor p)) (po_running p ++ [po_cursor p]) (po_stats p))
  | pool_done p pre i post w o : po_running p = pre ++ i :: post → work !! i = Some w →
      pool_step work limit p (mkPool (po_cursor p) (pre ++ post) (count_work (po_stats p) w o)).
Definition pool_start : Pool := mkPool 0 [] (mkRunStats 0 0 0 (0, 0) (0, 0) (0, 0))%nat.
Definition pool_limit (concurrency : option Z) (work : list Work) : nat :=
  Nat.min (Z.to_nat (Z.max 1 (Z.min (default 8 concurrency) 32))) (length work).
