(* ===== verification/MonitorProofs.v ===== *)
(** * The monitor is right

    The five-state machine is a classifier of the probe history, a confirmed
    change of state settles the dependency tree at once, and a pass schedules
    the work it should and nothing twice. *)

From S2P Require Import Prelude Http JsColl Topology Dependency DependencyProofs DependencyStore.
From S2P Require Import MonitorSettings MonitorSettingsProofs Monitor.

(** ** The five-state machine *)

(** Status and counters of an asset. *)
Record Probed := mkProbed { pb_status : string; pb_cf : Z; pb_cs : Z }.
Definition fresh_asset : Probed := mkProbed "unknown" 0 0.

(** One probe, as [recordProbeResult] writes it. *)
Definition probe_step (threshold : Z) (p : Probed) (success : bool) : Probed :=
  let newCf := if success then 0 else pb_cf p + 1 in
  let newCs := if success then pb_cs p + 1 else 0 in
  mkProbed (next_status threshold (pb_status p) success newCf newCs) newCf newCs.

(** The reference: a history is classified by its latest run of equal results.
    The history is newest first. *)
Fixpoint run_of (b : bool) (h : list bool) : Z :=
  match h with
  | [] => 0
  | x :: h' => if Bool.eqb x b then 1 + run_of b h' else 0
  end.
(** The last result that was confirmed by a run of [threshold]. *)
Fixpoint confirmed (threshold : Z) (h : list bool) : option bool :=
  match h with
  | [] => None
  | b :: h' => if threshold <=? run_of b h then Some b else confirmed threshold h'
  end.
Definition classify (threshold : Z) (h : list bool) : string :=
  match h with
  | [] => "unknown"
  | b :: _ =>
      if threshold <=? run_of b h then (if b then "up" else "down")
      else match confirmed threshold h with
           | Some true => "warning"
           | Some false => "recovering"
           | None => if default false (last h) then "recovering" else "warning"
           end
  end.

Lemma run_of_nonneg b h : 0 ≤ run_of b h.
Proof. induction h as [|x h IH]; cbn; [lia|]. destruct (Bool.eqb x b); lia. Qed.
Lemma run_of_other b x h : x ≠ b → run_of b (x :: h) = 0.
Proof. intros Hx. cbn. by destruct x, b. Qed.
Lemma run_of_same b h : run_of b (b :: h) = 1 + run_of b h.
Proof. cbn. by destruct b. Qed.

(** What the status says of the history. *)
Lemma classify_cases threshold h :
  1 ≤ threshold →
  (classify threshold h = "unknown"%string ∧ h = []) ∨
  (classify threshold h = "up"%string ∧ threshold ≤ run_of true h ∧ run_of false h = 0 ∧ confirmed threshold h = Some true) ∨
  (classify threshold h = "down"%string ∧ threshold ≤ run_of false h ∧ run_of true h = 0 ∧ confirmed threshold h = Some false) ∨
  (run_of true h < threshold ∧ run_of false h < threshold ∧ h ≠ [] ∧
   ((classify threshold h = "warning"%string ∧ (confirmed threshold h = Some true ∨ confirmed threshold h = None ∧ last h = Some false)) ∨
    (classify threshold h = "recovering"%string ∧ (confirmed threshold h = Some false ∨ confirmed threshold h = None ∧ last h = Some true)))).
Proof.
  intros HT. destruct h as [|b h]; [by left|]. right. unfold classify. cbn [confirmed].
  destruct (Z.leb_spec threshold (run_of b (b :: h))) as [Hle|Hlt].
  - destruct b; [left|right; left]; (split_and!; [done|done|by apply run_of_other|done]).
  - right; right. split_and!; [..|done|].
    1,2: destruct b; [done || (rewrite run_of_other by done; lia)|done || (rewrite run_of_other by done; lia)].
    destruct (confirmed threshold h) as [[]|]; [left; split; [done|by left]|right; split; [done|by left]|].
    destruct (last (b :: h)) as [[]|] eqn:Hl; [right|left|]; [split; [done|by right]..|].
    apply last_None in Hl. done.
Qed.

Lemma last_nonempty {A} (x : A) h : h ≠ [] → last (x :: h) = last h.
Proof. by destruct h. Qed.

Lemma classify_cons threshold b h :
  classify threshold (b :: h) =
    if threshold <=? 1 + run_of b h then (if b then "up" else "down")%string
    else match confirmed threshold h with
         | Some true => "warning"
         | Some false => "recovering"
         | None => if default b (last h) then "recovering" else "warning"
         end%string.
Proof.
  unfold classify. cbn [confirmed]. rewrite run_of_same. destruct (threshold <=? 1 + run_of b h); [done|].
  destruct (confirmed threshold h) as [[]|]; [done|done|]. destruct h as [|y h]; [done|].
  rewrite last_nonempty by done. destruct (last (y :: h)) eqn:Hl; [done|]. by apply last_None in Hl.
Qed.

Lemma probe_step_classifies threshold h b :
  1 ≤ threshold →
  probe_step threshold (mkProbed (classify threshold h) (run_of false h) (run_of true h)) b =
    mkProbed (classify threshold (b :: h)) (run_of false (b :: h)) (run_of true (b :: h)).
Proof.
  intros HT. unfold probe_step. cbn [pb_status pb_cf pb_cs].
  assert ((if b then 0 else run_of false h + 1) = run_of false (b :: h)) as -> by (destruct b; cbn; lia).
  assert ((if b then run_of true h + 1 else 0) = run_of true (b :: h)) as -> by (destruct b; cbn; lia).
  f_equal. rewrite classify_cons.
  pose proof (run_of_nonneg true h). pose proof (run_of_nonneg false h).
  assert (Hrun : run_of b (b :: h) = 1 + run_of b h) by apply run_of_same.
  destruct (classify_cases threshold h HT) as [[-> ->]|[(-> & Hr & Hz & Hc)|[(-> & Hr & Hz & Hc)|(Ht & Hf & Hne & Hw)]]].
  - destruct b; cbn [run_of Bool.eqb]; unfold next_status; cbn; by destruct (threshold <=? 1).
  - rewrite Hc. destruct b; unfold next_status; rewrite Hrun; cbn [String.eqb Ascii.eqb Bool.eqb andb orb].
    + by rewrite (proj2 (Z.leb_le threshold (1 + run_of true h))) by lia.
    + by destruct (threshold <=? 1 + run_of false h).
  - rewrite Hc. destruct b; unfold next_status; rewrite Hrun; cbn [String.eqb Ascii.eqb Bool.eqb andb orb].
    + by destruct (threshold <=? 1 + run_of true h).
    + by rewrite (proj2 (Z.leb_le threshold (1 + run_of false h))) by lia.
  - destruct (last h) as [x|] eqn:Hl; [|by apply last_None in Hl]. cbn [default].
    destruct Hw as [(-> & [Hc|[Hc [= ->]]])|(-> & [Hc|[Hc [= ->]]])]; rewrite Hc; destruct b; unfold next_status; rewrite Hrun; cbn;
      by destruct (threshold <=? _).
Qed.

Lemma machine_classifies threshold (results : list bool) :
  1 ≤ threshold →
  fold_left (probe_step threshold) results fresh_asset =
    mkProbed (classify threshold (reverse results)) (run_of false (reverse results)) (run_of true (reverse results)).
Proof.
  intros HT. induction results as [|b l IH] using rev_ind; [done|].
  rewrite fold_left_app, IH, reverse_snoc. cbn [fold_left]. by apply probe_step_classifies.
Qed.

(** ** What a probe sets off *)

(** The columns the reconciler does not write. *)
Definition core (a : AssetRow) :=
  (as_id a, as_assetType a, as_discoveredByIntegrationId a, as_monitored a, as_monitorStatus a, as_dependencyLayer a).

Lemma update_core ids f l : (∀ a, core (f a) = core a) → core <$> update_assets ids f l = core <$> l.
Proof.
  intros Hf. unfold update_assets. rewrite <-list_fmap_compose. apply list_fmap_ext. intros i a _. cbn. by case_bool_decide.
Qed.

Lemma transitions_core now ts assets : core <$> fold_left (write_transition now) ts assets = core <$> assets.
Proof.
  revert assets. induction ts as [|t ts IH]; intros assets; [done|]. cbn [fold_left]. rewrite IH. by apply update_core.
Qed.

Lemma reconcile_core d d' r :
  reconcileDependencySuppression d = (d', r) → core <$> dp_assets d' = core <$> dp_assets d.
Proof.
  unfold reconcileDependencySuppression, expire_tests, hbind, hget, hmodify.
  set (d1 := log_dp _ _). assert (core <$> dp_assets d1 = core <$> dp_assets d) as <- by (by apply update_core). clearbody d1.
  destruct (dp_assets d1) as [|a0 l0] eqn:Ha; [by intros [= <- _]; rewrite Ha|].
  rewrite <-Ha. destruct (evaluateSuppression _ _ _) as [desired|]; [|by intros [= <- _]].
  destruct (omap _ _) as [|t ts]; [by intros [= <- _]|]. intros [= <- _]. cbn [dp_assets log_dp set_dp_assets].
  apply (transitions_core (dp_now d1) (t :: ts)).
Qed.

Lemma core_ids (l l' : list AssetRow) : core <$> l = core <$> l' → as_id <$> l = as_id <$> l'.
Proof.
  intros Hc. assert (∀ m : list AssetRow, as_id <$> m = (λ x, x.1.1.1.1.1) <$> (core <$> m)) as Hf.
  { intros m. rewrite <-list_fmap_compose. by apply list_fmap_ext. }
  by rewrite !Hf, Hc.
Qed.

Lemma propagate_run id d :
  NoDup (as_id <$> dp_assets d) →
  ∃ d' desired, propagateAfterStatusChange id d = (d', Ok tt) ∧ dp_rows d' = dp_rows d ∧ dp_now d' = dp_now d ∧
    core <$> dp_assets d' = core <$> dp_assets d ∧ settled (dp_now d) desired d'.
Proof.
  intros Hnd. destruct (reconcile_settles d Hnd) as (d' & r & desired & Hrun & Hrows & Hnow & _ & Hset).
  exists d', desired. unfold propagateAfterStatusChange, hcatch, hbind, hret. rewrite Hrun.
  split_and!; [done..| |done]. by eapply reconcile_core.
Qed.

(** The settings context, status and counters of an asset, as the store has them. *)
Definition probed_at (s : MonitorState) (id : string) (p : Probed) (ctx : AssetMonitorContext) : Prop :=
  ∃ a c, List.find (λ a, String.eqb (as_id a) id) (dp_assets (mo_dep s)) = Some a ∧ mget id (mo_cols s) = Some c ∧
    p = mkProbed (default "unknown"%string (as_monitorStatus a)) (mc_consecutiveFailures c) (mc_consecutiveSuccesses c) ∧
    ctx = mkContext (as_assetType a) (as_discoveredByIntegrationId a) None (selected_num c) (λ _, None) (λ _, None).

(** What the monitor relies on: one row per asset, coherent settings caches. *)
Definition monitor_ok `{UuidLaws} (s : MonitorState) : Prop :=
  NoDup (as_id <$> dp_assets (mo_dep s)) ∧ ok_state (mo_settings s).

Lemma find_update id f l a :
  List.find (λ a, String.eqb (as_id a) id) l = Some a → (∀ a, as_id (f a) = as_id a) →
  List.find (λ a, String.eqb (as_id a) id) (update_assets [id] f l) = Some (f a).
Proof.
  intros Hf Hid. induction l as [|x l IH]; [done|]. cbn in *. destruct (String.eqb_spec (as_id x) id) as [Hx|Hx].
  - injection Hf as ->. rewrite bool_decide_eq_true_2 by (apply list_elem_of_singleton; done). rewrite Hid.
    by rewrite (proj2 (String.eqb_eq _ _)).
  - rewrite bool_decide_eq_false_2 by (by intros ?%list_elem_of_singleton).
    rewrite (proj2 (String.eqb_neq _ _)) by done. by apply IH.
Qed.

Lemma find_core id l l' a :
  core <$> l = core <$> l' → List.find (λ a, String.eqb (as_id a) id) l = Some a →
  ∃ a', List.find (λ a, String.eqb (as_id a) id) l' = Some a' ∧ core a' = core a.
Proof.
  revert l'. induction l as [|x l IH]; intros [|y l'] Hc Hf; try done. rewrite !fmap_cons in Hc. injection Hc as Hxy Hc.
  cbn in Hf |- *. assert (as_id y = as_id x) as Hid by congruence. rewrite Hid.
  destruct (String.eqb (as_id x) id); [|by apply IH]. injection Hf as ->. exists y. split; [done|]. unfold core. congruence.
Qed.

Section probes.
Context `{UuidLaws}.

(** One recorded probe: the row moves by the machine, the sample is queued, and a
    confirmed change leaves the dependency flags settled. *)
Lemma recordProbeResult_run id result fromAgent s p ctx :
  monitor_ok s → probed_at s id p ctx → valid_id (ac_integrationId ctx) →
  (ts_polling (settings_of (mo_settings s) ctx) ResponseTime = Some AgentPoll → fromAgent = true) →
  let p' := probe_step (ts_num (settings_of (mo_settings s) ctx) failureThreshold) p (pr_success result) in
  ∃ s', recordProbeResult id result None fromAgent s = (s', Ok tt) ∧ monitor_ok s' ∧ probed_at s' id p' ctx ∧
    (∀ ctx', settings_of (mo_settings s') ctx' = settings_of (mo_settings s) ctx') ∧
    dp_rows (mo_dep s') = dp_rows (mo_dep s) ∧
    core <$> dp_assets (mo_dep s') = core <$> update_assets [id] (set_status (pb_status p')) (dp_assets (mo_dep s)) ∧
    (pb_status p' ≠ pb_status p → pb_status p' = "up"%string ∨ pb_status p' = "down"%string →
       ∃ desired, settled (dp_now (mo_dep s)) desired (mo_dep s')).
Proof.
  intros [Hnd [Hco Hro]] (a & c & Hf & Hg & -> & ->) Hv Hagent. cbv zeta.
  set (ctx := mkContext _ _ _ _ _ _) in *. set (eff := settings_of (mo_settings s) ctx) in *.
  destruct (resolve_ok ctx (mo_settings s) Hv Hco Hro) as (st & Hres & Hco' & Hro' & Hsame).
  unfold recordProbeResult, load_snapshot. unfold hbind at 1, hgets at 1. rewrite Hf, Hg. fold ctx.
  unfold hbind at 1, in_settings. cbn [sn_context]. rewrite Hres. fold eff.
  assert (bool_decide (ts_polling eff ResponseTime = Some AgentPoll) && negb fromAgent = false) as ->.
  { case_bool_decide as Hp; [|done]. by rewrite Hagent. }
  unfold hbind at 1, hgets at 1. cbn [mo_dep sn_monitorStatus sn_consecutiveFailures sn_consecutiveSuccesses].
  set (p := mkProbed _ _ _) in *. set (p' := probe_step _ p _).
  change (next_status _ _ _ _ _) with (pb_status p').
  change (if pr_success result then 0 else mc_consecutiveFailures c + 1) with (pb_cf p').
  change (if pr_success result then mc_consecutiveSuccesses c + 1 else 0) with (pb_cs p').
  change (default "unknown"%string (as_monitorStatus a)) with (pb_status p).
  set (changed := negb (String.eqb (pb_status p) (pb_status p'))).
  unfold hbind at 1, hmodify at 1. unfold hbind at 1, update_row, hbind at 1, hget at 1.
  cbn [mo_dep mo_cols add_sample]. rewrite Hf, Hg. unfold hbind at 1, hmodify at 1 2.
  set (s2 := set_mo_cols _ _).
  assert (dp_assets (mo_dep s2) = update_assets [id] (set_status (pb_status p')) (dp_assets (mo_dep s))) as Ha2 by done.
  assert (NoDup (as_id <$> dp_assets (mo_dep s2))) as Hnd2.
  { rewrite Ha2. assert (as_id <$> update_assets [id] (set_status (pb_status p')) (dp_assets (mo_dep s)) =
      as_id <$> dp_assets (mo_dep s)) as ->; [|done]. unfold update_assets. rewrite <-list_fmap_compose.
    apply list_fmap_ext. intros i x _. cbn. by case_bool_decide. }
  assert (probed_at s2 id p' ctx) as Hp2.
  { exists (set_status (pb_status p') a), (set_probe (dp_now (mo_dep s)) result (pb_cf p') (pb_cs p') changed c).
    split_and!; [by rewrite Ha2; apply find_update|apply mget_mset_eq|by destruct p'|done]. }
  assert (ok_state (mo_settings s2)) as Hok2 by done.
  destruct (changed && (String.eqb (pb_status p') "up" || String.eqb (pb_status p') "down")) eqn:Hch.
  - unfold hbind at 1, hmodify at 1. unfold hbind at 1, in_dep. cbn [mo_dep add_event].
    destruct (propagate_run id (mo_dep s2) Hnd2) as (d' & desired & -> & Hrows & Hnow & Hcore & Hset).
    set (s3 := set_mo_dep d' _).
    assert (probed_at s3 id p' ctx) as Hp3.
    { destruct Hp2 as (a2 & c2 & Hf2 & Hg2 & Hpe & Hctx). destruct (find_core id _ (dp_assets d') a2 (eq_sym Hcore) Hf2) as (a3 & Hf3 & Hc3).
      unfold core in Hc3. exists a3, c2. split_and!; [done|done|rewrite Hpe; congruence|rewrite Hctx; congruence]. }
    assert (NoDup (as_id <$> dp_assets d')) as Hnd3 by (by rewrite (core_ids _ _ Hcore)).
    destruct (String.eqb (pb_status p') "up").
    + eexists. split_and!; [reflexivity|by split|exact Hp3|exact Hsame|exact Hrows|exact Hcore|]. intros _ _. by exists desired.
    + eexists. split_and!; [reflexivity|by split|exact Hp3|exact Hsame|exact Hrows|exact Hcore|]. intros _ _. by exists desired.
  - exists s2. split_and!; [done|by split|done|exact Hsame|done|done|]. intros Hne Hor. exfalso. revert Hch.
    unfold changed. rewrite (proj2 (String.eqb_neq _ _)) by done. destruct Hor as [-> | ->]; done.
Qed.

(** A series of probes of one asset. *)
Definition record_all (id : string) (fromAgent : bool) (results : list ProbeResult) : M MonitorState unit :=
  hforeach results (λ r, recordProbeResult id r None fromAgent).

Lemma record_all_run id fromAgent results s p ctx :
  monitor_ok s → probed_at s id p ctx → valid_id (ac_integrationId ctx) →
  (ts_polling (settings_of (mo_settings s) ctx) ResponseTime = Some AgentPoll → fromAgent = true) →
  ∃ s', record_all id fromAgent results s = (s', Ok tt) ∧ monitor_ok s' ∧
    probed_at s' id (fold_left (probe_step (ts_num (settings_of (mo_settings s) ctx) failureThreshold)) (pr_success <$> results) p) ctx.
Proof.
  revert s p. induction results as [|r l IH]; intros s p Hok Hp Hv Ha; [by exists s|].
  destruct (recordProbeResult_run id r fromAgent s p ctx Hok Hp Hv Ha) as (s1 & Hr & Hok1 & Hp1 & Hs1 & _).
  destruct (IH s1 _ Hok1 Hp1 Hv) as (s2 & Hr2 & Hok2 & Hp2); [by rewrite Hs1|].
  exists s2. unfold record_all in *. cbn [hforeach]. unfold hbind. rewrite Hr. split_and!; [done|done|].
  rewrite Hs1 in Hp2. exact Hp2.
Qed.

(** C27: the five-state machine classifies the probe history.  Probed any number
    of times with a threshold of at least one, a new asset is "up" exactly when
    its last [threshold] results succeeded, "down" exactly when its last
    [threshold] results failed; in between it is "warning" when the last
    confirmed state was up (or none was and the first result failed) and
    "recovering" when it was down (or none was and the first result succeeded).
    The counters are the lengths of the two latest runs. *)
Theorem recorded_probes_classify id fromAgent results s ctx :
  monitor_ok s → probed_at s id fresh_asset ctx → valid_id (ac_integrationId ctx) →
  (ts_polling (settings_of (mo_settings s) ctx) ResponseTime = Some AgentPoll → fromAgent = true) →
  let threshold := ts_num (settings_of (mo_settings s) ctx) failureThreshold in
  let history := reverse (pr_success <$> results) in
  1 ≤ threshold →
  ∃ s', record_all id fromAgent results s = (s', Ok tt) ∧
    probed_at s' id (mkProbed (classify threshold history) (run_of false history) (run_of true history)) ctx.
Proof.
  intros Hok Hp Hv Ha. cbv zeta. intros HT.
  destruct (record_all_run id fromAgent results s fresh_asset ctx Hok Hp Hv Ha) as (s' & Hr & _ & Hp').
  exists s'. split; [done|]. by rewrite machine_classifies in Hp'.
Qed.
End probes.

(** ** A parent that goes down *)

Lemma stateById_total states s :
  NoDup (ss_id <$> states) → s ∈ states → mget (ss_id s) (stateById states) = Some s.
Proof.
  intros Hnd Hin.
  assert (∀ l m, ss_id s ∈ ss_id <$> l ∨ is_Some (mget (ss_id s) m) →
    is_Some (mget (ss_id s) (fold_left (λ m s, mset (ss_id s) s m) l m))) as Hsome.
  { intros l. induction l as [|x l IH]; intros m [Hx|Hx]; [by apply elem_of_nil in Hx|done|..]; cbn [fold_left]; apply IH.
    - rewrite fmap_cons in Hx. apply elem_of_cons in Hx as [Hx|Hx]; [|by left]. right. rewrite Hx, mget_mset_eq. by eexists.
    - right. rewrite mget_mset. case_decide; [by eexists|done]. }
  destruct (Hsome states []) as [s' Hs']; [left; by apply list_elem_of_fmap_2|].
  change (fold_left _ states []) with (stateById states) in Hs'. rewrite Hs'. f_equal.
  apply stateById_spec in Hs' as [Hin' Hid].
  apply list_elem_of_lookup in Hin as [i Hi], Hin' as [j Hj].
  assert (i = j) as ->; [|congruence]. eapply NoDup_lookup; [exact Hnd| |].
  - rewrite list_lookup_fmap, Hi. done.
  - rewrite list_lookup_fmap, Hj. cbn. by rewrite Hid.
Qed.

(** Monitored parents that are all down suppress their child. *)
Lemma down_parents_suppress now states pbc desired x :
  NoDup (ss_id <$> states) → evaluateSuppression now states pbc = Some desired → x ∈ states →
  parents_of pbc (ss_id x) ≠ [] →
  (∀ p, p ∈ parents_of pbc (ss_id x) →
     ∃ ps, ps ∈ states ∧ ss_id ps = p ∧ ss_monitored ps = true ∧ ss_monitorStatus ps = Some "down"%string) →
  mget (ss_id x) desired = Some true.
Proof.
  intros Hnd Hev Hx Hne Hdown. unfold evaluateSuppression in Hev.
  assert (NoDup (ss_id <$> sorted_states states)) as Hnd' by (unfold sorted_states; by rewrite sort_by_perm).
  destruct (evaluate_fold now (stateById states) pbc (sorted_states states)
    (fold_left (λ m s, mset (ss_id s) false m) (sorted_states states) []) Hnd') as (result & Hrun & _ & Hall).
  rewrite Hev in Hrun. injection Hrun as <-.
  assert (x ∈ sorted_states states) as [i Hi]%list_elem_of_lookup by (unfold sorted_states; by rewrite sort_by_perm).
  destruct (Hall i x Hi) as (v & result_i & Hv & Hiff & _). rewrite Hv. f_equal. apply Hiff. split; [done|].
  intros p Hp (q & Hpq & Hok). destruct (Hdown p Hp) as (ps & Hps & <- & Hmon & Hst).
  pose proof (stateById_total states ps Hnd Hps) as Hg.
  apply rtc_inv in Hpq as [<-|(y & ((ps' & Hg' & _ & Hm') & _) & _)]; [|congruence].
  unfold ok_end in Hok. rewrite Hg, Hmon in Hok. naive_solver.
Qed.

(** ** A pass of the monitor *)

Section passes.
Context `{UuidLaws}.

Definition resolved_of (s : MonitorState) (a : AssetRow) : option (AssetRow * MonitorCols * MonitorTierSettings) :=
  (λ c, (a, c, settings_of (mo_settings s) (pass_context a c))) <$> mget (as_id a) (mo_cols s).

Lemma resolve_candidates_run l s :
  monitor_ok s → (∀ a, a ∈ l → valid_id (as_discoveredByIntegrationId a)) →
  ∃ s', resolve_candidates l s = (s', Ok (omap (resolved_of s) l)) ∧ monitor_ok s' ∧ mo_dep s' = mo_dep s ∧
    mo_cols s' = mo_cols s ∧ ∀ ctx, settings_of (mo_settings s') ctx = settings_of (mo_settings s) ctx.
Proof.
  revert s. induction l as [|a l IH]; intros s Hok Hv; [by exists s|].
  cbn [resolve_candidates]. unfold hbind at 1, hgets at 1.
  change (omap (resolved_of s) (a :: l)) with
    (match resolved_of s a with Some y => y :: omap (resolved_of s) l | None => omap (resolved_of s) l end).
  unfold resolved_of at 1. destruct (mget (as_id a) (mo_cols s)) as [c|] eqn:Hc; cbn [fmap option_fmap option_map].
  2: { apply IH; [done|]. intros x Hx. apply Hv. by right. }
  destruct Hok as [Hnd [Hco Hro]].
  destruct (resolve_ok (pass_context a c) (mo_settings s)) as (st & Hres & Hco' & Hro' & Hsame);
    [apply Hv; left|done|done|].
  unfold hbind at 1, in_settings. rewrite Hres. set (s1 := mkMonitorState _ _ _ _ _ _).
  destruct (IH s1) as (s2 & Hr2 & Hok2 & Hd2 & Hc2 & Hs2); [by split|intros x Hx; apply Hv; by right|].
  exists s2. unfold hbind, hret. rewrite Hr2. split_and!; [|done|by rewrite Hd2|by rewrite Hc2|].
  - do 3 f_equal. apply list_omap_ext, Forall2_same_length_lookup_2; [done|].
    intros i x y Hx Hy. assert (x = y) as -> by congruence. unfold resolved_of. cbn [mo_cols s1].
    destruct (mget (as_id y) (mo_cols s)); [|done]. cbn. by rewrite Hsame.
  - intros ctx. rewrite Hs2. apply Hsame.
Qed.

(** What is due for an asset, by its row and its settings. *)
Definition due (s : MonitorState) (enabled : WorkKind → bool) (w : Work) : Prop :=
  ∃ a c, a ∈ dp_assets (mo_dep s) ∧ as_monitored a = true ∧ as_id a = w.1 ∧ mget (as_id a) (mo_cols s) = Some c ∧
    due_work (dp_now (mo_dep s)) enabled (settings_of (mo_settings s) (pass_context a c)) a c w.2 = true.

Lemma elem_work_of s enabled k w :
  w ∈ work_of (dp_now (mo_dep s)) enabled (omap (resolved_of s) (List.filter as_monitored (dp_assets (mo_dep s)))) k ↔
  w.2 = k ∧ due s enabled w.
Proof.
  unfold work_of. rewrite list_elem_of_fmap. split.
  - intros ([[a c] eff] & -> & [Hin%list_elem_of_In Hd]%list_elem_of_In%filter_In). cbn in *. split; [done|].
    apply list_elem_of_omap in Hin as (a' & [Ha%list_elem_of_In Hm]%list_elem_of_In%filter_In & Hr).
    unfold resolved_of in Hr. destruct (mget (as_id a') (mo_cols s)) as [c'|] eqn:Hc; [|done]. cbn in Hr. simplify_eq.
    by exists a, c.
  - destruct w as [id k']. intros [<- (a & c & Ha & Hm & Hid & Hc & Hd)]. cbn in *. subst id.
    exists (a, c, settings_of (mo_settings s) (pass_context a c)). split; [done|].
    apply list_elem_of_In, filter_In. split; [|done]. apply list_elem_of_In, list_elem_of_omap. exists a. split.
    + apply list_elem_of_In, filter_In. split; [by apply list_elem_of_In|done].
    + unfold resolved_of. by rewrite Hc.
Qed.

Lemma work_of_NoDup now enabled l k : NoDup ((λ x, as_id x.1.1) <$> l) → NoDup (work_of now enabled l k).
Proof.
  unfold work_of. induction l as [|x l IH]; [constructor|]. rewrite fmap_cons. intros [Hx Hnd]%NoDup_cons. cbn.
  destruct (due_work _ _ _ _ _ _); [|by apply IH]. rewrite fmap_cons. apply NoDup_cons. split; [|by apply IH].
  intros (y & Hy & [Hyl%list_elem_of_In _]%list_elem_of_In%filter_In)%list_elem_of_fmap. apply Hx, list_elem_of_fmap.
  exists y. split; [congruence|done].
Qed.

Lemma resolved_ids s l : NoDup (as_id <$> l) → NoDup ((λ x, as_id x.1.1) <$> omap (resolved_of s) l).
Proof.
  induction l as [|a l IH]; [constructor|]. rewrite fmap_cons. intros [Ha Hnd]%NoDup_cons. cbn.
  destruct (resolved_of s a) as [x|] eqn:Hr; [|by apply IH]. rewrite fmap_cons. apply NoDup_cons. split; [|by apply IH].
  assert (as_id x.1.1 = as_id a) as ->.
  { unfold resolved_of in Hr. destruct (mget _ _); [|done]. by injection Hr as <-. }
  intros (y & Hy & (b & Hb & Hrb)%list_elem_of_omap)%list_elem_of_fmap. apply Ha, list_elem_of_fmap. exists b. split; [|done].
  rewrite Hy. unfold resolved_of in Hrb. destruct (mget (as_id b) _); [|done]. by injection Hrb as <-.
Qed.

Lemma NoDup_filter_ids (q : AssetRow → bool) l : NoDup (as_id <$> l) → NoDup (as_id <$> List.filter q l).
Proof.
  induction l as [|a l IH]; [constructor|]. rewrite fmap_cons. intros [Ha Hnd]%NoDup_cons. cbn.
  destruct (q a); [|by apply IH]. rewrite fmap_cons. apply NoDup_cons. split; [|by apply IH].
  intros (b & Hb & [Hbl%list_elem_of_In _]%list_elem_of_In%filter_In)%list_elem_of_fmap. apply Ha, list_elem_of_fmap. eauto.
Qed.

Lemma row_unique s a b :
  NoDup (as_id <$> dp_assets (mo_dep s)) → a ∈ dp_assets (mo_dep s) → b ∈ dp_assets (mo_dep s) → as_id a = as_id b → a = b.
Proof.
  intros Hnd [i Hi]%list_elem_of_lookup [j Hj]%list_elem_of_lookup Hab.
  assert (i = j) as ->; [|congruence]. eapply NoDup_lookup; [exact Hnd| |].
  - rewrite list_lookup_fmap, Hi. done.
  - rewrite list_lookup_fmap, Hj. cbn. by rewrite Hab.
Qed.

Lemma isDue_spec now last n :
  isDue now last n = true ↔ 0 < n ∧ ∀ t, last = Some t → n * 1000 ≤ now - t.
Proof.
  unfold isDue. destruct (Z.leb_spec n 0); [split; [done|lia]|]. destruct last as [t|].
  - rewrite Z.leb_le. split; [intros Hle; split; [lia|by intros ? [= <-]]|intros [_ Hall]; by apply Hall].
  - split; [done|done].
Qed.

Lemma probe_wait eff a :
  probeIntervalSec eff a = ts_num eff intervalSeconds *
    (if as_dependencySuppressed a && negb (is_method (ts_polling eff ResponseTime) Disabled) then 2 else 1).
Proof. unfold probeIntervalSec. destruct (_ && _); lia. Qed.

Lemma due_heavy now enabled eff a c k :
  due_work now enabled eff a c k = true → k ≠ ProbeWork →
  as_monitorStatus a = Some "up"%string ∧ as_dependencySuppressed a = false.
Proof.
  unfold due_work. intros Hd Hk. apply andb_true_iff in Hd as [_ Hd].
  assert (bool_decide (as_monitorStatus a = Some "up"%string) && negb (as_dependencySuppressed a) = true) as Hup.
  { destruct k; [done|..]; apply andb_true_iff in Hd as [_ ?]; done. }
  apply andb_true_iff in Hup as [?%bool_decide_eq_true ?%negb_true_iff]. done.
Qed.

Lemma due_exclusive now enabled eff a c :
  due_work now enabled eff a c FastFilteredWork = true → due_work now enabled eff a c SystemInfoWork = true → False.
Proof.
  unfold due_work. rewrite !andb_true_iff, negb_true_iff. intros (_ & (_ & Hn) & _) (_ & (Hs & _) & _). congruence.
Qed.

Lemma select_work_run enabled s :
  monitor_ok s → (∀ a, a ∈ dp_assets (mo_dep s) → valid_id (as_discoveredByIntegrationId a)) →
  ∃ s' work, select_work enabled s = (s', Ok work) ∧ mo_dep s' = mo_dep s ∧ mo_cols s' = mo_cols s ∧ NoDup work ∧
    (∀ w, w ∈ work ↔ due s enabled w) ∧
    (∃ probes rest, work = probes ++ rest ∧ Forall (λ w, w.2 = ProbeWork) probes ∧ Forall (λ w, w.2 ≠ ProbeWork) rest).
Proof.
  intros Hok Hv. destruct (resolve_candidates_run (List.filter as_monitored (dp_assets (mo_dep s))) s Hok)
    as (s' & Hrun & _ & Hd & Hc & _).
  { intros a [Ha%list_elem_of_In _]%list_elem_of_In%filter_In. by apply Hv. }
  eexists s', _. unfold select_work, hbind, hget, hret. rewrite Hrun. split; [reflexivity|]. split_and!; [done|done|..].
  - set (res := omap _ _). assert (NoDup ((λ x, as_id x.1.1) <$> res)) as Hnd.
    { apply resolved_ids, NoDup_filter_ids, Hok. }
    repeat (apply NoDup_app; split_and!; [by apply work_of_NoDup| |]); [..|by apply work_of_NoDup];
      intros w; rewrite ?elem_of_app; unfold res; rewrite !elem_work_of; intros [Hk _]; rewrite Hk; intuition discriminate.
  - intros w. rewrite !elem_of_app, !elem_work_of. destruct (w.2) eqn:Hk; naive_solver.
  - eexists _, _. split; [reflexivity|]. split; apply Forall_forall; intros w; rewrite ?elem_of_app, !elem_work_of; intuition congruence.
Qed.

(** What a pass schedules.  Selecting the work of a pass returns; no item is
    scheduled twice and the probes come first.  A monitored asset is probed when
    its cadence is enabled and its interval, doubled while its parents are down,
    has passed since the last probe or it was never probed; the heavy collectors
    run only for an asset that is up and not suppressed, and the pinned scrape
    never beside a full one. *)
Theorem monitor_pass_schedule enabled s :
  monitor_ok s → (∀ a, a ∈ dp_assets (mo_dep s) → valid_id (as_discoveredByIntegrationId a)) →
  ∃ s' work, select_work enabled s = (s', Ok work) ∧ NoDup work ∧
    (∃ probes rest, work = probes ++ rest ∧ Forall (λ w, w.2 = ProbeWork) probes ∧ Forall (λ w, w.2 ≠ ProbeWork) rest) ∧
    (∀ a c, a ∈ dp_assets (mo_dep s) → mget (as_id a) (mo_cols s) = Some c →
       let eff := settings_of (mo_settings s) (pass_context a c) in
       let wait := ts_num eff intervalSeconds *
         (if as_dependencySuppressed a && negb (is_method (ts_polling eff ResponseTime) Disabled) then 2 else 1) in
       (as_id a, ProbeWork) ∈ work ↔
         enabled ProbeWork = true ∧ as_monitored a = true ∧ 0 < wait ∧
         ∀ t, mc_lastMonitorAt c = Some t → wait * 1000 ≤ dp_now (mo_dep s) - t) ∧
    (∀ id k, (id, k) ∈ work → k ≠ ProbeWork →
       ∃ a, a ∈ dp_assets (mo_dep s) ∧ as_id a = id ∧ as_monitorStatus a = Some "up"%string ∧ as_dependencySuppressed a = false) ∧
    (∀ id, ¬ ((id, FastFilteredWork) ∈ work ∧ (id, SystemInfoWork) ∈ work)).
Proof.
  intros Hok Hv. destruct (select_work_run enabled s Hok Hv) as (s' & work & Hrun & _ & _ & Hnd & Hdue & Hord).
  exists s', work. split_and!; [done..| | |].
  - intros a c Ha Hc. cbv zeta. rewrite Hdue. unfold due. cbn [fst snd]. split.
    + intros (a' & c' & Ha' & Hm & Hid & Hc' & Hd). assert (a' = a) as -> by (eapply row_unique; [apply Hok|done..]).
      assert (c' = c) as -> by congruence. unfold due_work in Hd. apply andb_true_iff in Hd as [He Hp].
      apply isDue_spec in Hp as [Hpos Hel]. by rewrite probe_wait in Hpos, Hel.
    + intros (He & Hm & Hpos & Hel). exists a, c. split_and!; [done..|]. unfold due_work. apply andb_true_iff.
      split; [done|]. apply isDue_spec. by rewrite probe_wait.
  - intros id k (a & c & Ha & _ & Hid & _ & Hd)%Hdue Hk. exists a. cbn in Hid, Hd. apply due_heavy in Hd as [? ?]; [|done].
    by split_and!.
  - intros id [(a & c & Ha & _ & Hid & Hc & Hd)%Hdue (a' & c' & Ha' & _ & Hid' & Hc' & Hd')%Hdue]. cbn in *.
    assert (a' = a) as -> by (eapply row_unique; [apply Hok|done|done|congruence]). assert (c' = c) as -> by congruence.
    eapply due_exclusive; done.
Qed.

Lemma find_of_elem id l : id ∈ as_id <$> l → ∃ a, List.find (λ a, String.eqb (as_id a) id) l = Some a.
Proof.
  intros (a & -> & Ha)%list_elem_of_fmap. destruct (List.find _ l) as [b|] eqn:Hf; [by exists b|].
  eapply find_none in Hf; [|by apply list_elem_of_In]. by rewrite String.eqb_refl in Hf.
Qed.

Lemma core_update_back id st l l' a' :
  core <$> l' = core <$> update_assets [id] (set_status st) l → a' ∈ l' →
  ∃ a, a ∈ l ∧ as_id a' = as_id a ∧ as_discoveredByIntegrationId a' = as_discoveredByIntegrationId a ∧
    as_monitored a' = as_monitored a ∧ (as_id a = id → as_monitorStatus a' = Some st).
Proof.
  intros Hcore Ha'. assert (core a' ∈ core <$> l') as Hin by (by apply list_elem_of_fmap_2).
  rewrite Hcore in Hin. apply list_elem_of_fmap in Hin as (b & Hb & (a & -> & Ha)%list_elem_of_fmap). exists a. unfold core in Hb.
  case_bool_decide as Hid; cbn in Hb; injection Hb as ? ? ? ? ? ?; (split_and!; [done..|]); [done|].
  intros Hx. exfalso. apply Hid. rewrite Hx. by apply list_elem_of_singleton.
Qed.

(** In a settled tree, a child whose one parent is a monitored asset that is down
    is suppressed. *)
Lemma settled_child now desired d x b :
  NoDup (as_id <$> dp_assets d) → settled now desired d → x ∈ dp_assets d → b ∈ dp_assets d →
  parents_of (loadEffectiveParents (dp_rows d)) (as_id x) = [as_id b] →
  as_monitored b = true → as_monitorStatus b = Some "down"%string → as_dependencySuppressed x = true.
Proof.
  intros Hnd [Hev Hflag] Hx Hb Hpar Hm Hst. rewrite (Hflag x Hx). change (as_id x) with (ss_id (suppression_state x)).
  assert (mget (ss_id (suppression_state x)) desired = Some true) as ->; [|done].
  eapply down_parents_suppress; [|exact Hev|..].
  - rewrite <-list_fmap_compose. exact Hnd.
  - by apply list_elem_of_fmap_2.
  - cbn. by rewrite Hpar.
  - cbn. rewrite Hpar. intros q ->%list_elem_of_singleton. exists (suppression_state b).
    split_and!; [by apply list_elem_of_fmap_2|done..].
Qed.

(** From a failed probe to a quiet child.  When a probe confirms a monitored
    parent down, its only-child dependents are suppressed by the time
    [recordProbeResult] returns, and a pass that follows schedules none of the
    heavy collectors for them. *)
Theorem down_parent_quiets_child id result fromAgent s p ctx child enabled :
  monitor_ok s → (∀ a, a ∈ dp_assets (mo_dep s) → valid_id (as_discoveredByIntegrationId a)) →
  probed_at s id p ctx →
  (ts_polling (settings_of (mo_settings s) ctx) ResponseTime = Some AgentPoll → fromAgent = true) →
  pb_status p ≠ "down"%string →
  pb_status (probe_step (ts_num (settings_of (mo_settings s) ctx) failureThreshold) p (pr_success result)) = "down"%string →
  (∀ a, a ∈ dp_assets (mo_dep s) → as_id a = id → as_monitored a = true) →
  child ∈ as_id <$> dp_assets (mo_dep s) →
  parents_of (loadEffectiveParents (dp_rows (mo_dep s))) child = [id] →
  ∃ s' s'' work, recordProbeResult id result None fromAgent s = (s', Ok tt) ∧
    (∃ a, List.find (λ a, String.eqb (as_id a) child) (dp_assets (mo_dep s')) = Some a ∧ as_dependencySuppressed a = true) ∧
    select_work enabled s' = (s'', Ok work) ∧ ∀ k, k ≠ ProbeWork → (child, k) ∉ work.
Proof.
  intros Hok Hval Hp Hag Hne Hdown Hmon Hchild Hpar.
  assert (valid_id (ac_integrationId ctx)) as Hv.
  { destruct Hp as (a & c & Hf & _ & _ & ->). apply find_some in Hf as [Ha%list_elem_of_In _]. by apply Hval. }
  destruct (recordProbeResult_run id result fromAgent s p ctx Hok Hp Hv Hag) as (s' & Hr & Hok' & _ & _ & Hrows & Hcore & Hset).
  set (p' := probe_step _ p _) in *.
  destruct Hset as (desired & Hev & Hflag); [congruence|by right|].
  pose proof (λ a', core_update_back id (pb_status p') (dp_assets (mo_dep s)) _ a' Hcore) as Hback. rewrite Hdown in Hback.
  assert (as_id <$> dp_assets (mo_dep s') = as_id <$> dp_assets (mo_dep s)) as Hids.
  { rewrite (core_ids _ _ Hcore). unfold update_assets. rewrite <-list_fmap_compose. apply list_fmap_ext.
    intros i x _. cbn. by case_bool_decide. }
  destruct (find_of_elem child (dp_assets (mo_dep s'))) as (x & Hx); [by rewrite Hids|].
  pose proof (find_some _ _ Hx) as [Hxin%list_elem_of_In Hxid%String.eqb_eq].
  assert (as_dependencySuppressed x = true) as Hsup.
  { assert (id ∈ as_id <$> dp_assets (mo_dep s')) as (b & Hbid & Hb)%list_elem_of_fmap.
    { rewrite Hids. destruct Hp as (a & c & Hf & _). apply find_some in Hf as [Ha%list_elem_of_In <-%String.eqb_eq].
      by apply list_elem_of_fmap_2. }
    destruct (Hback b Hb) as (a & Ha & Hida & _ & Hm & Hst).
    eapply (settled_child (dp_now (mo_dep s)) desired (mo_dep s') x b); [apply Hok'|by split|done|done|..].
    - by rewrite Hxid, Hrows, Hpar, Hbid.
    - rewrite Hm. apply Hmon; [done|congruence].
    - apply Hst. congruence. }
  destruct (select_work_run enabled s' Hok') as (s'' & work & Hsel & _ & _ & _ & Hdue & _).
  { intros a' (a & Ha & _ & -> & _)%Hback. by apply Hval. }
  exists s', s'', work. split_and!; [done|by exists x|done|].
  intros k Hk (a & c & Ha & _ & Hida & _ & Hd)%Hdue. cbn in Hida, Hd. apply due_heavy in Hd as [_ Hd]; [|done].
  assert (a = x) as -> by (eapply row_unique; [apply Hok'|done|done|congruence]). congruence.
Qed.
End passes.

(** ** The worker pool *)

Definition count_kind (k : WorkKind) (l : list Work) : nat := length (List.filter (λ w, bool_decide (w.2 = k)) l).
Definition kind_total (st : RunStats) (k : WorkKind) : nat :=
  match k with
  | ProbeWork => rs_probed st
  | TelemetryWork => (rs_telemetry st).1 + (rs_telemetry st).2
  | SystemInfoWork => (rs_systemInfo st).1 + (rs_systemInfo st).2
  | FastFilteredWork => (rs_fastFiltered st).1 + (rs_fastFiltered st).2
  end.

Lemma kind_total_count st w o k :
  kind_total (count_work st w o) k = (kind_total st k + if bool_decide (w.2 = k) then 1 else 0)%nat.
Proof. destruct w as [id []], o, k; case_bool_decide as Hk; cbn in *; first [done | lia]. Qed.

Section pool.
Context (work : list Work) (limit : nat).

(** The items that workers hold. *)
Definition held (p : Pool) : list Work := omap (λ i, work !! i) (po_running p).

Record pool_ok (p : Pool) : Prop := mkPoolOk {
  pk_cursor : (po_cursor p ≤ length work)%nat;
  pk_limit : (length (po_running p) ≤ limit)%nat;
  pk_held : Forall (λ i, (i < length work)%nat) (po_running p);
  pk_counts : ∀ k, (kind_total (po_stats p) k + count_kind k (held p))%nat = count_kind k (take (po_cursor p) work);
}.

Lemma count_kind_app k l1 l2 : count_kind k (l1 ++ l2) = (count_kind k l1 + count_kind k l2)%nat.
Proof. unfold count_kind. by rewrite List.filter_app, length_app. Qed.
Lemma count_kind_one k w : count_kind k [w] = if bool_decide (w.2 = k) then 1%nat else 0%nat.
Proof. unfold count_kind. cbn. by case_bool_decide. Qed.

Lemma pool_step_ok p p' : pool_step work limit p p' → pool_ok p → pool_ok p'.
Proof.
  destruct 1 as [p Hc Hl|p pre i post w o Hrun Hw]; intros [Hcur Hlim Hheld Hcnt].
  - destruct (lookup_lt_is_Some_2 work (po_cursor p) Hc) as [w Hw]. constructor; cbn [po_cursor po_running po_stats].
    + lia.
    + rewrite length_app. cbn. lia.
    + apply Forall_app. split; [done|]. by constructor.
    + intros k. unfold held. cbn [po_running po_stats po_cursor]. rewrite omap_app, count_kind_app, (take_S_r work _ w) by done.
      assert (omap (λ i, work !! i) [po_cursor p] = [w]) as -> by (cbn; by rewrite Hw).
      rewrite count_kind_app. specialize (Hcnt k). unfold held in Hcnt. lia.
  - assert (Hsplit : ∀ k, count_kind k (held p) =
      (count_kind k (omap (λ i, work !! i) (pre ++ post)) + if bool_decide (w.2 = k) then 1 else 0)%nat).
    { intros k. unfold held. rewrite Hrun, !omap_app, !count_kind_app. cbn [omap list_omap]. rewrite Hw.
      change (w :: omap (λ i, work !! i) post) with ([w] ++ omap (λ i, work !! i) post).
      rewrite count_kind_app, count_kind_one. lia. }
    rewrite Hrun in Hlim, Hheld. apply Forall_app in Hheld as [? [? ?]%Forall_cons]. constructor; cbn [po_cursor po_running po_stats].
    + done.
    + rewrite length_app in *. cbn in Hlim. lia.
    + by apply Forall_app.
    + intros k. specialize (Hcnt k). rewrite Hsplit in Hcnt. rewrite kind_total_count. unfold held. cbn [po_running]. lia.
Qed.

Lemma pool_reachable_ok p : rtc (pool_step work limit) pool_start p → pool_ok p.
Proof.
  revert p. apply rtc_ind_r; [|intros p p' _ Hst Hok; by eapply pool_step_ok].
  constructor; cbn; [lia|lia|constructor|]. by intros [].
Qed.

(** The work a pool has left, in steps. *)
Definition left_over (p : Pool) : nat := 2 * (length work - po_cursor p) + length (po_running p).

Lemma pool_step_left p p' : pool_step work limit p p' → (left_over p' < left_over p)%nat.
Proof.
  unfold left_over. destruct 1 as [p Hc Hl|p pre i post w o Hrun Hw]; cbn; [rewrite length_app; cbn; lia|].
  rewrite Hrun, !length_app. cbn. lia.
Qed.
End pool.

(** The worker pool of a pass.  However the workers interleave, at most
    [limit] items run at once, the pool stops after at most two turns per item,
    and when it stops every item of every kind was run and counted exactly once. *)
Theorem pool_runs_each_once concurrency work p :
  let limit := pool_limit concurrency work in
  rtc (pool_step work limit) pool_start p →
  (length (po_running p) ≤ limit)%nat ∧
  (∀ n, nsteps (pool_step work limit) n pool_start p → (n ≤ 2 * length work)%nat) ∧
  ((¬ ∃ p', pool_step work limit p p') → ∀ k, kind_total (po_stats p) k = count_kind k work).
Proof.
  intros limit Hp. pose proof (pool_reachable_ok _ _ p Hp) as [Hcur Hlim Hheld Hcnt]. split_and!; [done| |].
  - intros n Hn. assert (∀ q, nsteps (pool_step work limit) n q p → (n + left_over work p ≤ left_over work q)%nat) as Hgen.
    { clear Hn. induction n as [|n IH]; intros q Hq; inversion Hq as [|? ? y ? Hs Hrest]; subst; [lia|].
      apply IH in Hrest. apply pool_step_left in Hs. lia. }
    specialize (Hgen _ Hn). unfold left_over, pool_start in Hgen. cbn in Hgen. lia.
  - intros Hstop k.
    assert (po_running p = []) as Hr.
    { destruct (po_running p) as [|i l] eqn:Hr; [done|]. exfalso. apply Hstop. apply Forall_cons in Hheld as [Hi _].
      destruct (lookup_lt_is_Some_2 work i Hi) as [w Hw]. eexists. eapply (pool_done work limit p [] i l w Success); done. }
    assert (po_cursor p = length work) as Hc.
    { destruct (decide (po_cursor p < length work)%nat) as [Hlt|]; [|lia]. exfalso. apply Hstop. eexists. apply pool_take; [done|].
      rewrite Hr. unfold limit, pool_limit. cbn. destruct work; cbn in *; lia. }
    specialize (Hcnt k). unfold held in Hcnt. rewrite Hr, Hc, take_ge in Hcnt by lia. cbn in Hcnt. lia.
Qed.

(** ** Concrete runs *)

Definition blank_cols (cf cs : Z) : MonitorCols :=
  mkMonitorCols cf cs None None None None None None (λ _, None) (λ _, None) (λ _, None) [] [] [].
(** A firewall that has missed two probes, and the switch behind it. *)
Definition site : MonitorState :=
  mkMonitorState
    (mkDepState [dep_asset_row "fg" "firewall" (Some "warning"%string) (Some 1); dep_asset_row "sw" "switch" (Some "up"%string) (Some 2)]
       [mkDepRow "sw" "fg" Computed Lldp] [] [] 5000 [])
    [("fg", blank_cols 2 0); ("sw", blank_cols 0 9)]%string (mkMonState None None [] [] [] [] [] 0) [] [] [].
Definition fresh_site : MonitorState :=
  mkMonitorState (mkDepState [dep_asset_row "fg" "firewall" None None] [] [] [] 5000 [])
    [("fg", blank_cols 0 0)]%string (mkMonState None None [] [] [] [] [] 0) [] [] [].

Definition plain_context : AssetMonitorContext :=
  mkContext "firewall" None None (selected_num (blank_cols 0 0)) (λ _, None) (λ _, None).

Lemma blank_settings_ok : @ok_state toy_zod (mkMonState None None [] [] [] [] [] 0).
Proof. split; constructor; cbn; try done; [constructor|by intros ? ? ?%elem_of_nil|by intros ? ?%elem_of_nil]. Qed.
Lemma site_ok : @monitor_ok toy_zod _ site.
Proof. split; [|exact blank_settings_ok]. cbn. repeat constructor; set_solver. Qed.
Lemma fresh_site_ok : @monitor_ok toy_zod _ fresh_site.
Proof. split; [|exact blank_settings_ok]. cbn. repeat constructor; set_solver. Qed.

Lemma recorded_probes_classify_witness :
  ∃ s', record_all "fg" false [mkProbeResult true 1 None; mkProbeResult false 0 None; mkProbeResult false 0 None; mkProbeResult false 0 None]
          fresh_site = (s', Ok tt) ∧ probed_at s' "fg" (mkProbed "down" 3 0) plain_context.
Proof.
  apply (@recorded_probes_classify toy_zod toy_uuid_laws "fg" false
    [mkProbeResult true 1 None; mkProbeResult false 0 None; mkProbeResult false 0 None; mkProbeResult false 0 None] fresh_site plain_context).
  - apply fresh_site_ok.
  - eexists _, _. split_and!; vm_compute; reflexivity.
  - done.
  - vm_compute. discriminate.
  - vm_compute. discriminate.
Defined.

Lemma site_valid a : a ∈ dp_assets (mo_dep site) → @valid_id toy_zod (as_discoveredByIntegrationId a).
Proof. intros Ha. repeat (apply elem_of_cons in Ha as [->|Ha]; [done|]). by apply elem_of_nil in Ha. Qed.

Lemma monitor_pass_schedule_witness :
  ∃ s' work, select_work (λ _, true) site = (s', Ok work) ∧ ("fg"%string, ProbeWork) ∈ work ∧ ("fg"%string, TelemetryWork) ∉ work.
Proof.
  destruct (@monitor_pass_schedule toy_zod toy_uuid_laws (λ _, true) site) as (s' & work & Hrun & _ & _ & Hprobe & Hheavy & _).
  - apply site_ok.
  - apply site_valid.
  - exists s', work. split_and!; [done| |].
    + apply (Hprobe (dep_asset_row "fg" "firewall" (Some "warning"%string) (Some 1)) (blank_cols 2 0)); [left|done|].
      split_and!; [done|done|vm_compute; reflexivity|done].
    + intros Hw. destruct (Hheavy _ _ Hw) as (a & Ha & Hid & Hup & _); [done|].
      repeat (apply elem_of_cons in Ha as [->|Ha]; [vm_compute in Hid, Hup; discriminate|]). by apply elem_of_nil in Ha.
Defined.

Lemma down_parent_quiets_child_witness :
  ∃ s' s'' work, recordProbeResult "fg" (mkProbeResult false 0 None) None false site = (s', Ok tt) ∧
    (∃ a, List.find (λ a, String.eqb (as_id a) "sw") (dp_assets (mo_dep s')) = Some a ∧ as_dependencySuppressed a = true) ∧
    select_work (λ _, true) s' = (s'', Ok work) ∧ ∀ k, k ≠ ProbeWork → ("sw"%string, k) ∉ work.
Proof.
  apply (@down_parent_quiets_child toy_zod toy_uuid_laws "fg" (mkProbeResult false 0 None) false site
    (mkProbed "warning" 2 0) plain_context "sw" (λ _, true)).
  - apply site_ok.
  - apply site_valid.
  - eexists _, _. split_and!; vm_compute; reflexivity.
  - vm_compute. discriminate.
  - discriminate.
  - vm_compute. reflexivity.
  - intros a Ha. repeat (apply elem_of_cons in Ha as [->|Ha]; [done|]). by apply elem_of_nil in Ha.
  - vm_compute. right. left.
  - vm_compute. reflexivity.
Defined.

Lemma pool_runs_each_once_witness :
  let work := [("fg", ProbeWork); ("sw", ProbeWork); ("sw", TelemetryWork)]%string in
  (length (po_running pool_start) ≤ pool_limit (Some 2%Z) work)%nat ∧ pool_limit (Some 2%Z) work = 2%nat.
Proof.
  intros work. split; [|reflexivity].
  apply (pool_runs_each_once (Some 2) work pool_start). apply rtc_refl.
Defined.

(** ** A refresh of an agent-monitored asset *)

(** An asset whose own columns choose the agent. *)
Definition agent_cols : MonitorCols :=
  mkMonitorCols 0 0 None None None None None None (λ _, None) (λ _, Some "agent"%string) (λ _, None) [] [] [].
Definition agent_site : MonitorState :=
  mkMonitorState (mkDepState [dep_asset_row "pc" "workstation" None None] [] [] [] 5000 [])
    [("pc", agent_cols)]%string (mkMonState None None [] [] [] [] [] 0) [] [] [].

(** The row [recordProbeResult] reads itself lacks the polling columns, so its
    guard does not see the agent: the synthetic success of a refresh is recorded.
    With the row handed over by the probe it is not. *)
Example refresh_misses_the_agent :
  let result := mkProbeResult true 0 None in
  let full := mkSnapshot None 0 0 (mkContext "workstation" None None (selected_num agent_cols) (mc_polling agent_cols) (λ _, None)) in
  length (mo_samples (recordProbeResult "pc" result None false agent_site).1) = 1%nat ∧
  length (mo_samples (recordProbeResult "pc" result (Some full) false agent_site).1) = 0%nat.
Proof. vm_compute. done. Qed.
