(* ===== verification/SampleBuffer.v ===== *)
(** * The write buffer of the monitor's samples

    [src/src/services/sampleWriteBuffer.ts] and [retryOnDeadlock] of
    [src/src/utils/dbRetry.ts]: six buffers in front of the six sample tables of
    the database.  One operation per turn of the event loop: an enqueue, the
    timer, the answer of the database to a running [createMany], the end of a
    backoff, the shutdown hook, and a change of the asset table.

    A [createMany] stores all of its rows or none; the tables have a foreign key
    to the assets that cascades on deletion ([prisma/schema.prisma]).  Durations,
    metrics and logs are not kept; floats are rationals. *)

From stdpp Require Import functions.
From S2P Require Import Prelude Http.
From Stdlib Require Import QArith.QArith_base.

#[local] Open Scope Z_scope.

(** ** Rows *)

Record MonitorSampleRow := mkMonitorSample {
  ms_assetId : string; ms_timestamp : Z; ms_success : bool; ms_responseTimeMs : option Z; ms_error : option string }.
Record TelemetrySampleRow := mkTelemetrySample {
  ts_assetId : string; ts_timestamp : Z; ts_cpuPct : option Q; ts_memPct : option Q;
  ts_memUsedBytes : option Z; ts_memTotalBytes : option Z }.
Record TemperatureSampleRow := mkTemperatureSample {
  tp_assetId : string; tp_timestamp : Z; tp_sensorName : string; tp_celsius : option Q }.
Record InterfaceSampleRow := mkInterfaceSample {
  if_assetId : string; if_timestamp : Z; if_ifName : string; if_adminStatus : option string; if_operStatus : option string;
  if_speedBps : option Z; if_ipAddress : option string; if_macAddress : option string; if_inOctets : option Z;
  if_outOctets : option Z; if_inErrors : option Z; if_outErrors : option Z; if_ifType : option string;
  if_ifParent : option string; if_vlanId : option Z; if_alias : option string; if_description : option string }.
Record StorageSampleRow := mkStorageSample {
  st_assetId : string; st_timestamp : Z; st_mountPath : string; st_totalBytes : option Z; st_usedBytes : option Z }.
Record IpsecTunnelSampleRow := mkIpsecTunnelSample {
  ip_assetId : string; ip_timestamp : Z; ip_tunnelName : string; ip_parentInterface : option string;
  ip_remoteGateway : option string; ip_status : string; ip_incomingBytes : option Z; ip_outgoingBytes : option Z;
  ip_proxyIdCount : option Z }.

Inductive BufferKey := monitor | telemetry | temperature | iface | storage | ipsecTunnel.
#[global] Instance BufferKey_eq_dec : EqDecision BufferKey.
Proof. solve_decision. Defined.
Definition buffer_keys : list BufferKey := [monitor; telemetry; temperature; iface; storage; ipsecTunnel].

(** A buffer holds [unknown[]]; the constructor is what a row really is. *)
Inductive SampleRow :=
  | MonitorRow (r : MonitorSampleRow)
  | TelemetryRow (r : TelemetrySampleRow)
  | TemperatureRow (r : TemperatureSampleRow)
  | InterfaceRow (r : InterfaceSampleRow)
  | StorageRow (r : StorageSampleRow)
  | IpsecTunnelRow (r : IpsecTunnelSampleRow).

Definition row_key (r : SampleRow) : BufferKey :=
  match r with
  | MonitorRow _ => monitor | TelemetryRow _ => telemetry | TemperatureRow _ => temperature
  | InterfaceRow _ => iface | StorageRow _ => storage | IpsecTunnelRow _ => ipsecTunnel
  end.
Definition row_asset (r : SampleRow) : string :=
  match r with
  | MonitorRow r => ms_assetId r | TelemetryRow r => ts_assetId r | TemperatureRow r => tp_assetId r
  | InterfaceRow r => if_assetId r | StorageRow r => st_assetId r | IpsecTunnelRow r => ip_assetId r
  end.

(** ** [retryOnDeadlock] *)

(** The [SQLSTATE] of an error, where the adapters put it. *)
Definition extractPgCode (err : option Json) : option string :=
  let deadlock v := bool_decide (jstring v = Some "40P01"%string) in
  if negb (jtruthy err) then None
  else if deadlock (jget "code" err) then Some "40P01"%string
  else
    let cause := jget "cause" (jget "driverAdapterError" (jget "meta" err)) in
    if jtruthy (jget "meta" err) &&
       (deadlock (jget "originalCode" cause) || deadlock (jget "code" cause))
    then Some "40P01"%string
    else if Js.includes "deadlock detected" (default "" (jstring (jget "message" err))) then Some "40P01"%string
    else None.
Definition is_deadlock (err : Json) : bool := bool_decide (extractPgCode (Some err) = Some "40P01"%string).

Definition MAX_ATTEMPTS : nat := 4.
(** Waiting for the database, or for the backoff before the next attempt. *)
Inductive Phase := Writing | Backoff.

(** ** Buffers *)

(** A call of [flushTable] between its snapshot and its [finally]; there is one
    exactly while [flushing[key]] is set. *)
Record Flush := mkFlush { fl_batch : list SampleRow; fl_attempt : nat; fl_phase : Phase }.
Record Table := mkTable {
  tb_buffer : list SampleRow;
  tb_flight : option Flush;
  tb_rows : list SampleRow;  (* the table of the database *)
}.
Record Buffers := mkBuffers {
  bf_table : BufferKey → Table;
  bf_timer : bool;
  bf_awaited : option (list BufferKey);  (* the flushes the shutdown hook waits for *)
  bf_assets : list string;
}.
Definition empty_table : Table := mkTable [] None [].
Definition new_buffers (assetIds : list string) : Buffers := mkBuffers (λ _, empty_table) false None assetIds.

Definition SIZE_THRESHOLD : nat := 5000.

Definition at_table (k : BufferKey) (f : Table → Table) (s : Buffers) : Buffers :=
  mkBuffers (<[k := f (bf_table s k)]> (bf_table s)) (bf_timer s) (bf_awaited s) (bf_assets s).

(** Until the first [await]. *)
Definition start_flush (t : Table) : Table :=
  match tb_flight t, tb_buffer t with
  | None, _ :: _ => mkTable [] (Some (mkFlush (tb_buffer t) 0 Writing)) (tb_rows t)
  | _, _ => t
  end.
Definition flushTable (k : BufferKey) : Buffers → Buffers := at_table k start_flush.

Definition push (k : BufferKey) (rows : list SampleRow) (s : Buffers) : Buffers :=
  let s1 := at_table k (λ t, mkTable (tb_buffer t ++ rows) (tb_flight t) (tb_rows t)) s in
  if (SIZE_THRESHOLD <=? length (tb_buffer (bf_table s1 k)))%nat then flushTable k s1 else s1.
Definition enqueueMonitorSample (row : MonitorSampleRow) : Buffers → Buffers := push monitor [MonitorRow row].
Definition enqueueTelemetrySample (row : TelemetrySampleRow) : Buffers → Buffers := push telemetry [TelemetryRow row].
Definition enqueueTemperatureSamples (rows : list TemperatureSampleRow) (s : Buffers) : Buffers :=
  match rows with [] => s | _ => push temperature (TemperatureRow <$> rows) s end.
Definition enqueueInterfaceSamples (rows : list InterfaceSampleRow) (s : Buffers) : Buffers :=
  match rows with [] => s | _ => push iface (InterfaceRow <$> rows) s end.
Definition enqueueStorageSamples (rows : list StorageSampleRow) (s : Buffers) : Buffers :=
  match rows with [] => s | _ => push storage (StorageRow <$> rows) s end.
Definition enqueueIpsecTunnelSamples (rows : list IpsecTunnelSampleRow) (s : Buffers) : Buffers :=
  match rows with [] => s | _ => push ipsecTunnel (IpsecTunnelRow <$> rows) s end.

Definition flushAllSampleBuffers (s : Buffers) : Buffers := foldl (λ s k, flushTable k s) s buffer_keys.

Definition startSampleWriteBuffer (s : Buffers) : Buffers :=
  mkBuffers (bf_table s) true (bf_awaited s) (bf_assets s).

(** Would [flushTable] start a flush? *)
Definition starts (t : Table) : bool := bool_decide (tb_flight t = None) && negb (bool_decide (tb_buffer t = [])).
Definition shutdownFlushSampleBuffers (s : Buffers) : Buffers :=
  let started := List.filter (λ k, starts (bf_table s k)) buffer_keys in
  flushAllSampleBuffers (mkBuffers (bf_table s) false (Some started) (bf_assets s)).

(** ** The second half of a flush *)

(** [createMany]: the rows fit the table and its foreign key. *)
Definition can_write (k : BufferKey) (assetIds : list string) (batch : list SampleRow) : bool :=
  forallb (λ r, bool_decide (row_key r = k) && bool_decide (row_asset r ∈ assetIds)) batch.

(** [Lost]: the rows were stored but the answer did not arrive. *)
Inductive Answer := Written | Rejected (err : Json) | Lost (err : Json).

Definition finish_flush (k : BufferKey) (t : Table) (s : Buffers) : Buffers :=
  mkBuffers (<[k := t]> (bf_table s)) (bf_timer s) (List.filter (λ k', negb (bool_decide (k' = k))) <$> bf_awaited s)
    (bf_assets s).

(** The rows go back in front of the buffer. *)
Definition put_back (t : Table) (f : Flush) : Table := mkTable (fl_batch f ++ tb_buffer t) None (tb_rows t).
Definition rejected (k : BufferKey) (t : Table) (f : Flush) (err : Json) (s : Buffers) : Buffers :=
  if is_deadlock err
  then at_table k (λ _, mkTable (tb_buffer t) (Some (mkFlush (fl_batch f) (fl_attempt f) Backoff)) (tb_rows t)) s
  else finish_flush k (put_back t f) s.
Definition stored (t : Table) (f : Flush) : Table := mkTable (tb_buffer t) (tb_flight t) (tb_rows t ++ fl_batch f).

Definition on_answer (k : BufferKey) (a : Answer) (s : Buffers) : option Buffers :=
  let t := bf_table s k in
  match tb_flight t with
  | Some f =>
      match fl_phase f, a with
      | Writing, Rejected err => Some (rejected k t f err s)
      | Writing, Written =>
          if can_write k (bf_assets s) (fl_batch f)
          then Some (finish_flush k (mkTable (tb_buffer t) None (tb_rows t ++ fl_batch f)) s) else None
      | Writing, Lost err =>
          if can_write k (bf_assets s) (fl_batch f) then Some (rejected k (stored t f) f err s) else None
      | Backoff, _ => None
      end
  | None => None
  end.

Definition on_elapsed (k : BufferKey) (s : Buffers) : option Buffers :=
  let t := bf_table s k in
  match tb_flight t with
  | Some (mkFlush batch attempt Backoff) =>
      if (S attempt <? MAX_ATTEMPTS)%nat
      then Some (at_table k (λ _, mkTable (tb_buffer t) (Some (mkFlush batch (S attempt) Writing)) (tb_rows t)) s)
      else Some (finish_flush k (put_back t (mkFlush batch attempt Backoff)) s)
  | _ => None
  end.

(** ** Executions *)

Inductive Samples :=
  | MonitorSample (r : MonitorSampleRow) | TelemetrySample (r : TelemetrySampleRow)
  | TemperatureSamples (l : list TemperatureSampleRow) | InterfaceSamples (l : list InterfaceSampleRow)
  | StorageSamples (l : list StorageSampleRow) | IpsecTunnelSamples (l : list IpsecTunnelSampleRow).
Definition enqueue (x : Samples) : Buffers → Buffers :=
  match x with
  | MonitorSample r => enqueueMonitorSample r | TelemetrySample r => enqueueTelemetrySample r
  | TemperatureSamples l => enqueueTemperatureSamples l | InterfaceSamples l => enqueueInterfaceSamples l
  | StorageSamples l => enqueueStorageSamples l | IpsecTunnelSamples l => enqueueIpsecTunnelSamples l
  end.
Definition sample_rows (x : Samples) : list SampleRow :=
  match x with
  | MonitorSample r => [MonitorRow r] | TelemetrySample r => [TelemetryRow r]
  | TemperatureSamples l => TemperatureRow <$> l | InterfaceSamples l => InterfaceRow <$> l
  | StorageSamples l => StorageRow <$> l | IpsecTunnelSamples l => IpsecTunnelRow <$> l
  end.

(** Deleting an asset deletes its rows. *)
Definition drop_asset (id : string) (s : Buffers) : Buffers :=
  mkBuffers
    (λ k, let t := bf_table s k in
          mkTable (tb_buffer t) (tb_flight t) (List.filter (λ r, negb (String.eqb (row_asset r) id)) (tb_rows t)))
    (bf_timer s) (bf_awaited s) (List.filter (λ a, negb (String.eqb a id)) (bf_assets s)).
Definition add_asset (id : string) (s : Buffers) : Buffers :=
  mkBuffers (bf_table s) (bf_timer s) (bf_awaited s) (bf_assets s ++ [id]).

Inductive Event :=
  | Enqueue (x : Samples) | Tick | Answered (k : BufferKey) (a : Answer) | Elapsed (k : BufferKey)
  | Started | ShutDown | AssetAdded (id : string) | AssetDeleted (id : string).

(** [None]: the event cannot happen now. *)
Definition happen (e : Event) (s : Buffers) : option Buffers :=
  match e with
  | Enqueue x => Some (enqueue x s)
  | Tick => if bf_timer s then Some (flushAllSampleBuffers s) else None
  | Answered k a => on_answer k a s
  | Elapsed k => on_elapsed k s
  | Started => Some (startSampleWriteBuffer s)
  | ShutDown => Some (shutdownFlushSampleBuffers s)
  | AssetAdded id => Some (add_asset id s)
  | AssetDeleted id => Some (drop_asset id s)
  end.
Fixpoint run (evs : list Event) (s : Buffers) : option Buffers :=
  match evs with [] => Some s | e :: evs' => s' ← happen e s; run evs' s' end.

(** One flush to its end, with the answers it gets. *)
Fixpoint await_flush (k : BufferKey) (answers : list Answer) (s : Buffers) : option Buffers :=
  match tb_flight (bf_table s k) with
  | None => Some s
  | Some _ =>
      match answers with
      | [] => None
      | a :: answers' => s' ← on_answer k a s; await_flush k answers' (default s' (on_elapsed k s'))
      end
  end.

(** ** Every sample is kept *)

(** The samples of a table in the order they were enqueued. *)
Definition flight_rows (t : Table) : list SampleRow := match tb_flight t with Some f => fl_batch f | None => [] end.
Definition contents (t : Table) : list SampleRow := tb_rows t ++ flight_rows t ++ tb_buffer t.
Definition added (k : BufferKey) (e : Event) : list SampleRow :=
  match e with Enqueue x => List.filter (λ r, bool_decide (row_key r = k)) (sample_rows x) | _ => [] end.
Definition enqueued (k : BufferKey) (evs : list Event) : list SampleRow := evs ≫= added k.
Definition sample_of (a : string) (r : SampleRow) : bool := String.eqb (row_asset r) a.
Definition deletes (a : string) (e : Event) : bool := match e with AssetDeleted id => String.eqb id a | _ => false end.
Definition loses (k : BufferKey) (e : Event) : bool :=
  match e with Answered k' (Lost _) => bool_decide (k' = k) | _ => false end.

Lemma table_at_table k k' f s : bf_table (at_table k f s) k' = if decide (k' = k) then f (bf_table s k) else bf_table s k'.
Proof. unfold at_table. simpl. destruct (decide (k' = k)) as [->|]; [by rewrite fn_lookup_insert|by rewrite fn_lookup_insert_ne]. Qed.
Lemma table_finish k k' t s : bf_table (finish_flush k t s) k' = if decide (k' = k) then t else bf_table s k'.
Proof. unfold finish_flush. simpl. destruct (decide (k' = k)) as [->|]; [by rewrite fn_lookup_insert|by rewrite fn_lookup_insert_ne]. Qed.
Lemma table_flushAll s k : bf_table (flushAllSampleBuffers s) k = start_flush (bf_table s k).
Proof. unfold flushAllSampleBuffers, flushTable, buffer_keys. cbn [foldl]. rewrite !table_at_table. by destruct k. Qed.
Lemma contents_start t : contents (start_flush t) = contents t.
Proof.
  unfold start_flush, contents, flight_rows. destruct (tb_flight t) eqn:Hf; [by rewrite Hf|].
  destruct (tb_buffer t) eqn:Hb; [by rewrite Hf, Hb|]. simpl. by rewrite app_nil_r.
Qed.
Lemma contents_push k k' rows s :
  contents (bf_table (push k rows s) k') = contents (bf_table s k') ++ if decide (k' = k) then rows else [].
Proof.
  assert (contents (bf_table (push k rows s) k') =
    contents (bf_table (at_table k (λ t, mkTable (tb_buffer t ++ rows) (tb_flight t) (tb_rows t)) s) k')) as ->.
  { unfold push. destruct (_ <=? _)%nat; [|done]. unfold flushTable. rewrite (table_at_table k k').
    destruct (decide (k' = k)) as [->|]; [apply contents_start|done]. }
  rewrite table_at_table. destruct (decide (k' = k)) as [->|]; [|by rewrite app_nil_r].
  unfold contents, flight_rows. simpl. by rewrite !app_assoc.
Qed.
Lemma filter_key {A} (f : A → SampleRow) k k' l :
  (∀ x, row_key (f x) = k) → List.filter (λ r, bool_decide (row_key r = k')) (f <$> l) = if decide (k' = k) then f <$> l else [].
Proof.
  intros Hf. induction l as [|x l IH]; [by destruct (decide _)|]. rewrite fmap_cons. cbn [List.filter]. rewrite Hf, IH.
  destruct (decide (k' = k)) as [->|]; [by rewrite bool_decide_eq_true_2|by rewrite bool_decide_eq_false_2].
Qed.
Lemma contents_enqueue k x s : contents (bf_table (enqueue x s) k) = contents (bf_table s k) ++ added k (Enqueue x).
Proof.
  destruct x as [r|r|l|l|l|l]; unfold added; cbn [enqueue sample_rows].
  1,2: unfold enqueueMonitorSample, enqueueTelemetrySample; rewrite contents_push; by destruct k.
  - rewrite (filter_key TemperatureRow temperature k l) by done.
    destruct l; [destruct (decide _); by rewrite app_nil_r|apply contents_push].
  - rewrite (filter_key InterfaceRow iface k l) by done.
    destruct l; [destruct (decide _); by rewrite app_nil_r|apply contents_push].
  - rewrite (filter_key StorageRow storage k l) by done.
    destruct l; [destruct (decide _); by rewrite app_nil_r|apply contents_push].
  - rewrite (filter_key IpsecTunnelRow ipsecTunnel k l) by done.
    destruct l; [destruct (decide _); by rewrite app_nil_r|apply contents_push].
Qed.

(** What one event does to the samples of one table. *)
Inductive moved (k : BufferKey) (e : Event) (t t' : Table) : Prop :=
  | moved_kept : contents t' = contents t ++ added k e → moved k e t t'
  | moved_deleted id : e = AssetDeleted id →
      tb_rows t' = List.filter (λ r, negb (String.eqb (row_asset r) id)) (tb_rows t) →
      flight_rows t' = flight_rows t → tb_buffer t' = tb_buffer t → moved k e t t'
  | moved_lost : loses k e = true → contents t' = tb_rows t ++ flight_rows t ++ flight_rows t ++ tb_buffer t → moved k e t t'.

Lemma rejected_contents k k' t f err s :
  tb_flight t = Some f →
  contents (bf_table (rejected k t f err s) k') = if decide (k' = k) then contents t else contents (bf_table s k').
Proof.
  intros Hf. unfold rejected. destruct (is_deadlock err); [rewrite table_at_table|rewrite table_finish];
    destruct (decide (k' = k)); try done; unfold contents, flight_rows; by rewrite Hf.
Qed.
Lemma happen_moved k e s s' : happen e s = Some s' → moved k e (bf_table s k) (bf_table s' k).
Proof.
  destruct e as [x| |k' a|k'| | |id|id]; simpl.
  - intros [= <-]. apply moved_kept, contents_enqueue.
  - destruct (bf_timer s); [|done]. intros [= <-]. apply moved_kept. rewrite table_flushAll, contents_start. by rewrite app_nil_r.
  - unfold on_answer. destruct (tb_flight (bf_table s k')) as [f|] eqn:Hf; [|done].
    destruct (fl_phase f), a as [|err|err]; try done.
    + destruct (can_write _ _ _); [|done]. intros [= <-]. apply moved_kept. rewrite table_finish, app_nil_r.
      destruct (decide (k = k')) as [->|]; [|done]. unfold contents, flight_rows. rewrite Hf. simpl. by rewrite <-app_assoc.
    + intros [= <-]. apply moved_kept. rewrite rejected_contents, app_nil_r by done. by destruct (decide (k = k')) as [->|].
    + destruct (can_write _ _ _); [|done]. intros [= <-]. destruct (decide (k = k')) as [->|Hne].
      * apply moved_lost; [simpl; by rewrite bool_decide_eq_true_2|]. rewrite rejected_contents by done.
        rewrite decide_True by done. unfold contents, flight_rows. simpl. rewrite Hf. by rewrite <-app_assoc.
      * apply moved_kept. rewrite rejected_contents, app_nil_r by done. by rewrite decide_False.
  - unfold on_elapsed. destruct (tb_flight (bf_table s k')) as [[b n []]|] eqn:Hf; try done.
    destruct (_ <? _)%nat; intros [= <-]; apply moved_kept; [rewrite table_at_table|rewrite table_finish]; rewrite app_nil_r;
      (destruct (decide (k = k')) as [->|]; [|done]); unfold contents, flight_rows; by rewrite Hf.
  - intros [= <-]. apply moved_kept. by rewrite app_nil_r.
  - intros [= <-]. apply moved_kept. unfold shutdownFlushSampleBuffers. by rewrite table_flushAll, contents_start, app_nil_r.
  - intros [= <-]. apply moved_kept. by rewrite app_nil_r.
  - intros [= <-]. by eapply moved_deleted.
Qed.

Lemma added_key k e r : r ∈ added k e → row_key r = k.
Proof. destruct e; try (simpl; set_solver). simpl. rewrite elem_bfilter. intros [_ Hr]. by apply bool_decide_eq_true in Hr. Qed.

Lemma moved_subset k e t t' r : moved k e t t' → r ∈ contents t' → r ∈ contents t ∨ r ∈ added k e.
Proof.
  intros [->|id -> Hr Hf Hb|_ ->]; [by rewrite elem_of_app| |].
  - unfold contents. rewrite Hr, Hf, Hb, !elem_of_app, elem_bfilter. naive_solver.
  - unfold contents. rewrite !elem_of_app. naive_solver.
Qed.
Lemma moved_keeps k e t t' r :
  moved k e t t' → deletes (row_asset r) e = false → r ∈ contents t ∨ r ∈ added k e → r ∈ contents t'.
Proof.
  intros [->|id -> Hr Hf Hb|Hl Hc] Hd; [by rewrite elem_of_app| |].
  - simpl in *. unfold contents. rewrite Hr, Hf, Hb, !elem_of_app, elem_bfilter, String.eqb_sym, Hd. set_solver.
  - rewrite Hc. unfold contents. rewrite !elem_of_app. destruct e; try done. set_solver.
Qed.
Lemma moved_log k e t t' a :
  moved k e t t' → deletes a e = false → loses k e = false →
  List.filter (sample_of a) (contents t') = List.filter (sample_of a) (contents t) ++ List.filter (sample_of a) (added k e).
Proof.
  intros [->|id -> Hr Hf Hb|Hl Hc] Hd Hlo; [apply List.filter_app| |congruence].
  unfold contents. rewrite Hr, Hf, Hb, !List.filter_app, app_nil_r. f_equal. apply filter_filter_sub.
  intros r Hra. unfold sample_of in Hra. apply String.eqb_eq in Hra. rewrite Hra. simpl in Hd. by rewrite String.eqb_sym, Hd.
Qed.

Lemma run_cons e evs s s' : run (e :: evs) s = Some s' ↔ ∃ s1, happen e s = Some s1 ∧ run evs s1 = Some s'.
Proof. simpl. destruct (happen e s) as [s1|]; simpl; naive_solver. Qed.

Lemma run_contents evs s s' k :
  run evs s = Some s' →
  (∀ r, r ∈ contents (bf_table s' k) → r ∈ contents (bf_table s k) ∨ r ∈ enqueued k evs) ∧
  (∀ r, r ∈ contents (bf_table s k) ∨ r ∈ enqueued k evs → existsb (deletes (row_asset r)) evs = false →
     r ∈ contents (bf_table s' k)) ∧
  (∀ a, existsb (deletes a) evs = false → existsb (loses k) evs = false →
     List.filter (sample_of a) (contents (bf_table s' k)) =
     List.filter (sample_of a) (contents (bf_table s k)) ++ List.filter (sample_of a) (enqueued k evs)).
Proof.
  revert s. induction evs as [|e evs IH]; intros s.
  { intros [= <-]. simpl. split_and!; [set_solver|set_solver|]. intros. by rewrite app_nil_r. }
  rewrite run_cons. intros (s1 & Hs1 & Hrun). destruct (IH s1 Hrun) as (H1 & H2 & H3).
  pose proof (happen_moved k e s s1 Hs1) as Hm. unfold enqueued in *. simpl. split_and!.
  - intros r Hr. rewrite elem_of_app. destruct (H1 r Hr) as [Hc|Hc]; [|tauto].
    destruct (moved_subset _ _ _ _ _ Hm Hc); tauto.
  - intros r Hr [Hd1 Hd2]%orb_false_iff. rewrite elem_of_app in Hr. apply H2; [|done].
    destruct Hr as [Hr|[Hr|Hr]]; [left|left|by right]; eapply moved_keeps; eauto.
  - intros a [Hd1 Hd2]%orb_false_iff [Hl1 Hl2]%orb_false_iff. rewrite H3 by done.
    rewrite (moved_log k e _ _ a Hm) by done. by rewrite List.filter_app, app_assoc.
Qed.

(** C29: no sample is lost or put in the wrong table.  In every execution from
    the start of the process each table and its buffer hold rows of their own
    kind only, and every sample of an asset that was not deleted is stored, in
    flight or buffered; unless the answer to a stored batch got lost, the stored,
    the flying and the buffered samples of such an asset are, in this order, the
    enqueued ones, each once. *)
Theorem samples_kept assetIds evs s k :
  run evs (new_buffers assetIds) = Some s →
  (∀ r, r ∈ contents (bf_table s k) → row_key r = k ∧ r ∈ enqueued k evs) ∧
  (∀ r, r ∈ enqueued k evs → existsb (deletes (row_asset r)) evs = false → r ∈ contents (bf_table s k)) ∧
  (∀ a, existsb (deletes a) evs = false → existsb (loses k) evs = false →
     List.filter (sample_of a) (contents (bf_table s k)) = List.filter (sample_of a) (enqueued k evs)).
Proof.
  intros Hrun. destruct (run_contents _ _ _ k Hrun) as (H1 & H2 & H3). simpl in H1, H2, H3. split_and!.
  - intros r Hr. destruct (H1 r Hr) as [Hn|Hr']; [by apply elem_of_nil in Hn|]. split; [|done].
    unfold enqueued in Hr'. apply list_elem_of_bind in Hr' as (e & Hre & _). by eapply added_key.
  - intros r Hr. apply H2. by right.
  - done.
Qed.

(** ** A flush comes to an end *)

(** The batch and the buffer of a flush in its nth attempt. *)
Definition writing (t : Table) (batch : list SampleRow) (n : nat) : Prop := tb_flight t = Some (mkFlush batch n Writing).

(** The first answer, among those of the attempts, that is not a deadlock. *)
Definition deadlocked (a : Answer) : bool :=
  match a with Rejected err => is_deadlock err | Written | Lost _ => false end.
Definition verdict (answers : list Answer) : option Answer := List.find (λ a, negb (deadlocked a)) answers.

(** The table when the flush is over. *)
Definition flushed (batch : list SampleRow) (v : option Answer) (t : Table) : Table :=
  match v with
  | Some Written => mkTable (tb_buffer t) None (tb_rows t ++ batch)
  | Some (Lost _) => mkTable (batch ++ tb_buffer t) None (tb_rows t ++ batch)
  | Some (Rejected _) | None => mkTable (batch ++ tb_buffer t) None (tb_rows t)
  end.
(** The answers the database can give to this batch: an aborted statement stores
    nothing. *)
Definition answers_ok (k : BufferKey) (assetIds : list string) (batch : list SampleRow) (l : list Answer) : Prop :=
  ∀ a, a ∈ l → match a with Rejected _ => True | Written => can_write k assetIds batch = true
    | Lost err => can_write k assetIds batch = true ∧ is_deadlock err = false end.

Lemma await_flush_run k batch answers n s :
  writing (bf_table s k) batch n → (n + length answers = MAX_ATTEMPTS)%nat →
  answers ≠ [] → answers_ok k (bf_assets s) batch answers →
  ∃ s', await_flush k answers s = Some s' ∧
    bf_table s' k = flushed batch (verdict answers) (bf_table s k) ∧
    (∀ k', k' ≠ k → bf_table s' k' = bf_table s k') ∧ bf_assets s' = bf_assets s ∧ bf_timer s' = bf_timer s.
Proof.
  revert n s. induction answers as [|a answers IH]; intros n s Hw Hlen Hne Hok; [done|].
  assert (∀ t s0, tb_flight t = None →
    await_flush k answers (finish_flush k t s0) = Some (finish_flush k t s0)) as Hend.
  { intros t s0 Ht. assert (tb_flight (bf_table (finish_flush k t s0) k) = None) as Hz by by rewrite table_finish, decide_True.
    destruct answers; cbn [await_flush]; by rewrite Hz. }
  assert (∀ t s0, tb_flight t = None → default (finish_flush k t s0) (on_elapsed k (finish_flush k t s0)) = finish_flush k t s0) as Hel.
  { intros t s0 Ht. unfold on_elapsed. rewrite table_finish, decide_True by done. by rewrite Ht. }
  cbn [await_flush]. unfold writing in Hw. rewrite Hw. unfold on_answer. rewrite Hw. cbn [fl_phase fl_batch fl_attempt].
  pose proof (Hok a ltac:(by left)) as Ha. unfold verdict. cbn [List.find].
  destruct a as [|err|err]; [rewrite Ha| |destruct Ha as [Ha Hd]; rewrite Ha]; cbn [deadlocked negb mbind option_bind].
  - rewrite Hel, Hend by done. eexists. split; [done|]. rewrite table_finish, decide_True by done.
    split_and!; try done. intros k' Hk. by rewrite table_finish, decide_False.
  - unfold rejected. destruct (is_deadlock err) eqn:Hd; cbn [negb].
    + set (s1 := at_table _ _ s). assert (bf_table s1 k = mkTable (tb_buffer (bf_table s k)) (Some (mkFlush batch n Backoff)) (tb_rows (bf_table s k))) as Hs1.
      { unfold s1. by rewrite table_at_table, decide_True. }
      unfold on_elapsed. rewrite Hs1. cbn [tb_flight tb_buffer tb_rows].
      destruct (Nat.ltb_spec (S n) MAX_ATTEMPTS) as [Hlt|Hge]; cbn [default from_option id].
      * set (s2 := at_table k _ s1). destruct (IH (S n) s2) as (s' & Hrun & Hk & Hk' & Has & Hti);
          [| | | |exists s'; split; [exact Hrun|]].
        -- unfold writing, s2. by rewrite table_at_table, decide_True.
        -- simpl in Hlen. lia.
        -- intros ->. simpl in Hlen. unfold MAX_ATTEMPTS in *. lia.
        -- intros a Hin. apply (Hok a). by right.
        -- split_and!; [|intros k' Hne'; rewrite Hk' by done; unfold s2, s1; by rewrite !table_at_table, !decide_False by done|done|done].
           rewrite Hk. unfold s2. rewrite table_at_table, decide_True by done. unfold verdict. by destruct (List.find _ answers) as [[]|].
      * assert (answers = []) as -> by (destruct answers; [done|simpl in Hlen; lia]).
        cbn [default from_option id]. rewrite (Hend (put_back _ _)) by done. eexists. split; [done|].
        rewrite table_finish, decide_True by done. split_and!; try done.
        intros k' Hne'. rewrite table_finish, decide_False by done. unfold s1. by rewrite table_at_table, decide_False.
    + rewrite Hel, Hend by done. eexists. split; [done|]. rewrite table_finish, decide_True by done.
      split_and!; try done. intros k' Hne'. by rewrite table_finish, decide_False.
  - unfold rejected. rewrite Hd. rewrite Hel, Hend by done. eexists. split; [done|].
    rewrite table_finish, decide_True by done. split_and!; try done. intros k' Hne'. by rewrite table_finish, decide_False.
Qed.

(** C28: a flush comes to an end.  Whatever the database answers, four answers
    are enough: the first that is not a deadlock decides, a stored batch leaves
    the buffer, a refused one (or one whose fourth attempt met a deadlock too)
    goes back in front of what was enqueued meanwhile; the other tables are not
    touched and the next flush can start. *)
Theorem flush_terminates k batch answers s :
  writing (bf_table s k) batch 0 → length answers = 4%nat → answers_ok k (bf_assets s) batch answers →
  ∃ s', await_flush k answers s = Some s' ∧ tb_flight (bf_table s' k) = None ∧
    bf_table s' k = flushed batch (verdict answers) (bf_table s k) ∧
    ∀ k', k' ≠ k → bf_table s' k' = bf_table s k'.
Proof.
  intros Hw Hlen Hok. destruct (await_flush_run k batch answers 0 s Hw Hlen) as (s' & Hrun & Hk & Hk' & _ & _);
    [by intros ->|done|]. exists s'. split_and!; [done| |done|done].
  rewrite Hk. unfold flushed. by destruct (verdict answers) as [[]|].
Qed.

(** ** A row that cannot be stored *)

Definition has_row_of (a : string) (l : list SampleRow) : Prop := ∃ r, r ∈ l ∧ row_asset r = a.
(** The flush under way, or the next one, holds a sample of [a]. *)
Definition poisoned (a : string) (t : Table) : Prop :=
  match tb_flight t with Some f => has_row_of a (fl_batch f) | None => has_row_of a (tb_buffer t) end.
Definition adds (a : string) (e : Event) : bool := match e with AssetAdded id => String.eqb id a | _ => false end.

Lemma has_row_app a l l' : has_row_of a l ∨ has_row_of a l' → has_row_of a (l ++ l').
Proof. intros [(r & ? & ?)|(r & ? & ?)]; exists r; by rewrite elem_of_app; split; [tauto|]. Qed.
Lemma poisoned_write k a assetIds batch : a ∉ assetIds → has_row_of a batch → can_write k assetIds batch = false.
Proof.
  intros Ha (r & Hr & Hra). destruct (can_write k assetIds batch) eqn:Hc; [|done]. exfalso.
  unfold can_write in Hc. rewrite forallb_forall in Hc. specialize (Hc r ltac:(by apply list_elem_of_In)).
  apply andb_true_iff in Hc as [_ Hc%bool_decide_eq_true]. by subst.
Qed.
Lemma poisoned_start a t : poisoned a t → poisoned a (start_flush t) ∧ tb_rows (start_flush t) = tb_rows t.
Proof.
  unfold poisoned, start_flush. destruct (tb_flight t) eqn:Hf; [by rewrite Hf|]. destruct (tb_buffer t) eqn:Hb; [|done].
  by rewrite Hf, Hb.
Qed.
Lemma poisoned_push a k k' rows s :
  poisoned a (bf_table s k) →
  poisoned a (bf_table (push k' rows s) k) ∧ tb_rows (bf_table (push k' rows s) k) = tb_rows (bf_table s k).
Proof.
  intros Hp. unfold push. set (s1 := at_table k' _ s).
  assert (poisoned a (bf_table s1 k) ∧ tb_rows (bf_table s1 k) = tb_rows (bf_table s k)) as [Hp1 Hr1].
  { unfold s1. rewrite table_at_table. destruct (decide (k = k')) as [->|]; [|done]. split; [|done].
    unfold poisoned in *. simpl. destruct (tb_flight _); [done|]. apply has_row_app. by left. }
  destruct (_ <=? _)%nat; [|done]. unfold flushTable. rewrite table_at_table. destruct (decide (k = k')) as [->|]; [|done].
  rewrite <-Hr1. by apply poisoned_start.
Qed.
Lemma enqueue_push x s : enqueue x s = s ∨ ∃ k rows, enqueue x s = push k rows s.
Proof. destruct x as [r|r|[|r l]|[|r l]|[|r l]|[|r l]]; try (by left); right; eauto. Qed.
Lemma poisoned_happen a k e s s' :
  happen e s = Some s' → adds a e = false → a ∉ bf_assets s → poisoned a (bf_table s k) →
  a ∉ bf_assets s' ∧ poisoned a (bf_table s' k) ∧ ∀ r, r ∈ tb_rows (bf_table s' k) → r ∈ tb_rows (bf_table s k).
Proof.
  intros He Had Ha Hp. destruct e as [x| |k' an|k'| | |id|id]; simpl in He, Had.
  - injection He as <-. assert (∀ j rows, bf_assets (push j rows s) = bf_assets s) as Hpush.
    { intros j rows. unfold push. by destruct (_ <=? _)%nat. }
    destruct (enqueue_push x s) as [->|(j & rows & ->)]; [done|]. rewrite Hpush. split; [done|].
    destruct (poisoned_push a k j rows s Hp) as [? ->]. done.
  - destruct (bf_timer s); [|done]. injection He as <-. split; [done|]. rewrite table_flushAll.
    destruct (poisoned_start _ _ Hp) as [? ->]. done.
  - unfold on_answer in He. destruct (tb_flight (bf_table s k')) as [f|] eqn:Hf; [|done].
    destruct (decide (k = k')) as [->|Hne].
    + unfold poisoned in Hp. rewrite Hf in Hp.
      destruct (fl_phase f), an as [|err|err]; try done; rewrite ?(poisoned_write k' _ _ _ Ha Hp) in He; try done.
      injection He as <-. unfold rejected. destruct (is_deadlock err); (split; [done|]).
      * rewrite table_at_table, decide_True by done. done.
      * rewrite table_finish, decide_True by done. split; [|done]. unfold poisoned. simpl. apply has_row_app. by left.
    + assert (∀ t f' err, bf_table (rejected k' t f' err s) k = bf_table s k ∧ bf_assets (rejected k' t f' err s) = bf_assets s) as Hrej.
      { intros t f' err. unfold rejected. destruct (is_deadlock err); [by rewrite table_at_table, decide_False|].
        by rewrite table_finish, decide_False. }
      destruct (fl_phase f), an as [|err|err]; try done; try (destruct (can_write _ _ _); [|done]); injection He as <-.
      * by rewrite table_finish, decide_False.
      * by destruct (Hrej (bf_table s k') f err) as [-> ->].
      * by destruct (Hrej (stored (bf_table s k') f) f err) as [-> ->].
  - unfold on_elapsed in He. destruct (tb_flight (bf_table s k')) as [[b n []]|] eqn:Hf; try done.
    destruct (_ <? _)%nat; injection He as <-; (split; [done|]);
      [rewrite table_at_table|rewrite table_finish]; (destruct (decide (k = k')) as [->|]; [|done]);
      unfold poisoned in *; rewrite Hf in Hp; simpl in *; (split; [|done]); [done|]. apply has_row_app. by left.
  - by injection He as <-.
  - injection He as <-. split; [done|]. unfold shutdownFlushSampleBuffers. rewrite table_flushAll. simpl.
    destruct (poisoned_start _ _ Hp) as [? ->]. done.
  - injection He as <-. split; [|done]. simpl. rewrite elem_of_app, list_elem_of_singleton.
    apply String.eqb_neq in Had. naive_solver.
  - injection He as <-. simpl. split; [rewrite elem_bfilter; tauto|]. split; [exact Hp|]. intros r Hr. by apply elem_bfilter in Hr as [? _].
Qed.

(** An asset that is deleted while a sample of it waits blocks its table for
    good: the batch with that sample is refused each time, goes back in front of
    the buffer, and no sample of any asset reaches the table again. *)
Theorem deleted_asset_blocks_table a k evs s s' :
  run evs s = Some s' → existsb (adds a) evs = false → a ∉ bf_assets s → poisoned a (bf_table s k) →
  poisoned a (bf_table s' k) ∧ ∀ r, r ∈ tb_rows (bf_table s' k) → r ∈ tb_rows (bf_table s k).
Proof.
  revert s. induction evs as [|e evs IH]; intros s; [by intros [= <-]|].
  rewrite run_cons. intros (s1 & Hs1 & Hrun) [Hd1 Hd2]%orb_false_iff Ha Hp.
  destruct (poisoned_happen _ _ _ _ _ Hs1 Hd1 Ha Hp) as (Ha1 & Hp1 & Hr1).
  destruct (IH s1 Hrun Hd2 Ha1 Hp1) as [? Hr]. split; [done|]. intros r Hin. by apply Hr1, Hr.
Qed.

(** ** Shutdown *)

(** The events of a process that is going down: no new samples, no lost answers. *)
Definition closing (e : Event) : bool :=
  match e with Answered _ (Written | Rejected _) | Elapsed _ => true | _ => false end.
Definition drained (t0 t : Table) : Prop :=
  tb_flight t = None ∧
  ((tb_buffer t = [] ∧ tb_rows t = tb_rows t0 ++ tb_buffer t0) ∨ (tb_buffer t = tb_buffer t0 ∧ tb_rows t = tb_rows t0)).
(** One table while the hook waits; [ks] are the flushes it waits for. *)
Definition draining (ks : list BufferKey) (k : BufferKey) (t0 t : Table) : Prop :=
  (k ∈ ks ∧ (∃ n p, tb_flight t = Some (mkFlush (tb_buffer t0) n p)) ∧ tb_buffer t = [] ∧ tb_rows t = tb_rows t0) ∨
  (k ∉ ks ∧ drained t0 t).

Lemma draining_other ks k k' t0 t : k ≠ k' → draining ks k t0 t → draining (List.filter (λ j, negb (bool_decide (j = k'))) ks) k t0 t.
Proof.
  intros Hne. unfold draining. rewrite elem_bfilter, negb_true_iff, bool_decide_eq_false. tauto.
Qed.
Lemma draining_done ks k t0 t : drained t0 t → draining (List.filter (λ j, negb (bool_decide (j = k))) ks) k t0 t.
Proof. intros Hd. right. split; [|done]. rewrite elem_bfilter, negb_true_iff, bool_decide_eq_false. tauto. Qed.

Lemma closing_happen k e s s' ks t0 :
  happen e s = Some s' → closing e = true → bf_awaited s = Some ks → draining ks k t0 (bf_table s k) →
  ∃ ks', bf_awaited s' = Some ks' ∧ draining ks' k t0 (bf_table s' k).
Proof.
  intros He Hq Hks Hd. destruct e as [x| |k' an|k'| | |id|id]; try done; simpl in He.
  - unfold on_answer in He. destruct (tb_flight (bf_table s k')) as [f|] eqn:Hf; [|done].
    assert (k = k' → fl_batch f = tb_buffer t0 ∧ tb_buffer (bf_table s k') = [] ∧ tb_rows (bf_table s k') = tb_rows t0 ∧ k ∈ ks) as Hk.
    { intros <-. destruct Hd as [(? & (n & p & Hf') & ? & ?)|(_ & Hf' & _)]; [|congruence]. rewrite Hf' in Hf. by injection Hf as <-. }
    destruct (fl_phase f), an as [|err|err]; try done.
    + destruct (can_write _ _ _); [|done]. injection He as <-. eexists. split; [simpl; by rewrite Hks|]. rewrite table_finish.
      destruct (decide (k = k')) as [->|]; [|by apply draining_other]. destruct (Hk eq_refl) as (Hb & Hb' & Hr & _).
      apply draining_done. split; [done|]. left. simpl. by rewrite Hb, Hb', Hr.
    + injection He as <-. unfold rejected. destruct (is_deadlock err).
      * exists ks. split; [done|]. rewrite table_at_table. destruct (decide (k = k')) as [->|]; [|done].
        destruct (Hk eq_refl) as (Hb & Hb' & Hr & Hin). left. simpl. rewrite Hb. split_and!; eauto.
      * eexists. split; [simpl; by rewrite Hks|]. rewrite table_finish. destruct (decide (k = k')) as [->|]; [|by apply draining_other].
        destruct (Hk eq_refl) as (Hb & Hb' & Hr & _). apply draining_done. split; [done|]. right. simpl. by rewrite Hb, Hb', app_nil_r.
  - unfold on_elapsed in He. destruct (tb_flight (bf_table s k')) as [[b n []]|] eqn:Hf; try done.
    assert (k = k' → b = tb_buffer t0 ∧ tb_buffer (bf_table s k') = [] ∧ tb_rows (bf_table s k') = tb_rows t0 ∧ k ∈ ks) as Hk.
    { intros <-. destruct Hd as [(? & (m & p & Hf') & ? & ?)|(_ & Hf' & _)]; [|congruence]. rewrite Hf' in Hf. by injection Hf as <-. }
    destruct (_ <? _)%nat; injection He as <-.
    + exists ks. split; [done|]. rewrite table_at_table. destruct (decide (k = k')) as [->|]; [|done].
      destruct (Hk eq_refl) as (Hb & Hb' & Hr & Hin). left. simpl. rewrite Hb. split_and!; eauto.
    + eexists. split; [simpl; by rewrite Hks|]. rewrite table_finish. destruct (decide (k = k')) as [->|]; [|by apply draining_other].
      destruct (Hk eq_refl) as (Hb & Hb' & Hr & _). apply draining_done. split; [done|]. right. simpl. by rewrite Hb, Hb', app_nil_r.
Qed.

(** The shutdown hook drains the buffers when no flush is under way: when its
    wait is over, each table has got all of its buffered samples, or none if the
    database refused them, and no flush is running. *)
Theorem shutdown_drains s evs s' :
  (∀ k, tb_flight (bf_table s k) = None) →
  run evs (shutdownFlushSampleBuffers s) = Some s' → forallb closing evs = true → bf_awaited s' = Some [] →
  ∀ k, drained (bf_table s k) (bf_table s' k).
Proof.
  intros Hidle Hrun Hq Hend k.
  assert (∃ ks, bf_awaited (shutdownFlushSampleBuffers s) = Some ks ∧
    draining ks k (bf_table s k) (bf_table (shutdownFlushSampleBuffers s) k)) as Hstart.
  { eexists. split; [done|]. unfold shutdownFlushSampleBuffers. rewrite table_flushAll. cbn [bf_table].
    unfold draining, start_flush. rewrite elem_bfilter, Hidle. unfold starts. rewrite Hidle.
    destruct (tb_buffer (bf_table s k)) as [|r l] eqn:Hb.
    - right. split; [by intros [_ ?]|]. unfold drained. rewrite Hidle. split; [done|]. right. by rewrite Hb.
    - left. split_and!; [by destruct k; set_solver|done|simpl; eauto|done|done]. }
  revert Hstart. generalize (shutdownFlushSampleBuffers s) Hrun. clear Hrun Hidle. revert Hq.
  induction evs as [|e evs IH]; intros Hq s1 Hrun (ks & Hks & Hd).
  - injection Hrun as ->. rewrite Hks in Hend. injection Hend as ->. destruct Hd as [(Hin & _)|[_ Hd]]; [|done].
    by apply elem_of_nil in Hin.
  - apply run_cons in Hrun as (s2 & Hs2 & Hrun). simpl in Hq. apply andb_true_iff in Hq as [Hq1 Hq2].
    eapply IH; [done|done|]. by eapply closing_happen.
Qed.

(** ** Concrete runs *)

Section sample_runs.

Definition probe (a : string) (t : Z) : MonitorSampleRow := mkMonitorSample a t true (Some 3) None.
Definition deadlock_error : Json := JObj [("meta", JObj [("driverAdapterError", JObj [("cause", JObj [("originalCode", JStr "40P01")])])])]%string.
Definition other_error : Json := JObj [("code", JStr "P2003"); ("message", JStr "Foreign key constraint violated")]%string.
Definition after (evs : list Event) (s : Buffers) : Buffers := default s (run evs s).
Definition view (t : Table) : list Z * list Z * list Z :=
  let times := fmap (λ r, match r with MonitorRow r => ms_timestamp r | _ => 0 end) in
  (times (tb_rows t), times (flight_rows t), times (tb_buffer t)).

(** A batch that meets a deadlock and then another error, with a sample enqueued
    in between; the next flush stores both in order. *)
Definition busy : list Event :=
  [Started; Enqueue (MonitorSample (probe "a1" 1)); Tick; Enqueue (MonitorSample (probe "a1" 2));
   Answered monitor (Rejected deadlock_error); Elapsed monitor; Answered monitor (Rejected other_error);
   Tick; Answered monitor Written].

Lemma samples_kept_witness :
  view (bf_table (after busy (new_buffers ["a1"%string])) monitor) = ([1; 2], [], []) ∧
  List.filter (sample_of "a1") (contents (bf_table (after busy (new_buffers ["a1"%string])) monitor)) =
    [MonitorRow (probe "a1" 1); MonitorRow (probe "a1" 2)].
Proof.
  split; [vm_compute; reflexivity|].
  destruct (samples_kept ["a1"%string] busy (after busy (new_buffers ["a1"%string])) monitor) as (_ & _ & H); [vm_compute; reflexivity|].
  rewrite (H "a1"%string); vm_compute; reflexivity.
Defined.

Definition flushing_state : Buffers :=
  after [Started; Enqueue (MonitorSample (probe "a1" 1)); Tick; Enqueue (MonitorSample (probe "a1" 2))] (new_buffers ["a1"%string]).

Lemma flush_terminates_witness :
  (∃ s', await_flush monitor [Rejected deadlock_error; Written; Written; Written] flushing_state = Some s' ∧
     tb_flight (bf_table s' monitor) = None ∧ view (bf_table s' monitor) = ([1], [], [2])) ∧
  (∃ s', await_flush monitor (replicate 4 (Rejected deadlock_error)) flushing_state = Some s' ∧
     tb_flight (bf_table s' monitor) = None ∧ view (bf_table s' monitor) = ([], [], [1; 2])).
Proof.
  split.
  - destruct (flush_terminates monitor [MonitorRow (probe "a1" 1)] [Rejected deadlock_error; Written; Written; Written] flushing_state)
      as (s' & Hrun & Hf & Hk & _); [vm_compute; reflexivity|reflexivity| |].
    + intros a Ha. rewrite !elem_of_cons, elem_of_nil in Ha. destruct Ha as [->|[->|[->|[->|[]]]]]; vm_compute; done.
    + exists s'. split; [exact Hrun|]. split; [exact Hf|]. rewrite Hk. vm_compute. reflexivity.
  - destruct (flush_terminates monitor [MonitorRow (probe "a1" 1)] (replicate 4 (Rejected deadlock_error)) flushing_state)
      as (s' & Hrun & Hf & Hk & _); [vm_compute; reflexivity|reflexivity| |].
    + intros a Ha. simpl in Ha. rewrite !elem_of_cons, elem_of_nil in Ha. destruct Ha as [->|[->|[->|[->|[]]]]]; exact I.
    + exists s'. split; [exact Hrun|]. split; [exact Hf|]. rewrite Hk. vm_compute. reflexivity.
Defined.

(** The asset is deleted while its sample waits: the table is blocked from then
    on, whatever happens. *)
Definition doomed : Buffers :=
  after [Started; Enqueue (MonitorSample (probe "a1" 1)); AssetDeleted "a1"] (new_buffers ["a1"; "a2"]%string).

Corollary doomed_table_stays_empty evs s' :
  run evs doomed = Some s' → existsb (adds "a1") evs = false → tb_rows (bf_table s' monitor) = [].
Proof.
  intros Hrun Hadd. destruct (deleted_asset_blocks_table "a1" monitor evs doomed s' Hrun Hadd) as [_ Hr].
  - intros Hin%(bool_decide_pack _). vm_compute in Hin. exact Hin.
  - exists (MonitorRow (probe "a1" 1)). split; [by left|reflexivity].
  - destruct (tb_rows (bf_table s' monitor)) as [|r l]; [reflexivity|]. specialize (Hr r ltac:(by left)).
    vm_compute in Hr. by apply elem_of_nil in Hr.
Qed.

(** A flush is under way when the process is told to stop: the hook waits for
    nothing, and what was enqueued meanwhile never leaves the buffer. *)
Theorem shutdown_skips_running_flush :
  let s := after [ShutDown] flushing_state in
  bf_awaited s = Some [] ∧ view (bf_table s monitor) = ([], [1], [2]) ∧
  view (bf_table (after [Answered monitor Written] s) monitor) = ([1], [], [2]) ∧
  happen Tick s = None.
Proof. split_and!; vm_compute; reflexivity. Qed.

(** The answer to a stored batch gets lost, and the batch is stored again. *)
Theorem lost_answer_stores_twice :
  view (bf_table (after [Answered monitor (Lost other_error); Tick; Answered monitor Written] flushing_state) monitor) =
  ([1; 1; 2], [], []).
Proof. vm_compute. reflexivity. Qed.
End sample_runs.
