(* ===== verification/Aliases.v ===== *)
(** * Manufacturer aliases

    [src/src/utils/manufacturerNormalize.ts], the alias table and its cache in
    [src/src/services/manufacturerAliasService.ts], the Prisma extension of
    [src/src/db.ts] that normalises every written manufacturer, and the start-up
    job [src/src/jobs/normalizeManufacturers.ts].  The theorems: the cached
    normaliser answers what the alias table says, it is a normal form exactly
    when no alias leads to another, and then the backfill settles in one run. *)

From S2P Require Import Prelude JsColl.

(** ** [manufacturerNormalize.ts] *)

(** The module variable [_aliasMap], [null] until the first load. *)
Definition AliasMap : Type := option (JsMap string string).

Definition setAliasMap (entries : list (string * string)) : AliasMap :=
  Some (fold_left (λ next '(alias, canonical),
    let key := Js.toLowerCase (Js.trim alias) in
    if Js.truthy key then mset key canonical next else next) entries []).

(** [normalizeManufacturer] of a string; [None] is [null]. *)
Definition normalizeManufacturer (map : AliasMap) (input : string) : option string :=
  let trimmed := Js.trim input in
  if Js.truthy trimmed then
    Some (match map with None => trimmed | Some m => default trimmed (mget (Js.toLowerCase trimmed) m) end)
  else None.

(** ** State *)

Record ManufacturerAliasRow := mkAliasRow {
  al_id : string;
  al_alias : string;
  al_canonical : string;
}.

Record MibFile := mkMibFile {
  mb_id : string;
  mb_manufacturer : option string;
  mb_model : option string;
  mb_moduleName : string;
}.

(** An asset as far as its manufacturer goes. *)
Record MadeAsset := mkMadeAsset {
  ma_id : string;
  ma_manufacturer : option string;
}.

Record AliasState := mkAliasState {
  ax_rows : list ManufacturerAliasRow;
  ax_map : AliasMap;
  ax_assets : list MadeAsset;
  ax_mibs : list MibFile;
  ax_nextId : nat;
}.

Definition set_ax_rows (l : list ManufacturerAliasRow) (s : AliasState) : AliasState :=
  mkAliasState l (ax_map s) (ax_assets s) (ax_mibs s) (ax_nextId s).
Definition set_ax_map (m : AliasMap) (s : AliasState) : AliasState :=
  mkAliasState (ax_rows s) m (ax_assets s) (ax_mibs s) (ax_nextId s).
Definition set_ax_assets (l : list MadeAsset) (s : AliasState) : AliasState :=
  mkAliasState (ax_rows s) (ax_map s) l (ax_mibs s) (ax_nextId s).
Definition set_ax_mibs (l : list MibFile) (s : AliasState) : AliasState :=
  mkAliasState (ax_rows s) (ax_map s) (ax_assets s) l (ax_nextId s).

Notation Al := (M AliasState).

(** ** The cache and the backfill *)

Definition refreshAliasCache : Al unit :=
  hmodify (λ s, set_ax_map (setAliasMap ((λ r, (al_alias r, al_canonical r)) <$> ax_rows s)) s).

(** What the extension makes of a written manufacturer. *)
Definition normalizeManufacturerInData (map : AliasMap) (manufacturer : option string) : option string :=
  match manufacturer with Some v => normalizeManufacturer map v | None => None end.

(** [distinct: ["manufacturer"]] over the assets that have one. *)
Definition asset_raws (s : AliasState) : list string := remove_dups (omap ma_manufacturer (ax_assets s)).

(** [updateMany({ where: { manufacturer: raw }, data: { manufacturer: canonical } })];
    the data pass through the extension. *)
Definition update_made (map : AliasMap) (raw canonical : string) (l : list MadeAsset) : list MadeAsset :=
  (λ a, if bool_decide (ma_manufacturer a = Some raw)
        then mkMadeAsset (ma_id a) (normalizeManufacturerInData map (Some canonical)) else a) <$> l.

(** One bucket of assets. *)
Definition apply_to_assets (raw : string) (count : nat) : Al nat :=
  let! s := hget in
  match normalizeManufacturer (ax_map s) raw with
  | Some canonical =>
      if Js.truthy canonical && negb (String.eqb canonical raw) then
        let hits := List.filter (λ a, bool_decide (ma_manufacturer a = Some raw)) (ax_assets s) in
        hmodify (λ s, set_ax_assets (update_made (ax_map s) raw canonical (ax_assets s)) s) ;!
        hret (count + length hits)%nat
      else hret count
  | None => hret count
  end.

(** The unique index on (manufacturer, model, moduleName); nulls never clash. *)
Definition mib_conflict (a b : MibFile) : bool :=
  negb (String.eqb (mb_id a) (mb_id b)) &&
  match mb_manufacturer a, mb_manufacturer b, mb_model a, mb_model b with
  | Some x, Some y, Some m, Some n => String.eqb x y && String.eqb m n && String.eqb (mb_moduleName a) (mb_moduleName b)
  | _, _, _, _ => false
  end.

(** [prisma.mibFile.update({ where: { id }, data: { manufacturer } })] *)
Definition update_mib (id canonical : string) : Al unit :=
  let! s := hget in
  match List.find (λ b, String.eqb (mb_id b) id) (ax_mibs s) with
  | None => hthrow (PrismaError "P2025")
  | Some b =>
      let b' := mkMibFile (mb_id b) (normalizeManufacturerInData (ax_map s) (Some canonical)) (mb_model b) (mb_moduleName b) in
      if existsb (mib_conflict b') (ax_mibs s) then hthrow (PrismaError "P2002")
      else hmodify (λ s, set_ax_mibs ((λ x, if String.eqb (mb_id x) id then b' else x) <$> ax_mibs s) s)
  end.

(** One MIB file of the snapshot; a row that would collide is skipped. *)
Definition apply_to_mib (b : MibFile) (count : nat) : Al nat :=
  match mb_manufacturer b with
  | None => hret count
  | Some raw =>
      if negb (Js.truthy raw) then hret count else
      let! s := hget in
      match normalizeManufacturer (ax_map s) raw with
      | Some canonical =>
          if Js.truthy canonical && negb (String.eqb canonical raw)
          then hcatch (update_mib (mb_id b) canonical ;! hret (S count)) (λ _, hret count)
          else hret count
      | None => hret count
      end
  end.

(** [for (const x of l) n = f(x, n)] *)
Fixpoint count_loop {A} (l : list A) (f : A → nat → Al nat) (n : nat) : Al nat :=
  match l with
  | [] => hret n
  | x :: l' => let! n := f x n in count_loop l' f n
  end.

Definition applyAliasesToExistingRows : Al (nat * nat) :=
  let! raws := hgets asset_raws in
  let! assetCount := count_loop (List.filter Js.truthy raws) apply_to_assets 0 in
  let! mibs := hgets (λ s, List.filter (λ b, match mb_manufacturer b with Some _ => true | None => false end) (ax_mibs s)) in
  let! mibCount := count_loop mibs apply_to_mib 0 in
  hret (assetCount, mibCount).

(** ** The handlers *)

Definition quote : string := String (Ascii.ascii_of_nat 34) "".
Definition same_alias (alias : string) (r : ManufacturerAliasRow) : bool := String.eqb (al_alias r) alias.

(** [prisma.manufacturerAlias.create] *)
Definition insert_alias (alias canonical : string) : Al ManufacturerAliasRow := λ s,
  let row := mkAliasRow (pretty (ax_nextId s)) alias canonical in
  (mkAliasState (ax_rows s ++ [row]) (ax_map s) (ax_assets s) (ax_mibs s) (S (ax_nextId s)), Ok row).

Definition createAlias (input_alias input_canonical : string) : Al ManufacturerAliasRow :=
  let alias := Js.toLowerCase (Js.trim input_alias) in
  let canonical := Js.trim input_canonical in
  throw_if (negb (Js.truthy alias)) (AppError 400 "alias is required") ;!
  throw_if (negb (Js.truthy canonical)) (AppError 400 "canonical is required") ;!
  throw_if (String.eqb alias (Js.toLowerCase canonical)) (AppError 400 "alias and canonical cannot be the same string") ;!
  let! existing := hgets (λ s, List.find (same_alias alias) (ax_rows s)) in
  throw_if (match existing with Some _ => true | None => false end)
    (AppError 409 ("An alias for " +:+ quote +:+ input_alias +:+ quote +:+ " already exists")) ;!
  let! row := insert_alias alias canonical in
  refreshAliasCache ;!
  applyAliasesToExistingRows ;!
  hret row.

(** The [data] object of an update: each field trimmed, an empty one refused. *)
Definition parse_alias (alias : option string) : Al (option string) :=
  match alias with
  | None => hret None
  | Some a =>
      let trimmed := Js.toLowerCase (Js.trim a) in
      throw_if (negb (Js.truthy trimmed)) (AppError 400 "alias cannot be empty") ;! hret (Some trimmed)
  end.
Definition parse_canonical (canonical : option string) : Al (option string) :=
  match canonical with
  | None => hret None
  | Some c =>
      let trimmed := Js.trim c in
      throw_if (negb (Js.truthy trimmed)) (AppError 400 "canonical cannot be empty") ;! hret (Some trimmed)
  end.

(** [prisma.manufacturerAlias.update] *)
Definition update_alias_row (id : string) (alias canonical : option string) : Al ManufacturerAliasRow :=
  let! s := hget in
  match List.find (λ r, String.eqb (al_id r) id) (ax_rows s) with
  | None => hthrow (PrismaError "P2025")
  | Some r =>
      let r' := mkAliasRow (al_id r) (default (al_alias r) alias) (default (al_canonical r) canonical) in
      if existsb (λ x, negb (String.eqb (al_id x) id) && same_alias (al_alias r') x) (ax_rows s)
      then hthrow (PrismaError "P2002")
      else hmodify (λ s, set_ax_rows ((λ x, if String.eqb (al_id x) id then r' else x) <$> ax_rows s) s) ;! hret r'
  end.

Definition updateAlias (id : string) (input_alias input_canonical : option string) : Al ManufacturerAliasRow :=
  let! alias := parse_alias input_alias in
  let! canonical := parse_canonical input_canonical in
  throw_if (match alias, canonical with Some a, Some c => String.eqb a (Js.toLowerCase c) | _, _ => false end)
    (AppError 400 "alias and canonical cannot be the same string") ;!
  let! row := hcatch (update_alias_row id alias canonical) (λ _, hthrow (AppError 404 "Alias not found")) in
  refreshAliasCache ;!
  applyAliasesToExistingRows ;!
  hret row.

Definition deleteAlias (id : string) : Al unit :=
  let! s := hget in
  throw_if (negb (existsb (λ r, String.eqb (al_id r) id) (ax_rows s))) (AppError 404 "Alias not found") ;!
  hmodify (λ s, set_ax_rows (List.filter (λ r, negb (String.eqb (al_id r) id)) (ax_rows s)) s) ;!
  refreshAliasCache.

(** ** The seed and the start-up job *)

Definition DEFAULT_ALIASES : list (string * string) :=
  [("Fortinet, Inc.", "Fortinet");
   ("Fortinet Inc.", "Fortinet");
   ("Fortinet Inc", "Fortinet");
   ("Cisco Systems, Inc.", "Cisco");
   ("Cisco Systems Inc", "Cisco");
   ("Cisco Systems", "Cisco");
   ("Cisco Meraki", "Cisco");
   ("Juniper Networks, Inc.", "Juniper");
   ("Juniper Networks Inc", "Juniper");
   ("Juniper Networks", "Juniper");
   ("Hewlett Packard Enterprise", "HPE");
   ("HPE", "HPE");
   ("Hewlett-Packard Company", "HP");
   ("Hewlett Packard", "HP");
   ("HP Inc.", "HP");
   ("HP Inc", "HP");
   ("Aruba, a Hewlett Packard Enterprise company", "Aruba");
   ("Aruba Networks", "Aruba");
   ("MikroTikls SIA", "MikroTik");
   ("Mikrotikls SIA", "MikroTik");
   ("Mikrotik", "MikroTik");
   ("Microsoft Corporation", "Microsoft");
   ("Microsoft Corp.", "Microsoft");
   ("Dell Inc.", "Dell");
   ("Dell Inc", "Dell");
   ("Dell Computer Corp.", "Dell");
   ("Dell Technologies, Inc.", "Dell");
   ("Dell EMC", "Dell");
   ("Palo Alto Networks", "Palo Alto");
   ("Palo Alto Networks, Inc.", "Palo Alto");
   ("Arista Networks, Inc.", "Arista");
   ("Arista Networks", "Arista");
   ("VMware, Inc.", "VMware");
   ("VMware Inc", "VMware");
   ("Apple, Inc.", "Apple");
   ("Apple Inc.", "Apple");
   ("Lenovo Group Ltd.", "Lenovo");
   ("LENOVO", "Lenovo");
   ("Ubiquiti Networks Inc.", "Ubiquiti");
   ("Ubiquiti Networks", "Ubiquiti");
   ("Ubiquiti Inc.", "Ubiquiti");
   ("NETGEAR", "Netgear");
   ("Netgear, Inc.", "Netgear");
   ("Brocade Communications Systems, Inc.", "Brocade");
   ("Extreme Networks, Inc.", "Extreme Networks");
   ("Ruckus Wireless", "Ruckus");
   ("Ruckus Networks", "Ruckus")].

Definition seed_entry (entry : string * string) (inserted : nat) : Al nat :=
  let alias := Js.toLowerCase (Js.trim entry.1) in
  let canonical := Js.trim entry.2 in
  if negb (Js.truthy alias) || negb (Js.truthy canonical) then hret inserted else
  let! existing := hgets (λ s, List.find (same_alias alias) (ax_rows s)) in
  match existing with
  | Some _ => hret inserted
  | None => insert_alias alias canonical ;! hret (S inserted)
  end.
Definition seedDefaultAliases : Al nat := count_loop DEFAULT_ALIASES seed_entry 0.

Definition normalizeManufacturersJob : Al (nat * nat) :=
  seedDefaultAliases ;!
  refreshAliasCache ;!
  applyAliasesToExistingRows.

(** ** The table and its cache *)

Record row_ok (r : ManufacturerAliasRow) : Prop := mkRowOk {
  rk_alias : Js.toLowerCase (Js.trim (al_alias r)) = al_alias r;
  rk_alias_set : Js.truthy (al_alias r) = true;
  rk_canonical : Js.trim (al_canonical r) = al_canonical r;
  rk_canonical_set : Js.truthy (al_canonical r) = true;
}.

Definition cache_of (rows : list ManufacturerAliasRow) : AliasMap := setAliasMap ((λ r, (al_alias r, al_canonical r)) <$> rows).

Record table_ok (rows : list ManufacturerAliasRow) (nextId : nat) : Prop := mkTableOk {
  to_rows : ∀ r, r ∈ rows → row_ok r;
  to_alias : NoDup (al_alias <$> rows);
  to_ids : NoDup (al_id <$> rows);
  to_fresh : ∀ r n, r ∈ rows → (nextId ≤ n)%nat → al_id r ≠ pretty n;
}.
Definition alias_ok (s : AliasState) : Prop :=
  table_ok (ax_rows s) (ax_nextId s) ∧ (ax_map s = None ∨ ax_map s = cache_of (ax_rows s)).

(** What the alias table says of a manufacturer. *)
Definition table_normal (rows : list ManufacturerAliasRow) (input : string) : option string :=
  let trimmed := Js.trim input in
  if Js.truthy trimmed
  then Some (default trimmed (al_canonical <$> List.find (same_alias (Js.toLowerCase trimmed)) rows))
  else None.

Lemma find_alias rows r :
  NoDup (al_alias <$> rows) → r ∈ rows → List.find (same_alias (al_alias r)) rows = Some r.
Proof.
  induction rows as [|x rows IH]; [by intros _ ?%elem_of_nil|]. rewrite fmap_cons. intros [Hx Hnd]%NoDup_cons.
  unfold same_alias at 1. cbn [List.find]. intros [->|Hr]%elem_of_cons; [by rewrite String.eqb_refl|].
  destruct (String.eqb_spec (al_alias x) (al_alias r)) as [He|]; [|by apply IH].
  exfalso. apply Hx. rewrite He. by apply list_elem_of_fmap_2.
Qed.

Lemma find_alias_none rows k : k ∉ al_alias <$> rows → List.find (same_alias k) rows = None.
Proof.
  intros Hk.
  destruct (List.find (same_alias k) rows) as [r|] eqn:Hf; [|done].
  apply find_some in Hf as [Hr%list_elem_of_In He%String.eqb_eq]. destruct Hk. rewrite <-He. by apply list_elem_of_fmap_2.
Qed.

Lemma cache_get rows k m :
  (∀ r, r ∈ rows → row_ok r) → NoDup (al_alias <$> rows) → cache_of rows = Some m →
  mget k m = al_canonical <$> List.find (same_alias k) rows.
Proof.
  intros Hok Hnd [= <-].
  assert (∀ l m0, (∀ r, r ∈ l → row_ok r) → NoDup (al_alias <$> l) →
    mget k (fold_left (λ next '(alias, canonical), let key := Js.toLowerCase (Js.trim alias) in
                         if Js.truthy key then mset key canonical next else next)
              ((λ r, (al_alias r, al_canonical r)) <$> l) m0) =
    match List.find (same_alias k) l with Some r => Some (al_canonical r) | None => mget k m0 end) as Hloop.
  { induction l as [|r l IH]; intros m0 Hl Hu; [done|]. rewrite fmap_cons in Hu. apply NoDup_cons in Hu as [Hr Hu].
    rewrite fmap_cons. cbn [fold_left List.find]. destruct (Hl r) as [Ha Hs _ _]; [by left|]. cbv zeta. rewrite Ha, Hs.
    rewrite IH; [|intros; apply Hl; by right|done]. rewrite mget_mset.
    change (same_alias k r) with (String.eqb (al_alias r) k).
    destruct (String.eqb_spec (al_alias r) k) as [He|Hne].
    - rewrite He in *. rewrite find_alias_none by done. by rewrite decide_True.
    - by rewrite decide_False by congruence. }
  rewrite Hloop by done. by destruct (List.find (same_alias k) rows).
Qed.

Lemma normalize_table s input :
  alias_ok s → ax_map s ≠ None → normalizeManufacturer (ax_map s) input = table_normal (ax_rows s) input.
Proof.
  intros [[Hok Hnd _ _] [Hm|Hm]] Hl; [done|]. unfold normalizeManufacturer, table_normal.
  destruct (Js.truthy (Js.trim input)); [|done]. rewrite Hm. destruct (cache_of (ax_rows s)) as [m|] eqn:Hc; [|done].
  by rewrite (cache_get (ax_rows s) _ m).
Qed.

(** No alias leads to the alias of another name. *)
Definition chain_free (rows : list ManufacturerAliasRow) : Prop :=
  ∀ r r', r ∈ rows → r' ∈ rows → al_alias r' = Js.toLowerCase (al_canonical r) → al_canonical r' = al_canonical r.

(** The normaliser gives normal forms. *)
Definition normal_form (n : string → option string) : Prop :=
  ∀ x y, n x = Some y → Js.truthy y = true ∧ n y = Some y.

Lemma table_normal_forms rows :
  (∀ r, r ∈ rows → row_ok r) → NoDup (al_alias <$> rows) → normal_form (table_normal rows) ↔ chain_free rows.
Proof.
  intros Hok Hnd. split.
  - intros Hn r r' Hr Hr' Ha. destruct (Hok r Hr) as [Har Hsr Hcr Htr].
    assert (table_normal rows (al_alias r) = Some (al_canonical r)) as Hx.
    { unfold table_normal. assert (Js.trim (al_alias r) = al_alias r) as -> by (rewrite <-Har at 1; by rewrite trim_lower, trim_idem).
      rewrite Hsr. assert (Js.toLowerCase (al_alias r) = al_alias r) as -> by (rewrite <-Har; apply toLowerCase_idem).
      by rewrite find_alias by done. }
    apply Hn in Hx as [_ Hx]. unfold table_normal in Hx. rewrite Hcr, Htr, <-Ha, find_alias in Hx by done. by injection Hx.
  - intros Hc x y. unfold table_normal at 1. destruct (Js.truthy (Js.trim x)) eqn:Ht; [|done]. intros [= <-].
    destruct (List.find _ rows) as [r|] eqn:Hf; cbn.
    + apply find_some in Hf as [Hr%list_elem_of_In _]. destruct (Hok r Hr) as [_ _ Hcr Htr]. split; [done|].
      unfold table_normal. rewrite Hcr, Htr. destruct (List.find _ rows) as [r'|] eqn:Hf'; cbn; [|done].
      apply find_some in Hf' as [Hr'%list_elem_of_In He%String.eqb_eq]. by rewrite (Hc r r').
    + split; [done|]. unfold table_normal. by rewrite trim_idem, Ht, Hf.
Qed.

(** ** The backfill *)

(** The table, the cache and the id counter stay as they are. *)
Definition same_table (s s' : AliasState) : Prop :=
  ax_rows s' = ax_rows s ∧ ax_map s' = ax_map s ∧ ax_nextId s' = ax_nextId s.

Lemma count_loop_frame {A} (l : list A) f n s :
  (∀ x n s, ∃ s' n', f x n s = (s', Ok n') ∧ same_table s s') →
  ∃ s' n', count_loop l f n s = (s', Ok n') ∧ same_table s s'.
Proof.
  intros Hf. revert n s. induction l as [|x l IH]; intros n s; [by exists s, n|]. cbn [count_loop]. unfold hbind.
  destruct (Hf x n s) as (s1 & n1 & -> & H1 & H2 & H3). destruct (IH n1 s1) as (s2 & n2 & -> & ? & ? & ?).
  exists s2, n2. split; [done|]. split_and!; congruence.
Qed.

Lemma apply_to_assets_frame raw n s : ∃ s' n', apply_to_assets raw n s = (s', Ok n') ∧ same_table s s'.
Proof.
  unfold apply_to_assets, hbind, hget. destruct (normalizeManufacturer _ _) as [c|]; [|by exists s, n].
  destruct (_ && _); [|by exists s, n]. by eexists _, _.
Qed.

Lemma apply_to_mib_frame b n s : ∃ s' n', apply_to_mib b n s = (s', Ok n') ∧ same_table s s'.
Proof.
  unfold apply_to_mib. destruct (mb_manufacturer b) as [raw|]; [|by exists s, n].
  destruct (negb _); [by exists s, n|]. unfold hbind, hget. destruct (normalizeManufacturer _ _) as [c|]; [|by exists s, n].
  destruct (_ && _); [|by exists s, n]. unfold hcatch, update_mib, hbind, hget.
  destruct (List.find _ _); [|by exists s, n]. destruct (existsb _ _); [by exists s, n|]. by eexists _, _.
Qed.

Lemma apply_frame s : ∃ s' r, applyAliasesToExistingRows s = (s', Ok r) ∧ same_table s s'.
Proof.
  unfold applyAliasesToExistingRows, hbind at 1 2, hgets at 1.
  destruct (count_loop_frame (List.filter Js.truthy (asset_raws s)) apply_to_assets 0 s apply_to_assets_frame)
    as (s1 & n1 & -> & H1 & H2 & H3). unfold hbind, hgets.
  destruct (count_loop_frame (List.filter (λ b, match mb_manufacturer b with Some _ => true | None => false end) (ax_mibs s1))
    apply_to_mib 0 s1 apply_to_mib_frame) as (s2 & n2 & -> & ? & ? & ?).
  exists s2, (n1, n2). split; [done|]. split_and!; congruence.
Qed.

(** An asset with its manufacturer in normal form; blank ones stay. *)
Definition settled_asset (n : string → option string) (a : MadeAsset) : MadeAsset :=
  mkMadeAsset (ma_id a) ((λ m, default m (n m)) <$> ma_manufacturer a).
Definition settle_in (n : string → option string) (l : list string) (a : MadeAsset) : MadeAsset :=
  if existsb (λ m, bool_decide (ma_manufacturer a = Some m)) l then settled_asset n a else a.

#[export] Instance MadeAsset_eq_dec : EqDecision MadeAsset.
Proof. solve_decision. Defined.

(** The backfill changes the manufacturer of the asset. *)
Definition changes (n : string → option string) (a : MadeAsset) : bool := negb (bool_decide (settled_asset n a = a)).

Section backfill.
Context (n : string → option string) (Hn : normal_form n).

Lemma settle_idem a : settled_asset n (settled_asset n a) = settled_asset n a.
Proof.
  destruct a as [id [m|]]; [|done]. unfold settled_asset. cbn. destruct (n m) as [y|] eqn:Hy; cbn; [|by rewrite Hy].
  by destruct (Hn m y Hy) as [_ ->].
Qed.

Lemma settle_in_one raw a : settle_in n [raw] a = if bool_decide (ma_manufacturer a = Some raw) then settled_asset n a else a.
Proof. unfold settle_in. cbn [existsb]. by rewrite orb_false_r. Qed.

Lemma settle_in_cons raw l a : settle_in n l (settle_in n [raw] a) = settle_in n (raw :: l) a.
Proof.
  rewrite settle_in_one. unfold settle_in. cbn [existsb]. case_bool_decide as Ha; cbn [orb]; [|done].
  destruct (existsb _ l); [by rewrite settle_idem|done].
Qed.

Lemma settle_other raw a : n raw = None ∨ n raw = Some raw → settle_in n [raw] a = a.
Proof.
  rewrite settle_in_one. case_bool_decide as Ha; [|done].
  destruct a as [id m]. cbn in Ha. subst m. unfold settled_asset. cbn. by intros [->| ->].
Qed.

Lemma apply_to_assets_step raw k s :
  (∀ x, normalizeManufacturer (ax_map s) x = n x) →
  apply_to_assets raw k s =
    (set_ax_assets (settle_in n [raw] <$> ax_assets s) s,
     Ok (k + length (List.filter (λ a, bool_decide (ma_manufacturer a = Some raw) && changes n a) (ax_assets s)))%nat).
Proof.
  intros Hm. unfold apply_to_assets, hbind, hget. rewrite Hm.
  assert (n raw = None ∨ n raw = Some raw →
    (s, Ok k) = (set_ax_assets (settle_in n [raw] <$> ax_assets s) s,
     Ok (k + length (List.filter (λ a, bool_decide (ma_manufacturer a = Some raw) && changes n a) (ax_assets s)))%nat)) as Hid.
  { intros Hraw. assert (settle_in n [raw] <$> ax_assets s = ax_assets s) as ->.
    { rewrite <-(list_fmap_id (ax_assets s)) at 2. apply list_fmap_ext. intros ? a _. by apply settle_other. }
    replace (List.filter _ (ax_assets s)) with (@nil MadeAsset); [rewrite Nat.add_0_r; by destruct s|].
    symmetry. induction (ax_assets s) as [|a l IH]; [done|]. cbn [List.filter]. rewrite IH. clear IH.
    case_bool_decide as Ha; [|done]. cbn [andb]. unfold changes. rewrite bool_decide_eq_true_2; [done|].
    pose proof (settle_other raw a Hraw) as He. rewrite settle_in_one in He. by rewrite bool_decide_eq_true_2 in He. }
  destruct (n raw) as [c|] eqn:Hc; [|by apply Hid; left]. destruct (Hn raw c Hc) as [Ht Hcc]. rewrite Ht. cbn [andb].
  destruct (String.eqb_spec c raw) as [->|Hne]; cbn [negb]; [by apply Hid; right|]. unfold hmodify, hret.
  f_equal; [|do 3 f_equal].
  - f_equal. unfold update_made. apply list_fmap_ext. intros ? a _. rewrite settle_in_one.
    case_bool_decide as Ha; [|done]. unfold settled_asset. rewrite Ha. cbn. by rewrite Hm, Hcc, Hc.
  - clear Hid. induction (ax_assets s) as [|a l IH]; [done|]. cbn [List.filter]. rewrite IH.
    case_bool_decide as Ha; [|done]. cbn [andb]. unfold changes. rewrite bool_decide_eq_false_2; [done|].
    destruct a as [id m]. cbn in Ha. subst m. unfold settled_asset. cbn. rewrite Hc. cbn. congruence.
Qed.

Lemma count_settled raw l (A : list MadeAsset) :
  (length (List.filter (λ a, bool_decide (ma_manufacturer a = Some raw) && changes n a) A) +
   length (List.filter (λ a, existsb (λ m, bool_decide (ma_manufacturer a = Some m)) l && changes n a) (settle_in n [raw] <$> A)))%nat =
  length (List.filter (λ a, existsb (λ m, bool_decide (ma_manufacturer a = Some m)) (raw :: l) && changes n a) A).
Proof.
  induction A as [|a A IH]; [done|]. rewrite fmap_cons. cbn [List.filter]. rewrite (settle_in_one raw a). cbn [existsb] in *.
  case_bool_decide as Ha; cbn [orb andb].
  - assert (changes n (settled_asset n a) = false) as ->.
    { unfold changes. by rewrite bool_decide_eq_true_2 by apply settle_idem. }
    rewrite andb_false_r. destruct (changes n a); cbn [length]; rewrite <-IH; lia.
  - destruct (existsb _ l && changes n a) eqn:Hb; cbn [length]; rewrite <-IH; lia.
Qed.

Lemma apply_assets_run l k s :
  (∀ x, normalizeManufacturer (ax_map s) x = n x) →
  count_loop l apply_to_assets k s =
    (set_ax_assets (settle_in n l <$> ax_assets s) s,
     Ok (k + length (List.filter (λ a, existsb (λ m, bool_decide (ma_manufacturer a = Some m)) l && changes n a) (ax_assets s)))%nat).
Proof.
  revert k s. induction l as [|raw l IH]; intros k s Hm.
  - cbn [count_loop]. unfold hret. f_equal.
    + unfold settle_in. cbn [existsb]. rewrite list_fmap_id. by destruct s.
    + do 2 f_equal. induction (ax_assets s) as [|a A IH]; [cbn; lia|exact IH].
  - cbn [count_loop]. unfold hbind. rewrite apply_to_assets_step by done. rewrite IH by done. cbn [ax_assets set_ax_assets].
    f_equal; [|f_equal; rewrite <-count_settled; lia].
    unfold set_ax_assets. cbn. f_equal. rewrite <-list_fmap_compose. apply list_fmap_ext. intros ? a _. apply settle_in_cons.
Qed.

(** A MIB file is settled: its manufacturer is a normal form, or blank, or the
    row in normal form would collide with another. *)
Definition renamed (b : MibFile) (c : string) : MibFile := mkMibFile (mb_id b) (Some c) (mb_model b) (mb_moduleName b).
Definition mib_settled (mibs : list MibFile) (b : MibFile) : Prop :=
  ∀ m c, mb_manufacturer b = Some m → n m = Some c → c = m ∨ existsb (mib_conflict (renamed b c)) mibs = true.

Lemma find_mib mibs b :
  NoDup (mb_id <$> mibs) → b ∈ mibs → List.find (λ x, String.eqb (mb_id x) (mb_id b)) mibs = Some b.
Proof.
  induction mibs as [|x l IH]; [by intros _ ?%elem_of_nil|]. rewrite fmap_cons. intros [Hx Hnd]%NoDup_cons. cbn [List.find].
  intros [->|Hb]%elem_of_cons; [by rewrite String.eqb_refl|].
  destruct (String.eqb_spec (mb_id x) (mb_id b)) as [He|]; [|by apply IH]. exfalso. apply Hx. rewrite He. by apply list_elem_of_fmap_2.
Qed.

(** One file: nothing changes and it is settled, or it takes its normal form. *)
Lemma apply_to_mib_cases b k s :
  (∀ x, normalizeManufacturer (ax_map s) x = n x) → n "" = None → NoDup (mb_id <$> ax_mibs s) → b ∈ ax_mibs s →
  (apply_to_mib b k s = (s, Ok k) ∧ mib_settled (ax_mibs s) b) ∨
  ∃ m c, mb_manufacturer b = Some m ∧ n m = Some c ∧ c ≠ m ∧ existsb (mib_conflict (renamed b c)) (ax_mibs s) = false ∧
    apply_to_mib b k s =
      (set_ax_mibs ((λ x, if String.eqb (mb_id x) (mb_id b) then renamed b c else x) <$> ax_mibs s) s, Ok (S k)).
Proof.
  intros Hm He Hnd Hb. unfold apply_to_mib, mib_settled. destruct (mb_manufacturer b) as [m|] eqn:Hmb; [|by left].
  destruct (Js.truthy m) eqn:Ht; cbn [negb]; cycle 1.
  { left. split; [done|]. intros ? c [= <-]. destruct m; [by rewrite He|done]. }
  unfold hbind, hget. rewrite Hm. destruct (n m) as [c|] eqn:Hc; [|left; split; [done|]; intros; simplify_eq].
  destruct (Hn m c Hc) as [Htc Hcc]. rewrite Htc. cbn [andb].
  destruct (String.eqb_spec c m) as [->|Hne]; cbn [negb]; [left; split; [done|]; intros; simplify_eq; by left|].
  unfold hcatch, update_mib, hbind, hget. rewrite find_mib by done. cbn [normalizeManufacturerInData]. rewrite Hm, Hcc.
  fold (renamed b c). destruct (existsb _ _) eqn:Hx.
  - left. split; [done|]. intros. simplify_eq. by right.
  - right. by exists m, c.
Qed.

Lemma mib_settled_kept b m c mibs x :
  mb_manufacturer b = Some m → n m = Some c → c ≠ m → NoDup (mb_id <$> mibs) → b ∈ mibs →
  mb_id x ≠ mb_id b → mib_settled mibs x →
  mib_settled ((λ x, if String.eqb (mb_id x) (mb_id b) then renamed b c else x) <$> mibs) x.
Proof.
  intros Hb Hc Hne Hnd Hin Hid Hset m' c' Hm' Hc'. destruct (Hset m' c' Hm' Hc') as [->|Hex]; [by left|right].
  apply existsb_exists in Hex as (y & Hy%list_elem_of_In & Hcf). apply existsb_exists. exists y. split; [|done].
  apply list_elem_of_In, list_elem_of_fmap. exists y. split; [|done].
  destruct (String.eqb_spec (mb_id y) (mb_id b)) as [Heq|]; [|done]. exfalso.
  assert (y = b) as ->.
  { pose proof (find_mib mibs y Hnd Hy) as H1. rewrite Heq, (find_mib mibs b Hnd Hin) in H1. congruence. }
  unfold mib_conflict in Hcf. cbn in Hcf. rewrite Hb in Hcf. apply andb_true_iff in Hcf as [_ Hcf].
  destruct (mb_model x), (mb_model b); try done. rewrite !andb_true_iff, !String.eqb_eq in Hcf. destruct Hcf as [[-> _] _].
  destruct (Hn m' m Hc') as [_ Hmm]. congruence.
Qed.

Lemma apply_mibs_run l k s :
  (∀ x, normalizeManufacturer (ax_map s) x = n x) → n "" = None → NoDup (mb_id <$> ax_mibs s) → NoDup (mb_id <$> l) →
  (∀ b, b ∈ l → b ∈ ax_mibs s) → (∀ x, x ∈ ax_mibs s → mb_id x ∉ mb_id <$> l → mib_settled (ax_mibs s) x) →
  ∃ mibs k', count_loop l apply_to_mib k s = (set_ax_mibs mibs s, Ok k') ∧ NoDup (mb_id <$> mibs) ∧
    ∀ x, x ∈ mibs → mib_settled mibs x.
Proof.
  revert k s. induction l as [|b l IH]; intros k s Hm He Hnd Hl Hsub Hset.
  - exists (ax_mibs s), k. split_and!; [by destruct s|done|]. intros x Hx. apply Hset; [done|]. apply not_elem_of_nil.
  - rewrite fmap_cons in Hl. apply NoDup_cons in Hl as [Hbl Hl]. assert (b ∈ ax_mibs s) as Hb by (apply Hsub; by left).
    cbn [count_loop]. unfold hbind.
    assert (∀ x, x ∈ ax_mibs s → mb_id x = mb_id b → x = b) as Hid.
    { intros x Hx Hxb. pose proof (find_mib _ x Hnd Hx) as H1. rewrite Hxb, (find_mib _ b Hnd Hb) in H1. congruence. }
    destruct (apply_to_mib_cases b k s Hm He Hnd Hb) as [[-> Hsb]|(m & c & Hmb & Hc & Hne & _ & ->)].
    + apply IH; try done; [intros; apply Hsub; by right|]. intros x Hx Hxl.
      destruct (decide (mb_id x = mb_id b)) as [Heq|Hnb]; [by rewrite (Hid x Hx Heq)|].
      apply Hset; [done|]. rewrite fmap_cons, elem_of_cons. by intros [|].
    + set (ren := λ x, if String.eqb (mb_id x) (mb_id b) then renamed b c else x).
      assert (mb_id <$> (ren <$> ax_mibs s) = mb_id <$> ax_mibs s) as Hids.
      { rewrite <-list_fmap_compose. apply list_fmap_ext. intros ? x _. unfold compose, ren.
        by destruct (String.eqb_spec (mb_id x) (mb_id b)) as [->|]. }
      destruct (IH (S k) (set_ax_mibs (ren <$> ax_mibs s) s)) as (mibs & k' & -> & ? & ?); cbn [ax_mibs set_ax_mibs ax_map];
        [done|done|by rewrite Hids|done| | |by exists mibs, k'].
      * intros x Hx. apply list_elem_of_fmap. exists x. split; [|apply Hsub; by right]. unfold ren.
        destruct (String.eqb_spec (mb_id x) (mb_id b)) as [Heq|]; [|done]. destruct Hbl. rewrite <-Heq. by apply list_elem_of_fmap_2.
      * intros y (x & -> & Hx)%list_elem_of_fmap Hyl. unfold ren at 2. unfold ren in Hyl at 1.
        destruct (String.eqb_spec (mb_id x) (mb_id b)) as [Heq|Hnb].
        -- intros m' c' [= <-] Hc'. left. destruct (Hn m c Hc) as [_ Hcc]. congruence.
        -- eapply mib_settled_kept; eauto. apply Hset; [done|]. rewrite fmap_cons, elem_of_cons. by intros [|].
Qed.

(** Settled assets and files are left alone. *)
Lemma settled_unchanged f (l : list MadeAsset) : List.filter (λ a, f a && changes n a) (settled_asset n <$> l) = [].
Proof.
  induction l as [|a l IH]; [done|]. rewrite fmap_cons. cbn [List.filter].
  unfold changes at 1. rewrite bool_decide_eq_true_2 by apply settle_idem. by rewrite andb_false_r.
Qed.
Lemma settled_mibs_stay l k s :
  (∀ x, normalizeManufacturer (ax_map s) x = n x) → n "" = None → NoDup (mb_id <$> ax_mibs s) →
  (∀ b, b ∈ l → b ∈ ax_mibs s) → (∀ x, x ∈ ax_mibs s → mib_settled (ax_mibs s) x) →
  count_loop l apply_to_mib k s = (s, Ok k).
Proof.
  intros Hm He Hnd. revert k. induction l as [|b l IH]; intros k Hsub Hset; [done|]. cbn [count_loop]. unfold hbind.
  destruct (apply_to_mib_cases b k s Hm He Hnd) as [[-> _]|(m & c & Hmb & Hc & Hne & Hx & _)]; [apply Hsub; by left| |].
  - apply IH; [intros; apply Hsub; by right|done].
  - destruct (Hset b) with (m := m) (c := c) as [?|?]; [apply Hsub; by left|done|done|congruence..].
Qed.
End backfill.

(** ** Every operation keeps the table and the cache in step *)

Lemma insert_table_ok alias canonical s :
  table_ok (ax_rows s) (ax_nextId s) → row_ok (mkAliasRow (pretty (ax_nextId s)) alias canonical) →
  List.find (same_alias alias) (ax_rows s) = None →
  let s' := (insert_alias alias canonical s).1 in table_ok (ax_rows s') (ax_nextId s') ∧ ax_map s' = ax_map s.
Proof.
  intros [Hr Ha Hi Hf] Hok Hnone. cbn. split; [|done]. constructor.
  - intros r [?| ->%list_elem_of_singleton]%elem_of_app; auto.
  - rewrite fmap_app. apply NoDup_app. split_and!; [done| |apply NoDup_singleton].
    intros x (r & -> & Hin)%list_elem_of_fmap Hx%list_elem_of_singleton. cbn in Hx.
    apply list_elem_of_In in Hin. pose proof (find_none _ _ Hnone r Hin) as Hne%String.eqb_neq. done.
  - rewrite fmap_app. apply NoDup_app. split_and!; [done| |apply NoDup_singleton].
    intros x (r & -> & Hin)%list_elem_of_fmap Hx%list_elem_of_singleton. by apply (Hf r (ax_nextId s)).
  - intros r n [Hin| ->%list_elem_of_singleton]%elem_of_app Hn; [apply Hf; [done|lia]|]. cbn. intros He%(inj pretty). lia.
Qed.

Lemma refresh_apply_ok {A} (k : A) s s' r :
  table_ok (ax_rows s) (ax_nextId s) → (refreshAliasCache ;! applyAliasesToExistingRows ;! hret k) s = (s', r) →
  alias_ok s' ∧ r = Ok k.
Proof.
  intros Ht. unfold hbind, refreshAliasCache, hmodify.
  set (s1 := set_ax_map _ s). destruct (apply_frame s1) as (s2 & n & -> & H1 & H2 & H3). intros [= <- <-]. split; [|done].
  split; [by rewrite H1, H3|]. right. by rewrite H1, H2.
Qed.

Lemma normal_row id alias canonical :
  Js.truthy (Js.toLowerCase (Js.trim alias)) = true → Js.truthy (Js.trim canonical) = true →
  row_ok (mkAliasRow id (Js.toLowerCase (Js.trim alias)) (Js.trim canonical)).
Proof. intros. constructor; cbn [al_alias al_canonical]; [by rewrite trim_lower, trim_idem, toLowerCase_idem|done|by rewrite trim_idem|done]. Qed.

Lemma createAlias_ok a c s s' r : alias_ok s → createAlias a c s = (s', r) → alias_ok s'.
Proof.
  intros Hok. unfold createAlias, hguard.
  destruct (Js.truthy (Js.toLowerCase (Js.trim a))) eqn:Ha; cbn [negb]; [|by intros [= <- _]].
  destruct (Js.truthy (Js.trim c)) eqn:Hc; cbn [negb]; [|by intros [= <- _]].
  destruct (String.eqb _ _); [by intros [= <- _]|]. unfold hbind at 1 2 3 4. cbn.
  destruct (List.find _ (ax_rows s)) eqn:Hf; [by intros [= <- _]|]. intros Hr. destruct Hok as [Ht _].
  destruct (insert_table_ok _ (Js.trim c) s Ht (normal_row _ _ _ Ha Hc) Hf) as [Ht' _].
  by apply (refresh_apply_ok _ _ _ _ Ht') in Hr as [? _].
Qed.

Lemma update_alias_row_run id alias canonical s s' r :
  table_ok (ax_rows s) (ax_nextId s) →
  (∀ a, alias = Some a → Js.toLowerCase (Js.trim a) = a ∧ Js.truthy a = true) →
  (∀ c, canonical = Some c → Js.trim c = c ∧ Js.truthy c = true) →
  update_alias_row id alias canonical s = (s', r) →
  (s' = s ∧ ∃ e, r = Throw e) ∨ (table_ok (ax_rows s') (ax_nextId s') ∧ ∃ x, r = Ok x).
Proof.
  intros [Hr Ha Hi Hf] Hal Hca. unfold update_alias_row, hbind, hget.
  destruct (List.find _ (ax_rows s)) as [x|] eqn:Hx; [|intros [= <- <-]; by left; eauto].
  apply find_some in Hx as [Hx%list_elem_of_In Hid%String.eqb_eq].
  set (x' := mkAliasRow _ _ _). destruct (existsb _ _) eqn:Hex; [intros [= <- <-]; by left; eauto|].
  intros [= <- <-]. right. split; [|by eauto]. cbn [ax_rows ax_nextId set_ax_rows].
  set (ren := λ y, if String.eqb (al_id y) id then x' else y).
  assert (∀ y, y ∈ ax_rows s → al_id y ≠ id → al_alias y ≠ al_alias x') as Hne.
  { intros y Hy Hyid He. apply not_true_iff_false in Hex. apply Hex, existsb_exists. exists y. split; [by apply list_elem_of_In|].
    rewrite andb_true_iff, negb_true_iff, String.eqb_neq. split; [done|]. by apply String.eqb_eq. }
  assert (al_id <$> (ren <$> ax_rows s) = al_id <$> ax_rows s) as Hids.
  { rewrite <-list_fmap_compose. apply list_fmap_ext. intros ? y _. unfold compose, ren.
    destruct (String.eqb_spec (al_id y) id) as [->|]; [by rewrite <-Hid|done]. }
  constructor.
  - intros y (z & -> & Hz)%list_elem_of_fmap. unfold ren. destruct (String.eqb _ _); [|auto]. destruct (Hr x Hx).
    constructor; cbn [al_alias al_canonical x']; (destruct alias as [a|]; cbn; [by destruct (Hal a)|done]) ||
      (destruct canonical as [c|]; cbn; [by destruct (Hca c)|done]).
  - clear Hf Hids Hex Hr Hx. revert Ha Hi Hne. induction (ax_rows s) as [|y l IH]; [constructor|]. rewrite !fmap_cons.
    intros [Hy Ha]%NoDup_cons [Hyi Hi]%NoDup_cons Hne. apply NoDup_cons. split; [|apply IH; auto; intros; apply Hne; [by right|done]].
    intros (z' & Hz & (z & -> & Hzl)%list_elem_of_fmap)%list_elem_of_fmap. unfold ren in Hz.
    destruct (String.eqb_spec (al_id y) id) as [He|Hny], (String.eqb_spec (al_id z) id) as [He'|Hnz].
    + apply Hyi. rewrite He, <-He'. by apply list_elem_of_fmap_2.
    + apply (Hne z); [by right|done|done].
    + apply (Hne y); [by left|done|done].
    + apply Hy. rewrite Hz. by apply list_elem_of_fmap_2.
  - by rewrite Hids.
  - intros y k (z & -> & Hz)%list_elem_of_fmap Hk. unfold ren. destruct (String.eqb _ _); [|by apply Hf]. by apply (Hf x).
Qed.

Lemma updateAlias_ok id a c s s' r : alias_ok s → updateAlias id a c s = (s', r) → alias_ok s'.
Proof.
  intros Hok. unfold updateAlias.
  assert (∀ s s' r, parse_alias a s = (s', r) → s' = s ∧
    ∀ v, r = Ok v → ∀ x, v = Some x → Js.toLowerCase (Js.trim x) = x ∧ Js.truthy x = true) as Ha.
  { intros ? ? ?. unfold parse_alias, hbind, hguard. destruct a as [a|]; [|intros [= <- <-]; split; [done|]; by intros ? [= <-]].
    destruct (Js.truthy _) eqn:Ht; intros [= <- <-]; split; try done. intros ? [= <-] x [= <-].
    by rewrite trim_lower, trim_idem, toLowerCase_idem. }
  assert (∀ s s' r, parse_canonical c s = (s', r) → s' = s ∧
    ∀ v, r = Ok v → ∀ x, v = Some x → Js.trim x = x ∧ Js.truthy x = true) as Hc.
  { intros ? ? ?. unfold parse_canonical, hbind, hguard. destruct c as [c|]; [|intros [= <- <-]; split; [done|]; by intros ? [= <-]].
    destruct (Js.truthy _) eqn:Ht; intros [= <- <-]; split; try done. intros ? [= <-] x [= <-]. by rewrite trim_idem. }
  unfold hbind at 1. destruct (parse_alias a s) as [s1 [a'|e]] eqn:Hpa; destruct (Ha _ _ _ Hpa) as [-> Ha']; [|by intros [= <- _]].
  unfold hbind at 1. destruct (parse_canonical c s) as [s1 [c'|e]] eqn:Hpc; destruct (Hc _ _ _ Hpc) as [-> Hc']; [|by intros [= <- _]].
  unfold hbind at 1, hguard. destruct (match a' with Some _ => _ | None => _ end); [by intros [= <- _]|].
  unfold hbind at 1, hcatch, hret at 1. destruct (update_alias_row id a' c' s) as [s1 r1] eqn:Hu. destruct Hok as [Ht Hm].
  destruct (update_alias_row_run _ _ _ _ _ _ Ht (Ha' _ eq_refl) (Hc' _ eq_refl) Hu) as [(-> & e & ->)|(Ht1 & x & ->)].
  - by intros [= <- _].
  - intros Hr. by apply (refresh_apply_ok _ _ _ _ Ht1) in Hr as [? _].
Qed.

Lemma deleteAlias_ok id s s' r : alias_ok s → deleteAlias id s = (s', r) → alias_ok s'.
Proof.
  intros Hok. unfold deleteAlias, hbind, hget, hguard. destruct (negb _); [by intros [= <- _]|]. intros [= <- _].
  destruct Hok as [[Hr Ha Hi Hf] _]. split; [|by right]. cbn [ax_rows ax_nextId set_ax_rows set_ax_map].
  assert (∀ (f : ManufacturerAliasRow → string), NoDup (f <$> ax_rows s) →
    NoDup (f <$> List.filter (λ r, negb (String.eqb (al_id r) id)) (ax_rows s))) as Hsub.
  { intros f. clear. induction (ax_rows s) as [|x l IH]; [done|]. rewrite fmap_cons. intros [Hx Hnd]%NoDup_cons. cbn [List.filter].
    destruct (negb _); [|by apply IH]. rewrite fmap_cons. apply NoDup_cons. split; [|by apply IH].
    intros (y & Hy & [Hin _]%list_elem_of_In%filter_In)%list_elem_of_fmap. apply Hx. rewrite Hy. by apply list_elem_of_fmap_2, list_elem_of_In. }
  constructor; [|by apply Hsub|by apply Hsub|]; intros x; [|intros k]; intros [Hx%list_elem_of_In _]%list_elem_of_In%filter_In; auto.
Qed.

Lemma seed_entry_ok e k s s' r :
  table_ok (ax_rows s) (ax_nextId s) → seed_entry e k s = (s', r) →
  table_ok (ax_rows s') (ax_nextId s') ∧ ax_map s' = ax_map s ∧ ∃ n, r = Ok n.
Proof.
  intros Ht. unfold seed_entry.
  destruct (Js.truthy (Js.toLowerCase _)) eqn:Ha; cbn [negb orb]; [|intros [= <- <-]; eauto].
  destruct (Js.truthy (Js.trim e.2)) eqn:Hc; cbn [negb]; [|intros [= <- <-]; eauto].
  unfold hbind, hgets. destruct (List.find _ _) eqn:Hf; [intros [= <- <-]; eauto|]. intros Hr.
  destruct (insert_table_ok _ (Js.trim e.2) s Ht (normal_row _ _ _ Ha Hc) Hf) as [Ht' Hm]. cbn in Hr. injection Hr as <- <-. eauto.
Qed.

Lemma job_ok s s' r : alias_ok s → normalizeManufacturersJob s = (s', r) → alias_ok s'.
Proof.
  intros [Ht Hm]. unfold normalizeManufacturersJob, seedDefaultAliases.
  assert (∀ l k s, table_ok (ax_rows s) (ax_nextId s) →
    ∃ s1 n, count_loop l seed_entry k s = (s1, Ok n) ∧ table_ok (ax_rows s1) (ax_nextId s1)) as Hloop.
  { clear. induction l as [|e l IH]; intros k s Ht; [by exists s, k|]. cbn [count_loop]. unfold hbind.
    destruct (seed_entry e k s) as [s1 r1] eqn:He. destruct (seed_entry_ok _ _ _ _ _ Ht He) as (Ht1 & _ & n & ->). by apply IH. }
  unfold hbind. destruct (Hloop DEFAULT_ALIASES 0%nat s Ht) as (s1 & n & -> & Ht1). unfold refreshAliasCache, hmodify.
  set (s2 := set_ax_map _ s1). destruct (apply_frame s2) as (s3 & m & -> & H1 & H2 & H3). intros [= <- _].
  split; [by rewrite H1, H3|]. right. by rewrite H1, H2.
Qed.

Inductive alias_step : AliasState → AliasState → Prop :=
  | as_create a c s s' r : createAlias a c s = (s', r) → alias_step s s'
  | as_update id a c s s' r : updateAlias id a c s = (s', r) → alias_step s s'
  | as_delete id s s' r : deleteAlias id s = (s', r) → alias_step s s'
  | as_job s s' r : normalizeManufacturersJob s = (s', r) → alias_step s s'.

Lemma alias_reachable s0 s : ax_rows s0 = [] → ax_map s0 = None → rtc alias_step s0 s → alias_ok s.
Proof.
  intros Hr Hm. revert s. apply rtc_ind_r.
  - split; [|by left]. rewrite Hr.
    constructor; [by intros ? ?%elem_of_nil|apply NoDup_nil_2|apply NoDup_nil_2|by intros ? ? ?%elem_of_nil].
  - intros s s' _ Hst Hok. destruct Hst; eauto using createAlias_ok, updateAlias_ok, deleteAlias_ok, job_ok.
Qed.

(** C31: the cached normaliser implements the alias table.  After any sequence of
    alias edits and start-up jobs, once the cache is loaded, a manufacturer is
    normalised to what the table says of it now: the canonical name of the row
    whose alias it is, whatever its case and surrounding blanks, and otherwise
    itself, trimmed.  The result is a normal form, normalised to itself, exactly
    when no canonical name in the table is the alias of another name; nothing in
    the handlers keeps such chains out. *)
Theorem normalizer_implements_table s0 s input :
  ax_rows s0 = [] → ax_map s0 = None → rtc alias_step s0 s → ax_map s ≠ None →
  normalizeManufacturer (ax_map s) input = table_normal (ax_rows s) input ∧
  (normal_form (normalizeManufacturer (ax_map s)) ↔ chain_free (ax_rows s)).
Proof.
  intros Hr Hm Hs Hl. pose proof (alias_reachable s0 s Hr Hm Hs) as Hok. split; [by apply normalize_table|].
  pose proof Hok as [[Hrows Hal _ _] _]. rewrite <-table_normal_forms by done. unfold normal_form.
  split; intros H x y; [rewrite <-!(normalize_table s) by done|rewrite !(normalize_table s) by done]; apply H.
Qed.

(** What a backfill leaves behind when no alias leads to another. *)
Lemma backfill_run s :
  normal_form (normalizeManufacturer (ax_map s)) → NoDup (mb_id <$> ax_mibs s) →
  let n := normalizeManufacturer (ax_map s) in
  ∃ mibs k, applyAliasesToExistingRows s =
      (set_ax_mibs mibs (set_ax_assets (settled_asset n <$> ax_assets s) s),
       Ok (length (List.filter (changes n) (ax_assets s)), k)) ∧
    NoDup (mb_id <$> mibs) ∧ ∀ b, b ∈ mibs → mib_settled n mibs b.
Proof.
  intros Hn Hnd n. unfold applyAliasesToExistingRows, hbind at 1 2, hgets at 1.
  rewrite (apply_assets_run n Hn) by done.
  set (raws := List.filter Js.truthy (asset_raws s)).
  assert (∀ a, a ∈ ax_assets s → existsb (λ m, bool_decide (ma_manufacturer a = Some m)) raws = false → settled_asset n a = a) as Hrest.
  { intros a Ha Hex. destruct a as [id [m|]]; [|done]. destruct (Js.truthy m) eqn:Ht; [|destruct m; [done|by cbn in Ht]].
    exfalso. apply not_true_iff_false in Hex. apply Hex, existsb_exists. exists m. cbn. rewrite bool_decide_eq_true_2 by done.
    split; [|done]. apply filter_In. split; [|done]. apply list_elem_of_In, elem_of_remove_dups, list_elem_of_omap. by exists (mkMadeAsset id (Some m)). }
  assert (settle_in n raws <$> ax_assets s = settled_asset n <$> ax_assets s) as ->.
  { apply list_fmap_ext. intros ? a Ha%list_elem_of_lookup_2. unfold settle_in. destruct (existsb _ raws) eqn:Hex; [done|].
    symmetry. by apply Hrest. }
  assert (List.filter (λ a, existsb (λ m, bool_decide (ma_manufacturer a = Some m)) raws && changes n a) (ax_assets s) =
    List.filter (changes n) (ax_assets s)) as ->.
  { apply filter_ext_in. intros a Ha%list_elem_of_In. destruct (existsb _ raws) eqn:Hex; [done|]. cbn [andb].
    unfold changes. by rewrite bool_decide_eq_true_2 by by apply Hrest. }
  unfold hbind, hgets. set (s1 := set_ax_assets _ s).
  destruct (apply_mibs_run n Hn (List.filter (λ b, match mb_manufacturer b with Some _ => true | None => false end) (ax_mibs s1)) 0 s1)
    as (mibs & k & -> & ? & ?); [done|done|done| | | |by exists mibs, k].
  - revert Hnd. change (ax_mibs s1) with (ax_mibs s). clear. induction (ax_mibs s) as [|x l IH]; [done|].
    rewrite fmap_cons. intros [Hx Hnd]%NoDup_cons. cbn [List.filter]. destruct (mb_manufacturer x); [|by apply IH].
    rewrite fmap_cons. apply NoDup_cons. split; [|by apply IH].
    intros (y & Hy & [Hin _]%list_elem_of_In%filter_In)%list_elem_of_fmap. apply Hx. rewrite Hy. by apply list_elem_of_fmap_2, list_elem_of_In.
  - by intros b [Hb%list_elem_of_In _]%list_elem_of_In%filter_In.
  - intros x Hx Hni m c Hm. destruct Hni. apply list_elem_of_fmap_2, list_elem_of_In, filter_In.
    split; [by apply list_elem_of_In|]. by rewrite Hm.
Qed.

(** The backfill settles in one run.  When no alias leads to another, a run
    gives every asset the normal form of its manufacturer and counts exactly the
    assets it changed, leaves a MIB file out of normal form only where the
    renamed row would collide with another, and a second run changes nothing and
    counts nothing. *)
Theorem applyAliases_settles s0 s :
  ax_rows s0 = [] → ax_map s0 = None → rtc alias_step s0 s → ax_map s ≠ None →
  chain_free (ax_rows s) → NoDup (mb_id <$> ax_mibs s) →
  let n := normalizeManufacturer (ax_map s) in
  ∃ s' k, applyAliasesToExistingRows s = (s', Ok (length (List.filter (changes n) (ax_assets s)), k)) ∧
    ax_assets s' = settled_asset n <$> ax_assets s ∧ (∀ b, b ∈ ax_mibs s' → mib_settled n (ax_mibs s') b) ∧
    applyAliasesToExistingRows s' = (s', Ok (0, 0))%nat.
Proof.
  intros Hr Hm Hs Hl Hcf Hnd n. pose proof (alias_reachable s0 s Hr Hm Hs) as Hok.
  assert (normal_form n) as Hn.
  { pose proof Hok as [[Hrows Hal _ _] _]. apply (table_normal_forms _ Hrows Hal) in Hcf.
    intros x y. unfold n. rewrite !(normalize_table s) by done. apply Hcf. }
  destruct (backfill_run s Hn Hnd) as (mibs & k & Hrun & Hnd' & Hset). eexists _, k. split; [exact Hrun|].
  split_and!; [done|done|]. set (s' := set_ax_mibs _ _).
  unfold applyAliasesToExistingRows, hbind at 1 2, hgets at 1. rewrite (apply_assets_run n Hn) by done.
  assert (∀ l, settle_in n l <$> ax_assets s' = ax_assets s') as Hid.
  { intros l. cbn [ax_assets s' set_ax_mibs set_ax_assets]. rewrite <-list_fmap_compose. apply list_fmap_ext. intros ? a _.
    unfold compose, settle_in. destruct (existsb _ l); [by apply settle_idem|done]. }
  rewrite Hid. replace (set_ax_assets (ax_assets s') s') with s' by done. unfold hbind, hgets.
  rewrite (settled_mibs_stay n Hn) by (done || by intros b [Hb%list_elem_of_In _]%list_elem_of_In%filter_In).
  unfold hret. do 4 f_equal. cbn [ax_assets s' set_ax_mibs set_ax_assets]. by rewrite (settled_unchanged n Hn).
Qed.

(** ** Concrete runs *)

Definition made_ex : AliasState :=
  mkAliasState [] None
    [mkMadeAsset "a1" (Some "dell inc."%string); mkMadeAsset "a2" (Some "Dell"%string); mkMadeAsset "a3" None]
    [mkMibFile "m1" (Some "Cisco Systems"%string) None "IF-MIB"] 0.
Definition made_seeded : AliasState := (normalizeManufacturersJob made_ex).1.

Lemma made_seeded_reached : rtc alias_step made_ex made_seeded.
Proof. eapply rtc_l; [|apply rtc_refl]. eapply as_job. apply surjective_pairing. Qed.

(** The table is free of chains, checked row by row. *)
Definition chain_freeb (rows : list ManufacturerAliasRow) : bool :=
  forallb (λ r, forallb (λ r', negb (String.eqb (al_alias r') (Js.toLowerCase (al_canonical r))) ||
                               String.eqb (al_canonical r') (al_canonical r)) rows) rows.
Lemma chain_freeb_true rows : chain_freeb rows = true → chain_free rows.
Proof.
  unfold chain_freeb. intros H r r' Hr Hr' Ha. rewrite forallb_forall in H. apply list_elem_of_In in Hr, Hr'.
  specialize (H r Hr). cbv beta in H. rewrite forallb_forall in H. specialize (H r' Hr'). cbv beta in H.
  rewrite Ha, String.eqb_refl in H. by apply String.eqb_eq.
Qed.

Lemma normalizer_implements_table_witness :
  normalizeManufacturer (ax_map made_seeded) " DELL inc. " = Some "Dell"%string ∧
  normal_form (normalizeManufacturer (ax_map made_seeded)).
Proof.
  destruct (normalizer_implements_table made_ex made_seeded " DELL inc. ") as [Hn Hc].
  - reflexivity.
  - reflexivity.
  - apply made_seeded_reached.
  - vm_compute. discriminate.
  - split; [rewrite Hn; vm_compute; reflexivity|]. apply Hc, chain_freeb_true. vm_compute. reflexivity.
Defined.

Lemma applyAliases_settles_witness :
  ∃ s' k, applyAliasesToExistingRows made_seeded = (s', Ok (0%nat, k)) ∧ applyAliasesToExistingRows s' = (s', Ok (0, 0))%nat.
Proof.
  destruct (applyAliases_settles made_ex made_seeded) as (s' & k & Hr & _ & _ & H2).
  - reflexivity.
  - reflexivity.
  - apply made_seeded_reached.
  - vm_compute. discriminate.
  - apply chain_freeb_true. vm_compute. reflexivity.
  - vm_compute. apply NoDup_singleton.
  - exists s', k. split; [rewrite Hr; reflexivity|exact H2].
Defined.

(** A chain the handlers accept: "hewlett packard" is "HP", and an operator
    makes "hp" an alias of "HPE".  The normaliser then gives a name it would
    itself normalise further. *)
Example alias_chain_accepted :
  let s := (createAlias "HP" "HPE" made_seeded).1 in
  is_ok (createAlias "HP" "HPE" made_seeded).2 = true ∧
  normalizeManufacturer (ax_map s) "Hewlett Packard" = Some "HP"%string ∧
  normalizeManufacturer (ax_map s) "HP" = Some "HPE"%string.
Proof. vm_compute. done. Qed.

(** An update to an alias that is taken is answered with "not found". *)
Example duplicate_alias_not_found :
  let s := (createAlias "acme inc" "Acme" made_ex).1 in
  let s := (createAlias "acme corp" "Acme" s).1 in
  (updateAlias "1" (Some "acme inc"%string) None s).2 = Throw (AppError 404 "Alias not found").
Proof. vm_compute. done. Qed.
