(* ===== verification/Projection.v ===== *)
(** * Asset projection

    [src/src/utils/assetProjection.ts] with [isValidGeoCoord] of [utils/geo.ts]:
    the fields of an asset that follow from what its discovery sources observed;
    the drift check of [src/src/services/projectionDriftService.ts]; and the
    write-back loop POST /agents/system-info of [src/src/api/routes/agents.ts]
    with [reconcileMacAddresses] of [src/src/utils/macAddresses.ts].

    A projected object is kept as the source builds it, a value of either type
    behind a cast; that every field has its declared type is a theorem.  Numbers
    of an observation are finite doubles, hence rationals. *)

From Stdlib Require Import Qcanon.
From S2P Require Import Prelude JsColl Aliases.

(** ** Observations *)

(** A value of an [observed] blob; [OOther] is any that is neither. *)
Inductive Obs := OStr (s : string) | ONum (x : Qc) | OOther.
Definition Observed : Type := option (list (string * Obs)).

Fixpoint obs_get (key : string) (o : list (string * Obs)) : option Obs :=
  match o with
  | [] => None
  | (k, v) :: o' => if String.eqb k key then Some v else obs_get key o'
  end.

Definition obsString (o : Observed) (key : string) : option string :=
  match o ≫= obs_get key with
  | Some (OStr v) => let t := Js.trim v in if Js.truthy t then Some t else None
  | _ => None
  end.
Definition obsNumber (o : Observed) (key : string) : option Qc :=
  match o ≫= obs_get key with Some (ONum x) => Some x | _ => None end.

Definition isValidGeoCoord (lat lng : option Qc) : bool :=
  match lat, lng with
  | Some lat, Some lng =>
      if bool_decide (lat < Qc_of_Z (-90))%Qc || bool_decide (Qc_of_Z 90 < lat)%Qc then false
      else if bool_decide (lng < Qc_of_Z (-180))%Qc || bool_decide (Qc_of_Z 180 < lng)%Qc then false
      else negb (bool_decide (lat = Qc_of_Z 0) && bool_decide (lng = Qc_of_Z 0))
  | _, _ => false
  end.

(** ** Rules *)

Inductive Picked := PStr (s : string) | PNum (x : Qc).
#[export] Instance Picked_eq_dec : EqDecision Picked.
Proof. solve_decision. Defined.

Record FieldRule := mkRule {
  fr_sourceKind : string;
  fr_pick : Observed → option Picked;
}.

Inductive PField :=
  | hostname | serialNumber | manufacturer | model | os | osVersion | learnedLocation | ipAddress
  | latitude | longitude | snmpLocation.
#[export] Instance PField_eq_dec : EqDecision PField.
Proof. solve_decision. Defined.

Definition text (kind key : string) : FieldRule := mkRule kind (λ o, PStr <$> obsString o key).

Definition HOSTNAME_RULES : list FieldRule :=
  [text "polaris-agent" "hostname";
   mkRule "ad" (λ o, match obsString o "dnsHostName" with
                     | Some v => if Js.includes "." v then Some (PStr v) else None
                     | None => None
                     end);
   text "intune" "deviceName";
   text "entra" "displayName";
   mkRule "ad" (λ o, match obsString o "dnsHostName" with
                     | Some v => Some (PStr v)
                     | None => PStr <$> obsString o "cn"
                     end);
   text "fortigate-firewall" "hostname";
   text "fortiswitch" "switchId";
   text "fortiap" "name";
   text "fortigate-endpoint" "hostname"].

Definition SERIAL_RULES : list FieldRule :=
  [text "polaris-agent" "serialNumber"; text "intune" "serialNumber"; text "fortigate-firewall" "serial";
   text "fortiswitch" "serial"; text "fortiap" "serial"].

(** [raw ? normalizeManufacturer(raw) : null] *)
Definition maker (aliases : AliasMap) (kind key : string) : FieldRule :=
  mkRule kind (λ o, match obsString o key with
                    | Some raw => PStr <$> normalizeManufacturer aliases raw
                    | None => None
                    end).
Definition fortinet (kind : string) : FieldRule := mkRule kind (λ _, Some (PStr "Fortinet")).
Definition MANUFACTURER_RULES (aliases : AliasMap) : list FieldRule :=
  [maker aliases "polaris-agent" "manufacturer"; maker aliases "intune" "manufacturer";
   fortinet "fortigate-firewall"; fortinet "fortiswitch"; fortinet "fortiap";
   maker aliases "fortigate-endpoint" "hardwareVendor"].

Definition MODEL_RULES : list FieldRule :=
  [text "polaris-agent" "model"; text "intune" "model"; text "fortigate-firewall" "model"; text "fortiap" "model";
   text "fortigate-endpoint" "model"].

Definition OS_RULES : list FieldRule :=
  [text "polaris-agent" "os"; text "ad" "operatingSystem"; text "intune" "operatingSystem";
   text "entra" "operatingSystem"; text "fortigate-endpoint" "os"].

Definition OS_VERSION_RULES : list FieldRule :=
  [text "polaris-agent" "osVersion"; text "intune" "osVersion"; text "entra" "operatingSystemVersion";
   text "ad" "operatingSystemVersion"; text "fortigate-firewall" "osVersion"; text "fortiswitch" "osVersion";
   text "fortiap" "osVersion"; text "fortigate-endpoint" "osVersion"].

Definition LEARNED_LOCATION_RULES : list FieldRule :=
  [text "ad" "ouPath"; text "fortigate-endpoint" "learnedLocation"; text "fortiswitch" "controllerFortigate";
   text "fortiap" "controllerFortigate"].

Definition IP_ADDRESS_RULES : list FieldRule :=
  [text "fortigate-endpoint" "ipAddress"; text "fortigate-firewall" "mgmtIp"; text "fortiswitch" "mgmtIp";
   text "fortiap" "mgmtIp"].

(** A tier of coordinates, of which a rule picks the one or the other. *)
Definition coord (side : option Qc → option Qc → option Qc) (latKey lngKey : string) : FieldRule :=
  mkRule "fortigate-firewall" (λ o,
    let lat := obsNumber o latKey in
    let lng := obsNumber o lngKey in
    if isValidGeoCoord lat lng then PNum <$> side lat lng else None).
Definition coord_rules (side : option Qc → option Qc → option Qc) : list FieldRule :=
  [coord side "snmpGeocodedLatitude" "snmpGeocodedLongitude"; coord side "metavarLatitude" "metavarLongitude";
   coord side "latitude" "longitude"].
Definition LATITUDE_RULES : list FieldRule := coord_rules (λ lat _, lat).
Definition LONGITUDE_RULES : list FieldRule := coord_rules (λ _ lng, lng).

Definition SNMP_LOCATION_RULES : list FieldRule := [text "fortigate-firewall" "snmpLocation"].

Definition rules_of (aliases : AliasMap) (f : PField) : list FieldRule :=
  match f with
  | hostname => HOSTNAME_RULES
  | serialNumber => SERIAL_RULES
  | manufacturer => MANUFACTURER_RULES aliases
  | model => MODEL_RULES
  | os => OS_RULES
  | osVersion => OS_VERSION_RULES
  | learnedLocation => LEARNED_LOCATION_RULES
  | ipAddress => IP_ADDRESS_RULES
  | latitude => LATITUDE_RULES
  | longitude => LONGITUDE_RULES
  | snmpLocation => SNMP_LOCATION_RULES
  end.

(** ** The projection *)

Record AssetSourceForProjection := mkProjSource {
  sp_sourceKind : string;
  sp_inferred : bool;
  sp_observed : Observed;
}.

Definition candidate (kind : string) (sources : list AssetSourceForProjection) : option AssetSourceForProjection :=
  List.find (λ s, String.eqb (sp_sourceKind s) kind && negb (sp_inferred s)) sources.

Definition is_empty (v : Picked) : bool := match v with PStr s => negb (Js.truthy s) | PNum _ => false end.

Fixpoint projectField (sources : list AssetSourceForProjection) (rules : list FieldRule) : option (Picked * string) :=
  match rules with
  | [] => None
  | rule :: rules' =>
      match candidate (fr_sourceKind rule) sources with
      | None => projectField sources rules'
      | Some c =>
          match fr_pick rule (sp_observed c) with
          | Some v => if is_empty v then projectField sources rules' else Some (v, fr_sourceKind rule)
          | None => projectField sources rules'
          end
      end
  end.

Record ProjectionResult := mkProjection {
  pn_projected : PField → option Picked;
  pn_provenance : PField → option string;
}.

Definition projectAssetFromSources (aliases : AliasMap) (sources : list AssetSourceForProjection) : ProjectionResult :=
  mkProjection (λ f, fst <$> projectField sources (rules_of aliases f)) (λ f, snd <$> projectField sources (rules_of aliases f)).

(** ** Drift *)

Definition PROJECTED_FIELDS : list PField :=
  [hostname; serialNumber; manufacturer; model; os; osVersion; learnedLocation; ipAddress; latitude; longitude].

Record DriftEntry := mkDrift {
  df_field : PField;
  df_projected : Picked;
  df_current : option Picked;
  df_winningSource : option string;
}.

Definition valuesEqual (a : Picked) (b : option Picked) : bool :=
  match a, b with
  | PStr a, Some (PStr b) => String.eqb a b || String.eqb (Js.trim a) (Js.trim b)
  | PNum a, Some (PNum b) => bool_decide (a = b)
  | _, _ => false
  end.

(** [for (const field of PROJECTED_FIELDS) …] *)
Definition drifts (p : ProjectionResult) (current : PField → option Picked) : list DriftEntry :=
  omap (λ f,
    match pn_projected p f with
    | None => None
    | Some projVal =>
        if valuesEqual projVal (current f) then None
        else Some (mkDrift f projVal (current f) (pn_provenance p f))
    end) PROJECTED_FIELDS.

(** ** State *)

(** The columns of an asset the projection owns, and its primary MAC. *)
Record ProjAsset := mkProjAsset {
  pa_id : string;
  pa_field : PField → option Picked;
  pa_macAddress : option string;
}.

Record SourceRow := mkSourceRow {
  sr_assetId : string;
  sr_sourceKind : string;
  sr_externalId : string;
  sr_inferred : bool;
  sr_observed : Observed;
  sr_lastSeen : Z;
  sr_firstSeen : Z;
}.

Record MacRow := mkMacRow {
  mr_assetId : string;
  mr_mac : string;
  mr_source : string;
  mr_device : option string;
  mr_subnetCidr : option string;
  mr_subnetName : option string;
  mr_lastSeen : Z;
  mr_firstSeen : Z;
}.

Record ProjState := mkProjState {
  px_aliases : AliasMap;
  px_assets : list ProjAsset;
  px_sources : list SourceRow;
  px_macs : list MacRow;
  (** [ManagedAgent.agentVersion] by id *)
  px_agents : JsMap string string;
  px_now : Z;
  (** The asset ids of every [asset.update], of every reconcile of DNS-resolved
      reservations it set off, and the drift log. *)
  px_updates : list string;
  px_reconciles : list string;
  px_drifts : list (string * list DriftEntry);
}.

Notation Pj := (M ProjState).

Definition set_px_assets (l : list ProjAsset) (s : ProjState) : ProjState :=
  mkProjState (px_aliases s) l (px_sources s) (px_macs s) (px_agents s) (px_now s) (px_updates s) (px_reconciles s) (px_drifts s).
Definition set_px_sources (l : list SourceRow) (s : ProjState) : ProjState :=
  mkProjState (px_aliases s) (px_assets s) l (px_macs s) (px_agents s) (px_now s) (px_updates s) (px_reconciles s) (px_drifts s).
Definition set_px_macs (l : list MacRow) (s : ProjState) : ProjState :=
  mkProjState (px_aliases s) (px_assets s) (px_sources s) l (px_agents s) (px_now s) (px_updates s) (px_reconciles s) (px_drifts s).
Definition set_px_agents (m : JsMap string string) (s : ProjState) : ProjState :=
  mkProjState (px_aliases s) (px_assets s) (px_sources s) (px_macs s) m (px_now s) (px_updates s) (px_reconciles s) (px_drifts s).
Definition set_px_now (t : Z) (s : ProjState) : ProjState :=
  mkProjState (px_aliases s) (px_assets s) (px_sources s) (px_macs s) (px_agents s) t (px_updates s) (px_reconciles s) (px_drifts s).
Definition log_update (id : string) (reconcile : bool) (s : ProjState) : ProjState :=
  mkProjState (px_aliases s) (px_assets s) (px_sources s) (px_macs s) (px_agents s) (px_now s) (px_updates s ++ [id])
    (if reconcile then px_reconciles s ++ [id] else px_reconciles s) (px_drifts s).
Definition log_drift (id : string) (l : list DriftEntry) (s : ProjState) : ProjState :=
  mkProjState (px_aliases s) (px_assets s) (px_sources s) (px_macs s) (px_agents s) (px_now s) (px_updates s)
    (px_reconciles s) (px_drifts s ++ [(id, l)]).

Definition asset_by_id (id : string) (s : ProjState) : option ProjAsset :=
  List.find (λ a, String.eqb (pa_id a) id) (px_assets s).

(** [findMany({ where: { assetId } })], as the input of the projection. *)
Definition sources_of (id : string) (s : ProjState) : list AssetSourceForProjection :=
  (λ r, mkProjSource (sr_sourceKind r) (sr_inferred r) (sr_observed r)) <$>
    List.filter (λ r, String.eqb (sr_assetId r) id) (px_sources s).
Definition projection_of (id : string) (s : ProjState) : ProjectionResult :=
  projectAssetFromSources (px_aliases s) (sources_of id s).

Definition detectAndLogDrift (id : string) : Pj unit :=
  let! s := hget in
  match asset_by_id id s with
  | None => hret tt
  | Some a =>
      match drifts (projection_of id s) (pa_field a) with
      | [] => hret tt
      | l => hmodify (log_drift id l)
      end
  end.

(** ** [macAddresses.ts] *)

Record MacJsonEntry := mkMacEntry {
  me_mac : string;
  me_lastSeen : Z;
  me_source : string;
  me_device : option string;
  me_subnetCidr : option string;
  me_subnetName : option string;
}.

(** [INSERT … ON CONFLICT ("assetId", "mac") DO UPDATE] of one entry; the first
    sighting of a known MAC stays. *)
Definition same_mac (assetId mac : string) (r : MacRow) : bool := String.eqb (mr_assetId r) assetId && String.eqb (mr_mac r) mac.
Definition upsert_mac (assetId : string) (rows : list MacRow) (m : MacJsonEntry) : list MacRow :=
  let source := if Js.truthy (me_source m) then me_source m else "unknown"%string in
  if existsb (same_mac assetId (me_mac m)) rows then
    (λ r, if same_mac assetId (me_mac m) r
          then mkMacRow assetId (me_mac m) source (me_device m) (me_subnetCidr m) (me_subnetName m) (me_lastSeen m) (mr_firstSeen r)
          else r) <$> rows
  else rows ++ [mkMacRow assetId (me_mac m) source (me_device m) (me_subnetCidr m) (me_subnetName m) (me_lastSeen m) (me_lastSeen m)].

(** The statement fails when it would touch one row twice. *)
Definition reconcileMacAddresses (assetId : string) (macs : list MacJsonEntry) : Pj unit :=
  let newMacs := sort_by (λ a b, String.leb (me_mac a) (me_mac b)) (List.filter (λ m, Js.truthy (me_mac m)) macs) in
  match newMacs with
  | [] => hmodify (λ s, set_px_macs (List.filter (λ r, negb (String.eqb (mr_assetId r) assetId)) (px_macs s)) s)
  | _ =>
      hmodify (λ s, set_px_macs (List.filter (λ r, negb (String.eqb (mr_assetId r) assetId) ||
                                                   bool_decide (mr_mac r ∈ me_mac <$> newMacs)) (px_macs s)) s) ;!
      throw_if (negb (bool_decide (NoDup (me_mac <$> newMacs)))) (PrismaError "21000") ;!
      hmodify (λ s, set_px_macs (fold_left (upsert_mac assetId) newMacs (px_macs s)) s)
  end.

(** ** POST /agents/system-info *)

(** The keys of [SystemInfoSchema] and their longest values. *)
Definition SYSTEM_INFO_KEYS : list (string * Z) :=
  [("hostname", 255); ("os", 255); ("osVersion", 64); ("kernelVersion", 255); ("kernelArch", 32); ("manufacturer", 255);
   ("model", 255); ("serialNumber", 255); ("biosVersion", 255); ("primaryMac", 64); ("primaryIp", 64); ("agentVersion", 64)]%string.
Definition SystemInfo : Type := string → option string.
Definition SystemInfoSchema (body : SystemInfo) : bool :=
  forallb (λ kv, match body kv.1 with Some v => Z.of_nat (String.length v) <=? kv.2 | None => true end) SYSTEM_INFO_KEYS.

Definition observed_of (body : SystemInfo) : Observed :=
  Some (omap (λ kv, match body kv.1 with
                    | Some v => if Js.truthy v then Some (kv.1, OStr v) else None
                    | None => None
                    end) SYSTEM_INFO_KEYS).

(** [assetSource.upsert] on (polaris-agent, managedAgentId) *)
Definition same_source (externalId : string) (r : SourceRow) : bool :=
  String.eqb (sr_sourceKind r) "polaris-agent" && String.eqb (sr_externalId r) externalId.
Definition upsert_source (assetId managedAgentId : string) (o : Observed) (now : Z) (rows : list SourceRow) : list SourceRow :=
  if existsb (same_source managedAgentId) rows then
    (λ r, if same_source managedAgentId r
          then mkSourceRow (sr_assetId r) (sr_sourceKind r) (sr_externalId r) false o now (sr_firstSeen r) else r) <$> rows
  else rows ++ [mkSourceRow assetId "polaris-agent" managedAgentId false o now now].

Definition formatMacColonUpper (mac : option string) : string :=
  match mac with
  | Some mac =>
      let hex := Js.toUpperCase (Js.sfilter (λ c, let n := Z.of_nat (Ascii.nat_of_ascii (Js.lower c)) in
                                              Js.is_digit c || ((97 <=? n) && (n <=? 102))) mac) in
      if negb (String.length hex =? 12)%nat then ""
      else Js.join ":" [Js.take 2 hex; Js.take 2 (Js.drop 2 hex); Js.take 2 (Js.drop 4 hex); Js.take 2 (Js.drop 6 hex);
                        Js.take 2 (Js.drop 8 hex); Js.take 2 (Js.drop 10 hex)]
  | None => ""
  end.

Definition entry_of (r : MacRow) : MacJsonEntry :=
  mkMacEntry (mr_mac r) (mr_lastSeen r) (mr_source r) (mr_device r) (mr_subnetCidr r) (mr_subnetName r).

(** [merged]: the agent's MAC is refreshed or added, and the latest comes first. *)
Fixpoint refresh_entry (mac : string) (now : Z) (l : list MacJsonEntry) : option (list MacJsonEntry) :=
  match l with
  | [] => None
  | m :: l' =>
      if String.eqb (me_mac m) mac
      then Some (mkMacEntry (me_mac m) now "polaris-agent" (me_device m) (me_subnetCidr m) (me_subnetName m) :: l')
      else cons m <$> refresh_entry mac now l'
  end.
Definition merge_macs (assetId agentMac : string) (now : Z) (rows : list MacRow) : list MacJsonEntry :=
  let merged := entry_of <$> List.filter (λ r, String.eqb (mr_assetId r) assetId) rows in
  let merged := match refresh_entry agentMac now merged with
                | Some l => l
                | None => merged ++ [mkMacEntry agentMac now "polaris-agent" None None None]
                end in
  sort_by (λ a b, me_lastSeen b <=? me_lastSeen a) merged.

Definition FIELDS : list PField := [hostname; serialNumber; manufacturer; model; os; osVersion].

(** The fields whose projection differs from the column. *)
Definition field_diff (p : ProjectionResult) (current : PField → option Picked) : list (PField * Picked) :=
  omap (λ f, match pn_projected p f with
             | Some next => if bool_decide (current f = Some next) then None else Some (f, next)
             | None => None
             end) FIELDS.

(** What the extension of the client makes of one written field. *)
Definition written (aliases : AliasMap) (f : PField) (v : Picked) : option Picked :=
  match f, v with
  | manufacturer, PStr m => PStr <$> normalizeManufacturer aliases m
  | _, _ => Some v
  end.
Fixpoint diff_get (f : PField) (l : list (PField * Picked)) : option Picked :=
  match l with
  | [] => None
  | (g, v) :: l' => if decide (g = f) then Some v else diff_get f l'
  end.
Definition apply_diff (aliases : AliasMap) (diff : list (PField * Picked)) (mac : option string) (a : ProjAsset) : ProjAsset :=
  mkProjAsset (pa_id a)
    (λ f, match diff_get f diff with Some v => written aliases f v | None => pa_field a f end)
    (match mac with Some m => Some m | None => pa_macAddress a end).

(** [prisma.asset.update] through the extension: a write of the hostname or the
    MAC sets off the reconcile of DNS-resolved reservations. *)
Definition update_asset (id : string) (diff : list (PField * Picked)) (mac : option string) : Pj unit :=
  hmodify (λ s, set_px_assets ((λ a, if String.eqb (pa_id a) id then apply_diff (px_aliases s) diff mac a else a) <$> px_assets s) s) ;!
  hmodify (log_update id (match diff_get hostname diff, mac with None, None => false | _, _ => true end)).

(** The MAC half: the side table is reconciled, and the primary MAC is returned
    when it differs from the column. *)
Definition merge_agent_mac (assetId : string) (current : ProjAsset) (agentMac : string) : Pj (option string) :=
  if negb (Js.truthy agentMac) then hret None else
  let! s := hget in
  let merged := merge_macs assetId agentMac (px_now s) (px_macs s) in
  reconcileMacAddresses assetId merged ;!
  hret (match merged with
        | m :: _ => if Js.truthy (me_mac m) && negb (bool_decide (pa_macAddress current = Some (me_mac m))) then Some (me_mac m) else None
        | [] => None
        end).

(** The re-projection: the columns that disagree are written. *)
Definition write_back (assetId : string) (body : SystemInfo) : Pj unit :=
  let! s := hget in
  let projected := projection_of assetId s in
  match asset_by_id assetId s with
  | None => hret tt
  | Some current =>
      let diff := field_diff projected (pa_field current) in
      let! mac := merge_agent_mac assetId current (formatMacColonUpper (body "primaryMac"%string)) in
      match diff, mac with
      | [], None => hret tt
      | _, _ => update_asset assetId diff mac
      end
  end.

Definition bump_version (managedAgentId : string) (body : SystemInfo) : Pj unit :=
  match body "agentVersion"%string with
  | Some v =>
      let! s := hget in
      if Js.truthy v && mhas managedAgentId (px_agents s)
      then hmodify (λ s, set_px_agents (mset managedAgentId v (px_agents s)) s) else hret tt
  | None => hret tt
  end.

Definition systemInfo (assetId managedAgentId : string) (body : SystemInfo) : Pj unit :=
  throw_if (negb (SystemInfoSchema body)) (JsError "ZodError") ;!
  hmodify (λ s, set_px_sources (upsert_source assetId managedAgentId (observed_of body) (px_now s) (px_sources s)) s) ;!
  write_back assetId body ;!
  bump_version managedAgentId body.

(** ** Types *)

Inductive PType := TString | TNumber.
(** The declared types of [ProjectedAsset]. *)
Definition field_type (f : PField) : PType := match f with latitude | longitude => TNumber | _ => TString end.
Definition has_type (t : PType) (v : Picked) : Prop :=
  match t, v with TString, PStr _ | TNumber, PNum _ => True | _, _ => False end.

Lemma obsString_some o key t : obsString o key = Some t → Js.trim t = t ∧ Js.truthy t = true.
Proof.
  unfold obsString. destruct (o ≫= obs_get key) as [[v| |]|]; try done. destruct (Js.truthy (Js.trim v)) eqn:Ht; [|done].
  intros [= <-]. by rewrite trim_idem.
Qed.

Lemma rule_typed aliases f r o v :
  r ∈ rules_of aliases f → fr_pick r o = Some v → has_type (field_type f) v.
Proof.
  assert (∀ kind key, fr_pick (text kind key) o = Some v → has_type TString v) as Htext.
  { intros kind key. cbn. destruct (obsString o key); [|done]. by intros [= <-]. }
  assert (∀ kind key, fr_pick (maker aliases kind key) o = Some v → has_type TString v) as Hmaker.
  { intros kind key. cbn. destruct (obsString o key) as [raw|]; [|done]. destruct (normalizeManufacturer _ _); [|done]. by intros [= <-]. }
  assert (∀ side lk gk, fr_pick (coord side lk gk) o = Some v → has_type TNumber v) as Hcoord.
  { intros side lk gk. cbn. destruct (isValidGeoCoord _ _); [|done]. destruct (side _ _); [|done]. by intros [= <-]. }
  destruct f; cbn [rules_of field_type]; intros Hr;
    repeat (apply elem_of_cons in Hr as [->|Hr]; [eauto; cbn; intros; repeat case_match; simplify_eq; eauto|]);
    try by apply elem_of_nil in Hr.
  all: try (destruct (obsString o "cn"); by simplify_eq).
Qed.

Lemma candidate_some kind sources c :
  candidate kind sources = Some c → c ∈ sources ∧ sp_sourceKind c = kind ∧ sp_inferred c = false.
Proof.
  intros [Hin%list_elem_of_In [He%String.eqb_eq Hi%negb_true_iff]%andb_true_iff]%find_some. done.
Qed.

(** The winning rule. *)
Lemma projectField_some sources rules v k :
  projectField sources rules = Some (v, k) →
  ∃ r c, r ∈ rules ∧ candidate k sources = Some c ∧ fr_sourceKind r = k ∧ fr_pick r (sp_observed c) = Some v ∧ is_empty v = false.
Proof.
  induction rules as [|r rules IH]; cbn; [done|].
  assert (projectField sources rules = Some (v, k) →
    ∃ r0 c, r0 ∈ r :: rules ∧ candidate k sources = Some c ∧ fr_sourceKind r0 = k ∧ fr_pick r0 (sp_observed c) = Some v ∧ is_empty v = false) as Hrec.
  { intros (r0 & c & Hr & H)%IH. exists r0, c. split; [by right|done]. }
  destruct (candidate (fr_sourceKind r) sources) as [c|] eqn:Hc; [|exact Hrec]. destruct (fr_pick r _) as [w|] eqn:Hp; [|exact Hrec].
  destruct (is_empty w) eqn:He; [exact Hrec|]. intros [= <- <-]. exists r, c. split_and!; [by left|done..].
Qed.

Lemma valid_pair lat lng : isValidGeoCoord lat lng = true → ∃ x y, lat = Some x ∧ lng = Some y.
Proof. destruct lat, lng; try done. eauto. Qed.

(** Both coordinates come from the first valid tier of one source, or neither. *)
Lemma coords_paired sources :
  match projectField sources LATITUDE_RULES, projectField sources LONGITUDE_RULES with
  | Some (PNum lat, k), Some (PNum lng, k') =>
      k = "fortigate-firewall"%string ∧ k' = k ∧ isValidGeoCoord (Some lat) (Some lng) = true ∧
      ∃ c latKey lngKey, candidate k sources = Some c ∧ obsNumber (sp_observed c) latKey = Some lat ∧
        obsNumber (sp_observed c) lngKey = Some lng ∧
        (latKey, lngKey) ∈ [("snmpGeocodedLatitude", "snmpGeocodedLongitude"); ("metavarLatitude", "metavarLongitude"); ("latitude", "longitude")]%string
  | None, None => True
  | _, _ => False
  end.
Proof.
  unfold LATITUDE_RULES, LONGITUDE_RULES, coord_rules. cbn [projectField fr_sourceKind coord fr_pick].
  destruct (candidate _ sources) as [c|] eqn:Hc; [|done]. set (o := sp_observed c).
  repeat match goal with |- context [isValidGeoCoord (obsNumber o ?a) (obsNumber o ?b)] =>
    let Hv := fresh "Hv" in destruct (isValidGeoCoord (obsNumber o a) (obsNumber o b)) eqn:Hv;
    [destruct (valid_pair _ _ Hv) as (x & y & Hx & Hy); rewrite Hx, Hy in *; cbn; split_and!; [done..|exists c, a, b; split_and!; [done..|set_solver]]|]
  end. done.
Qed.

(** C30: the projection is well typed.  Whatever the observations hold, a
    projected field has the type its declaration says, although the code builds
    the object through a cast: latitude and longitude are numbers and every
    other field a string, which is never empty; each value names as its source
    the kind of an observed, not inferred source.  Latitude and longitude are
    given together or not at all, as a valid pair of one tier of one firewall
    source. *)
Theorem projection_well_typed aliases sources :
  let p := projectAssetFromSources aliases sources in
  (∀ f, match pn_projected p f with
        | Some v => has_type (field_type f) v ∧ v ≠ PStr "" ∧
            ∃ k c, pn_provenance p f = Some k ∧ c ∈ sources ∧ sp_sourceKind c = k ∧ sp_inferred c = false
        | None => pn_provenance p f = None
        end) ∧
  match pn_projected p latitude, pn_projected p longitude with
  | Some (PNum lat), Some (PNum lng) =>
      isValidGeoCoord (Some lat) (Some lng) = true ∧
      ∃ c latKey lngKey, c ∈ sources ∧ sp_sourceKind c = "fortigate-firewall"%string ∧
        obsNumber (sp_observed c) latKey = Some lat ∧ obsNumber (sp_observed c) lngKey = Some lng ∧
        (latKey, lngKey) ∈ [("snmpGeocodedLatitude", "snmpGeocodedLongitude"); ("metavarLatitude", "metavarLongitude"); ("latitude", "longitude")]%string
  | None, None => True
  | _, _ => False
  end.
Proof.
  cbv zeta. cbn [projectAssetFromSources pn_projected pn_provenance]. split.
  - intros f. destruct (projectField sources (rules_of aliases f)) as [[v k]|] eqn:Hp; cbn; [|done].
    destruct (projectField_some _ _ _ _ Hp) as (r & c & Hr & Hc & Hk & Hv & He). split; [by eapply rule_typed|].
    split; [by intros ->|]. destruct (candidate_some _ _ _ Hc) as (? & ? & ?). by exists k, c.
  - pose proof (coords_paired sources) as H. cbn [rules_of].
    destruct (projectField sources LATITUDE_RULES) as [[[?|lat] k]|], (projectField sources LONGITUDE_RULES) as [[[?|lng] k']|];
      cbn; try done. destruct H as (-> & -> & Hv & c & a & b & Hc & Ha & Hb & Hin). split; [done|].
    destruct (candidate_some _ _ _ Hc) as (? & ? & ?). by exists c, a, b.
Qed.
