(* ===== verification/ProjectionProofs.v ===== *)
(** * The projection settles

    Which sources a projection depends on, and the write-back of POST
    /agents/system-info: after one push the asset carries its projection, and an
    identical push writes nothing more. *)

From Stdlib Require Import Qcanon.
From S2P Require Import Prelude JsColl Aliases Projection.

(** ** What a projection depends on *)

Lemma projectField_candidates sources sources' rules :
  (∀ kind, candidate kind sources = candidate kind sources') → projectField sources rules = projectField sources' rules.
Proof. intros H. induction rules as [|r rules IH]; [done|]. cbn. by rewrite H, IH. Qed.

Lemma candidate_filter kind sources :
  candidate kind (List.filter (λ s, negb (sp_inferred s)) sources) = candidate kind sources.
Proof.
  unfold candidate. induction sources as [|s l IH]; [done|]. cbn. destruct (sp_inferred s) eqn:Hi; cbn.
  - by rewrite andb_false_r.
  - rewrite Hi. cbn. by rewrite IH.
Qed.

Lemma candidate_unique kind sources c :
  NoDup (sp_sourceKind <$> List.filter (λ s, negb (sp_inferred s)) sources) →
  c ∈ sources → sp_sourceKind c = kind → sp_inferred c = false → candidate kind sources = Some c.
Proof.
  intros Hnd Hc Hk Hi. rewrite <-candidate_filter. assert (c ∈ List.filter (λ s, negb (sp_inferred s)) sources) as Hin.
  { apply list_elem_of_In, filter_In. split; [by apply list_elem_of_In|by rewrite Hi]. }
  revert Hnd Hin. generalize (List.filter (λ s, negb (sp_inferred s)) sources). intros l.
  unfold candidate. induction l as [|x l IH]; [by intros _ ?%elem_of_nil|]. rewrite fmap_cons. intros [Hx Hnd]%NoDup_cons.
  cbn [List.find]. intros [->|Hin]%elem_of_cons; [by rewrite Hk, String.eqb_refl, Hi|].
  destruct (String.eqb_spec (sp_sourceKind x) kind) as [He|]; [|by apply IH]. exfalso. apply Hx. rewrite He, <-Hk.
  by apply list_elem_of_fmap_2.
Qed.

(** The order in which the database returns the sources does not matter to an
    asset with at most one observed source of each kind, and inferred sources
    never do. *)
Theorem projection_order_free aliases sources sources' f :
  NoDup (sp_sourceKind <$> List.filter (λ s, negb (sp_inferred s)) sources) →
  List.filter (λ s, negb (sp_inferred s)) sources ≡ₚ List.filter (λ s, negb (sp_inferred s)) sources' →
  pn_projected (projectAssetFromSources aliases sources) f = pn_projected (projectAssetFromSources aliases sources') f ∧
  pn_provenance (projectAssetFromSources aliases sources) f = pn_provenance (projectAssetFromSources aliases sources') f.
Proof.
  intros Hnd Hp. cbn. rewrite (projectField_candidates sources sources'); [done|]. intros kind.
  assert (∀ c, c ∈ sources ∧ sp_inferred c = false ↔ c ∈ sources' ∧ sp_inferred c = false) as Hin.
  { assert (∀ l c, c ∈ List.filter (λ s, negb (sp_inferred s)) l ↔ c ∈ l ∧ sp_inferred c = false) as Hf.
    { intros l c. rewrite !list_elem_of_In, filter_In. by rewrite negb_true_iff. }
    intros c. by rewrite <-!Hf, Hp. }
  destruct (candidate kind sources) as [c|] eqn:Hc.
  - destruct (candidate_some _ _ _ Hc) as (Hm & Hk & Hi). destruct (proj1 (Hin c)) as [Hm' _]; [done|].
    symmetry. apply candidate_unique; [|done..]. by rewrite <-Hp.
  - destruct (candidate kind sources') as [c|] eqn:Hc'; [|done]. destruct (candidate_some _ _ _ Hc') as (Hm & Hk & Hi).
    destruct (proj2 (Hin c)) as [Hm' _]; [done|]. by rewrite (candidate_unique kind sources c) in Hc.
Qed.

(** ** The written fields *)

Section diff.
Context (aliases : AliasMap).

(** The normaliser leaves the projected manufacturer as it is. *)
Definition maker_stable (p : ProjectionResult) : Prop :=
  ∀ y, pn_projected p manufacturer = Some (PStr y) → normalizeManufacturer aliases y = Some y.

(** It does whenever it gives normal forms and keeps "Fortinet", as it does
    while no alias leads to another ([Aliases.normalizer_implements_table]). *)
Lemma normal_maker_stable sources :
  normal_form (normalizeManufacturer aliases) → normalizeManufacturer aliases "Fortinet" = Some "Fortinet"%string →
  maker_stable (projectAssetFromSources aliases sources).
Proof.
  intros Hn Hf y. cbn [pn_projected projectAssetFromSources rules_of]. destruct (projectField sources (MANUFACTURER_RULES aliases)) as [[w k]|] eqn:Hp; cbn; [|done]. intros [= ->].
  destruct (projectField_some _ _ _ _ Hp) as (r & c & Hr & _ & _ & Hv & _).
  assert (∀ kind key, fr_pick (maker aliases kind key) (sp_observed c) = Some (PStr y) → normalizeManufacturer aliases y = Some y) as Hm.
  { intros kind key. cbn. destruct (obsString _ key) as [raw|]; [|done]. destruct (normalizeManufacturer aliases raw) eqn:Hraw; cbn; [|done].
    intros [= ->]. by destruct (Hn _ _ Hraw). }
  unfold MANUFACTURER_RULES in Hr.
  repeat (apply elem_of_cons in Hr as [->|Hr]; [first [eapply Hm; exact Hv | injection Hv as <-; exact Hf]|]). by apply elem_of_nil in Hr.
Qed.

Lemma diff_get_field p current f :
  diff_get f (field_diff p current) =
    if decide (f ∈ FIELDS) then
      match pn_projected p f with Some v => if bool_decide (current f = Some v) then None else Some v | None => None end
    else None.
Proof.
  unfold field_diff. induction FIELDS as [|g l IH]; [by rewrite decide_False by apply not_elem_of_nil|]. cbn [omap list_omap].
  assert (diff_get f (omap (λ f, match pn_projected p f with
             | Some next => if bool_decide (current f = Some next) then None else Some (f, next)
             | None => None
             end) l) = if decide (f ∈ l) then
      match pn_projected p f with Some v => if bool_decide (current f = Some v) then None else Some v | None => None end else None) as IH' by exact IH.
  destruct (decide (f = g)) as [->|Hne].
  - rewrite decide_True by by left. destruct (pn_projected p g) as [v|] eqn:Hp; [case_bool_decide as Hc|];
      cbn [diff_get]; rewrite ?decide_True by done; try done; rewrite IH'; destruct (decide (g ∈ l)); try done.
  - transitivity (diff_get f (omap (λ f, match pn_projected p f with
             | Some next => if bool_decide (current f = Some next) then None else Some (f, next)
             | None => None
             end) l)).
    + destruct (pn_projected p g) as [v|]; [|done]. destruct (bool_decide (current g = Some v)); [done|]. cbn [diff_get]. by rewrite decide_False by done.
    + rewrite IH'. destruct (decide (f ∈ l)) as [Hin|Hni].
      * by rewrite decide_True by by right.
      * rewrite decide_False; [done|]. by intros [|]%elem_of_cons.
Qed.

(** The columns after the write. *)
Definition settled_field (p : ProjectionResult) (current : PField → option Picked) (f : PField) : option Picked :=
  if decide (f ∈ FIELDS)
  then match pn_projected p f with
       | Some v => if bool_decide (current f = Some v) then Some v else written aliases f v
       | None => current f
       end
  else current f.

Lemma apply_diff_field p mac a f :
  pa_field (apply_diff aliases (field_diff p (pa_field a)) mac a) f = settled_field p (pa_field a) f.
Proof.
  cbn [apply_diff pa_field]. unfold settled_field. rewrite diff_get_field. destruct (decide (f ∈ FIELDS)); [|done].
  destruct (pn_projected _ f) as [v|] eqn:Hp; [|done]. by case_bool_decide.
Qed.

(** A projected column differs from its projection only when it is the
    manufacturer, rewritten by the client. *)
Lemma settled_projected p current f v :
  f ∈ FIELDS → pn_projected p f = Some v →
  settled_field p current f = Some v ∨ f = manufacturer ∧ settled_field p current f = written aliases f v.
Proof.
  intros Hf Hv. unfold settled_field. rewrite decide_True, Hv by done. case_bool_decide; [by left|].
  destruct f; auto.
Qed.
Lemma settled_stable p current f v :
  maker_stable p → f ∈ FIELDS → pn_projected p f = Some v → settled_field p current f = Some v.
Proof.
  intros Hs Hf Hv. destruct (settled_projected p current f v Hf Hv) as [?|[-> ->]]; [done|].
  destruct v as [y|]; [|done]. cbn. by rewrite (Hs y Hv).
Qed.

Lemma field_diff_nil p current :
  (∀ f v, f ∈ FIELDS → pn_projected p f = Some v → current f = Some v) → field_diff p current = [].
Proof.
  unfold field_diff. induction FIELDS as [|f l IH]; [done|]. intros Hl. cbn.
  destruct (pn_projected p f) as [v|] eqn:Hv; [rewrite bool_decide_eq_true_2 by (by apply Hl; [left|])|];
    apply IH; intros g w Hg; apply Hl; by right.
Qed.
Lemma field_diff_nil_inv p current f v :
  field_diff p current = [] → f ∈ FIELDS → pn_projected p f = Some v → current f = Some v.
Proof.
  intros Hd Hf Hv. pose proof (diff_get_field p current f) as Hg. rewrite Hd, decide_True, Hv in Hg by done. cbn in Hg.
  by case_bool_decide.
Qed.
End diff.

(** ** The MAC table *)

Definition of_asset (id : string) (r : MacRow) : bool := String.eqb (mr_assetId r) id.
(** The unique index on (assetId, mac), for one asset. *)
Definition macs_unique (id : string) (rows : list MacRow) : Prop := NoDup (mr_mac <$> List.filter (of_asset id) rows).
(** Every MAC of the asset but the agent's was last seen before [t]. *)
Definition macs_before (id mac : string) (t : Z) (rows : list MacRow) : Prop :=
  ∀ r, r ∈ rows → mr_assetId r = id → mr_mac r = mac ∨ mr_lastSeen r < t.

Lemma upsert_mac_elem id rows m r :
  r ∈ upsert_mac id rows m → mr_assetId r = id →
  (mr_mac r = me_mac m ∧ mr_lastSeen r = me_lastSeen m) ∨ (r ∈ rows ∧ mr_mac r ≠ me_mac m).
Proof.
  unfold upsert_mac. destruct (existsb _ rows) eqn:Hex.
  - intros (x & -> & Hx)%list_elem_of_fmap. unfold same_mac. destruct (String.eqb_spec (mr_assetId x) id) as [Ha|]; cbn [andb]; [|done].
    destruct (String.eqb_spec (mr_mac x) (me_mac m)) as [Hm|]; [by left|by right].
  - intros [Hin| ->%list_elem_of_singleton]%elem_of_app Ha; [|by left]. right. split; [done|]. intros Hm.
    apply not_true_iff_false in Hex. apply Hex, existsb_exists. exists r. split; [by apply list_elem_of_In|].
    unfold same_mac. by rewrite Ha, Hm, !String.eqb_refl.
Qed.

Lemma upsert_macs_elem id ms rows r :
  r ∈ fold_left (upsert_mac id) ms rows → mr_assetId r = id →
  (∃ m, m ∈ ms ∧ mr_mac r = me_mac m ∧ mr_lastSeen r = me_lastSeen m) ∨ (r ∈ rows ∧ mr_mac r ∉ me_mac <$> ms).
Proof.
  revert rows. induction ms as [|m ms IH]; intros rows; cbn [fold_left]; [intros; right; split; [done|apply not_elem_of_nil]|].
  intros Hr0 Ha. destruct (IH _ Hr0 Ha) as [(m' & Hm & H)|[Hr Hni]]; [left; exists m'; split; [by right|done]|].
  destruct (upsert_mac_elem id rows m r Hr Ha) as [?|[? ?]]; [left; exists m; split; [by left|done]|].
  right. split; [done|]. rewrite fmap_cons. by intros [|]%elem_of_cons.
Qed.

Lemma filter_fmap_mac id f rows :
  (∀ r, mr_assetId (f r) = mr_assetId r ∧ mr_mac (f r) = mr_mac r) →
  mr_mac <$> List.filter (of_asset id) (f <$> rows) = mr_mac <$> List.filter (of_asset id) rows.
Proof.
  intros Hf. induction rows as [|r l IH]; [done|]. destruct (Hf r) as [Ha Hm]. rewrite fmap_cons. cbn [List.filter].
  assert (of_asset id (f r) = of_asset id r) as -> by (unfold of_asset; by rewrite Ha).
  destruct (of_asset id r); [|exact IH]. rewrite !fmap_cons. by rewrite Hm, IH.
Qed.

Lemma upsert_mac_unique id rows m : macs_unique id rows → macs_unique id (upsert_mac id rows m).
Proof.
  unfold macs_unique, upsert_mac. intros Hu. destruct (existsb _ rows) eqn:Hex.
  - rewrite filter_fmap_mac; [done|]. intros r. unfold same_mac.
    destruct (String.eqb_spec (mr_assetId r) id), (String.eqb_spec (mr_mac r) (me_mac m)); cbn; split; congruence.
  - rewrite List.filter_app, fmap_app. apply NoDup_app. split; [done|].
    assert (List.filter (of_asset id) [mkMacRow id (me_mac m)
      (if Js.truthy (me_source m) then me_source m else "unknown"%string) (me_device m) (me_subnetCidr m) (me_subnetName m)
      (me_lastSeen m) (me_lastSeen m)] = [mkMacRow id (me_mac m)
      (if Js.truthy (me_source m) then me_source m else "unknown"%string) (me_device m) (me_subnetCidr m) (me_subnetName m)
      (me_lastSeen m) (me_lastSeen m)]) as ->.
    { cbn. unfold of_asset. cbn. by rewrite String.eqb_refl. }
    split; [|apply NoDup_singleton]. intros x (r & -> & [Hr Ha]%list_elem_of_In%filter_In)%list_elem_of_fmap Hx%list_elem_of_singleton.
    apply not_true_iff_false in Hex. apply Hex, existsb_exists. exists r. split; [done|]. unfold same_mac, of_asset in *.
    rewrite Ha. cbn in Hx. by rewrite Hx, String.eqb_refl.
Qed.

Lemma upsert_macs_unique id ms rows : macs_unique id rows → macs_unique id (fold_left (upsert_mac id) ms rows).
Proof. revert rows. induction ms as [|m ms IH]; intros rows Hu; [done|]. by apply IH, upsert_mac_unique. Qed.

Lemma NoDup_fmap_filter {A B} (f : A → B) (p : A → bool) l : NoDup (f <$> l) → NoDup (f <$> List.filter p l).
Proof.
  induction l as [|x l IH]; [done|]. rewrite fmap_cons. intros [Hx Hnd]%NoDup_cons. cbn [List.filter].
  destruct (p x); [|by apply IH]. rewrite fmap_cons. apply NoDup_cons. split; [|by apply IH].
  intros (y & Hy & [Hin _]%list_elem_of_In%filter_In)%list_elem_of_fmap. apply Hx. rewrite Hy. by apply list_elem_of_fmap_2, list_elem_of_In.
Qed.

(** A reconcile of distinct MACs leaves exactly what it was given. *)
Lemma reconcileMacs_run id macs s :
  NoDup (me_mac <$> macs) → macs_unique id (px_macs s) →
  ∃ rows, reconcileMacAddresses id macs s = (set_px_macs rows s, Ok tt) ∧ macs_unique id rows ∧
    ∀ r, r ∈ rows → mr_assetId r = id → ∃ m, m ∈ macs ∧ mr_mac r = me_mac m ∧ mr_lastSeen r = me_lastSeen m.
Proof.
  intros Hnd Hu. unfold reconcileMacAddresses.
  set (given := List.filter (λ m, Js.truthy (me_mac m)) macs).
  set (newMacs := sort_by _ given).
  assert (newMacs ≡ₚ given) as Hp by apply sort_by_perm.
  assert (∀ p, macs_unique id (List.filter p (px_macs s))) as Hu'.
  { intros p. unfold macs_unique. assert (List.filter (of_asset id) (List.filter p (px_macs s)) = List.filter p (List.filter (of_asset id) (px_macs s))) as ->.
    { clear. induction (px_macs s) as [|x l IH]; [done|]. cbn. destruct (p x) eqn:H1, (of_asset id x) eqn:H2; cbn; rewrite ?H1, ?H2, ?IH; done. }
    by apply NoDup_fmap_filter. }
  destruct newMacs as [|m0 ms] eqn:Hnew.
  - eexists. split; [reflexivity|]. split; [apply Hu'|]. intros r [_ Hr]%list_elem_of_In%filter_In Ha.
    by rewrite Ha, String.eqb_refl in Hr.
  - rewrite <-Hnew in *. assert (NoDup (me_mac <$> newMacs)) as Hnd'.
    { rewrite Hp. by apply NoDup_fmap_filter. }
    unfold hbind, hguard, hmodify. cbn [px_macs set_px_macs].
    rewrite bool_decide_eq_true_2 by done. cbn [negb]. eexists. split; [reflexivity|].
    split; [apply upsert_macs_unique, Hu'|]. intros r Hr Ha. destruct (upsert_macs_elem _ _ _ _ Hr Ha) as [(m & Hm & H)|[Hin Hni]].
    + exists m. split; [|done]. rewrite Hp in Hm. by apply list_elem_of_In, filter_In in Hm as [?%list_elem_of_In _].
    + exfalso. apply list_elem_of_In, filter_In in Hin as [_ Hin]. rewrite Ha, String.eqb_refl in Hin. cbn in Hin.
      by apply bool_decide_eq_true in Hin.
Qed.

Lemma refresh_entry_spec mac t l :
  match refresh_entry mac t l with
  | Some l' => me_mac <$> l' = me_mac <$> l ∧ (∃ e, e ∈ l' ∧ me_mac e = mac ∧ me_lastSeen e = t) ∧
      ∀ e, e ∈ l' → me_mac e = mac ∨ e ∈ l
  | None => mac ∉ me_mac <$> l
  end.
Proof.
  induction l as [|m l IH]; cbn [refresh_entry]; [apply not_elem_of_nil|]. destruct (String.eqb_spec (me_mac m) mac) as [Hm|Hne].
  - split; [done|]. split; [eexists; split; [by left|done]|]. intros e [->|He]%elem_of_cons; [by left|right; by right].
  - destruct (refresh_entry mac t l) as [l'|]; cbn [fmap option_fmap option_map].
    + destruct IH as (Hl & (e & He & ? & ?) & Hall). rewrite !fmap_cons, Hl. split; [done|]. split; [exists e; split; [by right|done]|].
      intros x [->|Hx]%elem_of_cons; [right; by left|]. destruct (Hall x Hx); [by left|right; by right].
    + rewrite fmap_cons. by intros [|]%elem_of_cons.
Qed.

(** The agent's MAC comes first, and every other was seen before. *)
Lemma merge_macs_spec id mac t rows :
  macs_unique id rows → macs_before id mac t rows →
  let l := merge_macs id mac t rows in
  NoDup (me_mac <$> l) ∧ (∃ h l', l = h :: l' ∧ me_mac h = mac) ∧ ∀ m, m ∈ l → me_mac m = mac ∨ me_lastSeen m < t.
Proof.
  intros Hu Hb l. unfold merge_macs in l. set (own := entry_of <$> List.filter (λ r, String.eqb (mr_assetId r) id) rows) in l.
  assert (NoDup (me_mac <$> own)) as Hnd.
  { unfold own. rewrite <-list_fmap_compose. exact Hu. }
  assert (∀ m, m ∈ own → me_mac m = mac ∨ me_lastSeen m < t) as Hown.
  { intros m (r & -> & [Hr Ha%String.eqb_eq]%list_elem_of_In%filter_In)%list_elem_of_fmap. apply list_elem_of_In in Hr. by apply Hb. }
  set (merged := match refresh_entry mac t own with Some l => l | None => own ++ [mkMacEntry mac t "polaris-agent" None None None] end) in l.
  assert (NoDup (me_mac <$> merged) ∧ (∃ e, e ∈ merged ∧ me_mac e = mac ∧ me_lastSeen e = t) ∧
    ∀ m, m ∈ merged → me_mac m = mac ∨ me_lastSeen m < t) as (Hnd' & (e & He & Hem & Het) & Hall).
  { unfold merged. pose proof (refresh_entry_spec mac t own) as Hr. destruct (refresh_entry mac t own) as [l'|].
    - destruct Hr as (Hm & Hex & Hin). rewrite Hm. split_and!; [done..|]. intros m Hl. destruct (Hin m Hl); [by left|by apply Hown].
    - split_and!.
      + rewrite fmap_app. apply NoDup_app. split_and!; [done| |apply NoDup_singleton].
        intros x Hx ->%list_elem_of_singleton. done.
      + eexists. split; [apply elem_of_app; right; by left|done].
      + intros m [?| ->%list_elem_of_singleton]%elem_of_app; [by apply Hown|by left]. }
  assert (l ≡ₚ merged) as Hp by apply sort_by_perm.
  assert (StronglySorted (λ a b, (me_lastSeen b <=? me_lastSeen a) = true) l) as Hs.
  { apply sort_by_sorted; intros *; rewrite ?Z.leb_gt, ?Z.leb_le; lia. }
  split; [by rewrite Hp|]. split; [|intros m Hm; apply Hall; by rewrite <-Hp].
  destruct l as [|h l']; [by rewrite <-Hp in He; apply elem_of_nil in He|]. exists h, l'. split; [done|].
  destruct (Hall h) as [|Hlt]; [rewrite <-Hp; by left|done|]. exfalso. rewrite <-Hp in He. apply elem_of_cons in He as [->|He]; [lia|].
  apply StronglySorted_inv in Hs as [_ Hs]. rewrite Forall_forall in Hs. specialize (Hs e He). cbv beta in Hs. lia.
Qed.

(** ** One push *)

Lemma asset_by_id_map (g : ProjAsset → ProjAsset) id l :
  (∀ a, pa_id (g a) = pa_id a) →
  List.find (λ a, String.eqb (pa_id a) id) (g <$> l) = g <$> List.find (λ a, String.eqb (pa_id a) id) l.
Proof. intros Hg. induction l as [|a l IH]; [done|]. rewrite fmap_cons. cbn. rewrite Hg. by destruct (String.eqb _ _). Qed.

(** What a push needs of the state and leaves behind. *)
Record push_ready (id : string) (body : SystemInfo) (t : Z) (s : ProjState) : Prop := mkReady {
  pr_unique : macs_unique id (px_macs s);
  pr_before : macs_before id (formatMacColonUpper (body "primaryMac"%string)) t (px_macs s);
}.

Lemma merge_agent_mac_run id a mac s :
  macs_unique id (px_macs s) → macs_before id mac (px_now s) (px_macs s) →
  ∃ rows, merge_agent_mac id a mac s =
      (set_px_macs rows s, Ok (if Js.truthy mac && negb (bool_decide (pa_macAddress a = Some mac)) then Some mac else None)) ∧
    macs_unique id rows ∧ ∀ t, px_now s ≤ t → macs_before id mac t rows.
Proof.
  intros Hu Hb. unfold merge_agent_mac. destruct (Js.truthy mac) eqn:Ht; cbn [negb andb].
  - unfold hbind, hget. destruct (merge_macs_spec id mac (px_now s) (px_macs s) Hu Hb) as (Hnd & (h & l' & Hl & Hh) & Hall).
    destruct (reconcileMacs_run id _ s Hnd Hu) as (rows & -> & Hu' & Hrows). exists rows. unfold hret. rewrite Hl, Hh, Ht. split; [done|].
    split; [done|]. intros t Hle r Hr Ha. destruct (Hrows r Hr Ha) as (m & Hm & -> & ->). destruct (Hall m Hm); [by left|right; lia].
  - exists (px_macs s). split; [by destruct s|]. split; [done|]. intros t Hle r Hr Ha. destruct (Hb r Hr Ha); [by left|right; lia].
Qed.

(** The update of a row, seen through the key. *)
Lemma update_asset_find id diff mac s a :
  asset_by_id id s = Some a →
  asset_by_id id (update_asset id diff mac s).1 = Some (apply_diff (px_aliases s) diff mac a) ∧
  ∀ j, j ≠ id → asset_by_id j (update_asset id diff mac s).1 = asset_by_id j s.
Proof.
  intros Ha. unfold asset_by_id in *. cbn [update_asset hbind hmodify fst px_assets set_px_assets log_update]. split.
  - rewrite asset_by_id_map by (intros b; by destruct (String.eqb _ _)). rewrite Ha. cbn. apply find_some in Ha as [_ Hid].
    by rewrite Hid.
  - intros j Hj. rewrite asset_by_id_map by (intros b; by destruct (String.eqb _ _)).
    destruct (List.find (λ a, String.eqb (pa_id a) j) (px_assets s)) as [b|] eqn:Hfb; [|done].
    cbn [fmap option_fmap option_map]. apply find_some in Hfb as [_ Hid%String.eqb_eq].
    destruct (String.eqb_spec (pa_id b) id); [congruence|done].
Qed.

(** What [write_back] does to the asset, and when it writes nothing. *)
Record written_back (id mac : string) (p : ProjectionResult) (a : ProjAsset) (s s' : ProjState) : Prop := mkWrittenBack {
  wb_sources : px_sources s' = px_sources s;
  wb_aliases : px_aliases s' = px_aliases s;
  wb_now : px_now s' = px_now s;
  wb_asset : ∃ a', asset_by_id id s' = Some a' ∧ (∀ f, pa_field a' f = settled_field (px_aliases s) p (pa_field a) f) ∧
    pa_macAddress a' = if Js.truthy mac then Some mac else pa_macAddress a;
  wb_others : ∀ j, j ≠ id → asset_by_id j s' = asset_by_id j s;
  wb_quiet : field_diff p (pa_field a) = [] → (Js.truthy mac = true → pa_macAddress a = Some mac) →
    px_updates s' = px_updates s ∧ px_assets s' = px_assets s;
  wb_loud : field_diff p (pa_field a) ≠ [] → px_updates s' = px_updates s ++ [id];
}.

Lemma write_back_run id body s a :
  asset_by_id id s = Some a → push_ready id body (px_now s) s →
  ∃ s', write_back id body s = (s', Ok tt) ∧ (∀ t, px_now s ≤ t → push_ready id body t s') ∧
    written_back id (formatMacColonUpper (body "primaryMac"%string)) (projection_of id s) a s s'.
Proof.
  intros Ha [Hu Hb]. unfold write_back, hbind at 1, hget. cbv zeta. rewrite Ha.
  set (p := projection_of id s). set (mac := formatMacColonUpper _) in *.
  destruct (merge_agent_mac_run id a mac s Hu Hb) as (rows & Hmac & Hu' & Hb'). unfold hbind at 1. rewrite Hmac. clear Hmac.
  set (m := if Js.truthy mac && _ then Some mac else None). set (s2 := set_px_macs rows s).
  assert (∀ f, pa_field (apply_diff (px_aliases s) (field_diff p (pa_field a)) m a) f = settled_field (px_aliases s) p (pa_field a) f) as Hfld
    by (intros f; apply apply_diff_field).
  assert (pa_macAddress (apply_diff (px_aliases s) (field_diff p (pa_field a)) m a) = if Js.truthy mac then Some mac else pa_macAddress a) as Hm.
  { cbn. unfold m. destruct (Js.truthy mac); cbn; [|done]. case_bool_decide as Hd; [by rewrite Hd|done]. }
  destruct (update_asset_find id (field_diff p (pa_field a)) m s2 a Ha) as [Hf Hoth].
  assert (field_diff p (pa_field a) ≠ [] ∨ m ≠ None → ∃ s', update_asset id (field_diff p (pa_field a)) m s2 = (s', Ok tt) ∧
    (∀ t, px_now s ≤ t → push_ready id body t s') ∧ written_back id mac p a s s') as Hup.
  { intros Hw. eexists. split; [reflexivity|]. split; [intros t Hle; constructor; [done..|by apply Hb']|].
    constructor; [done..|by eexists; split; [exact Hf|]|exact Hoth| |done]. intros Hd Hq. exfalso. destruct Hw as [|Hw]; [done|]. apply Hw.
    unfold m. destruct (Js.truthy mac); [|done]. by rewrite (bool_decide_eq_true_2 _ (Hq eq_refl)). }
  destruct (field_diff p (pa_field a)) as [|d ds] eqn:Hd; [destruct m as [m'|] eqn:Hmm|].
  - apply Hup. by right.
  - exists s2. split; [done|]. split; [intros t Hle; constructor; [done..|by apply Hb']|]. constructor; [done..| |done|done|by intros []].
    exists a. split; [exact Ha|]. split; [intros f; rewrite <-Hfld; done|]. by rewrite <-Hm.
  - apply Hup. by left.
Qed.

Lemma bump_version_run ma body s : ∃ agents, bump_version ma body s = (set_px_agents agents s, Ok tt).
Proof.
  unfold bump_version, hbind, hget. destruct (body "agentVersion"%string) as [v|]; [|exists (px_agents s); by destruct s].
  destruct (_ && _); [by eexists|exists (px_agents s); by destruct s].
Qed.

Lemma systemInfo_run id ma body s a :
  SystemInfoSchema body = true → asset_by_id id s = Some a → push_ready id body (px_now s) s →
  let s1 := set_px_sources (upsert_source id ma (observed_of body) (px_now s) (px_sources s)) s in
  ∃ s', systemInfo id ma body s = (s', Ok tt) ∧ (∀ t, px_now s ≤ t → push_ready id body t s') ∧
    written_back id (formatMacColonUpper (body "primaryMac"%string)) (projection_of id s1) a s1 s'.
Proof.
  intros Hschema Ha Hr s1. unfold systemInfo, hguard. rewrite Hschema. cbn [negb]. unfold hbind, hret, hmodify. fold s1.
  destruct (write_back_run id body s1 a Ha) as (s2 & -> & Hr2 & Hw); [by destruct Hr|].
  destruct (bump_version_run ma body s2) as (agents & ->). exists (set_px_agents agents s2). split; [done|].
  split; [intros t Hle; by destruct (Hr2 t Hle)|]. by destruct Hw.
Qed.

(** ** Two pushes *)

Definition inputs_of (id : string) (rows : list SourceRow) : list AssetSourceForProjection :=
  (λ r, mkProjSource (sr_sourceKind r) (sr_inferred r) (sr_observed r)) <$> List.filter (λ r, String.eqb (sr_assetId r) id) rows.

(** Observing the same again changes no input of the projection. *)
Lemma upsert_source_twice id asset ma o t t' rows :
  inputs_of id (upsert_source asset ma o t' (upsert_source asset ma o t rows)) = inputs_of id (upsert_source asset ma o t rows).
Proof.
  set (rows' := upsert_source asset ma o t rows).
  assert (∀ r, r ∈ rows' → same_source ma r = true → sr_inferred r = false ∧ sr_observed r = o) as Hin.
  { intros r. unfold rows', upsert_source. destruct (existsb _ rows) eqn:Hex.
    - intros (x & -> & Hx)%list_elem_of_fmap. by destruct (same_source ma x) eqn:Hs; [|rewrite Hs].
    - intros [Hr| ->%list_elem_of_singleton]%elem_of_app Hs; [|done]. apply not_true_iff_false in Hex. destruct Hex.
      apply existsb_exists. exists r. split; [by apply list_elem_of_In|done]. }
  assert (existsb (same_source ma) rows' = true) as Hex.
  { unfold rows', upsert_source. destruct (existsb _ rows) eqn:Hex.
    - apply existsb_exists in Hex as (x & Hx & Hs). apply existsb_exists. eexists. split; [apply in_map; exact Hx|]. by rewrite Hs.
    - apply existsb_exists. eexists. split; [apply in_or_app; right; by left|]. unfold same_source. cbn. by rewrite String.eqb_refl. }
  unfold upsert_source at 1. rewrite Hex. unfold inputs_of. clearbody rows'. clear Hex. induction rows' as [|r l IH]; [done|].
  rewrite fmap_cons. cbn [List.filter].
  assert (inputs_of id ((λ r, if same_source ma r then mkSourceRow (sr_assetId r) (sr_sourceKind r) (sr_externalId r) false o t' (sr_firstSeen r) else r) <$> l) =
    inputs_of id l) as IH' by (apply IH; intros; apply Hin; [by right|done]).
  destruct (same_source ma r) eqn:Hs; cbn [sr_assetId]; destruct (String.eqb (sr_assetId r) id); try exact IH'; rewrite !fmap_cons.
  - f_equal; [|exact IH']. cbn. by destruct (Hin r) as [-> ->]; [left|done|].
  - f_equal. exact IH'.
Qed.

Lemma projection_eq id s s' : px_aliases s = px_aliases s' → inputs_of id (px_sources s) = inputs_of id (px_sources s') →
  projection_of id s = projection_of id s'.
Proof. unfold projection_of, sources_of, inputs_of. by intros -> ->. Qed.

(** C32: what a push of the agent leaves, and when pushing the same again
    writes the asset.  After POST /agents/system-info each of the six host columns
    some source has an opinion on holds its projection, or, for the manufacturer
    alone, the projection as the client rewrites it; the columns without an
    opinion and the other assets are untouched.  While the normaliser keeps the
    projected manufacturer no drift is left on those columns.  An identical push
    at any later time refreshes the row of the source, and writes the asset
    exactly when one of the columns differs from its projection: a chain of
    aliases makes it do so every time ([alias_chain_never_settles]).  The MACs of
    the asset are distinct, as the schema demands, and none but the agent's was
    last seen at or after the push. *)
Theorem system_info_settles id ma body s a :
  SystemInfoSchema body = true → asset_by_id id s = Some a → push_ready id body (px_now s) s →
  ∃ s1 a1, systemInfo id ma body s = (s1, Ok tt) ∧ asset_by_id id s1 = Some a1 ∧
    let p := projection_of id s1 in
    (∀ f v, f ∈ FIELDS → pn_projected p f = Some v →
       pa_field a1 f = Some v ∨ f = manufacturer ∧ pa_field a1 f = written (px_aliases s) f v) ∧
    (∀ f, f ∉ FIELDS ∨ pn_projected p f = None → pa_field a1 f = pa_field a f) ∧
    (maker_stable (px_aliases s) p → ∀ d, d ∈ drifts p (pa_field a1) → df_field d ∉ FIELDS) ∧
    (∀ j, j ≠ id → asset_by_id j s1 = asset_by_id j s) ∧
    ∀ t, px_now s ≤ t → ∃ s2, systemInfo id ma body (set_px_now t s1) = (s2, Ok tt) ∧
      px_sources s2 = upsert_source id ma (observed_of body) t (px_sources s1) ∧
      let settled := ∀ f v, f ∈ FIELDS → pn_projected p f = Some v → pa_field a1 f = Some v in
      (settled → px_updates s2 = px_updates s1 ∧ px_assets s2 = px_assets s1) ∧
      (¬ settled → px_updates s2 = px_updates s1 ++ [id]).
Proof.
  intros Hschema Ha Hready. destruct (systemInfo_run id ma body s a Hschema Ha Hready) as (s1 & Hr1 & Hready1 & [Hs Hal Hnow Hwa Hoth _ _]).
  destruct Hwa as (a1 & Ha1 & Hfld & Hmac). cbn [px_sources px_aliases px_now set_px_sources] in Hs, Hal, Hnow, Hfld.
  set (sr := set_px_sources _ s) in *.
  assert (projection_of id sr = projection_of id s1) as Hp by (apply projection_eq; [by rewrite Hal|by rewrite Hs]).
  rewrite Hp in Hfld. exists s1, a1. set (p := projection_of id s1) in *. cbv zeta. split_and!; [done|done| | | |exact Hoth|].
  - intros f v Hf Hv. rewrite Hfld. by apply settled_projected.
  - intros f Hf. rewrite Hfld. unfold settled_field. destruct Hf as [Hf|Hf]; [by rewrite decide_False|].
    rewrite Hf. by destruct (decide _).
  - intros Hst d (f & _ & Hd)%list_elem_of_omap Hf. destruct (pn_projected p f) as [v|] eqn:Hv; [|done].
    destruct (valuesEqual v (pa_field a1 f)) eqn:He; [done|]. injection Hd as <-. cbn [df_field] in Hf.
    rewrite Hfld, (settled_stable _ p _ f v Hst Hf Hv) in He.
    destruct v; cbn in He; [by rewrite String.eqb_refl in He|by rewrite bool_decide_eq_true_2 in He].
  - intros t Ht. set (s1t := set_px_now t s1).
    destruct (systemInfo_run id ma body s1t a1 Hschema Ha1) as (s2 & Hr2 & _ & [Hs2 _ _ _ _ Hq Hl]).
    { destruct (Hready1 t Ht). by constructor. }
    assert (projection_of id (set_px_sources (upsert_source id ma (observed_of body) (px_now s1t) (px_sources s1t)) s1t) = p) as Hpp.
    { apply projection_eq; [done|]. cbn [px_sources set_px_sources s1t set_px_now px_now]. rewrite Hs. apply upsert_source_twice. }
    rewrite Hpp in Hq, Hl. exists s2. split_and!; [exact Hr2|exact Hs2|..].
    + intros Hset. apply Hq; [by apply field_diff_nil|]. intros Ht'. by rewrite Hmac, Ht'.
    + intros Hns. apply Hl. intros Hnil. apply Hns. intros f v. by apply field_diff_nil_inv.
Qed.

(** ** Concrete pushes *)

Definition host_body : SystemInfo := λ k,
  if String.eqb k "hostname" then Some "web01.example.net"%string
  else if String.eqb k "manufacturer" then Some "Dell Inc."%string
  else if String.eqb k "primaryMac" then Some "00-1a-2b-3c-4d-5e"%string else None.
Definition host_state (aliases : AliasMap) : ProjState :=
  mkProjState aliases [mkProjAsset "a1" (λ _, None) None]
    [mkSourceRow "a1" "ad" "g1" false (Some [("dnsHostName", OStr "web01.example.net"); ("operatingSystem", OStr "Windows Server 2022")]%string) 5 5]
    [] [] 1000 [] [] [].
Definition dell_aliases : AliasMap := setAliasMap [("dell inc.", "Dell")]%string.

Lemma host_ready : push_ready "a1" host_body 1000 (host_state dell_aliases).
Proof. constructor; [apply NoDup_nil_2|by intros r ?%elem_of_nil]. Qed.
Lemma host_projected :
  let p := projection_of "a1" (systemInfo "a1" "m1" host_body (host_state dell_aliases)).1 in
  pn_projected p manufacturer = Some (PStr "Dell") ∧ pn_projected p os = Some (PStr "Windows Server 2022").
Proof. vm_compute. done. Qed.

Lemma system_info_settles_witness :
  ∃ s1 a1, systemInfo "a1" "m1" host_body (host_state dell_aliases) = (s1, Ok tt) ∧ asset_by_id "a1" s1 = Some a1 ∧
    pa_field a1 manufacturer = Some (PStr "Dell") ∧ pa_field a1 os = Some (PStr "Windows Server 2022").
Proof.
  pose proof host_projected as [Hm Ho].
  destruct (system_info_settles "a1" "m1" host_body (host_state dell_aliases) (mkProjAsset "a1" (λ _, None) None))
    as (s1 & a1 & Hr & Hf & Hset & _).
  - vm_compute. reflexivity.
  - reflexivity.
  - exact host_ready.
  - exists s1, a1. split; [exact Hr|]. split; [exact Hf|]. rewrite Hr in Hm, Ho. split.
    + destruct (Hset manufacturer (PStr "Dell")) as [H|[_ H]]; [by do 2 right; left|exact Hm|exact H|exact H].
    + destruct (Hset os (PStr "Windows Server 2022")) as [H|[H _]]; [by do 4 right; left|exact Ho|exact H|discriminate H].
Defined.

(** With a chain of aliases the push never settles: the projection says "HP", the
    client writes "HPE", and every identical push writes the asset again. *)
Definition hp_body : SystemInfo := λ k, if String.eqb k "manufacturer" then Some "Hewlett Packard"%string else None.
Example alias_chain_never_settles :
  let s := host_state (setAliasMap [("hewlett packard", "HP"); ("hp", "HPE")]%string) in
  let push := λ s, (systemInfo "a1" "m1" hp_body s).1 in
  px_updates (push s) = ["a1"]%string ∧ px_updates (push (push s)) = ["a1"; "a1"]%string ∧
  pn_projected (projection_of "a1" (push s)) manufacturer = Some (PStr "HP") ∧
  (λ a, pa_field a manufacturer) <$> asset_by_id "a1" (push s) = Some (Some (PStr "HPE")).
Proof. vm_compute. done. Qed.
