(* ===== verification/Tokens.v ===== *)
(** * API tokens

    [src/src/services/apiTokenService.ts]: minting, revoking, deleting and
    verifying the bearer tokens of external callers, with the POST endpoint of
    [src/src/api/routes/apiTokens.ts] and the token middleware of
    [src/src/api/middleware/auth.ts].  The random source is the class
    [TokenBytes], Argon2 the class [AuthLib]. *)

From S2P Require Import Prelude JsColl Login MonitorSettings.

(** The [n]-th draw of [randomBytes(24)], as the string of its bytes. *)
Class TokenBytes := { randomBytes : nat → string }.

(** What Argon2 promises: its hashes are in PHC format and verify exactly the
    text they were made from. *)
Class ArgonLaws `{AuthLib} : Prop := {
  argonHash_format n p : Js.startsWith "$argon2" (argonHash n p) = true;
  argonVerify_hash n p q : argonVerify (argonHash n p) q = true ↔ p = q;
}.

(** ** Base64 *)

Definition B64_ALPHABET : string :=
  "ABCDEFGHIJKLMNOPQRSTUVWXYZabcdefghijklmnopqrstuvwxyz0123456789+/".
Definition b64_char (n : nat) : ascii := default "="%char (String.get n B64_ALPHABET).
Definition b64_group (a b c : nat) : string :=
  String (b64_char (a / 4)) (String (b64_char ((a mod 4) * 16 + b / 16))
    (String (b64_char ((b mod 16) * 4 + c / 64)) (String (b64_char (c mod 64)) ""))).

(** [buf.toString("base64")] *)
Fixpoint base64 (s : string) : string :=
  match s with
  | String a (String b (String c s')) =>
      b64_group (nat_of_ascii a) (nat_of_ascii b) (nat_of_ascii c) +:+ base64 s'
  | String a (String b "") => Js.take 3 (b64_group (nat_of_ascii a) (nat_of_ascii b) 0) +:+ "="
  | String a "" => Js.take 2 (b64_group (nat_of_ascii a) 0 0) +:+ "=="
  | "" => ""
  end.

(** ** Raw tokens *)

Definition KNOWN_SCOPES : list string := ["assets:quarantine"; "assets:read"].
Definition TOKEN_PREFIX : string := "polaris_".

(** [.replace(/[+/=]/g, "")] keeps these. *)
Definition token_char (c : ascii) : bool :=
  negb (Ascii.eqb c "+" || Ascii.eqb c "/" || Ascii.eqb c "=").

Definition raw_of (bytes : string) : string :=
  TOKEN_PREFIX +:+ Js.take 32 (Js.sfilter token_char (base64 bytes)).

(** The indexed lookup key, [polaris_xxxxxxxx]. *)
Definition token_prefix (raw : string) : string := Js.take (String.length TOKEN_PREFIX + 8) raw.

(** ** Rows and state *)

Record ApiTokenRow := mkApiToken {
  at_id : string;
  at_name : string;
  at_tokenHash : string;
  at_tokenPrefix : string;
  at_scopes : list string;
  at_integrationIds : list string;
  at_createdBy : string;
  at_createdAt : Z;
  at_expiresAt : option Z;
  at_lastUsedAt : option Z;
  at_lastUsedIp : option string;
  at_revokedAt : option Z;
  at_revokedBy : option string;
}.

Record AuthenticatedToken := mkAuthenticated {
  au_id : string;
  au_name : string;
  au_scopes : list string;
  au_integrationIds : list string;
}.

(** The row without its hash. *)
Record ApiTokenSummary := mkSummary {
  su_token : AuthenticatedToken;
  su_tokenPrefix : string;
  su_createdBy : string;
  su_createdAt : Z;
  su_expiresAt : option Z;
  su_lastUsedAt : option Z;
  su_lastUsedIp : option string;
  su_revokedAt : option Z;
  su_revokedBy : option string;
}.

Definition identity (r : ApiTokenRow) : AuthenticatedToken :=
  mkAuthenticated (at_id r) (at_name r) (at_scopes r) (at_integrationIds r).
Definition toSummary (r : ApiTokenRow) : ApiTokenSummary :=
  mkSummary (identity r) (at_tokenPrefix r) (at_createdBy r) (at_createdAt r) (at_expiresAt r)
    (at_lastUsedAt r) (at_lastUsedIp r) (at_revokedAt r) (at_revokedBy r).

Definition touch (now : Z) (ip : option string) (r : ApiTokenRow) : ApiTokenRow :=
  mkApiToken (at_id r) (at_name r) (at_tokenHash r) (at_tokenPrefix r) (at_scopes r) (at_integrationIds r)
    (at_createdBy r) (at_createdAt r) (at_expiresAt r) (Some now) ip (at_revokedAt r) (at_revokedBy r).
Definition stamp_revoked (now : Z) (by_ : string) (r : ApiTokenRow) : ApiTokenRow :=
  mkApiToken (at_id r) (at_name r) (at_tokenHash r) (at_tokenPrefix r) (at_scopes r) (at_integrationIds r)
    (at_createdBy r) (at_createdAt r) (at_expiresAt r) (at_lastUsedAt r) (at_lastUsedIp r) (Some now) (Some by_).

Record TokenState := mkTokenState {
  tk_rows : list ApiTokenRow;
  tk_integrations : list (string * string);
  tk_now : Z;
  tk_draws : nat;
  tk_nextId : nat;
}.
Definition set_rows (l : list ApiTokenRow) (s : TokenState) : TokenState :=
  mkTokenState l (tk_integrations s) (tk_now s) (tk_draws s) (tk_nextId s).
Definition update_token (id : string) (f : ApiTokenRow → ApiTokenRow) (s : TokenState) : TokenState :=
  set_rows ((λ r, if String.eqb (at_id r) id then f r else r) <$> tk_rows s) s.

Definition find_token (p : ApiTokenRow → bool) (s : TokenState) : option ApiTokenRow := List.find p (tk_rows s).
Definition has_id (id : string) (r : ApiTokenRow) : bool := String.eqb (at_id r) id.

Record CreateTokenInput := mkCreateToken {
  ct_name : string;
  ct_scopes : list string;
  ct_integrationIds : option (list string);
  ct_expiresAt : option Z;
  ct_createdBy : string;
}.

Definition quoted (s : string) : string :=
  let q := String (Ascii.ascii_of_nat 34) "" in q +:+ s +:+ q.

(** The duplicates of [Array.from(new Set(l))] go. *)
Definition unique (l : list string) : list string := foldl (λ acc x, sadd x acc) [] l.

Definition QUARANTINE_INTEGRATION_TYPES : list string := ["fortimanager"; "fortigate"].

Section tokens.
Context `{AuthLib} `{TokenBytes}.
Notation T := (M TokenState).

Definition next_draw : T nat := λ s,
  (mkTokenState (tk_rows s) (tk_integrations s) (tk_now s) (S (tk_draws s)) (tk_nextId s), Ok (tk_draws s)).

Definition generateRawToken : T string := let! n := next_draw in hret (raw_of (randomBytes n)).
Definition hashPassword (plaintext : string) : T string := let! n := next_draw in hret (argonHash n plaintext).

Definition validateScopes (scopes : list string) : result unit :=
  if bool_decide (scopes = []) then Throw (AppError 400 "Token must have at least one scope") else
  let unknown := List.filter (λ x, negb (bool_decide (x ∈ KNOWN_SCOPES))) scopes in
  if bool_decide (unknown = []) then Ok tt
  else Throw (AppError 400 ("Unknown scope(s): " +:+ Js.join ", " unknown +:+ ". Valid scopes: " +:+
         Js.join ", " KNOWN_SCOPES)).

Definition integration_type (s : TokenState) (id : string) : option string := mget id (tk_integrations s).

Definition validateIntegrationIds (scopes integrationIds : list string) : T (list string) :=
  if negb (bool_decide ("assets:quarantine"%string ∈ scopes)) then hret [] else
  throw_if (bool_decide (integrationIds = []))
    (AppError 400 "Tokens with the assets:quarantine scope must select at least one FortiManager or FortiGate integration") ;!
  let ids := unique integrationIds in
  let! s := hget in
  let missing := List.filter (λ id, match integration_type s id with None => true | Some _ => false end) ids in
  throw_if (negb (bool_decide (missing = []))) (AppError 400 ("Unknown integration id(s): " +:+ Js.join ", " missing)) ;!
  let wrongType := List.filter (λ id,
    negb (bool_decide (Js.oor (integration_type s id) "" ∈ QUARANTINE_INTEGRATION_TYPES))) ids in
  throw_if (negb (bool_decide (wrongType = [])))
    (AppError 400 ("Integration(s) " +:+ Js.join ", " wrongType +:+
       " are not FortiManager or FortiGate — quarantine push only supports those types")) ;!
  hret ids.

(** [prisma.apiToken.create]; the name is unique. *)
Definition insert_token (mk : string → Z → ApiTokenRow) : T ApiTokenRow :=
  let! s := hget in
  let row := mk (pretty (tk_nextId s)) (tk_now s) in
  throw_if (existsb (λ r, String.eqb (at_name r) (at_name row)) (tk_rows s)) (PrismaError "P2002") ;!
  hput (mkTokenState (tk_rows s ++ [row]) (tk_integrations s) (tk_now s) (tk_draws s) (S (tk_nextId s))) ;!
  hret row.

Definition createToken (input : CreateTokenInput) : T (ApiTokenSummary * string) :=
  let name := Js.trim (ct_name input) in
  throw_if (negb (Js.truthy name)) (AppError 400 "Token name is required") ;!
  hlift (validateScopes (ct_scopes input)) ;!
  let! existing := hgets (find_token (λ r, String.eqb (at_name r) name)) in
  throw_if (bool_decide (is_Some existing))
    (AppError 409 ("A token named " +:+ quoted (ct_name input) +:+ " already exists")) ;!
  let! integrationIds := validateIntegrationIds (ct_scopes input) (default [] (ct_integrationIds input)) in
  let! raw := generateRawToken in
  let! tokenHash := hashPassword raw in
  let! row := insert_token (λ id now, mkApiToken id name tokenHash (token_prefix raw) (ct_scopes input)
      integrationIds (ct_createdBy input) now (ct_expiresAt input) None None None None) in
  hret (toSummary row, raw).

Definition revokeToken (id revokedBy : string) : T unit :=
  let! row := hgets (find_token (has_id id)) in
  match row with
  | None => hthrow (AppError 404 "Token not found")
  | Some row =>
      throw_if (bool_decide (is_Some (at_revokedAt row))) (AppError 409 "Token is already revoked") ;!
      hmodify (λ s, update_token id (stamp_revoked (tk_now s) revokedBy) s)
  end.

Definition deleteToken (id : string) : T unit :=
  let! row := hgets (find_token (has_id id)) in
  match row with
  | None => hthrow (AppError 404 "Token not found")
  | Some _ => hmodify (λ s, set_rows (List.filter (λ r, negb (has_id id r)) (tk_rows s)) s)
  end.

(** The [where] clause of [verifyToken]. *)
Definition candidate (now : Z) (raw : string) (r : ApiTokenRow) : bool :=
  bool_decide (at_revokedAt r = None) &&
  match at_expiresAt r with None => true | Some t => now <? t end &&
  String.eqb (at_tokenPrefix r) (token_prefix raw).

Definition matches (raw : string) (r : ApiTokenRow) : bool := (verifyPassword raw (Some (at_tokenHash r))).1.

Definition verifyToken (rawToken : string) (callerIp : option string) : T (option AuthenticatedToken) :=
  if negb (Js.truthy rawToken) || negb (Js.startsWith TOKEN_PREFIX rawToken) then hret None else
  let! candidates := hgets (λ s, List.filter (candidate (tk_now s) rawToken) (tk_rows s)) in
  match List.find (matches rawToken) candidates with
  | None => hret None
  | Some row =>
      hmodify (λ s, update_token (at_id row) (touch (tk_now s) callerIp) s) ;!
      hret (Some (identity row))
  end.

(** POST /api/v1/api-tokens *)
Definition postApiToken `{ZodLib} (input : CreateTokenInput) : T (ApiTokenSummary * string) :=
  throw_if (negb (Js.truthy (ct_name input)) || (80 <? String.length (ct_name input))%nat ||
            bool_decide (ct_scopes input = []) ||
            negb (forallb (λ x, bool_decide (x ∈ KNOWN_SCOPES)) (ct_scopes input)) ||
            negb (forallb isUuid (default [] (ct_integrationIds input)))) (JsError "ZodError") ;!
  let! s := hget in
  throw_if (match ct_expiresAt input with Some t => t <=? tk_now s | None => false end)
    (AppError 400 "expiresAt must be in the future") ;!
  createToken input.

(** ** The middleware *)

(** [/^Bearer\s+(\S+)$/i] on the [Authorization] header. *)
Definition extractBearerToken (authorization : option string) : option string :=
  match authorization with
  | None => None
  | Some auth =>
      if negb (Js.startsWith "bearer" (Js.toLowerCase auth)) then None else
      let rest := Js.drop 6 auth in
      let tok := Js.trimStart rest in
      if negb (String.eqb rest tok) && Js.truthy tok && Js.sforallb (λ c, negb (Js.is_space c)) tok
      then Some tok else None
  end.

(** [req.apiToken] after the middleware; an error counts as no token. *)
Definition attachApiToken (authorization : option string) (ip : option string) : T (option AuthenticatedToken) :=
  match extractBearerToken authorization with
  | None => hret None
  | Some raw => hcatch (verifyToken raw ip) (λ _, hret None)
  end.

(** [requireAuth]: a session's user or a token. *)
Definition requireAuth (userId : option string) (apiToken : option AuthenticatedToken) : result unit :=
  if Js.otruthy userId || bool_decide (is_Some apiToken) then Ok tt
  else Throw (AppError 401 "Unauthorized — please log in").
End tokens.

(** ** What a caller may rely on: a registry of grants

    An observer who sees the answers of the endpoints only keeps, per token, the
    raw text handed out, its expiry, and whether it was revoked. *)

Record Grant := mkGrant {
  gr_raw : string;
  gr_identity : AuthenticatedToken;
  gr_expiresAt : option Z;
  gr_revoked : bool;
}.
Notation Registry := (gmap string Grant).

Inductive TokenOp :=
  | OpPost (input : CreateTokenInput)
  | OpRevoke (id by_ : string)
  | OpDelete (id : string)
  | OpVerify (raw : string) (ip : option string)
  | OpWait (ms : Z).

Inductive TokenEvent :=
  | Minted (t : ApiTokenSummary) (raw : string)
  | Revoked (id : string)
  | Deleted (id : string)
  | Nothing.

Definition book (e : TokenEvent) (g : Registry) : Registry :=
  match e with
  | Minted t raw => <[au_id (su_token t) := mkGrant raw (su_token t) (su_expiresAt t) false]> g
  | Revoked id => alter (λ x, mkGrant (gr_raw x) (gr_identity x) (gr_expiresAt x) true) id g
  | Deleted id => delete id g
  | Nothing => g
  end.

(** The token a raw text stands for at [now]. *)
Definition accepts (g : Registry) (now : Z) (raw : string) (t : AuthenticatedToken) : Prop :=
  ∃ id x, g !! id = Some x ∧ gr_raw x = raw ∧ gr_identity x = t ∧ gr_revoked x = false ∧
    match gr_expiresAt x with None => True | Some e => now < e end.

Section token_proofs.
Context `{AuthLib} `{TokenBytes} `{ZodLib}.

Definition token_step (op : TokenOp) (s : TokenState) : TokenState * TokenEvent :=
  match op with
  | OpPost input =>
      match postApiToken input s with
      | (s', Ok (t, raw)) => (s', Minted t raw)
      | (s', Throw _) => (s', Nothing)
      end
  | OpRevoke id by_ =>
      match revokeToken id by_ s with (s', Ok _) => (s', Revoked id) | (s', Throw _) => (s', Nothing) end
  | OpDelete id =>
      match deleteToken id s with (s', Ok _) => (s', Deleted id) | (s', Throw _) => (s', Nothing) end
  | OpVerify raw ip => ((verifyToken raw ip s).1, Nothing)
  | OpWait ms => (mkTokenState (tk_rows s) (tk_integrations s) (tk_now s + ms) (tk_draws s) (tk_nextId s), Nothing)
  end.

Definition token_run (ops : list TokenOp) (sg : TokenState * Registry) : TokenState * Registry :=
  foldl (λ sg op, let '(s', e) := token_step op sg.1 in (s', book e sg.2)) sg ops.

Definition nth_token (n : nat) : string := raw_of (randomBytes n).

(** The first [k] draws make different tokens. *)
Definition distinct_draws (k : nat) : Prop :=
  ∀ n m, (n < k)%nat → (m < k)%nat → nth_token n = nth_token m → n = m.

Definition row_rel (k : nat) (g : Registry) (r : ApiTokenRow) : Prop :=
  ∃ n salt, (n < k)%nat ∧ at_tokenHash r = argonHash salt (nth_token n) ∧
    at_tokenPrefix r = token_prefix (nth_token n) ∧
    g !! at_id r = Some (mkGrant (nth_token n) (identity r) (at_expiresAt r) (bool_decide (is_Some (at_revokedAt r)))).

Record tokens_ok (s : TokenState) (g : Registry) : Prop := mkTokensOk {
  tok_rows : ∀ r, r ∈ tk_rows s → row_rel (tk_draws s) g r;
  tok_ids : NoDup (at_id <$> tk_rows s);
  tok_fresh : ∀ r n, r ∈ tk_rows s → (tk_nextId s ≤ n)%nat → at_id r ≠ pretty n;
  tok_dom : ∀ id x, g !! id = Some x → ∃ r, r ∈ tk_rows s ∧ at_id r = id;
  tok_raw : ∀ i j x y, g !! i = Some x → g !! j = Some y → gr_raw x = gr_raw y → i = j;
}.

Lemma row_rel_mono k k' g r : (k ≤ k')%nat → row_rel k g r → row_rel k' g r.
Proof. intros ? (n & m & ? & ?). exists n, m. split; [lia|done]. Qed.

Lemma tokens_ok_frame s s' g :
  tk_rows s' = tk_rows s → tk_nextId s' = tk_nextId s → (tk_draws s ≤ tk_draws s')%nat →
  tokens_ok s g → tokens_ok s' g.
Proof.
  intros Hr Hn Hd [A B C D E]. constructor; rewrite ?Hr, ?Hn; try done.
  intros r Hin. eapply row_rel_mono; [done|]. auto.
Qed.

(** *** Minting *)

Lemma validateIntegrationIds_readonly scopes ids : readonly (validateIntegrationIds scopes ids).
Proof. unfold validateIntegrationIds. solve_frame. Qed.

Lemma insert_token_run mk s s' r :
  insert_token mk s = (s', r) →
  (∃ e, r = Throw e ∧ s' = s) ∨
  (r = Ok (mk (pretty (tk_nextId s)) (tk_now s)) ∧
   s' = mkTokenState (tk_rows s ++ [mk (pretty (tk_nextId s)) (tk_now s)]) (tk_integrations s) (tk_now s)
          (tk_draws s) (S (tk_nextId s))).
Proof.
  unfold insert_token. hred. destruct (existsb _ _); hred; intros [= <- <-]; [left|right]; eauto.
Qed.

Definition minted_row (id : string) (now : Z) (input : CreateTokenInput) (ints : list string) (salt n : nat) : ApiTokenRow :=
  mkApiToken id (Js.trim (ct_name input)) (argonHash salt (nth_token n)) (token_prefix (nth_token n)) (ct_scopes input)
    ints (ct_createdBy input) now (ct_expiresAt input) None None None None.

Lemma createToken_run input s s' r :
  createToken input s = (s', r) →
  (∃ e, r = Throw e ∧ tk_rows s' = tk_rows s ∧ tk_nextId s' = tk_nextId s ∧ (tk_draws s ≤ tk_draws s')%nat) ∨
  (∃ ints, let row := minted_row (pretty (tk_nextId s)) (tk_now s) input ints (S (tk_draws s)) (tk_draws s) in
     r = Ok (toSummary row, nth_token (tk_draws s)) ∧
     s' = mkTokenState (tk_rows s ++ [row]) (tk_integrations s) (tk_now s) (S (S (tk_draws s))) (S (tk_nextId s))).
Proof.
  unfold createToken. intros Hrun.
  unfold hbind at 1 in Hrun. destruct (hguard _ _ s) as [s1 [[]|e]] eqn:Hg; pose proof (readonly_hguard _ _ _ _ _ Hg) as ->;
    [|injection Hrun as <- <-; left; eauto 10].
  unfold hbind at 1 in Hrun. destruct (hlift _ s) as [s1 [[]|e]] eqn:Hl; pose proof (readonly_hlift _ _ _ _ Hl) as ->;
    [|injection Hrun as <- <-; left; eauto 10].
  unfold hbind at 1, hgets at 1 in Hrun. cbv beta iota in Hrun.
  unfold hbind at 1 in Hrun. destruct (hguard _ _ s) as [s1 [[]|e]] eqn:Hg2; pose proof (readonly_hguard _ _ _ _ _ Hg2) as ->;
    [|injection Hrun as <- <-; left; eauto 10].
  unfold hbind at 1 in Hrun.
  destruct (validateIntegrationIds _ _ s) as [s1 [ints|e]] eqn:Hv; pose proof (validateIntegrationIds_readonly _ _ _ _ _ Hv) as ->;
    [|injection Hrun as <- <-; left; eauto 10].
  unfold generateRawToken, hashPassword, next_draw in Hrun. revert Hrun. hred.
  cbn [tk_draws tk_rows tk_integrations tk_now tk_nextId].
  unfold hbind at 1. match goal with |- context [insert_token ?mk ?s0] => destruct (insert_token mk s0) as [s2 r2] eqn:Hi end. apply insert_token_run in Hi as [(e & -> & ->)|[-> ->]];
    intros [= <- <-]; cbn [tk_draws tk_rows tk_integrations tk_now tk_nextId].
  - left. eexists. cbn. split_and!; [done..|lia].
  - right. by exists ints.
Qed.

Lemma postApiToken_run input s s' r :
  postApiToken input s = (s', r) → s' = s ∧ is_ok r = false ∨ createToken input s = (s', r).
Proof.
  unfold postApiToken. unfold hbind at 1, hguard at 1. destruct (_ || _); [intros [= <- <-]; by left|].
  cbv beta iota delta [hret]. unfold hbind at 1, hget. cbv beta iota. unfold hbind at 1, hguard at 1.
  match goal with |- context [if ?b then _ else _] => destruct b end; [intros [= <- <-]; by left|]. by right.
Qed.

Lemma mint_ok s g input ints (k := tk_draws s)
    (row := minted_row (pretty (tk_nextId s)) (tk_now s) input ints (S k) k) :
  distinct_draws (S k) → tokens_ok s g →
  tokens_ok (mkTokenState (tk_rows s ++ [row]) (tk_integrations s) (tk_now s) (S (S k)) (S (tk_nextId s)))
    (book (Minted (toSummary row) (nth_token k)) g).
Proof.
  intros Hd [Hrows Hids Hfr Hdom Hraw].
  assert (g !! pretty (tk_nextId s) = None) as Hnew.
  { destruct (g !! pretty (tk_nextId s)) as [x|] eqn:Hx; [|done].
    apply Hdom in Hx as (r & Hr & He). exfalso. by apply (Hfr r (tk_nextId s) Hr). }
  assert (∀ id x, g !! id = Some x → ∃ n, (n < k)%nat ∧ gr_raw x = nth_token n) as Hold.
  { intros id x Hx. destruct (Hdom _ _ Hx) as (r & Hr & <-).
    destruct (Hrows r Hr) as (n & m & Hn & _ & _ & Hg). exists n. split; [done|]. by simplify_eq. }
  assert (∀ id x, g !! id = Some x → gr_raw x ≠ nth_token k) as Hne.
  { intros id x Hx He. destruct (Hold _ _ Hx) as (n & Hn & He'). rewrite He' in He.
    apply Hd in He; lia. }
  constructor; cbn [tk_rows tk_draws tk_nextId book toSummary su_token su_expiresAt identity au_id at_id].
  - intros r [Hr| ->%list_elem_of_singleton]%elem_of_app.
    + destruct (Hrows r Hr) as (n & m & Hn & Hh & Hp & Hg). exists n, m.
      split_and!; [lia|done..|]. rewrite lookup_insert_ne; [done|]. intros He.
      by apply (Hfr r (tk_nextId s) Hr).
    + exists k, (S k). cbn. split_and!; [lia|done..|]. by rewrite lookup_insert_eq.
  - rewrite fmap_app. apply NoDup_app. split_and!; [done| |apply NoDup_singleton].
    intros id (r & -> & Hr)%list_elem_of_fmap He%list_elem_of_singleton. by apply (Hfr r (tk_nextId s) Hr).
  - intros r n [Hr| ->%list_elem_of_singleton]%elem_of_app Hn; [apply Hfr; [done|lia]|].
    intros He. change (pretty (tk_nextId s) = pretty n) in He. apply (inj pretty) in He. lia.
  - intros id x. rewrite lookup_insert_Some. intros [[<- <-]|[_ Hx]].
    + exists row. split; [|done]. apply elem_of_app. right. by apply list_elem_of_singleton.
    + destruct (Hdom _ _ Hx) as (r & Hr & <-). exists r. split; [|done]. apply elem_of_app. by left.
  - intros i j x y. rewrite !lookup_insert_Some. intros [[<- <-]|[_ Hx]] [[<- <-]|[_ Hy]] He; [done|..].
    + cbn in He. by destruct (Hne _ _ Hy).
    + cbn in He. by destruct (Hne _ _ Hx).
    + by eapply Hraw.
Qed.

(** *** Writes to one row *)

Lemma find_token_some p s r : find_token p s = Some r → r ∈ tk_rows s ∧ p r = true.
Proof. intros [?%list_elem_of_In ?]%find_some. done. Qed.

(** A write that changes neither the secret nor the identity. *)
Lemma update_ok id f (h : Grant → Grant) s g :
  (∀ r, at_id (f r) = at_id r ∧ at_tokenHash (f r) = at_tokenHash r ∧ at_tokenPrefix (f r) = at_tokenPrefix r) →
  (∀ x, gr_raw (h x) = gr_raw x) →
  (∀ r raw, at_id r = id →
    h (mkGrant raw (identity r) (at_expiresAt r) (bool_decide (is_Some (at_revokedAt r)))) =
    mkGrant raw (identity (f r)) (at_expiresAt (f r)) (bool_decide (is_Some (at_revokedAt (f r))))) →
  tokens_ok s g → tokens_ok (update_token id f s) (alter h id g).
Proof.
  intros Hf Hh Hfh [Hrows Hids Hfr Hdom Hraw].
  assert (∀ r', r' ∈ tk_rows (update_token id f s) →
    ∃ r, r ∈ tk_rows s ∧ at_id r' = at_id r ∧ r' = if String.eqb (at_id r) id then f r else r) as Hin.
  { intros r' (r & -> & Hr)%list_elem_of_fmap. exists r. split_and!; [done| |done].
    destruct (String.eqb _ _); [apply Hf|done]. }
  constructor; cbn [update_token set_rows tk_draws tk_nextId].
  - intros r' (r & Hr & _ & ->)%Hin. destruct (Hrows r Hr) as (n & m & Hn & Hha & Hp & Hg). exists n, m.
    destruct (String.eqb_spec (at_id r) id) as [He|He].
    + destruct (Hf r) as (-> & -> & ->). split_and!; [done..|]. rewrite He, lookup_alter_eq, <-He, Hg.
      cbn. by rewrite Hfh.
    + split_and!; [done..|]. by rewrite lookup_alter_ne.
  - cbn. rewrite <-list_fmap_compose. erewrite list_fmap_ext; [exact Hids|]. intros i r _. cbn.
    destruct (String.eqb _ _); [apply Hf|done].
  - intros r' n (r & Hr & -> & _)%Hin. by apply Hfr.
  - intros j x. rewrite lookup_alter_Some. intros [(<- & y & Hy & ->)|[_ Hx]];
      [destruct (Hdom _ _ Hy) as (r & Hr & He)|destruct (Hdom _ _ Hx) as (r & Hr & He)];
      (eexists; split; [by apply list_elem_of_fmap_2|]; cbn; destruct (String.eqb _ _); [by rewrite (proj1 (Hf r))|done]).
  - intros i j x y Hx Hy He.
    assert (∀ i x, alter h id g !! i = Some x → ∃ x', g !! i = Some x' ∧ gr_raw x = gr_raw x') as Hal.
    { intros i' x'. rewrite lookup_alter_Some. intros [(<- & z & Hz & ->)|[_ Hz]]; [|by eauto].
      exists z. by rewrite Hh. }
    destruct (Hal _ _ Hx) as (x' & Hx' & Ex), (Hal _ _ Hy) as (y' & Hy' & Ey). eapply Hraw; [done..|congruence].
Qed.

Lemma delete_ok id s g :
  tokens_ok s g → tokens_ok (set_rows (List.filter (λ r, negb (has_id id r)) (tk_rows s)) s) (delete id g).
Proof.
  intros [Hrows Hids Hfr Hdom Hraw].
  assert (∀ r, r ∈ List.filter (λ r, negb (has_id id r)) (tk_rows s) ↔ r ∈ tk_rows s ∧ at_id r ≠ id) as Hin.
  { intros r. rewrite !list_elem_of_In, filter_In, negb_true_iff. unfold has_id. by rewrite String.eqb_neq. }
  constructor; cbn [set_rows tk_rows tk_draws tk_nextId].
  - intros r [Hr Hne]%Hin. destruct (Hrows r Hr) as (n & m & ? & ? & ? & Hg). exists n, m.
    split_and!; [done..|]. by rewrite lookup_delete_ne.
  - clear -Hids. induction (tk_rows s) as [|r l IH]; [done|]. apply NoDup_cons in Hids as [Hr Hl]. cbn [List.filter].
    destruct (negb _); [|by apply IH]. rewrite fmap_cons. apply NoDup_cons. split; [|by apply IH].
    intros (x & He & Hx)%list_elem_of_fmap. apply Hr. rewrite He. apply list_elem_of_fmap_2.
    rewrite list_elem_of_In in *. by apply filter_In in Hx as [? _].
  - intros r n [Hr _]%Hin. by apply Hfr.
  - intros i x. rewrite lookup_delete_Some. intros [Hne Hx]. destruct (Hdom _ _ Hx) as (r & Hr & <-).
    exists r. split; [|done]. apply Hin. done.
  - intros i j x y. rewrite !lookup_delete_Some. intros [_ ?] [_ ?]. by eapply Hraw.
Qed.

Lemma revokeToken_run id by_ s s' r :
  revokeToken id by_ s = (s', r) →
  s' = s ∧ is_ok r = false ∨ r = Ok tt ∧ s' = update_token id (stamp_revoked (tk_now s) by_) s.
Proof.
  unfold revokeToken. hred. destruct (find_token _ _) as [row|]; hred; [|intros [= <- <-]; by left].
  destruct (bool_decide _); hred; intros [= <- <-]; [by left|by right].
Qed.

Lemma deleteToken_run id s s' r :
  deleteToken id s = (s', r) →
  s' = s ∧ is_ok r = false ∨
  r = Ok tt ∧ s' = set_rows (List.filter (λ r, negb (has_id id r)) (tk_rows s)) s.
Proof.
  unfold deleteToken. hred. destruct (find_token _ _) as [row|]; hred; intros [= <- <-]; [by right|by left].
Qed.

Lemma update_token_id (g : Registry) id : alter (λ x, x) id g = g.
Proof. apply map_eq. intros j. destruct (decide (id = j)) as [->|]; rewrite ?lookup_alter_eq, ?lookup_alter_ne by done; [|done]. by destruct (g !! j). Qed.

Lemma verifyToken_ok raw ip s g : tokens_ok s g → tokens_ok (verifyToken raw ip s).1 g.
Proof.
  intros Hok. unfold verifyToken. destruct (_ || _); [done|]. hred. destruct (List.find _ _) as [row|]; [|done].
  hred. cbn [fst]. rewrite <-(update_token_id g (at_id row)). by apply update_ok.
Qed.

(** *** Every operation *)

Lemma token_step_draws op s : (tk_draws s ≤ tk_draws (token_step op s).1)%nat.
Proof.
  destruct op as [input|id by_|id|raw ip|ms]; cbn [token_step]; [| | | |done].
  - destruct (postApiToken input s) as [s' r] eqn:Hr. transitivity (tk_draws s'); [|by destruct r as [[? ?]|?]].
    apply postApiToken_run in Hr as [[-> _]|Hr]; [done|].
    apply createToken_run in Hr as [(e & _ & _ & _ & ?)|(ints & _ & ->)]; cbn; lia.
  - destruct (revokeToken id by_ s) as [s' r] eqn:Hr. transitivity (tk_draws s'); [|by destruct r].
    by apply revokeToken_run in Hr as [[-> _]|[_ ->]].
  - destruct (deleteToken id s) as [s' r] eqn:Hr. transitivity (tk_draws s'); [|by destruct r].
    by apply deleteToken_run in Hr as [[-> _]|[_ ->]].
  - unfold verifyToken. destruct (_ || _); [done|]. hred. by destruct (List.find _ _).
Qed.

Lemma token_step_ok op s g s' e :
  token_step op s = (s', e) → distinct_draws (tk_draws s') → tokens_ok s g → tokens_ok s' (book e g).
Proof.
  destruct op as [input|id by_|id|raw ip|ms]; cbn [token_step].
  - destruct (postApiToken input s) as [s1 r] eqn:Hr. apply postApiToken_run in Hr as [[-> Hr]|Hr].
    { destruct r as [|]; [done|]. by intros [= <- <-]. }
    apply createToken_run in Hr as [(e' & -> & Hrows & Hn & Hd)|(ints & -> & ->)].
    + intros [= <- <-] _ Hok. by eapply tokens_ok_frame.
    + intros [= <- <-] Hd Hok. apply mint_ok; [|done]. intros n m ? ?. apply Hd; cbn; lia.
  - destruct (revokeToken id by_ s) as [s1 r] eqn:Hr. apply revokeToken_run in Hr as [[-> Hr]|[-> ->]].
    { destruct r; [done|]. by intros [= <- <-]. }
    intros [= <- <-] _ Hok. by apply update_ok.
  - destruct (deleteToken id s) as [s1 r] eqn:Hr. apply deleteToken_run in Hr as [[-> Hr]|[-> ->]].
    { destruct r; [done|]. by intros [= <- <-]. }
    intros [= <- <-] _ Hok. by apply delete_ok.
  - intros [= <- <-] _ Hok. by apply verifyToken_ok.
  - intros [= <- <-] _ Hok. by eapply tokens_ok_frame; last exact Hok.
Qed.

Lemma token_run_draws ops s g : (tk_draws s ≤ tk_draws (token_run ops (s, g)).1)%nat.
Proof.
  revert s g. induction ops as [|op ops IH]; intros s g; [done|]. cbn [token_run foldl fst snd].
  pose proof (token_step_draws op s) as Hd. destruct (token_step op s) as [s' e].
  etransitivity; [exact Hd|]. apply IH.
Qed.

Lemma token_run_ok ops s g :
  distinct_draws (tk_draws (token_run ops (s, g)).1) → tokens_ok s g →
  tokens_ok (token_run ops (s, g)).1 (token_run ops (s, g)).2.
Proof.
  revert s g. induction ops as [|op ops IH]; intros s g Hd Hok; [done|].
  revert Hd. cbn [token_run foldl fst snd]. destruct (token_step op s) as [s' e] eqn:Hst. intros Hd.
  apply IH; [done|]. eapply token_step_ok; [done| |done].
  intros n m Hn Hm. pose proof (token_run_draws ops s' (book e g)). apply Hd; unfold token_run in *; lia.
Qed.

(** *** Verification *)

Context `{!ArgonLaws}.

Lemma matches_hash raw r salt p :
  at_tokenHash r = argonHash salt p → matches raw r = true ↔ p = raw.
Proof.
  intros He. unfold matches, verifyPassword. rewrite He, argonHash_format.
  destruct (Js.truthy (argonHash salt p)) eqn:Ht; cbn; [apply argonVerify_hash|].
  pose proof (argonHash_format salt p) as Hf. by destruct (argonHash salt p).
Qed.

Lemma candidate_live s g r raw :
  row_rel (tk_draws s) g r → candidate (tk_now s) raw r = true → matches raw r = true →
  accepts g (tk_now s) raw (identity r).
Proof.
  intros (n & m & Hn & Hh & Hp & Hg) Hc Hm. apply (matches_hash raw r m _ Hh) in Hm. unfold candidate in Hc.
  rewrite !andb_true_iff, bool_decide_eq_true in Hc. destruct Hc as [[Hrev Hexp] _].
  exists (at_id r), (mkGrant (nth_token n) (identity r) (at_expiresAt r) (bool_decide (is_Some (at_revokedAt r)))).
  cbn [gr_raw gr_identity gr_revoked gr_expiresAt]. split_and!; [done..| |].
  - apply bool_decide_eq_false. rewrite Hrev. by intros [? ?].
  - destruct (at_expiresAt r); [lia|done].
Qed.

Lemma verifyToken_registry s g raw ip :
  tokens_ok s g →
  ∃ r, (verifyToken raw ip s).2 = Ok r ∧ ∀ t, r = Some t ↔ accepts g (tk_now s) raw t.
Proof.
  intros [Hrows _ _ Hdom Hraw].
  assert (∀ t, accepts g (tk_now s) raw t → ∃ r, r ∈ tk_rows s ∧ identity r = t ∧
    candidate (tk_now s) raw r = true ∧ matches raw r = true ∧ Js.startsWith TOKEN_PREFIX raw = true) as Hacc.
  { intros t (id & x & Hx & Hxr & Hxi & Hxv & Hxe). destruct (Hdom _ _ Hx) as (r & Hr & <-).
    destruct (Hrows r Hr) as (n & m & Hn & Hh & Hp & Hg). rewrite Hx in Hg. injection Hg as ->.
    cbn [gr_raw gr_identity gr_revoked gr_expiresAt] in *.
    exists r. split_and!; [done..| | |].
    - unfold candidate. rewrite Hp, Hxr, String.eqb_refl, andb_true_r. apply andb_true_iff. split.
      + apply bool_decide_eq_true. apply bool_decide_eq_false in Hxv. destruct (at_revokedAt r); [|done].
        destruct Hxv. by eexists.
      + destruct (at_expiresAt r); [lia|done].
    - by apply (matches_hash raw r m _ Hh).
    - rewrite <-Hxr. apply startsWith_append. }
  unfold verifyToken. destruct (negb (Js.truthy raw) || negb (Js.startsWith TOKEN_PREFIX raw)) eqn:Hb.
  { exists None. split; [done|]. intros t. split; [done|]. intros (r & _ & _ & _ & _ & Hs)%Hacc.
    rewrite Hs, orb_false_r in Hb. by destruct raw. }
  hred. destruct (List.find _ _) as [row|] eqn:Hf.
  - apply find_some in Hf as [[Hin Hc]%filter_In Hm]. apply list_elem_of_In in Hin.
    exists (Some (identity row)). split; [done|]. intros t.
    pose proof (candidate_live _ _ _ _ (Hrows _ Hin) Hc Hm) as Hlive. split; [by intros [= <-]|].
    intros (id & x & Hx & Hxr & <- & _). destruct Hlive as (id' & x' & Hx' & Hxr' & Hid' & _).
    assert (id = id') as <- by (eapply Hraw; [done..|congruence]). rewrite <-Hid'. congruence.
  - exists None. split; [done|]. intros t. split; [done|]. intros (r & Hr & _ & Hc & Hm & _)%Hacc.
    apply list_elem_of_In in Hr. rewrite (find_none _ _ Hf r) in Hm; [done|]. by apply filter_In.
Qed.

(** C33: A bearer token is accepted exactly while its grant stands.  After any
    sequence of POST, revoke, delete and verify calls, [verifyToken] answers with
    the identity under which the presented text was minted if that token was
    neither revoked nor deleted and has not expired, and with null for every
    other text; it never throws.  The registry is built from the answers of the
    endpoints alone. *)
Theorem verifyToken_refines_registry ops integrations now0 raw ip s g :
  token_run ops (mkTokenState [] integrations now0 0 0, ∅) = (s, g) → distinct_draws (tk_draws s) →
  ∃ r, (verifyToken raw ip s).2 = Ok r ∧ ∀ t, r = Some t ↔ accepts g (tk_now s) raw t.
Proof.
  intros Hrun Hd. apply verifyToken_registry.
  pose proof (token_run_ok ops (mkTokenState [] integrations now0 0 0) ∅) as Hok. rewrite Hrun in Hok.
  apply Hok; [done|]. constructor; cbn [tk_rows tk_draws tk_nextId].
  - by intros ? ?%elem_of_nil.
  - constructor.
  - by intros ? ? ?%elem_of_nil.
  - intros ? ?. by rewrite lookup_empty.
  - intros ? ? ? ?. by rewrite lookup_empty.
Qed.
End token_proofs.

(** ** The text of a token *)

Definition base62 (c : ascii) : bool :=
  Js.is_digit c || in_range "a" "z" c || in_range "A" "Z" c.

Lemma sfilter_forallb f g s :
  (∀ c, f c = true → g c = true) → Js.sforallb g (Js.sfilter f s) = true.
Proof.
  intros Hfg. induction s as [|c s IH]; [done|]. cbn. destruct (f c) eqn:Hc; [|done]. cbn. by rewrite Hfg, IH.
Qed.
Lemma take_forallb n f s : Js.sforallb f s = true → Js.sforallb f (Js.take n s) = true.
Proof.
  revert s. induction n as [|n IH]; intros s; [by destruct s|]. destruct s as [|c s]; [done|]. cbn.
  rewrite !andb_true_iff. intros [-> Hs]. by rewrite IH.
Qed.

Lemma get_forallb f s n c : Js.sforallb f s = true → String.get n s = Some c → f c = true.
Proof.
  revert n. induction s as [|d s IH]; intros n; [by destruct n|]. cbn. rewrite andb_true_iff. intros [Hd Hs].
  destruct n as [|n]; [by intros [= <-]|by apply IH].
Qed.

Definition b64_ok (c : ascii) : bool := base62 c || negb (token_char c).
Lemma b64_char_ok n : b64_ok (b64_char n) = true.
Proof.
  unfold b64_char. destruct (String.get n B64_ALPHABET) as [c|] eqn:Hg; [|done].
  refine (get_forallb b64_ok B64_ALPHABET n c _ Hg). by vm_compute.
Qed.

Lemma string_ind3 (P : string → Prop) :
  P "" → (∀ a, P (String a "")) → (∀ a b, P (String a (String b ""))) →
  (∀ a b c s, P s → P (String a (String b (String c s)))) → ∀ s, P s.
Proof.
  intros H0 H1 H2 H3. fix IH 1. intros [|a [|b [|c s]]]; [done|apply H1|apply H2|]. apply H3, IH.
Qed.

Lemma b64_group_ok a b c : Js.sforallb b64_ok (b64_group a b c) = true.
Proof. unfold b64_group. cbn [Js.sforallb]. by rewrite !b64_char_ok. Qed.

Lemma base64_ok s : Js.sforallb b64_ok (base64 s) = true.
Proof.
  induction s as [|a|a b|a b c s IH] using string_ind3; [done|..]; cbn [base64];
    rewrite sforallb_append; rewrite ?(take_forallb _ _ _ (b64_group_ok _ _ _)); [done..|].
  by rewrite b64_group_ok, IH.
Qed.

Lemma base64_length3 n s : String.length s = (3 * n)%nat → String.length (base64 s) = (4 * n)%nat.
Proof.
  revert n. induction s as [|a|a b|a b c s IH] using string_ind3; intros n; cbn [String.length]; [|lia..|].
  - intros ?. assert (n = 0)%nat as -> by lia. done.
  - intros Hs. destruct n as [|n]; [lia|]. cbn [base64]. rewrite append_length, (IH n) by lia. cbn. lia.
Qed.

Lemma sfilter_length f s : (String.length (Js.sfilter f s) ≤ String.length s)%nat.
Proof. induction s as [|c s IH]; cbn; [done|]. destruct (f c); cbn; lia. Qed.
Lemma sfilter_full f s : String.length (Js.sfilter f s) = String.length s ↔ Js.sforallb f s = true.
Proof.
  induction s as [|c s IH]; cbn; [done|]. destruct (f c); cbn; [rewrite <-IH; lia|].
  pose proof (sfilter_length f s). split; [lia|done].
Qed.
Lemma take_all n s : (String.length s ≤ n)%nat → Js.take n s = s.
Proof. revert s. induction n as [|n IH]; intros [|c s]; cbn; [done|lia|done|]. intros. by rewrite IH by lia. Qed.

(** The text of a token is the prefix and a tail of letters and digits.  The
    24 random bytes encode to 32 characters and nothing is cut off, but the
    characters [+] and [/] are removed, so that the tail has at most 32
    characters and has 32 exactly when the encoding uses neither. *)
Theorem token_text_base62 bytes :
  String.length bytes = 24%nat →
  ∃ tail, raw_of bytes = TOKEN_PREFIX +:+ tail ∧ Js.sforallb base62 tail = true ∧
    (String.length tail ≤ 32)%nat ∧
    (String.length tail = 32%nat ↔ Js.sforallb token_char (base64 bytes) = true) ∧
    token_prefix (raw_of bytes) = TOKEN_PREFIX +:+ Js.take 8 tail.
Proof.
  intros Hb. assert (String.length (base64 bytes) = 32%nat) as H32 by (by apply (base64_length3 8)).
  pose proof (sfilter_length token_char (base64 bytes)) as Hle.
  exists (Js.sfilter token_char (base64 bytes)). unfold raw_of. rewrite take_all by lia. split_and!; [done| |lia| |].
  - pose proof (base64_ok bytes) as Hok. revert Hok. generalize (base64 bytes). clear.
    intros s. induction s as [|c s IH]; [done|]. cbn. rewrite andb_true_iff. intros [Hc Hs].
    destruct (token_char c) eqn:Ht; [|by apply IH]. cbn. rewrite IH by done. unfold b64_ok in Hc.
    rewrite Ht in Hc. by rewrite orb_false_r in Hc; rewrite Hc.
  - rewrite <-sfilter_full. lia.
  - done.
Qed.

(** 24 bytes of ones encode to 32 slashes, all of which are removed. *)
Theorem short_token : ∃ bytes, String.length bytes = 24%nat ∧ raw_of bytes = TOKEN_PREFIX.
Proof. exists (Js.repeat 24 (ascii_of_nat 255)). by vm_compute. Qed.

(** ** Concrete runs *)

Definition toy_bytes : TokenBytes := {| randomBytes n := Js.padStart 24 "A" (pretty n) |}.
Definition any_uuid : ZodLib := {| isUuid _ := true |}.
#[global] Instance toy_argon : @ArgonLaws toy_lib.
Proof.
  constructor.
  - intros n p. apply (startsWith_append "$argon2").
  - intros n p q. cbn [argonVerify argonHash toy_lib]. rewrite String.eqb_eq. split; [|by intros ->].
    unfold toy_hash. intros He. by simplify_eq.
Qed.

Definition siem_token : CreateTokenInput :=
  mkCreateToken " siem " ["assets:quarantine"] (Some ["fg1"; "fg1"]) (Some 5000) "admin".
Definition siem_raw : string := @nth_token toy_bytes 0.
Definition siem_identity : AuthenticatedToken := mkAuthenticated "0" "siem" ["assets:quarantine"] ["fg1"].
Definition siem_run (ops : list TokenOp) : TokenState * Registry :=
  @token_run toy_lib toy_bytes any_uuid (OpPost siem_token :: ops)
    (mkTokenState [] [("fg1", "fortigate")] 1000 0 0, ∅).

Lemma distinct_draws_NoDup `{TokenBytes} k : NoDup (nth_token <$> seq 0 k) → distinct_draws k.
Proof.
  intros Hnd n m Hn Hm He. eapply (NoDup_lookup _ n m); [exact Hnd| |]; rewrite list_lookup_fmap, lookup_seq_lt by done;
    simpl; [done|by rewrite He].
Qed.
Lemma toy_distinct : @distinct_draws toy_bytes 8.
Proof. apply distinct_draws_NoDup. apply (bool_decide_unpack _). by vm_compute. Qed.
Lemma distinct_draws_le `{TokenBytes} k k' : (k ≤ k')%nat → distinct_draws k' → distinct_draws k.
Proof. intros Hk Hd n m ? ?. apply Hd; lia. Qed.

Lemma verifyToken_refines_registry_witness :
  accepts (siem_run []).2 1000 siem_raw siem_identity ∧
  (∃ r, (@verifyToken toy_lib siem_raw None (siem_run []).1).2 = Ok r ∧
     ∀ t, r = Some t ↔ accepts (siem_run []).2 (tk_now (siem_run []).1) siem_raw t) ∧
  (@verifyToken toy_lib siem_raw None (siem_run []).1).2 = Ok (Some siem_identity) ∧
  (@verifyToken toy_lib siem_raw None (siem_run [OpWait 4000]).1).2 = Ok None ∧
  (@verifyToken toy_lib siem_raw None (siem_run [OpRevoke "0" "admin"]).1).2 = Ok None.
Proof.
  split_and!; [|apply (@verifyToken_refines_registry toy_lib toy_bytes any_uuid toy_argon
      [OpPost siem_token] [("fg1", "fortigate")] 1000)|by vm_compute..].
  - exists "0"%string. eexists. split; [by vm_compute|]. by vm_compute.
  - apply surjective_pairing.
  - apply (distinct_draws_le _ 8); [by apply Nat.leb_le; vm_compute|exact toy_distinct].
Defined.

Lemma token_text_base62_witness :
  String.length (@randomBytes toy_bytes 7) = 24%nat ∧
  ∃ tail, raw_of (@randomBytes toy_bytes 7) = TOKEN_PREFIX +:+ tail ∧ Js.sforallb base62 tail = true ∧
    (String.length tail ≤ 32)%nat ∧
    (String.length tail = 32%nat ↔ Js.sforallb token_char (base64 (@randomBytes toy_bytes 7)) = true) ∧
    token_prefix (raw_of (@randomBytes toy_bytes 7)) = TOKEN_PREFIX +:+ Js.take 8 tail.
Proof. split; [by vm_compute|]. apply (token_text_base62 (@randomBytes toy_bytes 7)). by vm_compute. Defined.
