(* ===== verification/Agents.v ===== *)
(** * Managed agents

    The life of the agent on a host: [src/src/services/agentTokenService.ts]
    (enrolment tokens and bearers), POST /agents/enroll and /agents/heartbeat of
    [src/src/api/routes/agents.ts], the install, upgrade and uninstall runners of
    [src/src/services/agentInstallService.ts], and the agent endpoints of
    [src/src/api/routes/assets.ts].  The remote work (SSH, WinRM) is seen by its
    outcome; a runner is the half before it and the half after it. *)

From S2P Require Import Prelude JsColl Login MonitorSettings Tokens.

(** ** Rows and state *)

Inductive InstallStatus :=
  | Pending | Uploading | Enrolling | ActiveAgent | FailedInstall | Upgrading | UpgradeFailed
  | Uninstalling | UninstallFailed | RevokedAgent.
#[export] Instance InstallStatus_eq_dec : EqDecision InstallStatus.
Proof. solve_decision. Defined.

Definition status_text (x : InstallStatus) : string :=
  match x with
  | Pending => "pending" | Uploading => "uploading" | Enrolling => "enrolling" | ActiveAgent => "active"
  | FailedInstall => "failed" | Upgrading => "upgrading" | UpgradeFailed => "upgrade_failed"
  | Uninstalling => "uninstalling" | UninstallFailed => "uninstall_failed" | RevokedAgent => "revoked"
  end.

(** The columns [enrollmentToken*] and [bearer*]. *)
Record Enrollment := mkEnrollment {
  en_hash : option string;
  en_prefix : option string;
  en_expiresAt : option Z;
}.
Record Bearer := mkBearer {
  be_hash : option string;
  be_prefix : option string;
  be_issuedAt : option Z;
  be_revokedAt : option Z;
}.

Record ManagedAgent := mkAgent {
  ma_id : string;
  ma_assetId : string;
  ma_osPlatform : string;
  ma_arch : string;
  ma_agentVersion : option string;
  ma_installedBy : string;
  ma_installCredentialId : option string;
  ma_installStatus : InstallStatus;
  ma_installError : option string;
  ma_enrollment : Enrollment;
  ma_bearer : Bearer;
  ma_lastSeen : option (Z * option string);
  ma_serverCertFingerprint : string;
}.

(** [data: { … }] of the updates, group by group. *)
Definition with_status (st : InstallStatus) (err : option string) (a : ManagedAgent) : ManagedAgent :=
  mkAgent (ma_id a) (ma_assetId a) (ma_osPlatform a) (ma_arch a) (ma_agentVersion a) (ma_installedBy a)
    (ma_installCredentialId a) st err (ma_enrollment a) (ma_bearer a) (ma_lastSeen a) (ma_serverCertFingerprint a).
Definition with_enrollment (e : Enrollment) (a : ManagedAgent) : ManagedAgent :=
  mkAgent (ma_id a) (ma_assetId a) (ma_osPlatform a) (ma_arch a) (ma_agentVersion a) (ma_installedBy a)
    (ma_installCredentialId a) (ma_installStatus a) (ma_installError a) e (ma_bearer a) (ma_lastSeen a)
    (ma_serverCertFingerprint a).
Definition with_bearer (b : Bearer) (a : ManagedAgent) : ManagedAgent :=
  mkAgent (ma_id a) (ma_assetId a) (ma_osPlatform a) (ma_arch a) (ma_agentVersion a) (ma_installedBy a)
    (ma_installCredentialId a) (ma_installStatus a) (ma_installError a) (ma_enrollment a) b (ma_lastSeen a)
    (ma_serverCertFingerprint a).
Definition with_version (v : string) (a : ManagedAgent) : ManagedAgent :=
  mkAgent (ma_id a) (ma_assetId a) (ma_osPlatform a) (ma_arch a) (Some v) (ma_installedBy a)
    (ma_installCredentialId a) (ma_installStatus a) (ma_installError a) (ma_enrollment a) (ma_bearer a)
    (ma_lastSeen a) (ma_serverCertFingerprint a).
Definition with_seen (now : Z) (ip : option string) (a : ManagedAgent) : ManagedAgent :=
  mkAgent (ma_id a) (ma_assetId a) (ma_osPlatform a) (ma_arch a) (ma_agentVersion a) (ma_installedBy a)
    (ma_installCredentialId a) (ma_installStatus a) (ma_installError a) (ma_enrollment a) (ma_bearer a)
    (Some (now, ip)) (ma_serverCertFingerprint a).
(** [bearerRevokedAt: new Date()] *)
Definition with_revoked (now : Z) (a : ManagedAgent) : ManagedAgent :=
  let b := ma_bearer a in with_bearer (mkBearer (be_hash b) (be_prefix b) (be_issuedAt b) (Some now)) a.

(** The columns of an asset that concern its agent. *)
Record AgentAsset := mkAgentAsset {
  aa_id : string;
  aa_integrationType : option string;
  aa_ipAddress : option string;
  aa_dnsName : option string;
  aa_hostname : option string;
  aa_polling : Stream → option string;
}.
Definition with_polling (p : Stream → option string) (a : AgentAsset) : AgentAsset :=
  mkAgentAsset (aa_id a) (aa_integrationType a) (aa_ipAddress a) (aa_dnsName a) (aa_hostname a) p.
Definition agent_polling : Stream → option string := λ _, Some "agent"%string.
Definition no_polling : Stream → option string := λ _, None.

Record CertHosts := mkCertHosts { ch_cn : option string; ch_dnsSans : list string; ch_ipSans : list string }.
Record AgentManifest := mkManifest { mf_currentVersion : string; mf_binaries : list (string * string) }.

(** What the endpoints read of the process: the HTTPS listener, two environment
    variables, the binaries on disk, the stored credentials (id and type). *)
Record ServerEnv := mkServerEnv {
  sv_fingerprint : option string;
  sv_certHosts : option CertHosts;
  sv_publicUrl : option string;
  sv_publicHost : option string;
  sv_manifest : option AgentManifest;
  sv_credentials : list (string * string);
}.

Record AgentState := mkAgentState {
  ag_agents : list ManagedAgent;
  ag_assets : list AgentAsset;
  ag_env : ServerEnv;
  ag_now : Z;
  ag_draws : nat;
  ag_nextId : nat;
  ag_events : list (string * string);
}.
Definition set_agents (l : list ManagedAgent) (s : AgentState) : AgentState :=
  mkAgentState l (ag_assets s) (ag_env s) (ag_now s) (ag_draws s) (ag_nextId s) (ag_events s).
Definition set_ag_assets (l : list AgentAsset) (s : AgentState) : AgentState :=
  mkAgentState (ag_agents s) l (ag_env s) (ag_now s) (ag_draws s) (ag_nextId s) (ag_events s).

Definition ENROLLMENT_TTL_MS : Z := 10 * 60 * 1000.

Definition agent_is (id : string) (a : ManagedAgent) : bool := String.eqb (ma_id a) id.
Definition agent_of_asset (assetId : string) (a : ManagedAgent) : bool := String.eqb (ma_assetId a) assetId.
Definition asset_is (id : string) (a : AgentAsset) : bool := String.eqb (aa_id a) id.

Record EnrollBody := mkEnrollBody {
  eb_enrollmentToken : string;
  eb_osPlatform : string;
  eb_arch : string;
  eb_agentVersion : string;
  eb_hostname : option string;
  eb_serverCertFingerprintSeen : string;
}.

Definition PLATFORMS : list string := ["linux"; "darwin"; "windows"].
Definition ARCHES : list string := ["amd64"; "arm64"].
Definition hex_char (c : ascii) : bool := Js.is_digit c || in_range "a" "f" c.
(** [/^sha256:[0-9a-f]{64}$/i] *)
Definition fingerprint_ok (s : string) : bool :=
  let l := Js.toLowerCase s in
  Js.startsWith "sha256:" l && (String.length (Js.drop 7 l) =? 64)%nat && Js.sforallb hex_char (Js.drop 7 l).
Definition in_length (lo hi : nat) (s : string) : bool := (lo <=? String.length s)%nat && (String.length s <=? hi)%nat.

Definition EnrollSchema (b : EnrollBody) : bool :=
  Js.truthy (eb_enrollmentToken b) && bool_decide (eb_osPlatform b ∈ PLATFORMS) &&
  bool_decide (eb_arch b ∈ ARCHES) && in_length 1 64 (eb_agentVersion b) &&
  match eb_hostname b with Some h => in_length 0 255 h | None => true end &&
  fingerprint_ok (eb_serverCertFingerprintSeen b).

(** [a ?? b] *)
Definition ocoalesce {A} (a b : option A) : option A := match a with Some _ => a | None => b end.

Section agents.
Context `{AuthLib} `{TokenBytes}.
Notation A := (M AgentState).

Definition ag_draw : A nat := λ s,
  (mkAgentState (ag_agents s) (ag_assets s) (ag_env s) (ag_now s) (S (ag_draws s)) (ag_nextId s) (ag_events s),
   Ok (ag_draws s)).
Definition agent_token : A string := let! n := ag_draw in hret (raw_of (randomBytes n)).
Definition agent_hash (plaintext : string) : A string := let! n := ag_draw in hret (argonHash n plaintext).

Definition log_agent (action assetId : string) : A unit :=
  hmodify (λ s, mkAgentState (ag_agents s) (ag_assets s) (ag_env s) (ag_now s) (ag_draws s) (ag_nextId s)
    (ag_events s ++ [(action, assetId)])).

Definition find_agent (p : ManagedAgent → bool) : A (option ManagedAgent) := hgets (λ s, List.find p (ag_agents s)).
Definition find_asset (id : string) : A (option AgentAsset) := hgets (λ s, List.find (asset_is id) (ag_assets s)).
Definition get_credential (id : string) : A (option string) := hgets (λ s, mget id (sv_credentials (ag_env s))).

(** [prisma.managedAgent.update({ where: { id }, data })] *)
Definition update_agent (id : string) (f : ManagedAgent → ManagedAgent) : A unit :=
  let! row := find_agent (agent_is id) in
  match row with
  | None => hthrow (PrismaError "P2025")
  | Some _ => hmodify (λ s, set_agents ((λ a, if agent_is id a then f a else a) <$> ag_agents s) s)
  end.
Definition delete_agent (id : string) : A unit :=
  let! row := find_agent (agent_is id) in
  match row with
  | None => hthrow (PrismaError "P2025")
  | Some _ => hmodify (λ s, set_agents (List.filter (λ a, negb (agent_is id a)) (ag_agents s)) s)
  end.
(** [prisma.asset.update] of the six polling columns. *)
Definition set_polling (id : string) (p : Stream → option string) : A unit :=
  let! row := find_asset id in
  match row with
  | None => hthrow (PrismaError "P2025")
  | Some _ => hmodify (λ s, set_ag_assets ((λ a, if asset_is id a then with_polling p a else a) <$> ag_assets s) s)
  end.
(** [prisma.$transaction([…])] *)
Definition ag_tx {B} (m : A B) : A B := λ s,
  match m s with (s', Ok b) => (s', Ok b) | (_, Throw e) => (s, Throw e) end.

(** ** [agentTokenService.ts] *)

Definition mintEnrollmentToken (managedAgentId : string) : A string :=
  let! raw := agent_token in
  let! hash := agent_hash raw in
  let! now := hgets ag_now in
  update_agent managedAgentId
    (with_enrollment (mkEnrollment (Some hash) (Some (token_prefix raw)) (Some (now + ENROLLMENT_TTL_MS)))) ;!
  hret raw.

Definition enroll_candidate (now : Z) (raw : string) (a : ManagedAgent) : bool :=
  bool_decide (en_prefix (ma_enrollment a) = Some (token_prefix raw)) &&
  bool_decide (is_Some (en_hash (ma_enrollment a))) &&
  match en_expiresAt (ma_enrollment a) with Some t => now <? t | None => false end.

(** [if (!hash) continue; … if (!valid) continue;] *)
Definition opens (raw : string) (hash : option string) : bool :=
  Js.otruthy hash && (verifyPassword raw hash).1.

(** The row a token opens: everything up to the swap. *)
Definition consume_match (raw : string) : A ManagedAgent :=
  throw_if (negb (Js.truthy raw) || negb (Js.startsWith TOKEN_PREFIX raw)) (AppError 401 "Invalid enrollment token") ;!
  let! candidates := hgets (λ s, List.filter (enroll_candidate (ag_now s) raw) (ag_agents s)) in
  match List.find (λ a, opens raw (en_hash (ma_enrollment a))) candidates with
  | None => hthrow (AppError 401 "Enrollment token rejected — expired or already consumed")
  | Some row => hret row
  end.

(** The new bearer, written together with the asset's polling columns. *)
Definition consume_swap (row : ManagedAgent) : A string :=
  let! bearer := agent_token in
  let! hash := agent_hash bearer in
  let! now := hgets ag_now in
  ag_tx (
    update_agent (ma_id row) (λ a, with_status ActiveAgent None
      (with_enrollment (mkEnrollment None None None)
        (with_bearer (mkBearer (Some hash) (Some (token_prefix bearer)) (Some now) None) a))) ;!
    set_polling (ma_assetId row) agent_polling) ;!
  hret bearer.

Definition consumeEnrollmentToken (raw : string) : A (ManagedAgent * string) :=
  let! row := consume_match raw in
  let! bearer := consume_swap row in
  hret (row, bearer).

Definition bearer_candidate (raw : string) (a : ManagedAgent) : bool :=
  bool_decide (be_prefix (ma_bearer a) = Some (token_prefix raw)) &&
  bool_decide (is_Some (be_hash (ma_bearer a))) && bool_decide (be_revokedAt (ma_bearer a) = None).

(** The agent's id and its asset. *)
Definition verifyBearer (raw : string) (callerIp : option string) : A (option (string * string)) :=
  if negb (Js.truthy raw) || negb (Js.startsWith TOKEN_PREFIX raw) then hret None else
  let! candidates := hgets (λ s, List.filter (bearer_candidate raw) (ag_agents s)) in
  match List.find (λ a, opens raw (be_hash (ma_bearer a))) candidates with
  | None => hret None
  | Some row =>
      hmodify (λ s, set_agents ((λ a, if agent_is (ma_id row) a then with_seen (ag_now s) callerIp a else a) <$> ag_agents s) s) ;!
      hret (Some (ma_id row, ma_assetId row))
  end.

Definition revokeBearer (managedAgentId : string) : A bool :=
  let! row := find_agent (agent_is managedAgentId) in
  match row with
  | None => hthrow (AppError 404 "Managed agent not found")
  | Some row =>
      if bool_decide (is_Some (be_revokedAt (ma_bearer row))) then hret false else
      let! now := hgets ag_now in
      update_agent managedAgentId (with_revoked now) ;! hret true
  end.

(** ** The agent's own endpoints *)

(** [requireAgentBearer] *)
Definition requireAgentBearer (authorization ip : option string) : A (string * string) :=
  match extractBearerToken authorization with
  | None => hthrow (AppError 401 "Unauthorized — agent bearer required")
  | Some raw =>
      let! verified := verifyBearer raw ip in
      match verified with
      | None => hthrow (AppError 401 "Unauthorized — agent bearer invalid or revoked")
      | Some v => hret v
      end
  end.

(** POST /agents/enroll, from the swap on. *)
Definition enroll_finish (body : EnrollBody) (row : ManagedAgent) : A string :=
  let! bearer := consume_swap row in
  let! now := hgets ag_now in
  let expectedPin := Js.toLowerCase (ma_serverCertFingerprint row) in
  let observedPin := Js.toLowerCase (eb_serverCertFingerprintSeen body) in
  if negb (String.eqb expectedPin observedPin) then
    update_agent (ma_id row) (λ a, with_revoked now (with_status FailedInstall
      (Some ("Cert pin mismatch — expected " +:+ expectedPin +:+ ", agent saw " +:+ observedPin)) a)) ;!
    log_agent "agent.install_failed" (ma_assetId row) ;!
    hthrow (AppError 400 "Server cert fingerprint mismatch — refusing enrollment")
  else if negb (String.eqb (ma_osPlatform row) (eb_osPlatform body) && String.eqb (ma_arch row) (eb_arch body)) then
    update_agent (ma_id row) (λ a, with_revoked now (with_status FailedInstall
      (Some ("Platform mismatch — install expected " +:+ ma_osPlatform row +:+ "/" +:+ ma_arch row +:+
             ", agent reported " +:+ eb_osPlatform body +:+ "/" +:+ eb_arch body)) a)) ;!
    hthrow (AppError 400 "Platform/arch mismatch — refusing enrollment")
  else
    update_agent (ma_id row) (with_version (eb_agentVersion body)) ;!
    log_agent "agent.enrolled" (ma_assetId row) ;!
    hret bearer.

Definition enroll_match (body : EnrollBody) : A ManagedAgent :=
  throw_if (negb (EnrollSchema body)) (JsError "ZodError") ;! consume_match (eb_enrollmentToken body).

Definition enroll (body : EnrollBody) : A string :=
  let! row := enroll_match body in enroll_finish body row.

(** POST /agents/heartbeat *)
Definition heartbeat (authorization ip : option string) (agentVersion : option string) : A unit :=
  let! who := requireAgentBearer authorization ip in
  match agentVersion with
  | None => hret tt
  | Some v =>
      throw_if (negb (in_length 1 64 v)) (JsError "ZodError") ;!
      update_agent who.1 (with_version v)
  end.

(** ** [agentInstallService.ts] *)

Definition try_status (id : string) (st : InstallStatus) (reason : string) : A unit :=
  hcatch (update_agent id (with_status st (Some reason))) (λ _, hret tt).
Definition failInstall (id assetId reason : string) : A unit :=
  try_status id FailedInstall reason ;! log_agent "agent.install_failed" assetId.
Definition failUninstall (id assetId reason : string) : A unit :=
  try_status id UninstallFailed reason ;! log_agent "agent.uninstall_failed" assetId.
Definition failUpgrade (id assetId reason : string) : A unit :=
  try_status id UpgradeFailed reason ;! log_agent "agent.upgrade_failed" assetId.
Definition transition (id : string) (st : InstallStatus) : A unit := update_agent id (with_status st None).

(** [row.asset.ipAddress ?? row.asset.dnsName ?? row.asset.hostname] *)
Definition agent_host (asset : option AgentAsset) : option string :=
  match asset with
  | Some a => ocoalesce (aa_ipAddress a) (ocoalesce (aa_dnsName a) (aa_hostname a))
  | None => None
  end.
Definition binary_name (m : AgentManifest) (row : ManagedAgent) : option string :=
  mget (ma_osPlatform row +:+ "-" +:+ ma_arch row) (mf_binaries m).

(** [runInstall] up to the remote work; [None] when it ended there.
    [readable] is what reading the binary answers. *)
Definition install_begin (id credentialId : string) (readable : bool) : A (option ManagedAgent) :=
  let! found := find_agent (agent_is id) in
  match found with
  | None => hret None
  | Some row =>
      mintEnrollmentToken id ;!
      let! asset := find_asset (ma_assetId row) in
      let! env := hgets ag_env in
      let! cred := get_credential credentialId in
      let fail reason := failInstall id (ma_assetId row) reason ;! hret None in
      if negb (Js.otruthy (agent_host asset)) then fail "Asset has no IP, dnsName, or hostname to connect to" else
      match sv_manifest env with
      | None => fail "No agent binaries available"%string
      | Some m =>
          if negb (Js.otruthy (binary_name m row)) then
            fail ("No agent binary for platform " +:+ ma_osPlatform row +:+ "-" +:+ ma_arch row)
          else if negb readable then fail "Failed to read agent binary"%string
          else if negb (bool_decide (is_Some cred)) then fail "Credential lookup failed"%string
          else transition id Uploading ;!
               if bool_decide (ma_osPlatform row ∈ PLATFORMS) then hret (Some row)
               else fail ("Unsupported osPlatform " +:+ ma_osPlatform row)
      end
  end.

(** The rest of it, with the outcome of the remote work. *)
Definition install_finish (row : ManagedAgent) (remote : option string) : A unit :=
  match remote with
  | Some err => failInstall (ma_id row) (ma_assetId row) err
  | None => transition (ma_id row) Enrolling ;! log_agent "agent.installed" (ma_assetId row)
  end.

Definition uninstall_begin (id credentialId : string) : A (option ManagedAgent) :=
  let! found := find_agent (agent_is id) in
  match found with
  | None => hret None
  | Some row =>
      let! asset := find_asset (ma_assetId row) in
      let! cred := get_credential credentialId in
      let fail reason := failUninstall id (ma_assetId row) reason ;! hret None in
      if negb (Js.otruthy (agent_host asset)) then fail "Asset has no IP/dnsName/hostname to connect to"%string
      else if negb (bool_decide (is_Some cred)) then fail "Credential lookup failed"%string
      else transition id Uninstalling ;! hret (Some row)
  end.
Definition uninstall_finish (row : ManagedAgent) (remote : option string) : A unit :=
  match remote with
  | Some err => failUninstall (ma_id row) (ma_assetId row) err
  | None =>
      ag_tx (delete_agent (ma_id row) ;! set_polling (ma_assetId row) no_polling) ;!
      log_agent "agent.uninstalled" (ma_assetId row)
  end.

(** The synchronous half of an upgrade; it answers the credential to use. *)
Definition startUpgrade (id : string) (credentialId : option string) : A string :=
  let! found := find_agent (agent_is id) in
  match found with
  | None => hthrow (AppError 404 "Managed agent not found")
  | Some row =>
      throw_if (negb (bool_decide (ma_installStatus row = ActiveAgent)))
        (AppError 409 ("Agent installStatus is " +:+ quoted (status_text (ma_installStatus row)) +:+
           "; only active agents can upgrade.")) ;!
      let! env := hgets ag_env in
      match sv_manifest env with
      | None => hthrow (AppError 400 "No agent binaries available — build them first.")
      | Some m =>
          throw_if (negb (Js.otruthy (binary_name m row)))
            (AppError 400 ("No agent binary for platform " +:+ ma_osPlatform row +:+ "-" +:+ ma_arch row)) ;!
          throw_if (bool_decide (ma_agentVersion row = Some (mf_currentVersion m)))
            (AppError 409 ("Agent is already at v" +:+ mf_currentVersion m +:+ ".")) ;!
          let cred := ocoalesce credentialId (ma_installCredentialId row) in
          throw_if (negb (Js.otruthy cred))
            (AppError 400 "No install credential on file for this agent; pass credentialId explicitly.") ;!
          transition id Upgrading ;!
          log_agent "agent.upgrade_kickoff" (ma_assetId row) ;!
          hret (default "" cred)
      end
  end.

Definition upgrade_begin (id credentialId : string) (readable : bool) : A (option ManagedAgent) :=
  let! found := find_agent (agent_is id) in
  match found with
  | None => hret None
  | Some row =>
      let! asset := find_asset (ma_assetId row) in
      let! env := hgets ag_env in
      let! cred := get_credential credentialId in
      let fail reason := failUpgrade id (ma_assetId row) reason ;! hret None in
      if negb (Js.otruthy (agent_host asset)) then fail "Asset has no IP, dnsName, or hostname to connect to"%string else
      match sv_manifest env with
      | None => fail "No agent binaries available — build them first."%string
      | Some m =>
          if negb (Js.otruthy (binary_name m row)) then
            fail ("No agent binary for platform " +:+ ma_osPlatform row +:+ "-" +:+ ma_arch row)
          else if negb (bool_decide (is_Some cred)) then fail "Credential lookup failed"%string
          else if bool_decide (ma_osPlatform row = "windows"%string) then hret (Some row)
          else if bool_decide (ma_osPlatform row ∈ PLATFORMS) then
            if readable then hret (Some row) else fail "Failed to read agent binary"%string
          else fail ("Unsupported osPlatform " +:+ ma_osPlatform row)
      end
  end.
Definition upgrade_finish (row : ManagedAgent) (remote : option string) : A unit :=
  match remote with
  | Some err => failUpgrade (ma_id row) (ma_assetId row) err
  | None => transition (ma_id row) ActiveAgent ;! log_agent "agent.upgrade_succeeded" (ma_assetId row)
  end.

(** ** The endpoints of [routes/assets.ts] *)

Record InstallBody := mkInstallBody {
  ib_credentialId : string;
  ib_osPlatform : string;
  ib_arch : string;
}.
Definition AgentInstallSchema `{ZodLib} (b : InstallBody) : bool :=
  isUuid (ib_credentialId b) && bool_decide (ib_osPlatform b ∈ PLATFORMS) && bool_decide (ib_arch b ∈ ARCHES).

Definition LOOPBACK : list string := ["127.0.0.1"; "::1"; "localhost"].

(** [hosts?.dnsSans[0] || hosts?.cn || hosts?.ipSans[0] || null], as text. *)
Definition cert_host (hosts : option CertHosts) : string :=
  match hosts with
  | None => ""
  | Some h => Js.oor (head (ch_dnsSans h)) (Js.oor (ch_cn h) (Js.oor (head (ch_ipSans h)) ""))
  end.

(** An agent on another host must be able to call back. *)
Definition callback_unknown (env : ServerEnv) (a : AgentAsset) : bool :=
  if Js.otruthy (sv_publicUrl env) || Js.otruthy (sv_publicHost env) then false else
  let targetHost := Js.oor (aa_ipAddress a) (Js.oor (aa_dnsName a) (Js.oor (aa_hostname a) "")) in
  let isSameBox := bool_decide (targetHost ∈ LOOPBACK) ||
                   String.eqb (Js.toLowerCase targetHost) "localhost.localdomain" in
  let host := cert_host (sv_certHosts env) in
  negb isSameBox && (negb (Js.truthy host) || bool_decide (host ∈ LOOPBACK)).

(** [prisma.managedAgent.create]; one agent per asset. *)
Definition insert_agent (mk : string → ManagedAgent) : A ManagedAgent :=
  let! s := hget in
  let row := mk (pretty (ag_nextId s)) in
  throw_if (existsb (agent_of_asset (ma_assetId row)) (ag_agents s)) (PrismaError "P2002") ;!
  hput (mkAgentState (ag_agents s ++ [row]) (ag_assets s) (ag_env s) (ag_now s) (ag_draws s) (S (ag_nextId s)) (ag_events s)) ;!
  hret row.

(** POST /assets/:id/agent/install; the runner starts afterwards. *)
Definition postAgentInstall `{ZodLib} (assetId : string) (body : InstallBody) (actor : string) : A ManagedAgent :=
  throw_if (negb (AgentInstallSchema body)) (JsError "ZodError") ;!
  let! asset := find_asset assetId in
  match asset with
  | None => hthrow (AppError 404 "Asset not found")
  | Some asset =>
      let sourceKind := assetSourceKindFromIntegrationType (aa_integrationType asset) in
      throw_if (negb (isPollingMethodCompatible sourceKind AgentPoll))
        (AppError 400 ("Polaris Agent is not compatible with " +:+ source_text sourceKind +:+
           " sources. Compatible: manual, activedirectory, entraid, windowsserver.")) ;!
      let! cred := get_credential (ib_credentialId body) in
      match cred with
      | None => hthrow (AppError 400 ("Credential " +:+ ib_credentialId body +:+ " not found"))
      | Some credType =>
          let wantType := if String.eqb (ib_osPlatform body) "windows" then "winrm"%string else "ssh"%string in
          throw_if (negb (String.eqb credType wantType))
            (AppError 400 ("Credential type " +:+ quoted credType +:+ " doesn't match osPlatform " +:+
               quoted (ib_osPlatform body) +:+ " — need " +:+ quoted wantType)) ;!
          let! existing := find_agent (agent_of_asset assetId) in
          match existing with
          | Some x =>
              hthrow (AppError 409 ("Agent already installed (status=" +:+ status_text (ma_installStatus x) +:+
                        "). Use reinstall to start over."))
          | None =>
              let! env := hgets ag_env in
              match sv_fingerprint env with
              | None => hthrow (AppError 400 "HTTPS is not running on this Polaris server")
              | Some fingerprint =>
                  throw_if (callback_unknown env asset)
                    (AppError 400 "Polaris doesn't know what URL to embed in the remote agent's agent.conf.") ;!
                  let! row := insert_agent (λ id, mkAgent id assetId (ib_osPlatform body) (ib_arch body) None actor
                      (Some (ib_credentialId body)) Pending None (mkEnrollment None None None)
                      (mkBearer None None None None) None fingerprint) in
                  log_agent "agent.install_kickoff" assetId ;!
                  hret row
              end
          end
      end
  end.

(** POST /assets/:id/agent/retry; answers the row and the credential to use. *)
Definition postAgentRetry (assetId : string) : A (string * string) :=
  let! row := find_agent (agent_of_asset assetId) in
  match row with
  | None => hthrow (AppError 404 "No agent row to retry for this asset")
  | Some row =>
      throw_if (negb (bool_decide (ma_installStatus row = FailedInstall)))
        (AppError 409 ("Agent installStatus is " +:+ quoted (status_text (ma_installStatus row)) +:+
           "; only failed installs can be retried.")) ;!
      throw_if (negb (Js.otruthy (ma_installCredentialId row)))
        (AppError 400 "No install credential on file (credential was deleted). Force-remove the agent and start a fresh install.") ;!
      let credentialId := default "" (ma_installCredentialId row) in
      let! cred := get_credential credentialId in
      throw_if (negb (bool_decide (is_Some cred)))
        (AppError 400 "Original install credential no longer exists. Force-remove the agent and start a fresh install.") ;!
      update_agent (ma_id row) (with_status Pending None) ;!
      log_agent "agent.install_retry" assetId ;!
      hret (ma_id row, credentialId)
  end.

(** POST /assets/:id/agent/upgrade *)
Definition postAgentUpgrade `{ZodLib} (assetId : string) (credentialId : option string) : A (string * string) :=
  throw_if (match credentialId with Some c => negb (isUuid c) | None => false end) (JsError "ZodError") ;!
  let! row := find_agent (agent_of_asset assetId) in
  match row with
  | None => hthrow (AppError 404 "No agent installed for this asset")
  | Some row => let! cred := startUpgrade (ma_id row) credentialId in hret (ma_id row, cred)
  end.

(** DELETE /assets/:id/agent; answers the uninstall to start, if any. *)
Definition deleteAgent (assetId : string) (force : bool) : A (option (string * string)) :=
  let! row := find_agent (agent_of_asset assetId) in
  match row with
  | None => hthrow (AppError 404 "No agent installed for this asset")
  | Some row =>
      revokeBearer (ma_id row) ;!
      if force then
        ag_tx (delete_agent (ma_id row) ;! set_polling assetId no_polling) ;!
        log_agent "agent.force_removed" assetId ;!
        hret None
      else
        log_agent "agent.revoked" assetId ;!
        if negb (Js.otruthy (ma_installCredentialId row)) then
          update_agent (ma_id row) (λ a, with_status RevokedAgent (ma_installError a) a) ;!
          hret None
        else hret (Some (ma_id row, default "" (ma_installCredentialId row)))
  end.

(** Deleting a credential sets it to null on the agents installed with it. *)
Definition dropCredential (id : string) : A unit :=
  hmodify (λ s,
    let e := ag_env s in
    mkAgentState
      ((λ a, if bool_decide (ma_installCredentialId a = Some id)
             then mkAgent (ma_id a) (ma_assetId a) (ma_osPlatform a) (ma_arch a) (ma_agentVersion a) (ma_installedBy a)
                    None (ma_installStatus a) (ma_installError a) (ma_enrollment a) (ma_bearer a) (ma_lastSeen a)
                    (ma_serverCertFingerprint a)
             else a) <$> ag_agents s)
      (ag_assets s)
      (mkServerEnv (sv_fingerprint e) (sv_certHosts e) (sv_publicUrl e) (sv_publicHost e) (sv_manifest e)
         (mdelete id (sv_credentials e)))
      (ag_now s) (ag_draws s) (ag_nextId s) (ag_events s)).
End agents.
