(* ===== verification/AgentsProofs.v ===== *)
(** * Managed agents: what their tokens promise

    A fleet is the state of [Agents] with the enrolments that are between their
    two halves.  Beside it runs the book an observer keeps from the answers: the
    bearer each agent holds, and the enrolment tokens that were answered. *)

From S2P Require Import Prelude JsColl Login MonitorSettings Tokens Agents.

(** ** The fleet and its book *)

Inductive AgentOp :=
  | AInstall (assetId : string) (body : InstallBody) (actor : string)
  | ARetry (assetId : string)
  | AUpgrade (assetId : string) (credentialId : option string)
  | ADelete (assetId : string) (force : bool)
  | ADropCredential (id : string)
  | AEnrollStart (body : EnrollBody)
  | AEnrollEnd (k : nat)
  | AHeartbeat (authorization ip version : option string)
  | AVerify (raw : string) (ip : option string)
  | AInstallBegin (id credentialId : string) (readable : bool)
  | AInstallEnd (row : ManagedAgent) (remote : option string)
  | AUninstallBegin (id credentialId : string)
  | AUninstallEnd (row : ManagedAgent) (remote : option string)
  | AUpgradeBegin (id credentialId : string) (readable : bool)
  | AUpgradeEnd (row : ManagedAgent) (remote : option string)
  | AWait (ms : Z).

(** Per agent: the text of the bearer it holds and the asset it speaks for. *)
Notation Book := (gmap string (string * string)).

Record Fleet := mkFleet {
  fl_state : AgentState;
  fl_waiting : list (ManagedAgent * EnrollBody);
  fl_book : Book;
  fl_spent : list string;
}.

Definition on_state (f : AgentState → AgentState) (x : Fleet) : Fleet :=
  mkFleet (f (fl_state x)) (fl_waiting x) (fl_book x) (fl_spent x).
Definition run_on {B} (m : M AgentState B) : Fleet → Fleet := on_state (λ s, (m s).1).
Definition not_of (assetId : string) (kv : string * (string * string)) : Prop := kv.2.2 ≠ assetId.

Section fleet.
Context `{AuthLib} `{TokenBytes} `{ZodLib}.

Definition finish_enroll (row : ManagedAgent) (body : EnrollBody) (k : nat) (x : Fleet) : Fleet :=
  let '(s', r) := enroll_finish body row (fl_state x) in
  mkFleet s' (delete k (fl_waiting x))
    match r with
    | Ok bearer => <[ma_id row := (bearer, ma_assetId row)]> (fl_book x)
    | Throw (AppError 400 _) => delete (ma_id row) (fl_book x)
    | Throw _ => fl_book x
    end
    match r with Throw (PrismaError _) => fl_spent x | _ => eb_enrollmentToken body :: fl_spent x end.

Definition agent_step (op : AgentOp) (x : Fleet) : Fleet :=
  match op with
  | AInstall assetId body actor => run_on (postAgentInstall assetId body actor) x
  | ARetry assetId => run_on (postAgentRetry assetId) x
  | AUpgrade assetId cred => run_on (postAgentUpgrade assetId cred) x
  | ADelete assetId force =>
      mkFleet (deleteAgent assetId force (fl_state x)).1 (fl_waiting x)
        (filter (not_of assetId) (fl_book x)) (fl_spent x)
  | ADropCredential id => run_on (dropCredential id) x
  | AEnrollStart body =>
      match enroll_match body (fl_state x) with
      | (s', Ok row) => mkFleet s' (fl_waiting x ++ [(row, body)]) (fl_book x) (fl_spent x)
      | (s', Throw _) => on_state (λ _, s') x
      end
  | AEnrollEnd k =>
      match fl_waiting x !! k with
      | Some (row, body) => finish_enroll row body k x
      | None => x
      end
  | AHeartbeat authorization ip v => run_on (heartbeat authorization ip v) x
  | AVerify raw ip => run_on (verifyBearer raw ip) x
  | AInstallBegin id cred readable => run_on (install_begin id cred readable) x
  | AInstallEnd row remote => run_on (install_finish row remote) x
  | AUninstallBegin id cred => run_on (uninstall_begin id cred) x
  | AUninstallEnd row remote =>
      let '(s', r) := uninstall_finish row remote (fl_state x) in
      mkFleet s' (fl_waiting x)
        (if is_ok r && bool_decide (remote = None) then delete (ma_id row) (fl_book x) else fl_book x) (fl_spent x)
  | AUpgradeBegin id cred readable => run_on (upgrade_begin id cred readable) x
  | AUpgradeEnd row remote => run_on (upgrade_finish row remote) x
  | AWait ms =>
      on_state (λ s, mkAgentState (ag_agents s) (ag_assets s) (ag_env s) (ag_now s + ms) (ag_draws s) (ag_nextId s)
                       (ag_events s)) x
  end.
Definition fleet_run (ops : list AgentOp) (x : Fleet) : Fleet := foldl (λ x op, agent_step op x) x ops.

(** ** Credentials of the rows *)

Record Cred := mkCred {
  cr_id : string;
  cr_asset : string;
  cr_en : Enrollment;
  cr_be : Bearer;
}.
Definition cred (a : ManagedAgent) : Cred := mkCred (ma_id a) (ma_assetId a) (ma_enrollment a) (ma_bearer a).
Definition creds (s : AgentState) : list Cred := cred <$> ag_agents s.

Definition minted (d : nat) (raw : string) : Prop := ∃ n, (n < d)%nat ∧ raw = nth_token n.
Definition old_id (nid : nat) (id : string) : Prop := ∃ n, (n < nid)%nat ∧ id = pretty n.
(** The enrolment columns hold a hash of [raw]. *)
Definition awaits (x : Cred) (raw : string) : Prop := ∃ m, en_hash (cr_en x) = Some (argonHash m raw).

(** What the book says of the bearer columns. *)
Definition holds (v : option (string * string)) (x : Cred) : Prop :=
  match v with
  | Some (raw, a) => a = cr_asset x ∧ ∃ m i, cr_be x = mkBearer (Some (argonHash m raw)) (Some (token_prefix raw)) i None
  | None => be_hash (cr_be x) = None ∨ be_revokedAt (cr_be x) ≠ None
  end.

Record fleet_ok (d nid : nat) (c : list Cred) (w : list (ManagedAgent * EnrollBody)) (g : Book) (spent : list string)
    : Prop := mkFleetOk {
  fo_ids : NoDup (cr_id <$> c);
  fo_assets : NoDup (cr_asset <$> c);
  fo_old : ∀ x, x ∈ c → old_id nid (cr_id x);
  fo_holds : ∀ x, x ∈ c → holds (g !! cr_id x) x;
  fo_dom : ∀ id v, g !! id = Some v → minted d v.1 ∧ ∃ x, x ∈ c ∧ cr_id x = id;
  fo_raw : ∀ i j v v', g !! i = Some v → g !! j = Some v' → v.1 = v'.1 → i = j;
  fo_en : ∀ x h, x ∈ c → en_hash (cr_en x) = Some h →
    ∃ m raw, h = argonHash m raw ∧ minted d raw ∧ raw ∉ spent;
  fo_one : ∀ x y raw, x ∈ c → y ∈ c → awaits x raw → awaits y raw → cr_id x = cr_id y;
  fo_spent : ∀ raw, raw ∈ spent → minted d raw;
  fo_wait : ∀ r b, (r, b) ∈ w → minted d (eb_enrollmentToken b) ∧ old_id nid (ma_id r) ∧
    ∀ x, x ∈ c → (cr_id x = ma_id r → cr_asset x = ma_assetId r) ∧ (awaits x (eb_enrollmentToken b) → cr_id x = ma_id r);
}.
Definition fleet_inv (x : Fleet) : Prop :=
  fleet_ok (ag_draws (fl_state x)) (ag_nextId (fl_state x)) (creds (fl_state x)) (fl_waiting x) (fl_book x) (fl_spent x).

Lemma minted_mono d d' raw : (d ≤ d')%nat → minted d raw → minted d' raw.
Proof. intros ? (n & ? & ->). exists n. split; [lia|done]. Qed.
Lemma old_id_mono n n' id : (n ≤ n')%nat → old_id n id → old_id n' id.
Proof. intros ? (k & ? & ->). exists k. split; [lia|done]. Qed.

Lemma fleet_ok_draws d d' nid c w g sp : (d ≤ d')%nat → fleet_ok d nid c w g sp → fleet_ok d' nid c w g sp.
Proof.
  intros Hd [A B C D E F G I J K]. constructor; try done.
  - intros id v Hv. destruct (E id v Hv) as [? ?]. split; [by eapply minted_mono|done].
  - intros x h Hx Hh. destruct (G x h Hx Hh) as (m & raw & ? & ? & ?). exists m, raw. split_and!; [done| |done].
    by eapply minted_mono.
  - intros raw Hr. eapply minted_mono; [done|]. auto.
  - intros r b Hb. destruct (K r b Hb) as (? & ? & ?). split_and!; [by eapply minted_mono|done..].
Qed.

Lemma elem_by_id {c : list Cred} {x y} : NoDup (cr_id <$> c) → x ∈ c → y ∈ c → cr_id x = cr_id y → x = y.
Proof.
  intros Hnd [i Hx]%list_elem_of_lookup [j Hy]%list_elem_of_lookup He.
  assert (i = j) as <- by (eapply NoDup_lookup; [exact Hnd|rewrite list_lookup_fmap, Hx..|]; simpl; [done|rewrite list_lookup_fmap, Hy; simpl; congruence]).
  congruence.
Qed.

(** An update of the row [id] that leaves its identity alone. *)
Definition upd_cred (id : string) (f : Cred → Cred) (c : list Cred) : list Cred :=
  (λ x, if String.eqb (cr_id x) id then f x else x) <$> c.

Lemma upd_cred_elem id f c y :
  y ∈ upd_cred id f c → ∃ x, x ∈ c ∧ y = if String.eqb (cr_id x) id then f x else x.
Proof. intros (x & -> & Hx)%list_elem_of_fmap. eauto. Qed.

Lemma upd_cred_fmap {B} (h : Cred → B) id f c : (∀ x, h (f x) = h x) → h <$> upd_cred id f c = h <$> c.
Proof. intros Hf. unfold upd_cred. rewrite <-list_fmap_compose. apply list_fmap_ext. intros i x _. cbn. by destruct (String.eqb _ _); rewrite ?Hf. Qed.

(** The three updates of credentials: a new enrolment token, the swap for a
    bearer, a revocation; [d] is the draw of the text, [S d] of its salt. *)
Definition mint_cred (d : nat) (exp : option Z) (x : Cred) : Cred :=
  mkCred (cr_id x) (cr_asset x)
    (mkEnrollment (Some (argonHash (S d) (nth_token d))) (Some (token_prefix (nth_token d))) exp) (cr_be x).
Definition swap_cred (d : nat) (now : Z) (x : Cred) : Cred :=
  mkCred (cr_id x) (cr_asset x) (mkEnrollment None None None)
    (mkBearer (Some (argonHash (S d) (nth_token d))) (Some (token_prefix (nth_token d))) (Some now) None).
Definition revoke_cred (now : Z) (x : Cred) : Cred :=
  mkCred (cr_id x) (cr_asset x) (cr_en x)
    (mkBearer (be_hash (cr_be x)) (be_prefix (cr_be x)) (be_issuedAt (cr_be x)) (Some now)).

Context `{!ArgonLaws}.

Lemma hash_inj m m' p q : argonHash m p = argonHash m' q → p = q.
Proof. intros He. apply (argonVerify_hash m p q). rewrite He. by apply argonVerify_hash. Qed.

Lemma not_minted d raw : distinct_draws (S d) → minted d raw → raw ≠ nth_token d.
Proof. intros Hd (n & Hn & ->) He. assert (n = d) by (apply Hd; [lia|lia|done]). lia. Qed.

Section changes.
Context (d nid : nat) (c : list Cred) (w : list (ManagedAgent * EnrollBody)) (g : Book) (spent : list string).
Context (Hok : fleet_ok d nid c w g spent).

Lemma awaits_minted x raw : x ∈ c → awaits x raw → minted d raw ∧ raw ∉ spent.
Proof. intros Hx [m Hm]. destruct (fo_en _ _ _ _ _ _ Hok x _ Hx Hm) as (m' & raw' & ->%hash_inj & ? & ?). done. Qed.

(** The book changes with one row. *)
Lemma holds_upd id f v :
  (∀ x, cr_id (f x) = cr_id x) → (∀ x, x ∈ c → cr_id x = id → holds v (f x)) →
  ∀ y, y ∈ upd_cred id f c → holds (partial_alter (λ _, v) id g !! cr_id y) y.
Proof.
  intros Hid Hf y (x & Hx & ->)%upd_cred_elem. destruct (String.eqb_spec (cr_id x) id) as [He|He].
  - rewrite Hid, He, lookup_partial_alter_eq. auto.
  - rewrite lookup_partial_alter_ne by done. by apply (fo_holds _ _ _ _ _ _ Hok).
Qed.

Lemma dom_upd id f i :
  (∀ x, cr_id (f x) = cr_id x) → (∃ x, x ∈ c ∧ cr_id x = i) → ∃ y, y ∈ upd_cred id f c ∧ cr_id y = i.
Proof.
  intros Hid (x & Hx & <-). exists (if String.eqb (cr_id x) id then f x else x).
  split; [by apply (list_elem_of_fmap_2 (λ x, if String.eqb (cr_id x) id then f x else x))|].
  by destruct (String.eqb _ _).
Qed.

Lemma mint_cred_ok id exp :
  distinct_draws (S d) →
  fleet_ok (S (S d)) nid
    (upd_cred id (mint_cred d exp) c) w g spent.
Proof.
  intros Hd. set (f := mint_cred d exp).
  assert (∀ y raw, y ∈ upd_cred id f c → awaits y raw →
    ∃ x, x ∈ c ∧ cr_id y = cr_id x ∧ cr_asset y = cr_asset x ∧ (raw = nth_token d ∧ cr_id x = id ∨ awaits x raw)) as Haw.
  { intros y raw (x & Hx & ->)%upd_cred_elem Ay. exists x. destruct (String.eqb_spec (cr_id x) id); [|by eauto].
    destruct Ay as [m Hm]. injection Hm as Hm%hash_inj. split_and!; [done..|]. by left. }
  assert (fleet_ok (S (S d)) nid c w g spent) as Hok' by (apply (fleet_ok_draws d); [lia|exact Hok]).
  constructor.
  - rewrite upd_cred_fmap by done. apply Hok.
  - rewrite upd_cred_fmap by done. apply Hok.
  - intros y (x & Hx & ->)%upd_cred_elem. destruct (String.eqb _ _); exact (fo_old _ _ _ _ _ _ Hok x Hx).
  - intros y (x & Hx & ->)%upd_cred_elem. pose proof (fo_holds _ _ _ _ _ _ Hok x Hx). by destruct (String.eqb _ _).
  - intros i v Hv. destruct (fo_dom _ _ _ _ _ _ Hok' i v Hv) as [? ?]. split; [done|]. by apply dom_upd.
  - apply Hok.
  - intros y h (x & Hx & ->)%upd_cred_elem. destruct (String.eqb _ _); [|by apply (fo_en _ _ _ _ _ _ Hok')].
    intros [= <-]. exists (S d), (nth_token d). split_and!; [done|by exists d; split; [lia|]|].
    intros Hin%(fo_spent _ _ _ _ _ _ Hok). by apply (not_minted d (nth_token d)).
  - intros x y raw Hx Hy Ax Ay.
    destruct (Haw _ _ Hx Ax) as (x' & Hx' & -> & _ & [[-> Ex]|Bx]), (Haw _ _ Hy Ay) as (y' & Hy' & -> & _ & [[Er Ey]|By]).
    + congruence.
    + destruct (awaits_minted _ _ Hy' By) as [Hm _]. by apply not_minted in Hm.
    + subst raw. destruct (awaits_minted _ _ Hx' Bx) as [Hm _]. by apply not_minted in Hm.
    + by apply (fo_one _ _ _ _ _ _ Hok x' y' raw).
  - apply (fo_spent _ _ _ _ _ _ Hok').
  - intros r b Hb. destruct (fo_wait _ _ _ _ _ _ Hok r b Hb) as (Hm & Ho & Hall).
    split_and!; [by eapply minted_mono; [|exact Hm]; lia|done|]. intros y Hy. split.
    + destruct (upd_cred_elem _ _ _ _ Hy) as (x & Hx & ->). destruct (String.eqb _ _); exact (proj1 (Hall x Hx)).
    + intros Ay. destruct (Haw _ _ Hy Ay) as (x & Hx & -> & _ & [[He _]|Bx]); [|by apply Hall].
      by apply not_minted in Hm.
Qed.

(** Changes of the bearer columns that never add an enrolment. *)
Lemma upd_be_ok d' id f v :
  (d ≤ d')%nat →
  (∀ x, cr_id (f x) = cr_id x ∧ cr_asset (f x) = cr_asset x ∧ (cr_en (f x) = cr_en x ∨ en_hash (cr_en (f x)) = None)) →
  (∀ x, x ∈ c → cr_id x = id → holds v (f x)) →
  (∀ u, v = Some u → minted d' u.1 ∧ ¬ minted d u.1 ∧ ∃ x, x ∈ c ∧ cr_id x = id) →
  fleet_ok d' nid (upd_cred id f c) w (partial_alter (λ _, v) id g) spent.
Proof.
  intros Hd Hf Hv Hu. assert (fleet_ok d' nid c w g spent) as Hok' by (by apply (fleet_ok_draws d)).
  assert (∀ y h, y ∈ upd_cred id f c → en_hash (cr_en y) = Some h →
    ∃ x, x ∈ c ∧ en_hash (cr_en x) = Some h ∧ cr_id y = cr_id x ∧ cr_asset y = cr_asset x) as Hen.
  { intros y h (x & Hx & ->)%upd_cred_elem. destruct (String.eqb _ _); [|by eauto 10].
    destruct (Hf x) as (-> & -> & [->|He]); [by eauto 10|congruence]. }
  assert (∀ y raw, y ∈ upd_cred id f c → awaits y raw → ∃ x, x ∈ c ∧ awaits x raw ∧ cr_id y = cr_id x) as Haw.
  { intros y raw Hy [m Hm]. destruct (Hen _ _ Hy Hm) as (x & ? & ? & ? & ?). exists x. split_and!; [done|by exists m|done]. }
  constructor.
  - rewrite upd_cred_fmap by apply Hf. apply Hok.
  - rewrite upd_cred_fmap by (intros x; apply (proj1 (proj2 (Hf x)))). apply Hok.
  - intros y (x & Hx & ->)%upd_cred_elem. pose proof (fo_old _ _ _ _ _ _ Hok x Hx).
    destruct (String.eqb _ _); [by rewrite (proj1 (Hf x))|done].
  - apply holds_upd; [apply Hf|done].
  - intros i u. destruct (decide (i = id)) as [->|Hne].
    + rewrite lookup_partial_alter_eq. intros Hvu. destruct (Hu _ Hvu) as (? & _ & ?). split; [done|].
      apply dom_upd; [apply Hf|done].
    + rewrite lookup_partial_alter_ne by done. intros Hg.
      destruct (fo_dom _ _ _ _ _ _ Hok' i u Hg). split; [done|]. apply dom_upd; [apply Hf|done].
  - intros i j u u'. destruct (decide (i = id)) as [->|Hi], (decide (j = id)) as [->|Hj];
      rewrite ?lookup_partial_alter_eq, ?lookup_partial_alter_ne by done; [done|..]; intros A B He.
    + destruct (Hu _ A) as (_ & Hn & _), (fo_dom _ _ _ _ _ _ Hok _ _ B) as [Hm _]. rewrite He in Hn. done.
    + destruct (Hu _ B) as (_ & Hn & _), (fo_dom _ _ _ _ _ _ Hok _ _ A) as [Hm _]. rewrite <-He in Hn. done.
    + by apply (fo_raw _ _ _ _ _ _ Hok i j u u').
  - intros y h Hy Hh. destruct (Hen _ _ Hy Hh) as (x & Hx & Hxh & _). by apply (fo_en _ _ _ _ _ _ Hok' x).
  - intros x y raw Hx Hy Ax Ay. destruct (Haw _ _ Hx Ax) as (x' & Hx' & Ax' & ->), (Haw _ _ Hy Ay) as (y' & Hy' & Ay' & ->).
    by apply (fo_one _ _ _ _ _ _ Hok x' y' raw).
  - apply Hok'.
  - intros r b Hb. destruct (fo_wait _ _ _ _ _ _ Hok' r b Hb) as (Hm & Ho & Hall). split_and!; [done..|]. intros y Hy. split.
    + destruct (upd_cred_elem _ _ _ _ Hy) as (x & Hx & ->). pose proof (proj1 (Hall x Hx)) as HA.
      destruct (String.eqb _ _); [|done]. by rewrite (proj1 (Hf x)), (proj1 (proj2 (Hf x))).
    + intros Ay. destruct (Haw _ _ Hy Ay) as (x & Hx & Ax & ->). by apply (Hall x Hx).
Qed.

Lemma swap_ok r b now :
  distinct_draws (S d) → (r, b) ∈ w → (∃ x, x ∈ c ∧ cr_id x = ma_id r) →
  fleet_ok (S (S d)) nid
    (upd_cred (ma_id r) (swap_cred d now) c) w (<[ma_id r := (nth_token d, ma_assetId r)]> g) spent.
Proof.
  intros Hd Hrb Hin. destruct (fo_wait _ _ _ _ _ _ Hok r b Hrb) as (_ & _ & Hall).
  apply (upd_be_ok (S (S d)) (ma_id r) _ (Some (nth_token d, ma_assetId r))).
  - lia.
  - intros x. split_and!; [done..|by right].
  - intros x Hx He. split; [|by exists (S d), (Some now)]. cbn. symmetry. by apply (Hall x Hx).
  - intros u [= <-]. split_and!; [exists d; split; [lia|done]| |done].
    intros Hm. by apply (not_minted d _ Hd Hm).
Qed.

Lemma revoke_ok id now :
  fleet_ok d nid
    (upd_cred id (revoke_cred now) c) w (delete id g) spent.
Proof.
  apply (upd_be_ok d id _ None); [done|intros x; split_and!; [done..|by left]| |done]. intros x _ _. by right.
Qed.

Lemma remove_ok id : fleet_ok d nid (List.filter (λ x, negb (String.eqb (cr_id x) id)) c) w (delete id g) spent.
Proof.
  assert (∀ x, x ∈ List.filter (λ x, negb (String.eqb (cr_id x) id)) c ↔ x ∈ c ∧ cr_id x ≠ id) as Hin.
  { intros x. by rewrite !list_elem_of_In, filter_In, negb_true_iff, String.eqb_neq. }
  assert (∀ h : Cred → string, NoDup (h <$> c) → NoDup (h <$> List.filter (λ x, negb (String.eqb (cr_id x) id)) c)) as Hnd.
  { intros h. clear. induction c as [|x l IH]; [done|]. rewrite fmap_cons. intros [Hx Hl]%NoDup_cons. cbn [List.filter].
    destruct (negb _); [|by apply IH]. rewrite fmap_cons. apply NoDup_cons. split; [|by apply IH].
    intros (y & He & Hy)%list_elem_of_fmap. apply Hx. rewrite He. apply list_elem_of_fmap_2.
    rewrite list_elem_of_In in *. by apply filter_In in Hy as [? _]. }
  constructor.
  - apply Hnd, Hok.
  - apply Hnd, Hok.
  - intros x [Hx _]%Hin. by apply (fo_old _ _ _ _ _ _ Hok).
  - intros x [Hx Hne]%Hin. rewrite lookup_delete_ne by done. by apply (fo_holds _ _ _ _ _ _ Hok).
  - intros i v [Hne Hv]%lookup_delete_Some. destruct (fo_dom _ _ _ _ _ _ Hok i v Hv) as (? & x & Hx & <-).
    split; [done|]. exists x. split; [|done]. apply Hin. done.
  - intros i j v v' [_ ?]%lookup_delete_Some [_ ?]%lookup_delete_Some. by apply (fo_raw _ _ _ _ _ _ Hok).
  - intros x h [Hx _]%Hin. by apply (fo_en _ _ _ _ _ _ Hok).
  - intros x y raw [Hx _]%Hin [Hy _]%Hin. by apply (fo_one _ _ _ _ _ _ Hok).
  - apply Hok.
  - intros r b Hb. destruct (fo_wait _ _ _ _ _ _ Hok r b Hb) as (? & ? & Hall). split_and!; [done..|].
    intros x [Hx _]%Hin. by apply Hall.
Qed.

Lemma add_ok x :
  cr_id x = pretty nid → cr_asset x ∉ cr_asset <$> c → en_hash (cr_en x) = None → be_hash (cr_be x) = None →
  fleet_ok d (S nid) (c ++ [x]) w g spent.
Proof.
  intros Hid Has Hen Hbe.
  assert (∀ i, old_id nid i → i ≠ pretty nid) as Hne.
  { intros i (n & Hn & ->) He%(inj pretty). lia. }
  assert (g !! pretty nid = None) as Hg.
  { destruct (g !! pretty nid) as [v|] eqn:Hv; [|done]. destruct (fo_dom _ _ _ _ _ _ Hok _ _ Hv) as (_ & y & Hy & He).
    by destruct (Hne (cr_id y)); [apply (fo_old _ _ _ _ _ _ Hok)|]. }
  assert (∀ raw, ¬ awaits x raw) as Haw by (intros raw [m Hm]; congruence).
  constructor.
  - rewrite fmap_app. apply NoDup_app. split_and!; [apply Hok| |apply NoDup_singleton].
    intros i (y & -> & Hy)%list_elem_of_fmap He%list_elem_of_singleton. rewrite Hid in He.
    by apply (Hne (cr_id y)); [apply (fo_old _ _ _ _ _ _ Hok)|].
  - rewrite fmap_app. apply NoDup_app. split_and!; [apply Hok| |apply NoDup_singleton].
    intros i Hi He%list_elem_of_singleton. by subst i.
  - intros y [Hy| ->%list_elem_of_singleton]%elem_of_app.
    + eapply old_id_mono; [|by apply (fo_old _ _ _ _ _ _ Hok)]. lia.
    + exists nid. split; [lia|done].
  - intros y [Hy| ->%list_elem_of_singleton]%elem_of_app; [by apply (fo_holds _ _ _ _ _ _ Hok)|].
    rewrite Hid, Hg. by left.
  - intros i v Hv. destruct (fo_dom _ _ _ _ _ _ Hok i v Hv) as (? & y & Hy & ?). split; [done|]. exists y.
    split; [|done]. apply elem_of_app. by left.
  - apply Hok.
  - intros y h [Hy| ->%list_elem_of_singleton]%elem_of_app; [by apply (fo_en _ _ _ _ _ _ Hok)|congruence].
  - intros y z raw [Hy| ->%list_elem_of_singleton]%elem_of_app [Hz| ->%list_elem_of_singleton]%elem_of_app Ay Az;
      [by apply (fo_one _ _ _ _ _ _ Hok y z raw)|by destruct (Haw raw)..].
  - apply Hok.
  - intros r b Hb. destruct (fo_wait _ _ _ _ _ _ Hok r b Hb) as (? & Ho & Hall).
    split_and!; [done|eapply old_id_mono; [|done]; lia|]. intros y [Hy| ->%list_elem_of_singleton]%elem_of_app; [by apply Hall|].
    split; [intros He; destruct (Hne _ Ho); congruence|]. intros Ay. by destruct (Haw _ Ay).
Qed.

Lemma spend_ok w' tok :
  (∀ x, x ∈ c → ¬ awaits x tok) → minted d tok → (∀ rb, rb ∈ w' → rb ∈ w) →
  fleet_ok d nid c w' g (tok :: spent).
Proof.
  intros Haw Hm Hw. constructor; try apply Hok.
  - intros x h Hx Hh. destruct (fo_en _ _ _ _ _ _ Hok x h Hx Hh) as (m & raw & -> & ? & ?). exists m, raw.
    split_and!; [done..|]. intros [->|?]%elem_of_cons; [|done]. apply (Haw x Hx). by exists m.
  - intros raw [->|Hr]%elem_of_cons; [done|]. by apply (fo_spent _ _ _ _ _ _ Hok).
  - intros r b Hb%Hw. by apply (fo_wait _ _ _ _ _ _ Hok).
Qed.

Lemma wait_ok r b :
  minted d (eb_enrollmentToken b) → (∃ x, x ∈ c ∧ cr_id x = ma_id r ∧ cr_asset x = ma_assetId r ∧ awaits x (eb_enrollmentToken b)) →
  fleet_ok d nid c (w ++ [(r, b)]) g spent.
Proof.
  intros Hm (x & Hx & Hid & Has & Aw). constructor; try apply Hok.
  intros r' b' [Hb|[= -> ->]%list_elem_of_singleton]%elem_of_app; [by apply (fo_wait _ _ _ _ _ _ Hok)|].
  split_and!; [done|rewrite <-Hid; by apply (fo_old _ _ _ _ _ _ Hok)|]. intros y Hy. split.
  - intros He. assert (y = x) as -> by (apply (elem_by_id (fo_ids _ _ _ _ _ _ Hok) Hy Hx); congruence). done.
  - intros Ay. rewrite <-Hid. by apply (fo_one _ _ _ _ _ _ Hok y x (eb_enrollmentToken b)).
Qed.
End changes.

(** ** Statements that touch no credential *)

Definition same_creds (c : list Cred) (nid d : nat) (s : AgentState) : Prop :=
  creds s = c ∧ ag_nextId s = nid ∧ (d ≤ ag_draws s)%nat.
Definition neutral {B} (m : M AgentState B) : Prop := ∀ c nid d, keeps (same_creds c nid d) m.

Lemma neutral_readonly {B} (m : M AgentState B) : readonly m → neutral m.
Proof. intros Hm c nid d. by apply keeps_readonly. Qed.
Lemma neutral_hbind {B C} (m : M AgentState B) (k : B → M AgentState C) :
  neutral m → (∀ b, neutral (k b)) → neutral (hbind m k).
Proof. intros Hm Hk c nid d. apply keeps_hbind; [apply Hm|]. intros b. apply Hk. Qed.
Lemma neutral_hcatch {B} (m : M AgentState B) h : neutral m → (∀ e, neutral (h e)) → neutral (hcatch m h).
Proof. intros Hm Hh c nid d. apply keeps_hcatch; [apply Hm|]. intros e. apply Hh. Qed.
Lemma neutral_draw : neutral ag_draw.
Proof. intros c nid d s s' r (? & ? & ?) [= <- <-]. split_and!; [done..|cbn; lia]. Qed.
Lemma neutral_log a i : neutral (log_agent a i).
Proof. by intros c nid d s s' r Hs [= <- <-]. Qed.
Lemma neutral_modify (f : AgentState → AgentState) : (∀ s, creds (f s) = creds s ∧ ag_nextId (f s) = ag_nextId s ∧ ag_draws (f s) = ag_draws s) →
  neutral (hmodify f).
Proof. intros Hf c nid d s s' r (? & ? & ?) [= <- <-]. destruct (Hf s) as (A & B & C). split_and!; [congruence..|lia]. Qed.

Lemma creds_update (p : ManagedAgent → bool) (f : ManagedAgent → ManagedAgent) s :
  (∀ a, cred (f a) = cred a) → creds (set_agents ((λ a, if p a then f a else a) <$> ag_agents s) s) = creds s.
Proof. intros Hf. unfold creds. cbn. rewrite <-list_fmap_compose. apply list_fmap_ext. intros i a _. cbn. by destruct (p a); rewrite ?Hf. Qed.

Lemma neutral_update id (f : ManagedAgent → ManagedAgent) : (∀ a, cred (f a) = cred a) → neutral (update_agent id f).
Proof.
  intros Hf. unfold update_agent. apply neutral_hbind; [by apply neutral_readonly, readonly_hgets|]. intros [a|].
  - apply neutral_modify. intros s. split_and!; [by apply creds_update|done..].
  - by apply neutral_readonly, readonly_hthrow.
Qed.
Lemma neutral_polling id p : neutral (set_polling id p).
Proof.
  unfold set_polling. apply neutral_hbind; [by apply neutral_readonly, readonly_hgets|]. intros [a|].
  - by apply neutral_modify.
  - by apply neutral_readonly, readonly_hthrow.
Qed.
Lemma neutral_hret {B} (b : B) : neutral (hret b).
Proof. by apply neutral_readonly, readonly_hret. Qed.
Lemma neutral_hthrow {B} e : neutral (hthrow (A := B) e).
Proof. by apply neutral_readonly, readonly_hthrow. Qed.
Lemma neutral_hguard b e : neutral (hguard b e).
Proof. by apply neutral_readonly, readonly_hguard. Qed.
Lemma neutral_hgets {B} (f : AgentState → B) : neutral (hgets f).
Proof. by apply neutral_readonly, readonly_hgets. Qed.
Lemma neutral_find_agent p : neutral (find_agent p).
Proof. apply neutral_hgets. Qed.
Lemma neutral_find_asset id : neutral (find_asset id).
Proof. apply neutral_hgets. Qed.
Lemma neutral_get_credential id : neutral (get_credential id).
Proof. apply neutral_hgets. Qed.

Create HintDb neutral.
Hint Resolve neutral_hbind neutral_hcatch neutral_draw neutral_log neutral_polling neutral_hret neutral_hthrow
  neutral_hguard neutral_hgets neutral_find_agent neutral_find_asset neutral_get_credential : neutral.
Hint Extern 1 (neutral (update_agent _ _)) => apply neutral_update; by intros : neutral.
Ltac solve_neutral :=
  repeat (cbv beta zeta; match goal with
  | |- ∀ _, _ => intros ?
  | |- neutral (hbind _ _) => apply neutral_hbind
  | |- neutral (hcatch _ _) => apply neutral_hcatch
  | |- neutral (match ?x with _ => _ end) => destruct x
  end); eauto with neutral.

Lemma neutral_try id st reason : neutral (try_status id st reason).
Proof. unfold try_status. solve_neutral. Qed.
Hint Resolve neutral_try : neutral.
Lemma neutral_transition id st : neutral (transition id st).
Proof. unfold transition. solve_neutral. Qed.
Hint Resolve neutral_transition : neutral.
Lemma neutral_fail id assetId reason :
  neutral (failInstall id assetId reason) ∧ neutral (failUninstall id assetId reason) ∧
  neutral (failUpgrade id assetId reason).
Proof. unfold failInstall, failUninstall, failUpgrade. split_and!; solve_neutral. Qed.
Hint Extern 1 (neutral (failInstall _ _ _)) => apply neutral_fail : neutral.
Hint Extern 1 (neutral (failUninstall _ _ _)) => apply neutral_fail : neutral.
Hint Extern 1 (neutral (failUpgrade _ _ _)) => apply neutral_fail : neutral.

Lemma neutral_verifyBearer raw ip : neutral (verifyBearer raw ip).
Proof.
  unfold verifyBearer. solve_neutral. apply neutral_modify. intros s. split_and!; [by apply creds_update|done..].
Qed.
Hint Resolve neutral_verifyBearer : neutral.
Lemma neutral_bearer_guard authorization ip : neutral (requireAgentBearer authorization ip).
Proof. unfold requireAgentBearer. solve_neutral. Qed.
Hint Resolve neutral_bearer_guard : neutral.
Lemma neutral_heartbeat authorization ip v : neutral (heartbeat authorization ip v).
Proof. unfold heartbeat. solve_neutral. Qed.
Lemma neutral_install_finish row remote : neutral (install_finish row remote).
Proof. unfold install_finish. solve_neutral. Qed.
Lemma neutral_uninstall_begin id c : neutral (uninstall_begin id c).
Proof. unfold uninstall_begin. solve_neutral. Qed.
Lemma neutral_upgrade id c : neutral (startUpgrade id c).
Proof. unfold startUpgrade. solve_neutral. Qed.
Hint Resolve neutral_upgrade : neutral.
Lemma neutral_upgrade_begin id c b : neutral (upgrade_begin id c b).
Proof. unfold upgrade_begin. solve_neutral. Qed.
Lemma neutral_upgrade_finish row remote : neutral (upgrade_finish row remote).
Proof. unfold upgrade_finish. solve_neutral. Qed.
Lemma neutral_retry assetId : neutral (postAgentRetry assetId).
Proof. unfold postAgentRetry. solve_neutral. Qed.
Lemma neutral_postUpgrade assetId c : neutral (postAgentUpgrade assetId c).
Proof. unfold postAgentUpgrade. solve_neutral. Qed.
Lemma neutral_dropCredential id : neutral (dropCredential id).
Proof.
  unfold dropCredential. apply neutral_modify. intros s. split_and!; [|done..]. unfold creds. cbn.
  rewrite <-list_fmap_compose. apply list_fmap_ext. intros i a _. cbn. by destruct (bool_decide _).
Qed.

Lemma inv_frame s s' w g sp :
  same_creds (creds s) (ag_nextId s) (ag_draws s) s' →
  fleet_inv (mkFleet s w g sp) → fleet_inv (mkFleet s' w g sp).
Proof. intros (Hc & Hn & Hd) Hinv. unfold fleet_inv in *. cbn in *. rewrite Hc, Hn. by eapply fleet_ok_draws. Qed.

Lemma neutral_inv {B} (m : M AgentState B) x : neutral m → fleet_inv x → fleet_inv (run_on m x).
Proof.
  intros Hm Hx. destruct x as [s w g sp]. unfold run_on, on_state. cbn.
  eapply inv_frame; [|exact Hx]. destruct (m s) as [s' r] eqn:Hr.
  eapply Hm; [|exact Hr]. by split_and!.
Qed.
Lemma neutral_run {B} (m : M AgentState B) s s' r :
  neutral m → m s = (s', r) → same_creds (creds s) (ag_nextId s) (ag_draws s) s'.
Proof. intros Hm. apply Hm. by split_and!. Qed.

(** ** Statements that change credentials *)

Lemma update_agent_run id f s s' r :
  update_agent id f s = (s', r) →
  r = Throw (PrismaError "P2025") ∧ s' = s ∧ (∀ a, a ∈ ag_agents s → ma_id a ≠ id) ∨
  r = Ok tt ∧ s' = set_agents ((λ a, if agent_is id a then f a else a) <$> ag_agents s) s ∧
    ∃ a, a ∈ ag_agents s ∧ ma_id a = id.
Proof.
  unfold update_agent, find_agent. hred. destruct (List.find _ _) as [a|] eqn:Hf; hred; intros [= <- <-].
  - right. apply find_some in Hf as [Ha%list_elem_of_In He%String.eqb_eq]. eauto 10.
  - left. split_and!; [done..|]. intros a Ha He. eapply find_none in Hf; [|by apply list_elem_of_In].
    unfold agent_is in Hf. by rewrite He, String.eqb_refl in Hf.
Qed.

Lemma creds_upd (id : string) (f : ManagedAgent → ManagedAgent) h (l : list ManagedAgent) s :
  (∀ a, cred (f a) = h (cred a)) →
  creds (set_agents ((λ a, if agent_is id a then f a else a) <$> l) s) = upd_cred id h (cred <$> l).
Proof.
  intros Hf. unfold creds, upd_cred. cbn. rewrite <-!list_fmap_compose. apply list_fmap_ext. intros i a _. cbn.
  unfold agent_is. by destruct (String.eqb _ _).
Qed.

Lemma find_agent_some p s a : List.find p (ag_agents s) = Some a → cred a ∈ creds s ∧ p a = true.
Proof. intros [Ha%list_elem_of_In Hp]%find_some. split; [|done]. by apply list_elem_of_fmap_2. Qed.

Lemma mint_inv id s s' r w g sp :
  mintEnrollmentToken id s = (s', r) → distinct_draws (ag_draws s') →
  fleet_inv (mkFleet s w g sp) → fleet_inv (mkFleet s' w g sp).
Proof.
  unfold mintEnrollmentToken, agent_token, agent_hash, ag_draw. hred. cbn [ag_draws ag_now ag_agents ag_assets ag_env ag_nextId ag_events].
  unfold hbind at 1. match goal with |- context [update_agent id ?f ?s0] => destruct (update_agent id f s0) as [s2 r2] eqn:Hu end.
  apply update_agent_run in Hu as [(-> & -> & _)|(-> & -> & _)]; intros [= <- <-] Hd Hinv; cbn in Hd.
  - eapply (inv_frame s); [|exact Hinv]. split_and!; [done..|cbn; lia].
  - unfold fleet_inv. cbn [fl_state fl_waiting fl_book fl_spent].
    rewrite (creds_upd id _ (mint_cred (ag_draws s) (Some (ag_now s + ENROLLMENT_TTL_MS)))) by done.
    apply (mint_cred_ok _ _ _ _ _ _ Hinv). intros n m ? ?. apply Hd; cbn in *; lia.
Qed.

Lemma bind_inv {B C} (m : M AgentState B) (k : B → M AgentState C) s s' r w g sp :
  hbind m k s = (s', r) → distinct_draws (ag_draws s') → (∀ b, neutral (k b)) →
  (∀ s1 r1, m s = (s1, r1) → distinct_draws (ag_draws s1) → fleet_inv (mkFleet s1 w g sp)) →
  fleet_inv (mkFleet s' w g sp).
Proof.
  unfold hbind. intros Hr Hd Hk Hm. destruct (m s) as [s1 [b|e]] eqn:Hms; [|injection Hr as <- <-; by eapply Hm].
  pose proof (neutral_run _ _ _ _ (Hk b) Hr) as Hsame. eapply inv_frame; [exact Hsame|].
  eapply Hm; [done|]. intros n m' ? ?. destruct Hsame as (_ & _ & ?). apply Hd; lia.
Qed.

Lemma install_begin_inv id c b s s' r w g sp :
  install_begin id c b s = (s', r) → distinct_draws (ag_draws s') →
  fleet_inv (mkFleet s w g sp) → fleet_inv (mkFleet s' w g sp).
Proof.
  unfold install_begin, find_agent. unfold hbind at 1, hgets at 1. cbv beta iota.
  destruct (List.find _ _) as [row|]; [|by intros [= <- <-]].
  intros Hr Hd Hinv. eapply bind_inv; [exact Hr|done| |intros s1 r1 Hm Hd1; by eapply mint_inv].
  solve_neutral.
Qed.

(** *** Enrolment *)

Lemma opens_hash raw m p : opens raw (Some (argonHash m p)) = true ↔ p = raw.
Proof.
  unfold opens, verifyPassword. cbn [Js.otruthy]. pose proof (argonHash_format m p) as Hf. rewrite Hf.
  destruct (Js.truthy (argonHash m p)) eqn:Ht; cbn; [apply argonVerify_hash|]. by destruct (argonHash m p).
Qed.

Lemma consume_match_run raw s s' r :
  consume_match raw s = (s', r) →
  s' = s ∧ ((∃ row, r = Ok row ∧ row ∈ ag_agents s ∧ opens raw (en_hash (ma_enrollment row)) = true ∧
               enroll_candidate (ag_now s) raw row = true) ∨
            (r = Throw (AppError 401 "Invalid enrollment token") ∨
             r = Throw (AppError 401 "Enrollment token rejected — expired or already consumed")) ∧
            (Js.startsWith TOKEN_PREFIX raw = true → ∀ a, a ∈ ag_agents s → enroll_candidate (ag_now s) raw a = true →
               opens raw (en_hash (ma_enrollment a)) = false)).
Proof.
  unfold consume_match. unfold hbind at 1, hguard at 1.
  destruct (negb (Js.truthy raw) || negb (Js.startsWith TOKEN_PREFIX raw)) eqn:Hg.
  - cbv beta iota delta [hthrow]. intros [= <- <-]. split; [done|]. right. split; [by left|]. intros Hs a _ Hc.
    rewrite Hs, orb_false_r in Hg. by destruct raw.
  - cbv beta iota delta [hret]. hred. destruct (List.find _ _) as [row|] eqn:Hf; intros [= <- <-]; (split; [done|]).
    + left. apply find_some in Hf as [[Hin%list_elem_of_In Hc]%filter_In Ho]. eauto 10.
    + right. split; [by right|]. intros _ a Ha Hc. apply (find_none _ _ Hf). apply filter_In.
      split; [by apply list_elem_of_In|done].
Qed.

Lemma enroll_start_inv body s s' r w g sp :
  enroll_match body s = (s', r) → fleet_inv (mkFleet s w g sp) →
  s' = s ∧ ∀ row, r = Ok row → fleet_inv (mkFleet s (w ++ [(row, body)]) g sp).
Proof.
  unfold enroll_match. unfold hbind at 1, hguard at 1. destruct (negb _).
  { cbv beta iota delta [hthrow]. intros [= <- <-] _. by split. }
  cbv beta iota delta [hret]. intros (-> & Hr)%consume_match_run Hinv. split; [done|]. intros row ->.
  destruct Hr as [(row' & [= <-] & Hin & Ho & Hc)|[[?|?] _]]; [|done..].
  assert (cred row ∈ creds s) as Hx by (by apply list_elem_of_fmap_2).
  unfold opens in Ho. apply andb_true_iff in Ho as [Ht Ho].
  destruct (en_hash (ma_enrollment row)) as [h|] eqn:Hh; [|done].
  destruct (fo_en _ _ _ _ _ _ Hinv (cred row) h Hx Hh) as (m & raw & -> & Hm & _).
  assert (raw = eb_enrollmentToken body) as ->.
  { apply (opens_hash _ m). unfold opens. by rewrite Ht, Ho. }
  apply wait_ok; [exact Hinv|done|]. exists (cred row). split_and!; [done..|]. by exists m.
Qed.

Definition has_agent (id : string) (s : AgentState) : Prop := ∃ a, a ∈ ag_agents s ∧ ma_id a = id.

Lemma update_agent_has id f s :
  has_agent id s → update_agent id f s = (set_agents ((λ a, if agent_is id a then f a else a) <$> ag_agents s) s, Ok tt).
Proof.
  intros (a & Ha & He). destruct (update_agent id f s) as [s' r] eqn:Hu.
  apply update_agent_run in Hu as [(_ & _ & Hn)|(-> & -> & _)]; [by destruct (Hn a Ha)|done].
Qed.

Lemma ag_tx_run {B} (m : M AgentState B) s s' r :
  ag_tx m s = (s', r) → (∃ e, r = Throw e ∧ s' = s ∧ (m s).2 = Throw e) ∨ m s = (s', r) ∧ is_ok r = true.
Proof. unfold ag_tx. destruct (m s) as [s1 [b|e]]; intros [= <- <-]; [by right|left; eauto]. Qed.

Lemma set_polling_run id p s s' r :
  set_polling id p s = (s', r) →
  r = Throw (PrismaError "P2025") ∧ s' = s ∨
  r = Ok tt ∧ s' = set_ag_assets ((λ a, if asset_is id a then with_polling p a else a) <$> ag_assets s) s.
Proof. unfold set_polling, find_asset. hred. destruct (List.find _ _); hred; intros [= <- <-]; [by right|by left]. Qed.

Definition swapped (row : ManagedAgent) (s s' : AgentState) : Prop :=
  has_agent (ma_id row) s ∧
  ag_agents s' = (λ a, if agent_is (ma_id row) a
                       then with_status ActiveAgent None (with_enrollment (mkEnrollment None None None)
                         (with_bearer (mkBearer (Some (argonHash (S (ag_draws s)) (nth_token (ag_draws s))))
                            (Some (token_prefix (nth_token (ag_draws s)))) (Some (ag_now s)) None) a))
                       else a) <$> ag_agents s ∧
  ag_draws s' = S (S (ag_draws s)) ∧ ag_nextId s' = ag_nextId s ∧ ag_now s' = ag_now s.

Lemma consume_swap_run row s s' r :
  consume_swap row s = (s', r) →
  r = Throw (PrismaError "P2025") ∧ same_creds (creds s) (ag_nextId s) (ag_draws s) s' ∨
  r = Ok (nth_token (ag_draws s)) ∧ swapped row s s'.
Proof.
  unfold consume_swap, agent_token, agent_hash, ag_draw. hred.
  cbn [ag_draws ag_now ag_agents ag_assets ag_env ag_nextId ag_events].
  unfold hbind at 1. match goal with |- context [ag_tx ?m ?s0] => destruct (ag_tx m s0) as [s2 r2] eqn:Htx end.
  apply ag_tx_run in Htx as [(e & -> & -> & He)|[Hm Hr]].
  - intros [= <- <-]. left. split; [|by split_and!; [..|cbn; lia]].
    unfold hbind in He. match goal with H : context [update_agent ?i ?f ?s0] |- _ => destruct (update_agent i f s0) as [s3 r3] eqn:Hu end.
    apply update_agent_run in Hu as [(-> & _ & _)|(-> & -> & _)]; [cbn in He; congruence|].
    match goal with H : context [set_polling ?i ?f ?s0] |- _ => destruct (set_polling i f s0) as [s4 r4] eqn:Hp end.
    apply set_polling_run in Hp as [[-> _]|[-> _]]; cbn in He; congruence.
  - unfold hbind in Hm. match goal with H : context [update_agent ?i ?f ?s0] |- _ => destruct (update_agent i f s0) as [s3 r3] eqn:Hu end.
    apply update_agent_run in Hu as [(-> & _ & _)|(-> & -> & Hin)]; [injection Hm as <- <-; done|].
    apply set_polling_run in Hm as [[-> _]|[-> ->]]; [done|]. intros [= <- <-]. right. split; [done|].
    split_and!; [exact Hin|done..].
Qed.

Lemma swapped_creds row s s' :
  swapped row s s' → creds s' = upd_cred (ma_id row) (swap_cred (ag_draws s) (ag_now s)) (creds s).
Proof.
  intros (_ & Ha & _). unfold creds. rewrite Ha. by apply (creds_upd (ma_id row) _ _ (ag_agents s) s).
Qed.
Lemma swapped_has row s s' : swapped row s s' → has_agent (ma_id row) s'.
Proof.
  intros ((a & Ha & He) & Hl & _). unfold has_agent. rewrite Hl. eexists. split; [by apply list_elem_of_fmap_2|].
  cbn. unfold agent_is. rewrite He, String.eqb_refl. done.
Qed.

Lemma enroll_finish_run body row s s' r :
  enroll_finish body row s = (s', r) →
  (∃ code, r = Throw (PrismaError code)) ∧ same_creds (creds s) (ag_nextId s) (ag_draws s) s' ∨
  (∃ s1, swapped row s s1 ∧
     ((r = Ok (nth_token (ag_draws s)) ∧ same_creds (creds s1) (ag_nextId s1) (ag_draws s1) s') ∨
      ((∃ msg, r = Throw (AppError 400 msg)) ∧ ag_draws s' = ag_draws s1 ∧ ag_nextId s' = ag_nextId s1 ∧
        creds s' = upd_cred (ma_id row) (revoke_cred (ag_now s1)) (creds s1)))).
Proof.
  unfold enroll_finish. unfold hbind at 1. destruct (consume_swap row s) as [s1 [b|e]] eqn:Hsw;
    apply consume_swap_run in Hsw as [[Hb Hsame]|[Hb Hsw]]; try discriminate Hb.
  2: { injection Hb as ->. intros [= <- <-]. left. eauto. }
  injection Hb as ->. intros Hrun. right. exists s1. split; [done|]. pose proof (swapped_has _ _ _ Hsw) as Hhas.
  revert Hrun. unfold hbind at 1, hgets at 1. cbv beta iota zeta.
  match goal with |- (if ?b then _ else _) _ = _ → _ => destruct b end;
    [|match goal with |- (if ?b then _ else _) _ = _ → _ => destruct b end].
  - unfold hbind at 1. rewrite update_agent_has by done. unfold hbind at 1, log_agent, hmodify. cbv beta iota delta [hthrow].
    intros [= <- <-]. right. split_and!; [by eexists|done..|]. by apply (creds_upd (ma_id row) _ _ (ag_agents s1) s1).
  - unfold hbind at 1. rewrite update_agent_has by done. cbv beta iota delta [hthrow].
    intros [= <- <-]. right. split_and!; [by eexists|done..|]. by apply (creds_upd (ma_id row) _ _ (ag_agents s1) s1).
  - unfold hbind at 1. rewrite update_agent_has by done. unfold hbind at 1, log_agent, hmodify. cbv beta iota delta [hret].
    intros [= <- <-]. left. split; [done|]. split_and!; [|done..].
    by apply (creds_update (agent_is (ma_id row)) (with_version _) s1).
Qed.

Lemma wait_sub d nid c w g sp w' : (∀ rb, rb ∈ w' → rb ∈ w) → fleet_ok d nid c w g sp → fleet_ok d nid c w' g sp.
Proof. intros Hw [A B C D E F G I J K]. constructor; try done. intros r b Hb%Hw. by apply K. Qed.

Lemma swapped_awaits d nid c w g sp row body y f :
  fleet_ok d nid c w g sp → (row, body) ∈ w →
  (∀ x, en_hash (cr_en (f x)) = None) → y ∈ upd_cred (ma_id row) f c → ¬ awaits y (eb_enrollmentToken body).
Proof.
  intros Hok Hin Hf (x & Hx & ->)%upd_cred_elem [m Hm]. destruct (String.eqb_spec (cr_id x) (ma_id row)) as [He|Hne].
  - by rewrite Hf in Hm.
  - destruct (fo_wait _ _ _ _ _ _ Hok row body Hin) as (_ & _ & Hall). apply Hne, (Hall x Hx). by exists m.
Qed.

Lemma finish_enroll_inv row body k x :
  fl_waiting x !! k = Some (row, body) →
  distinct_draws (ag_draws (fl_state (finish_enroll row body k x))) →
  fleet_inv x → fleet_inv (finish_enroll row body k x).
Proof.
  destruct x as [s w g sp]. cbn [fl_waiting]. intros Hk. assert ((row, body) ∈ w) as Hin by (by eapply list_elem_of_lookup_2).
  assert (∀ rb, rb ∈ delete k w → rb ∈ w) as Hsub by (intros rb; apply list_elem_of_delete_inv).
  unfold finish_enroll. cbn [fl_state fl_waiting fl_book fl_spent].
  destruct (enroll_finish body row s) as [s' r] eqn:Hr. cbn [fl_state]. intros Hd Hinv.
  apply enroll_finish_run in Hr as [[[code ->] Hsame]|(s1 & Hsw & Hr)].
  { eapply (inv_frame s); [exact Hsame|]. by eapply wait_sub. }
  pose proof (swapped_creds _ _ _ Hsw) as Hc1. destruct Hsw as ((a & Ha & Hid) & _ & Hd1 & Hn1 & Hnow).
  assert (minted (ag_draws s) (eb_enrollmentToken body)) as Hmint by apply (fo_wait _ _ _ _ _ _ Hinv row body Hin).
  assert (∃ x, x ∈ creds s ∧ cr_id x = ma_id row) as Hex.
  { exists (cred a). split; [by apply list_elem_of_fmap_2|done]. }
  assert (S (S (ag_draws s)) ≤ ag_draws s')%nat as Hdle.
  { destruct Hr as [(_ & _ & _ & ?)|(_ & -> & _)]; lia. }
  assert (distinct_draws (S (ag_draws s))) as Hdd by (intros n m ? ?; apply Hd; lia).
  pose proof (swap_ok _ _ _ _ _ _ Hinv row body (ag_now s) Hdd Hin Hex) as Hok1.
  unfold fleet_inv. cbn [fl_state fl_waiting fl_book fl_spent].
  destruct Hr as [(-> & Hc' & Hn' & _)|([msg ->] & Hd' & Hn' & Hc')].
  - rewrite Hc', Hn', Hn1, Hc1. apply (fleet_ok_draws (S (S (ag_draws s)))); [done|].
    eapply spend_ok; [exact Hok1| |eapply minted_mono; [|exact Hmint]; lia|done].
    intros y Hy. eapply swapped_awaits; [exact Hinv|exact Hin| |exact Hy]. done.
  - rewrite Hc', Hn', Hn1, Hc1, Hd', Hd1. pose proof (revoke_ok _ _ _ _ _ _ Hok1 (ma_id row) (ag_now s1)) as Hok2.
    rewrite delete_insert_eq in Hok2.
    eapply spend_ok; [exact Hok2| |eapply minted_mono; [|exact Hmint]; lia|done].
    intros y (x & Hx & ->)%upd_cred_elem Ay. eapply swapped_awaits; [exact Hinv|exact Hin| |exact Hx|]; [done|].
    destruct Ay as [m Hm]. exists m. by destruct (String.eqb _ _).
Qed.

(** *** Revoking, deleting, installing *)

Lemma revoke_cred_inv id s w g sp :
  fleet_inv (mkFleet s w g sp) →
  fleet_inv (mkFleet (set_agents ((λ a, if agent_is id a then with_revoked (ag_now s) a else a) <$> ag_agents s) s)
               w (delete id g) sp).
Proof.
  intros Hinv. unfold fleet_inv. cbn [fl_state fl_waiting fl_book fl_spent].
  rewrite (creds_upd id _ (revoke_cred (ag_now s))) by done. by apply revoke_ok.
Qed.

Lemma revoked_not_booked x d nid c w g sp :
  fleet_ok d nid c w g sp → x ∈ c → be_revokedAt (cr_be x) ≠ None → delete (cr_id x) g = g.
Proof.
  intros Hok Hx Hr. apply delete_id. destruct (g !! cr_id x) as [[raw a]|] eqn:Hg; [|done].
  pose proof (fo_holds _ _ _ _ _ _ Hok x Hx) as Hh. rewrite Hg in Hh. destruct Hh as (_ & m & i & Hb). by rewrite Hb in Hr.
Qed.

Lemma revokeBearer_inv id s s' r w g sp :
  revokeBearer id s = (s', r) → fleet_inv (mkFleet s w g sp) →
  (has_agent id s → is_ok r = true ∧ has_agent id s' ∧ fleet_inv (mkFleet s' w (delete id g) sp)) ∧
  ag_draws s' = ag_draws s.
Proof.
  unfold revokeBearer, find_agent. unfold hbind at 1, hgets at 1. cbv beta iota.
  destruct (List.find _ _) as [row|] eqn:Hf.
  - apply find_agent_some in Hf as [Hc Hid%String.eqb_eq].
    destruct (bool_decide _) eqn:Hb.
    + cbv beta iota delta [hret]. intros [= <- <-] Hinv. split; [|done]. intros Hh. split_and!; [done..|].
      assert (delete (ma_id row) g = g) as Hdel.
      { apply (revoked_not_booked (cred row) (ag_draws s) (ag_nextId s) (creds s) w g sp); [exact Hinv|done|].
        apply bool_decide_eq_true in Hb as [t Ht]. cbn. by rewrite Ht. }
      by rewrite <-Hid, Hdel.
    + unfold hbind at 1, hgets at 1. cbv beta iota. unfold hbind at 1.
      destruct (update_agent _ _ s) as [s2 r2] eqn:Hu. apply update_agent_run in Hu as [(-> & -> & Hn)|(-> & -> & Hin)].
      * intros [= <- <-] _. split; [|done]. intros (a & Ha & He). by destruct (Hn a Ha).
      * cbv beta iota delta [hret]. intros [= <- <-] Hinv. split; [|done]. intros _.
        split_and!; [done| |by apply revoke_cred_inv]. destruct Hin as (a & Ha & He).
        eexists. split; [by apply (list_elem_of_fmap_2 (λ a, if agent_is id a then with_revoked (ag_now s) a else a))|].
        unfold agent_is. by rewrite He, String.eqb_refl.
  - cbv beta iota delta [hthrow]. intros [= <- <-] Hinv. split; [|done]. intros (a & Ha & He).
    eapply find_none in Hf; [|by apply list_elem_of_In]. unfold agent_is in Hf. by rewrite He, String.eqb_refl in Hf.
Qed.

Lemma delete_agent_run id s s' r :
  delete_agent id s = (s', r) →
  r = Throw (PrismaError "P2025") ∧ s' = s ∨
  r = Ok tt ∧ s' = set_agents (List.filter (λ a, negb (agent_is id a)) (ag_agents s)) s.
Proof. unfold delete_agent, find_agent. hred. destruct (List.find _ _); hred; intros [= <- <-]; [by right|by left]. Qed.

Lemma creds_filter id l s :
  creds (set_agents (List.filter (λ a, negb (agent_is id a)) l) s) =
  List.filter (λ x, negb (String.eqb (cr_id x) id)) (cred <$> l).
Proof.
  unfold creds. cbn. induction l as [|a l IH]; [done|]. cbn [List.filter]. rewrite fmap_cons. cbn [List.filter].
  unfold agent_is at 1. cbn [cred cr_id]. destruct (negb _); [|done]. by rewrite fmap_cons, IH.
Qed.

(** The row goes together with its polling columns, or nothing does. *)
Lemma drop_agent_inv id assetId s s' r w g sp :
  ag_tx (delete_agent id ;! set_polling assetId no_polling) s = (s', r) → fleet_inv (mkFleet s w g sp) →
  ag_draws s' = ag_draws s ∧
  ((∃ e, r = Throw e) ∧ s' = s ∨ r = Ok tt ∧ fleet_inv (mkFleet s' w (delete id g) sp)).
Proof.
  intros Htx Hinv. apply ag_tx_run in Htx as [(e & -> & -> & _)|[Hm Hr]]; [by eauto|].
  unfold hbind in Hm. destruct (delete_agent id s) as [s1 r1] eqn:Hd.
  apply delete_agent_run in Hd as [[-> ->]|[-> ->]]; [injection Hm as <- <-; done|].
  apply set_polling_run in Hm as [[-> _]|[-> ->]]; [done|]. split; [done|]. right. split; [done|].
  unfold fleet_inv. cbn [fl_state fl_waiting fl_book fl_spent].
  pose proof (remove_ok _ _ _ _ _ _ Hinv id) as Hok. cbn [fl_state fl_waiting fl_book fl_spent] in Hok.
  unfold creds in Hok. rewrite <-(creds_filter id (ag_agents s) s) in Hok. exact Hok.
Qed.

Lemma book_of_asset d nid c w g sp x :
  fleet_ok d nid c w g sp → x ∈ c → filter (not_of (cr_asset x)) g = delete (cr_id x) g.
Proof.
  intros Hok Hx. apply map_eq. intros i. destruct (decide (i = cr_id x)) as [->|Hne].
  - rewrite lookup_delete_eq. apply map_lookup_filter_None. right. intros [raw a] Hg Hn. apply Hn. cbn.
    pose proof (fo_holds _ _ _ _ _ _ Hok x Hx) as Hh. rewrite Hg in Hh. by destruct Hh as [-> _].
  - rewrite lookup_delete_ne by done. destruct (g !! i) as [[raw a]|] eqn:Hg.
    + apply map_lookup_filter_Some. split; [done|]. unfold not_of. cbn. intros ->.
      destruct (fo_dom _ _ _ _ _ _ Hok i _ Hg) as (_ & y & Hy & <-).
      pose proof (fo_holds _ _ _ _ _ _ Hok y Hy) as Hh. rewrite Hg in Hh. destruct Hh as [Ha _].
      apply Hne. f_equal. clear -Hok Hx Hy Ha. pose proof (fo_assets _ _ _ _ _ _ Hok) as Hnd.
      apply list_elem_of_lookup in Hx as [j Hx], Hy as [k Hy].
      assert (j = k) as <-; [|congruence].
      eapply NoDup_lookup; [exact Hnd|rewrite list_lookup_fmap, Hx; done|rewrite list_lookup_fmap, Hy; simpl; congruence].
    + apply map_lookup_filter_None. by left.
Qed.

Lemma book_no_asset s w g sp assetId :
  fleet_inv (mkFleet s w g sp) → (∀ a, a ∈ ag_agents s → ma_assetId a ≠ assetId) → filter (not_of assetId) g = g.
Proof.
  intros Hinv Hn. apply map_filter_id. intros i [raw a] Hg. unfold not_of. cbn. intros ->.
  destruct (fo_dom _ _ _ _ _ _ Hinv i _ Hg) as (_ & x & Hx & <-).
  pose proof (fo_holds _ _ _ _ _ _ Hinv x Hx) as Hh. cbn [fl_book] in Hg, Hh. rewrite Hg in Hh. destruct Hh as [-> _].
  apply list_elem_of_fmap in Hx as (a & -> & Ha). by apply (Hn a Ha).
Qed.

Lemma deleteAgent_inv assetId force s s' r w g sp :
  deleteAgent assetId force s = (s', r) → fleet_inv (mkFleet s w g sp) →
  fleet_inv (mkFleet s' w (filter (not_of assetId) g) sp).
Proof.
  unfold deleteAgent, find_agent. unfold hbind at 1, hgets at 1. cbv beta iota.
  destruct (List.find _ _) as [row|] eqn:Hf.
  2: { cbv beta iota delta [hthrow]. intros [= <- <-] Hinv. rewrite (book_no_asset s w g sp); [done..|].
       intros a Ha He. eapply find_none in Hf; [|by apply list_elem_of_In]. unfold agent_of_asset in Hf.
       by rewrite He, String.eqb_refl in Hf. }
  pose proof Hf as Hf'. apply find_some in Hf' as [Hin%list_elem_of_In Has%String.eqb_eq].
  intros Hrun Hinv. assert (cred row ∈ creds s) as Hx by (by apply list_elem_of_fmap_2).
  pose proof (book_of_asset _ _ _ _ _ _ _ Hinv Hx) as Hbook. cbn [cred cr_asset cr_id fl_book] in Hbook. rewrite Has in Hbook.
  rewrite Hbook. unfold hbind at 1 in Hrun. destruct (revokeBearer (ma_id row) s) as [s1 r1] eqn:Hrev.
  destruct (revokeBearer_inv _ _ _ _ w g sp Hrev Hinv) as [Hres _].
  destruct Hres as (Hok1 & _ & Hinv1); [by exists row|]. destruct r1 as [b|]; [|done].
  destruct force; unfold hbind at 1 in Hrun.
  - destruct (ag_tx _ s1) as [s2 r2] eqn:Htx. destruct (drop_agent_inv _ _ _ _ _ _ _ _ Htx Hinv1) as [_ [[[e ->] ->]|[-> Hinv2]]].
    + by injection Hrun as <- <-.
    + rewrite delete_delete_eq in Hinv2. revert Hrun. unfold hbind at 1, log_agent, hmodify. cbv beta iota delta [hret].
      intros [= <- <-]. by apply (inv_frame s2).
  - unfold log_agent, hmodify in Hrun. cbv beta iota in Hrun.
    match type of Hrun with ?m ?s2 = _ => assert (neutral m) as Hneu by solve_neutral; pose proof (neutral_run _ _ _ _ Hneu Hrun) as Hsame end.
    eapply (inv_frame s1); [exact Hsame|exact Hinv1].
Qed.

Lemma hguard_run b e (s : AgentState) : hguard b e s = (s, if b then Throw e else Ok tt).
Proof. by destruct b. Qed.

Lemma postAgentInstall_inv assetId body actor s s' r w g sp :
  postAgentInstall assetId body actor s = (s', r) →
  fleet_inv (mkFleet s w g sp) → fleet_inv (mkFleet s' w g sp) ∧ ag_draws s' = ag_draws s.
Proof.
  assert (∀ mk s s' r, (∀ id, cr_id (cred (mk id)) = id ∧ en_hash (cr_en (cred (mk id))) = None ∧ be_hash (cr_be (cred (mk id))) = None) →
    insert_agent mk s = (s', r) → fleet_inv (mkFleet s w g sp) → fleet_inv (mkFleet s' w g sp) ∧ ag_draws s' = ag_draws s) as Hins.
  { clear. intros mk s s' r Hmk. unfold insert_agent. hred. destruct (existsb _ _) eqn:He; hred; intros [= <- <-] Hinv; [done|].
    split; [|done]. unfold fleet_inv. cbn [fl_state fl_waiting fl_book fl_spent ag_draws ag_nextId].
    unfold creds. cbn [ag_agents]. rewrite fmap_app. apply add_ok; [exact Hinv|apply Hmk| |apply Hmk..].
    intros (x & Hxe & Hx)%list_elem_of_fmap. apply list_elem_of_fmap in Hx as (a & -> & Ha).
    rewrite <-not_true_iff_false in He. apply He, existsb_exists. exists a. split; [by apply list_elem_of_In|].
    apply String.eqb_eq. symmetry. exact Hxe. }
  unfold postAgentInstall. intros Hrun Hinv.
  repeat (unfold hbind at 1 in Hrun; match type of Hrun with
    | context [hguard ?b ?e ?s0] => rewrite (hguard_run b e s0) in Hrun; destruct b; cbv beta iota in Hrun; [by injection Hrun as <- <-|]
    | context [find_asset ?i ?s0] => unfold find_asset in Hrun; unfold hgets at 1 in Hrun; cbv beta iota in Hrun; destruct (List.find _ _); [|by injection Hrun as <- <-]
    | context [get_credential ?i ?s0] => unfold get_credential in Hrun; unfold hgets at 1 in Hrun; cbv beta iota in Hrun; destruct (mget _ _); [|by injection Hrun as <- <-]
    | context [find_agent ?i ?s0] => unfold find_agent in Hrun; unfold hgets at 1 in Hrun; cbv beta iota in Hrun; destruct (List.find _ _); [by injection Hrun as <- <-|]
    | context [hgets ag_env ?s0] => unfold hgets at 1 in Hrun; cbv beta iota in Hrun; destruct (sv_fingerprint _); [|by injection Hrun as <- <-]
    end).
  unfold hbind at 1 in Hrun. match type of Hrun with context [insert_agent ?mk s] => destruct (insert_agent mk s) as [t1 q1] eqn:Hi end.
  assert (fleet_inv (mkFleet t1 w g sp) ∧ ag_draws t1 = ag_draws s) as [Hinv1 Hd1].
  { eapply Hins; [|exact Hi|exact Hinv]. by intros id. }
  destruct q1 as [row|e]; [|by injection Hrun as <- <-].
  revert Hrun. unfold hbind, log_agent, hmodify. cbv beta iota delta [hret]. intros [= <- <-]. split; [|done].
  by apply (inv_frame t1).
Qed.

(** ** The draws only grow *)

Definition grows {B} (m : M AgentState B) : Prop := ∀ d, keeps (λ s, (d ≤ ag_draws s)%nat) m.

Lemma grows_neutral {B} (m : M AgentState B) : neutral m → grows m.
Proof. intros Hm d s s' r Hd Hr. destruct (neutral_run _ _ _ _ Hm Hr) as (_ & _ & ?). lia. Qed.
Lemma grows_hbind {B C} (m : M AgentState B) (k : B → M AgentState C) :
  grows m → (∀ b, grows (k b)) → grows (hbind m k).
Proof. intros Hm Hk d. apply keeps_hbind; [apply Hm|]. intros b. apply Hk. Qed.
Lemma grows_update id f : grows (update_agent id f).
Proof. intros d s s' r Hd Hr. by apply update_agent_run in Hr as [(_ & -> & _)|(_ & -> & _)]. Qed.
Lemma grows_delete id : grows (delete_agent id).
Proof. intros d s s' r Hd Hr. by apply delete_agent_run in Hr as [[_ ->]|[_ ->]]. Qed.
Lemma grows_tx {B} (m : M AgentState B) : grows m → grows (ag_tx m).
Proof. intros Hm d s s' r Hd Hr. apply ag_tx_run in Hr as [(e & _ & -> & _)|[Hr _]]; [done|]. by eapply Hm. Qed.
Lemma grows_insert mk : grows (insert_agent mk).
Proof. intros d s s' r Hd. unfold insert_agent. hred. destruct (existsb _ _); hred; by intros [= <- <-]. Qed.

Create HintDb grows.
Hint Resolve grows_hbind grows_update grows_delete grows_tx grows_insert : grows.
Hint Extern 5 (grows _) => apply grows_neutral; solve [eauto with neutral] : grows.
Ltac solve_grows :=
  repeat (cbv beta zeta; match goal with
  | |- ∀ _, _ => intros ?
  | |- grows (hbind _ _) => apply grows_hbind
  | |- grows (ag_tx _) => apply grows_tx
  | |- grows (match ?x with _ => _ end) => destruct x
  end); eauto with grows.

Lemma grows_mint id : grows (mintEnrollmentToken id).
Proof. unfold mintEnrollmentToken, agent_token, agent_hash. solve_grows. Qed.
Hint Resolve grows_mint : grows.
Lemma grows_install_begin id c b : grows (install_begin id c b).
Proof. unfold install_begin. solve_grows. Qed.
Lemma grows_enroll_finish body row : grows (enroll_finish body row).
Proof. unfold enroll_finish, consume_swap, agent_token, agent_hash. solve_grows. Qed.
Lemma grows_revoke id : grows (revokeBearer id).
Proof. unfold revokeBearer. solve_grows. Qed.
Hint Resolve grows_revoke : grows.
Lemma grows_deleteAgent assetId force : grows (deleteAgent assetId force).
Proof. unfold deleteAgent. solve_grows. Qed.
Lemma grows_uninstall_finish row remote : grows (uninstall_finish row remote).
Proof. unfold uninstall_finish. solve_grows. Qed.
Lemma grows_postAgentInstall assetId body actor : grows (postAgentInstall assetId body actor).
Proof. unfold postAgentInstall. solve_grows. Qed.

Lemma grows_run {B} (m : M AgentState B) s : grows m → (ag_draws s ≤ ag_draws (m s).1)%nat.
Proof. intros Hm. destruct (m s) as [s' r] eqn:Hr. by eapply (Hm (ag_draws s)). Qed.

Lemma agent_step_grows op x : (ag_draws (fl_state x) ≤ ag_draws (fl_state (agent_step op x)))%nat.
Proof.
  destruct x as [s w g sp].
  destruct op; cbn [agent_step run_on on_state fl_state fl_waiting fl_book fl_spent]; try (apply grows_run).
  - apply grows_postAgentInstall.
  - apply grows_neutral, neutral_retry.
  - apply grows_neutral, neutral_postUpgrade.
  - apply grows_deleteAgent.
  - apply grows_neutral, neutral_dropCredential.
  - destruct (enroll_match body s) as [s' r] eqn:Hr. unfold enroll_match in Hr. unfold hbind in Hr.
    rewrite hguard_run in Hr. destruct (negb _); [by injection Hr as <- <-|].
    apply consume_match_run in Hr as [-> _]. by destruct r.
  - destruct (w !! k) as [[row body]|]; [|done]. unfold finish_enroll. cbn [fl_state].
    pose proof (grows_run (enroll_finish body row) s (grows_enroll_finish _ _)) as Hg.
    by destruct (enroll_finish body row s).
  - apply grows_neutral, neutral_heartbeat.
  - apply grows_neutral, neutral_verifyBearer.
  - apply grows_install_begin.
  - apply grows_neutral, neutral_install_finish.
  - apply grows_neutral, neutral_uninstall_begin.
  - pose proof (grows_run (uninstall_finish row remote) s (grows_uninstall_finish _ _)) as Hg.
    by destruct (uninstall_finish row remote s).
  - apply grows_neutral, neutral_upgrade_begin.
  - apply grows_neutral, neutral_upgrade_finish.
  - done.
Qed.

(** ** The invariant of the fleet *)

Lemma uninstall_finish_inv row remote s s' r w g sp :
  uninstall_finish row remote s = (s', r) → fleet_inv (mkFleet s w g sp) →
  fleet_inv (mkFleet s' w (if is_ok r && bool_decide (remote = None) then delete (ma_id row) g else g) sp).
Proof.
  unfold uninstall_finish. destruct remote as [err|].
  - rewrite bool_decide_eq_false_2, andb_false_r by done. intros Hr Hinv. eapply (inv_frame s); [|exact Hinv].
    eapply neutral_run; [|exact Hr]. apply neutral_fail.
  - rewrite bool_decide_eq_true_2, andb_true_r by done. unfold hbind at 1. destruct (ag_tx _ s) as [s1 r1] eqn:Htx.
    intros Hr Hinv. destruct (drop_agent_inv _ _ _ _ _ _ _ _ Htx Hinv) as [_ [[[e ->] ->]|[-> Hinv1]]].
    + by injection Hr as <- <-.
    + unfold log_agent, hmodify in Hr. injection Hr as <- <-. by apply (inv_frame s1).
Qed.

Lemma agent_step_inv op x :
  distinct_draws (ag_draws (fl_state (agent_step op x))) → fleet_inv x → fleet_inv (agent_step op x).
Proof.
  destruct op; cbn [agent_step]; intros Hd Hinv.
  - destruct x as [s w g sp]. unfold run_on, on_state. cbn [fl_state fl_waiting fl_book fl_spent]. destruct (postAgentInstall assetId body actor s) as [s' r] eqn:Hr.
    exact (proj1 (postAgentInstall_inv _ _ _ _ _ _ w g sp Hr Hinv)).
  - apply neutral_inv; [apply neutral_retry|done].
  - apply neutral_inv; [apply neutral_postUpgrade|done].
  - destruct x as [s w g sp]. cbn [fl_state fl_waiting fl_book fl_spent]. destruct (deleteAgent assetId force s) as [s' r] eqn:Hr.
    exact (deleteAgent_inv _ _ _ _ _ _ _ _ Hr Hinv).
  - apply neutral_inv; [apply neutral_dropCredential|done].
  - destruct x as [s w g sp]. cbn [fl_state] in *. destruct (enroll_match body s) as [s' r] eqn:Hr.
    destruct (enroll_start_inv _ _ _ _ w g sp Hr Hinv) as [-> Hrow]. destruct r as [row|e]; [by apply Hrow|done].
  - destruct (fl_waiting x !! k) as [[row body]|] eqn:Hk; [|done]. by apply finish_enroll_inv.
  - apply neutral_inv; [apply neutral_heartbeat|done].
  - apply neutral_inv; [apply neutral_verifyBearer|done].
  - destruct x as [s w g sp]. unfold run_on, on_state in *. cbn [fl_state fl_waiting fl_book fl_spent] in *.
    destruct (install_begin id credentialId readable s) as [s' r] eqn:Hr.
    exact (install_begin_inv _ _ _ _ _ _ _ _ _ Hr Hd Hinv).
  - apply neutral_inv; [apply neutral_install_finish|done].
  - apply neutral_inv; [apply neutral_uninstall_begin|done].
  - destruct x as [s w g sp]. cbn [fl_state fl_waiting fl_book fl_spent] in *.
    destruct (uninstall_finish row remote s) as [s' r] eqn:Hr.
    exact (uninstall_finish_inv _ _ _ _ _ _ _ _ Hr Hinv).
  - apply neutral_inv; [apply neutral_upgrade_begin|done].
  - apply neutral_inv; [apply neutral_upgrade_finish|done].
  - by destruct x.
Qed.

Lemma fleet_run_inv ops x :
  distinct_draws (ag_draws (fl_state (fleet_run ops x))) → fleet_inv x → fleet_inv (fleet_run ops x).
Proof.
  revert x. induction ops as [|op ops IH] using rev_ind; intros x; [done|]. unfold fleet_run. rewrite foldl_app. cbn [foldl].
  intros Hd Hinv. apply agent_step_inv; [done|]. apply IH; [|done]. intros n m ? ?. pose proof (agent_step_grows op (fleet_run ops x)).
  apply Hd; unfold fleet_run in *; lia.
Qed.

(** A fleet before the first agent. *)
Definition new_fleet (assets : list AgentAsset) (env : ServerEnv) (now : Z) : Fleet :=
  mkFleet (mkAgentState [] assets env now 0 0 []) [] ∅ [].
Lemma new_fleet_inv assets env now : fleet_inv (new_fleet assets env now).
Proof.
  constructor; cbn.
  - constructor.
  - constructor.
  - by intros ? ?%elem_of_nil.
  - by intros ? ?%elem_of_nil.
  - intros ? ?. by rewrite lookup_empty.
  - intros ? ? ? ?. by rewrite lookup_empty.
  - by intros ? ? ?%elem_of_nil.
  - by intros ? ? ? ?%elem_of_nil.
  - by intros ? ?%elem_of_nil.
  - by intros ? ? ?%elem_of_nil.
Qed.

(** ** What the tokens promise *)

Lemma minted_prefix d raw : minted d raw → Js.startsWith TOKEN_PREFIX raw = true.
Proof. intros (n & _ & ->). apply startsWith_append. Qed.
Lemma prefixed_guard raw :
  Js.startsWith TOKEN_PREFIX raw = true → negb (Js.truthy raw) || negb (Js.startsWith TOKEN_PREFIX raw) = false.
Proof. intros Hs. rewrite Hs. by destruct raw. Qed.

Lemma verifyBearer_book x raw ip :
  fleet_inv x →
  ∃ r, (verifyBearer raw ip (fl_state x)).2 = Ok r ∧
    ∀ id assetId, r = Some (id, assetId) ↔ fl_book x !! id = Some (raw, assetId).
Proof.
  intros Hinv. set (s := fl_state x).
  assert (∀ id assetId, fl_book x !! id = Some (raw, assetId) → ∃ a, a ∈ ag_agents s ∧ ma_id a = id ∧ ma_assetId a = assetId ∧
    bearer_candidate raw a = true ∧ opens raw (be_hash (ma_bearer a)) = true ∧ Js.startsWith TOKEN_PREFIX raw = true) as Hbook.
  { intros id assetId Hg. destruct (fo_dom _ _ _ _ _ _ Hinv id _ Hg) as (Hm & y & Hy & Hid).
    pose proof (fo_holds _ _ _ _ _ _ Hinv y Hy) as Hh. rewrite Hid, Hg in Hh. destruct Hh as (Ha & m & i & Hb).
    apply list_elem_of_fmap in Hy as (a & -> & Hin). cbn [cred cr_id cr_asset cr_be] in *. exists a.
    unfold bearer_candidate. rewrite Hb. cbn [be_hash be_prefix be_revokedAt]. split_and!; [done..| | |by eapply minted_prefix].
    - by rewrite !bool_decide_eq_true_2 by (done || by eexists).
    - by apply (opens_hash raw m). }
  unfold verifyBearer. destruct (negb (Js.truthy raw) || negb (Js.startsWith TOKEN_PREFIX raw)) eqn:Hb.
  { exists None. split; [done|]. intros id assetId. split; [done|]. intros (a & _ & _ & _ & _ & _ & Hs)%Hbook.
    by rewrite prefixed_guard in Hb. }
  hred. destruct (List.find _ _) as [row|] eqn:Hf.
  - apply find_some in Hf as [[Hin%list_elem_of_In Hc]%filter_In Ho].
    assert (fl_book x !! ma_id row = Some (raw, ma_assetId row)) as Hrow.
    { assert (cred row ∈ creds s) as Hx by (by apply list_elem_of_fmap_2).
      pose proof (fo_holds _ _ _ _ _ _ Hinv (cred row) Hx) as Hh. cbn [cred cr_id cr_asset cr_be] in Hh.
      destruct (fl_book x !! ma_id row) as [[raw' a]|] eqn:Hg.
      - destruct Hh as (-> & m & i & Hbe). change (ma_bearer row = mkBearer (Some (argonHash m raw')) (Some (token_prefix raw')) i None) in Hbe.
        rewrite Hbe in Ho. by apply opens_hash in Ho as ->.
      - change (be_hash (ma_bearer row) = None ∨ be_revokedAt (ma_bearer row) ≠ None) in Hh. unfold bearer_candidate in Hc. rewrite !andb_true_iff, !bool_decide_eq_true in Hc.
        destruct Hc as [[_ [h Hh']] Hr], Hh as [?|?]; [congruence|done]. }
    exists (Some (ma_id row, ma_assetId row)). split; [done|]. intros id assetId. split; [by intros [= <- <-]|].
    intros Hg. assert (id = ma_id row) as -> by (by apply (fo_raw _ _ _ _ _ _ Hinv _ _ _ _ Hg Hrow)). congruence.
  - exists None. split; [done|]. intros id assetId. split; [done|]. intros (a & Hin & _ & _ & Hc & Ho & _)%Hbook.
    rewrite (find_none _ _ Hf a) in Ho; [done|]. apply filter_In. split; [by apply list_elem_of_In|done].
Qed.

(** C34: An agent's bearer speaks for one asset and only while it stands.  Through
    any interleaving of installs, enrolments (their two halves apart), heartbeats,
    upgrades, uninstalls and deletions, [verifyBearer] answers the agent and the
    asset to which exactly this text was last handed out, unless that bearer was
    revoked or the agent deleted since, and null for every other text. *)
Theorem bearer_refines_book assets env now0 ops raw ip x :
  x = fleet_run ops (new_fleet assets env now0) → distinct_draws (ag_draws (fl_state x)) →
  ∃ r, (verifyBearer raw ip (fl_state x)).2 = Ok r ∧
    ∀ id assetId, r = Some (id, assetId) ↔ fl_book x !! id = Some (raw, assetId).
Proof. intros -> Hd. apply verifyBearer_book, fleet_run_inv; [done|]. apply new_fleet_inv. Qed.

(** An enrolment token that was answered, with a bearer or with a refusal of
    the pin or the platform, is never accepted again: from then on every request
    that presents it is refused and changes nothing. *)
Theorem enrollment_token_spent assets env now0 ops body x :
  x = fleet_run ops (new_fleet assets env now0) → distinct_draws (ag_draws (fl_state x)) →
  eb_enrollmentToken body ∈ fl_spent x → EnrollSchema body = true →
  enroll body (fl_state x) =
    (fl_state x, Throw (AppError 401 "Enrollment token rejected — expired or already consumed")).
Proof.
  intros -> Hd Hsp Hschema. set (x := fleet_run ops _) in *.
  assert (fleet_inv x) as Hinv by (apply fleet_run_inv; [done|apply new_fleet_inv]).
  pose proof (minted_prefix _ _ (fo_spent _ _ _ _ _ _ Hinv _ Hsp)) as Hpre.
  unfold enroll, enroll_match. unfold hbind at 1. unfold hbind at 1. rewrite hguard_run, Hschema. cbn [negb].
  destruct (consume_match (eb_enrollmentToken body) (fl_state x)) as [s' r] eqn:Hm.
  pose proof Hm as Hm'. apply consume_match_run in Hm' as [-> [(row & -> & Hin & Ho & _)|[[Hr| ->] _]]]; [| |done].
  - unfold opens in Ho. apply andb_true_iff in Ho as [Ht Ho].
    destruct (en_hash (ma_enrollment row)) as [h|] eqn:Hh; [|done].
    destruct (fo_en _ _ _ _ _ _ Hinv (cred row) h) as (m & raw & -> & _ & Hns); [by apply list_elem_of_fmap_2|done|].
    assert (raw = eb_enrollmentToken body) as -> by (apply (opens_hash _ m); unfold opens; by rewrite Ht, Ho). done.
  - exfalso. subst r. unfold consume_match in Hm. unfold hbind at 1 in Hm. rewrite hguard_run, prefixed_guard in Hm by done.
    revert Hm. hred. by destruct (List.find _ _).
Qed.

Definition agent_status (id : string) (s : AgentState) : option InstallStatus :=
  ma_installStatus <$> List.find (agent_is id) (ag_agents s).
Definition polling_of (id : string) (s : AgentState) : option (Stream → option string) :=
  aa_polling <$> List.find (asset_is id) (ag_assets s).

(** An agent whose upgrade failed can be neither upgraded nor retried: both
    endpoints refuse it, with any credential, and change nothing. *)
Theorem failed_upgrade_is_stuck s assetId row credentialId :
  List.find (agent_of_asset assetId) (ag_agents s) = Some row → List.find (agent_is (ma_id row)) (ag_agents s) = Some row →
  ma_installStatus row = UpgradeFailed → (∀ c, credentialId = Some c → isUuid c = true) →
  postAgentUpgrade assetId credentialId s =
    (s, Throw (AppError 409 ("Agent installStatus is " +:+ quoted "upgrade_failed" +:+ "; only active agents can upgrade."))) ∧
  postAgentRetry assetId s =
    (s, Throw (AppError 409 ("Agent installStatus is " +:+ quoted "upgrade_failed" +:+ "; only failed installs can be retried."))).
Proof.
  intros Hf Hf' Hst Hu. split.
  - unfold postAgentUpgrade. unfold hbind at 1. rewrite hguard_run.
    assert (match credentialId with Some c => negb (isUuid c) | None => false end = false) as ->.
    { destruct credentialId; [by rewrite Hu|done]. }
    unfold hbind at 1, find_agent at 1, hgets at 1. rewrite Hf. unfold hbind at 1, startUpgrade.
    unfold hbind at 1, find_agent at 1, hgets at 1. rewrite Hf'. unfold hbind at 1. rewrite hguard_run, Hst. done.
  - unfold postAgentRetry. unfold hbind at 1, find_agent at 1, hgets at 1. rewrite Hf. unfold hbind at 1.
    rewrite hguard_run, Hst. done.
Qed.

(** DELETE without ?force on an agent whose install credential is gone never
    starts an uninstall, whatever credentials exist by then: the row keeps its
    null reference. *)
Theorem delete_never_uninstalls s assetId row :
  List.find (agent_of_asset assetId) (ag_agents s) = Some row → ma_installCredentialId row = None →
  (deleteAgent assetId false s).2 = Ok None.
Proof.
  intros Hf Hc. pose proof Hf as [Hin%list_elem_of_In _]%find_some.
  unfold deleteAgent. unfold hbind at 1, find_agent at 1, hgets at 1. rewrite Hf. unfold hbind at 1.
  assert (∃ b s1, revokeBearer (ma_id row) s = (s1, Ok b) ∧ has_agent (ma_id row) s1) as (b & s1 & -> & Hhas).
  { unfold revokeBearer. unfold hbind at 1, find_agent at 1, hgets at 1.
    destruct (List.find (agent_is (ma_id row)) _) as [row'|] eqn:Hf'.
    - destruct (bool_decide _); [by exists false, s; split; [|exists row]|]. unfold hbind at 1, hgets at 1. unfold hbind at 1.
      rewrite update_agent_has by (by exists row). eexists true, _. split; [done|].
      eexists. split; [apply (list_elem_of_fmap_2 (λ a, if agent_is (ma_id row) a then with_revoked (ag_now s) a else a)), Hin|].
      unfold agent_is. by rewrite String.eqb_refl.
    - eapply find_none in Hf'; [|by apply list_elem_of_In]. unfold agent_is in Hf'. by rewrite String.eqb_refl in Hf'. }
  unfold hbind at 1, log_agent, hmodify. rewrite Hc. cbn [Js.otruthy negb]. unfold hbind at 1.
  rewrite update_agent_has; [done|]. destruct Hhas as (a & Ha & He). by exists a.
Qed.

(** ** Enrolment, whole *)

Lemma agent_by_id s a b :
  NoDup (cr_id <$> creds s) → a ∈ ag_agents s → b ∈ ag_agents s → ma_id a = ma_id b → a = b.
Proof.
  unfold creds. rewrite <-list_fmap_compose. intros Hnd [i Ha]%list_elem_of_lookup [j Hb]%list_elem_of_lookup He.
  assert (i = j) as <-; [|congruence].
  eapply NoDup_lookup; [exact Hnd|rewrite list_lookup_fmap, Ha; done|rewrite list_lookup_fmap, Hb]. simpl. by rewrite He.
Qed.

Lemma find_updated {B} (p : B → bool) (f : B → B) (l : list B) :
  (∀ b, p (f b) = p b) → List.find p ((λ b, if p b then f b else b) <$> l) = f <$> List.find p l.
Proof.
  intros Hf. induction l as [|b l IH]; [done|]. rewrite fmap_cons. cbn [List.find].
  destruct (p b) eqn:Hb; [by rewrite Hf, Hb|by rewrite Hb].
Qed.

Lemma find_by_id s a :
  NoDup (cr_id <$> creds s) → a ∈ ag_agents s → List.find (agent_is (ma_id a)) (ag_agents s) = Some a.
Proof.
  intros Hnd Ha. destruct (List.find _ _) as [b|] eqn:Hf.
  - apply find_some in Hf as [Hb%list_elem_of_In He%String.eqb_eq]. f_equal. by eapply agent_by_id.
  - eapply find_none in Hf; [|by apply list_elem_of_In]. unfold agent_is in Hf. by rewrite String.eqb_refl in Hf.
Qed.

Lemma consume_swap_ok row s :
  has_agent (ma_id row) s → is_Some (List.find (asset_is (ma_assetId row)) (ag_assets s)) →
  ∃ s1, consume_swap row s = (s1, Ok (nth_token (ag_draws s))) ∧ swapped row s s1 ∧
    ag_assets s1 = (λ a, if asset_is (ma_assetId row) a then with_polling agent_polling a else a) <$> ag_assets s.
Proof.
  intros Hhas [asset Has]. unfold consume_swap, agent_token, agent_hash, ag_draw. hred.
  cbn [ag_draws ag_now ag_agents ag_assets ag_env ag_nextId ag_events].
  unfold hbind at 1, ag_tx. unfold hbind at 1. rewrite update_agent_has by exact Hhas.
  unfold set_polling, find_asset. hred. cbn [set_agents ag_assets]. rewrite Has.
  eexists. split; [done|]. split; [|done]. by split_and!.
Qed.

Definition pin_ok (row : ManagedAgent) (body : EnrollBody) : bool :=
  String.eqb (Js.toLowerCase (ma_serverCertFingerprint row)) (Js.toLowerCase (eb_serverCertFingerprintSeen body)).
Definition platform_ok (row : ManagedAgent) (body : EnrollBody) : bool :=
  String.eqb (ma_osPlatform row) (eb_osPlatform body) && String.eqb (ma_arch row) (eb_arch body).

Lemma enroll_finish_status body row s :
  NoDup (cr_id <$> creds s) → row ∈ ag_agents s → is_Some (List.find (asset_is (ma_assetId row)) (ag_assets s)) →
  ∃ s' r, enroll_finish body row s = (s', r) ∧ ag_draws s' = S (S (ag_draws s)) ∧
    polling_of (ma_assetId row) s' = Some agent_polling ∧
    if pin_ok row body && platform_ok row body
    then r = Ok (nth_token (ag_draws s)) ∧ agent_status (ma_id row) s' = Some ActiveAgent
    else (∃ msg, r = Throw (AppError 400 msg)) ∧ agent_status (ma_id row) s' = Some FailedInstall.
Proof.
  intros Hnd Hin Has. destruct (consume_swap_ok row s) as (s1 & Hsw & Hswapped & Hassets); [by exists row|done|].
  pose proof (swapped_has _ _ _ Hswapped) as Hhas. destruct Hswapped as (_ & Hagents & Hdraws & _).
  pose proof (find_by_id s row Hnd Hin) as Hfind.
  assert (polling_of (ma_assetId row) s1 = Some agent_polling) as Hpoll.
  { unfold polling_of. rewrite Hassets, find_updated by done. by destruct Has as [a ->]. }
  assert (∀ f, (∀ a, agent_is (ma_id row) (f a) = agent_is (ma_id row) a) → ∃ a,
    List.find (agent_is (ma_id row)) ((λ a, if agent_is (ma_id row) a then f a else a) <$> ag_agents s1) = Some (f a) ∧
    ma_installStatus a = ActiveAgent) as Hupd.
  { intros f Hf. rewrite find_updated, Hagents, find_updated by done. rewrite Hfind. by eexists. }
  unfold enroll_finish. unfold hbind at 1. rewrite Hsw. unfold hbind at 1, hgets at 1. cbv beta iota zeta.
  unfold pin_ok, platform_ok. destruct (String.eqb (Js.toLowerCase _) _); cbn [negb andb].
  - destruct (String.eqb (ma_osPlatform row) _ && _); cbn [negb].
    + unfold hbind at 1. rewrite update_agent_has by done. unfold hbind at 1, log_agent, hmodify. cbv beta iota delta [hret].
      eexists _, _. split; [done|]. split; [exact Hdraws|]. split; [done|]. split; [done|]. unfold agent_status. cbn [set_agents ag_agents].
      destruct (Hupd (with_version (eb_agentVersion body))) as (a & -> & Ha); [done|]. cbn. by rewrite Ha.
    + unfold hbind at 1. rewrite update_agent_has by done. cbv beta iota delta [hthrow].
      eexists _, _. split; [done|]. split; [exact Hdraws|]. split; [done|]. split; [by eexists|]. unfold agent_status. cbn [set_agents ag_agents].
      edestruct Hupd as (a & -> & _); [|done]. done.
  - unfold hbind at 1. rewrite update_agent_has by done. unfold hbind at 1, log_agent, hmodify. cbv beta iota delta [hthrow].
    eexists _, _. split; [done|]. split; [exact Hdraws|]. split; [done|]. split; [by eexists|]. unfold agent_status. cbn [set_agents ag_agents].
    edestruct Hupd as (a & -> & _); [|done]. done.
Qed.

(** Enrolment, on every branch.  A request that presents the live token of an
    agent is answered; the asset's six streams then belong to the agent.  With
    the pinned certificate and the expected platform the agent is active and the
    answered bearer authenticates it for its asset; otherwise the request is
    refused with 400, the install has failed, and the bearer that was minted
    meanwhile authenticates nobody. *)
Theorem enroll_correct assets env now0 ops body row x (s := fl_state x) :
  x = fleet_run ops (new_fleet assets env now0) → distinct_draws (S (S (ag_draws s))) →
  EnrollSchema body = true → row ∈ ag_agents s → enroll_candidate (ag_now s) (eb_enrollmentToken body) row = true →
  opens (eb_enrollmentToken body) (en_hash (ma_enrollment row)) = true →
  is_Some (List.find (asset_is (ma_assetId row)) (ag_assets s)) →
  ∃ s' r, enroll body s = (s', r) ∧ polling_of (ma_assetId row) s' = Some agent_polling ∧
    if pin_ok row body && platform_ok row body
    then r = Ok (nth_token (ag_draws s)) ∧ agent_status (ma_id row) s' = Some ActiveAgent ∧
      ∀ ip, (verifyBearer (nth_token (ag_draws s)) ip s').2 = Ok (Some (ma_id row, ma_assetId row))
    else (∃ msg, r = Throw (AppError 400 msg)) ∧ agent_status (ma_id row) s' = Some FailedInstall ∧
      ∀ ip, (verifyBearer (nth_token (ag_draws s)) ip s').2 = Ok None.
Proof.
  intros Hx Hd Hschema Hin Hc Ho Has.
  assert (fleet_inv x) as Hinv.
  { subst x. apply fleet_run_inv; [intros n m ? ?; apply Hd; unfold s; lia|apply new_fleet_inv]. }
  assert (enroll_match body s = (s, Ok row)) as Hmatch.
  { unfold enroll_match. unfold hbind at 1. rewrite hguard_run, Hschema. cbn [negb].
    destruct (consume_match (eb_enrollmentToken body) s) as [s' r] eqn:Hm.
    apply consume_match_run in Hm as [-> [(row' & -> & Hin' & Ho' & _)|[_ Hno]]].
    - f_equal. f_equal. eapply agent_by_id; [apply (fo_ids _ _ _ _ _ _ Hinv)|done..|].
      assert (∀ a, a ∈ ag_agents s → opens (eb_enrollmentToken body) (en_hash (ma_enrollment a)) = true →
        awaits (cred a) (eb_enrollmentToken body)) as Haw.
      { intros a Ha Hoa. pose proof Hoa as [Ht _]%andb_true_iff. destruct (en_hash (ma_enrollment a)) as [h|] eqn:Hh; [|done].
        destruct (fo_en _ _ _ _ _ _ Hinv (cred a) h) as (m & raw & -> & _ & _); [by apply list_elem_of_fmap_2|done|].
        apply opens_hash in Hoa as ->. by exists m. }
      apply (fo_one _ _ _ _ _ _ Hinv (cred row') (cred row) (eb_enrollmentToken body)); [by apply list_elem_of_fmap_2..|by apply Haw|by apply Haw].
    - destruct (Js.startsWith TOKEN_PREFIX (eb_enrollmentToken body)) eqn:Hp; [by rewrite (Hno eq_refl row Hin Hc) in Ho|].
      exfalso. pose proof Ho as [Ht _]%andb_true_iff. destruct (en_hash (ma_enrollment row)) as [h|] eqn:Hh; [|done].
      destruct (fo_en _ _ _ _ _ _ Hinv (cred row) h) as (m & raw & -> & Hm & _); [by apply list_elem_of_fmap_2|done|].
      apply opens_hash in Ho as ->. apply minted_prefix in Hm. congruence. }
  destruct (enroll_finish_status body row s (fo_ids _ _ _ _ _ _ Hinv) Hin Has) as (s' & r & Hfin & Hdraws & Hpoll & Hst).
  exists s', r. split; [by unfold enroll, hbind; rewrite Hmatch|]. split; [done|].
  set (x1 := agent_step (AEnrollStart body) x). set (x2 := agent_step (AEnrollEnd (length (fl_waiting x))) x1).
  assert (x1 = mkFleet s (fl_waiting x ++ [(row, body)]) (fl_book x) (fl_spent x)) as Hx1.
  { unfold x1. cbn [agent_step]. fold s. by rewrite Hmatch. }
  assert (fl_state x2 = s' ∧ fl_book x2 !! ma_id row = match r with Ok b => Some (b, ma_assetId row) | Throw (AppError 400 _) => None | Throw _ => fl_book x !! ma_id row end)
    as [Hs2 Hb2].
  { unfold x2. rewrite Hx1. cbn [agent_step fl_waiting]. rewrite list_lookup_middle by done. unfold finish_enroll.
    cbn [fl_state]. rewrite Hfin. cbn [fl_state fl_book]. split; [done|].
    destruct (pin_ok row body && platform_ok row body); destruct Hst as [Hr _].
    - rewrite Hr. by rewrite lookup_insert_eq.
    - destruct Hr as [msg ->]. by rewrite lookup_delete_eq. }
  assert (fleet_inv x2) as Hinv2.
  { apply agent_step_inv; [fold x2; by rewrite Hs2, Hdraws|].
    apply agent_step_inv; [|done]. fold x1. rewrite Hx1. cbn [fl_state]. intros n m ? ?. apply Hd; lia. }
  assert (∀ ip, ∃ q, (verifyBearer (nth_token (ag_draws s)) ip s').2 = Ok q ∧
    ∀ id assetId, q = Some (id, assetId) ↔ fl_book x2 !! id = Some (nth_token (ag_draws s), assetId)) as Hver.
  { intros ip. rewrite <-Hs2. by apply verifyBearer_book. }
  destruct (pin_ok row body && platform_ok row body); destruct Hst as [Hr Hst].
  - subst r. split_and!; [done..|]. intros ip. destruct (Hver ip) as (q & -> & Hq). f_equal. by apply Hq.
  - split_and!; [done..|]. destruct Hr as [msg ->]. intros ip. destruct (Hver ip) as (q & -> & Hq). f_equal.
    destruct q as [[id assetId]|]; [exfalso|done].
    pose proof (proj1 (Hq id assetId) eq_refl) as Hg.
    assert (fl_book x2 !! id = fl_book x !! id) as Hsame.
    { destruct (decide (id = ma_id row)) as [->|Hne]; [congruence|].
      unfold x2. rewrite Hx1. cbn [agent_step fl_waiting]. rewrite list_lookup_middle by done. unfold finish_enroll.
      cbn [fl_state]. rewrite Hfin. cbn [fl_book]. by rewrite lookup_delete_ne. }
    rewrite Hsame in Hg. destruct (fo_dom _ _ _ _ _ _ Hinv _ _ Hg) as [Hm _].
    apply (not_minted (ag_draws s) (nth_token (ag_draws s))); [|exact Hm|done]. intros n m ? ?. apply Hd; lia.
Qed.
End fleet.

(** ** Concrete runs *)

Definition toy_pin : string := "sha256:" +:+ Js.repeat 64 "a".
Definition toy_env : ServerEnv :=
  mkServerEnv (Some toy_pin) (Some (mkCertHosts (Some "polaris.example.com") [] [])) None None
    (Some (mkManifest "1.2.0" [("linux-amd64", "polaris-agent-linux-amd64")])) [("c1", "ssh")].
Definition toy_host : AgentAsset := mkAgentAsset "a1" None (Some "10.0.0.5") None None no_polling.
Definition toy_fleet (ops : list AgentOp) : Fleet :=
  @fleet_run toy_lib toy_bytes any_uuid ops (new_fleet [toy_host] toy_env 1000).

Definition install_ops : list AgentOp :=
  [AInstall "a1" (mkInstallBody "c1" "linux" "amd64") "admin"; AInstallBegin "0" "c1" true].
Definition toy_body : EnrollBody := mkEnrollBody (@nth_token toy_bytes 0) "linux" "amd64" "1.1.0" None toy_pin.
Definition toy_bearer : string := @nth_token toy_bytes 2.
Definition enrolled_ops : list AgentOp := install_ops ++ [AEnrollStart toy_body; AEnrollEnd 0].

Ltac toy_draws := apply (@distinct_draws_le toy_bytes _ 8); [by apply Nat.leb_le; vm_compute|exact toy_distinct].

Lemma bearer_refines_book_witness :
  fl_book (toy_fleet enrolled_ops) !! "0"%string = Some (toy_bearer, "a1"%string) ∧
  ∃ r, (@verifyBearer toy_lib toy_bearer None (fl_state (toy_fleet enrolled_ops))).2 = Ok r ∧
    ∀ id assetId, r = Some (id, assetId) ↔ fl_book (toy_fleet enrolled_ops) !! id = Some (toy_bearer, assetId).
Proof.
  split; [by vm_compute|].
  apply (@bearer_refines_book toy_lib toy_bytes any_uuid toy_argon [toy_host] toy_env 1000 enrolled_ops); [done|].
  toy_draws.
Defined.

Lemma enrollment_token_spent_witness :
  fl_spent (toy_fleet enrolled_ops) = [eb_enrollmentToken toy_body] ∧
  @enroll toy_lib toy_bytes toy_body (fl_state (toy_fleet enrolled_ops)) =
    (fl_state (toy_fleet enrolled_ops), Throw (AppError 401 "Enrollment token rejected — expired or already consumed")).
Proof.
  split; [by vm_compute|].
  apply (@enrollment_token_spent toy_lib toy_bytes any_uuid toy_argon [toy_host] toy_env 1000 enrolled_ops); [done|toy_draws| |].
  - vm_compute. left.
  - by vm_compute.
Defined.

Definition toy_row : ManagedAgent :=
  default (mkAgent "" "" "" "" None "" None Pending None (mkEnrollment None None None) (mkBearer None None None None) None "")
    (head (ag_agents (fl_state (toy_fleet install_ops)))).

Lemma enroll_correct_witness :
  let s := fl_state (toy_fleet install_ops) in
  pin_ok toy_row toy_body && platform_ok toy_row toy_body = true ∧
  ∃ s' r, @enroll toy_lib toy_bytes toy_body s = (s', r) ∧ polling_of (ma_assetId toy_row) s' = Some agent_polling ∧
    if pin_ok toy_row toy_body && platform_ok toy_row toy_body
    then r = Ok (@nth_token toy_bytes (ag_draws s)) ∧ agent_status (ma_id toy_row) s' = Some ActiveAgent ∧
      ∀ ip, (@verifyBearer toy_lib (@nth_token toy_bytes (ag_draws s)) ip s').2 = Ok (Some (ma_id toy_row, ma_assetId toy_row))
    else (∃ msg, r = Throw (AppError 400 msg)) ∧ agent_status (ma_id toy_row) s' = Some FailedInstall ∧
      ∀ ip, (@verifyBearer toy_lib (@nth_token toy_bytes (ag_draws s)) ip s').2 = Ok None.
Proof.
  split; [by vm_compute|].
  apply (@enroll_correct toy_lib toy_bytes any_uuid toy_argon [toy_host] toy_env 1000 install_ops toy_body toy_row (toy_fleet install_ops)).
  - done.
  - toy_draws.
  - by vm_compute.
  - vm_compute. left.
  - by vm_compute.
  - by vm_compute.
  - eexists. by vm_compute.
Defined.

(** ** What goes wrong between the halves *)

Definition enroll_answer (k : nat) (x : Fleet) : option (result string) :=
  (λ rb, (@enroll_finish toy_lib toy_bytes rb.2 rb.1 (fl_state x)).2) <$> fl_waiting x !! k.

(** Two overlapping requests with one enrolment token are both answered with a
    bearer; the first bearer is dead as soon as the second is written. *)
Theorem overlapping_enrolments :
  let x := toy_fleet (install_ops ++ [AEnrollStart toy_body; AEnrollStart toy_body]) in
  let x1 := toy_fleet (install_ops ++ [AEnrollStart toy_body; AEnrollStart toy_body; AEnrollEnd 0]) in
  let x2 := toy_fleet (install_ops ++ [AEnrollStart toy_body; AEnrollStart toy_body; AEnrollEnd 0; AEnrollEnd 0]) in
  ∃ b1 b2, enroll_answer 0 x = Some (Ok b1) ∧ enroll_answer 0 x1 = Some (Ok b2) ∧ b1 ≠ b2 ∧
    (@verifyBearer toy_lib b1 None (fl_state x2)).2 = Ok None ∧
    (@verifyBearer toy_lib b2 None (fl_state x2)).2 = Ok (Some ("0", "a1"))%string.
Proof. eexists _, _. split_and!; [by vm_compute|by vm_compute|by vm_compute|by vm_compute|by vm_compute]. Qed.

(** An agent that enrols while the installer is still running is set back to
    [enrolling] by the runner's last step, and then refused by an upgrade. *)
Theorem late_transition_masks_active :
  let x := toy_fleet enrolled_ops in
  let x' := toy_fleet (enrolled_ops ++ [AInstallEnd toy_row None]) in
  agent_status "0" (fl_state x) = Some ActiveAgent ∧ agent_status "0" (fl_state x') = Some Enrolling ∧
  (@verifyBearer toy_lib toy_bearer None (fl_state x')).2 = Ok (Some ("0", "a1"))%string ∧
  is_ok (@postAgentUpgrade any_uuid "a1" None (fl_state x')).2 = false.
Proof. by vm_compute. Qed.

(** Deleting the agent of an asset leaves its enrolment token: an agent that was
    revoked before it enrolled gets a working bearer afterwards. *)
Theorem revoked_agent_enrols :
  let x := toy_fleet (install_ops ++ [ADropCredential "c1"; ADelete "a1" false]) in
  let x' := toy_fleet (install_ops ++ [ADropCredential "c1"; ADelete "a1" false; AEnrollStart toy_body; AEnrollEnd 0]) in
  agent_status "0" (fl_state x) = Some RevokedAgent ∧ agent_status "0" (fl_state x') = Some ActiveAgent ∧
  (@verifyBearer toy_lib toy_bearer None (fl_state x')).2 = Ok (Some ("0", "a1"))%string.
Proof. by vm_compute. Qed.

Definition stuck_state : AgentState :=
  fl_state (toy_fleet (enrolled_ops ++ [AUpgrade "a1" None; AUpgradeBegin "0" "c1" true; AUpgradeEnd toy_row (Some "exit 1")])).
Definition stuck_row : ManagedAgent := default toy_row (head (ag_agents stuck_state)).

Lemma failed_upgrade_is_stuck_witness :
  agent_status "0" stuck_state = Some UpgradeFailed ∧
  @postAgentUpgrade any_uuid "a1" (Some "c1") stuck_state =
    (stuck_state, Throw (AppError 409 ("Agent installStatus is " +:+ quoted "upgrade_failed" +:+ "; only active agents can upgrade."))).
Proof.
  split; [by vm_compute|].
  apply (@failed_upgrade_is_stuck any_uuid stuck_state "a1" stuck_row (Some "c1"%string)); by vm_compute.
Defined.
