(* ===== verification/AgentChannel.v ===== *)
(** * The agent's socket

    [src/src/services/agentChannelService.ts]: the map from agents to WebSocket
    sessions, the heartbeat, and the probe requests in flight.  A session is an
    object shared by the map and by the handlers of its socket, so sessions live
    in a heap and the map holds references; promises and timers are values too.
    Every callback of the event loop is one operation. *)

From S2P Require Import Prelude Http JsColl.

(** The result of a promise, and whether its timeout is still armed. *)
Inductive Outcome := Resolved (payload : Json) | Rejected (message : string).
Record Promise := mkPromise { pr_timer : bool; pr_result : option Outcome; pr_session : nat; pr_frame : string }.

Record Session := mkSession {
  ss_agent : string;
  ss_asset : string;
  ss_open : bool;
  ss_pending : JsMap string nat;
  ss_pingTimer : bool;
  ss_pongSeen : bool;
}.

Record Frame := mkFrame { fr_type : string; fr_id : string; fr_payload : Json }.

Record Channel := mkChannel {
  cn_sessions : JsMap string nat;
  cn_heap : list Session;
  cn_promises : list Promise;
  cn_sent : list (nat * Frame);
  cn_events : list (string * string);
}.
Definition set_map (m : JsMap string nat) (c : Channel) : Channel :=
  mkChannel m (cn_heap c) (cn_promises c) (cn_sent c) (cn_events c).
Definition update_session (sid : nat) (f : Session → Session) (c : Channel) : Channel :=
  mkChannel (cn_sessions c) (alter f sid (cn_heap c)) (cn_promises c) (cn_sent c) (cn_events c).
Definition update_promise (p : nat) (f : Promise → Promise) (c : Channel) : Channel :=
  mkChannel (cn_sessions c) (cn_heap c) (alter f p (cn_promises c)) (cn_sent c) (cn_events c).
Definition safeSend (sid : nat) (f : Frame) (c : Channel) : Channel :=
  mkChannel (cn_sessions c) (cn_heap c) (cn_promises c) (cn_sent c ++ [(sid, f)]) (cn_events c).
Definition channel_event (action asset : string) (c : Channel) : Channel :=
  mkChannel (cn_sessions c) (cn_heap c) (cn_promises c) (cn_sent c) (cn_events c ++ [(action, asset)]).

(** Settling a settled promise does nothing; [clearTimeout] disarms the timer. *)
Definition settle (o : Outcome) (p : Promise) : Promise :=
  mkPromise (pr_timer p) (match pr_result p with Some r => Some r | None => Some o end) (pr_session p) (pr_frame p).
Definition clear_timer (p : Promise) : Promise := mkPromise false (pr_result p) (pr_session p) (pr_frame p).

Definition set_pending (m : JsMap string nat) (x : Session) : Session :=
  mkSession (ss_agent x) (ss_asset x) (ss_open x) m (ss_pingTimer x) (ss_pongSeen x).
Definition set_pong (b : bool) (x : Session) : Session :=
  mkSession (ss_agent x) (ss_asset x) (ss_open x) (ss_pending x) (ss_pingTimer x) b.
(** [clearInterval(pingTimer)], [pending.clear()], [ws.close()] *)
Definition shut (x : Session) : Session :=
  mkSession (ss_agent x) (ss_asset x) false [] false (ss_pongSeen x).

Definition reject_pending (c : Channel) (p : nat) : Channel :=
  update_promise p (λ x, settle (Rejected "Agent disconnected") (clear_timer x)) c.

Definition teardown (sid : nat) (c : Channel) : Channel :=
  match cn_heap c !! sid with
  | None => c
  | Some x => update_session sid shut (foldl reject_pending c (mvalues (ss_pending x)))
  end.

Definition detach (agent : string) (c : Channel) : Channel :=
  match mget agent (cn_sessions c) with
  | None => c
  | Some sid =>
      let c' := teardown sid (set_map (mdelete agent (cn_sessions c)) c) in
      match cn_heap c !! sid with Some x => channel_event "agent.disconnected" (ss_asset x) c' | None => c' end
  end.

Definition attach (agent asset : string) (c : Channel) : Channel :=
  let c := match mget agent (cn_sessions c) with Some old => teardown old c | None => c end in
  let sid := length (cn_heap c) in
  let c := mkChannel (mset agent sid (cn_sessions c)) (cn_heap c ++ [mkSession agent asset true [] true true])
             (cn_promises c) (cn_sent c) (cn_events c) in
  channel_event "agent.connected" asset (safeSend sid (mkFrame "hello" "" (JObj [("managedAgentId", JStr agent)])) c).

Definition isAttached (agent : string) (c : Channel) : bool := mhas agent (cn_sessions c).
Definition liveSessionCount (c : Channel) : nat := length (cn_sessions c).

(** The handlers of the socket of session [sid]. *)
Definition on_close (sid : nat) (c : Channel) : Channel :=
  match cn_heap c !! sid with Some x => detach (ss_agent x) c | None => c end.
Definition on_error (sid : nat) (c : Channel) : Channel := on_close sid c.
Definition on_pong (sid : nat) (c : Channel) : Channel := update_session sid (set_pong true) c.

(** The interval of session [sid]: 30 seconds. *)
Definition HEARTBEAT_INTERVAL_MS : Z := 30000.
Definition on_tick (sid : nat) (c : Channel) : Channel :=
  match cn_heap c !! sid with
  | Some x =>
      if negb (ss_pingTimer x) then c
      else if negb (ss_pongSeen x) then detach (ss_agent x) c
      else update_session sid (set_pong false) c
  | None => c
  end.

(** A text that does not parse, the text [null], and any other as a frame.  The
    type of [null] is read outside the [try]: the listener of the socket throws. *)
Inductive Incoming := Unparsable | NullText | Parsed (f : Frame).
Definition onFrame (agent : string) (data : Incoming) (c : Channel) : Channel * result unit :=
  match data with
  | Unparsable => (c, Ok tt)
  | NullText => (c, Throw (JsError "TypeError"))
  | Parsed f =>
      (if negb (String.eqb (fr_type f) "probe-now-response") then c else
       match mget agent (cn_sessions c) with
       | None => c
       | Some sid =>
           match cn_heap c !! sid with
           | None => c
           | Some x =>
               match mget (fr_id f) (ss_pending x) with
               | None => c
               | Some p =>
                   update_promise p (λ q, settle (Resolved (fr_payload f)) (clear_timer q))
                     (update_session sid (λ x, set_pending (mdelete (fr_id f) (ss_pending x)) x) c)
               end
           end
       end, Ok tt)
  end.

(** [id] is the random frame id; the answer is the promise. *)
Definition sendProbeNow (agent stream id : string) (c : Channel) : Channel * nat :=
  let p := length (cn_promises c) in
  match mget agent (cn_sessions c) with
  | None =>
      (mkChannel (cn_sessions c) (cn_heap c)
         (cn_promises c ++ [mkPromise false
            (Some (Rejected "Agent is not currently attached — try again after the agent reconnects")) 0 id])
         (cn_sent c) (cn_events c), p)
  | Some sid =>
      let c := mkChannel (cn_sessions c) (cn_heap c) (cn_promises c ++ [mkPromise true None sid id]) (cn_sent c) (cn_events c) in
      let c := update_session sid (λ x, set_pending (mset id p (ss_pending x)) x) c in
      (safeSend sid (mkFrame "probe-now-request" id (JObj [("stream", JStr stream)])) c, p)
  end.

(** The default timeout, the one the routes use. *)
Definition PROBE_NOW_DEFAULT_TIMEOUT_MS : Z := 10000.
Definition probe_timed_out : string :=
  "Agent did not respond to probe-now within " +:+ pretty PROBE_NOW_DEFAULT_TIMEOUT_MS +:+ "ms".

(** The timeout of promise [p]. *)
Definition on_timeout (p : nat) (c : Channel) : Channel :=
  match cn_promises c !! p with
  | Some x =>
      if pr_timer x
      then update_promise p (λ q, settle (Rejected probe_timed_out) (clear_timer q))
             (update_session (pr_session x) (λ y, set_pending (mdelete (pr_frame x) (ss_pending y)) y) c)
      else c
  | None => c
  end.

Definition refreshConfig (agent : string) (c : Channel) : Channel :=
  match mget agent (cn_sessions c) with
  | None => c
  | Some sid => safeSend sid (mkFrame "refresh-config" "" (JObj [])) c
  end.

Definition shutdownAllSessions (c : Channel) : Channel := foldl (λ c a, detach a c) c (mkeys (cn_sessions c)).

(** ** Runs *)

Inductive ChannelOp :=
  | CAttach (agent asset : string)
  | CDetach (agent : string)
  | CClose (sid : nat)
  | CError (sid : nat)
  | CPong (sid : nat)
  | CTick (sid : nat)
  | CFrame (agent : string) (data : Incoming)
  | CProbe (agent stream id : string)
  | CTimeout (p : nat)
  | CRefresh (agent : string)
  | CShutdown.

Definition channel_step (op : ChannelOp) (c : Channel) : Channel :=
  match op with
  | CAttach agent asset => attach agent asset c
  | CDetach agent => detach agent c
  | CClose sid => on_close sid c
  | CError sid => on_error sid c
  | CPong sid => on_pong sid c
  | CTick sid => on_tick sid c
  | CFrame agent data => (onFrame agent data c).1
  | CProbe agent stream id => (sendProbeNow agent stream id c).1
  | CTimeout p => on_timeout p c
  | CRefresh agent => refreshConfig agent c
  | CShutdown => shutdownAllSessions c
  end.
Definition channel_run (ops : list ChannelOp) (c : Channel) : Channel := foldl (λ c op, channel_step op c) c ops.
Definition new_channel : Channel := mkChannel [] [] [] [] [].

(** ** The invariant *)

(** Frame ids are drawn at random; the code relies on them being unused among
    the requests in flight of the session. *)
Definition unused_id (agent id : string) (c : Channel) : Prop :=
  ∀ sid x, mget agent (cn_sessions c) = Some sid → cn_heap c !! sid = Some x → mget id (ss_pending x) = None.
Definition op_ok (op : ChannelOp) (c : Channel) : Prop :=
  match op with CProbe agent _ id => unused_id agent id c | _ => True end.

Inductive channel_steps : Channel → Channel → Prop :=
  | cs_refl c : channel_steps c c
  | cs_step c c' op : channel_steps c c' → op_ok op c' → channel_steps c (channel_step op c').

Record channel_ok (c : Channel) : Prop := mkChannelOk {
  co_keys : NoDup (mkeys (cn_sessions c));
  co_map : ∀ agent sid, mget agent (cn_sessions c) = Some sid →
    ∃ x, cn_heap c !! sid = Some x ∧ ss_agent x = agent ∧ ss_open x = true ∧ ss_pingTimer x = true;
  co_open : ∀ sid x, cn_heap c !! sid = Some x → ss_open x = true ∨ ss_pingTimer x = true →
    mget (ss_agent x) (cn_sessions c) = Some sid;
  co_shut : ∀ sid x, cn_heap c !! sid = Some x → ss_open x = false → ss_pending x = [];
  co_pending : ∀ sid x id p, cn_heap c !! sid = Some x → (id, p) ∈ ss_pending x →
    ∃ q, cn_promises c !! p = Some q ∧ pr_session q = sid ∧ pr_frame q = id;
  co_nodup : ∀ sid x, cn_heap c !! sid = Some x → NoDup (mkeys (ss_pending x));
  co_timer : ∀ p q, cn_promises c !! p = Some q → (pr_timer q = true ↔ pr_result q = None);
  co_waiting : ∀ p q, cn_promises c !! p = Some q → pr_result q = None →
    ∃ x, cn_heap c !! pr_session q = Some x ∧ (pr_frame q, p) ∈ ss_pending x;
}.

Definition settled_with (o : Outcome) (x : Promise) : Promise := settle o (clear_timer x).

Lemma reject_pending_frame l c :
  cn_sessions (foldl reject_pending c l) = cn_sessions c ∧ cn_heap (foldl reject_pending c l) = cn_heap c.
Proof. revert c. induction l as [|p l IH]; intros c; [done|]. cbn [foldl]. by destruct (IH (reject_pending c p)) as [-> ->]. Qed.

Lemma settle_settle o o' x : settled_with o (settled_with o' x) = settled_with o' x.
Proof. unfold settled_with, settle, clear_timer. cbn. by destruct (pr_result x). Qed.

Lemma reject_pending_promises l c p :
  cn_promises (foldl reject_pending c l) !! p =
  if bool_decide (p ∈ l) then settled_with (Rejected "Agent disconnected") <$> cn_promises c !! p else cn_promises c !! p.
Proof.
  revert c. induction l as [|p' l IH]; intros c; cbn [foldl].
  - by rewrite bool_decide_eq_false_2 by (by intros ?%elem_of_nil).
  - rewrite IH. cbn [reject_pending update_promise cn_promises]. destruct (decide (p = p')) as [->|Hne].
    + rewrite list_lookup_alter_eq, (bool_decide_eq_true_2 (p' ∈ p' :: l)) by (by left).
      destruct (bool_decide (p' ∈ l)); [|done]. destruct (cn_promises c !! p') as [x|]; [|done]. cbn.
      f_equal. apply settle_settle.
    + rewrite list_lookup_alter_ne by done. rewrite (bool_decide_ext (p ∈ p' :: l) (p ∈ l)); [done|].
      rewrite elem_of_cons. naive_solver.
Qed.

(** What a shut session leaves of the heap and of the promises. *)
Lemma teardown_run sid c x :
  cn_heap c !! sid = Some x →
  cn_sessions (teardown sid c) = cn_sessions c ∧ cn_heap (teardown sid c) = <[sid := shut x]> (cn_heap c) ∧
  ∀ p, cn_promises (teardown sid c) !! p =
    if bool_decide (p ∈ mvalues (ss_pending x)) then settled_with (Rejected "Agent disconnected") <$> cn_promises c !! p
    else cn_promises c !! p.
Proof.
  intros Hx. unfold teardown. rewrite Hx. cbn [update_session cn_sessions cn_heap cn_promises].
  destruct (reject_pending_frame (mvalues (ss_pending x)) c) as [-> ->]. split_and!; [done| |apply reject_pending_promises].
  apply list_eq. intros i. destruct (decide (i = sid)) as [->|Hne].
  - rewrite list_lookup_alter_eq, Hx. rewrite list_lookup_insert_eq; [done|]. by apply lookup_lt_Some in Hx.
  - rewrite list_lookup_alter_ne, list_lookup_insert_ne by done. done.
Qed.

Lemma pending_mvalues id p (m : JsMap string nat) : (id, p) ∈ m → p ∈ mvalues m.
Proof. intros H. apply list_elem_of_fmap. by exists (id, p). Qed.
Lemma mvalues_elem p (m : JsMap string nat) : p ∈ mvalues m → ∃ id, (id, p) ∈ m.
Proof. intros ([id p'] & -> & H)%list_elem_of_fmap. by exists id. Qed.

Lemma heap_insert_some (h : list Session) sid y i x :
  <[sid := y]> h !! i = Some x → i = sid ∧ x = y ∨ i ≠ sid ∧ h !! i = Some x.
Proof.
  destruct (decide (i = sid)) as [->|Hne]; [|rewrite list_lookup_insert_ne by done; auto].
  intros Hl. pose proof (lookup_lt_Some _ _ _ Hl) as Hlt. rewrite length_insert in Hlt.
  rewrite list_lookup_insert_eq in Hl by done. left. split; [done|congruence].
Qed.

(** Shutting the session of [agent] while the map forgets it. *)
Lemma drop_ok agent sid c (x : Session) :
  channel_ok c → mget agent (cn_sessions c) = Some sid → cn_heap c !! sid = Some x →
  channel_ok (teardown sid (set_map (mdelete agent (cn_sessions c)) c)).
Proof.
  intros [Hk Hm Ho Hs Hp Hn Ht Hw] Hsid Hx.
  destruct (Hm _ _ Hsid) as (x' & Hx' & Hag & _). rewrite Hx in Hx'. injection Hx' as <-.
  destruct (teardown_run sid (set_map (mdelete agent (cn_sessions c)) c) x Hx) as (Es & Eh & Ep).
  cbn [set_map cn_sessions cn_heap cn_promises] in Es, Eh, Ep.
  assert (∀ i y, cn_heap c !! i = Some y → ss_agent y = agent → ss_open y = true ∨ ss_pingTimer y = true → i = sid) as Hone.
  { intros i y Hi Hy Hopen. pose proof (Ho i y Hi Hopen) as Hg. rewrite Hy in Hg. congruence. }
  constructor; rewrite ?Es, ?Eh.
  - unfold mdelete, mkeys. clear -Hk. induction (cn_sessions c) as [|[a s] m IH]; [done|].
    change (mkeys ((a, s) :: m)) with (a :: mkeys m) in Hk. apply NoDup_cons in Hk as [Ha Hk]. cbn [List.filter].
    destruct (negb _); [|by apply IH]. rewrite fmap_cons. apply NoDup_cons. split; [|by apply IH].
    intros (y & He & Hy)%list_elem_of_fmap. apply Ha. apply list_elem_of_fmap. exists y. split; [done|].
    rewrite list_elem_of_In in *. by apply filter_In in Hy as [? _].
  - intros a i. rewrite mget_mdelete. case_decide as Hd; [done|]. intros Hg. destruct (Hm _ _ Hg) as (y & Hy & Hya & ?).
    exists y. split; [|done]. rewrite list_lookup_insert_ne; [done|]. intros <-. congruence.
  - intros i y [[-> ->]|[Hne Hy]]%heap_insert_some Hopen; [by destruct Hopen|].
    rewrite mget_mdelete. case_decide as Hd; [|by apply Ho]. destruct Hne. by eapply Hone.
  - intros i y [[-> ->]|[Hne Hy]]%heap_insert_some; [done|]. by apply (Hs i y).
  - intros i y id p [[-> ->]|[Hne Hy]]%heap_insert_some Hin; [by apply elem_of_nil in Hin|].
    destruct (Hp _ _ _ _ Hy Hin) as (q & Hq & ? & ?). rewrite Ep. destruct (bool_decide _); [|by eauto].
    rewrite Hq. by eexists.
  - intros i y [[-> ->]|[Hne Hy]]%heap_insert_some; [constructor|]. by eapply Hn.
  - intros p q. rewrite Ep. destruct (bool_decide _); [|apply Ht]. intros (q' & _ & ->)%fmap_Some. cbn. by destruct (pr_result q').
  - intros p q. rewrite Ep. destruct (bool_decide (p ∈ mvalues (ss_pending x))) eqn:Hb.
    + intros (q' & _ & ->)%fmap_Some. cbn. by destruct (pr_result q').
    + intros Hq Hr. destruct (Hw _ _ Hq Hr) as (y & Hy & Hin). exists y. split; [|done].
      rewrite list_lookup_insert_ne; [done|]. intros He. rewrite <-He, Hx in Hy. injection Hy as <-.
      apply bool_decide_eq_false in Hb. by apply Hb, (pending_mvalues (pr_frame q)).
Qed.

Lemma channel_ok_ext c c' :
  channel_ok c → (∀ a, mget a (cn_sessions c') = mget a (cn_sessions c)) → NoDup (mkeys (cn_sessions c')) →
  cn_heap c' = cn_heap c → (∀ p, cn_promises c' !! p = cn_promises c !! p) → channel_ok c'.
Proof.
  intros [Hk Hm Ho Hs Hp Hn Ht Hw] Em Ek Eh Ep. constructor; rewrite ?Eh; try done.
  - intros a sid. rewrite Em. apply Hm.
  - intros sid x Hx Hopen. rewrite Em. by apply Ho.
  - intros sid x id p Hx Hin. rewrite Ep. by eapply Hp.
  - intros p q. rewrite Ep. apply Ht.
  - intros p q. rewrite Ep. apply Hw.
Qed.

Lemma detach_ok agent c : channel_ok c → channel_ok (detach agent c).
Proof.
  intros Hok. unfold detach. destruct (mget agent (cn_sessions c)) as [sid|] eqn:Hg; [|done].
  destruct (co_map _ Hok _ _ Hg) as (x & Hx & _). rewrite Hx.
  pose proof (drop_ok agent sid c x Hok Hg Hx) as Hdrop. by eapply channel_ok_ext; [exact Hdrop|..]; try done; apply Hdrop.
Qed.

(** A new session of an agent that has none. *)
Lemma join_ok agent asset c :
  channel_ok c → mget agent (cn_sessions c) = None →
  channel_ok (mkChannel (mset agent (length (cn_heap c)) (cn_sessions c))
    (cn_heap c ++ [mkSession agent asset true [] true true]) (cn_promises c) (cn_sent c) (cn_events c)).
Proof.
  intros [Hk Hm Ho Hs Hp Hn Ht Hw] Hg.
  assert (∀ i y, (cn_heap c ++ [mkSession agent asset true [] true true]) !! i = Some y →
    cn_heap c !! i = Some y ∨ i = length (cn_heap c) ∧ y = mkSession agent asset true [] true true) as Hl.
  { intros i y [?|[? Hy]]%lookup_app_Some; [by left|]. right.
    apply list_lookup_singleton_Some in Hy as [? <-]. split; [lia|done]. }
  constructor; cbn [cn_sessions cn_heap cn_promises].
  - by apply mset_NoDup.
  - intros a i. rewrite mget_mset. case_decide as Hd.
    + intros [= <-]. eexists. split; [by rewrite lookup_app_r, Nat.sub_diag by done|by subst].
    + intros Hi. destruct (Hm _ _ Hi) as (y & Hy & ?). exists y. split; [by apply lookup_app_l_Some|done].
  - intros i y [Hy|[-> ->]]%Hl Hopen; rewrite mget_mset; [|by rewrite decide_True].
    pose proof (Ho i y Hy Hopen) as Hyi. rewrite decide_False; [done|]. intros He. congruence.
  - intros i y [Hy|[-> ->]]%Hl; [by apply (Hs i y)|done].
  - intros i y id p [Hy|[-> ->]]%Hl Hin; [by apply (Hp i y id p)|by apply elem_of_nil in Hin].
  - intros i y [Hy|[-> ->]]%Hl; [by apply (Hn i y)|constructor].
  - done.
  - intros p q Hq Hr. destruct (Hw p q Hq Hr) as (y & Hy & ?). exists y. split; [by apply lookup_app_l_Some|done].
Qed.

Lemma attach_ok agent asset c : channel_ok c → channel_ok (attach agent asset c).
Proof.
  intros Hok. unfold attach. destruct (mget agent (cn_sessions c)) as [old|] eqn:Hg.
  - destruct (co_map _ Hok _ _ Hg) as (x & Hx & _).
    pose proof (drop_ok agent old c x Hok Hg Hx) as Hdrop.
    destruct (teardown_run old c x Hx) as (Es & Eh & Ep).
    destruct (teardown_run old (set_map (mdelete agent (cn_sessions c)) c) x Hx) as (Es' & Eh' & Ep').
    cbn [set_map cn_sessions cn_heap cn_promises] in Es', Eh', Ep'.
    pose proof (join_ok agent asset _ Hdrop) as Hjoin. rewrite Es', Eh' in Hjoin.
    eapply channel_ok_ext; [apply Hjoin|..]; cbn [channel_event safeSend cn_sessions cn_heap cn_promises]; rewrite ?Es, ?Eh.
    + rewrite mget_mdelete. by case_decide.
    + intros a. rewrite !mget_mset, mget_mdelete, length_insert. by repeat case_decide.
    + apply mset_NoDup, Hok.
    + done.
    + intros p. rewrite Ep, Ep'. done.
  - by eapply channel_ok_ext; [apply (join_ok agent asset c Hok Hg)|..]; try done; apply mset_NoDup, Hok.
Qed.

Lemma alter_some (h : list Session) sid f i y :
  alter f sid h !! i = Some y → ∃ x, h !! i = Some x ∧ y = if decide (i = sid) then f x else x.
Proof.
  destruct (decide (i = sid)) as [->|Hne].
  - rewrite list_lookup_alter_eq. intros (x & -> & ->)%fmap_Some. eauto.
  - rewrite list_lookup_alter_ne by done. eauto.
Qed.
Lemma alter_lookup (h : list Session) sid f i x :
  h !! i = Some x → alter f sid h !! i = Some (if decide (i = sid) then f x else x).
Proof.
  intros Hx. destruct (decide (i = sid)) as [->|Hne]; [by rewrite list_lookup_alter_eq, Hx|by rewrite list_lookup_alter_ne].
Qed.

Lemma pong_ok sid b c : channel_ok c → channel_ok (update_session sid (set_pong b) c).
Proof.
  intros [Hk Hm Ho Hs Hp Hn Ht Hw]. constructor; cbn [update_session cn_sessions cn_heap cn_promises]; [done|..].
  - intros a i Hi. destruct (Hm _ _ Hi) as (x & Hx & ?). eexists. split; [by apply alter_lookup|]. by case_decide.
  - intros i y (x & Hx & ->)%alter_some. pose proof (Ho i x Hx). by case_decide.
  - intros i y (x & Hx & ->)%alter_some. pose proof (Hs i x Hx). by case_decide.
  - intros i y id p (x & Hx & ->)%alter_some Hin. apply (Hp i x id p Hx). by case_decide.
  - intros i y (x & Hx & ->)%alter_some. pose proof (Hn i x Hx). by case_decide.
  - done.
  - intros p q Hq Hr. destruct (Hw p q Hq Hr) as (x & Hx & ?). eexists. split; [by apply alter_lookup|]. by case_decide.
Qed.

(** One request leaves the session's table and is settled. *)
Lemma finish_ok o sid id p c x :
  channel_ok c → cn_heap c !! sid = Some x → (id, p) ∈ ss_pending x →
  channel_ok (update_promise p (settled_with o) (update_session sid (λ x, set_pending (mdelete id (ss_pending x)) x) c)).
Proof.
  intros [Hk Hm Ho Hs Hp Hn Ht Hw] Hx Hin.
  assert (∀ y, (∀ e, e ∈ mdelete id (ss_pending y) → e ∈ ss_pending y ∧ e.1 ≠ id) ∧
               (∀ e, e ∈ ss_pending y → e.1 ≠ id → e ∈ mdelete id (ss_pending y))) as Hdel.
  { intros y. split; intros e; unfold mdelete; rewrite !list_elem_of_In, filter_In, negb_true_iff, bool_decide_eq_false; naive_solver. }
  constructor; cbn [update_promise update_session cn_sessions cn_heap cn_promises]; [done|..].
  - intros a i Hi. destruct (Hm _ _ Hi) as (y & Hy & ?). eexists. split; [by apply alter_lookup|]. by case_decide.
  - intros i z (y & Hy & ->)%alter_some. pose proof (Ho i y Hy). by case_decide.
  - intros i z (y & Hy & ->)%alter_some. pose proof (Hs i y Hy) as Hnil. case_decide; [|done]. cbn. intros Hopen.
    by rewrite (Hnil Hopen).
  - intros i z id' p' (y & Hy & ->)%alter_some Hz.
    assert ((id', p') ∈ ss_pending y) as Hy' by (case_decide; [by apply Hdel in Hz as [? _]|done]).
    destruct (Hp _ _ _ _ Hy Hy') as (q & Hq & Hqs & Hqf).
    destruct (decide (p' = p)) as [->|Hne]; [|by rewrite list_lookup_alter_ne; eauto].
    rewrite list_lookup_alter_eq, Hq. by eexists.
  - intros i z (y & Hy & ->)%alter_some. pose proof (Hn i y Hy) as Hnd. case_decide; [|done]. cbn.
    unfold mdelete, mkeys. clear -Hnd. induction (ss_pending y) as [|[a s] m IH]; [done|].
    change (mkeys ((a, s) :: m)) with (a :: mkeys m) in Hnd. apply NoDup_cons in Hnd as [Ha Hk]. cbn [List.filter].
    destruct (negb _); [|by apply IH]. rewrite fmap_cons. apply NoDup_cons. split; [|by apply IH].
    intros (e & He & Hin)%list_elem_of_fmap. apply Ha. apply list_elem_of_fmap. exists e. split; [done|].
    rewrite list_elem_of_In in *. by apply filter_In in Hin as [? _].
  - intros p' q. destruct (decide (p' = p)) as [->|Hne]; [|rewrite list_lookup_alter_ne by done; apply Ht].
    rewrite list_lookup_alter_eq. intros (q' & _ & ->)%fmap_Some. cbn. by destruct (pr_result q').
  - intros p' q. destruct (decide (p' = p)) as [->|Hne].
    + rewrite list_lookup_alter_eq. intros (q' & _ & ->)%fmap_Some. cbn. by destruct (pr_result q').
    + rewrite list_lookup_alter_ne by done. intros Hq Hr. destruct (Hw p' q Hq Hr) as (y & Hy & Hz).
      eexists. split; [by apply alter_lookup|]. case_decide as Hd; [|done]. cbn. apply Hdel; [done|]. cbn. intros He.
      apply Hne. rewrite Hd, Hx in Hy. injection Hy as <-.
      pose proof (elem_mget _ _ _ (Hn _ _ Hx) Hz) as A. pose proof (elem_mget _ _ _ (Hn _ _ Hx) Hin) as B. rewrite He in A. congruence.
Qed.

Lemma probe_ok agent stream id c :
  channel_ok c → unused_id agent id c → channel_ok (sendProbeNow agent stream id c).1.
Proof.
  intros [Hk Hm Ho Hs Hp Hn Ht Hw] Hid. unfold sendProbeNow. destruct (mget agent (cn_sessions c)) as [sid|] eqn:Hg.
  - destruct (Hm _ _ Hg) as (x & Hx & Hag & Hopen & Htm). pose proof (Hid sid x Hg Hx) as Hfree.
    cbn [fst]. constructor; cbn [safeSend update_session cn_sessions cn_heap cn_promises]; [done|..].
    + intros a i Hi. destruct (Hm _ _ Hi) as (y & Hy & ?). eexists. split; [by apply alter_lookup|]. by case_decide.
    + intros i z (y & Hy & ->)%alter_some. pose proof (Ho i y Hy). by case_decide.
    + intros i z (y & Hy & ->)%alter_some. pose proof (Hs i y Hy). case_decide as Hd; [|done]. subst i.
      rewrite Hx in Hy. injection Hy as <-. cbn. congruence.
    + intros i z id' p' (y & Hy & ->)%alter_some Hz.
      assert ((id', p') ∈ ss_pending y ∨ i = sid ∧ id' = id ∧ p' = length (cn_promises c)) as [Hold|(-> & -> & ->)].
      { case_decide as Hd; [|by left]. subst i. rewrite Hx in Hy. injection Hy as <-. cbn in Hz.
        apply elem_mget in Hz; [|by apply mset_NoDup, (Hn _ _ Hx)]. rewrite mget_mset in Hz.
        case_decide as Hd; [by injection Hz as <-; right|]. left. by apply mget_elem. }
      * destruct (Hp _ _ _ _ Hy Hold) as (q & Hq & ?). exists q. split; [by apply lookup_app_l_Some|done].
      * eexists. split; [by rewrite lookup_app_r, Nat.sub_diag by done|done].
    + intros i z (y & Hy & ->)%alter_some. pose proof (Hn i y Hy). case_decide; [by apply mset_NoDup|done].
    + intros p q [Hq|[_ [_ <-]%list_lookup_singleton_Some]]%lookup_app_Some; [by eapply Ht|done].
    + intros p q [Hq|[Hge [Hp0 <-]%list_lookup_singleton_Some]]%lookup_app_Some Hr.
      * destruct (Hw p q Hq Hr) as (y & Hy & Hz). eexists. split; [by apply alter_lookup|]. case_decide as Hd; [|done].
        cbn. rewrite Hd, Hx in Hy. injection Hy as <-. apply mget_elem. rewrite mget_mset. case_decide as Hd'.
        -- subst id. rewrite (elem_mget _ _ _ (Hn _ _ Hx) Hz) in Hfree. done.
        -- by apply elem_mget; [apply (Hn _ _ Hx)|].
      * cbn. eexists. split; [by apply alter_lookup|]. rewrite decide_True by done. cbn. apply mget_elem.
        rewrite mget_mset_eq. f_equal. lia.
  - constructor; cbn [fst cn_sessions cn_heap cn_promises]; try done.
    + intros i y id' p Hy Hin. destruct (Hp _ _ _ _ Hy Hin) as (q & Hq & ?). exists q. split; [by apply lookup_app_l_Some|done].
    + intros p q [Hq|[_ [_ <-]%list_lookup_singleton_Some]]%lookup_app_Some; [by eapply Ht|done].
    + intros p q [Hq|[_ [_ <-]%list_lookup_singleton_Some]]%lookup_app_Some; [by apply Hw|done].
Qed.

Lemma detach_all_ok l c : channel_ok c → channel_ok (foldl (λ c a, detach a c) c l).
Proof. revert c. induction l as [|a l IH]; intros c Hok; [done|]. by apply IH, detach_ok. Qed.

Lemma channel_step_ok op c : op_ok op c → channel_ok c → channel_ok (channel_step op c).
Proof.
  intros Hop Hok. destruct op; cbn [channel_step].
  - by apply attach_ok.
  - by apply detach_ok.
  - unfold on_close. destruct (cn_heap c !! sid); [by apply detach_ok|done].
  - unfold on_error, on_close. destruct (cn_heap c !! sid); [by apply detach_ok|done].
  - by apply pong_ok.
  - unfold on_tick. destruct (cn_heap c !! sid) as [x|]; [|done].
    destruct (negb (ss_pingTimer x)); [done|]. destruct (negb (ss_pongSeen x)); [by apply detach_ok|by apply pong_ok].
  - unfold onFrame. destruct data as [| |f]; [done|done|]. cbn [fst]. destruct (negb _); [done|].
    destruct (mget agent (cn_sessions c)) as [sid|]; [|done]. destruct (cn_heap c !! sid) as [x|] eqn:Hx; [|done].
    destruct (mget (fr_id f) (ss_pending x)) as [p|] eqn:Hp; [|done].
    by apply (finish_ok (Resolved (fr_payload f)) sid (fr_id f) p c x Hok Hx), mget_elem.
  - by apply probe_ok.
  - unfold on_timeout. destruct (cn_promises c !! p) as [q|] eqn:Hq; [|done]. destruct (pr_timer q) eqn:Ht; [|done].
    apply (co_timer _ Hok p q Hq) in Ht. destruct (co_waiting _ Hok p q Hq Ht) as (x & Hx & Hin).
    by apply (finish_ok (Rejected probe_timed_out) _ _ p c x Hok Hx).
  - unfold refreshConfig. destruct (mget agent (cn_sessions c)); [|done]. by eapply channel_ok_ext; [exact Hok|..]; try done; apply Hok.
  - by apply detach_all_ok.
Qed.

Lemma new_channel_ok : channel_ok new_channel.
Proof.
  constructor; cbn; try done; constructor.
Qed.

Lemma channel_steps_ok c c' : channel_steps c c' → channel_ok c → channel_ok c'.
Proof. induction 1 as [|c c' op _ IH Hop]; intros; [done|]. apply channel_step_ok; auto. Qed.

(** ** Settled promises stay settled *)

Definition settled (p : nat) (o : Outcome) (c : Channel) : Prop := ∃ q, cn_promises c !! p = Some q ∧ pr_result q = Some o.

Lemma settled_teardown p o sid c : settled p o c → settled p o (teardown sid c).
Proof.
  intros (q & Hq & Hr). destruct (cn_heap c !! sid) as [x|] eqn:Hx; [|unfold teardown; rewrite Hx; by exists q].
  destruct (teardown_run sid c x Hx) as (_ & _ & Ep). unfold settled. rewrite Ep, Hq.
  destruct (bool_decide _); eexists; (split; [done|]); [|done]. cbn. by rewrite Hr.
Qed.
Lemma settled_detach p o a c : settled p o c → settled p o (detach a c).
Proof.
  intros Hs. unfold detach. destruct (mget a (cn_sessions c)) as [sid|]; [|done].
  assert (settled p o (teardown sid (set_map (mdelete a (cn_sessions c)) c))) as Ht by (by apply settled_teardown).
  by destruct (cn_heap c !! sid).
Qed.
Lemma settled_finish p p' o o' c f sid : settled p o c → settled p o (update_promise p' (settled_with o') (update_session sid f c)).
Proof.
  intros (q & Hq & Hr). unfold settled. cbn [update_promise update_session cn_promises].
  destruct (decide (p = p')) as [->|Hne]; [|by rewrite list_lookup_alter_ne; eauto].
  rewrite list_lookup_alter_eq, Hq. eexists. split; [done|]. cbn. by rewrite Hr.
Qed.

Lemma settled_step p o op c : settled p o c → settled p o (channel_step op c).
Proof.
  intros Hs. destruct op; cbn [channel_step]; unfold on_error, on_close.
  - unfold attach. assert (settled p o match mget agent (cn_sessions c) with Some old => teardown old c | None => c end) as Ht.
    { destruct (mget agent (cn_sessions c)); [by apply settled_teardown|done]. }
    exact Ht.
  - by apply settled_detach.
  - destruct (cn_heap c !! sid); [by apply settled_detach|done].
  - destruct (cn_heap c !! sid); [by apply settled_detach|done].
  - done.
  - unfold on_tick. destruct (cn_heap c !! sid) as [x|]; [|done]. destruct (negb _); [done|].
    destruct (negb _); [by apply settled_detach|done].
  - unfold onFrame. destruct data as [| |f]; [done|done|]. cbn [fst]. destruct (negb _); [done|].
    destruct (mget agent (cn_sessions c)) as [sid|]; [|done]. destruct (cn_heap c !! sid) as [x|]; [|done].
    destruct (mget (fr_id f) (ss_pending x)) as [p'|]; [|done]. by apply (settled_finish p p' o (Resolved (fr_payload f))).
  - destruct Hs as (q & Hq & Hr). unfold sendProbeNow. destruct (mget agent (cn_sessions c));
      (exists q; split; [by apply lookup_app_l_Some|done]).
  - unfold on_timeout. destruct (cn_promises c !! p0) as [q|]; [|done]. destruct (pr_timer q); [|done].
    by apply (settled_finish p p0 o (Rejected probe_timed_out)).
  - unfold refreshConfig. by destruct (mget agent (cn_sessions c)).
  - unfold shutdownAllSessions. revert Hs. generalize (mkeys (cn_sessions c)). intros l. revert c.
    induction l as [|a l IH]; intros c Hs; [done|]. by apply IH, settled_detach.
Qed.

(** C35: No probe request hangs and none is answered twice.  In every state of
    the channel a request is either settled or has its timeout armed and stands
    in the table of a session that is still attached; the timeout and the end of
    that session both settle it, and an answer once given never changes. *)
Theorem probe_settles_once c p q :
  channel_steps new_channel c → cn_promises c !! p = Some q →
  (pr_timer q = true ↔ pr_result q = None) ∧
  (pr_result q = None → ∃ x, cn_heap c !! pr_session q = Some x ∧ mget (pr_frame q) (ss_pending x) = Some p ∧
     mget (ss_agent x) (cn_sessions c) = Some (pr_session q) ∧
     settled p (Rejected probe_timed_out) (on_timeout p c) ∧
     settled p (Rejected "Agent disconnected") (detach (ss_agent x) c)) ∧
  (∀ o op, pr_result q = Some o → settled p o (channel_step op c)).
Proof.
  intros Hst Hq. assert (channel_ok c) as Hok by (apply (channel_steps_ok new_channel); [done|apply new_channel_ok]).
  split_and!; [by apply (co_timer _ Hok p)| |].
  - intros Hr. destruct (co_waiting _ Hok p q Hq Hr) as (x & Hx & Hin). exists x.
    assert (mget (ss_agent x) (cn_sessions c) = Some (pr_session q)) as Hmap.
    { apply (co_open _ Hok _ _ Hx). left. destruct (ss_open x) eqn:Ho; [done|]. rewrite (co_shut _ Hok _ _ Hx Ho) in Hin.
      by apply elem_of_nil in Hin. }
    split_and!; [done|by apply elem_mget; [apply (co_nodup _ Hok _ _ Hx)|]|done| |].
    + unfold on_timeout. rewrite Hq. rewrite (proj2 (co_timer _ Hok p q Hq) Hr). unfold settled.
      cbn [update_promise update_session cn_promises]. rewrite list_lookup_alter_eq, Hq. eexists. split; [done|].
      cbn. by rewrite Hr.
    + unfold detach. rewrite Hmap, Hx. unfold settled. cbn [channel_event cn_promises].
      destruct (teardown_run (pr_session q) (set_map (mdelete (ss_agent x) (cn_sessions c)) c) x Hx) as (_ & _ & Ep).
      rewrite Ep. cbn [set_map cn_promises]. rewrite bool_decide_eq_true_2 by (by eapply pending_mvalues). rewrite Hq.
      eexists. split; [done|]. cbn. by rewrite Hr.
  - intros o op Hr. apply settled_step. by exists q.
Qed.

(** An agent has at most one open socket, the one the map holds, and exactly
    the attached agents have one; a socket that is not in the map has no timer
    and no requests. *)
Theorem one_session_per_agent c agent :
  channel_steps new_channel c →
  (isAttached agent c = true ↔ ∃ sid x, cn_heap c !! sid = Some x ∧ ss_agent x = agent ∧ ss_open x = true) ∧
  (∀ i j x y, cn_heap c !! i = Some x → cn_heap c !! j = Some y → ss_agent x = agent → ss_agent y = agent →
     ss_open x = true → ss_open y = true → i = j) ∧
  (∀ i x, cn_heap c !! i = Some x → mget (ss_agent x) (cn_sessions c) ≠ Some i →
     ss_open x = false ∧ ss_pingTimer x = false ∧ ss_pending x = []).
Proof.
  intros Hst. assert (channel_ok c) as Hok by (apply (channel_steps_ok new_channel); [done|apply new_channel_ok]).
  split_and!.
  - unfold isAttached. rewrite mhas_true. split.
    + intros [sid Hg]. destruct (co_map _ Hok _ _ Hg) as (x & ? & ? & ? & _). eauto.
    + intros (sid & x & Hx & <- & Ho). rewrite (co_open _ Hok _ _ Hx) by auto. by eexists.
  - intros i j x y Hi Hj Ai Aj Oi Oj. pose proof (co_open _ Hok _ _ Hi (or_introl Oi)) as A.
    pose proof (co_open _ Hok _ _ Hj (or_introl Oj)) as B. congruence.
  - intros i x Hx Hn. destruct (ss_open x) eqn:Ho; [destruct Hn; apply (co_open _ Hok _ _ Hx); auto|].
    destruct (ss_pingTimer x) eqn:Ht; [destruct Hn; apply (co_open _ Hok _ _ Hx); auto|].
    split_and!; [done..|]. by apply (co_shut _ Hok i x).
Qed.

Lemma lookup_update_session sid f c : cn_heap (update_session sid f c) !! sid = f <$> cn_heap c !! sid.
Proof. apply list_lookup_alter_eq. Qed.
Lemma tick_after_pong sid c x :
  cn_heap c !! sid = Some x → ss_pingTimer x = true →
  on_tick sid (on_pong sid c) = update_session sid (set_pong false) (update_session sid (set_pong true) c).
Proof. intros Hx Ht. unfold on_tick, on_pong. rewrite lookup_update_session, Hx. cbn. by rewrite Ht. Qed.

(** The heartbeat: a pong between two ticks keeps the session, a silent interval
    drops it. *)
Theorem heartbeat_drops_silent c agent sid :
  channel_steps new_channel c → mget agent (cn_sessions c) = Some sid →
  isAttached agent (on_tick sid (on_tick sid c)) = false ∧
  isAttached agent (on_tick sid (on_pong sid (on_tick sid (on_pong sid c)))) = true.
Proof.
  intros Hst Hg. assert (channel_ok c) as Hok by (apply (channel_steps_ok new_channel); [done|apply new_channel_ok]).
  destruct (co_map _ Hok _ _ Hg) as (x & Hx & Hag & Ho & Ht). subst agent.
  assert (∀ c', isAttached (ss_agent x) (detach (ss_agent x) c') = false) as Hdet.
  { intros c'. unfold detach, isAttached. destruct (mget (ss_agent x) (cn_sessions c')) as [s|] eqn:Hs; [|by apply mhas_false].
    apply mhas_false. destruct (cn_heap c' !! s) as [z|] eqn:Hz.
    - cbn [channel_event cn_sessions].
      destruct (teardown_run s (set_map (mdelete (ss_agent x) (cn_sessions c')) c') z Hz) as (-> & _).
      cbn. rewrite mget_mdelete. by case_decide.
    - unfold teardown. cbn [set_map cn_heap]. rewrite Hz. cbn. rewrite mget_mdelete. by case_decide. }
  split.
  - unfold on_tick at 2. rewrite Hx, Ht. cbn [negb]. destruct (ss_pongSeen x) eqn:Hp; cbn [negb].
    + unfold on_tick. rewrite lookup_update_session, Hx. cbn. rewrite Ht. cbn. apply Hdet.
    + unfold on_tick. destruct (cn_heap (detach (ss_agent x) c) !! sid) as [y|] eqn:Hy; [|apply Hdet].
      assert (channel_ok (detach (ss_agent x) c)) as Hok' by (by apply detach_ok).
      destruct (negb (ss_pingTimer y)); [apply Hdet|]. destruct (negb (ss_pongSeen y)); [|apply Hdet].
      destruct (decide (ss_agent y = ss_agent x)) as [->|Hne]; [apply Hdet|].
      assert (ss_agent y = ss_agent x); [|done].
      unfold detach in Hy. rewrite Hg, Hx in Hy. cbn [channel_event cn_heap] in Hy.
      destruct (teardown_run sid (set_map (mdelete (ss_agent x) (cn_sessions c)) c) x Hx) as (_ & Eh & _).
      rewrite Eh in Hy. apply heap_insert_some in Hy as [[_ ->]|[? _]]; [done|done].
  - rewrite (tick_after_pong sid c x Hx Ht).
    rewrite (tick_after_pong sid _ (set_pong false (set_pong true x))); [|by rewrite lookup_update_session, lookup_update_session, Hx|done].
    apply mhas_true. by exists sid.
Qed.

(** ** Concrete runs *)

Definition two_probes : list ChannelOp :=
  [CAttach "m1" "a1"; CProbe "m1" "telemetry" "f1"; CProbe "m1" "storage" "f2";
   CFrame "m1" (Parsed (mkFrame "probe-now-response" "f1" (JBool true)))].

Lemma two_probes_reach : channel_steps new_channel (channel_run two_probes new_channel).
Proof.
  unfold two_probes, channel_run. cbn [foldl].
  repeat (apply cs_step; [|first [done|vm_compute; intros sid x; intros [= <-] [= <-]; done]]). apply cs_refl.
Qed.

Lemma probe_settles_once_witness :
  ∃ q, cn_promises (channel_run two_probes new_channel) !! 1%nat = Some q ∧ pr_result q = None ∧
    settled 0 (Resolved (JBool true)) (channel_run two_probes new_channel) ∧
    (pr_timer q = true ↔ pr_result q = None).
Proof.
  eexists. split_and!; [by vm_compute|done|by eexists; vm_compute|].
  eapply (probe_settles_once (channel_run two_probes new_channel) 1); [apply two_probes_reach|by vm_compute].
Defined.

Lemma one_session_per_agent_witness :
  isAttached "m1" (channel_run two_probes new_channel) = true ∧
  ∃ sid x, cn_heap (channel_run two_probes new_channel) !! sid = Some x ∧ ss_agent x = "m1"%string ∧ ss_open x = true.
Proof.
  split; [by vm_compute|].
  apply (one_session_per_agent (channel_run two_probes new_channel) "m1"); [apply two_probes_reach|by vm_compute].
Defined.

(** A reconnect replaces the old session and closes its socket; when the close
    event of the old socket arrives, it detaches the new session, because the
    handler looks the agent up by its id. *)
Theorem stale_close_kills_replacement :
  let c := channel_run [CAttach "m1" "a1"; CAttach "m1" "a1"] new_channel in
  mget "m1"%string (cn_sessions c) = Some 1%nat ∧ isAttached "m1" (on_close 0 c) = false ∧
  ss_open <$> cn_heap (on_close 0 c) !! 1%nat = Some false.
Proof. by vm_compute. Qed.
