(* ===== verification/Roles.v ===== *)
(** * Roles and permissions

    [src/src/api/middleware/permissions.ts]: the function keys, the access levels,
    the snapshot of its role that a session carries and the guards that decide on
    it; [src/src/services/roleService.ts] and the user administration of
    [src/src/api/routes/users.ts] and [routes/roles.ts], which edit what the
    snapshots are taken from.

    [RolesProofs] proves that the guards follow the stored roles. *)

From S2P Require Import Prelude Http JsColl Login MonitorSettings Tokens.

(** ** The permission matrix *)

Inductive AccessLevel := NoAccess | ReadAccess | WriteAccess | FullAccess.
#[export] Instance AccessLevel_eq_dec : EqDecision AccessLevel.
Proof. solve_decision. Defined.

Definition ACCESS_LEVELS : list AccessLevel := [NoAccess; ReadAccess; WriteAccess; FullAccess].
Definition level_text (l : AccessLevel) : string :=
  match l with NoAccess => "none" | ReadAccess => "read" | WriteAccess => "write" | FullAccess => "fullwrite" end.
Definition ACCESS_RANK (l : AccessLevel) : nat :=
  match l with NoAccess => 0 | ReadAccess => 1 | WriteAccess => 2 | FullAccess => 3 end%nat.

(** [isValidAccessLevel] and the level its argument then is. *)
Definition parse_level (s : string) : option AccessLevel :=
  List.find (λ l, String.eqb s (level_text l)) ACCESS_LEVELS.
Definition isValidAccessLevel (s : string) : bool := bool_decide (is_Some (parse_level s)).

Definition rankMeets (actual required : AccessLevel) : bool := (ACCESS_RANK required <=? ACCESS_RANK actual)%nat.

Record FunctionKeyDef := mkFunctionKey {
  fk_key : string;
  fk_label : string;
  fk_description : string;
  fk_hasOwnershipDimension : bool;
}.

Definition FUNCTION_KEYS : list FunctionKeyDef :=
  [
    mkFunctionKey "ipBlocks" "IP Blocks"
      "Top-level CIDR blocks. Read = list/view; write = create/edit/delete." false;
    mkFunctionKey "subnets" "Subnets"
      "Child subnets. Read-Write = create + edit own only; Full Read-Write = edit any." true;
    mkFunctionKey "reservations" "Reservations"
      "IP reservations. Read-Write = create + edit own only; Full Read-Write = edit any." true;
    mkFunctionKey "reservationPush" "DHCP Reservation Push"
      "Push manual reservations to FortiGate (the DHCP Push toggle on FMG / standalone FortiGate integrations)." false;
    mkFunctionKey "allocationTemplates" "Allocation Templates"
      "Saved multi-subnet allocation templates used by the bulk-allocate modal." false;
    mkFunctionKey "assets" "Assets"
      "Asset inventory CRUD + PDF/CSV export." false;
    mkFunctionKey "assetsQuarantine" "Asset Quarantine"
      "Push MAC quarantine to FortiGates + release + verify." false;
    mkFunctionKey "assetsProbe" "Asset Probes"
      "Manual probe-now, SNMP walk, forward/reverse DNS lookup on a specific asset." false;
    mkFunctionKey "assetMonitorSettings" "Asset Monitor Settings"
      "Per-asset / class / integration / manual monitor cadence + retention overrides." false;
    mkFunctionKey "mibDatabase" "MIB Database"
      "Upload / browse / walk SNMP MIB modules." false;
    mkFunctionKey "manufacturerProfiles" "Manufacturer Profiles"
      "Per-vendor telemetry profile (CPU/memory/temperature OIDs + custom widgets)." false;
    mkFunctionKey "manufacturerAliases" "Manufacturer Aliases"
      "Vendor-name normalization map." false;
    mkFunctionKey "credentials" "Credentials"
      "Stored SNMP / WinRM / SSH credentials for monitoring probes." false;
    mkFunctionKey "integrations" "Integrations"
      "FortiManager / FortiGate / Windows Server / Entra ID / Active Directory integration CRUD + discovery." false;
    mkFunctionKey "discoveryConflicts" "Discovery Conflicts"
      "Accept / reject / merge reservation + asset conflicts raised by discovery." false;
    mkFunctionKey "deviceMap" "Device Map"
      "Geographic map of FortiGates + topology graphs." false;
    mkFunctionKey "mapRegions" "Map Regions"
      "Draw / edit / delete polygons that auto-tag enclosed FortiGates." false;
    mkFunctionKey "deviceIcons" "Device Icons"
      "Operator-uploaded icons overlaid on the topology graph." false;
    mkFunctionKey "events" "Events / Audit Log"
      "Audit log + syslog/SFTP archival settings + event retention." false;
    mkFunctionKey "staleReservations" "Stale Reservations"
      "Snooze / ignore / un-ignore stale DHCP reservation alerts + the threshold setting." false;
    mkFunctionKey "apiTokens" "API Tokens"
      "Long-lived bearer tokens for external callers (SIEM quarantine, etc.)." false;
    mkFunctionKey "users" "Users"
      "User CRUD + role assignment + TOTP reset." false;
    mkFunctionKey "roles" "Roles"
      "Manage this permission matrix itself. Granting Full Read-Write effectively grants admin-equivalent control." false;
    mkFunctionKey "serverSettingsSystem" "Server Settings — System"
      "HTTPS / branding / DNS / NTP / certificates / capacity advisor." false;
    mkFunctionKey "serverSettingsData" "Server Settings — Data"
      "Database backup / restore, queue mode, security tokens, in-app updates." false
  ].

Definition isValidFunctionKey (key : string) : bool := existsb (λ d, String.eqb key (fk_key d)) FUNCTION_KEYS.

(** A fully populated matrix, as an object with one property per function key. *)
Notation Matrix := (JsMap string AccessLevel).

Definition level_of (v : option Json) : AccessLevel :=
  match jstring v with Some s => default NoAccess (parse_level s) | None => NoAccess end.
Definition normalizePermissions (input : option Json) : Matrix :=
  foldl (λ out d, mset (fk_key d) (level_of (jget (fk_key d) input)) out) [] FUNCTION_KEYS.

#[global] Arguments normalizePermissions : simpl never.
#[global] Arguments isValidFunctionKey : simpl never.

(** A matrix as the JSON column stores it. *)
Definition matrix_json (m : Matrix) : Json := JObj ((λ kv, (kv.1, JStr (level_text kv.2))) <$> m).

Definition grant (key : string) (m : Matrix) : AccessLevel := default NoAccess (mget key m).

(** ** Rows, snapshots, sessions *)

Record Role := mkRole {
  ro_id : string;
  ro_name : string;
  ro_description : option string;
  ro_permissions : Json;
  ro_regionTags : list string;
  ro_isBuiltIn : bool;
  ro_isProtected : bool;
  ro_createdAt : Z;
  ro_updatedAt : Z;
}.

(** The columns of a user that access control reads or writes. *)
Record AccessUser := mkAccessUser {
  xu_id : string;
  xu_username : string;
  xu_passwordHash : string;
  xu_roleId : string;
  xu_regionTags : list string;
  xu_needsRoleReview : bool;
}.

(** Times stand for their ISO texts. *)
Record SessionRoleSnapshot := mkSnapshot {
  sn_id : string;
  sn_name : string;
  sn_isProtected : bool;
  sn_permissions : Matrix;
  sn_updatedAt : Z;
}.

(** The fields of a session these files use. *)
Record RoleSession := mkRoleSession {
  rs_userId : option string;
  rs_roleId : option string;
  rs_snapshot : option SessionRoleSnapshot;
  rs_role : option string;
}.
Definition no_session : RoleSession := mkRoleSession None None None None.

(** The database, the process memory [roleVersionMap], the session store, and
    the requests being served: each works on a copy of its session. *)
Record Request := mkRequest { rq_sid : string; rq_session : RoleSession; rq_level : option AccessLevel }.
Record AccessState := mkAccess {
  ac_roles : list Role;
  ac_users : list AccessUser;
  ac_versions : JsMap string Z;
  ac_sessions : JsMap string RoleSession;
  ac_requests : list Request;
  ac_now : Z;
  ac_nextId : nat;
  ac_draws : nat;
  ac_events : list (string * string);
}.

Definition set_roles (l : list Role) (s : AccessState) : AccessState :=
  mkAccess l (ac_users s) (ac_versions s) (ac_sessions s) (ac_requests s) (ac_now s) (ac_nextId s) (ac_draws s) (ac_events s).
Definition set_users (l : list AccessUser) (s : AccessState) : AccessState :=
  mkAccess (ac_roles s) l (ac_versions s) (ac_sessions s) (ac_requests s) (ac_now s) (ac_nextId s) (ac_draws s) (ac_events s).
Definition set_versions (m : JsMap string Z) (s : AccessState) : AccessState :=
  mkAccess (ac_roles s) (ac_users s) m (ac_sessions s) (ac_requests s) (ac_now s) (ac_nextId s) (ac_draws s) (ac_events s).
Definition set_sessions (m : JsMap string RoleSession) (s : AccessState) : AccessState :=
  mkAccess (ac_roles s) (ac_users s) (ac_versions s) m (ac_requests s) (ac_now s) (ac_nextId s) (ac_draws s) (ac_events s).
Definition set_requests (l : list Request) (s : AccessState) : AccessState :=
  mkAccess (ac_roles s) (ac_users s) (ac_versions s) (ac_sessions s) l (ac_now s) (ac_nextId s) (ac_draws s) (ac_events s).
Definition set_next (n : nat) (s : AccessState) : AccessState :=
  mkAccess (ac_roles s) (ac_users s) (ac_versions s) (ac_sessions s) (ac_requests s) (ac_now s) n (ac_draws s) (ac_events s).
Definition set_clock (t : Z) (s : AccessState) : AccessState :=
  mkAccess (ac_roles s) (ac_users s) (ac_versions s) (ac_sessions s) (ac_requests s) t (ac_nextId s) (ac_draws s) (ac_events s).
Definition set_draws (n : nat) (s : AccessState) : AccessState :=
  mkAccess (ac_roles s) (ac_users s) (ac_versions s) (ac_sessions s) (ac_requests s) (ac_now s) (ac_nextId s) n (ac_events s).
Definition set_events (l : list (string * string)) (s : AccessState) : AccessState :=
  mkAccess (ac_roles s) (ac_users s) (ac_versions s) (ac_sessions s) (ac_requests s) (ac_now s) (ac_nextId s) (ac_draws s) l.

Definition role_is (id : string) (r : Role) : bool := String.eqb (ro_id r) id.
Definition user_is (id : string) (u : AccessUser) : bool := String.eqb (xu_id u) id.
Definition role_at (id : string) (s : AccessState) : option Role := List.find (role_is id) (ac_roles s).
Definition user_at (id : string) (s : AccessState) : option AccessUser := List.find (user_is id) (ac_users s).
Definition users_of (roleId : string) (s : AccessState) : list AccessUser :=
  List.filter (λ u, String.eqb (xu_roleId u) roleId) (ac_users s).

Section access.
Notation X := (M AccessState).

Definition log_access (action id : string) : X unit := hmodify (λ s, set_events (ac_events s ++ [(action, id)]) s).

(** ** Versions and snapshots *)

Definition bumpRoleVersion (roleId : string) (updatedAt : Z) : X unit :=
  hmodify (λ s, set_versions (mset roleId updatedAt (ac_versions s)) s).

Definition snapshot_of (role : Role) : SessionRoleSnapshot :=
  mkSnapshot (ro_id role) (ro_name role) (ro_isProtected role) (normalizePermissions (Some (ro_permissions role)))
    (ro_updatedAt role).
Definition snapshotFromRole (role : Role) : X SessionRoleSnapshot :=
  bumpRoleVersion (ro_id role) (ro_updatedAt role) ;! hret (snapshot_of role).

(** [loadRoleSnapshot] once its row is there. *)
Definition load_finish (row : option Role) : X SessionRoleSnapshot :=
  match row with
  | None => hthrow (AppError 401 "Your role no longer exists — please log in again.")
  | Some role => snapshotFromRole role
  end.
Definition loadRoleSnapshot (roleId : string) : X SessionRoleSnapshot :=
  let! row := hgets (role_at roleId) in load_finish row.

(** ** The requests *)

Definition no_request : exn := TypeError "no request".
Definition request_session (k : nat) : X RoleSession := λ s,
  match ac_requests s !! k with Some q => (s, Ok (rq_session q)) | None => (s, Throw no_request) end.
Definition update_request (k : nat) (f : Request → Request) : X unit :=
  hmodify (λ s, set_requests (alter f k (ac_requests s)) s).
Definition set_req_session (x : RoleSession) (q : Request) : Request := mkRequest (rq_sid q) x (rq_level q).
Definition set_level (l : AccessLevel) (q : Request) : Request := mkRequest (rq_sid q) (rq_session q) (Some l).

(** [req.session.save] *)
Definition save_session (k : nat) : X unit :=
  hmodify (λ s, match ac_requests s !! k with
                | Some q => set_sessions (mset (rq_sid q) (rq_session q) (ac_sessions s)) s
                | None => s
                end).

(** ** [resolveSnapshot]

    The part before the first [await] decides whether a row is needed. *)

Inductive Need := Resolved (o : option SessionRoleSnapshot) | NeedUser (userId : string) | NeedRole (roleId : string).

Definition resolve_begin (k : nat) : X Need :=
  let! x := request_session k in
  match rs_userId x with
  | None => hret (Resolved None)
  | Some userId =>
      if negb (Js.truthy userId) then hret (Resolved None) else
      match rs_roleId x with
      | None => hret (NeedUser userId)
      | Some roleId =>
          if negb (Js.truthy roleId) then hret (NeedUser userId) else
          match rs_snapshot x with
          | Some snap =>
              if negb (String.eqb (sn_id snap) roleId) then hret (NeedRole roleId) else
              let! cached := hgets (λ s, mget (sn_id snap) (ac_versions s)) in
              match cached with
              | Some v => if v =? sn_updatedAt snap then hret (Resolved (Some snap)) else hret (NeedRole roleId)
              | None => bumpRoleVersion (sn_id snap) (sn_updatedAt snap) ;! hret (Resolved (Some snap))
              end
          | None => hret (NeedRole roleId)
          end
      end
  end.

Definition user_with_role (userId : string) (s : AccessState) : option (AccessUser * Role) :=
  match user_at userId s with
  | Some u => match role_at (xu_roleId u) s with Some r => Some (u, r) | None => None end
  | None => None
  end.

(** The rest of the self-heal of an old session, and of the refresh. *)
Definition heal_finish (k : nat) (row : option (AccessUser * Role)) : X (option SessionRoleSnapshot) :=
  match row with
  | None => hret None
  | Some (u, role) =>
      let! fresh := snapshotFromRole role in
      update_request k (λ q, set_req_session
        (mkRoleSession (rs_userId (rq_session q)) (Some (xu_roleId u)) (Some fresh) (Some (ro_name role))) q) ;!
      save_session k ;!
      hret (Some fresh)
  end.
Definition refresh_finish (k : nat) (row : option Role) : X (option SessionRoleSnapshot) :=
  let! fresh := load_finish row in
  update_request k (λ q, set_req_session
    (mkRoleSession (rs_userId (rq_session q)) (rs_roleId (rq_session q)) (Some fresh) (Some (sn_name fresh))) q) ;!
  save_session k ;!
  hret (Some fresh).

Definition resolveSnapshot (k : nat) : X (option SessionRoleSnapshot) :=
  let! need := resolve_begin k in
  match need with
  | Resolved o => hret o
  | NeedUser userId => let! row := hgets (user_with_role userId) in heal_finish k row
  | NeedRole roleId => let! row := hgets (role_at roleId) in refresh_finish k row
  end.
Definition ensureSessionRoleSnapshot (k : nat) : X (option SessionRoleSnapshot) := resolveSnapshot k.

(** ** The guards *)

(** What [requirePermission] and its hybrid do with the snapshot. *)
Definition lacks (key : string) (required : AccessLevel) : exn :=
  AppError 403 ("Forbidden — your role lacks " +:+ level_text required +:+ " access on " +:+ key).
Definition check_level (k : nat) (key : string) (required : AccessLevel) (snap : SessionRoleSnapshot) : X unit :=
  let actual := grant key (sn_permissions snap) in
  throw_if (negb (rankMeets actual required)) (lacks key required) ;!
  update_request k (set_level actual).

Definition gate (k : nat) (key : string) (required : AccessLevel) (snap : option SessionRoleSnapshot) : X unit :=
  match snap with
  | None => hthrow (AppError 403 "Forbidden — session role required")
  | Some snap => check_level k key required snap
  end.

(** A guard for an unknown key is a start-up error. *)
Definition requirePermission (k : nat) (key : string) (required : AccessLevel) : X unit :=
  throw_if (negb (isValidFunctionKey key)) (JsError ("requirePermission: unknown functionKey " +:+ quoted key)) ;!
  let! snap := resolveSnapshot k in gate k key required snap.

Definition requireOwnership (k : nat) (key : string) : X unit := requirePermission k key WriteAccess.

Definition requireSessionOrTokenPermission (k : nat) (apiToken : option AuthenticatedToken) (key : string)
    (level : AccessLevel) (requiredScope : string) : X unit :=
  throw_if (negb (isValidFunctionKey key))
    (JsError ("requireSessionOrTokenPermission: unknown functionKey " +:+ quoted key)) ;!
  match apiToken with
  | Some t =>
      throw_if (negb (bool_decide (requiredScope ∈ au_scopes t)))
        (AppError 403 ("Forbidden — token " +:+ quoted (au_name t) +:+ " lacks scope " +:+ quoted requiredScope))
  | None =>
      let! snap := resolveSnapshot k in
      match snap with
      | Some snap => check_level k key level snap
      | None => hthrow (AppError 401 "Unauthorized — session login or bearer token required")
      end
  end.

(** Reads the copy the guard has refreshed. *)
Definition hasPermission (x : RoleSession) (key : string) (required : AccessLevel) : bool :=
  match rs_snapshot x with
  | None => false
  | Some snap => rankMeets (grant key (sn_permissions snap)) required
  end.

(** ** [roleService.ts] *)

Definition REGION_TAG_MAX_LEN : nat := 64.
Definition REGION_TAGS_MAX_COUNT : nat := 64.

(** One tag against the keys and the tags so far. *)
Definition add_region_tag (acc : list string * list string) (raw : string) : result (list string * list string) :=
  let '(seen, out) := acc in
  let trimmed := Js.trim raw in
  if negb (Js.truthy trimmed) then Ok acc else
  if (REGION_TAG_MAX_LEN <? String.length trimmed)%nat
  then Throw (AppError 400 ("Region tag " +:+ quoted (Js.take 32 trimmed +:+ "...") +:+ " exceeds 64 characters"))
  else
  let key := Js.toLowerCase trimmed in
  if bool_decide (key ∈ seen) then Ok acc else Ok (sadd key seen, out ++ [trimmed]).
Fixpoint region_loop (acc : list string * list string) (l : list string) : result (list string * list string) :=
  match l with
  | [] => Ok acc
  | raw :: l' => match add_region_tag acc raw with Ok acc' => region_loop acc' l' | Throw e => Throw e end
  end.
Definition normalizeRegionTags (input : option (list string)) : result (list string) :=
  match region_loop ([], []) (default [] input) with
  | Throw e => Throw e
  | Ok (_, out) =>
      if (REGION_TAGS_MAX_COUNT <? length out)%nat then Throw (AppError 400 "At most 64 region tags per role") else Ok out
  end.

(** [/^[A-Za-z0-9_-]{2,32}$/] *)
Definition name_char (c : ascii) : bool :=
  in_range "A" "Z" c || in_range "a" "z" c || Js.is_digit c || Ascii.eqb c "_" || Ascii.eqb c "-".
Definition NAME_RE (s : string) : bool :=
  (2 <=? String.length s)%nat && (String.length s <=? 32)%nat && Js.sforallb name_char s.
Definition DESCRIPTION_MAX : nat := 200.

Definition validateName (name : string) : result string :=
  let trimmed := Js.trim name in
  if NAME_RE trimmed then Ok trimmed
  else Throw (AppError 400 "Role name must be 2-32 characters, letters / digits / dash / underscore only").

Definition normalizeDescription (input : option string) : result (option string) :=
  match input with
  | None => Ok None
  | Some d =>
      let trimmed := Js.trim d in
      if negb (Js.truthy trimmed) then Ok None
      else if (DESCRIPTION_MAX <? String.length trimmed)%nat
      then Throw (AppError 400 "Description must be ≤ 200 characters") else Ok (Some trimmed)
  end.

Definition RESERVED_NAMES_LC : list string := ["admin"; "readonly"].

Record RoleSummary := mkRoleSummary { rm_role : Role; rm_permissions : Matrix; rm_userCount : nat }.
(** [_count] comes with the row. *)
Definition summarize (role : Role) : X RoleSummary :=
  hgets (λ s, mkRoleSummary role (normalizePermissions (Some (ro_permissions role)))
                (length (users_of (ro_id role) s))).

Definition role_not_found (id : string) : exn := AppError 404 ("Role " +:+ id +:+ " not found").
Definition getRole (id : string) : X RoleSummary :=
  let! row := hgets (role_at id) in
  match row with None => hthrow (role_not_found id) | Some r => summarize r end.

Definition collides (name : string) (excludeId : option string) (s : AccessState) : bool :=
  let lc := Js.toLowerCase name in
  bool_decide (lc ∈ RESERVED_NAMES_LC) ||
  existsb (λ r, negb (bool_decide (excludeId = Some (ro_id r))) && String.eqb (Js.toLowerCase (ro_name r)) lc) (ac_roles s).
Definition nameCollides (name : string) (excludeId : option string) : X bool := hgets (collides name excludeId).

(** [prisma.role.create] and [.update]: the name is unique. *)
Definition unique_name (id name : string) (l : list Role) : bool :=
  negb (existsb (λ r, negb (role_is id r) && String.eqb (ro_name r) name) l).
Definition insert_role (mk : string → Z → Role) : X Role :=
  let! s := hget in
  let row := mk (pretty (ac_nextId s)) (ac_now s) in
  throw_if (negb (unique_name (ro_id row) (ro_name row) (ac_roles s))) (PrismaError "P2002") ;!
  hput (set_next (S (ac_nextId s)) (set_roles (ac_roles s ++ [row]) s)) ;!
  hret row.
Definition update_role_row (id : string) (f : Role → Role) : X Role :=
  let! s := hget in
  match role_at id s with
  | None => hthrow (PrismaError "P2025")
  | Some before =>
      let row := f before in
      throw_if (negb (unique_name id (ro_name row) (ac_roles s))) (PrismaError "P2002") ;!
      hput (set_roles ((λ r, if role_is id r then f r else r) <$> ac_roles s) s) ;!
      hret row
  end.

Record CreateRoleInput := mkCreateRole {
  cr_name : string;
  cr_description : option string;
  cr_permissions : Json;
  cr_regionTags : option (list string);
}.
Definition name_taken (name : string) : exn := AppError 409 ("A role named " +:+ quoted name +:+ " already exists").

Definition createRole (input : CreateRoleInput) : X RoleSummary :=
  let! name := hlift (validateName (cr_name input)) in
  let! taken := nameCollides name None in
  throw_if taken (name_taken name) ;!
  let! description := hlift (normalizeDescription (cr_description input)) in
  let permissions := normalizePermissions (Some (cr_permissions input)) in
  let! regionTags := hlift (normalizeRegionTags (cr_regionTags input)) in
  let! created := insert_role (λ id now, mkRole id name description (matrix_json permissions) regionTags false false now now) in
  bumpRoleVersion (ro_id created) (ro_updatedAt created) ;!
  log_access "role.created" (ro_id created) ;!
  summarize created.

(** An absent field is [None]; the description may also be null. *)
Record UpdateRoleInput := mkUpdateRole {
  ur_name : option string;
  ur_description : option (option string);
  ur_permissions : option Json;
  ur_regionTags : option (list string);
}.

(** The [data] of the update. *)
Record RoleData := mkRoleData {
  rd_name : option string;
  rd_description : option (option string);
  rd_permissions : option Matrix;
  rd_regionTags : option (list string);
}.
Definition no_data : RoleData := mkRoleData None None None None.
#[export] Instance RoleData_eq_dec : EqDecision RoleData.
Proof. solve_decision. Defined.
Definition apply_data (d : RoleData) (now : Z) (r : Role) : Role :=
  mkRole (ro_id r) (default (ro_name r) (rd_name d)) (default (ro_description r) (rd_description d))
    (match rd_permissions d with Some m => matrix_json m | None => ro_permissions r end)
    (default (ro_regionTags r) (rd_regionTags d)) (ro_isBuiltIn r) (ro_isProtected r) (ro_createdAt r) now.

Definition next_name (id : string) (before : Role) (input : option string) : X (option string) :=
  match input with
  | None => hret None
  | Some n =>
      let! next := hlift (validateName n) in
      if String.eqb next (ro_name before) then hret None else
      let! taken := nameCollides next (Some id) in
      throw_if taken (name_taken next) ;!
      hret (Some next)
  end.
Definition next_description (before : Role) (input : option (option string)) : result (option (option string)) :=
  match input with
  | None => Ok None
  | Some d =>
      match normalizeDescription d with
      | Throw e => Throw e
      | Ok next => Ok (if bool_decide (next = ro_description before) then None else Some next)
      end
  end.
Definition permissions_changed (prev next : Matrix) : bool :=
  existsb (λ d, negb (bool_decide (mget (fk_key d) prev = mget (fk_key d) next))) FUNCTION_KEYS.
Definition next_permissions (before : Role) (input : option Json) : option Matrix :=
  match input with
  | None => None
  | Some p =>
      let next := normalizePermissions (Some p) in
      if permissions_changed (normalizePermissions (Some (ro_permissions before))) next then Some next else None
  end.
Definition next_regions (before : Role) (input : option (list string)) : result (option (list string)) :=
  match input with
  | None => Ok None
  | Some l =>
      match normalizeRegionTags (Some l) with
      | Throw e => Throw e
      | Ok next => Ok (if bool_decide (next = ro_regionTags before) then None else Some next)
      end
  end.

(** [updateRole] up to its write: the row written, or [None] when there is
    nothing to change. *)
Definition update_commit (id : string) (input : UpdateRoleInput) : X (option Role) :=
  let! row := hgets (role_at id) in
  match row with
  | None => hthrow (role_not_found id)
  | Some before =>
      throw_if (ro_isProtected before)
        (AppError 403 ("Role " +:+ quoted (ro_name before) +:+ " is protected and cannot be edited")) ;!
      let! name := next_name id before (ur_name input) in
      let! description := hlift (next_description before (ur_description input)) in
      let permissions := next_permissions before (ur_permissions input) in
      let! regionTags := hlift (next_regions before (ur_regionTags input)) in
      let data := mkRoleData name description permissions regionTags in
      if bool_decide (data = no_data) then hret None else
      let! now := hgets ac_now in
      let! updated := update_role_row id (apply_data data now) in
      hret (Some updated)
  end.
Definition update_finish (updated : Role) : X RoleSummary :=
  bumpRoleVersion (ro_id updated) (ro_updatedAt updated) ;!
  log_access "role.updated" (ro_id updated) ;!
  summarize updated.
Definition updateRole (id : string) (input : UpdateRoleInput) : X RoleSummary :=
  let! updated := update_commit id input in
  match updated with None => getRole id | Some r => update_finish r end.

(** [prisma.role.delete]: the users' reference restricts. *)
Definition delete_role_row (id : string) : X unit :=
  let! s := hget in
  throw_if (negb (bool_decide (users_of id s = []))) (PrismaError "P2003") ;!
  hput (set_roles (List.filter (λ r, negb (role_is id r)) (ac_roles s)) s).
Definition deleteRole (id : string) : X unit :=
  let! row := hgets (role_at id) in
  match row with
  | None => hthrow (role_not_found id)
  | Some before =>
      throw_if (ro_isBuiltIn before)
        (AppError 409 ("Role " +:+ quoted (ro_name before) +:+ " is built-in and cannot be deleted")) ;!
      let! n := hgets (λ s, length (users_of id s)) in
      throw_if (0 <? n)%nat (AppError 409 ("Role " +:+ quoted (ro_name before) +:+ " is assigned to " +:+ pretty n +:+
        " user(s). Reassign them first.")) ;!
      delete_role_row id ;!
      log_access "role.deleted" id
  end.

Definition admin_equivalent (r : Role) : bool :=
  let p := normalizePermissions (Some (ro_permissions r)) in
  bool_decide (grant "users" p = FullAccess) && bool_decide (grant "roles" p = FullAccess).
Definition countAdminEquivalentUsers (excludeUserId : option string) : X nat := hgets (λ s,
  let ids := ro_id <$> List.filter admin_equivalent (ac_roles s) in
  length (List.filter (λ u, bool_decide (xu_roleId u ∈ ids) && negb (bool_decide (excludeUserId = Some (xu_id u)))) (ac_users s))).
Definition isAdminEquivalentRole (roleId : string) : X bool := hgets (λ s,
  match role_at roleId s with None => false | Some r => admin_equivalent r end).

(** ** [routes/roles.ts] *)

Definition zod_error : exn := JsError "ZodError".
Definition len_between (lo hi : nat) (s : string) : bool := (lo <=? String.length s)%nat && (String.length s <=? hi)%nat.
Definition PermissionsSchema (p : Json) : bool :=
  match p with
  | JObj l => forallb (λ kv, match kv.2 with JStr s => isValidAccessLevel s | _ => false end) l
  | _ => false
  end.
Definition RegionTagsSchema (l : list string) : bool := forallb (len_between 0 64) l && (length l <=? 64)%nat.
Definition omaybe {A} (f : A → bool) (o : option A) : bool := match o with Some a => f a | None => true end.
Definition CreateRoleSchema (i : CreateRoleInput) : bool :=
  len_between 2 32 (cr_name i) && omaybe (len_between 0 200) (cr_description i) && PermissionsSchema (cr_permissions i) &&
  omaybe RegionTagsSchema (cr_regionTags i).
Definition UpdateRoleSchema (i : UpdateRoleInput) : bool :=
  omaybe (len_between 2 32) (ur_name i) && omaybe (omaybe (len_between 0 200)) (ur_description i) &&
  omaybe PermissionsSchema (ur_permissions i) && omaybe RegionTagsSchema (ur_regionTags i).

Definition postRole (k : nat) (i : CreateRoleInput) : X RoleSummary :=
  requirePermission k "roles" WriteAccess ;!
  throw_if (negb (CreateRoleSchema i)) zod_error ;!
  createRole i.
Definition putRole (k : nat) (id : string) (i : UpdateRoleInput) : X RoleSummary :=
  requirePermission k "roles" WriteAccess ;!
  throw_if (negb (UpdateRoleSchema i)) zod_error ;!
  updateRole id i.
Definition removeRole (k : nat) (id : string) : X unit :=
  requirePermission k "roles" WriteAccess ;! deleteRole id.

(** ** [routes/users.ts]

    The caller's own user id is read from the session of its request. *)

Context `{AuthLib} `{ZodLib}.

Definition user_not_found : exn := AppError 404 "User not found".
Definition update_user (id : string) (f : AccessUser → AccessUser) : X unit :=
  let! s := hget in
  match user_at id s with
  | None => hthrow (PrismaError "P2025")
  | Some _ => hput (set_users ((λ u, if user_is id u then f u else u) <$> ac_users s) s)
  end.
Definition with_role (roleId : string) (u : AccessUser) : AccessUser :=
  mkAccessUser (xu_id u) (xu_username u) (xu_passwordHash u) roleId (xu_regionTags u) false.
Definition with_review (b : bool) (u : AccessUser) : AccessUser :=
  mkAccessUser (xu_id u) (xu_username u) (xu_passwordHash u) (xu_roleId u) (xu_regionTags u) b.
Definition with_regions (l : list string) (u : AccessUser) : AccessUser :=
  mkAccessUser (xu_id u) (xu_username u) (xu_passwordHash u) (xu_roleId u) l (xu_needsRoleReview u).

(** DELETE /users/:id/role-review *)
Definition dismissRoleReview (id : string) : X unit :=
  let! row := hgets (user_at id) in
  match row with
  | None => hthrow user_not_found
  | Some u => if xu_needsRoleReview u then update_user id (with_review false) else hret tt
  end.

Record CreateUserBody := mkCreateUser {
  cu_username : string;
  cu_password : string;
  cu_roleId : string;
  cu_regionTags : option (list string);
}.
Definition CreateUserSchema (b : CreateUserBody) : bool :=
  len_between 1 64 (cu_username b) && password_ok (cu_password b) && isUuid (cu_roleId b) &&
  omaybe RegionTagsSchema (cu_regionTags b).

(** [prisma.user.create]: the name is unique, the role a reference. *)
Definition insert_user (mk : string → AccessUser) : X AccessUser :=
  let! s := hget in
  let row := mk (pretty (ac_nextId s)) in
  throw_if (existsb (λ u, String.eqb (xu_username u) (xu_username row)) (ac_users s)) (PrismaError "P2002") ;!
  throw_if (bool_decide (role_at (xu_roleId row) s = None)) (PrismaError "P2003") ;!
  hput (set_next (S (ac_nextId s)) (set_users (ac_users s ++ [row]) s)) ;!
  hret row.

(** POST /users *)
Definition createUser (b : CreateUserBody) : X AccessUser :=
  throw_if (negb (CreateUserSchema b)) zod_error ;!
  let! s := hget in
  throw_if (existsb (λ u, String.eqb (xu_username u) (cu_username b)) (ac_users s))
    (AppError 409 ("User " +:+ quoted (cu_username b) +:+ " already exists")) ;!
  throw_if (bool_decide (role_at (cu_roleId b) s = None)) (AppError 400 ("Role " +:+ cu_roleId b +:+ " not found")) ;!
  hput (set_draws (S (ac_draws s)) s) ;!
  let! user := insert_user (λ id, mkAccessUser id (cu_username b) (argonHash (ac_draws s) (cu_password b)) (cu_roleId b)
                 (default [] (cu_regionTags b)) false) in
  log_access "user.created" (xu_id user) ;!
  hret user.

(** PUT /users/:id/role: the checks, and the write. *)
Definition role_change_checks (self : option string) (id roleId : string) : X unit :=
  throw_if (negb (isUuid roleId)) zod_error ;!
  let! user := hgets (user_at id) in
  let! role := hgets (role_at roleId) in
  match user, role with
  | None, _ => hthrow user_not_found
  | Some _, None => hthrow (AppError 400 ("Role " +:+ roleId +:+ " not found"))
  | Some user, Some role =>
      throw_if (bool_decide (self = Some (xu_id user))) (AppError 400 "You cannot change your own role") ;!
      let! was := isAdminEquivalentRole (xu_roleId user) in
      let! will := isAdminEquivalentRole (ro_id role) in
      let! remaining := countAdminEquivalentUsers (Some (xu_id user)) in
      throw_if (was && negb will && (remaining =? 0)%nat)
        (AppError 409 "Cannot reassign — this is the last admin-equivalent account. Promote another user first.")
  end.
Definition role_change_write (id roleId : string) : X unit :=
  let! role := hgets (role_at roleId) in
  throw_if (bool_decide (role = None)) (PrismaError "P2003") ;!
  update_user id (with_role roleId) ;!
  log_access "user.role_changed" id.
Definition putUserRole (self : option string) (id roleId : string) : X unit :=
  role_change_checks self id roleId ;! role_change_write id roleId.

(** The tags of PUT /users/:id/regions. *)
Definition clean_tag (acc : list string * list string) (raw : string) : list string * list string :=
  let '(seen, cleaned) := acc in
  let t := Js.trim raw in
  if negb (Js.truthy t) then acc else
  let key := Js.toLowerCase t in
  if bool_decide (key ∈ seen) then acc else (sadd key seen, cleaned ++ [t]).
Definition putUserRegions (id : string) (regionTags : list string) : X unit :=
  throw_if (negb (RegionTagsSchema regionTags)) zod_error ;!
  let cleaned := (foldl clean_tag ([], []) regionTags).2 in
  let! before := hgets (user_at id) in
  throw_if (bool_decide (before = None)) user_not_found ;!
  update_user id (with_regions cleaned) ;!
  log_access "user.regions_updated" id.

(** DELETE /users/:id: the checks, and the write. *)
Definition delete_checks (self : option string) (id : string) : X unit :=
  let! user := hgets (user_at id) in
  match user with
  | None => hthrow user_not_found
  | Some user =>
      throw_if (bool_decide (self = Some (xu_id user))) (AppError 400 "You cannot delete your own account") ;!
      let! was := isAdminEquivalentRole (xu_roleId user) in
      let! remaining := countAdminEquivalentUsers (Some (xu_id user)) in
      throw_if (was && (remaining =? 0)%nat)
        (AppError 409 "Cannot delete — this is the last admin-equivalent account. Promote another user first.")
  end.
Definition delete_user_row (id : string) : X unit :=
  let! s := hget in
  match user_at id s with
  | None => hthrow (PrismaError "P2025")
  | Some _ => hput (set_users (List.filter (λ u, negb (user_is id u)) (ac_users s)) s)
  end.
Definition delete_write (id : string) : X unit :=
  delete_user_row id ;! log_access "user.deleted" id.
Definition deleteUser (self : option string) (id : string) : X unit := delete_checks self id ;! delete_write id.

(** ** Sign-in: the session a login writes from the rows it read *)
Definition login_stamp (sid : string) (u : AccessUser) (role : Role) : X unit :=
  let! snap := snapshotFromRole role in
  hmodify (λ s, set_sessions (mset sid (mkRoleSession (Some (xu_id u)) (Some (xu_roleId u)) (Some snap) (Some (ro_name role)))
                                (ac_sessions s)) s).
End access.
