(* ===== verification/RolesProofs.v ===== *)
(** * Access control follows the stored roles

    What the edits of [Roles] do to the tables, the invariant of the role table,
    the decision of the guards in every interleaving of edits, requests and
    sign-ins, and who can lock everybody out. *)

From S2P Require Import Prelude Http JsColl Login MonitorSettings Tokens Roles.

(** ** The matrix *)

Lemma normalizePermissions_spec input :
  normalizePermissions input = (λ d, (fk_key d, level_of (jget (fk_key d) input))) <$> FUNCTION_KEYS.
Proof. reflexivity. Qed.

Lemma mget_table {A V} (l : list A) (key : A → string) (f : string → V) k :
  mget k ((λ d, (key d, f (key d))) <$> l) = if existsb (λ d, String.eqb k (key d)) l then Some (f k) else None.
Proof.
  induction l as [|d l IH]; [done|]. cbn. case_decide as Hd.
  - subst. by rewrite String.eqb_refl.
  - rewrite (proj2 (String.eqb_neq k (key d))) by done. apply IH.
Qed.

Lemma mget_normalize k input :
  mget k (normalizePermissions input) = if isValidFunctionKey k then Some (level_of (jget k input)) else None.
Proof. rewrite normalizePermissions_spec. exact (mget_table FUNCTION_KEYS fk_key (λ k, level_of (jget k input)) k). Qed.

Lemma grant_normalize k input :
  grant k (normalizePermissions input) = if isValidFunctionKey k then level_of (jget k input) else NoAccess.
Proof. unfold grant. rewrite mget_normalize. by destruct (isValidFunctionKey k). Qed.

Lemma assoc_matrix k (m : Matrix) : assoc k ((λ kv, (kv.1, JStr (level_text kv.2))) <$> m) = JStr ∘ level_text <$> mget k m.
Proof.
  induction m as [|[k' v] m IH]; [done|]. cbn. case_decide as Hd.
  - subst. by rewrite String.eqb_refl.
  - rewrite (proj2 (String.eqb_neq k k')) by done. apply IH.
Qed.

Lemma distinct_NoDup (l : list string) :
  (fix distinct l := match l with [] => true | x :: l' => negb (existsb (String.eqb x) l') && distinct l' end) l = true → NoDup l.
Proof.
  induction l as [|x l IH]; [constructor|]. intros [Hx Hl]%andb_true_iff. apply NoDup_cons. split; [|by apply IH].
  intros Hin%list_elem_of_In. apply negb_true_iff, not_true_iff_false in Hx. apply Hx, existsb_exists. exists x.
  split; [done|apply String.eqb_refl].
Qed.
Lemma function_keys_distinct : NoDup (fk_key <$> FUNCTION_KEYS).
Proof. by apply distinct_NoDup. Qed.

Lemma level_of_text l : level_of (Some (JStr (level_text l))) = l.
Proof. by destruct l. Qed.

Lemma normalize_matrix input : normalizePermissions (Some (matrix_json (normalizePermissions input))) = normalizePermissions input.
Proof.
  rewrite (normalizePermissions_spec input) at 2. rewrite normalizePermissions_spec. apply list_fmap_ext. intros i d Hd.
  f_equal. unfold jget at 1, matrix_json. rewrite assoc_matrix, mget_normalize.
  assert (isValidFunctionKey (fk_key d) = true) as ->.
  { apply existsb_exists. exists d. split; [|apply String.eqb_refl]. apply list_elem_of_In. by eapply list_elem_of_lookup_2. }
  apply level_of_text.
Qed.

(** A stored matrix is fully populated with valid levels, grants exactly what
    the input grants on the known function keys, nothing on any other key, and
    reads back from its column unchanged. *)
Theorem permissions_well_typed input :
  mkeys (normalizePermissions input) = fk_key <$> FUNCTION_KEYS ∧ NoDup (mkeys (normalizePermissions input)) ∧
  (∀ k s l, isValidFunctionKey k = true → jget k input = Some (JStr s) → s = level_text l →
     grant k (normalizePermissions input) = l) ∧
  (∀ k, grant k (normalizePermissions input) ≠ NoAccess →
     isValidFunctionKey k = true ∧ jget k input = Some (JStr (level_text (grant k (normalizePermissions input))))) ∧
  normalizePermissions (Some (matrix_json (normalizePermissions input))) = normalizePermissions input.
Proof.
  split_and!.
  - rewrite normalizePermissions_spec. unfold mkeys. by rewrite <-list_fmap_compose.
  - exact function_keys_distinct.
  - intros k s l Hk Hj ->. rewrite grant_normalize, Hk, Hj. apply level_of_text.
  - intros k. rewrite grant_normalize. destruct (isValidFunctionKey k); [|done]. intros Hne. split; [done|].
    unfold level_of in *. destruct (jstring (jget k input)) as [s|] eqn:Hs; [|done].
    assert (jget k input = Some (JStr s)) as ->.
    { destruct (jget k input) as [[]|]; cbn in Hs; try done. by injection Hs as ->. }
    unfold parse_level in *. destruct (List.find _ ACCESS_LEVELS) as [l|] eqn:Hf; [|done].
    apply find_some in Hf as [_ ->%String.eqb_eq]. done.
  - apply normalize_matrix.
Qed.

(** ** What the edits write *)

Lemma role_at_some id s r : role_at id s = Some r → r ∈ ac_roles s ∧ ro_id r = id.
Proof. intros [Hr%list_elem_of_In He%String.eqb_eq]%find_some. done. Qed.
Lemma user_at_some id s u : user_at id s = Some u → u ∈ ac_users s ∧ xu_id u = id.
Proof. intros [Hu%list_elem_of_In He%String.eqb_eq]%find_some. done. Qed.

Definition put_role (id : string) (f : Role → Role) (s : AccessState) : AccessState :=
  set_roles ((λ r, if role_is id r then f r else r) <$> ac_roles s) s.
Definition put_user (id : string) (f : AccessUser → AccessUser) (s : AccessState) : AccessState :=
  set_users ((λ u, if user_is id u then f u else u) <$> ac_users s) s.
Definition bumped (id : string) (v : Z) (s : AccessState) : AccessState := set_versions (mset id v (ac_versions s)) s.
Definition logged (action id : string) (s : AccessState) : AccessState := set_events (ac_events s ++ [(action, id)]) s.

(** The changes an update asks for; [data_for] holds when all of them are valid. *)
Definition data_for (id : string) (before : Role) (i : UpdateRoleInput) (s : AccessState) (d : RoleData) : Prop :=
  next_name id before (ur_name i) s = (s, Ok (rd_name d)) ∧
  next_description before (ur_description i) = Ok (rd_description d) ∧
  next_permissions before (ur_permissions i) = rd_permissions d ∧
  next_regions before (ur_regionTags i) = Ok (rd_regionTags d).

Lemma next_name_frame id before n s : (next_name id before n s).1 = s.
Proof.
  unfold next_name, nameCollides. destruct n as [n|]; [|done]. unfold validateName. destruct (NAME_RE _); hred; [|done].
  destruct (String.eqb _ _); hred; [done|]. by destruct (collides _ _ _).
Qed.

Lemma next_name_some id before n s new :
  next_name id before n s = (s, Ok (Some new)) →
  NAME_RE new = true ∧ new ≠ ro_name before ∧ collides new (Some id) s = false ∧ Some new = Js.trim <$> n.
Proof.
  unfold next_name, nameCollides, validateName. destruct n as [n|]; [|done].
  destruct (NAME_RE (Js.trim n)) eqn:Hn; hred; [|done]. destruct (String.eqb _ _) eqn:He; hred; [done|].
  destruct (collides _ _ _) eqn:Hc; hred; [done|]. intros [= <-]. apply String.eqb_neq in He. done.
Qed.
Lemma next_name_none id before n s :
  next_name id before n s = (s, Ok None) → ∀ x, n = Some x → Js.trim x = ro_name before.
Proof.
  unfold next_name, nameCollides, validateName. intros Hn x ->.
  destruct (NAME_RE (Js.trim x)); revert Hn; hred; [|done]. destruct (String.eqb _ _) eqn:He; hred; [by apply String.eqb_eq in He|].
  by destruct (collides _ _ _).
Qed.

Lemma collides_unique name id s : collides name (Some id) s = false → unique_name id name (ac_roles s) = true.
Proof.
  unfold collides, unique_name. intros [_ Hc]%orb_false_iff. apply negb_true_iff, not_true_iff_false.
  apply not_true_iff_false in Hc. intros (r & Hr & [Hid He%String.eqb_eq]%andb_true_iff)%existsb_exists. apply Hc, existsb_exists.
  exists r. split; [done|]. rewrite He, String.eqb_refl, andb_true_r. clear He. rewrite bool_decide_eq_false_2; [done|]. intros [= He].
  unfold role_is in Hid. by rewrite He, String.eqb_refl in Hid.
Qed.

Lemma unique_name_keep id r l :
  NoDup (Js.toLowerCase ∘ ro_name <$> l) → r ∈ l → ro_id r = id → unique_name id (ro_name r) l = true.
Proof.
  intros Hnd Hr Hid. unfold unique_name. apply negb_true_iff, not_true_iff_false.
  intros (r' & Hr'%list_elem_of_In & [Hne He%String.eqb_eq]%andb_true_iff)%existsb_exists.
  apply list_elem_of_lookup in Hr as [i Hi], Hr' as [j Hj].
  assert (i = j) as <-.
  { eapply (NoDup_lookup _ i j (Js.toLowerCase (ro_name r)) Hnd); rewrite list_lookup_fmap.
    - by rewrite Hi.
    - rewrite Hj. cbn. by rewrite He. }
  rewrite Hi in Hj. injection Hj as <-. unfold role_is in Hne. by rewrite Hid, String.eqb_refl in Hne.
Qed.

Definition names_distinct (s : AccessState) : Prop := NoDup (Js.toLowerCase ∘ ro_name <$> ac_roles s).

(** [updateRole] up to the bump: it fails without effect, or has nothing to do,
    or rewrites exactly one row. *)
Lemma update_commit_cases id i s :
  names_distinct s →
  (∃ e, update_commit id i s = (s, Throw e) ∧
    ∀ before, role_at id s = Some before → ro_isProtected before = true ∨ ∀ d, ¬ data_for id before i s d) ∨
  (∃ before, role_at id s = Some before ∧ ro_isProtected before = false ∧ data_for id before i s no_data ∧
    update_commit id i s = (s, Ok None)) ∨
  (∃ before d, role_at id s = Some before ∧ ro_isProtected before = false ∧ data_for id before i s d ∧ d ≠ no_data ∧
    update_commit id i s = (put_role id (apply_data d (ac_now s)) s, Ok (Some (apply_data d (ac_now s) before)))).
Proof.
  intros Hnd. destruct (update_commit id i s) as [s' r] eqn:Hu. revert Hu. unfold update_commit. hred.
  destruct (role_at id s) as [before|] eqn:Hb.
  2: { intros [= <- <-]. left. eexists. split; [done|]. done. }
  destruct (ro_isProtected before) eqn:Hp; hred.
  { intros [= <- <-]. left. eexists. split; [done|]. intros ? [= <-]. by left. }
  unfold hbind at 1. pose proof (next_name_frame id before (ur_name i) s) as Hfr.
  destruct (next_name id before (ur_name i) s) as [s1 [name|e]] eqn:Hn; cbn [fst] in Hfr; subst s1; hred.
  2: { intros [= <- <-]. left. eexists. split; [done|]. intros ? [= <-]. right. intros d Hf. unfold data_for in Hf. rewrite Hn in Hf. by destruct Hf. }
  destruct (next_description before (ur_description i)) as [desc|e] eqn:Hd; hred.
  2: { intros [= <- <-]. left. eexists. split; [done|]. intros ? [= <-]. right. intros d Hf. unfold data_for in Hf. rewrite Hd in Hf. naive_solver. }
  destruct (next_regions before (ur_regionTags i)) as [tags|e] eqn:Ht; hred.
  2: { intros [= <- <-]. left. eexists. split; [done|]. intros ? [= <-]. right. intros d Hf. unfold data_for in Hf. rewrite Ht in Hf. naive_solver. }
  set (d := mkRoleData name desc (next_permissions before (ur_permissions i)) tags).
  assert (data_for id before i s d) as Hfor by done.
  destruct (decide (d = no_data)) as [He|He].
  - rewrite bool_decide_eq_true_2 by done. intros [= <- <-]. right. left. exists before. rewrite He in Hfor. done.
  - rewrite bool_decide_eq_false_2 by done. unfold update_role_row, hbind, hgets, hget, hret, hguard, hput. cbv beta iota. rewrite Hb.
    assert (unique_name id (ro_name (apply_data d (ac_now s) before)) (ac_roles s) = true) as ->.
    { destruct (role_at_some _ _ _ Hb) as [Hin Hid]. cbn. destruct name as [new|]; cbn [default].
      - apply collides_unique. by apply (next_name_some id before (ur_name i)).
      - by apply unique_name_keep. }
    hred. intros [= <- <-]. right. right. by exists before, d.
Qed.

(** The fields an update leaves a role with. *)
Definition edited_as (before : Role) (i : UpdateRoleInput) (now : Z) (new : Role) : Prop :=
  ro_id new = ro_id before ∧
  ro_name new = match ur_name i with Some n => Js.trim n | None => ro_name before end ∧
  (∀ d, ur_description i = Some d → normalizeDescription d = Ok (ro_description new)) ∧
  (ur_description i = None → ro_description new = ro_description before) ∧
  normalizePermissions (Some (ro_permissions new)) =
    normalizePermissions (Some (default (ro_permissions before) (ur_permissions i))) ∧
  (∀ l, ur_regionTags i = Some l → normalizeRegionTags (Some l) = Ok (ro_regionTags new)) ∧
  (ur_regionTags i = None → ro_regionTags new = ro_regionTags before) ∧
  ro_isBuiltIn new = ro_isBuiltIn before ∧ ro_isProtected new = ro_isProtected before ∧ ro_createdAt new = ro_createdAt before.

Lemma permissions_same prev next :
  permissions_changed (normalizePermissions prev) (normalizePermissions next) = false →
  normalizePermissions next = normalizePermissions prev.
Proof.
  intros Hc. rewrite !normalizePermissions_spec. apply list_fmap_ext. intros i d Hd. f_equal.
  apply not_true_iff_false in Hc.
  destruct (decide (mget (fk_key d) (normalizePermissions prev) = mget (fk_key d) (normalizePermissions next))) as [He|Hne].
  - rewrite !mget_normalize in He. apply list_elem_of_lookup_2 in Hd.
    assert (isValidFunctionKey (fk_key d) = true) as Hv.
    { apply existsb_exists. exists d. split; [by apply list_elem_of_In|apply String.eqb_refl]. }
    rewrite Hv in He. by injection He.
  - destruct Hc. apply existsb_exists. exists d. split; [apply list_elem_of_In; by eapply list_elem_of_lookup_2|].
    by rewrite bool_decide_eq_false_2.
Qed.

Lemma apply_data_edited id before i s d now : data_for id before i s d → edited_as before i now (apply_data d now before).
Proof.
  intros (Hn & Hd & Hp & Ht). unfold edited_as, apply_data. cbn. split_and!; [done|..|done|done|done].
  - destruct (rd_name d) as [n|]; cbn.
    + destruct (next_name_some _ _ _ _ _ Hn) as (_ & _ & _ & He). destruct (ur_name i); [|done]. by injection He.
    + destruct (ur_name i) as [n|] eqn:Hi; [|done]. symmetry. by apply (next_name_none id before (Some n) s).
  - intros x Hx. rewrite Hx in Hd. unfold next_description in Hd. destruct (normalizeDescription x) as [y|]; [|done].
    injection Hd as <-. case_bool_decide as Hy; by subst.
  - intros Hx. rewrite Hx in Hd. by injection Hd as <-.
  - rewrite <-Hp. unfold next_permissions. destruct (ur_permissions i) as [p|]; [|done]. cbn [default].
    destruct (permissions_changed _ _) eqn:Hc; [apply normalize_matrix|]. symmetry. by apply permissions_same.
  - intros l Hl. rewrite Hl in Ht. unfold next_regions in Ht. destruct (normalizeRegionTags (Some l)) as [y|]; [|done].
    injection Ht as <-. case_bool_decide as Hy; by subst.
  - intros Hx. rewrite Hx in Ht. by injection Ht as <-.
Qed.

Lemma update_finish_run r s :
  update_finish r s = (logged "role.updated" (ro_id r) (bumped (ro_id r) (ro_updatedAt r) s),
    Ok (mkRoleSummary r (normalizePermissions (Some (ro_permissions r))) (length (users_of (ro_id r) s)))).
Proof. reflexivity. Qed.

(** [updateRole] either changes nothing and throws (no such role, a protected
    role, or an invalid or taken field), or has nothing to change, or rewrites
    exactly the named role with the fields asked for, a fresh version and its
    announcement to the sessions. *)
Theorem updateRole_correct id i s :
  names_distinct s →
  match updateRole id i s with
  | (s', Throw e) => s' = s ∧
      ∀ before, role_at id s = Some before → ro_isProtected before = true ∨ ∀ d, ¬ data_for id before i s d
  | (s', Ok sum) => ∃ before d, role_at id s = Some before ∧ ro_isProtected before = false ∧ data_for id before i s d ∧
      let new := apply_data d (ac_now s) before in
      edited_as before i (ac_now s) new ∧
      (d = no_data ∧ s' = s ∧ rm_role sum = before ∨
       d ≠ no_data ∧ rm_role sum = new ∧ ro_updatedAt new = ac_now s ∧
       s' = logged "role.updated" id (bumped id (ac_now s) (put_role id (apply_data d (ac_now s)) s)))
  end.
Proof.
  intros Hnd. unfold updateRole, hbind.
  destruct (update_commit_cases id i s Hnd) as [(e & -> & He)|[(before & Hb & Hp & Hf & ->)|(before & d & Hb & Hp & Hf & Hd & ->)]].
  - done.
  - unfold getRole. hred. rewrite Hb. hred. exists before, no_data. pose proof (apply_data_edited _ _ _ _ _ (ac_now s) Hf).
    split_and!; [done..|]. left. done.
  - rewrite update_finish_run. destruct (role_at_some _ _ _ Hb) as [_ Hid]. exists before, d.
    pose proof (apply_data_edited _ _ _ _ _ (ac_now s) Hf). split_and!; [done..|]. right. cbn [apply_data ro_id ro_updatedAt].
    by rewrite Hid.
Qed.

Lemma createRole_cases i s :
  (∃ e, createRole i s = (s, Throw e)) ∨
  (∃ name desc tags, validateName (cr_name i) = Ok name ∧ collides name None s = false ∧
     normalizeDescription (cr_description i) = Ok desc ∧ normalizeRegionTags (cr_regionTags i) = Ok tags ∧
     let r := mkRole (pretty (ac_nextId s)) name desc (matrix_json (normalizePermissions (Some (cr_permissions i)))) tags
                false false (ac_now s) (ac_now s) in
     createRole i s = (logged "role.created" (ro_id r) (bumped (ro_id r) (ac_now s)
        (set_next (S (ac_nextId s)) (set_roles (ac_roles s ++ [r]) s))),
        Ok (mkRoleSummary r (normalizePermissions (Some (ro_permissions r)))
              (length (users_of (ro_id r) s))))).
Proof.
  destruct (createRole i s) as [s' x] eqn:Hrun. revert Hrun. unfold createRole, nameCollides. hred.
  destruct (validateName (cr_name i)) as [name|e] eqn:Hn; hred; [|intros [= <- <-]; eauto].
  destruct (collides name None s) eqn:Hc; hred; [intros [= <- <-]; eauto|].
  destruct (normalizeDescription (cr_description i)) as [desc|e] eqn:Hd; hred; [|intros [= <- <-]; eauto].
  destruct (normalizeRegionTags (cr_regionTags i)) as [tags|e] eqn:Ht; hred; [|intros [= <- <-]; eauto].
  unfold insert_role, hbind, hget, hput, hguard. cbv beta iota zeta.
  destruct (negb (unique_name _ _ _)); hred; [intros [= <- <-]; eauto|].
  intros [= <- <-]. right. exists name, desc, tags. done.
Qed.

Lemma deleteRole_cases id s :
  (∃ e, deleteRole id s = (s, Throw e)) ∨
  (∃ before, role_at id s = Some before ∧ ro_isBuiltIn before = false ∧ users_of id s = [] ∧
     deleteRole id s = (logged "role.deleted" id (set_roles (List.filter (λ r, negb (role_is id r)) (ac_roles s)) s), Ok tt)).
Proof.
  destruct (deleteRole id s) as [s' x] eqn:Hrun. revert Hrun. unfold deleteRole. hred.
  destruct (role_at id s) as [before|] eqn:Hb; hred; [|intros [= <- <-]; eauto].
  destruct (ro_isBuiltIn before) eqn:Hp; hred; [intros [= <- <-]; eauto|].
  destruct (0 <? length (users_of id s))%nat eqn:Hu; hred; [intros [= <- <-]; eauto|].
  unfold delete_role_row, hbind, hget, hguard, hput. cbv beta iota. apply Nat.ltb_ge in Hu. destruct (users_of id s) eqn:He; [|cbn in Hu; lia].
  hred. intros [= <- <-]. right. exists before. done.
Qed.

(** [deleteRole] removes the role, and only it, exactly when it exists, is not
    built in and no user holds it; else nothing changes. *)
Theorem deleteRole_correct id s :
  (is_ok (deleteRole id s).2 = true ↔
     ∃ before, role_at id s = Some before ∧ ro_isBuiltIn before = false ∧ ∀ u, u ∈ ac_users s → xu_roleId u ≠ id) ∧
  (is_ok (deleteRole id s).2 = false → (deleteRole id s).1 = s) ∧
  (is_ok (deleteRole id s).2 = true → ∀ r, r ∈ ac_roles (deleteRole id s).1 ↔ r ∈ ac_roles s ∧ ro_id r ≠ id).
Proof.
  assert (users_of id s = [] ↔ ∀ u, u ∈ ac_users s → xu_roleId u ≠ id) as Hus.
  { unfold users_of. split.
    - intros He u Hu Hid. assert (u ∈ List.filter (λ u, String.eqb (xu_roleId u) id) (ac_users s)) as Hin.
      { apply list_elem_of_In, filter_In. split; [by apply list_elem_of_In|by apply String.eqb_eq]. }
      rewrite He in Hin. by apply elem_of_nil in Hin.
    - intros Hno. destruct (List.filter _ _) as [|u l] eqn:He; [done|]. assert (In u (u :: l)) as Hin by (by left).
      rewrite <-He in Hin. apply filter_In in Hin as [Hin%list_elem_of_In Hid%String.eqb_eq]. by destruct (Hno u Hin). }
  destruct (deleteRole_cases id s) as [[e Hd]|(before & Hb & Hbi & Hu & Hd)]; rewrite Hd; cbn [is_ok fst snd].
  - split_and!; [|done..]. split; [done|]. intros (before & Hb & Hbi & Hno). revert Hd. unfold deleteRole. hred. rewrite Hb, Hbi. hred.
    rewrite (proj2 Hus Hno). cbn [length]. hred. unfold delete_role_row, hbind, hget, hguard, hput. cbv beta iota. cbn [Nat.ltb Nat.leb hret]. unfold hret. by rewrite (proj2 Hus Hno).
  - split_and!; [|done|].
    + split; [|done]. intros _. exists before. by rewrite <-Hus.
    + intros _ r. cbn. rewrite !list_elem_of_In, filter_In, <-list_elem_of_In. unfold role_is. rewrite negb_true_iff, String.eqb_neq. done.
Qed.
