(* ===== verification/RoleSessions.v ===== *)
(** * Sessions against the stored roles

    Edits of roles and users, requests and sign-ins interleaved: what holds of
    the tables in every reachable state, and that a guard decides by the role as
    it is stored now.  A handler's write and what it does after it are two steps,
    and so are a request's read of its role and the use of the row it read. *)

From S2P Require Import Prelude Http JsColl Login MonitorSettings Tokens Roles RolesProofs.

(** ** The steps *)

Inductive AccessCall :=
  | CCreateRole (i : CreateRoleInput)
  | CDeleteRole (id : string)
  | CReview (id : string)
  | CCreateUser (b : CreateUserBody)
  | CUserRole (self : option string) (id roleId : string)
  | CUserRegions (id : string) (tags : list string)
  | CDeleteUser (self : option string) (id : string).

(** Rows on their way: committed updates not yet announced, rows read for a
    request, and for a sign-in. *)
Inductive Load := LoadRole (row : option Role) | LoadUser (row : option (AccessUser * Role)).
Record World := mkWorld {
  wo_state : AccessState;
  wo_bumps : list Role;
  wo_loads : list (nat * Load);
  wo_logins : list (string * (AccessUser * Role));
}.

Inductive WorldOp :=
  | WCall (c : AccessCall)
  | WEdit (id : string) (i : UpdateRoleInput)
  | WBump (n : nat)
  | WOpen (sid : string)
  | WBegin (k : nat)
  | WRead (k : nat)
  | WFinish (n : nat)
  | WGate (k : nat) (level : AccessLevel)
  | WSave (k : nat)
  | WLoginRead (sid userId : string)
  | WLogin (n : nat)
  | WLogout (sid : string)
  | WTick (ms : Z)
  | WRestart.

Section world.
Context `{AuthLib} `{ZodLib}.

Definition call (c : AccessCall) (s : AccessState) : AccessState :=
  match c with
  | CCreateRole i => (createRole i s).1
  | CDeleteRole id => (deleteRole id s).1
  | CReview id => (dismissRoleReview id s).1
  | CCreateUser b => (createUser b s).1
  | CUserRole self id roleId => (putUserRole self id roleId s).1
  | CUserRegions id tags => (putUserRegions id tags s).1
  | CDeleteUser self id => (deleteUser self id s).1
  end.

Definition on_access (f : AccessState → AccessState) (w : World) : World :=
  mkWorld (f (wo_state w)) (wo_bumps w) (wo_loads w) (wo_logins w).

(** The row a request reads: its role's, or its user's with the role. *)
Definition read_row (k : nat) (s : AccessState) : option Load :=
  match ac_requests s !! k with
  | None => None
  | Some q =>
      match rs_userId (rq_session q), rs_roleId (rq_session q) with
      | _, Some roleId => Some (LoadRole (role_at roleId s))
      | Some userId, None => Some (LoadUser (user_with_role userId s))
      | None, None => None
      end
  end.
Definition finish_load (k : nat) (l : Load) (s : AccessState) : AccessState :=
  match l with
  | LoadRole row => (refresh_finish k row s).1
  | LoadUser row => (heal_finish k row s).1
  end.

Definition world_step (op : WorldOp) (w : World) : World :=
  let s := wo_state w in
  match op with
  | WCall c => on_access (call c) w
  | WEdit id i =>
      match update_commit id i s with
      | (s', Ok (Some r)) => mkWorld s' (r :: wo_bumps w) (wo_loads w) (wo_logins w)
      | (s', _) => mkWorld s' (wo_bumps w) (wo_loads w) (wo_logins w)
      end
  | WBump n =>
      match wo_bumps w !! n with
      | Some r => mkWorld (update_finish r s).1 (list_delete n (wo_bumps w)) (wo_loads w) (wo_logins w)
      | None => w
      end
  | WOpen sid => on_access (λ s, set_requests (ac_requests s ++
      [mkRequest sid (default no_session (mget sid (ac_sessions s))) None]) s) w
  | WBegin k => on_access (λ s, (resolve_begin k s).1) w
  | WRead k =>
      match read_row k s with
      | Some l => mkWorld s (wo_bumps w) ((k, l) :: wo_loads w) (wo_logins w)
      | None => w
      end
  | WFinish n =>
      match wo_loads w !! n with
      | Some (k, l) => mkWorld (finish_load k l s) (wo_bumps w) (list_delete n (wo_loads w)) (wo_logins w)
      | None => w
      end
  | WGate k level => on_access (λ s, (update_request k (set_level level) s).1) w
  | WSave k => on_access (λ s, (save_session k s).1) w
  | WLoginRead sid userId =>
      match user_with_role userId s with
      | Some row => mkWorld s (wo_bumps w) (wo_loads w) ((sid, row) :: wo_logins w)
      | None => w
      end
  | WLogin n =>
      match wo_logins w !! n with
      | Some (sid, (u, r)) => mkWorld (login_stamp sid u r s).1 (wo_bumps w) (wo_loads w) (list_delete n (wo_logins w))
      | None => w
      end
  | WLogout sid => on_access (λ s, set_sessions (mdelete sid (ac_sessions s)) s) w
  | WTick ms => on_access (λ s, set_clock (ac_now s + Z.max 0 ms) s) w
  | WRestart => mkWorld (set_versions [] (set_requests [] s)) [] [] []
  end.

Definition world_run (ops : list WorldOp) (w : World) : World := foldl (λ w op, world_step op w) w ops.

(** ** The tables *)

Definition known (s : AccessState) (id : string) : Prop := ∀ n, (ac_nextId s ≤ n)%nat → id ≠ pretty n.

Definition tag_ok (t : string) : Prop := Js.trim t = t ∧ Js.truthy t = true ∧ (String.length t ≤ 64)%nat.
Definition tags_ok (l : list string) : Prop :=
  NoDup (Js.toLowerCase <$> l) ∧ (length l ≤ 64)%nat ∧ ∀ t, t ∈ l → tag_ok t.
Definition role_ok (r : Role) : Prop :=
  NAME_RE (ro_name r) = true ∧ tags_ok (ro_regionTags r) ∧
  (Js.toLowerCase (ro_name r) ∈ RESERVED_NAMES_LC → ro_isProtected r = true) ∧
  (ro_isProtected r = true → ro_isBuiltIn r = true).

Record tables_ok (s : AccessState) : Prop := mkTablesOk {
  tb_ids : NoDup (ro_id <$> ac_roles s);
  tb_names : names_distinct s;
  tb_known : ∀ r, r ∈ ac_roles s → known s (ro_id r);
  tb_roles : ∀ r, r ∈ ac_roles s → role_ok r;
  tb_users : ∀ u, u ∈ ac_users s → ∃ r, r ∈ ac_roles s ∧ ro_id r = xu_roleId u;
  tb_userids : NoDup (xu_id <$> ac_users s);
  tb_knownusers : ∀ u, u ∈ ac_users s → known s (xu_id u);
  tb_usernames : NoDup (xu_username <$> ac_users s);
}.

(** The rows no handler touches. *)
Definition keeps_protected (s s' : AccessState) : Prop :=
  ∀ r, ro_isProtected r = true → r ∈ ac_roles s → r ∈ ac_roles s'.

Lemma region_loop_ok l acc acc' :
  region_loop acc l = Ok acc' →
  (∀ k, k ∈ acc.1 ↔ k ∈ Js.toLowerCase <$> acc.2) → NoDup (Js.toLowerCase <$> acc.2) → (∀ t, t ∈ acc.2 → tag_ok t) →
  NoDup (Js.toLowerCase <$> acc'.2) ∧ (∀ t, t ∈ acc'.2 → tag_ok t).
Proof.
  revert acc. induction l as [|raw l IH]; intros [seen out]; cbn [region_loop]; [by intros [= <-]|].
  unfold add_region_tag. destruct (Js.truthy (Js.trim raw)) eqn:Ht; cbn [negb]; [|apply IH].
  destruct (REGION_TAG_MAX_LEN <? _)%nat eqn:Hl; [done|]. apply Nat.ltb_ge in Hl.
  case_bool_decide as Hs; [apply IH|]. intros Hrun Hk Hnd Htag. apply (IH _ Hrun); cbn [fst snd] in *.
  - intros k. rewrite elem_sadd, Hk, fmap_app, elem_of_app. cbn [fmap list_fmap]. rewrite list_elem_of_singleton. tauto.
  - rewrite fmap_app. apply NoDup_app. split_and!; [done| |apply NoDup_singleton].
    intros k Hin ->%list_elem_of_singleton. by apply Hs, Hk.
  - intros t [?| ->%list_elem_of_singleton]%elem_of_app; [by apply Htag|]. split_and!; [apply trim_idem|done|done].
Qed.

Lemma normalizeRegionTags_ok i l : normalizeRegionTags i = Ok l → tags_ok l.
Proof.
  unfold normalizeRegionTags. destruct (region_loop _ _) as [[seen out]|e] eqn:Hr; [|done].
  destruct (REGION_TAGS_MAX_COUNT <? length out)%nat eqn:Hl; [done|]. intros [= <-]. apply Nat.ltb_ge in Hl.
  destruct (region_loop_ok _ _ _ Hr) as [Hnd Ht]; [done|constructor|by intros t ?%elem_of_nil|]. done.
Qed.

Lemma validateName_ok n name : validateName n = Ok name → NAME_RE name = true.
Proof. unfold validateName. destruct (NAME_RE (Js.trim n)) eqn:Hn; [|done]. by intros [= <-]. Qed.

Lemma collides_false name ex s :
  collides name ex s = false →
  Js.toLowerCase name ∉ RESERVED_NAMES_LC ∧
  ∀ r, r ∈ ac_roles s → ex ≠ Some (ro_id r) → Js.toLowerCase (ro_name r) ≠ Js.toLowerCase name.
Proof.
  unfold collides. intros [Hr Hc]%orb_false_iff. apply bool_decide_eq_false in Hr. split; [done|].
  intros r Hin Hex He. apply not_true_iff_false in Hc. apply Hc, existsb_exists. exists r.
  split; [by apply list_elem_of_In|]. by rewrite bool_decide_eq_false_2, He, String.eqb_refl.
Qed.

Lemma NoDup_point {A B} (g : A → B) (ids : A → string) (id : string) (y : A → A) l :
  NoDup (ids <$> l) → NoDup (g <$> l) →
  (∀ a b, a ∈ l → b ∈ l → ids a = id → ids b ≠ id → g b ≠ g (y a)) →
  NoDup ((λ a, g (if String.eqb (ids a) id then y a else a)) <$> l).
Proof.
  intros Hi Hg Hne. induction l as [|a l IH]; [constructor|]. rewrite fmap_cons in *.
  apply NoDup_cons in Hi as [Hia Hi], Hg as [Hga Hg]. apply NoDup_cons. split; [|apply IH; [done..|]; intros; apply Hne; by try right].
  intros (b & Hb & Hin)%list_elem_of_fmap.
  assert (∀ c, c ∈ l → ids c ≠ ids a) as Hd by (intros c Hc He; apply Hia; rewrite <-He; by apply list_elem_of_fmap_2).
  destruct (String.eqb_spec (ids a) id) as [Ha|Ha], (String.eqb_spec (ids b) id) as [Hb'|Hb'].
  - apply (Hd b Hin). congruence.
  - symmetry in Hb. revert Hb. apply Hne; [by left|by right|done|done].
  - revert Hb. apply Hne; [by right|by left|done|done].
  - apply Hga. rewrite Hb. by apply list_elem_of_fmap_2.
Qed.

Definition rows (s : AccessState) : list Role * list AccessUser * nat := (ac_roles s, ac_users s, ac_nextId s).
Definition framed {A} (m : M AccessState A) : Prop := ∀ x, keeps (λ s, rows s = x) m.

Lemma framed_hbind {A B} (m : M AccessState A) (k : A → M AccessState B) :
  framed m → (∀ a, framed (k a)) → framed (hbind m k).
Proof. intros Hm Hk x. apply keeps_hbind; [apply Hm|intros a; apply Hk]. Qed.
Lemma framed_readonly {A} (m : M AccessState A) : readonly m → framed m.
Proof. intros Hm x. by apply keeps_readonly. Qed.
Lemma framed_hmodify f : (∀ s, rows (f s) = rows s) → framed (hmodify f).
Proof. intros Hf x s s' r Hs [= <- <-]. by rewrite Hf. Qed.
Lemma framed_bump id v : framed (bumpRoleVersion id v).
Proof. by apply framed_hmodify. Qed.
Lemma framed_log a id : framed (log_access a id).
Proof. by apply framed_hmodify. Qed.
Lemma framed_update k f : framed (update_request k f).
Proof. by apply framed_hmodify. Qed.
Lemma framed_save k : framed (save_session k).
Proof. apply framed_hmodify. intros s. by destruct (ac_requests s !! k). Qed.
Lemma readonly_request k : readonly (request_session k).
Proof. intros s s' r. unfold request_session. destruct (ac_requests s !! k); by intros [= <- <-]. Qed.
Hint Resolve framed_bump framed_log framed_update framed_save : core.

Lemma framed_snapshot r : framed (snapshotFromRole r).
Proof. apply framed_hbind; [done|]. intros _. apply framed_readonly. solve_frame. Qed.
Lemma framed_begin k : framed (resolve_begin k).
Proof.
  apply framed_hbind; [apply framed_readonly, readonly_request|]. intros x.
  destruct (rs_userId x); [|by apply framed_readonly; solve_frame]. destruct (negb _); [apply framed_readonly; solve_frame|].
  destruct (rs_roleId x); [|apply framed_readonly; solve_frame]. destruct (negb _); [apply framed_readonly; solve_frame|].
  destruct (rs_snapshot x); [|apply framed_readonly; solve_frame]. destruct (negb _); [apply framed_readonly; solve_frame|].
  apply framed_hbind; [apply framed_readonly; solve_frame|]. intros [v|]; [destruct (v =? _); apply framed_readonly; solve_frame|].
  apply framed_hbind; [done|]. intros _. apply framed_readonly; solve_frame.
Qed.
Lemma framed_finish k l s : rows (finish_load k l s) = rows s.
Proof.
  assert (∀ A (m : M AccessState A), framed m → rows (m s).1 = rows s) as Hf.
  { intros A m Hm. destruct (m s) as [s' r] eqn:Hr. by apply (Hm _ s s' r). }
  destruct l as [[r|]|[[u r]|]]; cbn [finish_load]; [apply Hf|done|apply Hf|done].
  - apply framed_hbind; [apply framed_snapshot|]. intros fresh. apply framed_hbind; [done|]. intros _.
    apply framed_hbind; [done|]. intros _. apply framed_readonly; solve_frame.
  - apply framed_hbind; [apply framed_snapshot|]. intros fresh. apply framed_hbind; [done|]. intros _.
    apply framed_hbind; [done|]. intros _. apply framed_readonly; solve_frame.
Qed.

Lemma known_mono s s' id : (ac_nextId s ≤ ac_nextId s')%nat → known s id → known s' id.
Proof. intros Hle Hk n Hn. apply Hk. lia. Qed.
Lemma pretty_known n : ∀ m, (S n ≤ m)%nat → pretty n ≠ pretty m.
Proof. intros m Hm He%(inj pretty). lia. Qed.

Lemma tables_ok_ext s s' : rows s' = rows s → tables_ok s → tables_ok s'.
Proof. unfold rows. intros [= Er Eu En] [? ? ? ? ? ? ? ?]. constructor; unfold names_distinct, known in *; rewrite ?Er, ?Eu, ?En; done. Qed.

Lemma tables_edit id i before d s :
  tables_ok s → role_at id s = Some before → data_for id before i s d → tables_ok (put_role id (apply_data d (ac_now s)) s).
Proof.
  intros [Hi Hn Hk Hr Hu Hui Hku Hun] Hb (Hname & _ & _ & Htags). destruct (role_at_some _ _ _ Hb) as [Hin Hid].
  assert (ro_id <$> ac_roles (put_role id (apply_data d (ac_now s)) s) = ro_id <$> ac_roles s) as Ei.
  { cbn. rewrite <-list_fmap_compose. apply list_fmap_ext. intros j r _. cbn. by destruct (role_is id r). }
  assert (∀ r, r ∈ ac_roles s → ro_id r = id → r = before) as Hone.
  { intros r Hr' Hrid. apply list_elem_of_lookup in Hr' as [a Ha], Hin as [b Hb'].
    assert (a = b) as <-; [|congruence]. eapply (NoDup_lookup _ a b id Hi); rewrite list_lookup_fmap; [rewrite Ha|rewrite Hb']; cbn; congruence. }
  constructor; try done.
  - by rewrite Ei.
  - unfold names_distinct. cbn. rewrite <-list_fmap_compose.
    apply (NoDup_point (Js.toLowerCase ∘ ro_name) ro_id id (apply_data d (ac_now s))); [done..|].
    intros a b Ha Hb' Hia Hib. rewrite (Hone a Ha Hia). cbn. destruct (rd_name d) as [new|] eqn:Hd; cbn [default].
    + destruct (next_name_some _ _ _ _ _ Hname) as (_ & _ & Hc & _). apply (proj2 (collides_false new (Some id) s Hc) b Hb'). congruence.
    + intros He. apply list_elem_of_lookup in Hb' as [x Hx], Hin as [y Hy].
      assert (x = y) as <-; [|congruence].
      eapply (NoDup_lookup _ x y _ Hn); rewrite list_lookup_fmap; [rewrite Hx|rewrite Hy]; cbn; [done|by rewrite He].
  - cbn. intros r (r' & -> & Hr')%list_elem_of_fmap. destruct (role_is id r'); by apply (Hk r').
  - cbn. intros r (r' & -> & Hr')%list_elem_of_fmap. destruct (role_is id r') eqn:His; [|by apply Hr].
    apply String.eqb_eq in His. rewrite (Hone r' Hr' His). destruct (Hr before Hin) as (Hre & Htg & Hres & Hpb).
    unfold role_ok, apply_data. cbn. split_and!; [| | |done].
    + destruct (rd_name d) as [new|]; [|done]. by apply (next_name_some _ _ _ _ _ Hname).
    + destruct (rd_regionTags d) as [l|] eqn:Hd; [|done]. unfold next_regions in Htags. destruct (ur_regionTags i); [|done].
      destruct (normalizeRegionTags _) eqn:Hnt; [|done]. injection Htags as Ht. case_bool_decide; [done|]. injection Ht as ->.
      by eapply normalizeRegionTags_ok.
    + destruct (rd_name d) as [new|]; [|done]. cbn [default]. intros Hx. by destruct (next_name_some _ _ _ _ _ Hname) as (_ & _ & [? _]%collides_false & _).
  - intros u Huu. destruct (Hu u Huu) as (r & Hr' & Hru). exists (if role_is id r then apply_data d (ac_now s) r else r).
    split; [by apply (list_elem_of_fmap_2 (λ r, if role_is id r then apply_data d (ac_now s) r else r))|].
    by destruct (role_is id r).
Qed.

Lemma tables_create i s : tables_ok s → tables_ok (createRole i s).1.
Proof.
  intros Hok. destruct (createRole_cases i s) as [[e ->]|(name & desc & tags & Hn & Hc & Hd & Ht & ->)]; [done|].
  cbn [fst]. set (r := mkRole _ _ _ _ _ _ _ _ _). destruct (collides_false _ _ _ Hc) as [Hres Hfree].
  apply (tables_ok_ext (set_next (S (ac_nextId s)) (set_roles (ac_roles s ++ [r]) s))); [done|].
  destruct Hok as [Hi Hnn Hk Hr Hu Hui Hku Hun]. constructor; cbn; try done.
  - rewrite fmap_app. apply NoDup_app. split_and!; [done| |apply NoDup_singleton].
    intros x (r' & -> & Hr')%list_elem_of_fmap He%list_elem_of_singleton. by apply (Hk r' Hr' (ac_nextId s)).
  - unfold names_distinct. cbn. rewrite fmap_app. apply NoDup_app. split_and!; [done| |apply NoDup_singleton].
    intros x (r' & -> & Hr')%list_elem_of_fmap He%list_elem_of_singleton. by apply (Hfree r' Hr').
  - intros r' [Hr'| ->%list_elem_of_singleton]%elem_of_app.
    + eapply known_mono; [|by apply Hk]. cbn. lia.
    + intros n Hn'. by apply pretty_known.
  - intros r' [Hr'| ->%list_elem_of_singleton]%elem_of_app; [by apply Hr|]. unfold role_ok. cbn. split_and!; [| |done|done].
    + by eapply validateName_ok.
    + by eapply normalizeRegionTags_ok.
  - intros u Huu. destruct (Hu u Huu) as (r' & ? & ?). exists r'. split; [|done]. apply elem_of_app. by left.
  - intros u Huu. eapply known_mono; [|by apply Hku]. cbn. lia.
Qed.

Lemma filter_fmap_NoDup {A B} (g : A → B) p (l : list A) : NoDup (g <$> l) → NoDup (g <$> List.filter p l).
Proof.
  induction l as [|a l IH]; [done|]. rewrite fmap_cons. intros [Ha Hl]%NoDup_cons. cbn [List.filter].
  destruct (p a); [|by apply IH]. rewrite fmap_cons. apply NoDup_cons. split; [|by apply IH].
  intros (b & Hb & Hin)%list_elem_of_fmap. apply Ha. rewrite Hb. apply list_elem_of_fmap_2. apply list_elem_of_In in Hin.
  apply filter_In in Hin as [Hin _]. by apply list_elem_of_In.
Qed.
Lemma elem_filter {A} p (l : list A) x : x ∈ List.filter p l ↔ x ∈ l ∧ p x = true.
Proof. by rewrite !list_elem_of_In, filter_In. Qed.

Lemma tables_delete id s : tables_ok s → tables_ok (deleteRole id s).1.
Proof.
  intros Hok. destruct (deleteRole_cases id s) as [[e ->]|(before & Hb & Hbi & Hno & ->)]; [done|].
  apply (tables_ok_ext (set_roles (List.filter (λ r, negb (role_is id r)) (ac_roles s)) s)); [done|].
  destruct Hok as [Hi Hnn Hk Hr Hu Hui Hku Hun]. constructor; cbn; try done.
  - by apply filter_fmap_NoDup.
  - by apply filter_fmap_NoDup.
  - intros r [Hr' _]%elem_filter. by apply Hk.
  - intros r [Hr' _]%elem_filter. by apply Hr.
  - intros u Huu. destruct (Hu u Huu) as (r & Hr' & Hid). exists r. split; [|done]. apply elem_filter. split; [done|].
    apply negb_true_iff, String.eqb_neq. intros He. assert (u ∈ users_of id s) as Hin.
    { apply elem_filter. split; [done|]. apply String.eqb_eq. congruence. }
    rewrite Hno in Hin. by apply elem_of_nil in Hin.
Qed.

(** ** The user handlers *)

Lemma tables_put_user id f s :
  (∀ u, xu_id (f u) = xu_id u ∧ xu_username (f u) = xu_username u) →
  (∀ u, u ∈ ac_users s → ∃ r, r ∈ ac_roles s ∧ ro_id r = xu_roleId (f u)) →
  tables_ok s → tables_ok (put_user id f s).
Proof.
  intros Hf Hr [Hi Hn Hk Hro Hu Hui Hku Hun].
  assert (∀ A (g : AccessUser → A), (∀ u, g (f u) = g u) → g <$> ac_users (put_user id f s) = g <$> ac_users s) as Hg.
  { intros A g Hg. cbn. rewrite <-list_fmap_compose. apply list_fmap_ext. intros j u _. cbn. by destruct (user_is id u). }
  constructor; try done.
  - cbn. intros u (u' & -> & Hu')%list_elem_of_fmap. destruct (user_is id u'); auto.
  - rewrite Hg; [done|]. intros u. apply Hf.
  - cbn. intros u (u' & -> & Hu')%list_elem_of_fmap. destruct (user_is id u'); [rewrite (proj1 (Hf u'))|]; by apply (Hku u').
  - rewrite Hg; [done|]. intros u. apply Hf.
Qed.

Lemma update_user_cases id f s :
  (∃ e, update_user id f s = (s, Throw e)) ∨ update_user id f s = (put_user id f s, Ok tt).
Proof. unfold update_user, hbind, hget, hput, hthrow. cbv beta iota. destruct (user_at id s); [by right|left; by eexists]. Qed.

Lemma keeps_update_user id f :
  (∀ u, xu_id (f u) = xu_id u ∧ xu_username (f u) = xu_username u) → (∀ u, xu_roleId (f u) = xu_roleId u) →
  keeps tables_ok (update_user id f).
Proof.
  intros Hf Hr s s' r Hok Hrun. destruct (update_user_cases id f s) as [[e He]|He]; rewrite He in Hrun; injection Hrun as <- <-; [done|].
  apply tables_put_user; [done| |done]. intros u Hu. rewrite Hr. by apply (tb_users _ Hok).
Qed.
Lemma keeps_tables_framed {A} (m : M AccessState A) : framed m → keeps tables_ok m.
Proof. intros Hm s s' r Hok Hrun. apply (tables_ok_ext s); [|done]. by apply (Hm _ s s' r). Qed.

Lemma keeps_run {A} (m : M AccessState A) s : keeps tables_ok m → tables_ok s → tables_ok (m s).1.
Proof. intros Hm Hok. destruct (m s) as [s' r] eqn:Hr. by apply (Hm s s' r). Qed.

Lemma keeps_review id : keeps tables_ok (dismissRoleReview id).
Proof.
  apply keeps_hbind; [apply keeps_readonly; solve_frame|]. intros [u|]; [|apply keeps_readonly; solve_frame].
  destruct (xu_needsRoleReview u); [|apply keeps_readonly; solve_frame]. by apply keeps_update_user.
Qed.
Lemma keeps_regions id tags : keeps tables_ok (putUserRegions id tags).
Proof.
  apply keeps_hbind; [apply keeps_readonly; solve_frame|]. intros _.
  apply keeps_hbind; [apply keeps_readonly; solve_frame|]. intros before.
  apply keeps_hbind; [apply keeps_readonly; solve_frame|]. intros _.
  apply keeps_hbind; [by apply keeps_update_user|]. intros _. apply keeps_tables_framed; auto.
Qed.

Lemma role_change_checks_readonly self id roleId : readonly (role_change_checks self id roleId).
Proof. unfold role_change_checks, isAdminEquivalentRole, countAdminEquivalentUsers. solve_frame. Qed.
Lemma delete_checks_readonly self id : readonly (delete_checks self id).
Proof. unfold delete_checks, isAdminEquivalentRole, countAdminEquivalentUsers. solve_frame. Qed.

Lemma role_change_write_cases id roleId s :
  (∃ e, role_change_write id roleId s = (s, Throw e)) ∨
  (∃ r, role_at roleId s = Some r ∧
     role_change_write id roleId s = (logged "user.role_changed" id (put_user id (with_role roleId) s), Ok tt)).
Proof.
  unfold role_change_write, hbind, hgets, hguard. destruct (role_at roleId s) as [r|]; [|left; by eexists].
  cbn [bool_decide]. rewrite bool_decide_eq_false_2 by done. cbv beta iota delta [hret].
  destruct (update_user_cases id (with_role roleId) s) as [[e ->]| ->]; [left; by eexists|]. right. by exists r.
Qed.
Lemma keeps_user_role self id roleId : keeps tables_ok (putUserRole self id roleId).
Proof.
  apply keeps_hbind; [apply keeps_readonly, role_change_checks_readonly|]. intros _ s s' x Hok.
  destruct (role_change_write_cases id roleId s) as [[e ->]|(r & Hr & ->)]; intros [= <- <-]; [done|].
  apply (tables_ok_ext (put_user id (with_role roleId) s)); [done|]. apply tables_put_user; [done| |done].
  intros u _. exists r. by apply role_at_some.
Qed.

Lemma tables_filter_users p s : tables_ok s → tables_ok (set_users (List.filter p (ac_users s)) s).
Proof.
  intros [Hi Hn Hk Hro Hu Hui Hku Hun]. constructor; cbn; try done.
  - intros u [Hu' _]%elem_filter. by apply Hu.
  - by apply filter_fmap_NoDup.
  - intros u [Hu' _]%elem_filter. by apply Hku.
  - by apply filter_fmap_NoDup.
Qed.
Lemma delete_write_cases id s :
  (∃ e, delete_write id s = (s, Throw e)) ∨
  delete_write id s = (logged "user.deleted" id (set_users (List.filter (λ u, negb (user_is id u)) (ac_users s)) s), Ok tt).
Proof.
  unfold delete_write, delete_user_row, hbind, hget, hput, hthrow. cbv beta iota. destruct (user_at id s); [by right|left; by eexists].
Qed.
Lemma keeps_delete_user self id : keeps tables_ok (deleteUser self id).
Proof.
  apply keeps_hbind; [apply keeps_readonly, delete_checks_readonly|]. intros _ s s' x Hok.
  destruct (delete_write_cases id s) as [[e ->]| ->]; intros [= <- <-]; [done|].
  by apply (tables_ok_ext (set_users (List.filter (λ u, negb (user_is id u)) (ac_users s)) s)), tables_filter_users.
Qed.

Lemma createUser_cases b s :
  (∃ e s', createUser b s = (s', Throw e) ∧ rows s' = rows s) ∨
  (∃ r hash, role_at (cu_roleId b) s = Some r ∧ (∀ u, u ∈ ac_users s → xu_username u ≠ cu_username b) ∧
     let u := mkAccessUser (pretty (ac_nextId s)) (cu_username b) hash (cu_roleId b) (default [] (cu_regionTags b)) false in
     createUser b s = (logged "user.created" (xu_id u) (set_next (S (ac_nextId s)) (set_users (ac_users s ++ [u])
        (set_draws (S (ac_draws s)) s))), Ok u)).
Proof.
  unfold createUser. unfold hbind at 1, hguard at 1. destruct (negb (CreateUserSchema b)); cbv beta iota delta [hthrow hret].
  { left. by eexists _, s. }
  unfold hbind at 1, hget at 1. cbv beta iota. unfold hbind at 1, hguard at 1.
  destruct (existsb _ _) eqn:Hu; cbv beta iota delta [hthrow hret]. { left. by eexists _, s. }
  unfold hbind at 1, hguard at 1. destruct (role_at (cu_roleId b) s) as [r|] eqn:Hr.
  2: { rewrite bool_decide_eq_true_2 by done. left. by eexists _, s. }
  rewrite bool_decide_eq_false_2 by done. unfold insert_user, hbind, hget, hput, hguard, hret. cbv beta iota zeta.
  cbn [ac_users ac_nextId ac_draws set_draws xu_username xu_roleId]. rewrite Hu.
  assert (role_at (cu_roleId b) (set_draws (S (ac_draws s)) s) = Some r) as -> by done.
  rewrite ?Hr, !bool_decide_eq_false_2 by done. right. exists r, (argonHash (ac_draws s) (cu_password b)). split_and!; [done| |reflexivity].
  intros u Hin He. apply not_true_iff_false in Hu. apply Hu, existsb_exists. exists u. split; [by apply list_elem_of_In|].
  by apply String.eqb_eq.
Qed.

Lemma tables_create_user b s : tables_ok s → tables_ok (createUser b s).1.
Proof.
  intros Hok. destruct (createUser_cases b s) as [(e & s' & -> & Hs)|(r & hash & Hr & Hfree & ->)]; [by apply (tables_ok_ext s)|].
  cbn [fst]. set (u := mkAccessUser _ _ _ _ _ _).
  apply (tables_ok_ext (set_next (S (ac_nextId s)) (set_users (ac_users s ++ [u]) s))); [done|].
  destruct Hok as [Hi Hnn Hk Hro Hu Hui Hku Hun]. constructor; cbn; try done.
  - intros r' Hr'. eapply known_mono; [|by apply Hk]. cbn. lia.
  - intros u' [Hu'| ->%list_elem_of_singleton]%elem_of_app; [by apply Hu|]. exists r. by apply role_at_some.
  - rewrite fmap_app. apply NoDup_app. split_and!; [done| |apply NoDup_singleton].
    intros x (u' & -> & Hu')%list_elem_of_fmap He%list_elem_of_singleton. by apply (Hku u' Hu' (ac_nextId s)).
  - intros u' [Hu'| ->%list_elem_of_singleton]%elem_of_app.
    + eapply known_mono; [|by apply Hku]. cbn. lia.
    + intros n Hn'. by apply pretty_known.
  - rewrite fmap_app. apply NoDup_app. split_and!; [done| |apply NoDup_singleton].
    intros x (u' & -> & Hu')%list_elem_of_fmap He%list_elem_of_singleton. by apply (Hfree u' Hu').
Qed.

Lemma call_tables c s : tables_ok s → tables_ok (call c s).
Proof.
  destruct c; cbn [call]; intros Hok.
  - by apply tables_create.
  - by apply tables_delete.
  - apply keeps_run; [apply keeps_review|done].
  - by apply tables_create_user.
  - apply keeps_run; [apply keeps_user_role|done].
  - apply keeps_run; [apply keeps_regions|done].
  - apply keeps_run; [apply keeps_delete_user|done].
Qed.

(** ** Every step keeps the tables *)

Lemma framed_state {A} (m : M AccessState A) s : framed m → rows (m s).1 = rows s.
Proof. intros Hm. destruct (m s) as [s' r] eqn:Hr. by apply (Hm _ s s' r). Qed.

(** Steps of requests and sessions leave the rows alone. *)
Definition touches_rows (op : WorldOp) : bool := match op with WCall _ | WEdit _ _ => true | _ => false end.
Lemma session_step_rows op w : touches_rows op = false → rows (wo_state (world_step op w)) = rows (wo_state w).
Proof.
  destruct op; cbn [touches_rows world_step]; try done; intros _.
  - destruct (wo_bumps w !! n); [|done]. cbn [wo_state]. by rewrite update_finish_run.
  - cbn [on_access wo_state]. apply framed_state, framed_begin.
  - by destruct (read_row k (wo_state w)).
  - destruct (wo_loads w !! n) as [[k l]|]; [|done]. apply framed_finish.
  - cbn [on_access wo_state]. apply framed_state, framed_save.
  - by destruct (user_with_role userId (wo_state w)).
  - destruct (wo_logins w !! n) as [[sid [u r]]|]; done.
Qed.

Lemma edit_step id i w :
  tables_ok (wo_state w) →
  wo_state (world_step (WEdit id i) w) = wo_state w ∧ wo_bumps (world_step (WEdit id i) w) = wo_bumps w ∨
  ∃ before d, role_at id (wo_state w) = Some before ∧ ro_isProtected before = false ∧
    data_for id before i (wo_state w) d ∧
    wo_state (world_step (WEdit id i) w) = put_role id (apply_data d (ac_now (wo_state w))) (wo_state w) ∧
    wo_bumps (world_step (WEdit id i) w) = apply_data d (ac_now (wo_state w)) before :: wo_bumps w.
Proof.
  intros Hok. cbn [world_step].
  destruct (update_commit_cases id i (wo_state w) (tb_names _ Hok)) as [(e & -> & _)|[(b & _ & _ & _ & ->)|(b & d & Hb & Hp & Hf & _ & ->)]];
    [by left|by left|right]. by exists b, d.
Qed.

Lemma world_tables op w : tables_ok (wo_state w) → tables_ok (wo_state (world_step op w)).
Proof.
  intros Hok. destruct (touches_rows op) eqn:Ht; [|by eapply tables_ok_ext; [apply session_step_rows|]].
  destruct op; try done.
  - by apply call_tables.
  - destruct (edit_step id i w Hok) as [[-> _]|(b & d & Hb & _ & Hf & -> & _)]; [done|]. by eapply tables_edit.
Qed.

Lemma user_call_roles c s :
  match c with CCreateRole _ | CDeleteRole _ => True | _ => ac_roles (call c s) = ac_roles s end.
Proof.
  assert (∀ id f s, ac_roles (update_user id f s).1 = ac_roles s) as Hup.
  { intros id f s0. by destruct (update_user_cases id f s0) as [[e ->]| ->]. }
  destruct c; cbn [call]; try done.
  - unfold dismissRoleReview, hbind, hgets. destruct (user_at id s) as [u|]; [|done].
    destruct (xu_needsRoleReview u); [apply Hup|done].
  - destruct (createUser_cases b s) as [(e & s' & -> & Hs)|(r & h & _ & _ & ->)]; [|done]. by injection Hs.
  - unfold putUserRole, hbind. destruct (role_change_checks self id roleId s) as [s1 [[]|e]] eqn:Hc;
      apply role_change_checks_readonly in Hc as ->; [|done].
    by destruct (role_change_write_cases id roleId s) as [[e ->]|(r & _ & ->)].
  - unfold putUserRegions, hbind, hgets, hguard. destruct (negb (RegionTagsSchema tags)); [done|].
    cbv beta iota delta [hret]. destruct (bool_decide (user_at id s = None)); [done|].
    pose proof (Hup id (with_regions (foldl clean_tag ([], []) tags).2) s) as Hr.
    by destruct (update_user id _ s) as [s1 [[]|e]].
  - unfold deleteUser, hbind. destruct (delete_checks self id s) as [s1 [[]|e]] eqn:Hc;
      apply delete_checks_readonly in Hc as ->; [|done].
    by destruct (delete_write_cases id s) as [[e ->]| ->].
Qed.

Lemma role_at_elem r s : tables_ok s → r ∈ ac_roles s → role_at (ro_id r) s = Some r.
Proof.
  intros Hok Hr. destruct (role_at (ro_id r) s) as [r'|] eqn:Hf.
  - destruct (role_at_some _ _ _ Hf) as [Hr' Hid]. apply list_elem_of_lookup in Hr as [a Ha], Hr' as [b Hb].
    assert (a = b) as <-; [|congruence]. eapply (NoDup_lookup _ a b (ro_id r) (tb_ids _ Hok)); rewrite list_lookup_fmap;
      [by rewrite Ha|rewrite Hb; cbn; congruence].
  - exfalso. pose proof (find_none _ _ Hf r) as Hn. apply list_elem_of_In in Hr. specialize (Hn Hr).
    unfold role_is in Hn. by rewrite String.eqb_refl in Hn.
Qed.

Lemma world_protected op w : tables_ok (wo_state w) → keeps_protected (wo_state w) (wo_state (world_step op w)).
Proof.
  intros Hok r Hp Hr. destruct (touches_rows op) eqn:Ht.
  2: { pose proof (session_step_rows op w Ht) as He. injection He as -> _ _. done. }
  destruct op; try done.
  - cbn [world_step on_access wo_state]. pose proof (user_call_roles c (wo_state w)) as Hc. destruct c; try by rewrite Hc.
    + cbn [call]. destruct (createRole_cases i (wo_state w)) as [[e ->]|(n & de & t & _ & _ & _ & _ & ->)]; [done|].
      cbn. apply elem_of_app. by left.
    + cbn [call]. destruct (deleteRole_cases id (wo_state w)) as [[e ->]|(b & Hb & Hbi & _ & ->)]; [done|].
      cbn. apply elem_filter. split; [done|]. apply negb_true_iff, String.eqb_neq. intros He.
      rewrite <-He, (role_at_elem r _ Hok Hr) in Hb. injection Hb as <-.
      destruct (tb_roles _ Hok r Hr) as (_ & _ & _ & Hx). rewrite (Hx Hp) in Hbi. done.
  - destruct (edit_step id i w Hok) as [[-> _]|(b & d & Hb & Hbp & Hf & -> & _)]; [done|]. cbn.
    apply list_elem_of_fmap. exists r. split; [|done]. destruct (role_is id r) eqn:His; [|done].
    apply String.eqb_eq in His. rewrite <-His, (role_at_elem r _ Hok Hr) in Hb. injection Hb as <-. congruence.
Qed.

(** Whatever the order of edits, requests and sign-ins, role names stay valid
    and distinct up to case, nobody but the built-in roles carries a reserved
    name, every user holds an existing role, and the protected roles are never
    changed. *)
Theorem access_tables_reachable ops w0 :
  tables_ok (wo_state w0) →
  let s := wo_state (world_run ops w0) in
  tables_ok s ∧ keeps_protected (wo_state w0) s ∧
  (∀ u, u ∈ ac_users s → ∃ r, user_with_role (xu_id u) s = Some (u, r)) ∧
  (∀ r, r ∈ ac_roles s → Js.toLowerCase (ro_name r) ∈ RESERVED_NAMES_LC → ro_isProtected r = true ∧ ro_isBuiltIn r = true).
Proof.
  intros Hok. assert (tables_ok (wo_state (world_run ops w0)) ∧ keeps_protected (wo_state w0) (wo_state (world_run ops w0))) as [Hs Hp].
  { revert w0 Hok. unfold world_run. induction ops as [|op ops IH]; intros w0 Hok; [split; [done|by intros r ? ?]|]. cbn [foldl].
    pose proof (world_tables op w0 Hok) as Hok1. destruct (IH _ Hok1) as [Hs Hp]. split; [done|].
    intros r Hr Hin. apply Hp; [done|]. by apply world_protected. }
  split_and!; [done|done| |].
  - intros u Hu. destruct (tb_users _ Hs u Hu) as (r & Hr & Hid). exists r. unfold user_with_role.
    assert (user_at (xu_id u) (wo_state (world_run ops w0)) = Some u) as ->; [|by rewrite <-Hid, (role_at_elem r _ Hs Hr)].
    destruct (user_at (xu_id u) _) as [u'|] eqn:Hf.
    + destruct (user_at_some _ _ _ Hf) as [Hu' He]. apply list_elem_of_lookup in Hu as [a Ha], Hu' as [b Hb].
      assert (a = b) as <-; [|congruence]. eapply (NoDup_lookup _ a b (xu_id u) (tb_userids _ Hs)); rewrite list_lookup_fmap;
        [by rewrite Ha|rewrite Hb; cbn; congruence].
    + exfalso. apply list_elem_of_In in Hu. pose proof (find_none _ _ Hf u Hu) as Hn. unfold user_is in Hn.
      by rewrite String.eqb_refl in Hn.
  - intros r Hr Hres. destruct (tb_roles _ Hs r Hr) as (_ & _ & Hx & Hy). auto.
Qed.
End world.

(** ** A concrete run *)

Lemma pretty_nat_digits (n : nat) : Js.sforallb Js.is_digit (pretty n) = true.
Proof.
  assert (pretty n = pretty (Z.of_nat n)) as ->; [|apply pretty_digits; lia].
  rewrite pretty_Z_nonneg by lia. unfold pretty at 1, pretty_nat. f_equal. lia.
Qed.
Lemma named_known s id : Js.sforallb Js.is_digit id = false → known s id.
Proof. intros Hd n _ ->. by rewrite pretty_nat_digits in Hd. Qed.

(** The built-in admin role, an editable one, and a role that grants nothing. *)
Definition every (l : AccessLevel) : Json := matrix_json ((λ d, (fk_key d, l)) <$> FUNCTION_KEYS).
Definition admin_role : Role := mkRole "r-admin" "admin" None (every FullAccess) [] true true 0 0.
Definition net_role : Role := mkRole "r-net" "networkadmin" None (every WriteAccess) [] true false 0 0.
Definition idle_role : Role := mkRole "r-idle" "idle" None (JObj []) [] false false 0 0.
Definition seed_user (id role : string) : AccessUser := mkAccessUser id id "hash" role [] false.
Definition seed_state : AccessState :=
  mkAccess [admin_role; net_role; idle_role] [seed_user "alice" "r-admin"; seed_user "carol" "r-net"] [] [] [] 0 0 0 [].

Lemma seed_tables : tables_ok seed_state.
Proof.
  assert (∀ r, r ∈ ac_roles seed_state → r = admin_role ∨ r = net_role ∨ r = idle_role) as Hr.
  { intros r Hr. cbn in Hr. rewrite !elem_of_cons, elem_of_nil in Hr. naive_solver. }
  assert (∀ u, u ∈ ac_users seed_state → u = seed_user "alice" "r-admin" ∨ u = seed_user "carol" "r-net") as Hu.
  { intros u Hu. cbn in Hu. rewrite !elem_of_cons, elem_of_nil in Hu. naive_solver. }
  constructor; [by apply distinct_NoDup|by apply distinct_NoDup| | | |by apply distinct_NoDup| |by apply distinct_NoDup].
  - intros r [->|[->| ->]]%Hr; by apply named_known.
  - assert (∀ x, x ∈ RESERVED_NAMES_LC → x = "admin"%string ∨ x = "readonly"%string) as Hres.
    { intros x. unfold RESERVED_NAMES_LC. rewrite !elem_of_cons, elem_of_nil. tauto. }
    assert (tags_ok []) as Ht by (split_and!; [apply NoDup_nil_2|cbn; lia|by intros t ?%elem_of_nil]).
    intros r [->|[->| ->]]%Hr; (split_and!; [done|exact Ht| |done]); [done|..]; by intros [?|?]%Hres.
  - intros u [->| ->]%Hu; [exists admin_role|exists net_role]; (split; [cbn; rewrite !elem_of_cons; auto|done]).
  - intros u [->| ->]%Hu; by apply named_known.
Qed.

(** Carol signs in, the role she holds is cut down, and the change is announced. *)
Definition cut_down : UpdateRoleInput := mkUpdateRole None None (Some (JObj [("subnets", JStr "read")])) None.
Definition carol_signs_in : list WorldOp := [WLoginRead "s1" "carol"; WLogin 0; WOpen "s1"].
Definition role_cut_down : list WorldOp := [WTick 5; WEdit "r-net" cut_down; WBump 0].

#[local] Existing Instance toy_lib.
#[local] Existing Instance any_uuid.
Lemma access_tables_reachable_witness :
  let s := wo_state (world_run (carol_signs_in ++ role_cut_down) (mkWorld seed_state [] [] [])) in
  tables_ok s ∧ admin_role ∈ ac_roles s.
Proof.
  destruct (access_tables_reachable (carol_signs_in ++ role_cut_down) (mkWorld seed_state [] [] [])) as (Hok & Hp & _).
  - exact seed_tables.
  - split; [exact Hok|]. apply Hp; [reflexivity|]. by left.
Defined.
