(* ===== verification/RoleGuard.v ===== *)
(** * The guards follow the stored roles

    A session carries a copy of its role, and [roleVersionMap] tells it when the
    copy is out of date.  The invariant [in_sync] says that a copy is current or
    that its staleness is announced; the guards then decide by the stored row.
    It holds as long as no step [overtakes]: no version is stamped from a row that
    was edited since it was read, a role is not edited twice in a millisecond, and
    the process does not restart over a stale copy; the closed examples at the end
    show what happens otherwise. *)

From S2P Require Import Prelude Http JsColl Login MonitorSettings Tokens Roles RolesProofs RoleSessions.

#[export] Instance Json_eq_dec : EqDecision Json.
Proof.
  refine (fix go (a b : Json) {struct a} : Decision (a = b) :=
    let _ : EqDecision Json := @go in
    match a, b with
    | JNull, JNull => left eq_refl
    | JBool x, JBool y => cast_if (decide (x = y))
    | JNum x, JNum y => cast_if (decide (x = y))
    | JStr x, JStr y => cast_if (decide (x = y))
    | JArr x, JArr y => cast_if (decide (x = y))
    | JObj x, JObj y => cast_if (decide (x = y))
    | _, _ => right _
    end); abstract congruence.
Defined.
#[export] Instance Role_eq_dec : EqDecision Role.
Proof. solve_decision. Defined.
#[export] Instance SessionRoleSnapshot_eq_dec : EqDecision SessionRoleSnapshot.
Proof. solve_decision. Defined.

Section guard.
Context `{AuthLib} `{ZodLib}.

Definition snap_in (w : World) (sn : SessionRoleSnapshot) : Prop :=
  (∃ sid x, (sid, x) ∈ ac_sessions (wo_state w) ∧ rs_snapshot x = Some sn) ∨
  (∃ q, q ∈ ac_requests (wo_state w) ∧ rs_snapshot (rq_session q) = Some sn).

Definition load_role (l : Load) : option Role :=
  match l with LoadRole row => row | LoadUser row => snd <$> row end.
(** The rows under way. *)
Definition row_in (w : World) (r : Role) : Prop :=
  r ∈ wo_bumps w ∨ (∃ k l, (k, l) ∈ wo_loads w ∧ load_role l = Some r) ∨ (∃ sid u, (sid, (u, r)) ∈ wo_logins w).

(** The process knows the version of [r], or its announcement is under way. *)
Definition announced (w : World) (r : Role) : Prop :=
  mget (ro_id r) (ac_versions (wo_state w)) = Some (ro_updatedAt r) ∨ r ∈ wo_bumps w.

Definition current (s : AccessState) (sn : SessionRoleSnapshot) : Prop :=
  ∀ r, role_at (sn_id sn) s = Some r → sn = snapshot_of r.

Record in_sync (w : World) : Prop := mkInSync {
  sy_tables : tables_ok (wo_state w);
  sy_known : ∀ sn, snap_in w sn → known (wo_state w) (sn_id sn);
  sy_snap : ∀ sn r, snap_in w sn → role_at (sn_id sn) (wo_state w) = Some r →
    sn = snapshot_of r ∨ sn_updatedAt sn < ro_updatedAt r ∧ announced w r;
  sy_rows : ∀ r, row_in w r → known (wo_state w) (ro_id r);
}.

(** A row read some time ago is still what the table holds. *)
Definition timely (r : Role) (s : AccessState) : Prop := ∀ r', role_at (ro_id r) s = Some r' → r' = r.

(** When a step may happen: the clock has moved since the role was last edited,
    and a version is stamped only from a row that is still current. *)
Definition world_op_ok (op : WorldOp) (w : World) : Prop :=
  let s := wo_state w in
  match op with
  | WEdit id _ => ∀ r, role_at id s = Some r → ro_updatedAt r < ac_now s
  | WBump n => ∀ r, wo_bumps w !! n = Some r → timely r s
  | WFinish n => ∀ k l r, wo_loads w !! n = Some (k, l) → load_role l = Some r → timely r s
  | WLogin n => ∀ sid u r, wo_logins w !! n = Some (sid, (u, r)) → timely r s
  | WRestart => ∀ sn, snap_in w sn → current s sn
  | _ => True
  end.

(** The steps that break that rule: an edit within the millisecond of the last
    one of the role; the stamp of a version from a row edited since it was read,
    by an announcement, a request's load or a sign-in; and a restart over a
    session whose copy is out of date. *)
Definition stale_row (r : Role) (s : AccessState) : Prop := ∃ r', role_at (ro_id r) s = Some r' ∧ r' ≠ r.
Definition overtakes (op : WorldOp) (w : World) : Prop :=
  let s := wo_state w in
  match op with
  | WEdit id _ => ∃ r, role_at id s = Some r ∧ ac_now s ≤ ro_updatedAt r
  | WBump n => ∃ r, wo_bumps w !! n = Some r ∧ stale_row r s
  | WFinish n => ∃ k l r, wo_loads w !! n = Some (k, l) ∧ load_role l = Some r ∧ stale_row r s
  | WLogin n => ∃ sid u r, wo_logins w !! n = Some (sid, (u, r)) ∧ stale_row r s
  | WRestart => ∃ sn r, snap_in w sn ∧ role_at (sn_id sn) s = Some r ∧ sn ≠ snapshot_of r
  | _ => False
  end.

Lemma timely_or_stale r s : timely r s ∨ stale_row r s.
Proof.
  unfold timely, stale_row. destruct (role_at (ro_id r) s) as [r'|]; [|by left].
  destruct (decide (r' = r)) as [->|Hne]; [left; by intros ? [= ->]|right; by exists r'].
Qed.

Definition snaps (w : World) : list SessionRoleSnapshot :=
  omap (λ x, rs_snapshot x.2) (ac_sessions (wo_state w)) ++ omap (λ q, rs_snapshot (rq_session q)) (ac_requests (wo_state w)).
Lemma elem_snaps w sn : sn ∈ snaps w ↔ snap_in w sn.
Proof.
  unfold snaps, snap_in. rewrite elem_of_app, !list_elem_of_omap. split.
  - intros [([sid x] & ? & ?)|(q & ? & ?)]; [left; by exists sid, x|right; by exists q].
  - intros [(sid & x & ? & ?)|(q & ? & ?)]; [left; by exists (sid, x)|right; by exists q].
Qed.

Lemma op_ok_or_overtakes op w : world_op_ok op w ∨ overtakes op w.
Proof.
  destruct op as [c|id i|n|sid|k|k|n|k l|k|sid u|n|sid|ms|]; cbn; try by left.
  - destruct (role_at id (wo_state w)) as [r|]; [|by left].
    destruct (decide (ro_updatedAt r < ac_now (wo_state w))); [left; by intros ? [= <-]|right; exists r; split; [done|lia]].
  - destruct (wo_bumps w !! n) as [r|]; [|by left].
    destruct (timely_or_stale r (wo_state w)); [left; by intros ? [= <-]|right; by exists r].
  - destruct (wo_loads w !! n) as [[k l]|]; [|by left]. destruct (load_role l) as [r|] eqn:Hl; [|left; intros ? ? ? [= <- <-]; by rewrite Hl].
    destruct (timely_or_stale r (wo_state w)); [left; intros ? ? ? [= <- <-]; rewrite Hl; by intros [= <-]|right; by exists k, l, r].
  - destruct (wo_logins w !! n) as [[sid [u r]]|]; [|by left].
    destruct (timely_or_stale r (wo_state w)); [left; by intros ? ? ? [= <- <- <-]|right; by exists sid, u, r].
  - set (bad := λ sn, match role_at (sn_id sn) (wo_state w) with Some r => sn ≠ snapshot_of r | None => False end).
    assert (∀ sn, Decision (bad sn)) as Hdec by (intros sn; unfold bad; destruct (role_at _ _); apply _).
    destruct (decide (Exists bad (snaps w))) as [Hx|Hx].
    + right. apply Exists_exists in Hx as (sn & Hin%elem_snaps & Hbad). unfold bad in Hbad.
      destruct (role_at (sn_id sn) _) as [r|] eqn:Hr; [by exists sn, r|done].
    + left. intros sn Hin%elem_snaps r Hr. apply dec_stable. intros Hne. apply Hx, Exists_exists. exists sn. split; [done|].
      unfold bad. by rewrite Hr.
Qed.

(** ** Steps that keep the roles *)

Lemma sync_step w w' :
  in_sync w → tables_ok (wo_state w') →
  ac_roles (wo_state w') = ac_roles (wo_state w) → (ac_nextId (wo_state w) ≤ ac_nextId (wo_state w'))%nat →
  (∀ sn, snap_in w' sn → snap_in w sn ∨ known (wo_state w) (sn_id sn) ∧ current (wo_state w) sn) →
  (∀ r, r ∈ ac_roles (wo_state w) → announced w r → announced w' r) →
  (∀ r, row_in w' r → row_in w r ∨ r ∈ ac_roles (wo_state w)) →
  in_sync w'.
Proof.
  intros [Hok Hkn Hsn Hrow] Hok' Er En Hs Ha Hr. assert (∀ id, role_at id (wo_state w') = role_at id (wo_state w)) as Hat.
  { intros id. unfold role_at. by rewrite Er. }
  constructor; [done| | |].
  - intros sn Hin. apply (known_mono (wo_state w)); [lia|]. destruct (Hs sn Hin) as [?|[? _]]; [by apply Hkn|done].
  - intros sn r Hin. rewrite Hat. intros Hf. destruct (Hs sn Hin) as [Hold|[_ Hc]]; [|left; by apply Hc].
    destruct (Hsn sn r Hold Hf) as [?|[? Hann]]; [by left|]. right. split; [done|]. apply Ha; [|done]. by destruct (role_at_some _ _ _ Hf).
  - intros r Hin. apply (known_mono (wo_state w)); [lia|]. destruct (Hr r Hin) as [?|?]; [by apply Hrow|]. by apply (tb_known _ Hok).
Qed.

(** Stamping the version of a current row announces it. *)
Lemma announced_stamp w w' r0 :
  tables_ok (wo_state w) → timely r0 (wo_state w) →
  ac_versions (wo_state w') = mset (ro_id r0) (ro_updatedAt r0) (ac_versions (wo_state w)) →
  (∀ r, r ∈ wo_bumps w → r ≠ r0 → r ∈ wo_bumps w') →
  ∀ r, r ∈ ac_roles (wo_state w) → announced w r → announced w' r.
Proof.
  intros Hok Ht Ev Hb r Hr. unfold announced. rewrite Ev, mget_mset. case_decide as Hid.
  - intros _. left. pose proof (role_at_elem r _ Hok Hr) as Hat. rewrite Hid in Hat. by rewrite (Ht r Hat).
  - intros [?|Hin]; [by left|]. right. apply Hb; [done|]. intros ->. done.
Qed.

Lemma timely_snapshot r s : timely r s → current s (snapshot_of r).
Proof. intros Ht r' Hr'. by rewrite (Ht r' Hr'). Qed.

Lemma elem_alter {A} (f : A → A) k (l : list A) x : x ∈ alter f k l → x ∈ l ∨ ∃ y, y ∈ l ∧ x = f y.
Proof.
  intros [i Hi]%list_elem_of_lookup. destruct (decide (i = k)) as [->|Hne].
  - rewrite list_lookup_alter_eq in Hi. apply fmap_Some in Hi as (y & Hy & ->). right. exists y.
    split; [by eapply list_elem_of_lookup_2|done].
  - rewrite list_lookup_alter_ne in Hi by done. left. by eapply list_elem_of_lookup_2.
Qed.
Lemma elem_mset_map (m : JsMap string RoleSession) k v a b : (a, b) ∈ mset k v m → (a, b) ∈ m ∨ b = v.
Proof.
  induction m as [|[k' v'] m IH]; cbn [mset].
  - intros [= -> ->]%list_elem_of_singleton. by right.
  - case_decide; intros [Hx|Hx]%elem_of_cons.
    + injection Hx as -> ->. by right.
    + left. by right.
    + left. rewrite Hx. by left.
    + destruct (IH Hx); [left; by right|by right].
Qed.
Lemma elem_delete {A} n (l : list A) x : x ∈ list_delete n l → x ∈ l.
Proof. revert n. induction l as [|a l IH]; intros [|n]; cbn; [done..|by right|]. intros [->|Hx]%elem_of_cons; [by left|right; by eapply IH]. Qed.
Lemma elem_delete_ne {A} n (l : list A) x y : l !! n = Some y → x ∈ l → x ≠ y → x ∈ list_delete n l.
Proof.
  revert n. induction l as [|a l IH]; intros [|n]; cbn; [done..| |].
  - intros [= ->] [->|Hx]%elem_of_cons; done.
  - intros Hy [->|Hx]%elem_of_cons Hne; [by left|]. right. by eapply IH.
Qed.

(** The snapshots after the use of a row. *)
Lemma stamp_request_snaps w k f sn r :
  (∀ q, rs_snapshot (rq_session (f q)) = Some (snapshot_of r)) →
  ∀ s', ac_sessions s' = ac_sessions (wo_state w) → ac_requests s' = alter f k (ac_requests (wo_state w)) →
  ∀ b l g, snap_in (mkWorld (save_session k s').1 b l g) sn → snap_in w sn ∨ sn = snapshot_of r.
Proof.
  intros Hx s' Es Eq b l g Hin.
  assert (∀ q, q ∈ ac_requests s' → rs_snapshot (rq_session q) = Some sn → snap_in w sn ∨ sn = snapshot_of r) as Hq.
  { intros q. rewrite Eq. intros [Hq|(q' & _ & ->)]%elem_alter Hsn; [left; right; by exists q|].
    right. rewrite Hx in Hsn. congruence. }
  destruct Hin as [(sid & y & Hin & Hy)|(q & Hin & Hy)]; cbn [wo_state] in Hin.
  - unfold save_session, hmodify in Hin. cbn [fst] in Hin. destruct (ac_requests s' !! k) as [q|] eqn:Hk.
    + cbn in Hin. apply elem_mset_map in Hin as [Hin| ->]; [left; left; rewrite Es in Hin; by exists sid, y|].
      apply (Hq q); [by eapply list_elem_of_lookup_2|done].
    + rewrite Es in Hin. left. left. by exists sid, y.
  - apply (Hq q); [|done]. unfold save_session, hmodify in Hin. cbn [fst] in Hin. by destruct (ac_requests s' !! k).
Qed.

Lemma finish_shape k l r s :
  load_role l = Some r →
  ∃ f, (∀ q, rs_snapshot (rq_session (f q)) = Some (snapshot_of r)) ∧
    finish_load k l s = (save_session k (set_requests (alter f k (ac_requests s)) (bumped (ro_id r) (ro_updatedAt r) s))).1.
Proof.
  destruct l as [[r'|]|[[u r']|]]; cbn [load_role fmap option_fmap option_map snd]; try done; intros [= ->].
  - eexists (λ q, set_req_session (mkRoleSession (rs_userId (rq_session q)) (rs_roleId (rq_session q))
      (Some (snapshot_of r)) (Some (ro_name r))) q). split; [done|]. reflexivity.
  - eexists (λ q, set_req_session (mkRoleSession (rs_userId (rq_session q)) (Some (xu_roleId u))
      (Some (snapshot_of r)) (Some (ro_name r))) q). split; [done|]. reflexivity.
Qed.
Lemma finish_none k l s : load_role l = None → finish_load k l s = s.
Proof. destruct l as [[r|]|[[u r]|]]; done. Qed.

Lemma save_frame k s :
  ac_roles (save_session k s).1 = ac_roles s ∧ ac_nextId (save_session k s).1 = ac_nextId s ∧
  ac_versions (save_session k s).1 = ac_versions s ∧ ac_requests (save_session k s).1 = ac_requests s.
Proof. unfold save_session, hmodify. cbn [fst]. by destruct (ac_requests s !! k). Qed.

Lemma row_less w w' r :
  (∀ x, x ∈ wo_bumps w' → x ∈ wo_bumps w) → (∀ x, x ∈ wo_loads w' → x ∈ wo_loads w) →
  (∀ x, x ∈ wo_logins w' → x ∈ wo_logins w) → row_in w' r → row_in w r.
Proof.
  intros Hb Hl Hg [?|[(k & l & ? & ?)|(sid & u & ?)]]; [left|right; left; exists k, l|right; right; exists sid, u]; auto.
Qed.

Lemma finish_sync n w : in_sync w → world_op_ok (WFinish n) w → in_sync (world_step (WFinish n) w).
Proof.
  intros Hw Hop. pose proof (world_tables (WFinish n) w (sy_tables _ Hw)) as Hok'. revert Hok'. cbn [world_step].
  destruct (wo_loads w !! n) as [[k l]|] eqn:Hn; [|done]. cbn [wo_state]. intros Hok'.
  destruct (load_role l) as [r|] eqn:Hl.
  - pose proof (Hop k l r Hn Hl) as Ht. destruct (finish_shape k l r (wo_state w) Hl) as (f & Hf & Hs). rewrite Hs in Hok' |- *.
    destruct (save_frame k (set_requests (alter f k (ac_requests (wo_state w))) (bumped (ro_id r) (ro_updatedAt r) (wo_state w))))
      as (Er & En & Ev & Eq).
    assert (known (wo_state w) (ro_id r)) as Hk.
    { apply (sy_rows _ Hw). right. left. exists k, l. split; [by eapply list_elem_of_lookup_2|done]. }
    apply (sync_step w); cbn [wo_state]; [done|done|by rewrite Er|by rewrite En| | |].
    + intros sn Hin. eapply stamp_request_snaps in Hin as [Hin| ->]; [by left| |exact Hf|done|done].
      right. split; [done|by apply timely_snapshot].
    + apply (announced_stamp w _ r); [apply Hw|done|exact Ev|done].
    + intros r' Hin. left. eapply row_less; [..|exact Hin]; cbn; [done| |done]. intros x. apply elem_delete.
  - rewrite (finish_none k l _ Hl) in *. apply (sync_step w); cbn [wo_state]; try done; [by left|].
    intros r' Hin. left. eapply row_less; [..|exact Hin]; cbn; [done| |done]. intros x. apply elem_delete.
Qed.

Lemma login_sync n w : in_sync w → world_op_ok (WLogin n) w → in_sync (world_step (WLogin n) w).
Proof.
  intros Hw Hop. pose proof (world_tables (WLogin n) w (sy_tables _ Hw)) as Hok'. revert Hok'. cbn [world_step].
  destruct (wo_logins w !! n) as [[sid [u r]]|] eqn:Hn; [|done]. cbn [wo_state]. intros Hok'.
  pose proof (Hop sid u r Hn) as Ht.
  assert (known (wo_state w) (ro_id r)) as Hk.
  { apply (sy_rows _ Hw). right. right. exists sid, u. by eapply list_elem_of_lookup_2. }
  apply (sync_step w); cbn [wo_state]; [done|done|done|done| | |].
  - intros sn [(sid' & x & Hin & Hx)|(q & Hin & Hx)]; [|left; right; by exists q].
    cbn in Hin. apply elem_mset_map in Hin as [Hin| ->]; [left; left; by exists sid', x|].
    right. cbn in Hx. injection Hx as <-. split; [done|by apply timely_snapshot].
  - apply (announced_stamp w _ r); [apply Hw|done|done|done].
  - intros r' Hin. left. eapply row_less; [..|exact Hin]; cbn; [done|done|]. intros x. apply elem_delete.
Qed.

Lemma bump_sync n w : in_sync w → world_op_ok (WBump n) w → in_sync (world_step (WBump n) w).
Proof.
  intros Hw Hop. pose proof (world_tables (WBump n) w (sy_tables _ Hw)) as Hok'. revert Hok'. cbn [world_step].
  destruct (wo_bumps w !! n) as [r|] eqn:Hn; [|done]. rewrite update_finish_run. cbn [wo_state fst]. intros Hok'.
  apply (sync_step w); cbn [wo_state]; [done|done|done|done|by left| |].
  - apply (announced_stamp w _ r); [apply Hw|by apply Hop|done|]. intros r' Hr' Hne. by apply (elem_delete_ne n _ r' r).
  - intros r' Hin. left. eapply row_less; [..|exact Hin]; cbn; [|done..]. intros x. apply elem_delete.
Qed.

(** The check of a request only ever fills an empty version. *)
Lemma begin_state k s :
  (resolve_begin k s).1 = s ∨
  ∃ q sn, ac_requests s !! k = Some q ∧ rs_snapshot (rq_session q) = Some sn ∧ mget (sn_id sn) (ac_versions s) = None ∧
    (resolve_begin k s).1 = bumped (sn_id sn) (sn_updatedAt sn) s.
Proof.
  unfold resolve_begin, hbind, request_session. destruct (ac_requests s !! k) as [q|] eqn:Hq; [|by left].
  destruct (rs_userId (rq_session q)) as [u|]; [|by left]. destruct (negb (Js.truthy u)); [by left|].
  destruct (rs_roleId (rq_session q)) as [r|]; [|by left]. destruct (negb (Js.truthy r)); [by left|].
  destruct (rs_snapshot (rq_session q)) as [sn|] eqn:Hs; [|by left]. destruct (negb (String.eqb _ _)); [by left|].
  unfold hgets. destruct (mget (sn_id sn) (ac_versions s)) as [v|] eqn:Hv; [destruct (v =? _); by left|].
  right. by exists q, sn.
Qed.

Lemma begin_sync k w : in_sync w → in_sync (world_step (WBegin k) w).
Proof.
  intros Hw. pose proof (world_tables (WBegin k) w (sy_tables _ Hw)) as Hok'. revert Hok'.
  change (world_step (WBegin k) w) with (mkWorld (resolve_begin k (wo_state w)).1 (wo_bumps w) (wo_loads w) (wo_logins w)).
  destruct (begin_state k (wo_state w)) as [-> |(q & sn & Hq & Hs & Hv & ->)]; intros Hok'.
  - destruct w. exact Hw.
  - apply (sync_step w); cbn [wo_state]; [done|done|done|done|by left| |by left].
    intros r Hr. unfold announced. cbn [wo_state bumped set_versions ac_versions]. rewrite mget_mset.
    case_decide as Hid; [|done]. rewrite Hid, Hv. intros [?|?]; [done|by right].
Qed.

(** Steps that change neither rows nor versions, and only move snapshots around. *)
Lemma quiet_sync w w' :
  in_sync w → rows (wo_state w') = rows (wo_state w) → ac_versions (wo_state w') = ac_versions (wo_state w) →
  (∀ r, r ∈ wo_bumps w → r ∈ wo_bumps w') → (∀ sn, snap_in w' sn → snap_in w sn) →
  (∀ r, row_in w' r → row_in w r ∨ r ∈ ac_roles (wo_state w)) → in_sync w'.
Proof.
  intros Hw Hr Ev Hb Hs Hrow. pose proof Hr as He. injection He as Er _ En.
  apply (sync_step w); [done|by eapply tables_ok_ext; [exact Hr|apply Hw]|done|by rewrite En|by left; apply Hs| |done].
  intros r _ [?|?]; [left; by rewrite Ev|right; auto].
Qed.

Lemma elem_mdelete (m : JsMap string RoleSession) k a : a ∈ mdelete k m → a ∈ m.
Proof. unfold mdelete. by intros [? _]%elem_filter. Qed.

Lemma quiet_op_sync op w :
  match op with WOpen _ | WRead _ | WGate _ _ | WSave _ | WLoginRead _ _ | WLogout _ | WTick _ => True | _ => False end →
  in_sync w → in_sync (world_step op w).
Proof.
  intros Hop Hw. destruct op; try done; clear Hop.
  - apply (quiet_sync w); [done|done|done|done| |by left].
    intros sn [?|(q & Hq & Hs)]; [by left|]. cbn in Hq. apply elem_of_app in Hq as [Hq| ->%list_elem_of_singleton]; [right; by exists q|].
    cbn in Hs. destruct (mget sid (ac_sessions (wo_state w))) as [x|] eqn:Hx; [|done]. left. exists sid, x. split; [by apply mget_elem|done].
  - cbn [world_step]. destruct (read_row k (wo_state w)) as [l|] eqn:Hl; [|done].
    apply (quiet_sync w); [done|done|done|done|done|].
    intros r [Hr|[(k' & l' & Hin & Hr)|Hr]]; [left; by left| |left; right; by right].
    apply elem_of_cons in Hin as [[= -> ->]|Hin]; [|left; right; left; by exists k', l']. right.
    unfold read_row in Hl. destruct (ac_requests (wo_state w) !! k) as [q|]; [|done].
    destruct (rs_roleId (rq_session q)) as [rid|].
    + assert (l = LoadRole (role_at rid (wo_state w))) as -> by (destruct (rs_userId (rq_session q)); congruence). cbn in Hr.
      by destruct (role_at_some _ _ _ Hr).
    + destruct (rs_userId (rq_session q)) as [uid|]; [|done]. injection Hl as <-. cbn in Hr. unfold user_with_role in Hr.
      destruct (user_at uid (wo_state w)) as [u|]; [|done]. destruct (role_at (xu_roleId u) (wo_state w)) as [r'|] eqn:Hr'; [|done].
      injection Hr as ->. by destruct (role_at_some _ _ _ Hr').
  - apply (quiet_sync w); [done|done|done|done| |by left].
    intros sn [?|(q & Hq & Hs)]; [by left|]. cbn in Hq. apply elem_alter in Hq as [Hq|(q' & Hq & ->)]; right; eauto.
  - apply (quiet_sync w); [done|apply framed_state, framed_save|cbn [world_step on_access wo_state]; apply save_frame|done| |by left].
    intros sn [(sid & x & Hin & Hx)|(q & Hq & Hs)]; cbn [world_step on_access wo_state] in *.
    + unfold save_session, hmodify in Hin. cbn [fst] in Hin. destruct (ac_requests (wo_state w) !! k) as [q|] eqn:Hk; [|left; by exists sid, x].
      cbn in Hin. apply elem_mset_map in Hin as [Hin| ->]; [left; by exists sid, x|]. right. exists q. split; [by eapply list_elem_of_lookup_2|done].
    + right. exists q. split; [|done]. by destruct (save_frame k (wo_state w)) as (_ & _ & _ & <-).
  - cbn [world_step]. destruct (user_with_role userId (wo_state w)) as [[u r]|] eqn:Hu; [|done].
    apply (quiet_sync w); [done|done|done|done|done|].
    intros r' [Hr|[Hr|(sid' & u' & Hin)]]; [left; by left|left; right; by left|].
    apply elem_of_cons in Hin as [[= -> -> ->]|Hin]; [|left; right; right; by exists sid', u']. right. unfold user_with_role in Hu.
    destruct (user_at userId (wo_state w)) as [v|]; [|done]. destruct (role_at (xu_roleId v) (wo_state w)) as [r0|] eqn:Hr'; [|done].
    injection Hu as -> ->. by destruct (role_at_some _ _ _ Hr').
  - apply (quiet_sync w); [done|done|done|done| |by left].
    intros sn [(sid' & x & Hin & Hx)|Hq]; [|by right]. left. exists sid', x. split; [exact (elem_mdelete _ _ _ Hin)|done].
  - apply (quiet_sync w); [done|done|done|done|done|by left].
Qed.

Lemma restart_sync w : in_sync w → world_op_ok WRestart w → in_sync (world_step WRestart w).
Proof.
  intros Hw Hop. assert (∀ sn, snap_in (world_step WRestart w) sn → snap_in w sn) as Hs.
  { intros sn [?|(q & Hq & _)]; [by left|by apply elem_of_nil in Hq]. }
  constructor.
  - by eapply tables_ok_ext; [|apply Hw].
  - intros sn Hin. by apply (sy_known _ Hw), Hs.
  - intros sn r Hin Hr. left. by apply (Hop sn (Hs sn Hin)).
  - intros r [Hr|[(k & l & Hin & _)|(sid & u & Hin)]]; [by apply elem_of_nil in Hr|by apply elem_of_nil in Hin|by apply elem_of_nil in Hin].
Qed.

(** ** Steps that edit the roles *)

Lemma role_at_put id f s id' :
  (∀ r, ro_id (f r) = ro_id r) → role_at id' (put_role id f s) = if decide (id' = id) then f <$> role_at id' s else role_at id' s.
Proof.
  intros Hf. unfold role_at. cbn [put_role set_roles ac_roles]. induction (ac_roles s) as [|r l IH]; [by case_decide|].
  rewrite fmap_cons. cbn [List.find]. destruct (role_is id r) eqn:He.
  - assert (role_is id' (f r) = role_is id' r) as -> by (unfold role_is; by rewrite Hf).
    destruct (role_is id' r) eqn:He'; [|exact IH]. apply String.eqb_eq in He, He'. case_decide; [done|congruence].
  - destruct (role_is id' r) eqn:He'; [|exact IH]. apply String.eqb_eq in He'. apply String.eqb_neq in He.
    case_decide; [congruence|done].
Qed.

Lemma edit_sync id i w : in_sync w → world_op_ok (WEdit id i) w → in_sync (world_step (WEdit id i) w).
Proof.
  intros Hw Hop. pose proof (world_tables (WEdit id i) w (sy_tables _ Hw)) as Hok'.
  assert (wo_loads (world_step (WEdit id i) w) = wo_loads w ∧ wo_logins (world_step (WEdit id i) w) = wo_logins w) as [El Eg].
  { cbn [world_step]. destruct (update_commit id i (wo_state w)) as [s' [[r|]|e]]; done. }
  destruct (edit_step id i w (sy_tables _ Hw)) as [[Es Eb]|(b & d & Hb & _ & _ & Es & Eb)].
  { destruct w, (world_step (WEdit id i) _); cbn in *; by subst. }
  set (now := ac_now (wo_state w)) in *. destruct (role_at_some _ _ _ Hb) as [Hin Hid].
  assert (∀ sn, snap_in (world_step (WEdit id i) w) sn ↔ snap_in w sn) as Hs by (intros sn; unfold snap_in; by rewrite Es).
  constructor; [done| | |].
  - intros sn Hsn%Hs. rewrite Es. by apply (sy_known _ Hw).
  - intros sn r Hsn%Hs. rewrite Es, role_at_put by done. unfold announced. rewrite Es, Eb. case_decide as He.
    + rewrite He, Hb. intros [= <-]. right. cbn [apply_data ro_updatedAt]. split; [|right; by left].
      assert (sn_updatedAt sn ≤ ro_updatedAt b) as Hle.
      { destruct (sy_snap _ Hw sn b Hsn) as [Heq|[Hlt _]]; [by rewrite He|by rewrite Heq|lia]. }
      pose proof (Hop b Hb : ro_updatedAt b < now). lia.
    + intros Hr. destruct (sy_snap _ Hw sn r Hsn Hr) as [?|[? [?|?]]]; [by left|right..]; (split; [done|]); [by left|right; by right].
  - intros r Hr. rewrite Es. apply (known_mono (wo_state w)); [done|]. destruct Hr as [Hr|Hr].
    + rewrite Eb in Hr. apply elem_of_cons in Hr as [->|Hr]; [|apply (sy_rows _ Hw); by left].
      cbn [apply_data ro_id]. by apply (tb_known _ (sy_tables _ Hw)).
    + apply (sy_rows _ Hw). right. by rewrite <-El, <-Eg.
Qed.

Lemma find_app {A} p (l l' : list A) : List.find p (l ++ l') = match List.find p l with Some x => Some x | None => List.find p l' end.
Proof. induction l as [|a l IH]; [done|]. cbn. by destruct (p a). Qed.

Lemma user_call_frame c s :
  match c with CCreateRole _ | CDeleteRole _ => True | _ =>
    ac_versions (call c s) = ac_versions s ∧ ac_sessions (call c s) = ac_sessions s ∧ ac_requests (call c s) = ac_requests s ∧
    (ac_nextId s ≤ ac_nextId (call c s))%nat end.
Proof.
  assert (∀ id f s, ac_versions (update_user id f s).1 = ac_versions s ∧ ac_sessions (update_user id f s).1 = ac_sessions s ∧
    ac_requests (update_user id f s).1 = ac_requests s ∧ (ac_nextId s ≤ ac_nextId (update_user id f s).1)%nat) as Hup.
  { intros id f s0. destruct (update_user_cases id f s0) as [[e ->]| ->]; done. }
  destruct c; cbn [call]; try done.
  - unfold dismissRoleReview, hbind, hgets. destruct (user_at id s) as [u|]; [|done].
    destruct (xu_needsRoleReview u); [apply Hup|done].
  - unfold createUser, insert_user, hbind, hget, hput, hguard, hret, hthrow. cbv beta iota zeta.
    destruct (negb (CreateUserSchema b)); [done|]. destruct (existsb _ (ac_users s)); [done|].
    destruct (bool_decide (role_at (cu_roleId b) s = None)); [done|]. cbn [set_draws ac_users].
    destruct (existsb _ (ac_users s)); [done|]. destruct (bool_decide _); [done|]. cbn. split_and!; [done..|lia].
  - unfold putUserRole, hbind. destruct (role_change_checks self id roleId s) as [s1 [[]|e]] eqn:Hc;
      apply role_change_checks_readonly in Hc as ->; [|done].
    destruct (role_change_write_cases id roleId s) as [[e ->]|(r & _ & ->)]; done.
  - unfold putUserRegions, hbind, hgets, hguard. destruct (negb (RegionTagsSchema tags)); [done|].
    cbv beta iota delta [hret]. destruct (bool_decide (user_at id s = None)); [done|].
    pose proof (Hup id (with_regions (foldl clean_tag ([], []) tags).2) s) as Hr.
    by destruct (update_user id _ s) as [s1 [[]|e]].
  - unfold deleteUser, hbind. destruct (delete_checks self id s) as [s1 [[]|e]] eqn:Hc;
      apply delete_checks_readonly in Hc as ->; [|done].
    destruct (delete_write_cases id s) as [[e ->]| ->]; done.
Qed.

Lemma call_sync c w : in_sync w → in_sync (world_step (WCall c) w).
Proof.
  intros Hw. pose proof (world_tables (WCall c) w (sy_tables _ Hw)) as Hok'.
  destruct (match c with CCreateRole _ | CDeleteRole _ => true | _ => false end) eqn:Hc.
  - destruct c; try done; revert Hok'.
    + change (world_step (WCall (CCreateRole i)) w) with
        (mkWorld (createRole i (wo_state w)).1 (wo_bumps w) (wo_loads w) (wo_logins w)).
      destruct (createRole_cases i (wo_state w)) as [[e ->]|(n & de & t & _ & Hcol & _ & _ & ->)]; [destruct w; intros _; exact Hw|].
      cbn [fst]. set (r := mkRole _ _ _ _ _ _ _ _ _). intros Hok'. constructor; [done| | |].
      * intros sn Hsn. apply (known_mono (wo_state w)); [cbn; lia|]. by apply (sy_known _ Hw).
      * intros sn r' Hsn Hr'. assert (role_at (sn_id sn) (wo_state w) = Some r') as Hold.
        { unfold role_at in *. cbn in Hr'. rewrite find_app in Hr'. destruct (List.find (role_is (sn_id sn)) (ac_roles (wo_state w))); [done|].
          cbn [List.find] in Hr'. destruct (role_is (sn_id sn) r) eqn:He; [|done]. apply String.eqb_eq in He.
          by destruct (sy_known _ Hw sn Hsn (ac_nextId (wo_state w))). }
        destruct (sy_snap _ Hw sn r' Hsn Hold) as [?|[? Ha]]; [by left|]. right. split; [done|].
        destruct Ha as [Hv|?]; [left|by right]. cbn. rewrite mget_mset_ne; [done|]. intros He.
        destruct (role_at_some _ _ _ Hold) as [Hin _].
        by apply (tb_known _ (sy_tables _ Hw) r' Hin (ac_nextId (wo_state w))).
      * intros r' Hr. apply (known_mono (wo_state w)); [cbn; lia|]. by apply (sy_rows _ Hw).
    + change (world_step (WCall (CDeleteRole id)) w) with
        (mkWorld (deleteRole id (wo_state w)).1 (wo_bumps w) (wo_loads w) (wo_logins w)).
      destruct (deleteRole_cases id (wo_state w)) as [[e ->]|(b & _ & _ & _ & ->)]; [destruct w; intros _; exact Hw|].
      cbn [fst]. intros Hok'. constructor; [done|by apply (sy_known _ Hw)| |by apply (sy_rows _ Hw)].
      intros sn r Hsn Hr. apply (sy_snap _ Hw sn r Hsn). destruct (role_at_some _ _ _ Hr) as [Hin Hid].
      cbn in Hin. apply elem_filter in Hin as [Hin _]. rewrite <-Hid. by apply role_at_elem; [apply Hw|].
  - pose proof (user_call_roles c (wo_state w)) as Er. pose proof (user_call_frame c (wo_state w)) as Hf.
    assert (ac_roles (call c (wo_state w)) = ac_roles (wo_state w) ∧ ac_versions (call c (wo_state w)) = ac_versions (wo_state w) ∧
      ac_sessions (call c (wo_state w)) = ac_sessions (wo_state w) ∧ ac_requests (call c (wo_state w)) = ac_requests (wo_state w) ∧
      (ac_nextId (wo_state w) ≤ ac_nextId (call c (wo_state w)))%nat) as (Hr & Hv & Hs & Hq & Hn) by (by destruct c).
    apply (sync_step w); try done.
    + intros sn Hsn. left. unfold snap_in in *. cbn [world_step on_access wo_state] in Hsn. by rewrite Hs, Hq in Hsn.
    + intros r _. unfold announced. cbn [world_step on_access wo_state wo_bumps]. by rewrite Hv.
    + by left.
Qed.

Lemma step_sync op w : in_sync w → world_op_ok op w → in_sync (world_step op w).
Proof.
  intros Hw Hop. destruct op; try by apply quiet_op_sync.
  - by apply call_sync.
  - by apply edit_sync.
  - by apply bump_sync.
  - by apply begin_sync.
  - by apply finish_sync.
  - by apply login_sync.
  - by apply restart_sync.
Qed.

(** A process that starts without sessions. *)
Definition boot (s : AccessState) : World := mkWorld (set_sessions [] (set_requests [] s)) [] [] [].
Lemma boot_sync s : tables_ok s → in_sync (boot s).
Proof.
  intros Hok. constructor.
  - by apply (tables_ok_ext s).
  - intros sn [(sid & x & Hin & _)|(q & Hin & _)]; by apply elem_of_nil in Hin.
  - intros sn r [(sid & x & Hin & _)|(q & Hin & _)]; by apply elem_of_nil in Hin.
  - intros r [Hin|[(k & l & Hin & _)|(sid & u & Hin)]]; by apply elem_of_nil in Hin.
Qed.

(** Either no step of a run broke the rule, and it ends in sync, or one did. *)
Lemma run_sync ops w0 :
  in_sync w0 →
  in_sync (world_run ops w0) ∨ ∃ pre op post, ops = pre ++ op :: post ∧ overtakes op (world_run pre w0).
Proof.
  intros Hw0. induction ops as [|op ops IH] using rev_ind; [by left|].
  destruct IH as [Hw|(pre & o & post & -> & Ho)].
  - unfold world_run. rewrite foldl_app. cbn [foldl].
    destruct (op_ok_or_overtakes op (world_run ops w0)); [left; by apply step_sync|right; by exists ops, op, []].
  - right. exists pre, o, (post ++ [op]). by rewrite <-app_assoc.
Qed.

(** ** The decision *)

Lemma refresh_run k q r s :
  ac_requests s !! k = Some q →
  ∃ s' q', refresh_finish k (Some r) s = (s', Ok (Some (snapshot_of r))) ∧ ac_requests s' !! k = Some q' ∧
    rs_snapshot (rq_session q') = Some (snapshot_of r).
Proof.
  intros Hq. set (f := λ q, set_req_session (mkRoleSession (rs_userId (rq_session q)) (rs_roleId (rq_session q))
      (Some (snapshot_of r)) (Some (ro_name r))) q).
  exists (save_session k (set_requests (alter f k (ac_requests s)) (bumped (ro_id r) (ro_updatedAt r) s))).1, (f q).
  split_and!; [reflexivity| |done].
  destruct (save_frame k (set_requests (alter f k (ac_requests s)) (bumped (ro_id r) (ro_updatedAt r) s))) as (_ & _ & _ & ->).
  cbn [set_requests ac_requests]. by rewrite list_lookup_alter_eq, Hq.
Qed.

(** A signed-in request whose session names the role [r] of the table. *)
Record signed_in (w : World) (k : nat) (r : Role) : Prop := mkSignedIn {
  si_request : ∃ q uid, ac_requests (wo_state w) !! k = Some q ∧ rs_userId (rq_session q) = Some uid ∧ Js.truthy uid = true ∧
    rs_roleId (rq_session q) = Some (ro_id r);
  si_id : Js.truthy (ro_id r) = true;
  si_role : role_at (ro_id r) (wo_state w) = Some r;
}.

(** An edit of [r] is committed and not yet announced. *)
Definition unannounced (w : World) (r : Role) : Prop := ∃ b, b ∈ wo_bumps w ∧ ro_id b = ro_id r.

Lemma resolve_current w k r :
  in_sync w → signed_in w k r → ¬ unannounced w r →
  ∃ s' q', resolveSnapshot k (wo_state w) = (s', Ok (Some (snapshot_of r))) ∧ ac_requests s' !! k = Some q' ∧
    rs_snapshot (rq_session q') = Some (snapshot_of r).
Proof.
  intros Hw [(q & uid & Hq & Hu & Htu & Hrid) Htr Hr] Hb.
  assert (∃ s' q', (let! row := hgets (role_at (ro_id r)) in refresh_finish k row) (wo_state w) = (s', Ok (Some (snapshot_of r))) ∧
    ac_requests s' !! k = Some q' ∧ rs_snapshot (rq_session q') = Some (snapshot_of r)) as Hload.
  { unfold hbind at 1, hgets at 1. rewrite Hr. by apply (refresh_run k q). }
  unfold resolveSnapshot, resolve_begin. unfold hbind at 1 2, request_session at 1. rewrite Hq, Hu, Htu, Hrid, Htr. cbn [negb].
  destruct (rs_snapshot (rq_session q)) as [sn|] eqn:Hs; [|exact Hload].
  destruct (String.eqb_spec (sn_id sn) (ro_id r)) as [He|Hne]; cbn [negb]; [|exact Hload].
  assert (sn = snapshot_of r ∨ sn_updatedAt sn < ro_updatedAt r ∧ mget (ro_id r) (ac_versions (wo_state w)) = Some (ro_updatedAt r)) as Hcur.
  { destruct (sy_snap _ Hw sn r) as [?|[Hlt [?|Hin]]]; [| |by left|by right|].
    - right. exists q. split; [by eapply list_elem_of_lookup_2|done].
    - by rewrite He.
    - destruct Hb. by exists r. }
  unfold hbind at 1, hgets at 1. destruct (mget (sn_id sn) (ac_versions (wo_state w))) as [v|] eqn:Hv.
  - destruct (Z.eqb_spec v (sn_updatedAt sn)) as [Hveq|]; [|exact Hload].
    destruct Hcur as [->|[Hlt Hm]]; [by exists (wo_state w), q|]. rewrite He, Hm in Hv. injection Hv as <-. lia.
  - destruct Hcur as [->|[Hlt Hm]]; [|by rewrite He, Hm in Hv].
    exists (bumped (ro_id r) (ro_updatedAt r) (wo_state w)), q. done.
Qed.

(** [requirePermission] passes exactly when the row grants the level, is refused
    with 403 otherwise, and the later inline checks agree with the row. *)
Definition decides_by (w : World) (k : nat) (r : Role) (key : string) (level : AccessLevel) : Prop :=
  ∃ s', requirePermission k key level (wo_state w) =
      (s', if rankMeets (level_of (jget key (Some (ro_permissions r)))) level then Ok tt else Throw (lacks key level)) ∧
    ∃ q, ac_requests s' !! k = Some q ∧
      ∀ key' level', hasPermission (rq_session q) key' level' =
        rankMeets (grant key' (normalizePermissions (Some (ro_permissions r)))) level'.

Lemma in_sync_decides w k r key level :
  in_sync w → signed_in w k r → ¬ unannounced w r → isValidFunctionKey key = true → decides_by w k r key level.
Proof.
  intros Hw Hset Hann Hkey. destruct (resolve_current w k r Hw Hset Hann) as (s1 & q & Hrun & Hq & Hs).
  unfold decides_by, requirePermission. rewrite Hkey. cbn [negb]. unfold hbind at 1, hguard at 1, hret at 1. hrun Hrun.
  unfold gate, check_level. unfold hbind at 1, hguard at 1. cbn [snapshot_of sn_permissions]. rewrite grant_normalize, Hkey.
  destruct (rankMeets (level_of (jget key (Some (ro_permissions r)))) level) eqn:Hm; cbn [negb].
  - eexists. split; [reflexivity|]. cbn [hret fst set_requests ac_requests]. rewrite list_lookup_alter_eq, Hq. eexists. split; [reflexivity|].
    intros key' level'. unfold hasPermission. cbn [set_level rq_session]. by rewrite Hs.
  - exists s1. split; [reflexivity|]. exists q. split; [done|]. intros key' level'. unfold hasPermission. by rewrite Hs.
Qed.

(** C36: the guards decide by the role as it is stored.  After any sequence of
    steps whatever - edits and their announcements, requests and sign-ins split at
    their reads, saves, logouts, restarts - a signed-in request passes
    [requirePermission] exactly when the stored row of its session's role grants
    the level, is refused with 403 otherwise, and the later inline checks of the
    handler agree with the row; unless an edit of that role is committed and not
    yet announced, or some step before [overtakes]: it edits a role twice within
    a millisecond, stamps a version from a row edited since it was read, or
    restarts the process over a session with an outdated copy. *)
Theorem guard_follows_role s0 ops k r key level :
  tables_ok s0 → signed_in (world_run ops (boot s0)) k r → isValidFunctionKey key = true →
  decides_by (world_run ops (boot s0)) k r key level ∨
  unannounced (world_run ops (boot s0)) r ∨
  ∃ pre op post, ops = pre ++ op :: post ∧ overtakes op (world_run pre (boot s0)).
Proof.
  intros Hok Hset Hkey. destruct (run_sync ops (boot s0) (boot_sync s0 Hok)) as [Hw|Hx]; [|by do 2 right].
  destruct (decide (Exists (λ b, ro_id b = ro_id r) (wo_bumps (world_run ops (boot s0))))) as [Hb|Hb].
  - right. left. by apply Exists_exists in Hb.
  - left. apply in_sync_decides; [done|done| |done]. intros (b & Hin & He). apply Hb, Exists_exists. by exists b.
Qed.
End guard.

(** ** Concrete runs *)

Definition may_write_subnets (s : AccessState) : bool := is_ok (requirePermission 0 "subnets" WriteAccess s).2.

#[local] Existing Instance toy_lib.
#[local] Existing Instance any_uuid.

Definition carol_world (ops : list WorldOp) : World := world_run ops (boot seed_state).
Definition cut_row : Role :=
  default net_role (role_at "r-net" (wo_state (carol_world (carol_signs_in ++ role_cut_down)))).

(** No step of her run overtakes another. *)
Lemma carol_clean pre op post :
  carol_signs_in ++ role_cut_down = pre ++ op :: post → ¬ overtakes op (world_run pre (boot seed_state)).
Proof.
  assert (∀ r s, role_at (ro_id r) s = Some r → ¬ stale_row r s) as Hfresh by (intros r s Hr (r' & Hr' & Hne); congruence).
  intros He. destruct pre as [|? pre]; injection He as <- He; [intros []|].
  destruct pre as [|? pre]; injection He as <- He.
  { intros (sid & u & r & Hr & Hs). vm_compute in Hr. injection Hr as <- <- <-. revert Hs. apply Hfresh. by vm_compute. }
  do 2 (destruct pre as [|? pre]; injection He as <- He; [by intros []|]).
  destruct pre as [|? pre]; injection He as <- He.
  { intros (r & Hr & Hle). vm_compute in Hr. injection Hr as <-. by vm_compute in Hle. }
  destruct pre as [|? pre]; injection He as <- He; [|by destruct pre].
  intros (r & Hr & Hs). vm_compute in Hr. injection Hr as <-. revert Hs. apply Hfresh. by vm_compute.
Qed.

(** She could write subnets before, and the guard refuses her now. *)
Lemma guard_follows_role_witness :
  may_write_subnets (wo_state (carol_world carol_signs_in)) = true ∧
  (requirePermission 0 "subnets" WriteAccess (wo_state (carol_world (carol_signs_in ++ role_cut_down)))).2 =
    Throw (lacks "subnets" WriteAccess).
Proof.
  split; [by vm_compute|].
  destruct (guard_follows_role seed_state (carol_signs_in ++ role_cut_down) 0 cut_row "subnets" WriteAccess
    seed_tables) as [(s' & Hrun & _)|[(b & Hb & _)|(pre & op & post & He & Ho)]].
  - constructor; [|by vm_compute|by vm_compute]. eexists _, _. split_and!; by vm_compute.
  - by vm_compute.
  - unfold carol_world. rewrite Hrun. by vm_compute.
  - vm_compute in Hb. by apply elem_of_nil in Hb.
  - by destruct (carol_clean _ _ _ He).
Defined.

(** A restart forgets the versions; the first request afterwards is trusted, and
    its old copy of the role becomes the known version. *)
Theorem restart_trusts_stale :
  let s := wo_state (carol_world ([WLoginRead "s1" "carol"; WLogin 0] ++ role_cut_down ++ [WRestart; WOpen "s1"])) in
  may_write_subnets s = true ∧
  (ro_permissions <$> role_at "r-net" s) = Some (matrix_json (normalizePermissions (Some (JObj [("subnets", JStr "read")])))) ∧
  mget "r-net"%string (ac_versions (requirePermission 0 "subnets" WriteAccess s).1) = Some 0.
Proof. by vm_compute. Qed.

(** A sign-in that read the role before the edit and ends after it puts the old
    version back, and passes with the rights the role no longer has. *)
Theorem overtaken_sign_in_keeps_old_rights :
  let s := wo_state (carol_world ([WLoginRead "s1" "carol"] ++ role_cut_down ++ [WLogin 0; WOpen "s1"])) in
  may_write_subnets s = true ∧ mget "r-net"%string (ac_versions s) = Some 0.
Proof. by vm_compute. Qed.

(** Deleting a user, or giving it another role, leaves its session as it was. *)
Theorem deleted_user_passes :
  let s := wo_state (carol_world (carol_signs_in ++ [WCall (CDeleteUser (Some "alice"%string) "carol")])) in
  user_at "carol" s = None ∧ may_write_subnets s = true.
Proof. by vm_compute. Qed.


Lemma updateRole_correct_witness :
  names_distinct seed_state ∧ is_ok (updateRole "r-net" cut_down seed_state).2 = true ∧
  ∃ before d, role_at "r-net" seed_state = Some before ∧ data_for "r-net" before cut_down seed_state d.
Proof.
  assert (names_distinct seed_state) as Hnd by apply (tb_names _ seed_tables). split_and!; [exact Hnd|by vm_compute|].
  pose proof (updateRole_correct "r-net" cut_down seed_state Hnd) as Hc.
  assert (is_ok (updateRole "r-net" cut_down seed_state).2 = true) as Hok by (by vm_compute).
  destruct (updateRole "r-net" cut_down seed_state) as [s' [sum|e]]; [|done].
  destruct Hc as (before & d & Hb & _ & Hf & _). by exists before, d.
Defined.

(** A role can be deleted while a session still holds it: the session of a user
    who was moved to another role keeps the deleted one. *)
Theorem deleted_role_passes :
  let w := world_run
    [WCall (CCreateRole (mkCreateRole "ops" None (JObj [("subnets", JStr "write")]) None));
     WCall (CUserRole (Some "alice"%string) "carol" "0"); WLoginRead "s1" "carol"; WLogin 0; WOpen "s1";
     WCall (CUserRole (Some "alice"%string) "carol" "r-idle"); WCall (CDeleteRole "0")] (boot seed_state) in
  role_at "0" (wo_state w) = None ∧ xu_roleId <$> user_at "carol" (wo_state w) = Some "r-idle"%string ∧
  may_write_subnets (wo_state w) = true.
Proof. by vm_compute. Qed.
