(* ===== verification/RoleAdmins.v ===== *)
(** * Nobody locks everybody out

    An admin-equivalent user may edit both users and roles.  The handlers of
    users and the creation and deletion of roles keep at least one; the edit of a
    role, and two handlers that overlap, need not. *)

From S2P Require Import Prelude Http JsColl Login MonitorSettings Tokens Roles RolesProofs RoleSessions RoleGuard.

Section admins.
Context `{AuthLib} `{ZodLib}.

Definition admin_user (s : AccessState) (u : AccessUser) : Prop :=
  u ∈ ac_users s ∧ ∃ r, role_at (xu_roleId u) s = Some r ∧ admin_equivalent r = true.
Definition has_admin (s : AccessState) : Prop := ∃ u, admin_user s u.

Lemma is_admin_role id s : isAdminEquivalentRole id s = (s, Ok (match role_at id s with Some r => admin_equivalent r | None => false end)).
Proof. reflexivity. Qed.

Lemma admin_ids s u :
  tables_ok s → (xu_roleId u ∈ ro_id <$> List.filter admin_equivalent (ac_roles s) ↔
    ∃ r, role_at (xu_roleId u) s = Some r ∧ admin_equivalent r = true).
Proof.
  intros Hok. split.
  - intros (r & Hid & [Hr Ha]%elem_filter)%list_elem_of_fmap. exists r. split; [|done]. rewrite Hid. by apply role_at_elem.
  - intros (r & Hr & Ha). destruct (role_at_some _ _ _ Hr) as [Hin <-]. apply list_elem_of_fmap_2. by apply elem_filter.
Qed.

(** The count is what it says. *)
Lemma count_admins ex s n :
  tables_ok s → countAdminEquivalentUsers ex s = (s, Ok n) →
  (n ≠ 0%nat ↔ ∃ u, admin_user s u ∧ ex ≠ Some (xu_id u)).
Proof.
  intros Hok [= <-]. set (l := List.filter _ (ac_users s)).
  assert (∀ u, u ∈ l ↔ admin_user s u ∧ ex ≠ Some (xu_id u)) as Hl.
  { intros u. unfold l. rewrite elem_filter, andb_true_iff, negb_true_iff, bool_decide_eq_true, bool_decide_eq_false.
    rewrite (admin_ids s u Hok). unfold admin_user. tauto. }
  split.
  - destruct l as [|u l']; [done|]. intros _. exists u. apply Hl. by left.
  - intros (u & Hu%Hl). destruct l; [by apply elem_of_nil in Hu|done].
Qed.

Lemma user_unique s u v : tables_ok s → u ∈ ac_users s → v ∈ ac_users s → xu_id u = xu_id v → u = v.
Proof.
  intros Hok Hu Hv He. apply list_elem_of_lookup in Hu as [a Ha], Hv as [b Hb].
  assert (a = b) as <-; [|congruence]. eapply (NoDup_lookup _ a b (xu_id u) (tb_userids _ Hok)); rewrite list_lookup_fmap;
    [by rewrite Ha|rewrite Hb; cbn; congruence].
Qed.

Lemma has_admin_rows s s' : rows s' = rows s → has_admin s → has_admin s'.
Proof. intros [= Er Eu _] (u & Hu & r & Hr & Ha). exists u. split; [by rewrite Eu|]. exists r. unfold role_at in *. by rewrite Er. Qed.

(** A change of users that keeps one admin-equivalent user and its role. *)
Lemma has_admin_user s s' u :
  ac_roles s' = ac_roles s → admin_user s u → (∃ v, v ∈ ac_users s' ∧ xu_roleId v = xu_roleId u) → has_admin s'.
Proof. intros Er (_ & r & Hr & Ha) (v & Hv & Hid). exists v. split; [done|]. exists r. rewrite Hid. unfold role_at in *. by rewrite Er. Qed.

Lemma put_user_elem id f s u : u ∈ ac_users s → (if user_is id u then f u else u) ∈ ac_users (put_user id f s).
Proof. intros Hu. exact (list_elem_of_fmap_2 (λ u, if user_is id u then f u else u) _ _ Hu). Qed.

Lemma update_user_admin id f s :
  (∀ u, xu_roleId (f u) = xu_roleId u) → has_admin s → has_admin (update_user id f s).1.
Proof.
  intros Hf (u & Hu). destruct (update_user_cases id f s) as [[e ->]| ->]; [by exists u|].
  apply (has_admin_user s _ u); [done|done|]. exists (if user_is id u then f u else u). split; [by apply put_user_elem, Hu|].
  by destruct (user_is id u).
Qed.

(** What the checks of a role change let through. *)
Lemma role_change_safe self id roleId s u :
  tables_ok s → admin_user s u → is_ok (role_change_checks self id roleId s).2 = true →
  (∃ r, role_at roleId s = Some r ∧ admin_equivalent r = true) ∨ ∃ v, admin_user s v ∧ xu_id v ≠ id.
Proof.
  intros Hok Hu. unfold role_change_checks. unfold hbind at 1, hguard at 1. destruct (negb (isUuid roleId)); [done|].
  cbv beta iota delta [hret]. unfold hbind at 1 2, hgets at 1 2.
  destruct (user_at id s) as [x|] eqn:Hx; [|done]. destruct (role_at roleId s) as [role|] eqn:Hrole; [|done].
  unfold hbind at 1, hguard at 1. destruct (bool_decide _); [done|]. cbv beta iota delta [hret].
  destruct (role_at_some _ _ _ Hrole) as [_ Hid]. destruct (user_at_some _ _ _ Hx) as [Hxin Hxid].
  rewrite Hid. unfold hbind at 1 2. rewrite !is_admin_role, Hrole.
  destruct (countAdminEquivalentUsers (Some (xu_id x)) s) as [s1 [n|e]] eqn:Hc; [|done].
  assert (s1 = s) as -> by (by injection Hc). unfold hbind at 1. rewrite Hc. unfold hguard.
  destruct (admin_equivalent role) eqn:Ha; [intros _; left; by exists role|]. intros Hrun. right.
  destruct (decide (xu_id u = id)) as [He|]; [|by exists u].
  assert (u = x) as -> by (apply (user_unique s); [done|apply Hu|done|congruence]).
  destruct Hu as (_ & r & Hr & Hra). rewrite Hr, Hra in Hrun. cbn [negb andb] in Hrun.
  destruct (n =? 0)%nat eqn:Hn; [done|]. apply Nat.eqb_neq in Hn.
  apply (count_admins _ _ _ Hok Hc) in Hn as (v & Hv & Hne). exists v. split; [done|]. congruence.
Qed.
Lemma delete_safe self id s u :
  tables_ok s → admin_user s u → is_ok (delete_checks self id s).2 = true → ∃ v, admin_user s v ∧ xu_id v ≠ id.
Proof.
  intros Hok Hu. unfold delete_checks. unfold hbind at 1, hgets at 1. destruct (user_at id s) as [x|] eqn:Hx; [|done].
  unfold hbind at 1, hguard at 1. destruct (bool_decide _); [done|]. cbv beta iota delta [hret].
  destruct (user_at_some _ _ _ Hx) as [Hxin Hxid]. unfold hbind at 1. rewrite is_admin_role.
  destruct (countAdminEquivalentUsers (Some (xu_id x)) s) as [s1 [n|e]] eqn:Hc; [|done].
  assert (s1 = s) as -> by (by injection Hc). unfold hbind at 1. rewrite Hc. unfold hguard. intros Hrun.
  destruct (decide (xu_id u = id)) as [He|]; [|by exists u].
  assert (u = x) as -> by (apply (user_unique s); [done|apply Hu|done|congruence]).
  destruct Hu as (_ & r & Hr & Hra). rewrite Hr, Hra in Hrun. cbn [negb andb] in Hrun.
  destruct (n =? 0)%nat eqn:Hn; [done|]. apply Nat.eqb_neq in Hn.
  apply (count_admins _ _ _ Hok Hc) in Hn as (v & Hv & Hne). exists v. split; [done|]. congruence.
Qed.

Lemma user_is_ne id u : xu_id u ≠ id → user_is id u = false.
Proof. by intros ?%String.eqb_neq. Qed.

(** C37: no handler of users and no creation or deletion of a role takes away the
    last admin-equivalent user, whoever calls it; and an edit of a role takes it
    away exactly when it strips the role of every admin-equivalent user. *)
Theorem last_admin_kept c s :
  tables_ok s → has_admin s →
  has_admin (call c s) ∧
  ∀ id i r s', update_commit id i s = (s', Ok (Some r)) →
    (has_admin s' ↔ (∃ u, admin_user s u ∧ xu_roleId u ≠ id) ∨ admin_equivalent r = true ∧ ∃ u, u ∈ ac_users s ∧ xu_roleId u = id).
Proof.
  intros Hok Hadm. split.
  - pose proof Hadm as (u & Hu). destruct c; cbn [call].
    + destruct (createRole_cases i s) as [[e ->]|(n & de & t & _ & _ & _ & _ & ->)]; [done|]. destruct Hu as (Hin & r & Hr & Ha).
      exists u. split; [done|]. exists r. split; [|done]. unfold role_at in *. cbn. by rewrite find_app, Hr.
    + pose proof (tables_delete id s Hok) as Hok'.
      destruct (deleteRole_cases id s) as [[e He]|(b & _ & _ & Hno & He)]; rewrite He in Hok' |- *; [done|].
      destruct Hu as (Hin & r & Hr & Ha). exists u. split; [done|]. exists r. split; [|done].
      destruct (role_at_some _ _ _ Hr) as [Hrin Hid]. rewrite <-Hid. apply role_at_elem; [done|]. cbn. apply elem_filter. split; [done|].
      apply negb_true_iff, String.eqb_neq. intros Hrid. assert (u ∈ users_of id s) as Hx.
      { apply elem_filter. split; [done|]. apply String.eqb_eq. congruence. }
      rewrite Hno in Hx. by apply elem_of_nil in Hx.
    + unfold dismissRoleReview, hbind, hgets. destruct (user_at id s) as [x|]; [|done].
      destruct (xu_needsRoleReview x); [by apply update_user_admin|done].
    + destruct (createUser_cases b s) as [(e & s' & -> & Hs)|(r & h & _ & _ & ->)]; [by apply (has_admin_rows s)|].
      apply (has_admin_user s _ u); [done|done|]. exists u. split; [|done]. cbn. apply elem_of_app. left. apply Hu.
    + unfold putUserRole, hbind. pose proof (role_change_safe self id roleId s u Hok Hu) as Hsafe.
      destruct (role_change_checks self id roleId s) as [s1 [[]|e]] eqn:Hc; apply role_change_checks_readonly in Hc as ->; [|done].
      destruct (role_change_write_cases id roleId s) as [[e ->]|(r & Hr & ->)]; [done|]. cbn [fst].
      destruct Hsafe as [(r' & Hr' & Ha)|(v & Hv & Hne)]; [done| |].
      * destruct (decide (xu_id u = id)) as [He|Hne].
        -- exists (with_role roleId u). split.
           ++ pose proof (put_user_elem id (with_role roleId) s u (proj1 Hu)) as Hp. unfold user_is in Hp. by rewrite He, String.eqb_refl in Hp.
           ++ exists r'. done.
        -- apply (has_admin_user s _ u); [done|done|]. exists u. split; [|done].
           pose proof (put_user_elem id (with_role roleId) s u (proj1 Hu)) as Hp. by rewrite (user_is_ne id u Hne) in Hp.
      * apply (has_admin_user s _ v); [done|done|]. exists v. split; [|done].
        pose proof (put_user_elem id (with_role roleId) s v (proj1 Hv)) as Hp. by rewrite (user_is_ne id v Hne) in Hp.
    + unfold putUserRegions, hbind, hgets, hguard. destruct (negb (RegionTagsSchema tags)); [done|].
      cbv beta iota delta [hret]. destruct (bool_decide (user_at id s = None)); [done|].
      pose proof (update_user_admin id (with_regions (foldl clean_tag ([], []) tags).2) s (λ _, eq_refl) Hadm) as Hr.
      by destruct (update_user id _ s) as [s1 [[]|e]].
    + unfold deleteUser, hbind. pose proof (delete_safe self id s u Hok Hu) as Hsafe.
      destruct (delete_checks self id s) as [s1 [[]|e]] eqn:Hc; apply delete_checks_readonly in Hc as ->; [|done].
      destruct (delete_write_cases id s) as [[e ->]| ->]; [done|]. destruct Hsafe as (v & Hv & Hne); [done|].
      apply (has_admin_user s _ v); [done|done|]. exists v. split; [|done]. cbn. apply elem_filter. split; [apply Hv|].
      by rewrite (user_is_ne id v Hne).
  - intros id i r s' Hrun.
    destruct (update_commit_cases id i s (tb_names _ Hok)) as [(e & He & _)|[(b & _ & _ & _ & He)|(b & d & Hb & _ & _ & _ & He)]];
      rewrite He in Hrun; try done. injection Hrun as <- <-. unfold has_admin, admin_user.
    split.
    + intros (u & Hu & r & Hr & Ha). rewrite role_at_put in Hr by done. destruct (decide (xu_roleId u = id)) as [Hid|Hid].
      * right. rewrite Hid, Hb in Hr. injection Hr as <-. split; [done|]. by exists u.
      * left. exists u. split; [|done]. split; [done|]. by exists r.
    + intros [(u & (Hu & r & Hr & Ha) & Hne)|(Ha & u & Hu & Hid)].
      * exists u. split; [done|]. exists r. rewrite role_at_put by done. by rewrite decide_False.
      * exists u. split; [done|]. exists (apply_data d (ac_now s) b). rewrite role_at_put by done. by rewrite Hid, decide_True, Hb.
Qed.

End admins.

(** ** Concrete runs *)

#[local] Existing Instance toy_lib.
#[local] Existing Instance any_uuid.

Definition edit_super : UpdateRoleInput := mkUpdateRole None None (Some (JObj [("users", JStr "fullwrite")])) None.
Definition super_role : Role := mkRole "r-super" "super" None (every FullAccess) [] false false 0 0.
(** The protected role has no user; Alice is the only admin-equivalent one. *)
Definition super_state : AccessState :=
  mkAccess [admin_role; super_role] [seed_user "alice" "r-super"] [] [] [] 9 0 0 [].
Definition admin_count (s : AccessState) : result nat := (countAdminEquivalentUsers None s).2.

Lemma last_admin_kept_witness :
  has_admin (call (CDeleteUser (Some "carol"%string) "alice") seed_state).
Proof.
  apply (last_admin_kept (CDeleteUser (Some "carol"%string) "alice") seed_state); [exact seed_tables|].
  exists (seed_user "alice" "r-admin"). split; [by left|]. exists admin_role. split; by vm_compute.
Defined.

(** Alice strips her own role, and nobody can edit users or roles any more. *)
Theorem role_edit_strips_last_admin :
  admin_count super_state = Ok 1%nat ∧ is_ok (updateRole "r-super" edit_super super_state).2 = true ∧
  admin_count (updateRole "r-super" edit_super super_state).1 = Ok 0%nat.
Proof. by vm_compute. Qed.

(** Two admins delete each other: both checks see the other one. *)
Definition two_admins : AccessState :=
  mkAccess [admin_role] [seed_user "alice" "r-admin"; seed_user "bob" "r-admin"] [] [] [] 9 0 0 [].
Theorem overlapping_deletes_remove_all_admins :
  is_ok (delete_checks (Some "alice"%string) "bob" two_admins).2 = true ∧
  is_ok (delete_checks (Some "bob"%string) "alice" two_admins).2 = true ∧
  admin_count (delete_write "alice" (delete_write "bob" two_admins).1).1 = Ok 0%nat.
Proof. by vm_compute. Qed.
