(* ===== verification/Quarantine.v ===== *)
(** * Quarantining assets on FortiGates

    [src/src/services/assetQuarantineService.ts] and
    [src/src/services/assetSightingService.ts], the quarantine endpoints and the
    status guards of [src/src/api/routes/assets.ts], the automatic extension during
    discovery and the status writes of the directory syncs in
    [src/src/api/routes/integrations.ts], and
    [src/src/jobs/decommissionStaleAssets.ts].

    The transports are those of [Push]; the source repeats them line for line. *)

From S2P Require Import Prelude JsDate Cidr Store Http Push JsColl MonitorSettings Tokens.

(** ** Data *)

Inductive TargetStatus := Synced | FailedPush | Drift.
#[export] Instance TargetStatus_eq_dec : EqDecision TargetStatus.
Proof. solve_decision. Defined.

Record TargetRecord := mkTarget {
  tr_fortigateDevice : string;
  tr_integrationId : string;
  tr_pushedMacs : list string;
  tr_pushedAt : Z;
  tr_status : TargetStatus;
  tr_error : option string;
}.

(** The columns of an asset these operations read or write. *)
Record QAsset := mkQAsset {
  qa_id : string;
  qa_hostname : option string;
  qa_ipAddress : option string;
  qa_assetType : string;
  qa_macAddress : option string;
  qa_macRows : list string;
  qa_status : string;
  qa_statusChangedAt : option Z;
  qa_statusChangedBy : option string;
  qa_statusBefore : option string;
  qa_reason : option string;
  qa_quarantinedAt : option Z;
  qa_quarantinedBy : option string;
  qa_targets : list TargetRecord;
  qa_lastSeen : option Z;
}.

Record Sighting := mkSighting {
  sg_assetId : string;
  sg_integrationId : option string;
  sg_fortigateDevice : string;
  sg_source : string;
  sg_ipAddress : option string;
  sg_firstSeen : Z;
  sg_lastSeen : Z;
}.

(** An integration with the flag [config.pushQuarantine]. *)
Record QIntegration := mkQIntegration { qi_row : Integration; qi_pushQuarantine : bool }.

Record QState (W : Type) := mkQState {
  qs_assets : list QAsset;
  qs_sightings : list Sighting;
  qs_sightingMaxAge : option Z;
  qs_inactivityMonths : option Z;
  qs_integrations : list QIntegration;
  qs_events : list (string * string);
  qs_world : W;
}.
Arguments mkQState {W}.
Arguments qs_assets {W}.
Arguments qs_sightings {W}.
Arguments qs_sightingMaxAge {W}.
Arguments qs_inactivityMonths {W}.
Arguments qs_integrations {W}.
Arguments qs_events {W}.
Arguments qs_world {W}.

(** ** Names and addresses *)

Definition quarantineTargetName (assetId : string) : string :=
  "polaris-q-" +:+ Js.take 12 (Js.sfilter (λ c, negb (Ascii.eqb c "-")) assetId).

Definition buildMacDescription (hostname : option string) (actor fallback : string) : string :=
  let trimmed := Js.trim (default "" hostname) in
  let name := if Js.otruthy hostname && Js.truthy trimmed then trimmed
              else if Js.truthy fallback then fallback else "(unnamed)" in
  let candidate := "Polaris/" +:+ actor +:+ ": " +:+ name in
  if (64 <? String.length candidate)%nat then Js.take 64 candidate else candidate.

(** [/not found|does not exist|404/i] on the message.  The errors carry their
    status as [httpStatus], so [err.status] is never 404. *)
Definition reads_as_absent (e : exn) : bool :=
  let m := Js.toLowerCase (exn_message e) in
  Js.includes "not found" m || Js.includes "does not exist" m || Js.includes "404" m.

Definition valid_macs (l : list string) : list string := List.filter isMac48 (unique (normalizeMac <$> l)).

Definition macsForAsset (a : QAsset) : list string :=
  valid_macs ((if Js.otruthy (qa_macAddress a) then [default ""%string (qa_macAddress a)] else []) ++
              List.filter Js.truthy (qa_macRows a)).

(** [(target?.macs ?? []).map((m) => normalizeMac(m.mac || "")).filter(Boolean)];
    what is no array, no object or no text throws. *)
Definition not_a_function : exn := JsError "TypeError".
Definition entry_mac (m : Json) : result string :=
  match m with
  | JNull => Throw not_a_function
  | _ => match jget "mac" (Some m) with
         | Some (JStr s) => Ok (normalizeMac s)
         | v => if jtruthy v then Throw not_a_function else Ok (normalizeMac "")
         end
  end.
Fixpoint entry_macs (l : list Json) : result (list string) :=
  match l with
  | [] => Ok []
  | m :: l' => match entry_mac m with
               | Throw e => Throw e
               | Ok mac => match entry_macs l' with
                           | Throw e => Throw e
                           | Ok macs => Ok (if Js.truthy mac then mac :: macs else macs)
                           end
               end
  end.
Definition target_macs (target : option Json) : result (list string) :=
  match jget "macs" target with
  | None | Some JNull => Ok []
  | Some (JArr l) => entry_macs l
  | Some _ => Throw not_a_function
  end.

Definition targets_path : string := "/api/v2/cmdb/user/quarantine/targets".
Definition target_path (name : string) : string := targets_path +:+ "/" +:+ encodeURIComponent name.
Definition macs_path (name : string) : string := target_path name +:+ "/macs".
Definition mac_path (name mac : string) : string := macs_path name +:+ "/" +:+ encodeURIComponent mac.

Section device.
Context `{Net W}.

(** ** One device *)

(** Of an array the first element counts. *)
Definition getTarget (t : Transport) (name : string) : M W (option Json) :=
  hcatch
    (let! data := callFortiOs t GET (target_path name) None in
     hret (jor (match data with JArr l => hd_error l | _ => Some data end) None))
    (λ e, if reads_as_absent e then hret None else hthrow e).

Definition deleteTarget (t : Transport) (name : string) : M W UnpushReservationResult :=
  hcatch (callFortiOs t DELETE (target_path name) None ;! hret (mkUnpushResult true false))
    (λ e, if reads_as_absent e then hret (mkUnpushResult false true) else hthrow e).

Record PushQuarantineParams := mkPushQ {
  pq_assetId : string;
  pq_hostname : option string;
  pq_macs : list string;
  pq_actor : string;
  pq_deviceName : string;
}.
Record PushQuarantineResult := mkPushQResult {
  qr_fortigateDevice : string;
  qr_targetName : string;
  qr_pushedMacs : list string;
}.

Definition mac_entry (p : PushQuarantineParams) (mac : string) : Json :=
  JObj [("mac", JStr mac); ("description", JStr (buildMacDescription (pq_hostname p) (pq_actor p) mac))].

(** Create the target, or bring its MACs to the wanted set. *)
Definition write_target (p : PushQuarantineParams) (t : Transport) (name : string) (desired : list string)
    (targetWasNew : bool) (existingMacs : list string) : M W unit :=
  if targetWasNew then
    callFortiOs t POST targets_path (Some (JObj [("name", JStr name);
      ("description", JStr ("Polaris asset quarantine — " +:+ pq_actor p)); ("macs", JArr (mac_entry p <$> desired))])) ;!
    hret tt
  else
    let toAdd := List.filter (λ m, negb (bool_decide (m ∈ existingMacs))) desired in
    let toRemove := List.filter (λ m, negb (bool_decide (m ∈ desired))) existingMacs in
    hforeach toAdd (λ mac, callFortiOs t POST (macs_path name) (Some (mac_entry p mac)) ;! hret tt) ;!
    hforeach toRemove (λ mac, callFortiOs t DELETE (mac_path name mac) None ;! hret tt).

Definition verify_target (t : Transport) (name : string) (desired : list string) : M W unit :=
  let! after := getTarget t name in
  throw_if (negb (jtruthy after)) (AppError 502 ("FortiGate accepted the write but the quarantine target " +:+ name +:+
    " was not visible on read-back")) ;!
  let! macs := hlift (target_macs after) in
  let missing := List.filter (λ m, negb (bool_decide (m ∈ macs))) desired in
  throw_if (negb (bool_decide (missing = [])))
    (AppError 502 ("FortiGate verify mismatch — target " +:+ name +:+ " is missing MACs: " +:+ Js.join ", " missing)).

Definition pushQuarantineToFortigate (p : PushQuarantineParams) (t : Transport) : M W PushQuarantineResult :=
  throw_if (negb (Js.truthy (pq_deviceName p))) (AppError 400 "Push requires a FortiGate device name") ;!
  throw_if (bool_decide (pq_macs p = [])) (AppError 400 "Push requires at least one MAC") ;!
  let name := quarantineTargetName (pq_assetId p) in
  let desired := valid_macs (pq_macs p) in
  throw_if (bool_decide (desired = [])) (AppError 400 "Push requires at least one valid MAC") ;!
  let! existing := getTarget t name in
  let! macs := hlift (target_macs existing) in
  let targetWasNew := negb (jtruthy existing) in
  hcatch
    (write_target p t name desired targetWasNew (unique macs) ;!
     verify_target t name desired ;!
     hret (mkPushQResult (pq_deviceName p) name desired))
    (λ e,
      (if targetWasNew
       then hcatch (deleteTarget t name ;! hret tt) (λ _, hret tt) else hret tt) ;!
      hthrow e).

Definition unpushQuarantineFromFortigate (assetId : string) (t : Transport) : M W UnpushReservationResult :=
  deleteTarget t (quarantineTargetName assetId).

(** Are all the MACs there, and which are missing. *)
Definition verifyQuarantineOnFortigate (assetId : string) (desiredMacs : list string) (t : Transport)
  : M W (bool * list string) :=
  let desired := unique (normalizeMac <$> desiredMacs) in
  let! target := getTarget t (quarantineTargetName assetId) in
  if negb (jtruthy target) then hret (false, desired)
  else
    let! macs := hlift (target_macs target) in
    let missing := List.filter (λ m, negb (bool_decide (m ∈ macs))) desired in
    hret (bool_decide (missing = []), missing).

Definition buildQuarantineTransport (integration : Integration) (deviceName : string) : M W Transport :=
  if String.eqb (i_type integration) "fortimanager" || String.eqb (i_type integration) "fortigate"
  then buildTransportForIntegration integration deviceName
  else hthrow (AppError 400 ("Quarantine push is not supported for integration type " +:+ quoted (i_type integration))).
End device.

(** * Sightings, quarantine and release *)

Definition hattempt {S A} (m : M S A) : M S (result A) := λ s, let '(s', r) := m s in (s', Ok r).

(** [for (const x of l) out.push(await f(x))] *)
Fixpoint hcollect {S A B} (f : A → M S B) (l : list A) : M S (list B) :=
  match l with
  | [] => hret []
  | x :: l' => let! y := f x in let! ys := hcollect f l' in hret (y :: ys)
  end.

(** [err?.message || d] *)
Definition error_text (e : exn) (d : string) : string := Js.oor (Some (exn_message e)) d.

Section state.
Context {W : Type}.
Implicit Types s : QState W.

Definition set_world (w : W) s : QState W :=
  mkQState (qs_assets s) (qs_sightings s) (qs_sightingMaxAge s) (qs_inactivityMonths s) (qs_integrations s) (qs_events s) w.
Definition set_assets (l : list QAsset) s : QState W :=
  mkQState l (qs_sightings s) (qs_sightingMaxAge s) (qs_inactivityMonths s) (qs_integrations s) (qs_events s) (qs_world s).
Definition set_sightings (l : list Sighting) s : QState W :=
  mkQState (qs_assets s) l (qs_sightingMaxAge s) (qs_inactivityMonths s) (qs_integrations s) (qs_events s) (qs_world s).
Definition set_max_age (d : option Z) s : QState W :=
  mkQState (qs_assets s) (qs_sightings s) d (qs_inactivityMonths s) (qs_integrations s) (qs_events s) (qs_world s).
Definition log_q (action id : string) s : QState W :=
  mkQState (qs_assets s) (qs_sightings s) (qs_sightingMaxAge s) (qs_inactivityMonths s) (qs_integrations s)
    (qs_events s ++ [(action, id)]) (qs_world s).

Definition find_asset (id : string) s : option QAsset := List.find (λ a, String.eqb (qa_id a) id) (qs_assets s).
Definition integration_row (p : QIntegration → bool) (id : string) s : option QIntegration :=
  List.find (λ i, String.eqb (i_id (qi_row i)) id && p i) (qs_integrations s).

(** A device call made by a handler. *)
Definition on_net {A} (m : M W A) : M (QState W) A := λ s,
  let '(w, r) := m (qs_world s) in (set_world w s, r).

Definition map_asset (id : string) (f : QAsset → QAsset) (l : list QAsset) : list QAsset :=
  (λ a, if String.eqb (qa_id a) id then f a else a) <$> l.
(** [prisma.asset.update({ where: { id } })] *)
Definition asset_update (id : string) (f : QAsset → QAsset) : M (QState W) unit :=
  let! a := hgets (find_asset id) in
  throw_if (bool_decide (a = None)) (PrismaError "P2025") ;!
  hmodify (λ s, set_assets (map_asset id f (qs_assets s)) s).
End state.

Definition restamp_status (status : string) (at_ : Z) (by_ : string) (a : QAsset) : QAsset :=
  mkQAsset (qa_id a) (qa_hostname a) (qa_ipAddress a) (qa_assetType a) (qa_macAddress a) (qa_macRows a) status (Some at_) (Some by_)
    (qa_statusBefore a) (qa_reason a) (qa_quarantinedAt a) (qa_quarantinedBy a) (qa_targets a) (qa_lastSeen a).
Definition with_targets (l : list TargetRecord) (a : QAsset) : QAsset :=
  mkQAsset (qa_id a) (qa_hostname a) (qa_ipAddress a) (qa_assetType a) (qa_macAddress a) (qa_macRows a) (qa_status a)
    (qa_statusChangedAt a) (qa_statusChangedBy a) (qa_statusBefore a) (qa_reason a) (qa_quarantinedAt a)
    (qa_quarantinedBy a) l (qa_lastSeen a).
Definition with_lastSeen (t : option Z) (a : QAsset) : QAsset :=
  mkQAsset (qa_id a) (qa_hostname a) (qa_ipAddress a) (qa_assetType a) (qa_macAddress a) (qa_macRows a) (qa_status a)
    (qa_statusChangedAt a) (qa_statusChangedBy a) (qa_statusBefore a) (qa_reason a) (qa_quarantinedAt a)
    (qa_quarantinedBy a) (qa_targets a) t.
(** The columns a quarantine writes, and a release. *)
Definition stamp_quarantine (t : Z) (actor : string) (before reason : option string) (quarantinedAt : Z)
    (targets : list TargetRecord) (a : QAsset) : QAsset :=
  mkQAsset (qa_id a) (qa_hostname a) (qa_ipAddress a) (qa_assetType a) (qa_macAddress a) (qa_macRows a) "quarantined" (Some t) (Some actor)
    before reason (Some quarantinedAt) (Some actor) targets (qa_lastSeen a).
Definition stamp_release (t : Z) (actor restored : string) (a : QAsset) : QAsset :=
  mkQAsset (qa_id a) (qa_hostname a) (qa_ipAddress a) (qa_assetType a) (qa_macAddress a) (qa_macRows a) restored (Some t) (Some actor)
    None None None None [] (qa_lastSeen a).

Section service.
Context `{Net W}.
Notation Q := (M (QState W)).

Definition q_now : Q Z := hgets (λ s, now (qs_world s)).
Definition logEvent (action id : string) : Q unit := hmodify (log_q action id).

(** ** The sighting log *)

(** [getSightingSettings] *)
Definition getSightingSettings (s : QState W) : Z :=
  match qs_sightingMaxAge s with Some d => if 0 <=? d then d else 180 | None => 180 end.
Definition updateSightingSettings (days : Z) : Q unit := hmodify (set_max_age (Some days)).

Record SightingInput := mkSightingInput {
  si_assetId : string;
  si_fortigateDevice : string;
  si_source : string;
  (** [undefined], [null] or a value *)
  si_integrationId : option (option string);
  si_ipAddress : option (option string);
  si_seenAt : option Z;
}.

Definition sighting_key (r : SightingInput) : string := si_assetId r +:+ " " +:+ si_fortigateDevice r.
Definition seen_at (t : Z) (r : SightingInput) : Z := default t (si_seenAt r).

(** The candidate row replaces the one kept so far. *)
Definition supersedes (t : Z) (row existing : SightingInput) : bool :=
  (seen_at t existing <? seen_at t row) ||
  ((seen_at t row =? seen_at t existing) && String.eqb (si_source row) "dhcp_reservation" &&
   negb (String.eqb (si_source existing) "dhcp_reservation")).

Definition dedupe_step (t : Z) (m : JsMap string SightingInput) (row : SightingInput) : JsMap string SightingInput :=
  if negb (Js.truthy (si_assetId row)) || negb (Js.truthy (si_fortigateDevice row)) then m
  else match mget (sighting_key row) m with
       | None => mset (sighting_key row) row m
       | Some existing => if supersedes t row existing then mset (sighting_key row) row m else m
       end.

Definition is_pair (assetId device : string) (x : Sighting) : bool :=
  String.eqb (sg_assetId x) assetId && String.eqb (sg_fortigateDevice x) device.

Definition refresh_sighting (t : Z) (r : SightingInput) (x : Sighting) : Sighting :=
  mkSighting (sg_assetId x) (default (sg_integrationId x) (si_integrationId r)) (sg_fortigateDevice x) (si_source r)
    (default (sg_ipAddress x) (si_ipAddress r)) (sg_firstSeen x) (seen_at t r).
Definition new_sighting (t : Z) (r : SightingInput) : Sighting :=
  mkSighting (si_assetId r) (default None (si_integrationId r)) (si_fortigateDevice r) (si_source r)
    (default None (si_ipAddress r)) (seen_at t r) (seen_at t r).

(** The upsert on the pair of asset and device.  A row for an asset that is gone
    fails its foreign key, and [Promise.allSettled] drops the error. *)
Definition upsert_sighting (t : Z) (s : QState W) (r : SightingInput) : QState W :=
  if existsb (is_pair (si_assetId r) (si_fortigateDevice r)) (qs_sightings s)
  then set_sightings ((λ x, if is_pair (si_assetId r) (si_fortigateDevice r) x then refresh_sighting t r x else x)
                        <$> qs_sightings s) s
  else if bool_decide (find_asset (si_assetId r) s = None) then s
  else set_sightings (qs_sightings s ++ [new_sighting t r]) s.

Definition recordSightings (rows : list SightingInput) : Q unit :=
  hmodify (λ s, let t := now (qs_world s) in
    fold_left (upsert_sighting t) (mvalues (fold_left (dedupe_step t) rows [])) s).

Definition sighting_leb (a b : Sighting) : bool := sg_lastSeen b <=? sg_lastSeen a.
Definition getSightingsForAsset (assetId : string) (s : QState W) : list Sighting :=
  sort_by sighting_leb (List.filter (λ x, String.eqb (sg_assetId x) assetId) (qs_sightings s)).

Definition getQuarantineCandidates (assetId : string) (s : QState W) : list Sighting :=
  let sightingMaxAgeDays := getSightingSettings s in
  let all := getSightingsForAsset assetId s in
  if sightingMaxAgeDays <=? 0 then all
  else let cutoff := now (qs_world s) - sightingMaxAgeDays * DAY_MS in
       List.filter (λ x, cutoff <=? sg_lastSeen x) all.

(** ** Quarantine *)

Record QuarantineAssetParams := mkQuarantineParams {
  qp_assetId : string;
  qp_actor : string;
  qp_reason : option string;
  qp_tokenIntegrationIds : option (list string);
}.
Record QuarantineAssetResult := mkQuarantineResult {
  qx_assetId : string;
  qx_targets : list TargetRecord;
  qx_succeededCount : nat;
  qx_failedCount : nat;
  qx_message : string;
}.

Definition infra (assetType : string) : bool :=
  String.eqb assetType "firewall" || String.eqb assetType "switch" || String.eqb assetType "access_point".
Definition asset_label (a : QAsset) : string := Js.oor (qa_hostname a) (qa_id a).

(** Is the integration of the sighting one of the token's. *)
Definition token_covers (scope : list string) (c : Sighting) : bool :=
  match sg_integrationId c with
  | Some id => Js.truthy id && bool_decide (id ∈ scope)
  | None => false
  end.

Definition failed_target (device integrationId msg : string) : Q (option TargetRecord) :=
  let! t := q_now in hret (Some (mkTarget device integrationId [] t FailedPush (Some msg))).

(** One turn of the fan-out; [None] is a sighting it skips. *)
Definition quarantine_on (a : QAsset) (macs : list string) (actor : string) (sighting : Sighting)
  : Q (option TargetRecord) :=
  let device := sg_fortigateDevice sighting in
  let! s := hget in
  match (if Js.otruthy (sg_integrationId sighting)
         then integration_row (λ i, i_enabled (qi_row i)) (default ""%string (sg_integrationId sighting)) s else None) with
  | None => hret None
  | Some i =>
      if negb (qi_pushQuarantine i) then hret None else
      let! built := hattempt (on_net (buildQuarantineTransport (qi_row i) device)) in
      match built with
      | Throw e => failed_target device (i_id (qi_row i)) (error_text e "Transport setup failed")
      | Ok transport =>
          let! res := hattempt (on_net (pushQuarantineToFortigate
                        (mkPushQ (qa_id a) (qa_hostname a) macs actor device) transport)) in
          match res with
          | Ok r =>
              let! t := q_now in
              hret (Some (mkTarget (qr_fortigateDevice r) (i_id (qi_row i)) (qr_pushedMacs r) t Synced None))
          | Throw e => failed_target device (i_id (qi_row i)) (error_text e "Quarantine push failed")
          end
      end
  end.

Definition is_status (st : TargetStatus) (t : TargetRecord) : bool := bool_decide (tr_status t = st).

Definition showN (n : nat) : string := pretty (Z.of_nat n).
Definition quarantine_message (a : QAsset) (ok bad all : nat) : string :=
  if (bad =? 0)%nat
  then "Quarantine succeeded for " +:+ asset_label a +:+ ": " +:+ showN ok +:+ "/" +:+ showN all +:+ " FortiGate(s)"
  else "Quarantine partial for " +:+ asset_label a +:+ ": " +:+ showN ok +:+ "/" +:+ showN all +:+
       " FortiGate(s) accepted, " +:+ showN bad +:+ " failed".

Definition quarantineAsset (params : QuarantineAssetParams) : Q QuarantineAssetResult :=
  let! found := hgets (find_asset (qp_assetId params)) in
  match found with
  | None => hthrow (AppError 404 ("Asset " +:+ qp_assetId params +:+ " not found"))
  | Some asset =>
      throw_if (infra (qa_assetType asset))
        (AppError 400 ("Asset " +:+ asset_label asset +:+ " is a " +:+ qa_assetType asset +:+ " and cannot be quarantined")) ;!
      let macs := macsForAsset asset in
      throw_if (bool_decide (macs = []))
        (AppError 400 ("Asset " +:+ asset_label asset +:+ " has no MAC addresses — cannot quarantine")) ;!
      let! allCandidates := hgets (getQuarantineCandidates (qa_id asset)) in
      throw_if (bool_decide (length allCandidates = 0%nat))
        (AppError 409 ("Asset " +:+ asset_label asset +:+ " has no recent FortiGate sightings — nothing to push to")) ;!
      let tokenScope := qp_tokenIntegrationIds params in
      let candidates := match tokenScope with
                        | Some scope => List.filter (token_covers scope) allCandidates
                        | None => allCandidates
                        end in
      throw_if (bool_decide (is_Some tokenScope) && bool_decide (length candidates = 0%nat))
        (AppError 403 ("Asset " +:+ asset_label asset +:+
           " has no recent sightings on the integrations this token is allowed to push to")) ;!
      let! outcomes := hcollect (quarantine_on asset macs (qp_actor params)) candidates in
      let targets := omap id outcomes in
      let succeeded := List.filter (is_status Synced) targets in
      let failed := List.filter (is_status FailedPush) targets in
      if (length succeeded =? 0)%nat then
        logEvent "asset.quarantine.failed" (qa_id asset) ;!
        hthrow (AppError 502 ("Quarantine failed: 0/" +:+ showN (length targets) +:+
          " FortiGate(s) accepted the push. First error: " +:+
          Js.oor (hd_error failed ≫= tr_error) "No FortiGates could be reached"))
      else
        let newStatusBefore := if String.eqb (qa_status asset) "quarantined" then qa_statusBefore asset
                               else Some (qa_status asset) in
        let! t := q_now in
        asset_update (qa_id asset)
          (stamp_quarantine t (qp_actor params) newStatusBefore
             (if Js.otruthy (qp_reason params) then qp_reason params
              else if Js.otruthy (qa_reason asset) then qa_reason asset else None)
             (default t (qa_quarantinedAt asset)) targets) ;!
        logEvent (if (length failed =? 0)%nat then "asset.quarantine.succeeded" else "asset.quarantine.partial") (qa_id asset) ;!
        hret (mkQuarantineResult (qa_id asset) targets (length succeeded) (length failed)
                (quarantine_message asset (length succeeded) (length failed) (length targets)))
  end.

(** ** Release *)

Record ReleaseQuarantineResult := mkReleaseResult {
  rr_assetId : string;
  rr_newStatus : string;
  rr_unpushedFrom : list string;
  rr_failedToUnpush : list (string * string);
  rr_message : string;
}.

(** The recorded targets outside a token's integrations. *)
Definition outside_scope (scope : list string) (targets : list TargetRecord) : list TargetRecord :=
  List.filter (λ t, negb (bool_decide (tr_integrationId t ∈ scope))) targets.

Definition scope_guard (tokenIntegrationIds : option (list string)) (asset : QAsset) (what : string) : Q unit :=
  match tokenIntegrationIds with
  | None => hret tt
  | Some allowed =>
      let outside := outside_scope allowed (qa_targets asset) in
      throw_if (negb (bool_decide (length outside = 0%nat)))
        (AppError 403 ("Quarantine for " +:+ asset_label asset +:+ " touches FortiGate(s) " +:+
           Js.join ", " (unique (tr_fortigateDevice <$> outside)) +:+ " on integrations this token is not allowed to " +:+ what))
  end.

Definition target_integration (t : TargetRecord) (s : QState W) : option QIntegration :=
  if Js.truthy (tr_integrationId t) then integration_row (λ _, true) (tr_integrationId t) s else None.

(** One recorded target: the device it was removed from, or the failure. *)
Definition release_on (asset : QAsset) (target : TargetRecord) : Q (string + string * string) :=
  let device := tr_fortigateDevice target in
  let! integration := hgets (target_integration target) in
  match integration with
  | None => hret (inr (device, "Integration no longer exists — possible orphan quarantine entry on device"%string))
  | Some i =>
      let! res := hattempt
        (let! transport := on_net (buildQuarantineTransport (qi_row i) device) in
         on_net (unpushQuarantineFromFortigate (qa_id asset) transport)) in
      match res with
      | Ok _ => hret (inl device)
      | Throw e => hret (inr (device, error_text e "Unpush failed"))
      end
  end.

Definition lefts {A B} (l : list (A + B)) : list A := omap (λ x, match x with inl a => Some a | inr _ => None end) l.
Definition rights {A B} (l : list (A + B)) : list B := omap (λ x, match x with inl _ => None | inr b => Some b end) l.

Definition release_message (a : QAsset) (ok bad : nat) : string :=
  if (bad =? 0)%nat
  then "Quarantine released for " +:+ asset_label a +:+ ": unpushed from " +:+ showN ok +:+ " FortiGate(s)"
  else "Quarantine released for " +:+ asset_label a +:+ ": unpushed from " +:+ showN ok +:+ ", " +:+ showN bad +:+
       " failed (orphan entries may remain on those devices)".

Definition releaseQuarantine (assetId actor : string) (tokenIntegrationIds : option (list string))
  : Q ReleaseQuarantineResult :=
  let! found := hgets (find_asset assetId) in
  match found with
  | None => hthrow (AppError 404 ("Asset " +:+ assetId +:+ " not found"))
  | Some asset =>
      throw_if (negb (String.eqb (qa_status asset) "quarantined"))
        (AppError 409 ("Asset " +:+ asset_label asset +:+ " is not currently quarantined")) ;!
      scope_guard tokenIntegrationIds asset
        "operate against — release must be performed by an admin or a token covering all targets" ;!
      let! outcomes := hcollect (release_on asset) (qa_targets asset) in
      let unpushedFrom := lefts outcomes in
      let failedToUnpush := rights outcomes in
      let restoredStatus := default "active"%string (qa_statusBefore asset) in
      let! t := q_now in
      asset_update (qa_id asset) (stamp_release t actor restoredStatus) ;!
      logEvent "asset.quarantine.released" (qa_id asset) ;!
      (if (0 <? length failedToUnpush)%nat then logEvent "asset.quarantine.unpush.failed" (qa_id asset) else hret tt) ;!
      hret (mkReleaseResult (qa_id asset) restoredStatus unpushedFrom failedToUnpush
              (release_message asset (length unpushedFrom) (length failedToUnpush)))
  end.

(** ** Drift *)

Definition drifted (missing : list string) (t : TargetRecord) : TargetRecord :=
  mkTarget (tr_fortigateDevice t) (tr_integrationId t) (tr_pushedMacs t) (tr_pushedAt t) Drift
    (Some ("Missing MACs on device: " +:+ Js.oor (Some (Js.join ", " missing)) "(target absent)")).

(** The record of a target after its check, and whether it drifted. *)
Definition verify_on (asset : QAsset) (macs : list string) (target : TargetRecord) : Q (TargetRecord * bool) :=
  let! integration := hgets (target_integration target) in
  match integration with
  | None => hret (target, false)
  | Some i =>
      let! res := hattempt
        (let! transport := on_net (buildQuarantineTransport (qi_row i) (tr_fortigateDevice target)) in
         on_net (verifyQuarantineOnFortigate (qa_id asset) macs transport)) in
      match res with
      | Ok (present, missing) =>
          if is_status Synced target && negb present then hret (drifted missing target, true) else hret (target, false)
      | Throw _ => hret (target, false)
      end
  end.

Definition verifyAssetQuarantine (assetId : string) (tokenIntegrationIds : option (list string))
  : Q (list TargetRecord * bool) :=
  let! found := hgets (find_asset assetId) in
  match found with
  | None => hthrow (AppError 404 ("Asset " +:+ assetId +:+ " not found"))
  | Some asset =>
      scope_guard tokenIntegrationIds asset "read" ;!
      let! outcomes := hcollect (verify_on asset (macsForAsset asset)) (qa_targets asset) in
      hret (outcomes.*1, existsb snd outcomes)
  end.

(** ** The endpoints *)

(** Who calls: a bearer token, or a session with its user name. *)
Record Caller := mkCaller { c_apiToken : option AuthenticatedToken; c_username : option string }.

Definition actor_of (c : Caller) : string :=
  match c_apiToken c with
  | Some t => "api:" +:+ au_name t
  | None => "user:" +:+ Js.oor (c_username c) "unknown"
  end.
Definition scope_of (c : Caller) : option (list string) := au_integrationIds <$> c_apiToken c.

Definition post_quarantine (c : Caller) (id : string) (reason : option string) : Q QuarantineAssetResult :=
  quarantineAsset (mkQuarantineParams id (actor_of c) reason (scope_of c)).
Definition delete_quarantine (c : Caller) (id : string) : Q ReleaseQuarantineResult :=
  releaseQuarantine id (actor_of c) (scope_of c).

Definition post_quarantine_verify (c : Caller) (id : string) : Q (list TargetRecord * bool) :=
  let! verifyResult := verifyAssetQuarantine id (scope_of c) in
  (if snd verifyResult
   then asset_update id (with_targets (fst verifyResult)) ;! logEvent "asset.quarantine.drift_detected" id
   else hret tt) ;!
  hret verifyResult.

(** The entry of a bulk answer: the asset, whether it went well, the message. *)
Definition post_bulk_quarantine (c : Caller) (ids : list string) (reason : option string)
  : Q (list (string * bool * string)) :=
  hcollect (λ id,
    let! r := hattempt (quarantineAsset (mkQuarantineParams id (actor_of c) reason (scope_of c))) in
    hret (match r with
          | Ok r => (id, true, qx_message r)
          | Throw e => (id, false, error_text e "Quarantine failed")
          end)) ids.
Definition post_bulk_release (c : Caller) (ids : list string) : Q (list (string * bool * string)) :=
  hcollect (λ id,
    let! r := hattempt (releaseQuarantine id (actor_of c) (scope_of c)) in
    hret (match r with
          | Ok r => (id, true, rr_message r)
          | Throw e => (id, false, error_text e "Release failed")
          end)) ids.

Definition put_sighting_settings (days : Z) : Q Z :=
  throw_if ((days <? 0) || (3650 <? days)) (AppError 400 "Validation failed") ;!
  updateSightingSettings days ;! logEvent "asset.sighting_settings_updated" "" ;! hret days.

(** The guards of PUT /assets/:id on the status, and its write. *)
Definition put_asset_status (id : string) (status : option string) (username : option string) : Q unit :=
  let! found := hgets (find_asset id) in
  match found with
  | None => hthrow (AppError 404 "Asset not found")
  | Some existing =>
      let was := String.eqb (qa_status existing) "quarantined" in
      match status with
      | None => hret tt
      | Some st =>
          throw_if (String.eqb st "quarantined" && negb was)
            (AppError 400 "Use POST /assets/:id/quarantine to quarantine an asset") ;!
          throw_if (negb (String.eqb st "quarantined") && was)
            (AppError 400 "Use DELETE /assets/:id/quarantine to release the quarantine before changing status") ;!
          let! t := q_now in
          asset_update id (restamp_status st t (default "manual"%string username))
      end
  end.

(** POST /assets: the row under the id the database gives it, which no row has. *)
Definition post_asset (id : string) (hostname ipAddress macAddress : option string) (assetType status : option string)
    (username : option string) : Q unit :=
  let! t := q_now in
  let! taken := hgets (find_asset id) in
  throw_if (bool_decide (is_Some taken)) (PrismaError "P2002") ;!
  hmodify (λ s, set_assets (qs_assets s ++
    [mkQAsset id hostname ipAddress (default "other"%string assetType)
       ((λ m, Js.smap (λ c, if Ascii.eqb c "-" then ":"%char else c) (Js.toUpperCase m)) <$> macAddress) []
       (default "storage"%string status) (Some t) (Some (default "manual"%string username))
       None None None None [] None]) s) ;!
  logEvent "asset.created" id.

(** [a.hostname || a.ipAddress || a.id] *)
Definition asset_name (a : QAsset) : string := Js.oor (qa_hostname a) (Js.oor (qa_ipAddress a) (qa_id a)).

(** A deleted asset takes its sightings along. *)
Definition drop_assets (gone : string → bool) (s : QState W) : QState W :=
  set_sightings (List.filter (λ x, negb (gone (sg_assetId x))) (qs_sightings s))
    (set_assets (List.filter (λ a, negb (gone (qa_id a))) (qs_assets s)) s).

Definition delete_asset (id : string) : Q unit :=
  let! found := hgets (find_asset id) in
  match found with
  | None => hthrow (AppError 404 "Asset not found")
  | Some existing =>
      throw_if (String.eqb (qa_status existing) "quarantined")
        (AppError 409 ("Cannot delete quarantined asset " +:+ quoted (asset_name existing) +:+ ". Release the quarantine first.")) ;!
      hmodify (drop_assets (String.eqb id)) ;! logEvent "asset.deleted" id
  end.

Definition bulk_delete_assets (ids : list string) : Q nat :=
  throw_if (bool_decide (ids = [])) (AppError 400 "ids must be a non-empty array") ;!
  let! s := hget in
  let listed := List.filter (λ a, bool_decide (qa_id a ∈ ids)) (qs_assets s) in
  let quarantined := List.filter (λ a, String.eqb (qa_status a) "quarantined") listed in
  let more := if (5 <? length quarantined)%nat then " (+" +:+ showN (length quarantined - 5) +:+ " more)" else ""%string in
  throw_if (0 <? length quarantined)%nat
    (AppError 409 ("Cannot delete quarantined asset(s): " +:+ Js.join ", " (take 5 (asset_name <$> quarantined)) +:+ more +:+
       ". Release the quarantine first.")) ;!
  hmodify (drop_assets (λ id, bool_decide (id ∈ ids))) ;!
  logEvent "asset.bulk_deleted" "" ;!
  hret (length listed).

(** ** Discovery and the other writers of the status *)

Definition unique_pairs (rows : list SightingInput) : list (string * string) :=
  mvalues (fold_left (λ (m : JsMap string (string * string)) r,
    let key := si_assetId r +:+ "|" +:+ si_fortigateDevice r in
    if mhas key m then m else mset key (si_assetId r, si_fortigateDevice r) m) rows []).

Definition auto_check (pair : string * string) : Q unit :=
  let! found := hgets (find_asset pair.1) in
  match found with
  | None => hret tt
  | Some asset =>
      if negb (String.eqb (qa_status asset) "quarantined") then hret tt else
      match List.find (λ t, String.eqb (tr_fortigateDevice t) pair.2) (qa_targets asset) with
      | Some t =>
          if is_status Synced t then
            let! verifyResult := verifyAssetQuarantine pair.1 None in
            if snd verifyResult then asset_update pair.1 (with_targets (fst verifyResult)) else hret tt
          else quarantineAsset (mkQuarantineParams pair.1 "system:auto-quarantine" None None) ;! hret tt
      | None => quarantineAsset (mkQuarantineParams pair.1 "system:auto-quarantine" None None) ;! hret tt
      end
  end.

(** The end of the DHCP phase of a discovery. *)
Definition flush_sightings (sightingRows : list SightingInput) : Q unit :=
  if bool_decide (length sightingRows = 0%nat) then hret tt else
  recordSightings sightingRows ;!
  hforeach (unique_pairs sightingRows) (λ pair, hattempt (auto_check pair) ;! hret tt).

(** The status an Entra ID or Active Directory sync writes. *)
Definition directory_status (disabled : bool) : string := if disabled then "disabled" else "active".
Definition write_directory_status (t : Z) (integrationName status : string) (a : QAsset) : QAsset :=
  if String.eqb status (qa_status a) then a else restamp_status status t integrationName a.
Definition entra_update (id integrationName : string) (accountEnabled : bool) (lastSeen : option Z) : Q unit :=
  let! t := q_now in
  asset_update id (λ a, write_directory_status t integrationName (directory_status (negb accountEnabled))
    (with_lastSeen (match lastSeen with Some l => Some l | None => qa_lastSeen a end) a)).
Definition ad_update (id integrationName : string) (disabled : bool) : Q unit :=
  let! t := q_now in asset_update id (write_directory_status t integrationName (directory_status disabled)).

(** [getAssetDecommissionSettings]; zero months turn the job off. *)
Definition getAssetDecommissionSettings (s : QState W) : Z :=
  match qs_inactivityMonths s with Some m => if 0 <=? m then m else 0 | None => 0 end.

(** The daily job. *)
Definition stale_asset (cutoff : Z) (a : QAsset) : bool :=
  negb (String.eqb (qa_status a) "decommissioned" || String.eqb (qa_status a) "disabled") &&
  match qa_lastSeen a with Some l => l <? cutoff | None => false end.

Definition decommission_cutoff (s : QState W) : Z :=
  let t := now (qs_world s) in setMonth t (getMonth t - getAssetDecommissionSettings s).

Definition decommissionStaleAssets : Q unit :=
  let! s := hget in
  let inactivityMonths := getAssetDecommissionSettings s in
  if inactivityMonths <=? 0 then hret tt else
  let t := now (qs_world s) in
  let cutoff := decommission_cutoff s in
  let stale := qa_id <$> List.filter (stale_asset cutoff) (qs_assets s) in
  hmodify (λ s, set_assets ((λ a, if bool_decide (qa_id a ∈ stale) then restamp_status "decommissioned" t "system" a else a)
                              <$> qs_assets s) s) ;!
  hforeach stale (logEvent "asset.auto_decommissioned").
End service.
