(* ===== verification/QuarantineProofs.v ===== *)
(** * What a quarantine promises

    The device operations of [Quarantine] against what FortiOS documents of a
    quarantine target, the state machine of the asset's columns, and the scope of
    bearer tokens. *)

From S2P Require Import Prelude JsDate Cidr Store Http Push JsColl MonitorSettings Tokens Quarantine.

(** ** Generic steps *)

Lemma elem_unique l x : x ∈ unique l ↔ x ∈ l.
Proof.
  unfold unique. enough (∀ acc, x ∈ foldl (λ acc y, sadd y acc) acc l ↔ x ∈ acc ∨ x ∈ l) as He.
  { rewrite He. set_solver. }
  induction l as [|y l IH]; intros acc; simpl; [set_solver|]. rewrite IH, elem_sadd. set_solver.
Qed.

Lemma NoDup_unique l : NoDup (unique l).
Proof.
  unfold unique. enough (∀ acc, NoDup acc → NoDup (foldl (λ acc y, sadd y acc) acc l)) as He by (apply He; constructor).
  induction l as [|y l IH]; intros acc Ha; simpl; [done|]. apply IH. unfold sadd. case_decide; [done|].
  apply NoDup_app. split_and!; [done| |apply NoDup_singleton]. by intros x Hx ->%list_elem_of_singleton.
Qed.

Lemma elem_valid_macs l m : m ∈ valid_macs l ↔ isMac48 m = true ∧ ∃ x, x ∈ l ∧ m = normalizeMac x.
Proof.
  unfold valid_macs. rewrite elem_bfilter, elem_unique, list_elem_of_fmap. naive_solver.
Qed.

Lemma valid_mac_normal l m : m ∈ valid_macs l → normalizeMac m = m ∧ Js.truthy m = true.
Proof.
  rewrite elem_valid_macs. intros (Hm & x & Hx & ->). split; [apply normalizeMac_idem|].
  by destruct (normalizeMac x).
Qed.

Lemma hcatch_rethrow {S A} (m : M S A) (h : exn → M S A) s s' a :
  (∀ e s0 s1 b, h e s0 ≠ (s1, Ok b)) → hcatch m h s = (s', Ok a) → m s = (s', Ok a).
Proof. intros Hh. unfold hcatch. destruct (m s) as [s1 [b|e]]; [done|]. intros Hr. by apply Hh in Hr. Qed.

Lemma fst_describe {A B} (f : A → B) (l : list A) : ((λ m, (m, f m)) <$> l).*1 = l.
Proof. rewrite <-list_fmap_compose. induction l as [|x l IH]; [done|]. rewrite fmap_cons, IH. done. Qed.

(** ** One device *)

Section device.
Context `{Net W}.

(** A read of the target shows these MACs. *)
Definition shows (t : Transport) (name : string) (w w' : W) (held : list string) : Prop :=
  ∃ j, getTarget t name w = (w', Ok j) ∧ jtruthy j = true ∧ target_macs j = Ok held.

(** A push that reports success has read every MAC back. *)
Lemma pushQuarantine_ok p t (w w' : W) r :
  pushQuarantineToFortigate p t w = (w', Ok r) →
  r = mkPushQResult (pq_deviceName p) (quarantineTargetName (pq_assetId p)) (valid_macs (pq_macs p)) ∧
  valid_macs (pq_macs p) ≠ [] ∧
  ∃ w1 held, shows t (quarantineTargetName (pq_assetId p)) w1 w' held ∧
    ∀ m, m ∈ valid_macs (pq_macs p) → m ∈ held.
Proof.
  unfold pushQuarantineToFortigate. intros Hr. hinv.
  match goal with Hv : bool_decide (valid_macs _ = []) = false |- _ => apply bool_decide_eq_false in Hv end.
  apply hcatch_rethrow in Hr.
  2:{ intros e s0 s1 b. unfold hbind. destruct (_ s0) as [? []]; by intros [=]. }
  unfold verify_target, hlift in Hr. hinv.
  match goal with Hv : negb (jtruthy ?j) = false, Ht : (_, target_macs ?j) = (_, Ok ?l) |- _ =>
    injection Ht as <- Ht; apply negb_false_iff in Hv; split_and!; [done..|]; eexists _, l; split; [by exists j|] end.
  match goal with Hv : negb (bool_decide (List.filter _ _ = [])) = false |- _ =>
    apply negb_false_iff, bool_decide_eq_true in Hv; rename Hv into Hg2 end.
  intros m Hin0. apply dec_stable. intros Hn. apply (not_elem_of_nil m). rewrite <-Hg2. apply elem_bfilter.
  split; [done|]. by rewrite bool_decide_eq_false_2.
Qed.

(** A target as FortiOS lists it: the first of the results, its MACs as entries. *)
Definition lists_macs (macs : list string) (j : Json) : Prop :=
  ∃ fields rest raws extra, j = JArr (JObj fields :: rest) ∧
    assoc "macs" fields = Some (JArr ((λ m, JObj (("mac"%string, JStr m) :: extra m)) <$> raws)) ∧
    macs = List.filter Js.truthy (normalizeMac <$> raws).
(** The error of a status 404. *)
Definition not_found_error (e : exn) : Prop :=
  Js.includes "not found" (exn_message e) = true ∨ Js.includes "404" (exn_message e) = true.

(** What FortiOS documents of one quarantine target, request by request, as the
    transport [t] sees it: [held] is the normalised MACs of the target, if it is
    there. *)
Record quarantine_device (t : Transport) (name : string) (held : W → option (list string)) : Prop := {
  qd_get w : match held w with
             | Some macs => ∃ w' j, callFortiOs t GET (target_path name) None w = (w', Ok j) ∧ lists_macs macs j ∧
                              held w' = Some macs
             | None => ∃ w' e, callFortiOs t GET (target_path name) None w = (w', Throw e) ∧ not_found_error e ∧ held w' = None
             end;
  qd_create w d entries : held w = None →
    (∀ m, m ∈ entries.*1 → normalizeMac m = m ∧ Js.truthy m = true) → ∃ w' j,
    callFortiOs t POST targets_path (Some (JObj [("name", JStr name); ("description", JStr d);
      ("macs", JArr ((λ md, JObj [("mac", JStr md.1); ("description", JStr md.2)]) <$> entries))])) w = (w', Ok j) ∧
    held w' = Some (entries.*1);
  qd_add w mac d l : held w = Some l → normalizeMac mac = mac → Js.truthy mac = true → ∃ w' j,
    callFortiOs t POST (macs_path name) (Some (JObj [("mac", JStr mac); ("description", JStr d)])) w = (w', Ok j) ∧
    held w' = Some (l ++ [mac]);
  qd_remove w mac l : held w = Some l → mac ∈ l → ∃ w' j,
    callFortiOs t DELETE (mac_path name mac) None w = (w', Ok j) ∧
    held w' = Some (List.filter (λ m, negb (String.eqb m mac)) l);
  qd_delete w : match held w with
                | Some _ => ∃ w' j, callFortiOs t DELETE (target_path name) None w = (w', Ok j) ∧ held w' = None
                | None => ∃ w' e, callFortiOs t DELETE (target_path name) None w = (w', Throw e) ∧ not_found_error e ∧
                            held w' = None
                end;
}.

Lemma startsWith_lower p m : Js.toLowerCase p = p → Js.startsWith p m = true → Js.startsWith p (Js.toLowerCase m) = true.
Proof.
  revert m. induction p as [|c p IH]; intros [|d m]; unfold Js.toLowerCase; cbn; try done.
  intros [= Hc Hp] [<-%Ascii.eqb_eq Hs]%andb_true_iff. rewrite Hc, Ascii.eqb_refl. by apply IH.
Qed.
Lemma includes_lower n m : Js.toLowerCase n = n → Js.includes n m = true → Js.includes n (Js.toLowerCase m) = true.
Proof.
  intros Hn. induction m as [|c m IH]; cbn [Js.includes].
  - done.
  - intros [Hs|Hi]%orb_true_iff; unfold Js.toLowerCase in *; cbn [Js.smap Js.includes]; apply orb_true_iff.
    + left. by apply (startsWith_lower n (String c m)).
    + right. by apply IH.
Qed.
Lemma not_found_absent e : not_found_error e → reads_as_absent e = true.
Proof.
  intros [Hf|Hf]; unfold reads_as_absent; rewrite (includes_lower _ _ eq_refl Hf); [done|by rewrite orb_true_r].
Qed.

Lemma lists_macs_read macs j :
  lists_macs macs j → ∃ o rest, j = JArr (o :: rest) ∧ jtruthy (Some o) = true ∧ jor (Some o) None = Some o ∧
    target_macs (Some o) = Ok macs.
Proof.
  intros (fields & rest & raws & extra & -> & Hm & ->). exists (JObj fields), rest. split_and!; [done..|].
  unfold target_macs. cbn [jget]. rewrite Hm. clear Hm. induction raws as [|r raws IH]; [done|].
  rewrite !fmap_cons. cbn [entry_macs]. change (entry_mac _) with (Ok (normalizeMac r)). rewrite IH. cbn [List.filter].
  by destruct (Js.truthy (normalizeMac r)).
Qed.

Section lawful.
Context (t : Transport) (name : string) (held : W → option (list string)) (Hdev : quarantine_device t name held).

Lemma getTarget_device (w : W) :
  ∃ w' j, getTarget t name w = (w', Ok j) ∧ held w' = held w ∧ jtruthy j = bool_decide (is_Some (held w)) ∧
    target_macs j = Ok (default [] (held w)).
Proof.
  unfold getTarget, hcatch, hbind. pose proof (qd_get _ _ _ Hdev w) as Hg. destruct (held w) as [macs|].
  - destruct Hg as (w' & j & -> & (o & rest & -> & Ht & Ho & Hm)%lists_macs_read & Hh). exists w', (Some o).
    cbn [hd_error]. rewrite Ho. by split_and!.
  - destruct Hg as (w' & e & -> & He & Hh). rewrite (not_found_absent e He). by exists w', None.
Qed.

Lemma deleteTarget_device (w : W) :
  ∃ w', deleteTarget t name w = (w', Ok (mkUnpushResult (bool_decide (is_Some (held w))) (bool_decide (held w = None)))) ∧
    held w' = None.
Proof.
  unfold deleteTarget, hcatch, hbind. pose proof (qd_delete _ _ _ Hdev w) as Hg. destruct (held w) as [macs|].
  - destruct Hg as (w' & j & -> & Hh). by exists w'.
  - destruct Hg as (w' & e & -> & He & Hh). rewrite (not_found_absent e He). by exists w'.
Qed.

Lemma add_all p l ds (w : W) :
  held w = Some l → (∀ m, m ∈ ds → normalizeMac m = m ∧ Js.truthy m = true) →
  ∃ w', hforeach ds (λ mac, callFortiOs t POST (macs_path name) (Some (mac_entry p mac)) ;! hret tt) w = (w', Ok tt) ∧
    held w' = Some (l ++ ds).
Proof.
  revert l w. induction ds as [|d ds IH]; intros l w Hl Hds; simpl.
  { exists w. by rewrite app_nil_r. }
  destruct (Hds d) as [Hn Ht]; [left|].
  destruct (qd_add _ _ _ Hdev w d (buildMacDescription (pq_hostname p) (pq_actor p) d) l) as (w1 & j & E1 & H1); [done..|].
  destruct (IH (l ++ [d]) w1 H1) as (w2 & E2 & H2). { intros m Hm. apply Hds. by right. }
  exists w2. split; [|by rewrite <-app_assoc in H2]. unfold hbind at 1 2. unfold mac_entry at 1. rewrite E1. hred. exact E2.
Qed.

Lemma remove_all l ds (w : W) :
  held w = Some l → NoDup ds → (∀ m, m ∈ ds → m ∈ l) →
  ∃ w' l', hforeach ds (λ mac, callFortiOs t DELETE (mac_path name mac) None ;! hret tt) w = (w', Ok tt) ∧
    held w' = Some l' ∧ ∀ m, m ∈ l' ↔ m ∈ l ∧ m ∉ ds.
Proof.
  revert l w. induction ds as [|d ds IH]; intros l w Hl Hnd Hds; simpl.
  { exists w, l. split_and!; [done..|]. intros m. set_solver. }
  apply NoDup_cons in Hnd as [Hd Hnd].
  destruct (qd_remove _ _ _ Hdev w d l) as (w1 & j & E1 & H1); [done|apply Hds; left|].
  assert (∀ m, m ∈ List.filter (λ m, negb (String.eqb m d)) l ↔ m ∈ l ∧ m ≠ d) as Hf.
  { intros m. rewrite elem_bfilter, negb_true_iff, String.eqb_neq. done. }
  destruct (IH _ w1 H1 Hnd) as (w2 & l' & E2 & H2 & H3).
  { intros m Hm. apply Hf. split; [apply Hds; by right|]. by intros ->. }
  exists w2, l'. split; [unfold hbind at 1 2; rewrite E1; hred; exact E2|]. split; [done|].
  intros m. rewrite H3, Hf. set_solver.
Qed.

(** A push brings the target to the wanted MACs, whatever it held before. *)
Lemma push_reconciles p (w : W) :
  name = quarantineTargetName (pq_assetId p) → pq_deviceName p ≠ ""%string → valid_macs (pq_macs p) ≠ [] →
  ∃ w' l, pushQuarantineToFortigate p t w =
      (w', Ok (mkPushQResult (pq_deviceName p) name (valid_macs (pq_macs p)))) ∧
    held w' = Some l ∧ ∀ m, m ∈ l ↔ m ∈ valid_macs (pq_macs p).
Proof.
  intros Hname Hdn Hne. unfold pushQuarantineToFortigate. rewrite <-Hname.
  assert (Js.truthy (pq_deviceName p) = true) as -> by (by destruct (pq_deviceName p)).
  assert (pq_macs p ≠ []) as Hpm by (intros He; by rewrite He in Hne).
  rewrite bool_decide_eq_false_2 by done. rewrite bool_decide_eq_false_2 by done. hred.
  destruct (getTarget_device w) as (w1 & j & E1 & H1 & Hj & Hm). hrun E1. rewrite Hm, Hj.
  assert (∃ w2 l, write_target p t name (valid_macs (pq_macs p)) (negb (bool_decide (is_Some (held w)))) (unique (default [] (held w))) w1
            = (w2, Ok tt) ∧ held w2 = Some l ∧ ∀ m, m ∈ l ↔ m ∈ valid_macs (pq_macs p)) as (w2 & l & E2 & H2 & H3).
  { destruct (held w) as [l0|] eqn:Hw; [rewrite bool_decide_eq_true_2 by done|rewrite bool_decide_eq_false_2 by (by intros [])];
      unfold write_target; cbn [negb].
    - change (default [] (Some l0)) with l0. destruct (add_all p l0 (List.filter (λ m, negb (bool_decide (m ∈ unique l0))) (valid_macs (pq_macs p))) w1)
        as (w2 & E2 & H2); [done| |].
      { intros m [Hm' _]%elem_bfilter. by eapply valid_mac_normal. }
      destruct (remove_all _ (List.filter (λ m, negb (bool_decide (m ∈ valid_macs (pq_macs p)))) (unique l0)) w2 H2)
        as (w3 & l & E3 & H3 & H4).
      { apply NoDup_bfilter, NoDup_unique. }
      { intros m [Hm' _]%elem_bfilter. apply elem_of_app. left. by apply elem_unique. }
      exists w3, l. split_and!; [|done|].
      + unfold hbind at 1. rewrite E2. exact E3.
      + intros m. rewrite H4, elem_of_app, !elem_bfilter, !negb_true_iff, !bool_decide_eq_false, elem_unique.
        destruct (decide (m ∈ l0)), (decide (m ∈ valid_macs (pq_macs p))); tauto.
    - destruct (qd_create _ _ _ Hdev w1 ("Polaris asset quarantine — " +:+ pq_actor p)
        ((λ m, (m, buildMacDescription (pq_hostname p) (pq_actor p) m)) <$> valid_macs (pq_macs p))) as (w2 & j' & E2 & H2).
      { by rewrite H1. }
      { intros m Hm'. rewrite fst_describe in Hm'. by eapply valid_mac_normal. }
      exists w2, (valid_macs (pq_macs p)). rewrite fst_describe in H2. split_and!; [|done..].
      unfold hbind at 1. rewrite <-list_fmap_compose in E2. 
      change (mac_entry p) with ((λ md : string * string, JObj [("mac", JStr md.1); ("description", JStr md.2)]%string)
        ∘ (λ m, (m, buildMacDescription (pq_hostname p) (pq_actor p) m))).
      rewrite E2. done. }
  destruct (getTarget_device w2) as (w3 & j2 & E3 & H3' & Hj2 & Hm2). rewrite H2 in H3', Hj2, Hm2. change (default [] (Some l)) with l in Hm2.
  exists w3, l. split; [|by rewrite H3']. unfold hcatch. unfold hbind at 1. rewrite E2.
  unfold hbind at 1, verify_target. unfold hbind at 1. rewrite E3, Hj2. rewrite bool_decide_eq_true_2 by done.
  unfold hguard at 1, hlift. cbn [negb]. unfold hret at 1. unfold hbind at 1 2. rewrite Hm2.
  assert (List.filter (λ m, negb (bool_decide (m ∈ l))) (valid_macs (pq_macs p)) = []) as ->.
  { apply filter_nil. intros m Hm'. by rewrite bool_decide_eq_true_2 by by apply H3. }
  done.
Qed.
End lawful.
End device.

(** ** A reference fleet

    FortiGates behind [fetch], their quarantine targets kept under their URLs. *)

(** [decodeURIComponent], one character at a time. *)
Definition hex_value (c : ascii) : nat :=
  let n := nat_of_ascii c in if (n <? 58)%nat then n - 48 else n - 55.
Definition decode1 (s : string) : option (ascii * string) :=
  match s with
  | "" => None
  | String c r =>
      if Ascii.eqb c "%" then
        match r with
        | String a (String b r') => Some (ascii_of_nat (hex_value a * 16 + hex_value b), r')
        | _ => None
        end
      else Some (c, r)
  end.

Lemma decode1_encode (c : ascii) (r : string) :
  decode1 ((if is_alnum c || one_of "-_.!~*'()" c then String c "" else percent c) +:+ r) = Some (c, r).
Proof. destruct c as [[] [] [] [] [] [] [] []]; reflexivity. Qed.

#[global] Instance encodeURIComponent_inj : Inj (=) (=) encodeURIComponent.
Proof.
  intros s. induction s as [|c s IH]; intros [|d s'] Heq; [done|..].
  - apply (f_equal decode1) in Heq. unfold encodeURIComponent in Heq. cbn [encode_with] in Heq.
    rewrite decode1_encode in Heq. discriminate.
  - apply (f_equal decode1) in Heq. unfold encodeURIComponent in Heq. cbn [encode_with] in Heq.
    rewrite decode1_encode in Heq. discriminate.
  - apply (f_equal decode1) in Heq. unfold encodeURIComponent in Heq. cbn [encode_with] in Heq.
    rewrite !decode1_encode in Heq. injection Heq as -> Hs. f_equal. by apply IH.
Qed.

Module RefFleet.

(** A row is a target: its URL without the query, and its MACs as written. *)
Record Fleet := mkFleet { fl_rows : list (string * list string); fl_now : Z; fl_tls : option string }.

Definition query : string := "?vdom=root".
Definition create_suffix : string := targets_path +:+ query.
Definition target_json (macs : list string) : Json :=
  JObj [("macs"%string, JArr ((λ m, JObj [("mac"%string, JStr m)]) <$> macs))].
Definition set_fleet_rows (l : list (string * list string)) (g : Fleet) : Fleet := mkFleet l (fl_now g) (fl_tls g).
Definition ok_json (j : Json) : result HttpResponse := Ok (mkHttpResponse 200 (Some j)).
Definition not_found : result HttpResponse := Ok (mkHttpResponse 404 None).

Definition mac_url (key mac : string) : string := key +:+ "/macs/" +:+ encodeURIComponent (normalizeMac mac) +:+ query.
Definition drop_mac (url key : string) (macs : list string) : list string :=
  List.filter (λ m, negb (String.eqb url (mac_url key m))) macs.
Definition names_mac (url : string) (row : string * list string) : bool :=
  existsb (λ m, String.eqb url (mac_url row.1 m)) row.2.
Definition names_target (url : string) (row : string * list string) : bool := String.eqb url (row.1 +:+ query).
Definition body_macs (b : Json) : list string := (λ m, default ""%string (jfield_str "mac" m)) <$> jarray (jget "macs" (Some b)).

Definition serve (req : HttpRequest) : M Fleet HttpResponse := λ g,
  let url := hr_url req in
  let body := default JNull (hr_body req) in
  match hr_method req with
  | GET =>
      match List.find (names_target url) (fl_rows g) with
      | Some row => (g, ok_json (JObj [("results"%string, JArr [target_json row.2])]))
      | None => (g, not_found)
      end
  | POST =>
      if Js.includes create_suffix url then
        let key := Js.take (String.length url - String.length query) url +:+ "/" +:+
                   encodeURIComponent (default ""%string (jfield_str "name" body)) in
        (set_fleet_rows (fl_rows g ++ [(key, body_macs body)]) g, ok_json (JObj []))
      else if existsb (λ row, String.eqb url (row.1 +:+ "/macs" +:+ query)) (fl_rows g) then
        (set_fleet_rows ((λ row, if String.eqb url (row.1 +:+ "/macs" +:+ query)
           then (row.1, row.2 ++ [default ""%string (jfield_str "mac" body)]) else row) <$> fl_rows g) g, ok_json (JObj []))
      else (g, not_found)
  | DELETE =>
      if existsb (names_mac url) (fl_rows g) then
        (set_fleet_rows ((λ row, (row.1, drop_mac url row.1 row.2)) <$> fl_rows g) g, ok_json (JObj []))
      else if existsb (names_target url) (fl_rows g) then
        (set_fleet_rows (List.filter (λ row, negb (names_target url row)) (fl_rows g)) g, ok_json (JObj []))
      else (g, not_found)
  | PUT => (g, not_found)
  end.

#[export] Instance net : Net Fleet :=
  {| fetch := serve; now := fl_now; tls_env := fl_tls; set_tls_env := λ v g, mkFleet (fl_rows g) (fl_now g) v |}.

(** A standalone FortiGate, and its target for the asset [a1]. *)
Definition config (host : string) : IntegrationConfig :=
  mkIntegrationConfig (Some true) (Some host) None None (Some "token"%string) None None None None None None None None.
Definition fleet_gate (id host : string) : QIntegration := mkQIntegration (mkIntegration id "fortigate" true (config host)) true.
Definition transport (host : string) : Transport := DirectFortigate (mkFortiGateConfig host None None "token" "root" None) "root".
Definition name : string := quarantineTargetName "a1".
Definition key : string := "https://fg1:443" +:+ target_path name.

Definition held_rows (rows : list (string * list string)) : option (list string) :=
  match List.find (λ row, String.eqb key row.1) rows with
  | Some row => Some (List.filter Js.truthy (normalizeMac <$> row.2))
  | None => None
  end.
Definition held (g : Fleet) : option (list string) := held_rows (fl_rows g).
End RefFleet.

Section fleet.
Import RefFleet.

Lemma append_inj_r (a b c : string) : a +:+ c = b +:+ c → a = b.
Proof.
  revert b. induction a as [|x a IH]; intros [|y b] Heq; simpl in *; [done|..].
  - apply (f_equal String.length) in Heq. simpl in Heq. rewrite append_length in Heq. lia.
  - apply (f_equal String.length) in Heq. simpl in Heq. rewrite append_length in Heq. lia.
  - injection Heq as -> Heq. f_equal. by apply IH.
Qed.

Lemma eqb_query a b : String.eqb (a +:+ query) (b +:+ query) = String.eqb a b.
Proof.
  destruct (String.eqb_spec a b) as [->|Hne]; [apply String.eqb_refl|]. apply String.eqb_neq.
  by intros Heq%append_inj_r.
Qed.

Lemma held_find (g : Fleet) u :
  u = key +:+ query → List.find (names_target u) (fl_rows g) = List.find (λ row, String.eqb key row.1) (fl_rows g).
Proof.
  intros ->. induction (fl_rows g) as [|r l IH]; [done|]. cbn [List.find].
  unfold names_target at 1. by rewrite eqb_query, IH.
Qed.

Definition fleet_request (method : Method) (path : string) (body : option Json) : HttpRequest :=
  mkHttpRequest ("https://fg1:443" +:+ path +:+ query) method "token" None (if has_body method then body else None).

Lemma fleet_call method path body (g : Fleet) :
  Js.includes "?" path = false →
  callFortiOs (transport "fg1") method path body g =
  hbind (serve (fleet_request method path body)) (fg_answer (W := Fleet) path) g.
Proof.
  intros Hq. unfold callFortiOs, transport, fgRequest, with_tls, fg_http.
  assert (fg_url (mkFortiGateConfig "fg1" None None "token" "root" None) path [("vdom", "root")]%string =
    "https://fg1:443" +:+ path +:+ query) as Hu.
  { unfold fg_url. change (Js.truthy _) with true. cbv iota. rewrite Hq. done. }
  change (tls_enter _ g) with g. cbn [fg_verifySsl]. rewrite Hu.
  change (tls_env g) with (fl_tls g). unfold fleet_request, tls_exit. rewrite bool_decide_eq_false_2 by done.
  cbn [fg_apiToken fg_apiUser user_header Js.otruthy]. change (@fetch Fleet net) with serve. by destruct (hbind _ _ g).
Qed.

Lemma find_none_app {A} (p : A → bool) l l' : List.find p l = None → List.find p (l ++ l') = List.find p l'.
Proof. induction l as [|x l IH]; [done|]. simpl. by destruct (p x). Qed.

Lemma normal_list l :
  (∀ m, m ∈ l → normalizeMac m = m ∧ Js.truthy m = true) → List.filter Js.truthy (normalizeMac <$> l) = l.
Proof.
  induction l as [|m l IH]; intros Hl; [done|]. rewrite fmap_cons. destruct (Hl m) as [Hn Ht]; [left|].
  cbn [List.filter]. rewrite Hn, Ht. f_equal. apply IH. intros x Hx. apply Hl. by right.
Qed.

Lemma key_split : "https://fg1:443" +:+ target_path name +:+ query = key +:+ query.
Proof. done. Qed.

Lemma fleet_get (g : Fleet) :
  match held g with
  | Some macs => ∃ g' j, callFortiOs (transport "fg1") GET (target_path name) None g = (g', Ok j) ∧ lists_macs macs j ∧
                   held g' = Some macs
  | None => ∃ g' e, callFortiOs (transport "fg1") GET (target_path name) None g = (g', Throw e) ∧ not_found_error e ∧
              held g' = None
  end.
Proof.
  assert (callFortiOs (transport "fg1") GET (target_path name) None g =
    match List.find (λ row, String.eqb key row.1) (fl_rows g) with
    | Some row => (g, Ok (JArr [target_json row.2]))
    | None => (g, Throw (AppError 404 ("Endpoint not found: " +:+ target_path name)))
    end) as Hrun.
  { rewrite fleet_call by done. unfold hbind, serve, fleet_request. cbn [hr_method hr_url].
    rewrite key_split, held_find by done. by destruct (List.find _ (fl_rows g)). }
  unfold held, held_rows. destruct (List.find _ (fl_rows g)) as [row|] eqn:Hf; (eexists g, _; split; [exact Hrun|split]).
  - exists [("macs"%string, JArr ((λ m, JObj [("mac"%string, JStr m)]) <$> row.2))], [], row.2, (λ _, []). done.
  - by rewrite Hf.
  - left. by vm_compute.
  - by rewrite Hf.
Qed.

Lemma fleet_create (g : Fleet) d entries :
  held g = None → (∀ m, m ∈ entries.*1 → normalizeMac m = m ∧ Js.truthy m = true) → ∃ g' j,
  callFortiOs (transport "fg1") POST targets_path (Some (JObj [("name", JStr name); ("description", JStr d);
    ("macs", JArr ((λ md, JObj [("mac", JStr md.1); ("description", JStr md.2)]) <$> entries))]))%string g = (g', Ok j) ∧
  held g' = Some (entries.*1).
Proof.
  intros Hh Hm. eexists _, _. split; [rewrite fleet_call by done; reflexivity|].
  unfold held in *. cbn [fl_rows set_fleet_rows]. unfold held_rows in *. destruct (List.find _ (fl_rows g)) eqn:Hf; [done|].
  rewrite find_none_app by done. change (Js.take _ _ +:+ "/" +:+ _) with key. cbn [List.find fst snd].
  rewrite String.eqb_refl. f_equal.
  assert (body_macs (JObj [("name", JStr name); ("description", JStr d); ("macs",
    JArr ((λ md, JObj [("mac", JStr md.1); ("description", JStr md.2)]) <$> entries))]%string) = entries.*1) as Hb.
  { clear. unfold body_macs. change (jarray _) with ((λ md : string * string,
      JObj [("mac", JStr md.1); ("description", JStr md.2)]%string) <$> entries).
    rewrite <-list_fmap_compose. by apply list_fmap_ext. }
  etrans; [|by apply normal_list]. by rewrite <-Hb.
Qed.

Lemma fleet_add (g : Fleet) mac d l :
  held g = Some l → normalizeMac mac = mac → Js.truthy mac = true → ∃ g' j,
  callFortiOs (transport "fg1") POST (macs_path name)
    (Some (JObj [("mac", JStr mac); ("description", JStr d)]%string)) g = (g', Ok j) ∧ held g' = Some (l ++ [mac]).
Proof.
  intros Hh Hn Ht. set (url := "https://fg1:443" +:+ macs_path name +:+ query).
  assert (∀ k, String.eqb url (k +:+ "/macs" +:+ query) = String.eqb key k) as Hu.
  { intros k. change url with (key +:+ ("/macs" +:+ query)). rewrite <-!append_assoc.
    destruct (String.eqb_spec key k) as [->|Hne]; [apply String.eqb_refl|]. apply String.eqb_neq.
    by intros ?%append_inj_r%append_inj_r. }
  assert (existsb (λ row, String.eqb url (row.1 +:+ "/macs" +:+ query)) (fl_rows g) = true) as Hex.
  { unfold held, held_rows in Hh. destruct (List.find _ (fl_rows g)) as [row|] eqn:Hf; [|done].
    apply find_some in Hf as [Hin Hk]. apply existsb_exists. exists row. by rewrite Hu. }
  eexists _, _. split.
  { rewrite fleet_call by done. unfold hbind, serve, fleet_request. cbn [hr_method hr_url hr_body].
    fold url. change (Js.includes create_suffix url) with false. cbv iota. rewrite Hex. reflexivity. }
  unfold held in *. cbn [fl_rows set_fleet_rows]. revert Hh. clear Hex. unfold held_rows. induction (fl_rows g) as [|row rows IH]; [done|]. rewrite fmap_cons.
  cbn [List.find]. rewrite Hu. destruct (String.eqb key row.1) eqn:Hk; cbn [fst snd]; rewrite ?Hk; [|exact IH].
  intros [= <-]. cbn [snd]. rewrite fmap_app, List.filter_app. do 2 f_equal. cbn. by rewrite Hn, Ht.
Qed.

Lemma mac_url_eqb m mac :
  String.eqb ("https://fg1:443" +:+ Quarantine.mac_path name mac +:+ query) (mac_url key m) = String.eqb (normalizeMac m) mac.
Proof.
  change ("https://fg1:443" +:+ Quarantine.mac_path name mac +:+ query)
    with ((key +:+ "/macs/" +:+ encodeURIComponent mac) +:+ query).
  unfold mac_url. rewrite <-!append_assoc.
  destruct (String.eqb_spec (normalizeMac m) mac) as [<-|Hne]; [apply String.eqb_refl|]. apply String.eqb_neq.
  intros Heq%append_inj_r. rewrite !append_assoc in Heq. apply RefGate.string_app_inj_l, RefGate.string_app_inj_l in Heq.
  by apply (inj encodeURIComponent) in Heq.
Qed.

Lemma encode_plain s : Js.sforallb (λ d, negb (Ascii.eqb d "?")) (encodeURIComponent s) = true.
Proof.
  unfold encodeURIComponent. induction s as [|c s IH]; [done|]. cbn [encode_with]. rewrite sforallb_append.
  rewrite IH, andb_true_r. by destruct c as [[] [] [] [] [] [] [] []].
Qed.

Lemma mac_path_plain n mac : Js.includes "?" (Quarantine.mac_path n mac) = false.
Proof.
  apply includes_no_char. unfold Quarantine.mac_path, macs_path, target_path.
  rewrite !sforallb_append, !encode_plain. done.
Qed.

Lemma startsWith_app (p s : string) : Js.startsWith p (p +:+ s) = true.
Proof. induction p as [|c p IH]; [by destruct s|]. simpl. by rewrite Ascii.eqb_refl. Qed.

Lemma includes_middle (a n b : string) : Js.includes n (a +:+ n +:+ b) = true.
Proof.
  induction a as [|c a IH]; simpl.
  - destruct (n +:+ b) eqn:Hs; simpl; rewrite <-?Hs, startsWith_app; done.
  - by rewrite IH, orb_true_r.
Qed.

Lemma fleet_remove (g : Fleet) mac l :
  held g = Some l → mac ∈ l → ∃ g' j,
  callFortiOs (transport "fg1") DELETE (Quarantine.mac_path name mac) None g = (g', Ok j) ∧
  held g' = Some (List.filter (λ m, negb (String.eqb m mac)) l).
Proof.
  intros Hh Hl. set (url := "https://fg1:443" +:+ Quarantine.mac_path name mac +:+ query).
  assert (existsb (names_mac url) (fl_rows g) = true) as Hex.
  { unfold held, held_rows in Hh. destruct (List.find _ (fl_rows g)) as [row|] eqn:Hf; [|done]. injection Hh as <-.
    apply find_some in Hf as [Hin Hk%String.eqb_eq]. apply elem_bfilter in Hl as [(m & -> & Hm)%list_elem_of_fmap _].
    apply existsb_exists. exists row. split; [done|]. apply existsb_exists. exists m.
    split; [by apply list_elem_of_In|]. rewrite <-Hk. unfold url. by rewrite mac_url_eqb, String.eqb_refl. }
  eexists _, _. split.
  { rewrite fleet_call by (apply mac_path_plain). unfold hbind, serve, fleet_request. cbn [hr_method hr_url].
    fold url. rewrite Hex. reflexivity. }
  unfold held in *. cbn [fl_rows set_fleet_rows]. revert Hh. clear Hex. unfold held_rows.
  induction (fl_rows g) as [|row rows IH]; [done|]. rewrite fmap_cons. cbn [List.find fst snd].
  destruct (String.eqb_spec key row.1) as [Hk|]; [|exact IH]. intros [= <-]. f_equal. clear IH Hl. cbn [snd].
  unfold drop_mac. rewrite <-Hk. generalize (row.2). intros ms. induction ms as [|m ms IH]; [done|].
  cbn [List.filter]. unfold url at 1. rewrite mac_url_eqb. rewrite fmap_cons. cbn [List.filter].
  destruct (String.eqb (normalizeMac m) mac) eqn:Hm; cbn [negb].
  - rewrite IH. destruct (Js.truthy _); [|done]. cbn [List.filter]. by rewrite Hm.
  - rewrite fmap_cons. cbn [List.filter]. destruct (Js.truthy _); [|exact IH]. cbn [List.filter]. rewrite Hm. cbn [negb].
    f_equal. exact IH.
Qed.

Lemma fleet_delete (g : Fleet) :
  match held g with
  | Some _ => ∃ g' j, callFortiOs (transport "fg1") DELETE (target_path name) None g = (g', Ok j) ∧ held g' = None
  | None => ∃ g' e, callFortiOs (transport "fg1") DELETE (target_path name) None g = (g', Throw e) ∧ not_found_error e ∧
              held g' = None
  end.
Proof.
  set (url := key +:+ query).
  assert (existsb (names_mac url) (fl_rows g) = false) as Hno.
  { apply not_true_iff_false. intros (row & Hin & (m & Hm & Heq%String.eqb_eq)%existsb_exists)%existsb_exists.
    assert (Js.includes "/macs/" url = false) as Hi by (vm_compute; reflexivity).
    rewrite Heq in Hi. unfold mac_url in Hi. by rewrite includes_middle in Hi. }
  assert (∀ row, names_target url row = String.eqb key row.1) as Hn by (intros row; apply eqb_query).
  assert (existsb (names_target url) (fl_rows g) = bool_decide (is_Some (held g))) as Hex.
  { unfold held, held_rows. destruct (List.find _ (fl_rows g)) as [row|] eqn:Hf.
    - rewrite bool_decide_eq_true_2 by done. apply find_some in Hf as [Hin Hk]. apply existsb_exists.
      exists row. by rewrite Hn.
    - rewrite bool_decide_eq_false_2 by (by intros []). apply not_true_iff_false. intros (row & Hin & Hk)%existsb_exists.
      eapply find_none in Hf; [|done]. cbv beta in Hf. rewrite Hn in Hk. congruence. }
  assert (callFortiOs (transport "fg1") DELETE (target_path name) None g =
    if bool_decide (is_Some (held g))
    then (set_fleet_rows (List.filter (λ row, negb (names_target url row)) (fl_rows g)) g, Ok (JObj []))
    else (g, Throw (AppError 404 ("Endpoint not found: " +:+ target_path name)))) as Hrun.
  { rewrite fleet_call by done. unfold hbind, serve, fleet_request. cbn [hr_method hr_url].
    change ("https://fg1:443" +:+ target_path name +:+ query) with url. rewrite Hno, Hex. by case_bool_decide. }
  destruct (held g) as [macs|] eqn:Hh; [rewrite bool_decide_eq_true_2 in Hrun by done|rewrite bool_decide_eq_false_2 in Hrun by (by intros [])].
  - eexists _, _. split; [exact Hrun|]. unfold held, held_rows. cbn [fl_rows set_fleet_rows].
    destruct (List.find _ _) as [row|] eqn:Hf; [|done].
    apply find_some in Hf as [Hin Hk]. apply filter_In in Hin as [_ Hin]. rewrite Hn, Hk in Hin. done.
  - eexists g, _. split; [exact Hrun|]. split; [left; by vm_compute|done].
Qed.

Lemma fleet_device : quarantine_device (transport "fg1") name held.
Proof.
  split; [apply fleet_get|apply fleet_create| |apply fleet_remove|apply fleet_delete].
  intros w mac d l Hl Hn Ht. by apply fleet_add.
Qed.
End fleet.

(** ** What the fan-outs leave alone *)

Section service_proofs.
Context `{Net W}.
Implicit Types s : QState W.
Notation Q := (M (QState W)).

(** Device calls change the world and nothing in the database. *)
Definition net_only {A} (m : Q A) : Prop := ∀ s s' r, m s = (s', r) → ∃ w, s' = set_world w s.

Lemma set_world_id s : set_world (qs_world s) s = s.
Proof. by destruct s. Qed.

Lemma net_only_readonly {A} (m : Q A) : readonly m → net_only m.
Proof. intros Hm s s' r ->%Hm. exists (qs_world s). by rewrite set_world_id. Qed.
Lemma net_only_on_net {A} (m : M W A) : net_only (on_net m).
Proof. intros s s' r. unfold on_net. destruct (m (qs_world s)) as [w r']. intros [= <- <-]. by exists w. Qed.
Lemma net_only_hbind {A B} (m : Q A) (k : A → Q B) : net_only m → (∀ a, net_only (k a)) → net_only (hbind m k).
Proof.
  intros Hm Hk s s' r. unfold hbind. destruct (m s) as [s1 [a|e]] eqn:Hms; apply Hm in Hms as [w ->].
  - intros Hr. apply Hk in Hr as [w' ->]. by exists w'.
  - intros [= <- <-]. by exists w.
Qed.
Lemma net_only_hattempt {A} (m : Q A) : net_only m → net_only (hattempt m).
Proof. intros Hm s s' r. unfold hattempt. destruct (m s) as [s1 x] eqn:Hms. intros [= <- <-]. by eapply Hm. Qed.
Lemma net_only_hcollect {A B} (f : A → Q B) l : (∀ x, net_only (f x)) → net_only (hcollect f l).
Proof.
  intros Hf. induction l as [|x l IH]; simpl; [apply net_only_readonly, readonly_hret|].
  apply net_only_hbind; [done|]. intros y. apply net_only_hbind; [done|]. intros ys. apply net_only_readonly, readonly_hret.
Qed.
Lemma readonly_hget : readonly (hget : Q _).
Proof. by intros s s' r [= <- <-]. Qed.

Ltac solve_net :=
  intros; repeat (match goal with
  | |- net_only (hbind _ _) => apply net_only_hbind
  | |- net_only (hattempt _) => apply net_only_hattempt
  | |- net_only (hcollect _ _) => apply net_only_hcollect
  | |- net_only (on_net _) => apply net_only_on_net
  | |- net_only hget => apply net_only_readonly, readonly_hget
  | |- ∀ _, _ => intros ?
  | |- context [match ?x with _ => _ end] => destruct x
  end); try (apply net_only_readonly; solve [unfold q_now; eauto with frame]).

Lemma net_only_failed_target d i m : net_only (failed_target (W := W) d i m).
Proof. unfold failed_target. solve_net. Qed.
Lemma net_only_quarantine_on a macs actor x : net_only (quarantine_on a macs actor x).
Proof.
  unfold quarantine_on. apply net_only_hbind; [apply net_only_readonly, readonly_hget|]. intros s.
  solve_net; apply net_only_failed_target.
Qed.
Lemma net_only_release_on a t : net_only (release_on a t).
Proof. unfold release_on. solve_net. Qed.
Lemma net_only_verify_on a macs t : net_only (verify_on a macs t).
Proof. unfold verify_on. solve_net. Qed.
Lemma readonly_scope_guard k a what : readonly (scope_guard (W := W) k a what).
Proof. unfold scope_guard. solve_frame. Qed.
Lemma net_only_verify id k : net_only (verifyAssetQuarantine id k).
Proof.
  unfold verifyAssetQuarantine. apply net_only_hbind; [apply net_only_readonly; eauto with frame|]. intros [a|]; [|solve_net].
  apply net_only_hbind; [apply net_only_readonly, readonly_scope_guard|]. intros _.
  apply net_only_hbind; [apply net_only_hcollect; intros; apply net_only_verify_on|]. intros. solve_net.
Qed.

(** Every element of a collection was returned by one run. *)
Lemma hcollect_elem {A B} (f : A → Q B) l s s' ys :
  hcollect f l s = (s', Ok ys) → Forall2 (λ x y, ∃ s1 s2, f x s1 = (s2, Ok y)) l ys.
Proof.
  revert s ys. induction l as [|x l IH]; intros s ys Hr; simpl in Hr; hinv; [constructor|].
  constructor; [by do 2 eexists|by eapply IH].
Qed.

Lemma hcollect_db {A B} (f : A → Q B) l s s' ys :
  (∀ x, net_only (f x)) → hcollect f l s = (s', Ok ys) →
  Forall2 (λ x y, ∃ w s2, f x (set_world w s) = (s2, Ok y)) l ys.
Proof.
  intros Hf. revert s ys. enough (∀ w s ys, hcollect f l (set_world w s) = (s', Ok ys) →
    Forall2 (λ x y, ∃ w s2, f x (set_world w s) = (s2, Ok y)) l ys) as He.
  { intros s ys Hr. apply (He (qs_world s)). by rewrite set_world_id. }
  induction l as [|x l IH]; intros w s ys Hr; simpl in Hr; hinv; [constructor|].
  pose proof Hm as Hx. apply Hf in Hx as [w' ->]. constructor; [by do 2 eexists|].
  by eapply (IH w').
Qed.

(** ** One FortiGate of a quarantine *)

(** The FortiGate, asked through its own integration, showed every MAC. *)
Definition read_back (i : Integration) (device : string) (a : QAsset) (macs : list string) : Prop :=
  ∃ t (w0 w1 w2 w3 : W) held, buildQuarantineTransport i device w0 = (w1, Ok t) ∧
    shows t (quarantineTargetName (qa_id a)) w2 w3 held ∧ ∀ m, m ∈ macs → m ∈ held.

(** A target comes from a sighting on an enabled FortiGate with quarantine push. *)
Definition push_on s (i : QIntegration) : Prop :=
  i ∈ qs_integrations s ∧ i_enabled (qi_row i) = true ∧ qi_pushQuarantine i = true.
Definition pushable s (a : QAsset) (macs : list string) (x : Sighting) (tr : TargetRecord) : Prop :=
  sg_integrationId x = Some (tr_integrationId tr) ∧ sg_fortigateDevice x = tr_fortigateDevice tr ∧
  ∃ i, push_on s i ∧ i_id (qi_row i) = tr_integrationId tr ∧
       (tr_status tr = Synced → read_back (qi_row i) (tr_fortigateDevice tr) a macs).

(** What a target claims of the push. *)
Definition target_ok (macs : list string) (tr : TargetRecord) : Prop :=
  (tr_status tr = Synced ∧ tr_pushedMacs tr = macs ∧ tr_error tr = None) ∨
  (tr_status tr = FailedPush ∧ tr_pushedMacs tr = [] ∧ is_Some (tr_error tr)).

Lemma quarantine_on_total a macs actor x s s' r : quarantine_on a macs actor x s = (s', r) → ∃ o, r = Ok o.
Proof.
  unfold quarantine_on, failed_target, hattempt, hbind, hget, hret, q_now, hgets.
  destruct (if Js.otruthy _ then _ else _) as [i|]; [|intros [= <- <-]; by eexists].
  destruct (negb _); [intros [= <- <-]; by eexists|].
  destruct (on_net _ s) as [s1 [t|e]]; [|intros [= <- <-]; by eexists].
  destruct (on_net _ s1) as [s2 [t'|e]]; intros [= <- <-]; by eexists.
Qed.

Lemma find_integration_some p id s i :
  integration_row p id s = Some i → i ∈ qs_integrations s ∧ i_id (qi_row i) = id ∧ p i = true.
Proof.
  unfold integration_row. intros [Hin Hp]%find_some. apply list_elem_of_In in Hin.
  apply andb_true_iff in Hp as [Hid%String.eqb_eq Hp]. done.
Qed.

Lemma quarantine_on_some a macs actor x s s' tr :
  quarantine_on a macs actor x s = (s', Ok (Some tr)) →
  pushable s a (valid_macs macs) x tr ∧ target_ok (valid_macs macs) tr.
Proof.
  unfold quarantine_on, failed_target, hattempt, q_now. hred.
  destruct (sg_integrationId x) as [iid|] eqn:Hx; [|intros [=]].
  cbn [Js.otruthy default]. unfold id. destruct (Js.truthy iid); [|intros [=]].
  destruct (integration_row (λ i, i_enabled (qi_row i)) iid s) as [i|] eqn:Hi; [|intros [=]].
  apply find_integration_some in Hi as (Hin & Hid & Hen). destruct (qi_pushQuarantine i) eqn:Hpush; [|intros [=]].
  hred.
  assert (∀ m p st e, (st = Synced → read_back (qi_row i) (sg_fortigateDevice x) a (valid_macs macs)) →
    pushable s a (valid_macs macs) x (mkTarget (sg_fortigateDevice x) (i_id (qi_row i)) m p st e)) as Hpu.
  { intros m p st e Hb. unfold pushable. cbn. rewrite Hx, Hid. split_and!; [done..|]. by exists i. }
  unfold hbind, hgets, hret.
  destruct (on_net (buildQuarantineTransport (qi_row i) (sg_fortigateDevice x)) s) as [s1 [t|e]] eqn:Hbt.
  2:{ intros Hq. injection Hq as <- <-. split; [by apply Hpu|right; cbn; eauto]. }
  unfold on_net in *. destruct (pushQuarantineToFortigate _ t (qs_world s1)) as [w2 [r|e]] eqn:Hp;
    intros [= <- <-].
  2:{ split; [by apply Hpu|right; cbn; eauto]. }
  apply pushQuarantine_ok in Hp as (-> & _ & w1 & held & Hg & Hm). cbn [qr_fortigateDevice qr_pushedMacs pq_macs pq_deviceName pq_assetId] in *.
  split; [|by left]. apply Hpu. intros _. destruct (buildQuarantineTransport _ _ _) as [w0' r0] eqn:Hb. injection Hbt as _ ->.
  by exists t, (qs_world s), w0', w1, w2, held.
Qed.

(** The MACs of an asset are normal already. *)
Lemma unique_id l : NoDup l → unique l = l.
Proof.
  unfold unique. enough (∀ acc, NoDup (acc ++ l) → foldl (λ acc y, sadd y acc) acc l = acc ++ l) as He by apply (He []).
  induction l as [|x l IH]; intros acc Hnd; simpl; [by rewrite app_nil_r|].
  unfold sadd at 2. rewrite decide_False.
  - rewrite (IH (acc ++ [x])); rewrite <-app_assoc; done.
  - intros Hx. apply NoDup_app in Hnd as (_ & Hd & _). apply (Hd x Hx). left.
Qed.

Lemma filter_all {A} (f : A → bool) l : (∀ x, x ∈ l → f x = true) → List.filter f l = l.
Proof.
  induction l as [|x l IH]; intros Hl; [done|]. simpl. rewrite Hl by left. f_equal. apply IH. intros y Hy. apply Hl. by right.
Qed.

Lemma valid_macs_idem l : valid_macs (valid_macs l) = valid_macs l.
Proof.
  assert (normalizeMac <$> valid_macs l = valid_macs l) as He.
  { assert (∀ m, m ∈ valid_macs l → normalizeMac m = m) as Hn by (intros; by eapply valid_mac_normal).
    induction (valid_macs l) as [|m k IH]; [done|]. rewrite fmap_cons, Hn by left. f_equal. apply IH.
    intros x Hx. apply Hn. by right. }
  unfold valid_macs at 1. rewrite He. rewrite unique_id.
  - apply filter_all. intros m Hm. by apply elem_valid_macs in Hm as [? _].
  - apply NoDup_bfilter, NoDup_unique.
Qed.
Lemma macsForAsset_valid a : valid_macs (macsForAsset a) = macsForAsset a.
Proof. apply valid_macs_idem. Qed.

(** ** Whose FortiGates are called

    One use, for the asset [id], of the transport of an integration that [ok]
    allows. *)
Inductive device_step (ok : QIntegration → Prop) (id : string) : W → W → Prop :=
  | ds_build i device w w' r : ok i → buildQuarantineTransport (qi_row i) device w = (w', r) → device_step ok id w w'
  | ds_push i device w0 w1 t p w w' r :
      ok i → buildQuarantineTransport (qi_row i) device w0 = (w1, Ok t) → pq_assetId p = id →
      pushQuarantineToFortigate p t w = (w', r) → device_step ok id w w'
  | ds_unpush i device w0 w1 t w w' r :
      ok i → buildQuarantineTransport (qi_row i) device w0 = (w1, Ok t) →
      unpushQuarantineFromFortigate id t w = (w', r) → device_step ok id w w'
  | ds_verify i device w0 w1 t macs w w' r :
      ok i → buildQuarantineTransport (qi_row i) device w0 = (w1, Ok t) →
      verifyQuarantineOnFortigate id macs t w = (w', r) → device_step ok id w w'.

(** [m] calls devices only so, and leaves the integrations alone. *)
Definition calls (ok : QIntegration → Prop) (id : string) {A} (m : Q A) s : Prop :=
  ∀ s' r, m s = (s', r) → qs_integrations s' = qs_integrations s ∧ rtc (device_step ok id) (qs_world s) (qs_world s').

Lemma calls_quiet ok id {A} (m : Q A) s :
  (∀ s' r, m s = (s', r) → qs_integrations s' = qs_integrations s ∧ qs_world s' = qs_world s) → calls ok id m s.
Proof. intros Hm s' r [-> ->]%Hm. done. Qed.
Lemma calls_readonly ok id {A} (m : Q A) s : readonly m → calls ok id m s.
Proof. intros Hm. apply calls_quiet. by intros s' r ->%Hm. Qed.
Lemma calls_hbind ok id {A B} (m : Q A) (k : A → Q B) s :
  calls ok id m s → (∀ a s1, m s = (s1, Ok a) → qs_integrations s1 = qs_integrations s → calls ok id (k a) s1) →
  calls ok id (hbind m k) s.
Proof.
  intros Hm Hk s' r. unfold hbind. destruct (m s) as [s1 [a|e]] eqn:Hr.
  - destruct (Hm _ _ Hr) as [Hi Hw]. intros Hr'. destruct (Hk a s1 eq_refl Hi _ _ Hr') as [Hi' Hw']. split; [congruence|by etrans].
  - intros [= <- <-]. by apply (Hm _ (Throw e)).
Qed.
Lemma calls_hattempt ok id {A} (m : Q A) s : calls ok id m s → calls ok id (hattempt m) s.
Proof. intros Hm s' r. unfold hattempt. destruct (m s) as [s1 x] eqn:Hr. intros [= <- <-]. by eapply Hm. Qed.
Lemma calls_hcollect ok id {A B} (f : A → Q B) l s :
  (∀ x s1, x ∈ l → qs_integrations s1 = qs_integrations s → calls ok id (f x) s1) → calls ok id (hcollect f l) s.
Proof.
  revert s. induction l as [|x l IH]; intros s Hf; simpl; [apply calls_readonly, readonly_hret|].
  apply calls_hbind; [apply Hf; [by left|done]|]. intros y s1 _ Hi. apply calls_hbind.
  - apply IH. intros x' s2 Hx He. apply Hf; [by right|congruence].
  - intros ys s2 _ _. apply calls_readonly, readonly_hret.
Qed.
Lemma calls_on_net ok id {A} (m : M W A) s :
  (∀ w r, m (qs_world s) = (w, r) → device_step ok id (qs_world s) w) → calls ok id (on_net m) s.
Proof.
  intros Hm s' r. unfold on_net. destruct (m (qs_world s)) as [w x] eqn:Hr. intros [= <- <-]. split; [done|]. by apply rtc_once, (Hm w x).
Qed.
Lemma calls_log ok id action x s : calls ok id (logEvent action x) s.
Proof. apply calls_quiet. by intros s' r [= <- <-]. Qed.
Lemma calls_asset_update ok id x f s : calls ok id (asset_update x f) s.
Proof.
  apply calls_quiet. intros s' r. unfold asset_update, hbind, hgets, hguard, hret, hthrow, hmodify.
  destruct (bool_decide _); by intros [= <- <-].
Qed.

(** The uses of a quarantine, a release and a check. *)
Lemma calls_quarantine_on ok a macs actor x s :
  (∀ i, push_on s i → sg_integrationId x = Some (i_id (qi_row i)) → ok i) →
  calls ok (qa_id a) (quarantine_on a macs actor x) s.
Proof.
  intros Hok. unfold quarantine_on. apply calls_hbind; [apply calls_readonly, readonly_hget|]. intros s0 s1 [= <- <-] _.
  destruct (sg_integrationId x) as [iid|] eqn:Hx; [|apply calls_readonly, readonly_hret]. cbn [Js.otruthy].
  destruct (Js.truthy iid); [|apply calls_readonly, readonly_hret].
  destruct (integration_row _ _ s) as [i|] eqn:Hi; [|apply calls_readonly, readonly_hret].
  apply find_integration_some in Hi as (Hin & Hid & Hen).
  destruct (qi_pushQuarantine i) eqn:Hp; cbn [negb]; [|apply calls_readonly, readonly_hret].
  assert (ok i) as Hi by (apply Hok; [by split_and!|by rewrite Hid]).
  assert (∀ d n msg s1, calls ok (qa_id a) (failed_target d n msg) s1) as Hfail
    by (intros; apply calls_readonly; unfold failed_target, q_now; solve_frame).
  apply calls_hbind; [apply calls_hattempt, calls_on_net; intros w r; by apply ds_build|].
  intros [t|e] s1 Hb _; [|apply Hfail].
  assert (∃ w1, buildQuarantineTransport (qi_row i) (sg_fortigateDevice x) (qs_world s) = (w1, Ok t)) as [w1 Hbuild].
  { unfold hattempt, on_net in Hb. destruct (buildQuarantineTransport _ _ _) as [w1 r1]. injection Hb as _ ->. by exists w1. }
  apply calls_hbind; [apply calls_hattempt, calls_on_net; intros w r; by eapply ds_push|].
  intros [r|e] s2 _ _; [|apply Hfail]. apply calls_readonly. unfold q_now. solve_frame.
Qed.

Lemma calls_target ok id t {A} (m : Transport → M W A) s :
  (∀ i, i ∈ qs_integrations s → i_id (qi_row i) = tr_integrationId t → ok i) →
  (∀ i w0 w1 x w w' r, ok i → buildQuarantineTransport (qi_row i) (tr_fortigateDevice t) w0 = (w1, Ok x) → m x w = (w', r) → device_step ok id w w') →
  ∀ i, target_integration t s = Some i →
  calls ok id (let! transport := on_net (buildQuarantineTransport (qi_row i) (tr_fortigateDevice t)) in on_net (m transport)) s.
Proof.
  intros Hok Hm i. unfold target_integration, integration_row. destruct (Js.truthy _); [|done].
  intros [Hin [Hid%String.eqb_eq _]%andb_true_iff]%find_some. apply list_elem_of_In in Hin. specialize (Hok i Hin Hid).
  apply calls_hbind; [apply calls_on_net; intros w r; by apply ds_build|]. intros x s1 Hb _.
  apply calls_on_net. intros w r. unfold on_net in Hb. destruct (buildQuarantineTransport _ _ _) as [w1 r1] eqn:Hbuild.
  injection Hb as _ ->. by eapply Hm.
Qed.

Lemma calls_release_on ok a t s :
  (∀ i, i ∈ qs_integrations s → i_id (qi_row i) = tr_integrationId t → ok i) → calls ok (qa_id a) (release_on a t) s.
Proof.
  intros Hok. unfold release_on. apply calls_hbind; [apply calls_readonly; solve_frame|]. intros o s1 [= <- <-] _.
  destruct (target_integration t s) as [i|] eqn:Hi; [|apply calls_readonly, readonly_hret].
  apply calls_hbind; [|intros [r|e] s2 _ _; apply calls_readonly; solve_frame].
  apply calls_hattempt, calls_target; [done| |done]. intros. by eapply ds_unpush.
Qed.
Lemma calls_verify_on ok a macs t s :
  (∀ i, i ∈ qs_integrations s → i_id (qi_row i) = tr_integrationId t → ok i) → calls ok (qa_id a) (verify_on a macs t) s.
Proof.
  intros Hok. unfold verify_on. apply calls_hbind; [apply calls_readonly; solve_frame|]. intros o s1 [= <- <-] _.
  destruct (target_integration t s) as [i|] eqn:Hi; [|apply calls_readonly, readonly_hret].
  apply calls_hbind; [|intros [[p m]|e] s2 _ _; [destruct (_ && _)|]; apply calls_readonly; solve_frame].
  apply calls_hattempt, calls_target; [done| |done]. intros. by eapply ds_verify.
Qed.

(** ** A quarantine *)

Definition scoped_candidates (params : QuarantineAssetParams) (id : string) s : list Sighting :=
  match qp_tokenIntegrationIds params with
  | Some scope => List.filter (token_covers scope) (getQuarantineCandidates id s)
  | None => getQuarantineCandidates id s
  end.

(** The targets of a quarantine come from its candidates, in their order. *)
Record fan_out (params : QuarantineAssetParams) (a : QAsset) (s : QState W) (targets : list TargetRecord) : Prop := {
  fo_from : ∀ tr, tr ∈ targets → ∃ x, x ∈ scoped_candidates params (qa_id a) s ∧ pushable s a (macsForAsset a) x tr;
  fo_ok : ∀ tr, tr ∈ targets → target_ok (macsForAsset a) tr;
}.

Lemma fan_out_run params a s s' outcomes :
  hcollect (quarantine_on a (macsForAsset a) (qp_actor params)) (scoped_candidates params (qa_id a) s) s = (s', Ok outcomes) →
  fan_out params a s (omap id outcomes).
Proof.
  intros Hr. apply hcollect_db in Hr; [|intros; apply net_only_quarantine_on].
  assert (∀ tr, tr ∈ omap id outcomes → ∃ x w s2, x ∈ scoped_candidates params (qa_id a) s ∧
    quarantine_on a (macsForAsset a) (qp_actor params) x (set_world w s) = (s2, Ok (Some tr))) as Hin.
  { intros tr (o & Ho & Hs)%list_elem_of_omap. unfold id in Hs. subst o.
    apply list_elem_of_lookup in Ho as [k Hk].
    destruct (Forall2_lookup_r _ _ _ _ _ Hr Hk) as (x & Hx & w & s2 & Hq). exists x, w, s2.
    split; [by eapply list_elem_of_lookup_2|done]. }
  split; intros tr Htr; destruct (Hin tr Htr) as (x & w & s2 & Hx & Hq); apply quarantine_on_some in Hq as (Hp & Ht);
    rewrite macsForAsset_valid in *; [by exists x|done].
Qed.

(** What a successful quarantine writes. *)
Definition quarantined_row (params : QuarantineAssetParams) (t : Z) (targets : list TargetRecord) (a : QAsset) : QAsset → QAsset :=
  stamp_quarantine t (qp_actor params)
    (if String.eqb (qa_status a) "quarantined" then qa_statusBefore a else Some (qa_status a))
    (if Js.otruthy (qp_reason params) then qp_reason params
     else if Js.otruthy (qa_reason a) then qa_reason a else None)
    (default t (qa_quarantinedAt a)) targets.

Lemma find_asset_some id s a : find_asset id s = Some a → a ∈ qs_assets s ∧ qa_id a = id.
Proof. unfold find_asset. intros [Hin Hid%String.eqb_eq]%find_some. by apply list_elem_of_In in Hin. Qed.

Lemma find_asset_own id s a : find_asset id s = Some a → find_asset (qa_id a) s = Some a.
Proof. intros Hf. by destruct (find_asset_some _ _ _ Hf) as [_ ->]. Qed.

Lemma update_asset_run id f s :
  is_Some (find_asset id s) → asset_update id f s = (set_assets (map_asset id f (qs_assets s)) s, Ok tt).
Proof.
  intros [a Ha]. unfold asset_update, hbind, hgets. rewrite Ha. rewrite bool_decide_eq_false_2 by done. done.
Qed.

Lemma quarantineAsset_ok params s s' r :
  quarantineAsset params s = (s', Ok r) → ∃ a w,
  find_asset (qp_assetId params) s = Some a ∧ infra (qa_assetType a) = false ∧ macsForAsset a ≠ [] ∧
  fan_out params a s (qx_targets r) ∧ List.filter (is_status Synced) (qx_targets r) ≠ [] ∧
  s' = log_q (if (qx_failedCount r =? 0)%nat then "asset.quarantine.succeeded" else "asset.quarantine.partial") (qa_id a)
         (set_assets (map_asset (qa_id a) (quarantined_row params (now w) (qx_targets r) a) (qs_assets s)) (set_world w s)).
Proof.
  unfold quarantineAsset. unfold hbind at 1, hgets at 1. intros Hr.
  destruct (find_asset (qp_assetId params) s) as [a|] eqn:Ha; [|discriminate]. hinv.
  match goal with Hc : hcollect _ _ ?s0 = (?s1, Ok ?o) |- _ => rename Hc into Hcol; rename s0 into s; rename o into os;
    pose proof Hcol as Hnet; apply net_only_hcollect in Hnet as [w ->]; [|intros; apply net_only_quarantine_on] end.
  apply (fan_out_run params) in Hcol.
  destruct (Nat.eqb_spec (length (List.filter (is_status Synced) (omap id os))) 0) as [Hz|Hz]; [by hinv|].
  unfold q_now, hgets at 1 in Hr. unfold hbind at 1 in Hr. unfold hbind at 1 in Hr.
  rewrite update_asset_run in Hr by (exists a; by eapply (find_asset_own (qp_assetId params))).
  injection Hr as <- <-.
  exists a, w. split_and!; try done.
  - match goal with Hb : bool_decide (macsForAsset a = []) = false |- _ => by apply bool_decide_eq_false in Hb end.
  - intros Hn. cbn [qx_targets] in Hn. by rewrite Hn in Hz.
Qed.

(** A run that stops in its read-only beginning leaves the state alone. *)
Lemma throw_prefix {A B} (m : Q A) (k : A → Q B) s s' e (P : Prop) :
  readonly m → hbind m k s = (s', Throw e) → (s' = s → P) → (∀ a, m s = (s, Ok a) → k a s = (s', Throw e) → P) → P.
Proof.
  intros Hm [Hr|(s1 & a & Ha & Hk)]%hbind_throw Hs Hn; [by apply Hs, (Hm _ _ _ Hr)|].
  pose proof (Hm _ _ _ Ha) as ->. by eapply Hn.
Qed.

(** A quarantine that is refused or fails writes nothing but its audit event. *)
Lemma quarantineAsset_throw params s s' e :
  quarantineAsset params s = (s', Throw e) → ∃ w, s' = set_world w s ∨ ∃ id, s' = log_q "asset.quarantine.failed" id (set_world w s).
Proof.
  assert (s' = s → ∃ w, s' = set_world w s ∨ ∃ id, s' = log_q "asset.quarantine.failed" id (set_world w s)) as Hsame.
  { intros ->. exists (qs_world s). left. by rewrite set_world_id. }
  unfold quarantineAsset. unfold hbind at 1, hgets at 1. intros Hr.
  destruct (find_asset (qp_assetId params) s) as [a|] eqn:Ha; [|injection Hr as <- _; by apply Hsame].
  do 5 (eapply throw_prefix; [|exact Hr|exact Hsame|]; [by eauto with frame|]; clear Hr; intros ? ? Hr).
  apply hbind_throw in Hr as [Hr|(s1 & os & Hcol & Hr)].
  { apply net_only_hcollect in Hr as [w ->]; [by exists w; left|intros; apply net_only_quarantine_on]. }
  apply net_only_hcollect in Hcol as [w ->]; [|intros; apply net_only_quarantine_on].
  destruct (Nat.eqb _ 0).
  - exists w. right. exists (qa_id a). unfold logEvent, hmodify, hbind, hthrow in Hr. by injection Hr as <- _.
  - unfold q_now, hgets at 1 in Hr. unfold hbind at 1 in Hr. unfold hbind at 1 in Hr.
    rewrite update_asset_run in Hr by (exists a; by eapply (find_asset_own (qp_assetId params))). discriminate.
Qed.

(** The same for a release, and what it writes. *)
Lemma scope_guard_ok k a what s s' :
  scope_guard k a what s = (s', Ok tt) → s' = s ∧
  ∀ scope, k = Some scope → ∀ t, t ∈ qa_targets a → tr_integrationId t ∈ scope.
Proof.
  unfold scope_guard. destruct k as [scope|]; [|by intros [= <-]]. intros Hg. apply hguard_ok in Hg as [Hg ->].
  split; [done|]. intros ? [= <-] t Ht. apply negb_false_iff, bool_decide_eq_true in Hg.
  destruct (decide (tr_integrationId t ∈ scope)) as [|Hn]; [done|]. exfalso.
  assert (t ∈ outside_scope scope (qa_targets a)) as Hin.
  { apply elem_bfilter. split; [done|]. by rewrite bool_decide_eq_false_2. }
  destruct (outside_scope scope (qa_targets a)); [by apply elem_of_nil in Hin|done].
Qed.

Lemma release_on_total a t s s' r : release_on a t s = (s', r) →
  ∃ o, r = Ok o ∧ match o with inl d => d | inr (d, _) => d end = tr_fortigateDevice t.
Proof.
  unfold release_on, hattempt, hbind at 1, hgets. destruct (target_integration t s) as [i|].
  - unfold hbind at 1. match goal with |- context [hbind ?m ?k s] => destruct (hbind m k s) as [s1 [u|e]] end;
      intros [= <- <-]; by eexists.
  - intros [= <- <-]. by eexists.
Qed.

Lemma hcollect_total {A B} (f : A → Q B) (P : A → B → Prop) l s s' r :
  (∀ x s s' r, f x s = (s', r) → ∃ y, r = Ok y ∧ P x y) → hcollect f l s = (s', r) →
  ∃ ys, r = Ok ys ∧ Forall2 P l ys.
Proof.
  intros Hf. revert s s' r. induction l as [|x l IH]; intros s s' r Hr; simpl in Hr.
  { injection Hr as _ <-. exists []. split; [done|constructor]. }
  unfold hbind at 1 in Hr. destruct (f x s) as [s1 r1] eqn:Hx. destruct (Hf _ _ _ _ Hx) as (y & -> & Hp).
  unfold hbind at 1 in Hr. destruct (hcollect f l s1) as [s2 r2] eqn:Hl. destruct (IH _ _ _ Hl) as (ys & -> & Hps).
  injection Hr as _ <-. exists (y :: ys). split; [done|by constructor].
Qed.

(** The device a release outcome is about. *)
Definition outcome_device (o : string + string * string) : string := match o with inl d => d | inr (d, _) => d end.

Lemma releaseQuarantine_run id actor k s s' r :
  releaseQuarantine id actor k s = (s', r) →
  (∃ e, r = Throw e ∧ s' = s) ∨
  ∃ a w x, find_asset id s = Some a ∧ qa_status a = "quarantined"%string ∧ r = Ok x ∧
    (∀ scope, k = Some scope → ∀ t, t ∈ qa_targets a → tr_integrationId t ∈ scope) ∧
    rr_newStatus x = default "active"%string (qa_statusBefore a) ∧
    (∃ os, Forall2 (λ t o, outcome_device o = tr_fortigateDevice t) (qa_targets a) os ∧
       rr_unpushedFrom x = lefts os ∧ rr_failedToUnpush x = rights os) ∧
    qs_assets s' = map_asset id (stamp_release (now w) actor (default "active"%string (qa_statusBefore a))) (qs_assets s) ∧
    qs_sightings s' = qs_sightings s ∧ qs_integrations s' = qs_integrations s.
Proof.
  unfold releaseQuarantine. unfold hbind at 1, hgets at 1. intros Hr.
  destruct (find_asset id s) as [a|] eqn:Ha; [|injection Hr as <- <-; left; by eexists].
  destruct (String.eqb_spec (qa_status a) "quarantined") as [Hq|Hq]; [|injection Hr as <- <-; left; by eexists].
  unfold hbind at 1, hguard at 1 in Hr. cbn [negb] in Hr. unfold hret at 1 in Hr. unfold hbind at 1 in Hr.
  match type of Hr with context [scope_guard k a ?what s] => destruct (scope_guard k a what s) as [s1 [[]|e]] eqn:Hg end.
  2:{ apply readonly_scope_guard in Hg as ->. injection Hr as <- <-. left. by eexists. }
  apply scope_guard_ok in Hg as [-> Hscope]. unfold hbind at 1 in Hr.
  destruct (hcollect (release_on a) (qa_targets a) s) as [s1 rc] eqn:Hcol. pose proof Hcol as Hnet.
  apply net_only_hcollect in Hnet as [w ->]; [|intros; apply net_only_release_on].
  apply (hcollect_total _ (λ t o, outcome_device o = tr_fortigateDevice t)) in Hcol as (os & -> & Hos).
  2:{ intros t s0 s1 r0 Hr0. destruct (release_on_total _ _ _ _ _ Hr0) as (o & -> & Ho). by exists o. }
  destruct (find_asset_some _ _ _ Ha) as [_ <-].
  unfold q_now, hgets at 1 in Hr. unfold hbind at 1 in Hr. unfold hbind at 1 in Hr.
  rewrite update_asset_run in Hr by (by exists a). right.
  destruct (0 <? length (rights os))%nat; injection Hr as <- <-; exists a, w; eexists; split_and!; eauto; by exists os.
Qed.

(** Under a token the quarantine of an asset, its release and its check call only
    FortiGates of the token's integrations. *)
Definition in_scope (scope : list string) s (i : QIntegration) : Prop := i ∈ qs_integrations s ∧ i_id (qi_row i) ∈ scope.

Lemma token_covers_in scope x i : token_covers scope x = true → sg_integrationId x = Some i → i ∈ scope.
Proof. unfold token_covers. intros Hc Hs. rewrite Hs in Hc. by apply andb_true_iff in Hc as [_ ?%bool_decide_eq_true]. Qed.

Lemma calls_quarantineAsset scope params s :
  qp_tokenIntegrationIds params = Some scope →
  calls (λ i, push_on s i ∧ i_id (qi_row i) ∈ scope) (qp_assetId params) (quarantineAsset params) s.
Proof.
  intros Hk. unfold quarantineAsset. apply calls_hbind; [apply calls_readonly; solve_frame|]. intros o s1 [= <- <-] _.
  destruct (find_asset (qp_assetId params) s) as [a|] eqn:Ha; [|apply calls_readonly; solve_frame].
  destruct (find_asset_some _ _ _ Ha) as [_ <-]. rewrite Hk.
  do 2 (apply calls_hbind; [apply calls_readonly; eauto with frame|]; intros [] ? Hg _; apply hguard_ok in Hg as [_ ->]).
  apply calls_hbind; [apply calls_readonly; solve_frame|]. intros cands s1 [= <- <-] _.
  do 2 (apply calls_hbind; [apply calls_readonly; eauto with frame|]; intros [] ? Hg _; apply hguard_ok in Hg as [_ ->]).
  apply calls_hbind.
  - apply calls_hcollect. intros x s1 [_ Hx]%elem_bfilter Hi. apply calls_quarantine_on. unfold push_on. rewrite Hi.
    intros i Hp Hxi. split; [done|]. by eapply token_covers_in.
  - intros os s1 _ _. cbv zeta. destruct (Nat.eqb _ 0).
    + apply calls_hbind; [apply calls_log|]. intros _ s2 _ _. apply calls_readonly; solve_frame.
    + apply calls_hbind; [apply calls_readonly; unfold q_now; solve_frame|]. intros t s2 _ _.
      apply calls_hbind; [apply calls_asset_update|]. intros _ s3 _ _.
      apply calls_hbind; [apply calls_log|]. intros _ s4 _ _. apply calls_readonly; solve_frame.
Qed.

Lemma calls_releaseQuarantine scope id actor s :
  calls (in_scope scope s) id (releaseQuarantine id actor (Some scope)) s.
Proof.
  unfold releaseQuarantine. apply calls_hbind; [apply calls_readonly; solve_frame|]. intros o s1 [= <- <-] _.
  destruct (find_asset id s) as [a|] eqn:Ha; [|apply calls_readonly; solve_frame].
  destruct (find_asset_some _ _ _ Ha) as [_ <-].
  apply calls_hbind; [apply calls_readonly; eauto with frame|]. intros [] ? Hg _; apply hguard_ok in Hg as [_ ->].
  apply calls_hbind; [apply calls_readonly, readonly_scope_guard|]. intros [] ? Hg _. apply scope_guard_ok in Hg as [-> Hsc].
  apply calls_hbind.
  - apply calls_hcollect. intros t s1 Ht Hi. apply calls_release_on. intros i Hin Hid. split; [by rewrite <-Hi|].
    rewrite Hid. by apply (Hsc scope).
  - intros os s1 _ _. cbv zeta.
    apply calls_hbind; [apply calls_readonly; unfold q_now; solve_frame|]. intros t s2 _ _.
    apply calls_hbind; [apply calls_asset_update|]. intros _ s3 _ _.
    apply calls_hbind; [apply calls_log|]. intros _ s4 _ _.
    apply calls_hbind; [destruct (_ <? _)%nat; [apply calls_log|apply calls_readonly; solve_frame]|].
    intros _ s5 _ _. apply calls_readonly; solve_frame.
Qed.

Lemma calls_verifyAssetQuarantine scope id s :
  calls (in_scope scope s) id (verifyAssetQuarantine id (Some scope)) s.
Proof.
  unfold verifyAssetQuarantine. apply calls_hbind; [apply calls_readonly; solve_frame|]. intros o s1 [= <- <-] _.
  destruct (find_asset id s) as [a|] eqn:Ha; [|apply calls_readonly; solve_frame].
  destruct (find_asset_some _ _ _ Ha) as [_ <-].
  apply calls_hbind; [apply calls_readonly, readonly_scope_guard|]. intros [] ? Hg _. apply scope_guard_ok in Hg as [-> Hsc].
  apply calls_hbind; [|intros os s1 _ _; apply calls_readonly; solve_frame].
  apply calls_hcollect. intros t s1 Ht Hi. apply calls_verify_on. intros i Hin Hid. split; [by rewrite <-Hi|].
  rewrite Hid. by apply (Hsc scope).
Qed.
End service_proofs.

(** C38: on a FortiGate that answers the single requests for a quarantine target
    as documented (read, create, add and remove a MAC, delete), a push of
    at least one valid MAC brings the target to exactly the valid MACs of the
    request, whatever it held before; a check then finds nothing missing; removing
    the target deletes it, and a second removal reports it absent. *)
Theorem quarantine_roundtrip `{Net W} p t held (w : W) :
  quarantine_device t (quarantineTargetName (pq_assetId p)) held →
  pq_deviceName p ≠ ""%string → valid_macs (pq_macs p) ≠ [] →
  ∃ w1 l w2 w3 w4,
    pushQuarantineToFortigate p t w =
      (w1, Ok (mkPushQResult (pq_deviceName p) (quarantineTargetName (pq_assetId p)) (valid_macs (pq_macs p)))) ∧
    held w1 = Some l ∧ (∀ m, m ∈ l ↔ m ∈ valid_macs (pq_macs p)) ∧
    verifyQuarantineOnFortigate (pq_assetId p) (valid_macs (pq_macs p)) t w1 = (w2, Ok (true, [])) ∧
    unpushQuarantineFromFortigate (pq_assetId p) t w2 = (w3, Ok (mkUnpushResult true false)) ∧ held w3 = None ∧
    unpushQuarantineFromFortigate (pq_assetId p) t w3 = (w4, Ok (mkUnpushResult false true)).
Proof.
  intros Hdev Hdn Hne. destruct (push_reconciles t _ held Hdev p w eq_refl Hdn Hne) as (w1 & l & E1 & H1 & Hl).
  destruct (getTarget_device _ _ _ Hdev w1) as (w2 & j & E2 & H2 & Hj & Hrd). rewrite H1 in Hj, Hrd, H2.
  destruct (deleteTarget_device _ _ _ Hdev w2) as (w3 & E3 & H3). rewrite H2 in E3.
  destruct (deleteTarget_device _ _ _ Hdev w3) as (w4 & E4 & _). rewrite H3 in E4.
  exists w1, l, w2, w3, w4. split_and!; try done.
  - unfold verifyQuarantineOnFortigate, hbind. rewrite E2, Hj. rewrite bool_decide_eq_true_2 by done. cbn [negb].
    unfold hlift. rewrite Hrd. change (default [] (Some l)) with l.
    assert (unique (normalizeMac <$> valid_macs (pq_macs p)) = valid_macs (pq_macs p)) as ->.
    { assert (normalizeMac <$> valid_macs (pq_macs p) = valid_macs (pq_macs p)) as ->.
      { rewrite <-(list_fmap_id (valid_macs _)) at 2. apply list_fmap_ext. intros i m Hm.
        by apply (valid_mac_normal (pq_macs p)), (list_elem_of_lookup_2 _ i). }
      apply unique_id, NoDup_bfilter, NoDup_unique. }
    rewrite filter_nil; [done|]. intros m Hm. by rewrite bool_decide_eq_true_2 by by apply Hl.
Qed.

#[local] Existing Instance RefFleet.net.

(** A laptop with one new MAC and one left over on the device. *)
Definition laptop_push : PushQuarantineParams :=
  mkPushQ "a1" (Some "laptop"%string) ["AA-BB-CC-DD-EE-01"; "not a mac"; "aabb.ccdd.ee02"]%string "user:ann" "fg1".
Definition laptop_fleet : RefFleet.Fleet := RefFleet.mkFleet [(RefFleet.key, ["aa:bb:cc:dd:ee:02"; "AA:BB:CC:DD:EE:09"]%string)] 0 None.

Lemma quarantine_roundtrip_witness :
  (∃ w1 l, pushQuarantineToFortigate laptop_push (RefFleet.transport "fg1") laptop_fleet =
     (w1, Ok (mkPushQResult "fg1" "polaris-q-a1" ["aa:bb:cc:dd:ee:01"; "aa:bb:cc:dd:ee:02"]%string)) ∧
   RefFleet.held w1 = Some l ∧ ∀ m, m ∈ l ↔ m ∈ ["aa:bb:cc:dd:ee:01"; "aa:bb:cc:dd:ee:02"]%string).
Proof.
  destruct (quarantine_roundtrip laptop_push (RefFleet.transport "fg1") RefFleet.held laptop_fleet fleet_device)
    as (w1 & l & w2 & w3 & w4 & H1 & H2 & H3 & _); [done|by vm_compute|].
  exists w1, l. split; [|split; [exact H2|exact H3]]. exact H1.
Defined.

(** A removal takes any device error whose text contains [404] for an absent
    target, and the path in that text contains the name made from the asset's id:
    with such an id a target that FortiOS refuses to delete counts as gone. *)
Lemma includes_app_r n a b : Js.includes n b = true → Js.includes n (a +:+ b) = true.
Proof. intros Hb. induction a as [|c a IH]; [done|]. simpl. by rewrite IH, orb_true_r. Qed.
Lemma toLowerCase_append a b : Js.toLowerCase (a +:+ b) = Js.toLowerCase a +:+ Js.toLowerCase b.
Proof. induction a as [|c a IH]; [done|]. unfold Js.toLowerCase in *. simpl. by rewrite IH. Qed.

Theorem refused_delete_reads_as_absent code id :
  Js.includes "404" (Js.toLowerCase (encodeURIComponent (quarantineTargetName id))) = true →
  reads_as_absent (AppError 502 ("FortiGate error (" +:+ code +:+ "): " +:+ target_path (quarantineTargetName id))) = true.
Proof.
  intros Hn. unfold reads_as_absent, exn_message, target_path. rewrite !toLowerCase_append.
  rewrite !orb_true_iff. right. by do 5 apply includes_app_r.
Qed.

Lemma refused_delete_reads_as_absent_witness :
  reads_as_absent (AppError 502 ("FortiGate error (-5): " +:+ target_path (quarantineTargetName "7c404e1b-0000"))) = true.
Proof. apply (refused_delete_reads_as_absent "-5" "7c404e1b-0000"). by vm_compute. Defined.
