(* ===== verification/QuarantineStates.v ===== *)
(** * The life of a quarantine

    Every request and job of [Quarantine] as one step on the database, the
    invariant of the columns it keeps, the scope of bearer tokens, and the writers
    of the status that go around it. *)

From S2P Require Import Prelude JsDate Cidr Store Http Push JsColl MonitorSettings Tokens Quarantine QuarantineProofs.

(** ** Steps *)

(** [Elsewhere] is what else happens: the world moves on, and the integrations
    and the settings are edited. *)
Inductive QOp (W : Type) :=
  | ReqQuarantine (c : Caller) (id : string) (reason : option string)
  | ReqRelease (c : Caller) (id : string)
  | ReqVerify (c : Caller) (id : string)
  | ReqBulkQuarantine (c : Caller) (ids : list string) (reason : option string)
  | ReqBulkRelease (c : Caller) (ids : list string)
  | ReqSettings (days : Z)
  | ReqStatus (id : string) (status username : option string)
  | ReqCreate (id : string) (hostname ipAddress macAddress assetType status username : option string)
  | ReqDelete (id : string)
  | ReqBulkDelete (ids : list string)
  | DiscoveryFlush (rows : list SightingInput)
  | EntraSync (id integrationName : string) (accountEnabled : bool) (lastSeen : option Z)
  | AdSync (id integrationName : string) (disabled : bool)
  | DecommissionJob
  | Elsewhere (w : W) (integrations : list QIntegration) (inactivityMonths : option Z).
Arguments ReqQuarantine {W}.
Arguments ReqRelease {W}.
Arguments ReqVerify {W}.
Arguments ReqBulkQuarantine {W}.
Arguments ReqBulkRelease {W}.
Arguments ReqSettings {W}.
Arguments ReqStatus {W}.
Arguments ReqCreate {W}.
Arguments ReqDelete {W}.
Arguments ReqBulkDelete {W}.
Arguments DiscoveryFlush {W}.
Arguments EntraSync {W}.
Arguments AdSync {W}.
Arguments DecommissionJob {W}.
Arguments Elsewhere {W}.

Section states.
Context `{Net W}.
Implicit Types s : QState W.

Definition run_op (op : QOp W) : M (QState W) unit :=
  match op with
  | ReqQuarantine c id reason => post_quarantine c id reason ;! hret tt
  | ReqRelease c id => delete_quarantine c id ;! hret tt
  | ReqVerify c id => post_quarantine_verify c id ;! hret tt
  | ReqBulkQuarantine c ids reason => post_bulk_quarantine c ids reason ;! hret tt
  | ReqBulkRelease c ids => post_bulk_release c ids ;! hret tt
  | ReqSettings days => put_sighting_settings days ;! hret tt
  | ReqStatus id st u => put_asset_status id st u
  | ReqCreate id h ip mac ty st u => post_asset id h ip mac ty st u
  | ReqDelete id => delete_asset id
  | ReqBulkDelete ids => bulk_delete_assets ids ;! hret tt
  | DiscoveryFlush rows => flush_sightings rows
  | EntraSync id n en ls => entra_update id n en ls
  | AdSync id n d => ad_update id n d
  | DecommissionJob => decommissionStaleAssets
  | Elsewhere w ints months => hmodify (λ s,
      mkQState (qs_assets s) (qs_sightings s) (qs_sightingMaxAge s) months ints (qs_events s) w)
  end.
Definition exec (ops : list (QOp W)) (s : QState W) : QState W := foldl (λ s op, (run_op op s).1) s ops.

Definition is_quarantined (a : QAsset) : bool := String.eqb (qa_status a) "quarantined".

(** What the columns of an asset say of its quarantine: nothing, or that some
    FortiGate took its MACs, since when, and the status to restore, which is never
    [quarantined] itself. *)
Definition held_target (t : TargetRecord) : Prop := tr_status t ≠ FailedPush ∧ tr_pushedMacs t ≠ [].
Definition unmarked (a : QAsset) : Prop :=
  qa_targets a = [] ∧ qa_statusBefore a = None ∧ qa_reason a = None ∧ qa_quarantinedAt a = None.
Definition marked (a : QAsset) : Prop :=
  (∃ t, t ∈ qa_targets a ∧ held_target t) ∧ is_Some (qa_quarantinedAt a) ∧ qa_statusBefore a ≠ Some "quarantined"%string.
Record row_marks (a : QAsset) : Prop := {
  rm_marks : unmarked a ∨ marked a;
  rm_targets : ∀ t, t ∈ qa_targets a → tr_status t ≠ FailedPush → tr_pushedMacs t ≠ [];
}.
(** The status agrees with the columns. *)
Record row_ok (a : QAsset) : Prop := {
  ro_in : qa_status a = "quarantined"%string → marked a ∧ is_Some (qa_statusBefore a);
  ro_out : qa_status a ≠ "quarantined"%string → unmarked a;
}.

(** The book, with the status of the assets in [E] out of step. *)
Record book_except (E : string → Prop) s : Prop := {
  bk_marks : ∀ a, a ∈ qs_assets s → row_marks a;
  bk_rows : ∀ a, a ∈ qs_assets s → ¬ E (qa_id a) → row_ok a;
  bk_ids : NoDup (qa_id <$> qs_assets s);
  bk_pairs : NoDup ((λ x, (sg_assetId x, sg_fortigateDevice x)) <$> qs_sightings s);
  bk_fk : ∀ x, x ∈ qs_sightings s → sg_assetId x ∈ qa_id <$> qs_assets s;
}.
Definition book_ok : QState W → Prop := book_except (λ _, False).

(** The writes that go around the quarantine of the asset [id]: it is created
    with the status [quarantined], or a directory sync or the decommission job
    changes its status while it is quarantined. *)
Definition held_in_quarantine (id : string) s : Prop := ∃ a, a ∈ qs_assets s ∧ qa_id a = id ∧ is_quarantined a = true.
Definition bypasses (op : QOp W) s (id : string) : Prop :=
  match op with
  | ReqCreate i _ _ _ _ st _ => i = id ∧ st = Some "quarantined"%string
  | EntraSync i _ _ _ | AdSync i _ _ => i = id ∧ held_in_quarantine id s
  | DecommissionJob =>
      0 < getAssetDecommissionSettings s ∧
      ∃ a, a ∈ qs_assets s ∧ qa_id a = id ∧ is_quarantined a = true ∧ stale_asset (decommission_cutoff s) a = true
  | _ => False
  end.
(** One of them happened in the run of [ops]. *)
Definition bypassed (ops : list (QOp W)) s (id : string) : Prop :=
  ∃ pre op post, ops = pre ++ op :: post ∧ bypasses op (exec pre s) id.

(** ** Columns *)

Lemma ids_map_asset id f l : (∀ a, qa_id (f a) = qa_id a) → qa_id <$> map_asset id f l = qa_id <$> l.
Proof.
  intros Hf. unfold map_asset. rewrite <-list_fmap_compose. apply list_fmap_ext. intros i a _. simpl.
  by destruct (String.eqb _ _).
Qed.

Section book.
Context (E : string → Prop).
Notation book := (book_except E).

Lemma book_same s s' :
  qs_assets s' = qs_assets s → qs_sightings s' = qs_sightings s → book s → book s'.
Proof. intros Ha Hs [H1 H2 H3 H4 H5]. split; rewrite ?Ha, ?Hs; done. Qed.

Lemma book_map id f s :
  book s → (∀ a, qa_id (f a) = qa_id a) →
  (∀ a, a ∈ qs_assets s → qa_id a = id → row_marks (f a) ∧ (¬ E id → row_ok (f a))) →
  book (set_assets (map_asset id f (qs_assets s)) s).
Proof.
  intros [H1 H2 H3 H4 H5] Hid Hf. split; cbn [qs_assets qs_sightings set_assets]; rewrite ?ids_map_asset by done; [| |done..].
  - intros a (b & -> & Hb)%list_elem_of_fmap. destruct (String.eqb_spec (qa_id b) id) as [He|]; [by apply Hf|by apply H1].
  - intros a (b & -> & Hb)%list_elem_of_fmap. destruct (String.eqb_spec (qa_id b) id) as [He|]; [|by apply H2].
    rewrite Hid, He. by apply Hf.
Qed.

Lemma asset_row_unique s a b : NoDup (qa_id <$> qs_assets s) → a ∈ qs_assets s → b ∈ qs_assets s → qa_id a = qa_id b → a = b.
Proof.
  induction (qs_assets s) as [|x l IH]; [by intros _ ?%elem_of_nil|]. rewrite fmap_cons.
  intros [Hx Hnd]%NoDup_cons [->|Ha]%elem_of_cons [->|Hb]%elem_of_cons Heq; try done.
  - exfalso. apply Hx. rewrite Heq. by apply list_elem_of_fmap_2.
  - exfalso. apply Hx. rewrite <-Heq. by apply list_elem_of_fmap_2.
  - by apply IH.
Qed.

Lemma keeps_net_only {A} (m : M (QState W) A) : net_only m → keeps book m.
Proof. intros Hm s s' r Hs [w ->]%Hm. by eapply book_same; [..|exact Hs]. Qed.
Lemma keeps_hattempt {S A} (P : S → Prop) (m : M S A) : keeps P m → keeps P (hattempt m).
Proof. intros Hm s s' r Hs. unfold hattempt. destruct (m s) as [s1 x] eqn:He. intros [= <- <-]. by eapply Hm. Qed.
Lemma keeps_hcollect {S A B} (P : S → Prop) (f : A → M S B) l : (∀ x, keeps P (f x)) → keeps P (hcollect f l).
Proof.
  intros Hf. induction l as [|x l IH]; simpl; [apply keeps_readonly, readonly_hret|].
  apply keeps_hbind; [done|]. intros y. apply keeps_hbind; [done|]. intros ys. apply keeps_readonly, readonly_hret.
Qed.
Lemma keeps_hforeach {S A} (P : S → Prop) (f : A → M S unit) l : (∀ x, keeps P (f x)) → keeps P (hforeach l f).
Proof.
  intros Hf. induction l as [|x l IH]; simpl; [apply keeps_readonly, readonly_hret|]. by apply keeps_hbind.
Qed.
Lemma keeps_log_q action id : keeps book (logEvent (W := W) action id).
Proof. intros s s' r Hs [= <- <-]. by eapply book_same; [..|exact Hs]. Qed.

(** ** Quarantine, release, verify *)

(** A row that a quarantine has written is marked and says so. *)
Lemma quarantined_row_ok params t a b r :
  row_marks a → (qa_status a = "quarantined"%string → ¬ E (qa_id a) → is_Some (qa_statusBefore a)) →
  (∀ x, x ∈ qx_targets r → target_ok (macsForAsset a) x) → macsForAsset a ≠ [] →
  List.filter (is_status Synced) (qx_targets r) ≠ [] →
  row_marks (quarantined_row params t (qx_targets r) a b) ∧ (¬ E (qa_id a) → row_ok (quarantined_row params t (qx_targets r) a b)).
Proof.
  intros [Hm _] Hbefore Hok Hmacs Hsync.
  assert (marked (quarantined_row params t (qx_targets r) a b)) as Hmark.
  { split_and!; cbn; [|by eexists|].
    - destruct (List.filter (is_status Synced) (qx_targets r)) as [|x l] eqn:Hf; [done|].
      assert (x ∈ List.filter (is_status Synced) (qx_targets r)) as Hx by (rewrite Hf; left).
      apply elem_bfilter in Hx as [Hx Hst%bool_decide_eq_true]. exists x. split; [done|].
      destruct (Hok x Hx) as [(_ & Hp & _)|(Hf' & _)]; [|congruence]. split; congruence.
    - destruct (String.eqb_spec (qa_status a) "quarantined") as [Hq|Hq]; [|congruence].
      destruct Hm as [(_ & -> & _)|(_ & _ & ?)]; done. }
  split; [split; [by right|]|].
  - cbn. intros x Hx Hst. destruct (Hok x Hx) as [(_ & Hp & _)|(Hf' & _)]; congruence.
  - intros HE. split; [|done]. intros _. split; [done|]. cbn.
    destruct (String.eqb_spec (qa_status a) "quarantined") as [Hq|Hq]; [by apply Hbefore|by eexists].
Qed.

Lemma keeps_quarantineAsset params : keeps book (quarantineAsset (W := W) params).
Proof.
  intros s s' [r|e] Hs Hr.
  2:{ apply quarantineAsset_throw in Hr as [w [->|[id ->]]]; by eapply book_same; [..|exact Hs]. }
  apply quarantineAsset_ok in Hr as (a & w & Ha & _ & Hmacs & Hfan & Hsync & ->).
  destruct (find_asset_some _ _ _ Ha) as [Hin _].
  eapply book_same; [| |apply (book_map (qa_id a) (quarantined_row params (now w) (qx_targets r) a) s Hs)]; [done..|].
  intros b Hb Hid. apply quarantined_row_ok; [by apply (bk_marks _ _ Hs)| |apply Hfan|done|done].
  intros Hq HE. by apply (bk_rows _ _ Hs a Hin HE).
Qed.

Lemma keeps_releaseQuarantine id actor k : keeps book (releaseQuarantine (W := W) id actor k).
Proof.
  intros s s' r Hs Hr. apply releaseQuarantine_run in Hr as [(e & -> & ->)|(a & w & x & Ha & Hq & -> & _ & _ & _ & Has & Hsi & _)]; [done|].
  destruct (find_asset_some _ _ _ Ha) as [Hin <-].
  set (st := default "active"%string (qa_statusBefore a)) in *.
  assert (st ≠ "quarantined"%string) as Hst.
  { unfold st. destruct (bk_marks _ _ Hs a Hin) as [[(_ & -> & _)|(_ & _ & Hb)] _]; [done|].
    destruct (qa_statusBefore a) as [x'|]; [|done]. cbn. unfold id. congruence. }
  apply (book_same (set_assets (map_asset (qa_id a) (stamp_release (now w) actor st) (qs_assets s)) s)); [exact Has|exact Hsi|].
  apply book_map; [done..|]. intros b Hb _. split.
  - split; [by left|by intros t ?%elem_of_nil].
  - intros _. split; [by intros ?|done].
Qed.

(** A checked target is the recorded one, or that one marked as drifted. *)
Definition checked (t y : TargetRecord) : Prop := y = t ∨ tr_status t = Synced ∧ ∃ missing, y = drifted missing t.

Lemma verify_on_ok a macs t s s' y b : verify_on (W := W) a macs t s = (s', Ok (y, b)) → checked t y.
Proof.
  unfold verify_on, hattempt, hbind at 1, hgets. destruct (target_integration t s) as [i|]; [|intros [= <- <- <-]; by left].
  unfold hbind at 1. match goal with |- context [hbind ?m ?k s] => destruct (hbind m k s) as [s1 [[p l]|e]] end.
  - unfold is_status. case_bool_decide as Hst; [|intros [= <- <- <-]; by left].
    destruct p; intros [= <- <- <-]; [by left|]. right. split; [done|]. by eexists.
  - intros [= <- <- <-]. by left.
Qed.

Lemma verifyAssetQuarantine_ok id k s s' r :
  verifyAssetQuarantine (W := W) id k s = (s', Ok r) →
  ∃ a w, find_asset id s = Some a ∧ s' = set_world w s ∧ Forall2 checked (qa_targets a) r.1.
Proof.
  intros Hr. pose proof Hr as Hnet. apply net_only_verify in Hnet as [w ->].
  unfold verifyAssetQuarantine in Hr. unfold hbind at 1, hgets in Hr.
  destruct (find_asset id s) as [a|]; [|done]. exists a, w. split_and!; [done..|].
  hinv. apply hcollect_elem in Hm0. cbn [fst]. induction Hm0 as [|t [y b] l l' (s1 & s2 & Hv) _ IH]; constructor; [|done].
  by eapply verify_on_ok.
Qed.

Lemma marked_checked a l : marked a → Forall2 checked (qa_targets a) l → marked (with_targets l a).
Proof.
  intros ((t & Hin & Hheld) & H2) Hl. split; [|done].
  apply list_elem_of_lookup in Hin as [n Hn]. destruct (Forall2_lookup_l _ _ _ _ _ Hl Hn) as (y & Hy & Hc).
  exists y. split; [by eapply list_elem_of_lookup_2|]. destruct Hc as [->|(_ & missing & ->)]; [done|]. by destruct Hheld.
Qed.
Lemma unmarked_checked a l : unmarked a → Forall2 checked (qa_targets a) l → unmarked (with_targets l a).
Proof. intros (He & H2) Hl. split; [|done]. rewrite He in Hl. by inversion Hl. Qed.
Lemma row_marks_checked a l : row_marks a → Forall2 checked (qa_targets a) l → row_marks (with_targets l a).
Proof.
  intros [Hm Ht] Hl. split.
  - destruct Hm; [left; by apply unmarked_checked|right; by apply marked_checked].
  - intros y Hy Hst. apply list_elem_of_lookup in Hy as [n Hn]. destruct (Forall2_lookup_r _ _ _ _ _ Hl Hn) as (t & Hx & Hc).
    apply list_elem_of_lookup_2 in Hx. destruct Hc as [->|(Hs & missing & ->)]; [by apply Ht|].
    cbn. apply Ht; [done|]. by rewrite Hs.
Qed.
Lemma row_ok_checked a l : row_ok a → Forall2 checked (qa_targets a) l → row_ok (with_targets l a).
Proof.
  intros [Hi Ho] Hl. split; cbn [with_targets qa_status qa_statusBefore].
  - intros Hq. destruct (Hi Hq). split; [by apply marked_checked|done].
  - intros Hq. apply unmarked_checked; [by apply Ho|done].
Qed.

(** A check whose result is stored keeps the book. *)
Lemma keeps_store_check {B} id k (m : list TargetRecord * bool → M (QState W) B) :
  (∀ r s a w, find_asset id s = Some a → Forall2 checked (qa_targets a) (fst r) → book s →
     ∀ s' x, m r (set_world w s) = (s', x) → book s') →
  keeps book (let! r := verifyAssetQuarantine (W := W) id k in m r).
Proof.
  intros Hm s s' r Hs. unfold hbind. destruct (verifyAssetQuarantine id k s) as [s1 [v|e]] eqn:Hv.
  - apply verifyAssetQuarantine_ok in Hv as (a & w & Ha & -> & Hl). by eapply Hm.
  - apply net_only_verify in Hv as [w ->]. intros [= <- <-]. by eapply book_same; [..|exact Hs].
Qed.

Lemma store_check_ok id s a w l :
  find_asset id s = Some a → Forall2 checked (qa_targets a) l → book s →
  book (set_assets (map_asset id (with_targets l) (qs_assets s)) (set_world w s)).
Proof.
  intros Ha Hl Hs. destruct (find_asset_some _ _ _ Ha) as [Hin Hid].
  eapply book_same; [| |apply (book_map id (with_targets l) s Hs)]; [done..|].
  intros b Hb Hbid. assert (b = a) as -> by (eapply asset_row_unique; [apply Hs|done..|congruence]). split.
  - apply row_marks_checked; [by apply (bk_marks _ _ Hs)|done].
  - intros HE. apply row_ok_checked; [apply (bk_rows _ _ Hs); [done|by rewrite Hid]|done].
Qed.

Lemma keeps_post_verify c id : keeps book (post_quarantine_verify (W := W) c id).
Proof.
  unfold post_quarantine_verify. apply keeps_store_check. intros r s a w Ha Hl Hs s' x.
  destruct (snd r); [|intros [= <- _]; by eapply book_same; [..|exact Hs]].
  unfold hbind at 1 2. rewrite update_asset_run by (by exists a). intros [= <- _].
  eapply book_same; [| |by apply (store_check_ok id s a w)]; done.
Qed.

Lemma keeps_auto_check pair : keeps book (auto_check (W := W) pair).
Proof.
  assert (keeps book (quarantineAsset (W := W) (mkQuarantineParams pair.1 "system:auto-quarantine" None None) ;! hret tt)) as Hq.
  { apply keeps_hbind; [apply keeps_quarantineAsset|]. intros _. apply keeps_readonly, readonly_hret. }
  unfold auto_check. apply keeps_hbind; [apply keeps_readonly; eauto with frame|]. intros [asset|]; [|apply keeps_readonly, readonly_hret].
  destruct (negb _); [apply keeps_readonly, readonly_hret|]. destruct (List.find _ _) as [t|]; [|exact Hq].
  destruct (is_status Synced t); [|exact Hq].
  apply keeps_store_check. intros r s a w Ha Hl Hs s' x. destruct (snd r).
  - rewrite update_asset_run by (by exists a). intros [= <- _]. by apply store_check_ok with (a := a).
  - intros [= <- _]. by eapply book_same; [..|exact Hs].
Qed.

(** ** Sightings, edits and the jobs *)

Lemma upsert_sighting_ok t s r : book s → book (upsert_sighting t s r) ∧ qs_assets (upsert_sighting t s r) = qs_assets s.
Proof.
  intros [H1 H1' H2 H3 H4]. unfold upsert_sighting. destruct (existsb _ _) eqn:Hex.
  - split; [|done]. split; cbn [qs_assets qs_sightings set_sightings]; [done..| |].
    + rewrite <-list_fmap_compose. erewrite list_fmap_ext; [exact H3|]. intros i x _. simpl. by destruct (is_pair _ _ x).
    + intros x (y & -> & Hy)%list_elem_of_fmap. specialize (H4 y Hy). by destruct (is_pair _ _ y).
  - case_bool_decide as Hf; [done|]. split; [|done]. split; cbn [qs_assets qs_sightings set_sightings]; [done..| |].
    + rewrite fmap_app. apply NoDup_app. split_and!; [done| |apply NoDup_singleton].
      intros p (x & -> & Hx)%list_elem_of_fmap [= Ha Hd]%list_elem_of_singleton.
      apply not_true_iff_false in Hex. apply Hex, existsb_exists. exists x.
      rewrite <-list_elem_of_In. split; [done|]. unfold is_pair. by rewrite Ha, Hd, !String.eqb_refl.
    + intros x [Hx| ->%list_elem_of_singleton]%elem_of_app; [by apply H4|]. cbn.
      destruct (find_asset (si_assetId r) s) as [a|] eqn:Ha; [|done]. destruct (find_asset_some _ _ _ Ha) as [Hin <-].
      by apply list_elem_of_fmap_2.
Qed.

Lemma keeps_recordSightings rows : keeps book (recordSightings (W := W) rows).
Proof.
  intros s s' r Hs [= <- _]. generalize (mvalues (fold_left (dedupe_step (now (qs_world s))) rows [])).
  generalize (now (qs_world s)). intros t l. revert s Hs. induction l as [|x l IH]; intros s Hs; [done|].
  cbn [fold_left]. apply IH, upsert_sighting_ok, Hs.
Qed.

Lemma NoDup_fmap_bfilter {A B} (f : A → B) p l : NoDup (f <$> l) → NoDup (f <$> List.filter p l).
Proof.
  induction l as [|a l IH]; [constructor|]. rewrite fmap_cons. intros [Ha Hl]%NoDup_cons. cbn [List.filter].
  destruct (p a); [|by apply IH]. rewrite fmap_cons. apply NoDup_cons. split; [|by apply IH].
  intros (b & Heq & [Hb _]%elem_bfilter)%list_elem_of_fmap. apply Ha. rewrite Heq. by apply list_elem_of_fmap_2.
Qed.

Lemma book_drop gone s : book s → book (drop_assets gone s).
Proof.
  intros [H1 H1' H2 H3 H4]. unfold drop_assets. split; cbn [qs_assets qs_sightings set_assets set_sightings].
  - intros a [Ha _]%elem_bfilter. by apply H1.
  - intros a [Ha _]%elem_bfilter. by apply H1'.
  - by apply NoDup_fmap_bfilter.
  - by apply NoDup_fmap_bfilter.
  - intros x [Hx Hg]%elem_bfilter. specialize (H4 x Hx). apply list_elem_of_fmap in H4 as (a & Heq & Ha).
    rewrite Heq. apply list_elem_of_fmap_2, elem_bfilter. split; [done|]. by rewrite <-Heq.
Qed.

Lemma keeps_drop gone : keeps book (hmodify (S := QState W) (drop_assets gone)).
Proof. intros s s' r Hs [= <- _]. by apply book_drop. Qed.

(** A new status leaves the marks alone, and agrees with them where it is on the
    same side. *)
Lemma row_marks_status st t u a : row_marks a → row_marks (restamp_status st t u a).
Proof. by intros [? ?]. Qed.
Lemma row_ok_status st t u a : is_quarantined a = false → st ≠ "quarantined"%string → row_ok a → row_ok (restamp_status st t u a).
Proof. intros Hq Hst [_ Ho]. apply String.eqb_neq in Hq. split; [done|]. intros _. by apply Ho. Qed.

Lemma keeps_put_asset_status id st u : keeps book (put_asset_status (W := W) id st u).
Proof.
  intros s s' r Hs. unfold put_asset_status, hbind at 1, hgets at 1. destruct (find_asset id s) as [a|] eqn:Ha; [|by intros [= <- _]].
  destruct st as [st|]; [|by intros [= <- _]].
  destruct (find_asset_some _ _ _ Ha) as [Hin Hid]. pose proof (bk_rows _ _ Hs a Hin) as Hrow. rewrite Hid in Hrow.
  destruct (String.eqb_spec st "quarantined") as [->|Hst], (String.eqb_spec (qa_status a) "quarantined") as [Hq|Hq];
    cbn [negb andb]; try (by intros [= <- _]);
    unfold hbind, hguard, hret, q_now, hgets; rewrite update_asset_run by (by exists a); intros [= <- _];
    (apply book_map; [done..|]); intros b Hb Hbid;
    (assert (b = a) as -> by (eapply asset_row_unique; [apply Hs|done..|congruence]));
    (split; [apply row_marks_status, (bk_marks _ _ Hs a Hin)|intros HE; specialize (Hrow HE)]).
  - destruct Hrow as [Hi _]. split; [|done]. intros _. by apply Hi.
  - apply row_ok_status; [|done..]. by apply String.eqb_neq.
Qed.

Lemma post_asset_ok i h ip mac ty st u s s' r :
  book s → (st = Some "quarantined"%string → E i) → post_asset i h ip mac ty st u s = (s', r) → book s'.
Proof.
  intros Hs Hst. unfold post_asset. unfold hbind at 1, q_now, hgets at 1. unfold hbind at 1, hgets at 1.
  unfold hbind at 1, hguard at 1. case_bool_decide as Ht; [by intros [= <- _]|]. intros [= <- _].
  assert (i ∉ qa_id <$> qs_assets s) as Hid.
  { intros (a & -> & Ha)%list_elem_of_fmap. apply Ht. unfold find_asset. destruct (List.find _ _) eqn:Hf; [done|].
    pose proof (find_none _ _ Hf a) as Hn. cbv beta in Hn. apply list_elem_of_In in Ha. specialize (Hn Ha).
    by rewrite String.eqb_refl in Hn. }
  destruct Hs as [H1 H1' H2 H3 H4]. split; cbn [qs_assets qs_sightings set_assets log_q].
  - intros a [Ha| ->%list_elem_of_singleton]%elem_of_app; [by apply H1|]. split; [by left|by intros t ?%elem_of_nil].
  - intros a [Ha| ->%list_elem_of_singleton]%elem_of_app; [by apply H1'|]. cbn. intros HE. split; cbn; [|done].
    intros Hq. destruct HE. apply Hst. destruct st as [st|]; cbn in Hq; [|discriminate]. unfold id in Hq. congruence.
  - rewrite fmap_app. apply NoDup_app. split_and!; [done| |apply NoDup_singleton].
    intros x Hx ->%list_elem_of_singleton. done.
  - done.
  - intros x Hx. rewrite fmap_app. apply elem_of_app. left. by apply H4.
Qed.

(** The writers that do not ask whether the asset is quarantined. *)
Lemma status_writer_ok id f s s' r :
  book s → (held_in_quarantine id s → E id) → (∀ a, qa_id (f a) = qa_id a) →
  (∀ a, row_marks a → row_marks (f a)) → (∀ a, is_quarantined a = false → row_ok a → row_ok (f a)) →
  asset_update id f s = (s', r) → book s'.
Proof.
  intros Hs HE Hf Hm Hrow. unfold asset_update, hbind, hgets.
  destruct (find_asset id s); cbn [bool_decide]; [|by intros [= <- _]].
  rewrite bool_decide_eq_false_2 by done. intros [= <- _]. apply book_map; [done..|].
  intros a Ha Hid. split; [by apply Hm, (bk_marks _ _ Hs)|]. intros Hn. apply Hrow; [|apply (bk_rows _ _ Hs); [done|by rewrite Hid]].
  apply not_true_iff_false. intros Hq. apply Hn, HE. by exists a.
Qed.

Lemma directory_status_ok d : directory_status d ≠ "quarantined"%string.
Proof. by destruct d. Qed.
Lemma directory_write_marks t n d a : row_marks a → row_marks (write_directory_status t n d a).
Proof. unfold write_directory_status. destruct (String.eqb _ _); [done|apply row_marks_status]. Qed.
Lemma directory_write_ok t n d a : is_quarantined a = false → row_ok a → row_ok (write_directory_status t n (directory_status d) a).
Proof.
  intros Hq Ha. unfold write_directory_status. destruct (String.eqb _ _); [done|].
  apply row_ok_status; [done|apply directory_status_ok|done].
Qed.

Lemma keeps_flush_sightings rows : keeps book (flush_sightings (W := W) rows).
Proof.
  unfold flush_sightings. case_bool_decide; [apply keeps_readonly, readonly_hret|].
  apply keeps_hbind; [apply keeps_recordSightings|]. intros _. apply keeps_hforeach. intros p.
  apply keeps_hbind; [apply keeps_hattempt, keeps_auto_check|]. intros _. apply keeps_readonly, readonly_hret.
Qed.

Lemma decommission_ok s s' r :
  book s → (∀ id, bypasses DecommissionJob s id → E id) → decommissionStaleAssets s = (s', r) → book s'.
Proof.
  intros Hs HE. unfold decommissionStaleAssets, hbind at 1, hget. destruct (Z.leb_spec (getAssetDecommissionSettings s) 0) as [|Hpos];
    [by intros [= <- _]|].
  set (stale := qa_id <$> List.filter _ (qs_assets s)). set (t := now (qs_world s)).
  set (s1 := set_assets ((λ a, if bool_decide (qa_id a ∈ stale) then restamp_status "decommissioned" t "system" a else a)
                           <$> qs_assets s) s).
  assert (book s1) as Hs1.
  { destruct Hs as [H1 H1' H2 H3 H4].
    assert (qa_id <$> qs_assets s1 = qa_id <$> qs_assets s) as Hids.
    { cbn. rewrite <-list_fmap_compose. apply list_fmap_ext. intros i a _. simpl. by case_bool_decide. }
    split; rewrite ?Hids; [| |done..]; intros a (b & -> & Hb)%list_elem_of_fmap; case_bool_decide as Hst; try (by apply H1); try (by apply H1').
    - by apply row_marks_status, H1.
    - cbn. intros Hn. apply row_ok_status; [|done|by apply H1']. apply list_elem_of_fmap in Hst as (c & Hc & [Hcin Hcs]%elem_bfilter).
      assert (b = c) as <- by (by eapply asset_row_unique). apply not_true_iff_false. intros Hb'. apply Hn, HE.
      split; [done|]. by exists b. }
  change (hforeach stale (logEvent "asset.auto_decommissioned") s1 = (s', r) → book s').
  intros Hr. eapply (keeps_hforeach book); [|exact Hs1|exact Hr]. intros x. apply keeps_log_q.
Qed.

(** Every step keeps the book, but for the assets it goes around. *)
Lemma run_op_ok op s s' r : book s → (∀ id, bypasses op s id → E id) → run_op op s = (s', r) → book s'.
Proof.
  intros Hs HE Hrun. destruct op; cbn [run_op] in *.
  - revert Hrun. apply keeps_hbind; [|intros; apply keeps_readonly, readonly_hret|done]. apply keeps_quarantineAsset.
  - revert Hrun. apply keeps_hbind; [|intros; apply keeps_readonly, readonly_hret|done]. apply keeps_releaseQuarantine.
  - revert Hrun. apply keeps_hbind; [|intros; apply keeps_readonly, readonly_hret|done]. apply keeps_post_verify.
  - revert Hrun. apply keeps_hbind; [|intros; apply keeps_readonly, readonly_hret|done]. apply keeps_hcollect. intros x.
    apply keeps_hbind; [|intros; apply keeps_readonly, readonly_hret]. apply keeps_hattempt, keeps_quarantineAsset.
  - revert Hrun. apply keeps_hbind; [|intros; apply keeps_readonly, readonly_hret|done]. apply keeps_hcollect. intros x.
    apply keeps_hbind; [|intros; apply keeps_readonly, readonly_hret]. apply keeps_hattempt, keeps_releaseQuarantine.
  - revert Hrun. unfold put_sighting_settings. apply keeps_hbind; [|intros; apply keeps_readonly, readonly_hret|done].
    apply keeps_hbind; [apply keeps_readonly; eauto with frame|]. intros _.
    apply keeps_hbind; [intros x x' y Hx [= <- _]; by eapply book_same; [..|exact Hx]|]. intros _.
    apply keeps_hbind; [apply keeps_log_q|]. intros _. apply keeps_readonly, readonly_hret.
  - revert Hrun. by apply keeps_put_asset_status.
  - eapply post_asset_ok; [exact Hs| |exact Hrun]. intros Hst. by apply HE.
  - revert Hrun. apply keeps_hbind; [apply keeps_readonly; eauto with frame| |done]. intros [a|]; [|apply keeps_readonly, readonly_hthrow].
    apply keeps_hbind; [apply keeps_readonly; eauto with frame|]. intros _.
    apply keeps_hbind; [apply keeps_drop|]. intros _. apply keeps_log_q.
  - revert Hrun. apply keeps_hbind; [|intros; apply keeps_readonly, readonly_hret|done].
    apply keeps_hbind; [apply keeps_readonly; eauto with frame|]. intros _.
    apply keeps_hbind; [by apply keeps_readonly; intros x x' y [= <- _]|]. intros x.
    apply keeps_hbind; [apply keeps_readonly; eauto with frame|]. intros _.
    apply keeps_hbind; [apply keeps_drop|]. intros _.
    apply keeps_hbind; [apply keeps_log_q|]. intros _. apply keeps_readonly, readonly_hret.
  - revert Hrun. by apply keeps_flush_sightings.
  - unfold entra_update, q_now, hbind at 1, hgets in Hrun. eapply status_writer_ok; [exact Hs| | | | |exact Hrun].
    + intros Hq. by apply HE.
    + intros a. unfold write_directory_status. by destruct (String.eqb _ _).
    + intros a [? ?]. by apply directory_write_marks.
    + intros a Hq [? ?]. by apply directory_write_ok.
  - unfold ad_update, q_now, hbind at 1, hgets in Hrun. eapply status_writer_ok; [exact Hs| | | | |exact Hrun].
    + intros Hq. by apply HE.
    + intros a. unfold write_directory_status. by destruct (String.eqb _ _).
    + intros a. apply directory_write_marks.
    + intros a. apply directory_write_ok.
  - by eapply decommission_ok.
  - injection Hrun as <- _. by eapply book_same; [..|exact Hs].
Qed.
End book.

Lemma book_weaken (E E' : string → Prop) s : (∀ id, E id → E' id) → book_except E s → book_except E' s.
Proof. intros HE [H1 H2 H3 H4 H5]. split; try done. intros a Ha Hn. apply H2; [done|]. intros Hx. by apply Hn, HE. Qed.

(** ** What it adds up to *)


(** C40: what a token may do.  Whatever comes of it, a quarantine asked for with
    a token calls only FortiGates of enabled integrations in [scope] with
    quarantine push turned on, each through its own transport, and for that asset;
    one that succeeds is not of a firewall, switch or access point, records only
    targets of such integrations, and records as synced only a FortiGate that was
    asked and showed every MAC of the asset.  A release or a check with a token
    calls only FortiGates of integrations in [scope], and with a recorded target
    outside [scope] it is refused and changes nothing.  (A quarantine replaces the
    recorded targets, and with them what the token may release:
    [token_release_by_requarantine].) *)
Theorem token_scope_holds s scope :
  let mine := in_scope scope s in
  let pushing i := push_on s i ∧ i_id (qi_row i) ∈ scope in
  (∀ params s' r, qp_tokenIntegrationIds params = Some scope → quarantineAsset params s = (s', r) →
     rtc (device_step pushing (qp_assetId params)) (qs_world s) (qs_world s') ∧
     ∀ x, r = Ok x → ∃ a, find_asset (qp_assetId params) s = Some a ∧ infra (qa_assetType a) = false ∧
     ∀ t, t ∈ qx_targets x → ∃ i, pushing i ∧ i_id (qi_row i) = tr_integrationId t ∧
       (tr_status t = Synced → tr_pushedMacs t = macsForAsset a ∧
          read_back (W := W) (qi_row i) (tr_fortigateDevice t) a (macsForAsset a))) ∧
  (∀ id actor s' r, releaseQuarantine id actor (Some scope) s = (s', r) → rtc (device_step mine id) (qs_world s) (qs_world s')) ∧
  (∀ id s' r, verifyAssetQuarantine id (Some scope) s = (s', r) → rtc (device_step mine id) (qs_world s) (qs_world s')) ∧
  (∀ id actor a t, find_asset id s = Some a → t ∈ qa_targets a → tr_integrationId t ∉ scope →
     (∃ e, releaseQuarantine id actor (Some scope) s = (s, Throw e)) ∧
     (∃ m, verifyAssetQuarantine id (Some scope) s = (s, Throw (AppError 403 m)))).
Proof.
  intros mine pushing. split_and!.
  - intros params s' r Hk Hr. split; [by eapply calls_quarantineAsset|]. intros x ->.
    apply quarantineAsset_ok in Hr as (a & w & Ha & Hinf & _ & Hfan & _ & _).
    exists a. split_and!; [done..|]. intros t Ht. destruct (fo_from _ _ _ _ Hfan t Ht) as (y & Hy & Hp).
    destruct Hp as (Hi & Hd & i & Hpush & Hid & Hread). exists i. split_and!; [split; [done|]|done|].
    + unfold scoped_candidates in Hy. rewrite Hk in Hy. apply elem_bfilter in Hy as [_ Hy].
      rewrite Hid. by eapply token_covers_in.
    + intros Hst. split; [|by apply Hread].
      destruct (fo_ok _ _ _ _ Hfan t Ht) as [(_ & ? & _)|(? & _)]; [done|congruence].
  - intros id actor s' r Hr. by eapply calls_releaseQuarantine.
  - intros id s' r Hr. by eapply calls_verifyAssetQuarantine.
  - intros id actor a t Ha Ht Hout. split.
    + destruct (releaseQuarantine id actor (Some scope) s) as [s1 r] eqn:Hr.
      apply releaseQuarantine_run in Hr as [(e & -> & ->)|(a' & w & x & Ha' & _ & -> & Hsc & _)]; [by exists e|].
      exfalso. simplify_eq. by apply Hout, (Hsc scope).
    + unfold verifyAssetQuarantine, hbind, hgets, scope_guard. rewrite Ha.
      rewrite bool_decide_eq_false_2; [by eexists|]. intros Hl. apply nil_length_inv in Hl.
      assert (t ∈ outside_scope scope (qa_targets a)) as Hin.
      { apply elem_bfilter. split; [done|]. by rewrite bool_decide_eq_false_2. }
      rewrite Hl in Hin. by apply elem_of_nil in Hin.
Qed.

Lemma lefts_rights_length {A B} (os : list (A + B)) : (length (lefts os) + length (rights os))%nat = length os.
Proof.
  induction os as [|[d|d] os IH]; [done| |].
  - change (lefts (inl d :: os)) with (d :: lefts os). change (rights (inl d :: os)) with (rights os). cbn [length]. lia.
  - change (lefts (inr d :: os)) with (lefts os). change (rights (inr d :: os)) with (d :: rights os). cbn [length]. lia.
Qed.

(** A release that is refused changes nothing; one that is not tries every
    recorded FortiGate once, in order, reports each as either cleared or failed,
    and gives the asset the status it had before, with no trace of the
    quarantine. *)
Theorem release_accounts_for_targets id actor k s s' r :
  releaseQuarantine (W := W) id actor k s = (s', r) →
  (∃ e, r = Throw e ∧ s' = s) ∨
  ∃ a x (os : list (string + string * string)) t, find_asset id s = Some a ∧ qa_status a = "quarantined"%string ∧ r = Ok x ∧
    outcome_device <$> os = tr_fortigateDevice <$> qa_targets a ∧
    rr_unpushedFrom x = lefts os ∧ rr_failedToUnpush x = rights os ∧
    (length (rr_unpushedFrom x) + length (rr_failedToUnpush x))%nat = length (qa_targets a) ∧
    rr_newStatus x = default "active"%string (qa_statusBefore a) ∧
    qs_assets s' = map_asset id (stamp_release t actor (rr_newStatus x)) (qs_assets s).
Proof.
  intros [Hr|(a & w & x & Ha & Hq & -> & _ & Hst & (os & Hos & Hl & Hf) & Has & _)]%releaseQuarantine_run; [by left|].
  right. exists a, x, os, (now w). rewrite Hst. split_and!; try done.
  - clear -Hos. induction Hos as [|t o l os Ho _ IH]; [done|]. by rewrite !fmap_cons, IH, Ho.
  - rewrite Hl, Hf. apply Forall2_length in Hos. rewrite Hos. apply lefts_rights_length.
Qed.
End states.

(** ** A site with two FortiGates *)

Module QuarantineExample.
Import RefFleet.
#[local] Existing Instance RefFleet.net.

Definition laptop : QAsset :=
  mkQAsset "a1" (Some "laptop"%string) None "workstation" (Some "AA:BB:CC:DD:EE:01"%string) [] "active" None None None None None None [] (Some 0).
Definition sighting (device integration : string) (seen : Z) : Sighting :=
  mkSighting "a1" (Some integration) device "dhcp_lease" None seen seen.
Definition day (n : Z) : Z := n * DAY_MS.
Definition site (xs : list Sighting) (t : Z) : QState Fleet :=
  mkQState [laptop] xs None (Some 6) [fleet_gate "i1" "fg1"; fleet_gate "i2" "fg2"] [] (mkFleet [] t None).
Definition ann : Caller := mkCaller None (Some "ann"%string).
Definition siem : Caller := mkCaller (Some (mkAuthenticated "t1" "siem" ["assets:quarantine"%string] ["i2"%string])) None.

Definition tick (t : Z) (s : QState Fleet) : QState Fleet :=
  set_world (mkFleet (fl_rows (qs_world s)) t (fl_tls (qs_world s))) s.
Definition target_of (host : string) : string := "https://" +:+ host +:+ ":443" +:+ target_path name.

Definition fresh : QState Fleet := site [sighting "fg1" "i1" 0] (day 1).
Definition held_now : QState Fleet := exec [ReqQuarantine ann "a1" None] fresh.

Lemma fresh_ok : book_ok fresh.
Proof.
  split.
  - intros a ->%list_elem_of_singleton. split; [by left|by intros t ?%elem_of_nil].
  - intros a ->%list_elem_of_singleton _. by split.
  - apply NoDup_singleton.
  - apply NoDup_singleton.
  - intros x ->%list_elem_of_singleton. by left.
Qed.
End QuarantineExample.

Import QuarantineExample.
#[local] Existing Instance RefFleet.net.


Definition both : QState RefFleet.Fleet := site [sighting "fg1" "i1" 0; sighting "fg2" "i2" 0] (day 1).

Lemma token_scope_holds_witness :
  (∃ r, snd (post_quarantine siem "a1" None both) = Ok r ∧ ∀ t, t ∈ qx_targets r → tr_integrationId t ∈ ["i2"%string]) ∧
  (∃ e, releaseQuarantine "a1" "api:siem" (Some ["i2"%string]) held_now = (held_now, Throw e)).
Proof.
  split.
  - destruct (post_quarantine siem "a1" None both) as [s' [r|e]] eqn:Hr; [|vm_compute in Hr; discriminate].
    exists r. split; [done|]. destruct (proj1 (token_scope_holds both ["i2"%string])
      (mkQuarantineParams "a1" "api:siem" None (Some ["i2"%string])) s' (Ok r) eq_refl Hr) as [_ Hok].
    destruct (Hok r eq_refl) as (a & _ & _ & Ht). intros t Hin. by destruct (Ht t Hin) as (i & [_ Hi] & <- & _).
  - destruct (find_asset "a1" held_now) as [a|] eqn:Ha; [|vm_compute in Ha; discriminate].
    eapply (proj2 (proj2 (proj2 (token_scope_holds held_now ["i2"%string]))) "a1"%string "api:siem"%string a
      (mkTarget "fg1" "i1" ["aa:bb:cc:dd:ee:01"%string] (day 1) Synced None)); [exact Ha| |].
    + vm_compute in Ha. injection Ha as <-. vm_compute. left.
    + by intros ?%list_elem_of_singleton.
Defined.

Lemma release_accounts_for_targets_witness :
  ∃ a x (os : list (string + string * string)), find_asset "a1" held_now = Some a ∧
    snd (delete_quarantine ann "a1" held_now) = Ok x ∧ outcome_device <$> os = tr_fortigateDevice <$> qa_targets a.
Proof.
  destruct (delete_quarantine ann "a1" held_now) as [s' r] eqn:Hr.
  destruct (release_accounts_for_targets "a1" (actor_of ann) (scope_of ann) held_now s' r Hr)
    as [(e & -> & _)|(a & x & os & t & Ha & _ & -> & Hos & _)]; [vm_compute in Hr; discriminate|].
  exists a, x, os. split_and!; [exact Ha|done|exact Hos].
Defined.

(** ** Entries that stay behind *)

(** The rows of the FortiGates after a run, and the status and targets of the laptop. *)
Definition left_behind (s : QState RefFleet.Fleet) : list string := (RefFleet.fl_rows (qs_world s)).*1.
Definition laptop_status (s : QState RefFleet.Fleet) : list (string * list string) :=
  (λ a, (qa_status a, tr_fortigateDevice <$> qa_targets a)) <$> qs_assets s.

(** A second quarantine replaces the recorded targets: the laptop that moved to a
    second site after half a year is released there, and its entry on the first
    FortiGate stays. *)
Theorem moved_laptop_leaves_entry :
  let s1 := exec [ReqQuarantine ann "a1" None] (site [sighting "fg1" "i1" 0] (day 100)) in
  let s2 := exec [DiscoveryFlush [mkSightingInput "a1" "fg2" "dhcp_lease" (Some (Some "i2"%string)) None None]] (tick (day 200) s1) in
  let s3 := exec [ReqRelease ann "a1"] s2 in
  laptop_status s1 = [("quarantined", ["fg1"])]%string ∧
  laptop_status s2 = [("quarantined", ["fg2"])]%string ∧ left_behind s2 = [target_of "fg1"; target_of "fg2"] ∧
  laptop_status s3 = [("active", [])]%string ∧ left_behind s3 = [target_of "fg1"].
Proof. vm_compute. done. Qed.

(** The same lets a token release what it may not: refused because a target is
    outside its integrations, it quarantines the asset again, which forgets that
    target, and releases it. *)
Theorem token_release_by_requarantine :
  let s1 := exec [ReqQuarantine ann "a1" None] both in
  let s2 := exec [ReqQuarantine siem "a1" None] s1 in
  let s3 := exec [ReqRelease siem "a1"] s2 in
  (∃ m, snd (delete_quarantine siem "a1" s1) = Throw (AppError 403 m)) ∧
  laptop_status s1 = [("quarantined", ["fg1"; "fg2"])]%string ∧
  laptop_status s2 = [("quarantined", ["fg2"])]%string ∧
  laptop_status s3 = [("active", [])]%string ∧ left_behind s3 = [target_of "fg1"].
Proof. split_and!; [eexists; vm_compute; reflexivity|vm_compute; reflexivity..]. Qed.

(** The daily job does not spare a quarantined asset: its status goes, the release
    is refused, the delete is not, and the entry stays on the FortiGate. *)
Theorem decommissioned_quarantine_is_stranded :
  let s1 := exec [DecommissionJob] (tick (day 300) held_now) in
  let s2 := exec [ReqDelete "a1"] s1 in
  laptop_status s1 = [("decommissioned", ["fg1"])]%string ∧
  (∃ m, snd (delete_quarantine ann "a1" s1) = Throw (AppError 409 m)) ∧
  qs_assets s2 = [] ∧ left_behind s2 = [target_of "fg1"].
Proof. split_and!; [vm_compute; reflexivity|eexists; vm_compute; reflexivity|vm_compute; reflexivity..]. Qed.

(** A directory sync does the same at the next run. *)
Theorem directory_sync_drops_quarantine :
  let s1 := exec [AdSync "a1" "corp" false] held_now in
  laptop_status s1 = [("active", ["fg1"])]%string ∧ left_behind s1 = [target_of "fg1"] ∧
  (∃ m, snd (delete_quarantine ann "a1" s1) = Throw (AppError 409 m)).
Proof. split_and!; [vm_compute; reflexivity..|eexists; vm_compute; reflexivity]. Qed.

(** POST /assets takes the status [quarantined], which PUT refuses: an asset
    quarantined on no FortiGate. *)
Theorem created_in_quarantine :
  laptop_status (exec [ReqCreate "a2" None None None None (Some "quarantined"%string) None] (site [] 0)) =
    [("active", []); ("quarantined", [])]%string.
Proof. vm_compute. done. Qed.
